(* ===== verification/_CoqProject ===== *)
-Q . S2P
Prelude.v
IntMath.v
MemTypes.v
Blk.v
CacheSet.v
SetAssoc.v
Tags.v
Policy.v
Lru.v
Hybrid.v
Rrip.v
Eaf.v
Bloom.v
Brp.v
BrpRecord.v
Hap.v
Account.v
HapLines.v
Lines.v
Memory.v
Monitor.v
Mshr.v
Queue.v
Cache.v
CacheSide.v
CacheLaws.v
MemLaws.v
View.v
Atomic.v
WholeLine.v
Uncached.v
Transparent.v
Init.v
Correct.v
Linked.v
FaLru.v
PacketQueue.v
CacheBase.v
Snoop.v
Timing.v
Frames.v
Ledger.v
TimingLaws.v
Registers.v
TimingRuns.v
Functional.v
Migration.v
MigrationLaws.v
FuncLaws.v
FuncCache.v
Hierarchy.v
Translator.v
Events.v
Pages.v
PageAlloc.v
PageTable.v
PageTableLaws.v
PageMove.v
PageRank.v
PageLists.v
PageRankLaws.v
PageRankInit.v
PageSwap.v
PageSwapRun.v
PageSwapLaws.v
PageSwapMoves.v
PageSwapEnd.v
PageSwapCorrect.v
