(* ===== verification/Prelude.v ===== *)
(** * The hybrid PCM/DRAM last-level caches of gem5Nvmain

    The repository couples gem5 (src/gem5-cache) with the NVMain memory
    simulator (src/nvmain-test), and its own work is a family of replacement
    policies for caches whose sets mix PCM and DRAM ways.  This development
    models the classic cache of gem5 as the repository has it: integer helpers,
    commands and packets, blocks, sets, tag stores, the fourteen replacement
    policies, the miss status holding registers, the memory below, the atomic
    access path that puts these together, and the timing protocol with its
    snoops, queues and flow control; the pages of the hybrid main memory, their
    tables and their ranking; and of NVMain the event queue and the
    address translation.

    ** The program's parts and the files that model them

    Paths are relative to src/gem5-cache/src.

    - [Prelude]: the error monad [outcome] ([Err AssertFail] for a failed
      [assert], [Fatal], [OutOfBounds], [DivByZero], [Diverge]), array access
      with the bounds the code relies on, loops, wrap-around ([u8], [u32],
      [u64], [i32], ...), and the lemmas and tactics every file uses.
    - [IntMath]: base/intmath.hh, base/bitfield.hh.
    - [MemTypes]: mem/packet.hh and packet.cc (commands, attributes), request.
    - [Blk]: mem/cache/blk.hh, blk.cc: status bits, load-locked reservations.
    - [CacheSet]: mem/cache/tags/cacheset.hh: lookup and reordering loops.
    - [SetAssoc]: mem/cache/tags/base_set_assoc.hh and .cc, base.cc: the tag
      store.  A set is a list of block numbers, the blocks are one array
      ([mem]), so that a block reached from the set, from the cache or from a
      policy is the same object.  [Tags] holds its laws, [Account] the laws of
      its books, [Lines] what the blocks say about lines held.
    - [Policy]: the interface of a replacement policy ([Policy], its laws
      [PolicyLaws]), and in one module per class: [Lru] (lru.cc, lru_wb.cc,
      pipp.cc, random_repl.cc), [Hybrid] (hyblru.cc, hybdip.cc, ihybdip.cc),
      [Rrip] (hybrrip.cc), [Eaf] (feaf.cc, setbloomfilter.hh), [Bloom]
      (heaf.cc, hybbf.cc, hsetbloomfilter.cc), [Brp] and [BrpRecord] (brp.cc),
      [Hap] (hap.cc, hap_test.cc).
    - [FaLru]: mem/cache/tags/fa_lru.hh and .cc, on blocks linked by indices.
    - [Memory]: packets with data, mem/abstract_mem.cc, mem/simple_mem.cc, and
      the interface of a memory ([MemSide], its laws [MemSideLaws] in
      [MemLaws]).
    - [Mshr], [Queue]: mem/cache/mshr.cc, mshr_queue.cc.
    - [Cache], [CacheSide]: mem/cache/cache_impl.hh, cache.hh, base.cc: fills,
      evictions, [access], [recvAtomic], maintenance visitors.
    - [PacketQueue]: mem/packet_queue.hh and .cc, the transmit list of a port.
      [CacheBase]: base.hh, base.cc, what a cache in timing mode keeps besides
      the cache proper: the write buffer, the causes it is blocked for, its
      ports.  [Snoop]: handleSnoop, recvTimingSnoopReq, recvAtomicSnoop.
      [Timing]: recvTimingReq, getNextMSHR, getTimingPacket, the send queue of
      the memory side, recvTimingResp.  The registers of the miss queue and of
      the write buffer are one heap, so that an MSHR pointer is an index.
    - [Frames], [Ledger], [TimingLaws], [Registers], [TimingRuns]: what each
      operation leaves alone; the multiset of targets in the registers; the
      books of requests, answers and causes kept by every step; those of the
      two queues; the theorems over whole runs, with runs of a small cache.
    - [Functional]: functional accesses, mem/packet.cc ([checkFunctional]), the
      queues that answer through it, [functionalAccess] of cache_impl.hh.
      [Migration]: the commands sent down the caches as functional packets
      ([pageInvalidate], [printPMKI], [warmupCache], [record]) and the dispatch
      of [recvFunctional]; caches stack through the classes [Below] and
      [SystemPort].  [MigrationLaws], [FuncLaws], [FuncCache], [Hierarchy]:
      their theorems.
    - [HapLines]: the laws of the line counts of [Hap].  [Monitor]: the locked
      addresses of [Memory] as an exclusive monitor.
    - [Translator]: src/nvmain-test/src/TranslationMethod.cpp,
      AddressTranslator.cpp, include/NVMHelpers.cpp ([mlog2]).  [Events]:
      src/nvmain-test/src/EventQueue.cpp.  NVMain shares no state with the
      caches: they meet at a memory port, which is [MemSide] here.
    - [Pages]: sim/system.cc and system.hh, one [page_info] per frame of PCM and
      DRAM and their allocation ([PageAlloc] has the laws).  [PageTable]:
      mem/page_table.cc, arch/arm/pagetable.hh, the part of sim/process.cc that
      maps pages; the order in which a hash table is walked is a parameter
      ([HashOrder]).  [PageTableLaws], [PageMove]: their theorems.
    - [PageRank]: the ranking of mem/xbar_control.cc, fifteen queues linked
      through the pages.  A [page_info] pointer is an index into the pages of
      [System].  [PageLists]: every operation on the links does to the lists
      what it says ([linked]); [PageRankLaws], [PageRankInit]: the invariant of
      the ranking and its runs.  [Linked] has the doubly linked segments that
      [FaLru] and [PageLists] share.
    - [PageSwap]: the migration of a page, mem/xbar_control.cc and the part of
      cpu/simple/timing.cc that changes the page tables; [PageSwapRun] puts
      memories behind it that refuse requests and answer in any order;
      [PageSwapLaws] has the loops that send lines, [PageSwapMoves] the phases
      of a migration as an invariant, [PageSwapEnd] the ranking at its end,
      [PageSwapCorrect] the theorems.
    - [CacheLaws], [View], [Atomic], [WholeLine], [Uncached], [Transparent],
      [Init], [Correct]: the proofs about the cache, up to the theorem that a
      cache with any policy is transparent.

    A member function becomes a function from the state to [outcome] of the
    state and result, under the same name; its guards and early returns are
    the code's, and a call that mutates shared state threads that state.

    ** What the theorems show

    - Composition ([Correct]): a cache built with any of the fourteen policies
      cannot be told from the memory below it ([every_policy_transparent]);
      the contracts of [recvAtomic], [handleFill] and [allocateBlock] on the
      way.  The specification is a byte-addressed memory ([ref_effect] in
      [MemLaws]); what is seen through a cache is defined in [View].  The
      simple memory implements the same interface ([simple_memory_serves]).
    - Tag store: lookup finds exactly the lines held, the books balance, the
      constructor accepts exactly the sane configurations, address slicing
      round-trips, statistics count what they say.
    - Sets: every reordering loop refines a list operation.
    - Blocks: store-conditional is sound; the state letter is the MOESI state.
    - Policies: each one meets [PolicyLaws]; besides, termination and result of
      HYBRRIP's victim loop, BRP's directory is an LRU stack and its partition
      search is optimal and total, the two filters remember what they should,
      the counters of HYBDIP and IHYBDIP stay in their ranges.
    - Miss queues ([Queue]): every sequence of events keeps the books of an MSHR
      queue ([qstep], [queue_invariant]), no assertion on the way can fail
      ([queue_never_stuck]), and requests leave in the order of their ready
      times ([queue_next_is_earliest]).
    - Timing protocol: every request taken is answered exactly once or still
      waits ([every_request_answered_once]), and one that waits is in service
      or will be sent ([no_request_stranded]), in the order of a stated policy
      ([next_request_arbitrated]); the cache is blocked exactly for the causes
      that hold, and no retry it has noted is forgotten ([backpressure_exact]); packets leave a port in order, once, and never
      wait without an event or a retry to come ([packet_queue_delivers]).
    - Functional path: a quiet cache answers as the memory it stands for
      ([functional_access_transparent]), a write reaches every copy in flight
      ([functional_write_reaches_all]), a read over two values in flight stops
      the simulation ([straddling_read_panics]).
    - Page migration: a flush of one level is exact up to lines that were dirty
      but shared ([page_invalidate_exact]), and a message to the first of three
      levels flushes all of them into memory ([page_leaves_hierarchy]).
    - Pages: an allocation gives out a free run of frames, in DRAM if it can, and
      fails only without one ([alloc_phys_pages_exact]); whatever the processes
      do, no frame is mapped twice ([frames_never_shared]); a region translates
      to its frames ([region_translates]); the first write moves a page to DRAM
      ([first_write_moves_page]), except that one inside a page of DRAM stops the
      simulation ([unaligned_first_write_in_dram_fails]), and an exchange works
      in one order of the hash table only ([exchange_depends_on_order]).
    - Ranking: the fifteen queues and the two lists of pages without rank always
      hold every page once ([ranking_invariant]), and only pages with enough
      accesses are selected ([access_selects_hot_pages]).
    - Migration of pages: at the end the pages hold what they must, with the
      flushed lines ([migration_moves_contents]); the end can always be reached
      and keeps the ranking ([migration_completes]).  The answer to a flushed
      line that comes while another is refused fails an assertion
      ([late_answer_fails]).
    - HAP: its line counts are exact ([hap_lines_exact]) and its periodic window
      is a quarter of the lines, or an assertion fails.
    - Fully associative tags ([FaLru]): the linked blocks are always one recency
      list with its boundaries, each tracked size counts the hits of an LRU cache
      of that size, and no block ever gets its tag.
    - Memory: the locked addresses implement an exclusive monitor
      ([memory_is_exclusive_monitor]).
    - NVMain: translation and reverse translation are inverse, mapping schemes
      mean what they say ([Translator]); the event queue runs exactly what is
      due, in order, and keeps callbacks by priority ([Events]).
    - Commands and integers: the attribute table is consistent; logarithms,
      bit searches and bit insertion are right at every value of their width.

    ** Bounds and fuel

    HYBRRIP's victim loop ages blocks until one reaches [assoc - 1] modulo 256,
    within 256 rounds for at most 256 ways (proved; with more ways it never
    ends, also proved).  BRP's partition search recurses on the number of cores
    left.  [clearDownstreamPending] follows a chain of caches and takes the
    depth of the hierarchy.  [mlog2] halves a 32-bit number 32 times.  The event
    loops take a fuel that [loop_runs_due_events] proves to exist for recipients
    that insert only later events; recipients may insert events without end.
    All other loops are bounded by a count the code computes.  Widths are those
    of the declarations; statistics counters, which gem5 keeps as [double], and
    ticks are unbounded.

    ** Not modelled

    The timing side of the memory, the prefetcher of a cache, crossbars (of
    xbar_control.cc the ranking and the migration are modelled), the DRAM controller, Ruby,
    processors, devices and the simulation kernel of gem5.  Of NVMain, the controllers, ranks, banks and
    sub-arrays, decoders, the global event queue (floating-point frequencies)
    and everything optional.  The constructor of BRP overwrites the pointer
    [blks] of the tag store, which only the visitors read; the visitors are
    modelled for the store as the other policies leave it.  Text output (print
    functions, traces) changes no state and is left out.
 *)
From Stdlib Require Export ZArith Lia.
From stdpp Require Export prelude gmap fin_maps.
From coqutil Require Import Z.bitblast.


(** ** Faults and the error monad *)

(** What stops the simulator: a C++ [assert] (kept in the [gem5.opt] build the
    scripts run), a call of [fatal], an access outside an array, an integer
    division by zero, a shift by a negative amount or by the width or more, or a
    loop that does not end. *)
Inductive fault : Type :=
| AssertFail
| Fatal
| OutOfBounds
| DivByZero
| BadShift
| Diverge.

#[export] Instance fault_eq_dec : EqDecision fault.
Proof. solve_decision. Defined.

Inductive outcome (A : Type) : Type :=
| Ok (a : A)
| Err (f : fault).
Arguments Ok {A} a.
Arguments Err {A} f.

#[export] Instance outcome_ret : MRet outcome := @Ok.
#[export] Instance outcome_bind : MBind outcome := fun A B f m =>
  match m with Ok a => f a | Err e => Err e end.
#[export] Instance outcome_fmap : FMap outcome := fun A B f m =>
  match m with Ok a => Ok (f a) | Err e => Err e end.
#[export] Instance outcome_eq_dec `{EqDecision A} : EqDecision (outcome A).
Proof. solve_decision. Defined.

Declare Scope sim_scope.
Delimit Scope sim_scope with sim.
(** A C++ [assert]: the rest of the body runs only if the condition holds. *)
Notation "'assert!' b ; k" := (if b%Z : bool then k else Err AssertFail)
  (at level 20, b at level 100, k at level 200, right associativity) : sim_scope.
Open Scope sim_scope.

(** Array reads and writes, with the bounds the C++ code relies on. *)
Definition aget {A} (l : list A) (i : nat) : outcome A :=
  match l !! i with Some a => Ok a | None => Err OutOfBounds end.
Definition aset {A} (l : list A) (i : nat) (a : A) : outcome (list A) :=
  if decide (i < length l) then Ok (<[i := a]> l) else Err OutOfBounds.

(** Signed indices: a negative one is outside the array. *)
Definition zget {A} (l : list A) (i : Z) : outcome A :=
  if (i <? 0)%Z then Err OutOfBounds else aget l (Z.to_nat i).

(** [l[i] = f(l[i])]. *)
Definition zupd {A} (i : Z) (f : A -> outcome A) (l : list A) : outcome (list A) :=
  x ← zget l i; y ← f x; Ok (<[Z.to_nat i := y]> l).

(** [for (i = from; i < from + n; i++) state = body(i, state)]. *)
Fixpoint for_from {St} (i n : nat) (body : nat -> St -> outcome St) (st : St) : outcome St :=
  match n with
  | O => Ok st
  | S n => st ← body i st; for_from (S i) n body st
  end.

Lemma for_from_inv {St} (I : nat -> St -> Prop) i n body st :
  (forall j st, i <= j < i + n -> I j st -> exists st', body j st = Ok st' /\ I (S j) st') ->
  I i st -> exists st', for_from i n body st = Ok st' /\ I (i + n) st'.
Proof.
  revert i st. induction n as [|n IH]; intros i st Hb Hi; simpl.
  - exists st. by rewrite Nat.add_0_r.
  - destruct (Hb i st ltac:(lia) Hi) as (st1 & -> & H1). simpl.
    destruct (IH (S i) st1) as (st2 & -> & H2); [|done|].
    + intros j st' Hj. apply Hb. lia.
    + exists st2. split; [done|]. by replace (i + S n) with (S i + n) by lia.
Qed.

(** The same for a loop that may fail: the invariant of the state it ends in. *)
Lemma for_from_Ok {St} (I : nat -> St -> Prop) i n body st st' :
  (forall j st st', i <= j < i + n -> I j st -> body j st = Ok st' -> I (S j) st') ->
  I i st -> for_from i n body st = Ok st' -> I (i + n) st'.
Proof.
  revert i st. induction n as [|n IH]; intros i st Hb Hi; simpl.
  - intros [= <-]. by rewrite Nat.add_0_r.
  - destruct (body i st) as [st1|] eqn:E; simpl; [|done]. intros E'.
    replace (i + S n) with (S i + n) by lia. apply (IH (S i) st1); [|by apply (Hb i st); [lia|..]|done].
    intros j s s' Hj. apply Hb. lia.
Qed.

Lemma aget_ok {A} (l : list A) i x : l !! i = Some x -> aget l i = Ok x.
Proof. intros H. unfold aget. by rewrite H. Qed.

Lemma zget_ok {A} (l : list A) i :
  (0 <= i < Z.of_nat (length l))%Z -> exists x, zget l i = Ok x /\ l !! Z.to_nat i = Some x.
Proof.
  intros Hi. unfold zget, aget. destruct (Z.ltb_spec i 0); [lia|].
  destruct (lookup_lt_is_Some_2 l (Z.to_nat i)) as [x Hx]; [lia|]. exists x. by rewrite Hx.
Qed.

Lemma zupd_ok {A} i (f : A -> outcome A) l x y :
  (0 <= i)%Z -> l !! Z.to_nat i = Some x -> f x = Ok y ->
  zupd i f l = Ok (<[Z.to_nat i := y]> l).
Proof.
  intros Hi Hx Hf. unfold zupd, zget. destruct (Z.ltb_spec i 0); [lia|].
  rewrite (aget_ok _ _ _ Hx). cbn [mbind outcome_bind]. by rewrite Hf.
Qed.

(** ** Record update *)

(** [r <| f := v |>] is the record [r] with field [f] set to [v].  A record
    type declares its expansion into a constructor application ([Settable]);
    the setter of a field is read off it. *)
Class Settable (R : Type) := expand : R -> R.
Class Setter {R T : Type} (proj : R -> T) := set_field : (T -> T) -> R -> R.
Arguments set_field {R T} proj {_} _ _ /.

Ltac solve_setter :=
  match goal with
  | |- @Setter ?R ?T ?proj =>
      let s := constr:(_ : Settable R) in
      let e := eval hnf in s in
      exact (fun (g : T -> T) (r : R) =>
        ltac:(let b := eval cbv beta in (e r) in
              match b with
              | context C [proj r] => let t := context C [g (proj r)] in exact t
              end))
  end.
#[export] Hint Extern 1 (Setter _) => solve_setter : typeclass_instances.

Notation "r <| f := v |>" := (set_field f (fun _ => v) r)
  (at level 1, f at level 9, v at level 200, left associativity,
   format "r  <| f  :=  v |>") : sim_scope.
Notation "r <| f ::= g |>" := (set_field f g r)
  (at level 1, f at level 9, g at level 200, left associativity,
   format "r  <| f  ::=  g |>") : sim_scope.

(** ** Machine integers *)

Definition wrap (w z : Z) : Z := z mod 2 ^ w.
Definition swrap (w z : Z) : Z := (z + 2 ^ (w - 1)) mod 2 ^ w - 2 ^ (w - 1).
Abbreviation u8 := (wrap 8).
Abbreviation u16 := (wrap 16).
Abbreviation u32 := (wrap 32).
Abbreviation u64 := (wrap 64).
Abbreviation i32 := (swrap 32).
Definition b2Z (b : bool) : Z := if b then 1 else 0.

(** ** Lists of way pointers *)

Section lists.
Context {A : Type} `{EqDecision A}.
Implicit Types (l p q s : list A) (b x : A) (i j : nat).

(** The list without [b]. *)
Definition without (b : A) (l : list A) : list A := filter (fun x => x <> b) l.

(** [place j b l] moves [b] to position [j] of [l] and keeps the order of
    the other elements: what every reordering loop of a cache set does. *)
Definition place (j : nat) (b : A) (l : list A) : list A :=
  take j (without b l) ++ b :: drop j (without b l).

(** Position of the first occurrence of [b]. *)
Fixpoint index_of (b : A) (l : list A) : option nat :=
  match l with
  | [] => None
  | x :: l' => if decide (x = b) then Some 0%nat else S <$> index_of b l'
  end.

Lemma without_notin b l : b ∉ l -> without b l = l.
Proof.
  unfold without. induction l as [|x l IH]; intros Hb; [done|].
  rewrite filter_cons_True by set_solver. f_equal. apply IH. set_solver.
Qed.

Lemma without_split p b s : b ∉ p -> b ∉ s -> without b (p ++ b :: s) = p ++ s.
Proof.
  intros. unfold without. rewrite filter_app, filter_cons_False by (by intros []).
  fold (without b p) (without b s). by rewrite !without_notin.
Qed.

Lemma without_perm b l : NoDup l -> b ∈ l -> b :: without b l ≡ₚ l.
Proof.
  intros Hnd (p & s & ->)%list_elem_of_split.
  apply NoDup_app in Hnd as (_ & Hp & [Hs _]%NoDup_cons).
  rewrite without_split by set_solver. by rewrite Permutation_middle.
Qed.

Lemma place_perm j b l : NoDup l -> b ∈ l -> place j b l ≡ₚ l.
Proof.
  intros. unfold place. rewrite <- Permutation_middle, take_drop.
  by apply without_perm.
Qed.

Lemma place_lookup j b l :
  (j <= length (without b l))%nat -> place j b l !! j = Some b.
Proof.
  intros. unfold place. rewrite lookup_app_r by (rewrite length_take; lia).
  rewrite length_take. by replace (j - j `min` length (without b l))%nat with 0%nat by lia.
Qed.

Lemma index_of_Some b l i :
  index_of b l = Some i <->
  exists p s, l = p ++ b :: s /\ length p = i /\ b ∉ p.
Proof.
  revert i. induction l as [|x l IH]; intros i; simpl.
  - split; [done|]. by intros ([] & s & ? & _).
  - destruct (decide (x = b)) as [->|Hne].
    + split.
      * intros [= <-]. exists [], l. set_solver.
      * intros ([|y p] & s & Heq & <- & Hp); simplify_eq/=; [done|]. set_solver.
    + rewrite fmap_Some. setoid_rewrite IH. split.
      * intros (k & (p & s & -> & <- & Hp) & ->). exists (x :: p), s. set_solver.
      * intros ([|y p] & s & Heq & <- & Hp); simplify_eq/=.
        exists (length p). split; [|done]. exists p, s. set_solver.
Qed.

Lemma index_of_None b l : index_of b l = None <-> b ∉ l.
Proof.
  induction l as [|x l IH]; simpl; [set_solver|].
  destruct (decide (x = b)) as [->|]; [set_solver|].
  rewrite fmap_None, IH. set_solver.
Qed.

Lemma index_of_elem b l : b ∈ l -> exists i, index_of b l = Some i.
Proof.
  intros. destruct (index_of b l) eqn:E; [eauto|]. by apply index_of_None in E.
Qed.
Lemma place_split p q b s :
  NoDup (p ++ q ++ b :: s) -> place (length p) b (p ++ q ++ b :: s) = p ++ b :: q ++ s.
Proof.
  intros (_ & Hp & (_ & Hq & [Hs _]%NoDup_cons)%NoDup_app)%NoDup_app.
  unfold place. rewrite app_assoc, without_split by set_solver.
  by rewrite <- app_assoc, take_app_length, drop_app_length.
Qed.

Lemma place_id k b l : NoDup l -> index_of b l = Some k -> place k b l = l.
Proof.
  intros Hnd (p & s & -> & <- & _)%index_of_Some. by apply (place_split p []).
Qed.

(** Positions [i] and [k] of [l] split it around the element at [k]. *)
Lemma index_of_split b l i k :
  index_of b l = Some k -> (i <= k)%nat ->
  exists p q s, l = p ++ q ++ b :: s /\ length p = i /\ length q = (k - i)%nat /\ b ∉ p /\ b ∉ q.
Proof.
  intros (p & s & -> & <- & Hp)%index_of_Some Hi. exists (take i p), (drop i p), s.
  rewrite app_assoc, take_drop, length_take, length_drop.
  split_and!; [done|lia|lia| |];
    intros ?; apply Hp; rewrite <- (take_drop i p); set_solver.
Qed.

(** The first element of a list that minimises [f]. *)
Lemma first_min (f : A -> nat) l :
  l <> [] -> exists p b q, l = p ++ b :: q /\
    (forall x, x ∈ l -> f b <= f x) /\ (forall x, x ∈ p -> f b < f x).
Proof.
  induction l as [|x l IH]; [done|]. intros _. destruct (decide (l = [])) as [->|Hl].
  - exists [], x, []. set_solver by lia.
  - destruct (IH Hl) as (p & b & q & -> & Hmin & Hp).
    destruct (decide (f x <= f b)).
    + exists [], x, (p ++ b :: q). split_and!; [done| |set_solver].
      intros y [->|Hy]%elem_of_cons; [done|]. specialize (Hmin y Hy). lia.
    + exists (x :: p), b, q. split_and!; [done| |].
      * intros y [->|Hy]%elem_of_cons; [lia|auto].
      * intros y [->|Hy]%elem_of_cons; [lia|auto].
Qed.

Lemma index_of_lt b l k : index_of b l = Some k -> (k < length l)%nat.
Proof. intros (p & s & -> & <- & _)%index_of_Some. rewrite length_app. simpl. lia. Qed.

Lemma index_of_lookup b l k : index_of b l = Some k -> l !! k = Some b.
Proof. intros (p & s & -> & <- & _)%index_of_Some. by rewrite list_lookup_middle. Qed.

Lemma lookup_index_of b l k : NoDup l -> l !! k = Some b -> index_of b l = Some k.
Proof.
  intros Hnd Hk. destruct (index_of_elem b l) as [k' Hk'];
    [by eapply list_elem_of_lookup_2|].
  by rewrite (NoDup_lookup l k k' b Hnd Hk (index_of_lookup _ _ _ Hk')).
Qed.
End lists.

Lemma Forall_replicate_1 {A} (P : A -> Prop) n x : P x -> Forall P (replicate n x).
Proof. intros Hx. by apply Forall_replicate. Qed.

(** ** Computations that succeed *)

Lemma aget_Ok {A} (l : list A) i x : aget l i = Ok x -> l !! i = Some x.
Proof. unfold aget. destruct (l !! i); congruence. Qed.

(** Opening a computation that succeeded. *)
Ltac run_in H :=
  repeat match type of H with
  | (?m ≫= _) = Ok _ =>
      let r := fresh "r" in let E := fresh "E" in
      destruct m as [r|] eqn:E; cbn [mbind outcome_bind] in H; [|discriminate H]
  | (if ?b then _ else Err _) = Ok _ =>
      let E := fresh "E" in destruct b eqn:E; [|discriminate H]
  | (let '(_, _) := ?r in _) = Ok _ => destruct r
  | Ok _ = Ok _ => injection H as H; subst
  end.

(** ** Bits *)

Section bits.
Open Scope Z_scope.

Lemma wrap_range w z : 0 <= w -> 0 <= wrap w z < 2 ^ w.
Proof. intros. unfold wrap. apply Z.mod_pos_bound. lia. Qed.

Lemma wrap_small w z : 0 <= z < 2 ^ w -> wrap w z = z.
Proof. intros. unfold wrap. by apply Z.mod_small. Qed.

Lemma wrap_le w z : 0 <= z -> 0 <= w -> wrap w z <= z.
Proof. intros. unfold wrap. apply Z.mod_le; lia. Qed.

Lemma wrap_wrap w z : wrap w (wrap w z) = wrap w z.
Proof. apply Zmod_mod. Qed.

Lemma swrap_small w z : - 2 ^ (w - 1) <= z < 2 ^ (w - 1) -> 0 < w -> swrap w z = z.
Proof.
  intros. assert (2 ^ w = 2 * 2 ^ (w - 1)).
  { rewrite <- Z.pow_succ_r by lia. f_equal. lia. }
  unfold swrap. rewrite Z.mod_small; lia.
Qed.

Lemma wrap_land w z : 0 <= w -> wrap w z = Z.land z (Z.ones w).
Proof. intros. unfold wrap. by rewrite Z.land_ones. Qed.

(** Pulling a window of [j] bits at offset [k] down to bit 0. *)
Lemma land_window x j k :
  0 <= j -> 0 <= k ->
  Z.land x (Z.shiftl (Z.ones j) k) = Z.shiftl (Z.land (Z.shiftr x k) (Z.ones j)) k.
Proof. intros. Z.bitblast. Qed.

(** A number below [2^(j+k)] has none of the [j] bits from [k] on exactly
    when it is below [2^k]. *)
Lemma land_high_zero x j k :
  0 <= j -> 0 <= k -> 0 <= x < 2 ^ (j + k) ->
  (Z.land x (Z.shiftl (Z.ones j) k) =? 0) = (x <? 2 ^ k).
Proof.
  intros Hj Hk Hx. rewrite land_window, Z.land_ones, Z.shiftr_div_pow2 by lia.
  assert (Hp : 0 < 2 ^ k) by lia.
  rewrite Z.mod_small.
  2: { split; [apply Z.div_pos; lia|]. apply Z.div_lt_upper_bound; [lia|].
       rewrite <- Z.pow_add_r, (Z.add_comm k j) by lia. lia. }
  rewrite Z.shiftl_mul_pow2 by lia.
  destruct (Z.ltb_spec x (2 ^ k)).
  - by rewrite Z.div_small by lia.
  - apply Z.eqb_neq. assert (1 <= x / 2 ^ k) by (apply Z.div_le_lower_bound; lia). nia.
Qed.

Lemma shiftr_range x j k :
  0 <= j -> 0 <= k -> 0 <= x < 2 ^ (j + k) -> 0 <= Z.shiftr x k < 2 ^ j.
Proof.
  intros. rewrite Z.shiftr_div_pow2 by done. split; [apply Z.div_pos; lia|].
  apply Z.div_lt_upper_bound; [lia|]. rewrite <- Z.pow_add_r, (Z.add_comm k j) by lia. lia.
Qed.

Lemma shiftr_pos x k : 0 <= k -> 2 ^ k <= x -> 0 < Z.shiftr x k.
Proof.
  intros. rewrite Z.shiftr_div_pow2 by done.
  apply Z.lt_le_trans with 1; [lia|]. apply Z.div_le_lower_bound; lia.
Qed.
End bits.
