(* ===== verification/IntMath.v ===== *)
(** Integer and bit-field helpers of [base/intmath.hh] and [base/bitfield.hh]:
    the shift-and-test logarithms, the power-of-two test, rounding and bit
    extraction, with the closed forms the tag stores rely on. *)
From S2P Require Import Prelude.
From Stdlib Require Import Floats.SpecFloat.
From coqutil Require Import Z.bitblast.

#[local] Open Scope Z_scope.

(** ** base/intmath.hh *)

Definition leastSigBit (w n : Z) : Z := Z.land n (wrap w (Z.lnot (wrap w (n - 1)))).

Definition isPowerOf2 (w n : Z) : bool := negb (n =? 0) && (leastSigBit w n =? n).

(** One test of the binary search: [if (x & m) { y += k; x >>= k; }]. *)
Definition log2_step (m k : Z) (yx : Z * Z) : Z * Z :=
  let '(y, x) := yx in
  if Z.land x m =? 0 then (y, x) else (y + k, Z.shiftr x k).

(** [floorLog2(unsigned x)]; the last test only adds to [y]. *)
Definition floorLog2 (x : Z) : outcome Z :=
  assert! 0 <? x;
  let yx := log2_step 0xffff0000 16 (0, x) in
  let yx := log2_step 0x0000ff00 8 yx in
  let yx := log2_step 0x000000f0 4 yx in
  let yx := log2_step 0x0000000c 2 yx in
  let '(y, x) := yx in
  Ok (if Z.land x 0x00000002 =? 0 then y else y + 1).

(** [floorLog2(unsigned long long x)]. *)
Definition floorLog2_64 (x : Z) : outcome Z :=
  assert! 0 <? x;
  let yx := log2_step 0xffffffff00000000 32 (0, x) in
  let yx := log2_step 0x00000000ffff0000 16 yx in
  let yx := log2_step 0x000000000000ff00 8 yx in
  let yx := log2_step 0x00000000000000f0 4 yx in
  let yx := log2_step 0x000000000000000c 2 yx in
  let '(y, x) := yx in
  Ok (if Z.land x 0x0000000000000002 =? 0 then y else y + 1).

(** [ceilLog2(const T& n)] at [T = int], where [floorLog2] asserts a positive
    argument. *)
Definition ceilLog2 (n : Z) : outcome Z :=
  if n =? 1 then Ok 0 else y ← floorLog2 (n - 1); Ok (y + 1).

Definition floorPow2 (n : Z) : outcome Z := y ← floorLog2 n; Ok (Z.shiftl 1 y).
Definition ceilPow2 (n : Z) : outcome Z := y ← ceilLog2 n; Ok (Z.shiftl 1 y).

Definition divCeil (a b : Z) : Z := (a + b - 1) / b.

Definition roundUp (w val align : Z) : Z :=
  let mask := wrap w (align - 1) in
  Z.land (wrap w (val + mask)) (wrap w (Z.lnot mask)).

Definition roundDown (w val align : Z) : Z :=
  let mask := wrap w (align - 1) in
  Z.land val (wrap w (Z.lnot mask)).

(** ** Doubles *)

(** The conversion of an [int] to [double] and the division of doubles, as
    IEEE 754 binary64 with rounding to nearest. *)
Definition to_double (z : Z) : spec_float := binary_normalize 53 1024 z 0 false.
Definition ddiv : spec_float -> spec_float -> spec_float := SFdiv 53 1024.
Definition dlt : spec_float -> spec_float -> bool := SFltb.

(** ** base/bitfield.hh *)

Definition mask (nbits : Z) : Z :=
  if nbits =? 64 then u64 (-1) else u64 (u64 (Z.shiftl 1 nbits) - 1).

(** [bits(T val, int first, int last)]: [conv] is the conversion to [T]. *)
Definition bits (conv : Z -> Z) (val first last : Z) : Z :=
  let nbits := first - last + 1 in
  conv (Z.land (Z.shiftr val last) (mask nbits)).

Definition mbits (conv : Z -> Z) (val first last : Z) : Z :=
  conv (Z.land val (Z.land (mask (first + 1)) (u64 (Z.lnot (mask last))))).

Definition sext (N val : Z) : Z :=
  let sign_bit := i32 (bits u64 val (N - 1) (N - 1)) in
  swrap 64 (if sign_bit =? 0 then val else Z.lor val (u64 (Z.lnot (mask N)))).

Definition insertBits (conv : Z -> Z) (val first last bit_val : Z) : Z :=
  let t_bit_val := conv bit_val in
  let bmask := conv (Z.shiftl (mask (first - last + 1)) last) in
  conv (Z.lor (Z.land (Z.shiftl t_bit_val last) bmask) (Z.land val (Z.lnot bmask))).

(** One test of [findMsbSet]: the bits [hi..lo] of [val] are not all zero. *)
Definition msb_step (hi lo k : Z) (mv : Z * Z) : Z * Z :=
  let '(msb, val) := mv in
  if bits u64 val hi lo =? 0 then (msb, val) else (msb + k, Z.shiftr val k).

Definition findMsbSet (val : Z) : Z :=
  if val =? 0 then 0
  else
    let mv := msb_step 63 32 32 (0, val) in
    let mv := msb_step 31 16 16 mv in
    let mv := msb_step 15 8 8 mv in
    let mv := msb_step 7 4 4 mv in
    let mv := msb_step 3 2 2 mv in
    let '(msb, val) := mv in
    if bits u64 val 1 1 =? 0 then msb else msb + 1.

Definition lsb_step (hi k : Z) (lv : Z * Z) : Z * Z :=
  let '(lsb, val) := lv in
  if bits u64 val hi 0 =? 0 then (lsb + k, Z.shiftr val k) else (lsb, val).

Definition findLsbSet (val : Z) : Z :=
  if val =? 0 then 64
  else
    let lv := lsb_step 31 32 (0, val) in
    let lv := lsb_step 15 16 lv in
    let lv := lsb_step 7 8 lv in
    let lv := lsb_step 3 4 lv in
    let lv := lsb_step 1 2 lv in
    let '(lsb, val) := lv in
    if bits u64 val 0 0 =? 0 then lsb + 1 else lsb.

(** ** The logarithms *)

Lemma log2_step_spec m k y x :
  0 < k -> m = Z.shiftl (Z.ones k) k -> 0 < x < 2 ^ (k + k) ->
  exists y' x', log2_step m k (y, x) = (y', x') /\ 0 < x' < 2 ^ k /\
    y' + Z.log2 x' = y + Z.log2 x.
Proof.
  intros Hk -> Hx. unfold log2_step. rewrite land_high_zero by lia.
  destruct (Z.ltb_spec x (2 ^ k)); eexists _, _; (split; [done|]); [lia|].
  pose proof (shiftr_pos x k ltac:(lia) ltac:(lia)).
  pose proof (shiftr_range x k k ltac:(lia) ltac:(lia) ltac:(lia)).
  rewrite Z.log2_shiftr by lia.
  assert (k <= Z.log2 x) by (apply Z.log2_le_pow2; lia). lia.
Qed.

Lemma log2_last x : 0 < x < 4 -> (if Z.land x 2 =? 0 then 0 else 1) = Z.log2 x.
Proof. intros. assert (x = 1 \/ x = 2 \/ x = 3) as [-> | [-> | ->]] by lia; done. Qed.

Ltac log2_down y x :=
  match goal with
  | |- context [log2_step ?m ?k (?a, ?b)] =>
      let E := fresh "E" in let R := fresh "R" in let H := fresh "H" in
      destruct (log2_step_spec m k a b ltac:(lia) eq_refl ltac:(lia))
        as (y & x & E & R & H); rewrite E; clear E
  end.

Lemma floorLog2_log2 x : 0 < x < 2 ^ 32 -> floorLog2 x = Ok (Z.log2 x).
Proof.
  intros Hx. unfold floorLog2. rewrite (proj2 (Z.ltb_lt 0 x)) by lia. cbv zeta.
  log2_down y1 x1. log2_down y2 x2. log2_down y3 x3. log2_down y4 x4.
  pose proof (log2_last x4 ltac:(lia)) as Hl. f_equal.
  destruct (Z.land x4 2 =? 0); lia.
Qed.

Lemma floorLog2_64_log2 x : 0 < x < 2 ^ 64 -> floorLog2_64 x = Ok (Z.log2 x).
Proof.
  intros Hx. unfold floorLog2_64. rewrite (proj2 (Z.ltb_lt 0 x)) by lia. cbv zeta.
  log2_down y0 x0. log2_down y1 x1. log2_down y2 x2. log2_down y3 x3. log2_down y4 x4.
  pose proof (log2_last x4 ltac:(lia)) as Hl. f_equal.
  destruct (Z.land x4 2 =? 0); lia.
Qed.

Lemma ceilLog2_spec n :
  1 <= n < 2 ^ 32 -> exists k, ceilLog2 n = Ok k /\ 0 <= k /\ n <= 2 ^ k /\ (1 < n -> 2 ^ (k - 1) < n).
Proof.
  intros Hn. unfold ceilLog2. destruct (Z.eqb_spec n 1) as [->|]; [exists 0; split; [done|lia]|].
  rewrite floorLog2_log2 by lia. simpl. exists (Z.log2 (n - 1) + 1).
  pose proof (Z.log2_spec (n - 1) ltac:(lia)) as [??]. pose proof (Z.log2_nonneg (n - 1)).
  split_and!; [done|lia| |]; rewrite ?Z.add_simpl_r; unfold Z.succ in *; lia.
Qed.

(** ** The power-of-two test *)

Lemma isPowerOf2_spec w n :
  0 < w -> 0 <= n < 2 ^ w -> isPowerOf2 w n = true <-> exists k, 0 <= k < w /\ n = 2 ^ k.
Proof.
  intros Hw Hn. unfold isPowerOf2, leastSigBit.
  destruct (Z.eqb_spec n 0) as [->|Hn0]; simpl.
  { split; [done|]. intros (k & ? & ?). assert (0 < 2 ^ k) by lia. lia. }
  rewrite (wrap_small w (n - 1)) by lia.
  assert (E : Z.land n (wrap w (Z.lnot (n - 1))) = Z.land n (Z.lnot (n - 1))).
  { rewrite wrap_land by lia. rewrite (Z.land_comm (Z.lnot _)), Z.land_assoc.
    rewrite Z.land_ones, Z.mod_small by lia. done. }
  rewrite E. rewrite Z.eqb_eq. split.
  - intros Hland. exists (Z.log2 n). pose proof (Z.log2_spec n ltac:(lia)) as [Hlo Hhi].
    split; [split; [apply Z.log2_nonneg|]; apply Z.log2_lt_pow2; lia|].
    destruct (Z.eq_dec n (2 ^ Z.log2 n)) as [|Hne]; [done|exfalso].
    assert (1 <= 2 ^ Z.log2 n) by (apply Z.lt_pred_le, Z.pow_pos_nonneg; [lia|apply Z.log2_nonneg]).
    assert (Hl : Z.log2 (n - 1) = Z.log2 n) by (apply Z.log2_unique; [apply Z.log2_nonneg|lia]).
    assert (Hb : Z.testbit (Z.land n (Z.lnot (n - 1))) (Z.log2 n) = true)
      by (rewrite Hland; apply Z.bit_log2; lia).
    rewrite Z.land_spec, Z.lnot_spec in Hb by apply Z.log2_nonneg.
    assert (Hb1 : Z.testbit (n - 1) (Z.log2 n) = true) by (rewrite <- Hl; apply Z.bit_log2; lia).
    by rewrite Hb1, andb_false_r in Hb.
  - intros (k & Hk & ->). replace (2 ^ k - 1) with (Z.ones k) by (rewrite Z.ones_equiv; lia).
    rewrite <- Z.shiftl_1_l. Z.bitblast. by rewrite (Z.testbit_neg_r 1) by lia.
Qed.

Lemma isPowerOf2_log2 w n :
  0 < w -> 0 <= n < 2 ^ w -> isPowerOf2 w n = true -> n = 2 ^ Z.log2 n /\ 0 <= Z.log2 n < w.
Proof.
  intros Hw Hn (k & Hk & ->)%isPowerOf2_spec; [|done..]. rewrite Z.log2_pow2 by lia. lia.
Qed.

(** The upper half of a byte. *)
Lemma bits_7_4 v : bits u8 v 7 4 = v / 16 mod 16.
Proof.
  unfold bits. change (mask (7 - 4 + 1)) with (Z.ones 4).
  rewrite Z.shiftr_div_pow2, Z.land_ones by lia. change (2 ^ 4) with 16. apply wrap_small.
  pose proof (Z.mod_pos_bound (v / 16) 16). lia.
Qed.

(** ** Bit fields *)

Lemma mask_ones n : 0 <= n <= 64 -> mask n = Z.ones n.
Proof.
  intros Hn. unfold mask. destruct (Z.eqb_spec n 64) as [->|]; [done|].
  assert (1 <= 2 ^ n < 2 ^ 64)
    by (split; [apply Z.lt_pred_le, Z.pow_pos_nonneg|apply Z.pow_lt_mono_r]; lia).
  rewrite Z.shiftl_1_l, (wrap_small 64 (2 ^ n)) by lia. rewrite wrap_small by lia.
  rewrite Z.ones_equiv. lia.
Qed.

Lemma u64_testbit x i : 0 <= i -> Z.testbit (u64 x) i = (i <? 64) && Z.testbit x i.
Proof.
  intros Hi. rewrite wrap_land, Z.land_spec, Z.testbit_ones by lia.
  destruct (Z.leb_spec 0 i); [|lia]. by rewrite andb_comm.
Qed.

Lemma bits_u64 x hi lo :
  0 <= lo <= hi -> hi < 64 -> bits u64 x hi lo = Z.land (Z.shiftr x lo) (Z.ones (hi - lo + 1)).
Proof.
  intros. unfold bits. rewrite mask_ones by lia. apply wrap_small.
  rewrite Z.land_ones by lia. pose proof (Z.mod_pos_bound (Z.shiftr x lo) (2 ^ (hi - lo + 1))).
  assert (0 < 2 ^ (hi - lo + 1) <= 2 ^ 64)
    by (split; [apply Z.pow_pos_nonneg|apply Z.pow_le_mono_r]; lia). lia.
Qed.

Lemma insertBits_testbit v hi lo b i :
  0 <= lo <= hi -> hi < 64 -> 0 <= v < 2 ^ 64 -> 0 <= i < 64 ->
  Z.testbit (insertBits u64 v hi lo b) i =
    if (lo <=? i) && (i <=? hi) then Z.testbit b (i - lo) else Z.testbit v i.
Proof.
  intros. unfold insertBits. rewrite mask_ones by lia.
  rewrite u64_testbit, Z.lor_spec, !Z.land_spec, Z.lnot_spec, u64_testbit, !Z.shiftl_spec by lia.
  rewrite (proj2 (Z.ltb_lt i 64)) by lia. cbn [andb].
  destruct (Z.leb_spec lo i); cbn [andb].
  - rewrite u64_testbit, Z.testbit_ones by lia. rewrite (proj2 (Z.leb_le 0 (i - lo))) by lia.
    rewrite (proj2 (Z.ltb_lt (i - lo) 64)) by lia. cbn [andb].
    destruct (Z.leb_spec i hi), (Z.ltb_spec (i - lo) (hi - lo + 1)); try lia;
      cbn [negb]; by rewrite ?andb_true_r, ?andb_false_r, ?orb_false_r.
  - rewrite !Z.testbit_neg_r by lia. by rewrite andb_true_r.
Qed.

(** The binary searches of [findMsbSet] and [findLsbSet]. *)
Lemma msb_step_spec hi k y x :
  hi = k + k - 1 -> 0 < k <= 32 -> 0 < x < 2 ^ (k + k) ->
  exists y' x', msb_step hi k k (y, x) = (y', x') /\ 0 < x' < 2 ^ k /\
    y' + Z.log2 x' = y + Z.log2 x.
Proof.
  intros -> Hk Hx. unfold msb_step. rewrite bits_u64 by lia.
  replace (k + k - 1 - k + 1) with k by lia.
  pose proof (shiftr_range x k k ltac:(lia) ltac:(lia) ltac:(lia)) as Hr.
  rewrite Z.land_ones, Z.mod_small by lia.
  destruct (Z.eqb_spec (Z.shiftr x k) 0) as [E|E]; eexists _, _; (split; [done|]).
  - apply Z.shiftr_eq_0_iff in E as [->|[? ?]]; [lia|]. split; [|done].
    split; [lia|]. by apply Z.log2_lt_pow2.
  - split; [lia|]. rewrite Z.log2_shiftr by lia. pose proof (Z.log2_nonneg (Z.shiftr x k)).
    assert (k <= Z.log2 x).
    { destruct (Z.le_gt_cases k (Z.log2 x)); [done|]. destruct E.
      apply Z.shiftr_eq_0; lia. } lia.
Qed.

(** What is left of [v] after skipping [y] zeros has a bit among its first [w]. *)
Definition lsb_inv (v w y x : Z) : Prop :=
  0 <= y /\ x = Z.shiftr v y /\ (forall i, 0 <= i < y -> Z.testbit v i = false) /\
  exists i, 0 <= i < w /\ Z.testbit x i = true.

Lemma lsb_step_spec v hi k y x :
  hi = k - 1 -> 0 < k <= 32 -> lsb_inv v (k + k) y x ->
  exists y' x', lsb_step hi k (y, x) = (y', x') /\ lsb_inv v k y' x'.
Proof.
  intros -> Hk (Hy & -> & Hz & i & Hi & Ht). unfold lsb_step. rewrite bits_u64 by lia.
  replace (k - 1 - 0 + 1) with k by lia. rewrite Z.shiftr_0_r. set (x := Z.shiftr v y) in *.
  assert (Hb : forall j, 0 <= j < k -> Z.testbit (Z.land x (Z.ones k)) j = Z.testbit x j).
  { intros j Hj. rewrite Z.land_spec, Z.testbit_ones by lia.
    rewrite (proj2 (Z.leb_le 0 j)), (proj2 (Z.ltb_lt j k)) by lia. apply andb_true_r. }
  destruct (Z.eqb_spec (Z.land x (Z.ones k)) 0) as [E|E]; eexists _, _; (split; [done|]).
  - assert (Hx : forall j, 0 <= j < k -> Z.testbit x j = false)
      by (intros j Hj; rewrite <- Hb, E by done; apply Z.bits_0).
    split_and!; [lia|unfold x; by rewrite Z.shiftr_shiftr by lia| |].
    + intros j Hj. destruct (Z.lt_ge_cases j y); [by apply Hz; lia|].
      specialize (Hx (j - y) ltac:(lia)). unfold x in Hx. rewrite Z.shiftr_spec in Hx by lia.
      by replace (j - y + y) with j in Hx by lia.
    + exists (i - k). destruct (Z.lt_ge_cases i k) as [Hlt|]; [by rewrite (Hx i) in Ht by lia|].
      rewrite Z.shiftr_spec by lia. split; [lia|]. by replace (i - k + k) with i by lia.
  - split_and!; [done..|].
    assert (Hp : 0 < Z.land x (Z.ones k) < 2 ^ k)
      by (rewrite Z.land_ones in * by lia; pose proof (Z.mod_pos_bound x (2 ^ k)); lia).
    exists (Z.log2 (Z.land x (Z.ones k))). pose proof (Z.log2_nonneg (Z.land x (Z.ones k))).
    assert (Hlt : Z.log2 (Z.land x (Z.ones k)) < k) by (apply Z.log2_lt_pow2; lia).
    split; [lia|]. rewrite <- Hb by lia. apply Z.bit_log2. lia.
Qed.

(** ** What the helpers compute *)

(** The logarithms and the power-of-two test of base/intmath.hh, at every
    value of their type: the shift-and-test searches return the binary
    logarithm rounded down, [ceilLog2] the one rounded up, 0 fails the
    assertion, and [isPowerOf2] holds exactly of the powers of two. *)
Theorem intmath_correct (x : Z) :
  0 <= x < 2 ^ 64 ->
  floorLog2_64 x = (if x =? 0 then Err AssertFail else Ok (Z.log2 x)) /\
  (x < 2 ^ 32 -> floorLog2 x = if x =? 0 then Err AssertFail else Ok (Z.log2 x)) /\
  (x < 2 ^ 31 -> ceilLog2 x = if x =? 0 then Err AssertFail else Ok (Z.log2_up x)) /\
  (isPowerOf2 64 x = true <-> exists k, 0 <= k < 64 /\ x = 2 ^ k).
Proof.
  intros Hx. split_and!; [..|by apply isPowerOf2_spec];
    (destruct (Z.eqb_spec x 0) as [->|]; [done|]).
  - apply floorLog2_64_log2. lia.
  - intros. apply floorLog2_log2. lia.
  - intros. unfold ceilLog2. destruct (Z.eqb_spec x 1) as [->|]; [done|].
    rewrite floorLog2_log2 by lia. cbn [mbind outcome_bind]. rewrite Z.log2_up_eqn by lia.
    by replace (Z.pred x) with (x - 1) by lia.
Qed.

Lemma intmath_correct_witness :
  floorLog2_64 1000 = Ok 9 /\ (1000 < 2 ^ 32 -> floorLog2 1000 = Ok 9) /\
  (1000 < 2 ^ 31 -> ceilLog2 1000 = Ok 10) /\
  (isPowerOf2 64 1000 = true <-> exists k, 0 <= k < 64 /\ 1000 = 2 ^ k).
Proof. apply (intmath_correct 1000). lia. Defined.

(** [findMsbSet] and [findLsbSet] of base/bitfield.hh return the highest
    and the lowest set bit of every non-zero 64-bit value. *)
Theorem find_set_bits (v : Z) :
  0 < v < 2 ^ 64 ->
  findMsbSet v = Z.log2 v /\
  0 <= findLsbSet v < 64 /\ Z.testbit v (findLsbSet v) = true /\
  forall i, 0 <= i < findLsbSet v -> Z.testbit v i = false.
Proof.
  intros Hv. split.
  - unfold findMsbSet. destruct (Z.eqb_spec v 0); [lia|]. cbv zeta.
    destruct (msb_step_spec 63 32 0 v) as (y1 & x1 & -> & H1 & L1); [lia..|].
    destruct (msb_step_spec 31 16 y1 x1) as (y2 & x2 & -> & H2 & L2); [lia..|].
    destruct (msb_step_spec 15 8 y2 x2) as (y3 & x3 & -> & H3 & L3); [lia..|].
    destruct (msb_step_spec 7 4 y3 x3) as (y4 & x4 & -> & H4 & L4); [lia..|].
    destruct (msb_step_spec 3 2 y4 x4) as (y5 & x5 & -> & H5 & L5); [lia..|].
    assert (x5 = 1 \/ x5 = 2 \/ x5 = 3) as [->|[->| ->]] by lia.
    + change (y5 = Z.log2 v). change (Z.log2 1) with 0 in L5. lia.
    + change (y5 + 1 = Z.log2 v). change (Z.log2 2) with 1 in L5. lia.
    + change (y5 + 1 = Z.log2 v). change (Z.log2 3) with 1 in L5. lia.
  - assert (Hi : lsb_inv v 64 0 v).
    { split_and!; [lia|by rewrite Z.shiftr_0_r|lia|]. exists (Z.log2 v).
      pose proof (Z.log2_nonneg v). assert (Z.log2 v < 64) by (apply Z.log2_lt_pow2; lia).
      split; [lia|]. apply Z.bit_log2. lia. }
    unfold findLsbSet. destruct (Z.eqb_spec v 0); [lia|]. cbv zeta.
    destruct (lsb_step_spec v 31 32 0 v) as (y1 & x1 & -> & H1); [lia..|done|].
    destruct (lsb_step_spec v 15 16 y1 x1) as (y2 & x2 & -> & H2); [lia..|done|].
    destruct (lsb_step_spec v 7 8 y2 x2) as (y3 & x3 & -> & H3); [lia..|done|].
    destruct (lsb_step_spec v 3 4 y3 x3) as (y4 & x4 & -> & H4); [lia..|done|].
    destruct (lsb_step_spec v 1 2 y4 x4) as (y5 & x5 & -> & H5); [lia..|done|].
    destruct (lsb_step_spec v 0 1 y5 x5) as (y & x & E & Hy & -> & Hz & i & Hi' & Ht); [lia..|done|].
    unfold lsb_step in E. replace (if bits u64 x5 0 0 =? 0 then y5 + 1 else y5) with y
      by (destruct (bits u64 x5 0 0 =? 0); congruence).
    replace i with 0 in Ht by lia. rewrite Z.shiftr_spec, Z.add_0_l in Ht by lia.
    split_and!; [done| |done|done]. destruct (Z.lt_ge_cases y 64); [done|].
    rewrite Z.bits_above_log2 in Ht; [done|lia|].
    apply Z.lt_le_trans with 64; [apply Z.log2_lt_pow2; lia|done].
Qed.

Lemma find_set_bits_witness :
  findMsbSet 40 = Z.log2 40 /\ 0 <= findLsbSet 40 < 64 /\ Z.testbit 40 (findLsbSet 40) = true /\
  forall i, 0 <= i < findLsbSet 40 -> Z.testbit 40 i = false.
Proof. apply (find_set_bits 40). lia. Defined.

(** [insertBits] on 64-bit values: it replaces the bits [first..last] of a
    value by those of another and keeps the rest, so [bits] reads back what
    was inserted. *)
Theorem insertBits_bits (v first last b : Z) :
  0 <= last <= first -> first < 64 -> 0 <= v < 2 ^ 64 ->
  bits u64 (insertBits u64 v first last b) first last = b mod 2 ^ (first - last + 1) /\
  forall i, 0 <= i < 64 -> ~ (last <= i <= first) ->
    Z.testbit (insertBits u64 v first last b) i = Z.testbit v i.
Proof.
  intros Hl Hf Hv. split.
  - rewrite bits_u64 by lia. rewrite <- Z.land_ones by lia. apply Z.bits_inj'. intros i Hi.
    rewrite !Z.land_spec, Z.testbit_ones, Z.shiftr_spec by lia.
    rewrite (proj2 (Z.leb_le 0 i)) by lia.
    destruct (Z.ltb_spec i (first - last + 1)); rewrite ?andb_false_r; [|done].
    rewrite insertBits_testbit by lia.
    rewrite (proj2 (Z.leb_le last (i + last))), (proj2 (Z.leb_le (i + last) first)) by lia.
    cbn [andb]. by replace (i + last - last) with i by lia.
  - intros i Hi Hn. rewrite insertBits_testbit by lia.
    destruct (Z.leb_spec last i), (Z.leb_spec i first); try done; lia.
Qed.

Lemma insertBits_bits_witness :
  bits u64 (insertBits u64 4095 7 4 18) 7 4 = 18 mod 2 ^ (7 - 4 + 1) /\
  forall i, 0 <= i < 64 -> ~ (4 <= i <= 7) ->
    Z.testbit (insertBits u64 4095 7 4 18) i = Z.testbit 4095 i.
Proof. apply (insertBits_bits 4095 7 4 18); lia. Defined.
