(* ===== verification/MemTypes.v ===== *)
(** Memory commands with their attribute table ([mem/packet.hh],
    [mem/packet.cc]), the fields of requests and packets the cache tag stores
    read, and the simulation environment they consult. *)
From S2P Require Import Prelude.

#[local] Open Scope Z_scope.

(** ** MemCmd *)

Inductive Command : Type :=
| InvalidCmd | ReadReq | ReadResp | ReadRespWithInvalidate | WriteReq | WriteResp
| Writeback | SoftPFReq | HardPFReq | SoftPFResp | HardPFResp | WriteInvalidateReq
| WriteInvalidateResp | UpgradeReq | SCUpgradeReq | UpgradeResp | SCUpgradeFailReq
| UpgradeFailResp | ReadExReq | ReadExResp | LoadLockedReq | StoreCondReq
| StoreCondFailReq | StoreCondResp | SwapReq | SwapResp | MessageReq | MessageResp
| InvalidDestError | BadAddressError | FunctionalReadError | FunctionalWriteError
| PrintReq | FlushReq | InvalidationReq | RecordResp.

#[export] Instance Command_eq_dec : EqDecision Command.
Proof. solve_decision. Defined.

Inductive Attribute : Type :=
| IsRead | IsWrite | IsUpgrade | IsInvalidate | NeedsExclusive | IsRequest
| IsResponse | NeedsResponse | IsSWPrefetch | IsHWPrefetch | IsLlsc | HasData
| IsError | IsPrint | IsFlush.

#[export] Instance Attribute_eq_dec : EqDecision Attribute.
Proof. solve_decision. Defined.

(** [MemCmd::commandInfo]: the attribute set and the response of a command. *)
Definition commandInfo (c : Command) : list Attribute * Command :=
  match c with
  | InvalidCmd => ([], InvalidCmd)
  | ReadReq => ([IsRead; IsRequest; NeedsResponse], ReadResp)
  | ReadResp => ([IsRead; IsResponse; HasData], InvalidCmd)
  | ReadRespWithInvalidate => ([IsRead; IsResponse; HasData; IsInvalidate], InvalidCmd)
  | WriteReq => ([IsWrite; NeedsExclusive; IsRequest; NeedsResponse; HasData], WriteResp)
  | WriteResp => ([IsWrite; NeedsExclusive; IsResponse], InvalidCmd)
  | Writeback => ([IsWrite; NeedsExclusive; IsRequest; HasData], InvalidCmd)
  | SoftPFReq => ([IsRead; IsRequest; IsSWPrefetch; NeedsResponse], SoftPFResp)
  | HardPFReq => ([IsRead; IsRequest; IsHWPrefetch; NeedsResponse], HardPFResp)
  | SoftPFResp => ([IsRead; IsResponse; IsSWPrefetch; HasData], InvalidCmd)
  | HardPFResp => ([IsRead; IsResponse; IsHWPrefetch; HasData], InvalidCmd)
  | WriteInvalidateReq =>
      ([IsWrite; NeedsExclusive; IsInvalidate; IsRequest; HasData; NeedsResponse],
       WriteInvalidateResp)
  | WriteInvalidateResp => ([IsWrite; NeedsExclusive; IsResponse], InvalidCmd)
  | UpgradeReq =>
      ([IsInvalidate; NeedsExclusive; IsUpgrade; IsRequest; NeedsResponse], UpgradeResp)
  | SCUpgradeReq =>
      ([IsInvalidate; NeedsExclusive; IsUpgrade; IsLlsc; IsRequest; NeedsResponse],
       UpgradeResp)
  | UpgradeResp => ([NeedsExclusive; IsUpgrade; IsResponse], InvalidCmd)
  | SCUpgradeFailReq =>
      ([IsRead; NeedsExclusive; IsInvalidate; IsLlsc; IsRequest; NeedsResponse],
       UpgradeFailResp)
  | UpgradeFailResp => ([IsRead; NeedsExclusive; IsResponse; HasData], InvalidCmd)
  | ReadExReq =>
      ([IsRead; NeedsExclusive; IsInvalidate; IsRequest; NeedsResponse], ReadExResp)
  | ReadExResp => ([IsRead; NeedsExclusive; IsResponse; HasData], InvalidCmd)
  | LoadLockedReq => ([IsRead; IsLlsc; IsRequest; NeedsResponse], ReadResp)
  | StoreCondReq =>
      ([IsWrite; NeedsExclusive; IsLlsc; IsRequest; NeedsResponse; HasData], StoreCondResp)
  | StoreCondFailReq =>
      ([IsWrite; NeedsExclusive; IsLlsc; IsRequest; NeedsResponse; HasData], StoreCondResp)
  | StoreCondResp => ([IsWrite; NeedsExclusive; IsLlsc; IsResponse], InvalidCmd)
  | SwapReq =>
      ([IsRead; IsWrite; NeedsExclusive; IsRequest; HasData; NeedsResponse], SwapResp)
  | SwapResp => ([IsRead; IsWrite; NeedsExclusive; IsResponse; HasData], InvalidCmd)
  | MessageReq => ([IsWrite; IsRequest; NeedsResponse; HasData], MessageResp)
  | MessageResp => ([IsWrite; IsResponse], InvalidCmd)
  | InvalidDestError => ([IsResponse; IsError], InvalidCmd)
  | BadAddressError => ([IsResponse; IsError], InvalidCmd)
  | FunctionalReadError => ([IsRead; IsResponse; IsError], InvalidCmd)
  | FunctionalWriteError => ([IsWrite; IsResponse; IsError], InvalidCmd)
  | PrintReq => ([IsRequest; IsPrint], InvalidCmd)
  | FlushReq => ([IsRequest; IsFlush; NeedsExclusive], InvalidCmd)
  | InvalidationReq => ([NeedsExclusive; IsInvalidate; IsRequest], InvalidCmd)
  | RecordResp =>
      ([IsRead; IsWrite; NeedsExclusive; IsRequest; HasData; NeedsResponse], SwapResp)
  end.

Definition testCmdAttrib (c : Command) (a : Attribute) : bool :=
  bool_decide (a ∈ (commandInfo c).1).
Definition responseCommand (c : Command) : Command := (commandInfo c).2.

Definition isRead c := testCmdAttrib c IsRead.
Definition isWrite c := testCmdAttrib c IsWrite.
Definition isUpgrade c := testCmdAttrib c IsUpgrade.
Definition isRequest c := testCmdAttrib c IsRequest.
Definition isResponse c := testCmdAttrib c IsResponse.
Definition needsExclusive c := testCmdAttrib c NeedsExclusive.
Definition needsResponse c := testCmdAttrib c NeedsResponse.
Definition isInvalidate c := testCmdAttrib c IsInvalidate.
Definition hasData c := testCmdAttrib c HasData.
Definition isReadWrite c := isRead c && isWrite c.
Definition isLLSC c := testCmdAttrib c IsLlsc.
Definition isPrefetch c := testCmdAttrib c IsSWPrefetch || testCmdAttrib c IsHWPrefetch.
Definition isError c := testCmdAttrib c IsError.

(** ** Requests, packets, environment *)

(** The fields of [Request] used here: physical address, size in bytes,
    requesting master and context, task, and the extra data in which a
    store-conditional reports its result. *)
Record Request := MkRequest {
  paddr : Z;
  req_size : Z;
  masterId : Z;
  contextId : Z;
  taskId : Z;
  extraData : Z
}.
#[export] Instance Request_settable : Settable Request := fun r =>
  MkRequest (paddr r) (req_size r) (masterId r) (contextId r) (taskId r) (extraData r).

Record Packet := MkPacket {
  cmd : Command;
  pkt_addr : Z;
  pkt_secure : bool;
  req : Request
}.
#[export] Instance Packet_settable : Settable Packet := fun p =>
  MkPacket (cmd p) (pkt_addr p) (pkt_secure p) (req p).

(** What the tag stores read from the rest of the simulator: the current tick,
    the clock period of the cache, the number of masters of the system, and
    [PhysicalMemory::watershed], the address at which the memory changes from
    PCM (below) to DRAM. *)
Record Env := MkEnv {
  curTick : Z;
  clockPeriod : Z;
  maxMasters : Z;
  watershed : Z
}.

Definition invldMasterId : Z := 65535.
Definition Unknown : Z := 1024.
Definition NumTaskId : Z := 1025.

(** ** Consistency of the attribute table *)

Lemma command_cases (P : Command -> bool) :
  forallb P [InvalidCmd; ReadReq; ReadResp; ReadRespWithInvalidate; WriteReq; WriteResp;
    Writeback; SoftPFReq; HardPFReq; SoftPFResp; HardPFResp; WriteInvalidateReq;
    WriteInvalidateResp; UpgradeReq; SCUpgradeReq; UpgradeResp; SCUpgradeFailReq;
    UpgradeFailResp; ReadExReq; ReadExResp; LoadLockedReq; StoreCondReq;
    StoreCondFailReq; StoreCondResp; SwapReq; SwapResp; MessageReq; MessageResp;
    InvalidDestError; BadAddressError; FunctionalReadError; FunctionalWriteError;
    PrintReq; FlushReq; InvalidationReq; RecordResp] = true ->
  forall c, P c = true.
Proof. intros H c. rewrite forallb_forall in H. apply H. by destruct c; repeat (left; done) || right. Qed.

