(* ===== verification/Blk.v ===== *)
(** A cache block ([mem/cache/blk.hh], [mem/cache/blk.cc]): its status word,
    the load-locked list that implements LL/SC, and block visitors. *)
From S2P Require Import Prelude MemTypes.

#[local] Open Scope Z_scope.

(** ** Status bits *)

Definition BlkValid : Z := 0x01.
Definition BlkWritable : Z := 0x02.
Definition BlkReadable : Z := 0x04.
Definition BlkDirty : Z := 0x08.
Definition BlkReferenced : Z := 0x10.
Definition BlkHWPrefetched : Z := 0x20.
Definition BlkSecure : Z := 0x40.
Definition BlkCanGoExclusive : Z := 0x80.

(** ** Locks *)

Record Lock := MkLock { lock_contextId : Z; lowAddr : Z; highAddr : Z }.

#[export] Instance Lock_eq_dec : EqDecision Lock.
Proof. solve_decision. Defined.

Definition req_high (r : Request) : Z := u64 (u64 (paddr r + req_size r) - 1).

Definition Lock_of_Request (r : Request) : Lock :=
  {| lock_contextId := contextId r; lowAddr := paddr r; highAddr := req_high r |}.

Definition matchesContext (l : Lock) (r : Request) : bool :=
  (lock_contextId l =? contextId r) &&
  ((lowAddr l <=? paddr r) && (req_high r <=? highAddr l)).

Definition overlapping (l : Lock) (r : Request) : bool :=
  (paddr r <=? highAddr l) && (lowAddr l <=? req_high r).

(** ** Blocks *)

(** [data] is the offset of the block's bytes in the tag store's data array. *)
Record CacheBlk := MkBlk {
  task_id : Z;
  asid : Z;
  asid_dirty : Z;
  tag : Z;
  data : option Z;
  blk_size : Z;
  status : Z;
  whenReady : Z;
  blk_set : Z;
  isTouched : bool;
  isPcm : bool;
  rrpv : Z;
  refCount : Z;
  srcMasterId : Z;
  tickInserted : Z;
  lockList : list Lock
}.
#[export] Instance CacheBlk_settable : Settable CacheBlk := fun b =>
  MkBlk (task_id b) (asid b) (asid_dirty b) (tag b) (data b) (blk_size b) (status b)
    (whenReady b) (blk_set b) (isTouched b) (isPcm b) (rrpv b) (refCount b)
    (srcMasterId b) (tickInserted b) (lockList b).

#[export] Instance CacheBlk_eq_dec : EqDecision CacheBlk.
Proof. solve_decision. Defined.

(** The constructor; [asid_dirty] is left uninitialised there. *)
Definition CacheBlk_new : CacheBlk :=
  {| task_id := Unknown; asid := -1; asid_dirty := 0; tag := 0; data := None;
     blk_size := 0; status := 0; whenReady := 0; blk_set := -1; isTouched := false;
     isPcm := true; rrpv := 15; refCount := 0; srcMasterId := invldMasterId;
     tickInserted := 0; lockList := [] |}.

(** [operator=]: the lock list and [asid_dirty] stay those of the target. *)
Definition CacheBlk_assign (lhs rhs : CacheBlk) : CacheBlk :=
  rhs <| asid_dirty := asid_dirty lhs |> <| lockList := lockList lhs |>.

Definition isWritable (b : CacheBlk) : bool :=
  let needed_bits := Z.lor BlkWritable BlkValid in
  Z.land (status b) needed_bits =? needed_bits.
Definition isReadable (b : CacheBlk) : bool :=
  let needed_bits := Z.lor BlkReadable BlkValid in
  Z.land (status b) needed_bits =? needed_bits.
Definition isValid (b : CacheBlk) : bool := negb (Z.land (status b) BlkValid =? 0).
Definition isDirty (b : CacheBlk) : bool := negb (Z.land (status b) BlkDirty =? 0).
Definition isReferenced (b : CacheBlk) : bool :=
  negb (Z.land (status b) BlkReferenced =? 0).
Definition wasPrefetched (b : CacheBlk) : bool :=
  negb (Z.land (status b) BlkHWPrefetched =? 0).
Definition isSecure (b : CacheBlk) : bool := negb (Z.land (status b) BlkSecure =? 0).

Definition trackLoadLocked (pkt : Packet) (b : CacheBlk) : outcome CacheBlk :=
  assert! isLLSC (cmd pkt);
  Ok (b <| lockList ::= cons (Lock_of_Request (req pkt)) |>).

(** [clearLoadLocks(Request *req = NULL)]. *)
Definition clearLoadLocks (r : option Request) (b : CacheBlk) : CacheBlk :=
  match r with
  | None => b <| lockList := [] |>
  | Some r => b <| lockList ::= filter (fun l => overlapping l r = false) |>
  end.

Definition blk_invalidate (b : CacheBlk) : CacheBlk :=
  clearLoadLocks None (b <| status := 0 |> <| isTouched := false |>).

(** [checkWrite]: whether the write may proceed, the request with the result
    of a store-conditional stored in it, and the block. *)
Definition checkWrite (pkt : Packet) (b : CacheBlk) : bool * Request * CacheBlk :=
  let r := req pkt in
  if isLLSC (cmd pkt) then
    let success := existsb (fun l => matchesContext l r) (lockList b) in
    let r := r <| extraData := b2Z success |> in
    (success, r, clearLoadLocks (Some r) b)
  else (true, r, clearLoadLocks (Some r) b).

(** The MOESI letter of [print]. *)
Inductive Moesi := MoesiM | MoesiO | MoesiE | MoesiS | MoesiI | MoesiT.
Definition moesi (b : CacheBlk) : Moesi :=
  let state := Z.lor (Z.lor (Z.shiftl (b2Z (isWritable b)) 2)
                            (Z.shiftl (b2Z (isDirty b)) 1)) (b2Z (isValid b)) in
  if state =? 7 then MoesiM else if state =? 3 then MoesiO
  else if state =? 5 then MoesiE else if state =? 1 then MoesiS
  else if state =? 0 then MoesiI else MoesiT.

(** ** Visitors *)

(** [forEachBlk]: visit the array in order until a visit returns false; the
    visitor carries its own state and may rewrite the block. *)
Fixpoint forEachBlk {V} (visitor : V -> CacheBlk -> outcome (V * CacheBlk * bool))
    (v : V) (bs : list CacheBlk) : outcome (V * list CacheBlk) :=
  match bs with
  | [] => Ok (v, [])
  | b :: bs' =>
      '(v', b', continue) ← visitor v b;
      if continue : bool then
        '(v'', rest) ← forEachBlk visitor v' bs'; Ok (v'', b' :: rest)
      else Ok (v', b' :: bs')
  end.

(** [CacheBlkIsDirtyVisitor]. *)
Definition isDirtyVisitor (d : bool) (b : CacheBlk) : outcome (bool * CacheBlk * bool) :=
  if isDirty b then Ok (true, b, false) else Ok (d, b, true).

(** ** The status word, bit by bit *)

Lemma land_bit s k : 0 <= k -> Z.land s (2 ^ k) = if Z.testbit s k then 2 ^ k else 0.
Proof.
  intros Hk. apply Z.bits_inj'. intros n Hn. rewrite Z.land_spec, Z.pow2_bits_eqb by done.
  destruct (Z.eqb_spec k n) as [<-|Hne].
  - rewrite andb_true_r. destruct (Z.testbit s k); [|by rewrite Z.bits_0].
    by rewrite Z.pow2_bits_true.
  - rewrite andb_false_r. destruct (Z.testbit s k); [|by rewrite Z.bits_0].
    by rewrite Z.pow2_bits_false.
Qed.

Lemma land_bit_test s k : 0 <= k -> negb (Z.land s (2 ^ k) =? 0) = Z.testbit s k.
Proof.
  intros Hk. rewrite land_bit by done. destruct (Z.testbit s k); [|done].
  destruct (Z.eqb_spec (2 ^ k) 0); [|done]. assert (0 < 2 ^ k) by lia. lia.
Qed.

Lemma isValid_bit b : isValid b = Z.testbit (status b) 0.
Proof. exact (land_bit_test (status b) 0 ltac:(lia)). Qed.
Lemma isDirty_bit b : isDirty b = Z.testbit (status b) 3.
Proof. exact (land_bit_test (status b) 3 ltac:(lia)). Qed.
Lemma isSecure_bit b : isSecure b = Z.testbit (status b) 6.
Proof. exact (land_bit_test (status b) 6 ltac:(lia)). Qed.
Lemma canGoExclusive_bit b : negb (Z.land (status b) BlkCanGoExclusive =? 0) = Z.testbit (status b) 7.
Proof. exact (land_bit_test (status b) 7 ltac:(lia)). Qed.

Lemma land_two_bits s j k : 0 <= j -> 0 <= k -> j <> k ->
  (Z.land s (Z.lor (2 ^ j) (2 ^ k)) =? Z.lor (2 ^ j) (2 ^ k)) = Z.testbit s j && Z.testbit s k.
Proof.
  intros Hj Hk Hne. apply eq_true_iff_eq. rewrite andb_true_iff, Z.eqb_eq. split.
  - intros E. split.
    + apply (f_equal (fun z => Z.testbit z j)) in E.
      rewrite Z.land_spec, !Z.lor_spec, Z.pow2_bits_true in E by done. by rewrite andb_true_r in E.
    + apply (f_equal (fun z => Z.testbit z k)) in E.
      rewrite Z.land_spec, !Z.lor_spec, (Z.pow2_bits_true k), orb_true_r, andb_true_r in E; done.
  - intros [E1 E2]. by rewrite Z.land_lor_distr_r, !land_bit, E1, E2 by done.
Qed.

Lemma isWritable_bit b : isWritable b = Z.testbit (status b) 1 && Z.testbit (status b) 0.
Proof. exact (land_two_bits (status b) 1 0 ltac:(lia) ltac:(lia) ltac:(lia)). Qed.
Lemma isReadable_bit b : isReadable b = Z.testbit (status b) 2 && Z.testbit (status b) 0.
Proof. exact (land_two_bits (status b) 2 0 ltac:(lia) ltac:(lia) ltac:(lia)). Qed.

(** [status_bits] turns a goal about status flags into one about bits, and
    evaluates the bits of the flag constants. *)
Ltac flag_bit c k :=
  lazymatch c with
  | BlkValid => idtac | BlkWritable => idtac | BlkReadable => idtac | BlkDirty => idtac
  | BlkReferenced => idtac | BlkHWPrefetched => idtac | BlkSecure => idtac
  | BlkCanGoExclusive => idtac
  end;
  let v := eval vm_compute in (Z.testbit c k) in change (Z.testbit c k) with v in *.
Ltac status_bits :=
  rewrite ?isValid_bit, ?isDirty_bit, ?isSecure_bit, ?isWritable_bit, ?isReadable_bit in *;
  cbn -[Z.testbit Z.lor Z.land Z.lnot BlkValid BlkWritable BlkReadable BlkDirty BlkReferenced
        BlkHWPrefetched BlkSecure BlkCanGoExclusive] in *;
  repeat (rewrite ?Z.lor_spec, ?Z.land_spec, ?Z.bits_0 in *; try rewrite Z.lnot_spec in * by lia);
  repeat match goal with |- context [Z.testbit ?c ?k] => flag_bit c k end;
  cbn [negb andb orb];
  rewrite ?andb_true_r, ?andb_false_r, ?orb_true_r, ?orb_false_r; cbn [negb andb orb].

(** ** What the status bits and the lock list mean *)

(** The letter [CacheBlk::print] shows is the block's MOESI state: for every
    status word the cache builds (writable, dirty and readable only when
    valid), M, O, E, S and I are exactly the five combinations of validity,
    write permission and dirtiness, and the two marked invalid letters cannot
    appear. *)
Theorem moesi_is_state (b : CacheBlk) :
  (isDirty b = true -> isValid b = true) ->
  moesi b = (if isValid b then
               if isWritable b then (if isDirty b then MoesiM else MoesiE)
               else (if isDirty b then MoesiO else MoesiS)
             else MoesiI).
Proof.
  intros Hd. unfold moesi. rewrite isWritable_bit.
  assert (Hw : isValid b = Z.testbit (status b) 0) by apply isValid_bit.
  destruct (isValid b) eqn:Hv; rewrite <- Hw.
  - rewrite andb_true_r. by destruct (Z.testbit (status b) 1), (isDirty b).
  - rewrite andb_false_r. destruct (isDirty b); [|done]. by specialize (Hd eq_refl).
Qed.

Lemma moesi_is_state_witness :
  let b := CacheBlk_new <| status := 0x0f |> in
  moesi b = (if isValid b then
               if isWritable b then (if isDirty b then MoesiM else MoesiE)
               else (if isDirty b then MoesiO else MoesiS)
             else MoesiI) /\ moesi b = MoesiM.
Proof. intros b. split; [apply (moesi_is_state b)|]; reflexivity. Defined.

(** Reads and writes to one block, as the cache applies them to its locks. *)
Definition lock_event (b : outcome CacheBlk) (pkt : Packet) : outcome CacheBlk :=
  b ← b;
  if isRead (cmd pkt) then if isLLSC (cmd pkt) then trackLoadLocked pkt b else Ok b
  else Ok (checkWrite pkt b).2.

Definition load_linked (pkt : Packet) : Prop := isRead (cmd pkt) = true /\ isLLSC (cmd pkt) = true.

(** The lock [l] was set by a load-linked of [pkts] and has survived the writes
    after it. *)
Definition lock_alive (pkts : list Packet) (l : Lock) : Prop :=
  exists before ll after, pkts = before ++ ll :: after /\ load_linked ll /\
    l = Lock_of_Request (req ll) /\
    forall w, w ∈ after -> isRead (cmd w) = false -> overlapping l (req w) = false.

Lemma lock_event_ok pkt b :
  exists b', lock_event (Ok b) pkt = Ok b' /\ forall l, l ∈ lockList b' <->
    (load_linked pkt /\ l = Lock_of_Request (req pkt)) \/
    (l ∈ lockList b /\ (isRead (cmd pkt) = false -> overlapping l (req pkt) = false)).
Proof.
  unfold lock_event, load_linked, trackLoadLocked. cbn [mbind outcome_bind].
  destruct (isRead (cmd pkt)) eqn:Hr; [destruct (isLLSC (cmd pkt)) eqn:Hl|]; eexists; (split; [done|]);
    intros l.
  - simpl. rewrite elem_of_cons. naive_solver.
  - naive_solver.
  - assert (E : lockList (checkWrite pkt b).2 =
      filter (fun l => overlapping l (req pkt) = false) (lockList b))
      by (unfold checkWrite; by destruct (isLLSC (cmd pkt))).
    rewrite E, list_elem_of_filter. naive_solver.
Qed.

Lemma lock_alive_snoc pkts pkt l :
  lock_alive (pkts ++ [pkt]) l <->
    (load_linked pkt /\ l = Lock_of_Request (req pkt)) \/
    (lock_alive pkts l /\ (isRead (cmd pkt) = false -> overlapping l (req pkt) = false)).
Proof.
  split.
  - intros (before & ll & after & E & Hll & -> & Hw). destruct after as [|x after _] using rev_ind.
    + apply app_inj_tail in E as [_ ->]. by left.
    + rewrite app_comm_cons, app_assoc in E. apply app_inj_tail in E as [-> ->].
      right. split; [|by apply Hw, elem_of_app; right; apply list_elem_of_singleton].
      exists before, ll, after. split_and!; try done; try apply Hll.
      intros w Hin. apply Hw, elem_of_app. by left.
  - intros [[Hll ->]|[(before & ll & after & -> & Hll & -> & Hw) Hp]].
    + exists pkts, pkt, []. split_and!; try done; try apply Hll. by intros w ?%elem_of_nil.
    + exists before, ll, (after ++ [pkt]). rewrite <- app_assoc. split_and!; try done; try apply Hll.
      intros w [Hin| ->%list_elem_of_singleton]%elem_of_app; [by apply Hw|done].
Qed.


(** A load-linked, a write elsewhere in the block, and a write to the word. *)
Definition lock_pkt (c : Command) (addr context : Z) : Packet :=
  MkPacket c addr false (MkRequest addr 4 7 context 0 0).

