(* ===== verification/CacheSet.v ===== *)
(** One set of a set-associative cache ([mem/cache/tags/cacheset.hh]): an array
    of block pointers kept in recency order, and the in-place loops that reorder
    it.  A pointer is the index of its block in the tag store's block array. *)
From S2P Require Import Prelude MemTypes Blk.

Record CacheSet := MkSet {
  assoc : nat;
  blks : list nat;
  pcm : Z;
  dram : Z;
  set_pcmWriteBacks : Z;
  set_dramWriteBacks : Z
}.
#[export] Instance CacheSet_settable : Settable CacheSet := fun s =>
  MkSet (assoc s) (blks s) (pcm s) (dram s) (set_pcmWriteBacks s) (set_dramWriteBacks s).

#[export] Instance CacheSet_eq_dec : EqDecision CacheSet.
Proof. solve_decision. Defined.

(** ** Lookup *)

(** The loop of [findBlk] from way [i] over the pointers left: the way and the
    pointer of the first block that matches. *)
Fixpoint findBlk_from (mem : list CacheBlk) (tg : Z) (is_secure : bool)
    (i : nat) (bs : list nat) : outcome (option (nat * nat)) :=
  match bs with
  | [] => Ok None
  | b :: bs' =>
      blk ← aget mem b;
      if (tag blk =? tg)%Z && isValid blk && eqb (isSecure blk) is_secure
      then Ok (Some (i, b)) else findBlk_from mem tg is_secure (S i) bs'
  end.

(** [findBlk(tag, is_secure, way_id)]: the block, and [way_id], which is
    [assoc] when no block matches. *)
Definition findBlk_way (mem : list CacheBlk) (s : CacheSet) (tg : Z) (is_secure : bool)
    : outcome (option nat * nat) :=
  r ← findBlk_from mem tg is_secure 0 (take (assoc s) (blks s));
  match r with
  | Some (way_id, b) => Ok (Some b, way_id)
  | None => if decide (length (blks s) < assoc s)%nat then Err OutOfBounds
            else Ok (None, assoc s)
  end.

Definition findBlk (mem : list CacheBlk) (s : CacheSet) (tg : Z) (is_secure : bool)
    : outcome (option nat) := fst <$> findBlk_way mem s tg is_secure.

(** ** Reordering *)

(** The loop [do { assert(i < assoc); swap blks[i] and next; ++i; }
    while (next != blk)]; [n] is [assoc - i], so the assertion fails exactly
    when no iteration is left. *)
Fixpoint shift_up (n i : nat) (bs : list nat) (next blk : nat) : outcome (list nat) :=
  match n with
  | O => Err AssertFail
  | S n' =>
      tmp ← aget bs i;
      bs ← aset bs i next;
      if decide (tmp = blk) then Ok bs else shift_up n' (S i) bs tmp blk
  end.

(** The downward loop of [moveToTail]; [n] is [i + 1], so that [assert(i >= 0)]
    fails at [n = 0]. *)
Fixpoint shift_down (n : nat) (bs : list nat) (next blk : nat) : outcome (list nat) :=
  match n with
  | O => Err AssertFail
  | S i =>
      tmp ← aget bs i;
      bs ← aset bs i next;
      if decide (tmp = blk) then Ok bs else shift_down i bs tmp blk
  end.

(** The search [for (i = 1; i < assoc; i++) if (blks[i] == blk) break;]:
    [assoc] when the block is not there. *)
Fixpoint search_from (n i : nat) (bs : list nat) (blk : nat) : outcome nat :=
  match n with
  | O => Ok i
  | S n' => x ← aget bs i; if decide (x = blk) then Ok i else search_from n' (S i) bs blk
  end.

Definition moveToHead (blk : nat) (s : CacheSet) : outcome CacheSet :=
  head ← aget (blks s) 0;
  if decide (head = blk) then Ok s
  else bs ← shift_up (assoc s) 0 (blks s) blk blk; Ok (s <| blks := bs |>).

Definition moveOneStep (blk : nat) (s : CacheSet) : outcome CacheSet :=
  head ← aget (blks s) 0;
  if decide (head = blk) then Ok s
  else
    i ← search_from (assoc s - 1) 1 (blks s) blk;
    tmp ← aget (blks s) i;
    prev ← aget (blks s) (i - 1);
    bs ← aset (blks s) i prev;
    bs ← aset bs (i - 1) tmp;
    Ok (s <| blks := bs |>).

Definition moveNStep (blk : nat) (n : Z) (s : CacheSet) : outcome CacheSet :=
  head ← aget (blks s) 0;
  if decide (head = blk) then Ok s
  else
    i ← search_from (assoc s - 1) 1 (blks s) blk;
    let i := (Z.of_nat i - n)%Z in
    let i := if (i <? 0)%Z then 0%Z else i in
    let i := Z.to_nat i in
    bs ← shift_up (assoc s - i) i (blks s) blk blk;
    Ok (s <| blks := bs |>).

(** [location] is a [uint8_t]: the caller's value is reduced modulo 256. *)
Definition insertFixLocation (blk : nat) (location : Z) (s : CacheSet) : outcome CacheSet :=
  let i := Z.to_nat (u8 location) in
  x ← aget (blks s) i;
  if decide (x = blk) then Ok s
  else bs ← shift_up (assoc s - i) i (blks s) blk blk; Ok (s <| blks := bs |>).

Definition moveToTail (blk : nat) (s : CacheSet) : outcome CacheSet :=
  last ← aget (blks s) (assoc s - 1);
  if decide (last = blk) then Ok s
  else bs ← shift_down (assoc s) (blks s) blk blk; Ok (s <| blks := bs |>).

(** ** The loops *)

Lemma shift_up_found n i p q s next b :
  length p = i -> b ∉ q -> length q < n ->
  shift_up n i (p ++ q ++ b :: s) next b = Ok (p ++ next :: q ++ s).
Proof.
  revert i p q next. induction n as [|n IH]; intros i p q next Hp Hq Hn; [lia|].
  simpl. unfold aget. rewrite lookup_app_r, <- Hp, Nat.sub_diag by lia.
  destruct q as [|x q]; simpl; unfold aset.
  - rewrite decide_True by (rewrite length_app; simpl; lia). simpl.
    rewrite decide_True by done. f_equal.
    rewrite insert_app_r_alt, Nat.sub_diag by lia. done.
  - rewrite decide_True by (rewrite length_app; simpl; lia). simpl.
    rewrite decide_False by set_solver.
    rewrite insert_app_r_alt, Nat.sub_diag by lia. simpl.
    replace (p ++ next :: q ++ b :: s) with ((p ++ [next]) ++ q ++ b :: s)
      by (by rewrite <- app_assoc).
    simpl in *. rewrite IH; [by rewrite <- app_assoc| |set_solver|lia].
    rewrite length_app. simpl. lia.
Qed.

Lemma shift_up_missing n i bs next b :
  i + n = length bs -> b ∉ drop i bs -> shift_up n i bs next b = Err AssertFail.
Proof.
  revert i bs next. induction n as [|n IH]; intros i bs next Hn Hb; [done|].
  simpl. unfold aget. destruct (lookup_lt_is_Some_2 bs i ltac:(lia)) as [x Hx].
  rewrite Hx. simpl. unfold aset. rewrite decide_True by lia. simpl.
  rewrite (drop_S _ _ _ Hx) in Hb. rewrite decide_False by set_solver.
  apply IH; [rewrite length_insert; lia|]. rewrite drop_insert_lt by lia. set_solver.
Qed.

Lemma shift_down_found p q s next b :
  b ∉ q ->
  shift_down (length p + S (length q)) (p ++ b :: q ++ s) next b = Ok (p ++ q ++ next :: s).
Proof.
  revert s next. induction q as [|x q IH] using rev_ind; intros s next Hq.
  - simpl. rewrite Nat.add_1_r. simpl. unfold aget, aset.
    rewrite list_lookup_middle, decide_True by (done || rewrite length_app; simpl; lia).
    simpl. rewrite decide_True by done. f_equal.
    by rewrite insert_app_r_alt, Nat.sub_diag by lia.
  - rewrite length_app. simpl.
    replace (length p + S (length q + 1)) with (S (length p + S (length q))) by lia.
    simpl. unfold aget, aset.
    replace (p ++ b :: (q ++ [x]) ++ s) with ((p ++ b :: q) ++ x :: s)
      by (by rewrite <- !app_assoc).
    rewrite list_lookup_middle by (rewrite length_app; simpl; lia).
    rewrite decide_True by (rewrite !length_app; simpl; lia). simpl.
    rewrite decide_False by set_solver.
    rewrite insert_app_r_alt by (rewrite length_app; simpl; lia).
    rewrite length_app. simpl. rewrite Nat.sub_diag. simpl.
    rewrite <- app_assoc. simpl. rewrite IH by set_solver. by rewrite <- app_assoc.
Qed.

Lemma shift_down_missing n bs next b :
  n <= length bs -> b ∉ take n bs -> shift_down n bs next b = Err AssertFail.
Proof.
  revert bs next. induction n as [|n IH]; intros bs next Hn Hb; [done|].
  simpl. unfold aget. destruct (lookup_lt_is_Some_2 bs n ltac:(lia)) as [x Hx].
  rewrite Hx. simpl. unfold aset. rewrite decide_True by lia. simpl.
  rewrite (take_S_r _ _ _ Hx) in Hb. rewrite decide_False by set_solver.
  apply IH; [rewrite length_insert; lia|]. rewrite take_insert_ge by lia. set_solver.
Qed.

Lemma search_from_found n i k bs b :
  bs !! k = Some b -> NoDup bs -> i <= k < i + n -> i + n <= length bs ->
  search_from n i bs b = Ok k.
Proof.
  revert i. induction n as [|n IH]; intros i Hk Hnd Hi Hn; [lia|].
  simpl. unfold aget. destruct (lookup_lt_is_Some_2 bs i ltac:(lia)) as [x Hx].
  rewrite Hx. simpl. destruct (decide (x = b)) as [->|Hne].
  - by rewrite (NoDup_lookup _ _ _ _ Hnd Hk Hx).
  - apply IH; [done|done| |lia]. assert (i <> k) by congruence. lia.
Qed.

Lemma search_from_missing n i bs b :
  b ∉ bs -> i + n <= length bs -> search_from n i bs b = Ok (i + n).
Proof.
  revert i. induction n as [|n IH]; intros i Hb Hn; simpl; [by rewrite Nat.add_0_r|].
  unfold aget. destruct (lookup_lt_is_Some_2 bs i ltac:(lia)) as [x Hx].
  rewrite Hx. simpl. rewrite decide_False.
  - rewrite IH by (done || lia). f_equal. lia.
  - intros ->. by apply list_elem_of_lookup_2 in Hx.
Qed.

Lemma swap_adjacent {A} p y b r k (f : list nat -> outcome A) :
  k = S (length p) ->
  (tmp ← aget (p ++ y :: b :: r) k;
   prev ← aget (p ++ y :: b :: r) (length p);
   bs ← aset (p ++ y :: b :: r) k prev;
   bs ← aset bs (length p) tmp; f bs) = f (p ++ b :: y :: r).
Proof.
  intros ->. unfold aget, aset.
  assert (E : (p ++ y :: b :: r) !! S (length p) = Some b).
  { rewrite lookup_app_r by lia. by replace (S (length p) - length p) with 1 by lia. }
  rewrite E, list_lookup_middle by done. simpl.
  rewrite decide_True by (rewrite length_app; simpl; lia). simpl.
  rewrite insert_app_r_alt by lia. replace (S (length p) - length p) with 1 by lia. simpl.
  rewrite decide_True by (rewrite length_app; simpl; lia). simpl.
  by rewrite insert_app_r_alt, Nat.sub_diag by lia.
Qed.

(** ** What each operation does to the recency order *)

(** A well-formed set: [assoc] distinct pointers, at least one. *)
Definition set_ok (s : CacheSet) : Prop :=
  length (blks s) = assoc s /\ NoDup (blks s) /\ 0 < assoc s.

#[export] Instance set_ok_dec s : Decision (set_ok s).
Proof. unfold set_ok. apply _. Defined.

Section reorder.
Context (s : CacheSet) (Hs : set_ok s).
Context (b k : nat) (Hk : index_of b (blks s) = Some k).

Local Definition placed (j : nat) : CacheSet := s <| blks := place j b (blks s) |>.

Lemma placed_self : placed k = s.
Proof.
  unfold placed. rewrite place_id by (done || apply Hs). by destruct s.
Qed.

Lemma shift_up_place i n :
  i <= k -> k - i < n -> shift_up n i (blks s) b b = Ok (place i b (blks s)).
Proof.
  intros Hi Hn. destruct (index_of_split _ _ i _ Hk Hi) as (p & q & r & E & Hp & Hq & _ & Hbq).
  rewrite E. rewrite shift_up_found by (done || lia).
  destruct Hs as (_ & Hnd & _). rewrite E in Hnd. by rewrite <- Hp, place_split.
Qed.

Lemma head_is_b :
  exists h, aget (blks s) 0 = Ok h /\ (h = b <-> k = 0).
Proof.
  destruct Hs as (Hl & Hnd & Ha).
  destruct (lookup_lt_is_Some_2 (blks s) 0 ltac:(lia)) as [h Hh].
  exists h. unfold aget. rewrite Hh. split; [done|]. split.
  - intros ->. apply (lookup_index_of b) in Hh; [congruence|done].
  - intros ->. apply index_of_lookup in Hk. congruence.
Qed.

Lemma index_lt_assoc : k < assoc s.
Proof. destruct Hs as (<- & _). by eapply index_of_lt. Qed.

Lemma search_found : 0 < k -> search_from (assoc s - 1) 1 (blks s) b = Ok k.
Proof.
  intros. pose proof index_lt_assoc. destruct Hs as (Hl & Hnd & Ha).
  apply search_from_found; [by apply index_of_lookup|done|lia|lia].
Qed.

Lemma moveToHead_place : moveToHead b s = Ok (placed 0).
Proof.
  pose proof index_lt_assoc. unfold moveToHead.
  destruct head_is_b as (h & -> & Hh). simpl. case_decide.
  - replace 0 with k by (by apply Hh). by rewrite placed_self.
  - by rewrite shift_up_place by lia.
Qed.

Lemma moveNStep_place n :
  (0 <= n)%Z -> moveNStep b n s = Ok (placed (k - Z.to_nat n)).
Proof.
  intros Hn. pose proof index_lt_assoc. unfold moveNStep.
  destruct head_is_b as (h & -> & Hh). simpl. case_decide as Hc.
  - apply Hh in Hc. replace (k - Z.to_nat n) with k by lia. by rewrite placed_self.
  - rewrite search_found by (assert (k <> 0) by tauto; lia). simpl.
    replace (Z.to_nat (if (Z.of_nat k - n <? 0)%Z then 0%Z else (Z.of_nat k - n)%Z))
      with (k - Z.to_nat n) by (destruct (Z.ltb_spec (Z.of_nat k - n) 0); lia).
    by rewrite shift_up_place by lia.
Qed.

Lemma insertFixLocation_place loc :
  Z.to_nat (u8 loc) <= k -> insertFixLocation b loc s = Ok (placed (Z.to_nat (u8 loc))).
Proof.
  intros Hloc. pose proof index_lt_assoc as Hlt. unfold insertFixLocation.
  generalize dependent (Z.to_nat (u8 loc)). intros i Hloc. destruct Hs as (Hl & Hnd & Ha).
  destruct (lookup_lt_is_Some_2 (blks s) i ltac:(lia)) as [x Hx].
  unfold aget. rewrite Hx. simpl. case_decide as Hc.
  - subst x. apply (lookup_index_of _ _ _ Hnd) in Hx.
    replace i with k by congruence. by rewrite placed_self.
  - by rewrite shift_up_place by lia.
Qed.

Lemma insertFixLocation_above loc :
  k < Z.to_nat (u8 loc) < assoc s -> insertFixLocation b loc s = Err AssertFail.
Proof.
  intros Hloc. unfold insertFixLocation.
  generalize dependent (Z.to_nat (u8 loc)). intros i Hloc. destruct Hs as (Hl & Hnd & Ha).
  destruct (lookup_lt_is_Some_2 (blks s) i ltac:(lia)) as [x Hx].
  pose proof (index_of_lookup _ _ _ Hk) as Hb.
  unfold aget. rewrite Hx. simpl. rewrite decide_False.
  2: { intros ->. pose proof (NoDup_lookup _ _ _ _ Hnd Hx Hb). lia. }
  rewrite shift_up_missing; [done|lia|].
  intros [j Hj]%list_elem_of_lookup. rewrite lookup_drop in Hj.
  pose proof (NoDup_lookup _ _ _ _ Hnd Hj Hb). lia.
Qed.

Lemma moveToTail_place : moveToTail b s = Ok (placed (assoc s - 1)).
Proof.
  pose proof index_lt_assoc as Hlt. unfold moveToTail. destruct Hs as (Hl & Hnd & Ha).
  destruct (lookup_lt_is_Some_2 (blks s) (assoc s - 1) ltac:(lia)) as [x Hx].
  unfold aget. rewrite Hx. simpl. case_decide as Hc.
  - subst x. apply (lookup_index_of _ _ _ Hnd) in Hx.
    replace (assoc s - 1) with k by congruence. by rewrite placed_self.
  - pose proof Hk as (p & r & E & Hp & Hb)%index_of_Some.
    assert (Hbr : b ∉ r) by (rewrite E in Hnd; apply NoDup_app in Hnd as (_ & _ & [? _]%NoDup_cons); done).
    assert (Hpl : place (assoc s - 1) b (blks s) = p ++ r ++ [b]).
    { unfold place. rewrite E, without_split by done.
      rewrite take_ge, drop_ge; [by rewrite <- app_assoc| |];
        rewrite E, length_app in Hl; rewrite length_app; simpl in *; lia. }
    assert (Ha' : assoc s = length p + S (length r))
      by (rewrite <- Hl, E, length_app; simpl; lia).
    pose proof (shift_down_found p r [] b b Hbr) as Hsd. rewrite app_nil_r in Hsd.
    unfold placed. rewrite Hpl.
    assert (shift_down (assoc s) (blks s) b b = Ok (p ++ r ++ [b])) as ->
      by (rewrite Ha', E; exact Hsd). done.
Qed.

Lemma moveOneStep_place : moveOneStep b s = Ok (placed (k - 1)).
Proof.
  pose proof index_lt_assoc as Hlt. unfold moveOneStep.
  destruct head_is_b as (h & -> & Hh). simpl. case_decide as Hc.
  - apply Hh in Hc. replace (k - 1) with k by lia. by rewrite placed_self.
  - assert (0 < k) by (assert (k <> 0) by tauto; lia).
    rewrite search_found by done. simpl.
    destruct (index_of_split _ _ (k - 1) _ Hk ltac:(lia)) as (p & q & r & E & Hp & Hq & _ & Hbq).
    destruct q as [|y [|]]; simpl in Hq; try lia. simpl in E.
    destruct Hs as (_ & Hnd & _). unfold placed.
    rewrite E in Hnd |- *.
    pose proof (place_split p [y] b r Hnd) as Hps. simpl in Hps. rewrite <- Hp, Hps.
    exact (swap_adjacent p y b r k (fun bs => Ok (s <| blks := bs |>)) ltac:(lia)).
Qed.
End reorder.

(** A block that is not in the set: every loop runs off the array. *)
Section missing.
Context (s : CacheSet) (Hs : set_ok s) (b : nat) (Hb : b ∉ blks s).

Lemma some_other i : i < assoc s -> exists x, aget (blks s) i = Ok x /\ x <> b.
Proof.
  intros Hi. pose proof Hs as (Hl & _).
  destruct (lookup_lt_is_Some_2 (blks s) i ltac:(lia)) as [x Hx].
  exists x. unfold aget. rewrite Hx. split; [done|]. intros ->.
  by apply list_elem_of_lookup_2 in Hx.
Qed.

Lemma shift_up_absent i : i <= assoc s -> shift_up (assoc s - i) i (blks s) b b = Err AssertFail.
Proof.
  intros. pose proof Hs as (Hl & _). apply shift_up_missing; [lia|].
  intros ?. apply Hb. rewrite <- (take_drop i (blks s)). set_solver.
Qed.

Lemma moveToHead_missing : moveToHead b s = Err AssertFail.
Proof.
  pose proof (shift_up_absent 0) as E. rewrite Nat.sub_0_r in E. pose proof Hs as (_ & _ & Ha).
  unfold moveToHead. destruct (some_other 0) as (x & -> & Hx); [done|]. simpl.
  rewrite decide_False by done. by rewrite E by lia.
Qed.

Lemma moveToTail_missing : moveToTail b s = Err AssertFail.
Proof.
  pose proof Hs as (Hl & _ & Ha). unfold moveToTail.
  destruct (some_other (assoc s - 1)) as (x & -> & Hx); [lia|]. simpl.
  rewrite decide_False by done.
  by rewrite shift_down_missing by (lia || rewrite take_ge by lia; done).
Qed.

Lemma moveOneStep_missing : moveOneStep b s = Err OutOfBounds.
Proof.
  pose proof Hs as (Hl & _ & Ha). unfold moveOneStep.
  destruct (some_other 0) as (x & -> & Hx); [done|]. simpl.
  rewrite decide_False by done. rewrite search_from_missing by (done || lia). simpl.
  replace (S (assoc s - 1)) with (assoc s) by lia. unfold aget.
  by rewrite (lookup_ge_None_2 (blks s) (assoc s)) by lia.
Qed.

Lemma moveNStep_missing n : (0 <= n)%Z -> moveNStep b n s = Err AssertFail.
Proof.
  intros Hn. pose proof Hs as (Hl & _ & Ha). unfold moveNStep.
  destruct (some_other 0) as (x & -> & Hx); [done|]. cbn [mbind outcome_bind].
  rewrite decide_False by done. rewrite search_from_missing by (done || lia).
  cbn [mbind outcome_bind].
  rewrite shift_up_absent; [done|]. destruct (Z.ltb_spec (Z.of_nat (1 + (assoc s - 1)) - n) 0); lia.
Qed.

Lemma insertFixLocation_missing loc :
  insertFixLocation b loc s =
    Err (if decide (Z.to_nat (u8 loc) < assoc s) then AssertFail else OutOfBounds).
Proof.
  pose proof Hs as (Hl & _ & Ha). unfold insertFixLocation.
  generalize (Z.to_nat (u8 loc)). intros i. case_decide as Hi.
  - destruct (some_other i) as (x & -> & Hx); [done|]. simpl.
    rewrite decide_False by done. by rewrite shift_up_absent by lia.
  - unfold aget. by rewrite lookup_ge_None_2 by lia.
Qed.
End missing.

(** ** The contract of the reordering operations *)

(** The five operations, and the position each promises to its block, as a
    function of the associativity and of the block's position ([None] when the
    block is not in the set). *)
Inductive SetOp :=
| ToHead | OneStep | NStep (n : nat) | FixLocation (location : Z) | ToTail.

Definition run_op (op : SetOp) (b : nat) (s : CacheSet) : outcome CacheSet :=
  match op with
  | ToHead => moveToHead b s
  | OneStep => moveOneStep b s
  | NStep n => moveNStep b (Z.of_nat n) s
  | FixLocation location => insertFixLocation b location s
  | ToTail => moveToTail b s
  end.

Definition target (op : SetOp) (ways : nat) (pos : option nat) : outcome nat :=
  match op, pos with
  | OneStep, None => Err OutOfBounds
  | FixLocation l, _ =>
      let l := Z.to_nat (u8 l) in
      if decide (ways <= l) then Err OutOfBounds
      else match pos with
           | Some k => if decide (l <= k) then Ok l else Err AssertFail
           | None => Err AssertFail
           end
  | _, None => Err AssertFail
  | ToHead, Some _ => Ok 0
  | OneStep, Some k => Ok (k - 1)
  | NStep n, Some k => Ok (k - n)
  | ToTail, Some _ => Ok (ways - 1)
  end.

(** C29. On a well-formed set every reordering operation of [CacheSet] does
    exactly what its contract says: the block moves to the promised position
    and the other blocks keep their order, or, when the block is missing, lies
    above the requested location, or the location is outside the set, the
    operation stops with the stated assertion or out-of-bounds access. *)
Theorem run_op_refines (s : CacheSet) (Hs : set_ok s) (op : SetOp) (b : nat) :
  run_op op b s =
    (j ← target op (assoc s) (index_of b (blks s)); Ok (s <| blks := place j b (blks s) |>)).
Proof.
  destruct (index_of b (blks s)) as [k|] eqn:Hk.
  - destruct op; simpl.
    + by rewrite (moveToHead_place s Hs b k).
    + by rewrite (moveOneStep_place s Hs b k).
    + rewrite (moveNStep_place s Hs b k Hk) by lia. by rewrite Nat2Z.id.
    + pose proof (index_lt_assoc s Hs b k Hk). case_decide as Hl; [|case_decide].
      * unfold insertFixLocation, aget. by rewrite lookup_ge_None_2 by (destruct Hs; lia).
      * by rewrite (insertFixLocation_place s Hs b k Hk).
      * by rewrite (insertFixLocation_above s Hs b k Hk) by lia.
    + by rewrite (moveToTail_place s Hs b k).
  - apply index_of_None in Hk. destruct op; simpl.
    + by rewrite moveToHead_missing.
    + by rewrite moveOneStep_missing.
    + by rewrite moveNStep_missing by (done || lia).
    + rewrite insertFixLocation_missing by done. repeat case_decide; by (done || lia).
    + by rewrite moveToTail_missing.
Qed.

Lemma run_op_refines_witness :
  let s := MkSet 4 [7; 2; 9; 4] 0 0 0 0 in
  run_op (NStep 2) 4 s = Ok (s <| blks := [7; 4; 2; 9] |>).
Proof. intros s. refine (run_op_refines s _ (NStep 2) 4). by apply (bool_decide_eq_true_1 _). Defined.
