(* ===== verification/SetAssoc.v ===== *)
(** The set-associative tag store all replacement policies derive from
    ([mem/cache/tags/base_set_assoc.hh], [base_set_assoc.cc], and the fields of
    [mem/cache/tags/base.hh] it uses): address slicing, construction, access,
    insertion, invalidation, and the statistics kept along the way. *)
From S2P Require Import Prelude IntMath MemTypes Blk CacheSet.
From coqutil Require Import Z.bitblast.

#[local] Open Scope Z_scope.

(** ** State *)

(** Sizes and masks, fixed by the constructor. *)
Record TagConfig := MkConfig {
  blkSize : Z;
  hitLatency : Z;
  ways : nat;
  numSets : nat;
  sequentialAccess : bool;
  setShift : Z;
  tagShift : Z;
  setMask : Z;
  blkMask : Z;
  warmupBound : Z;
  numBlocks : nat
}.

(** Statistics; counters are kept as integers, and [occupancies] has an entry
    per master. *)
Record Stats := MkStats {
  replacements : Z;
  tagsInUse : Z;
  totalRefs : Z;
  sampledRefs : Z;
  pcmWriteBacks : Z;
  dramWriteBacks : Z;
  tagAccesses : Z;
  dataAccesses : Z;
  occupancies : list Z;
  occupanciesTaskId : list Z;
  ageTaskId : list (list Z)
}.
#[export] Instance Stats_settable : Settable Stats := fun s =>
  MkStats (replacements s) (tagsInUse s) (totalRefs s) (sampledRefs s) (pcmWriteBacks s)
    (dramWriteBacks s) (tagAccesses s) (dataAccesses s) (occupancies s)
    (occupanciesTaskId s) (ageTaskId s).

(** The tag store: [mem] is the array [blks] of blocks, and the pointers of
    [sets] are indices into it. *)
Record TagStore := MkTags {
  cfg : TagConfig;
  warmedUp : bool;
  sets : list CacheSet;
  mem : list CacheBlk;
  stats : Stats
}.
#[export] Instance TagStore_settable : Settable TagStore := fun t =>
  MkTags (cfg t) (warmedUp t) (sets t) (mem t) (stats t).

Definition getSet (t : TagStore) (i : Z) : outcome CacheSet :=
  if i <? 0 then Err OutOfBounds else aget (sets t) (Z.to_nat i).
Definition updSet (i : Z) (f : CacheSet -> outcome CacheSet) (t : TagStore)
    : outcome TagStore :=
  s ← getSet t i; s' ← f s; Ok (t <| sets ::= insert (Z.to_nat i) s' |>).
Definition getBlk (t : TagStore) (b : nat) : outcome CacheBlk := aget (mem t) b.
Definition updBlk (b : nat) (f : CacheBlk -> CacheBlk) (t : TagStore) : outcome TagStore :=
  blk ← getBlk t b; Ok (t <| mem ::= insert b (f blk) |>).

(** [v[i] += d] on a statistics vector. *)
Definition bump (i d : Z) (v : list Z) : outcome (list Z) :=
  if i <? 0 then Err OutOfBounds
  else x ← aget v (Z.to_nat i); Ok (<[Z.to_nat i := x + d]> v).

(** ** Addresses *)

Definition extractTag (c : TagConfig) (addr : Z) : Z := Z.shiftr addr (tagShift c).
Definition extractSet (c : TagConfig) (addr : Z) : Z :=
  i32 (Z.land (Z.shiftr addr (setShift c)) (setMask c)).
Definition extractBlkOffset (c : TagConfig) (addr : Z) : Z := i32 (Z.land addr (blkMask c)).
Definition blkAlign (c : TagConfig) (addr : Z) : Z :=
  Z.land addr (u64 (Z.lnot (blkMask c))).
Definition regenerateBlkAddr (c : TagConfig) (tg set : Z) : Z :=
  Z.lor (u64 (Z.shiftl tg (tagShift c))) (u64 (Z.shiftl set (setShift c))).

(** ** Construction *)

(** The parameters the constructor reads, all unsigned. *)
Record TagStoreParams := MkParams {
  p_size : Z;
  p_block_size : Z;
  p_assoc : Z;
  p_sequential_access : bool;
  p_hit_latency : Z
}.

(** [numSets(p->size / (p->block_size * p->assoc))] is evaluated in the
    initialiser list, ahead of every check of the body. *)
Definition compute_config (p : TagStoreParams) : outcome TagConfig :=
  let way_bytes := u32 (p_block_size p * p_assoc p) in
  if way_bytes =? 0 then Err DivByZero
  else
    let numSets := p_size p / way_bytes in
    if (p_block_size p <? 4) || negb (isPowerOf2 32 (p_block_size p)) then Err Fatal
    else if (numSets <=? 0) || negb (isPowerOf2 32 numSets) then Err Fatal
    else if p_assoc p <=? 0 then Err Fatal
    else if p_hit_latency p <=? 0 then Err Fatal
    else
      setShift ← floorLog2 (p_block_size p);
      setBits ← floorLog2 numSets;
      Ok {| blkSize := p_block_size p; hitLatency := p_hit_latency p;
            ways := Z.to_nat (p_assoc p); numSets := Z.to_nat numSets;
            sequentialAccess := p_sequential_access p;
            setShift := setShift; tagShift := setShift + setBits;
            setMask := u32 (numSets - 1); blkMask := u32 (p_block_size p - 1);
            warmupBound := i32 (u32 (numSets * p_assoc p));
            numBlocks := Z.to_nat (u32 (numSets * p_assoc p)) |}.

(** Block [j] of set [i], as the constructor leaves it. *)
Definition init_blk (c : TagConfig) (i j : nat) : CacheBlk :=
  let blkIndex := (i * ways c + j)%nat in
  let blk := CacheBlk_new <| data := Some (blkSize c * Z.of_nat blkIndex) |> in
  let blk := blk_invalidate blk in
  blk <| tag := Z.of_nat j |> <| whenReady := 0 |> <| isTouched := false |>
      <| rrpv := u8 (Z.of_nat (ways c) - 1) |> <| blk_size := blkSize c |>
      <| blk_set := Z.of_nat i |>.

Definition init_set (c : TagConfig) (i : nat) : CacheSet :=
  {| assoc := ways c; blks := seq (i * ways c) (ways c); pcm := 0; dram := 0;
     set_pcmWriteBacks := 0; set_dramWriteBacks := 0 |}.

Definition init_stats (masters : Z) : Stats :=
  {| replacements := 0; tagsInUse := 0; totalRefs := 0; sampledRefs := 0;
     pcmWriteBacks := 0; dramWriteBacks := 0; tagAccesses := 0; dataAccesses := 0;
     occupancies := replicate (Z.to_nat masters) 0;
     occupanciesTaskId := replicate (Z.to_nat NumTaskId) 0;
     ageTaskId := replicate (Z.to_nat NumTaskId) (replicate 5 0) |}.

Definition init_tags (c : TagConfig) (masters : Z) : TagStore :=
  {| cfg := c; warmedUp := false;
     sets := init_set c <$> seq 0 (numSets c);
     mem := i ← seq 0 (numSets c); init_blk c i <$> seq 0 (ways c);
     stats := init_stats masters |}.

Definition BaseSetAssoc_new (p : TagStoreParams) (masters : Z) : outcome TagStore :=
  c ← compute_config p; Ok (init_tags c masters).

(** ** Per-set line counters (8 bits wide) and write-back counters *)

Definition incSetLine (numSet : Z) (ispcm : bool) (t : TagStore) : outcome TagStore :=
  updSet numSet (fun s => Ok (if ispcm then s <| pcm ::= fun n => u8 (n + 1) |>
                              else s <| dram ::= fun n => u8 (n + 1) |>)) t.

Definition decSetLine (numSet : Z) (ispcm : bool) (t : TagStore) : outcome TagStore :=
  updSet numSet (fun s => Ok (if ispcm then s <| pcm ::= fun n => u8 (n - 1) |>
                              else s <| dram ::= fun n => u8 (n - 1) |>)) t.

Definition incWriteBacks (blk : CacheBlk) (t : TagStore) : outcome TagStore :=
  if isPcm blk then
    t ← updSet (blk_set blk) (fun s => Ok (s <| set_pcmWriteBacks ::= Z.succ |>)) t;
    Ok (t <| stats ::= set_field pcmWriteBacks Z.succ |>)
  else
    t ← updSet (blk_set blk) (fun s => Ok (s <| set_dramWriteBacks ::= Z.succ |>)) t;
    Ok (t <| stats ::= set_field dramWriteBacks Z.succ |>).

(** [printSetLine] also restarts the write-back counts of the last-level cache. *)
Definition printSetLine (isLastLevel : bool) (t : TagStore) : TagStore :=
  if isLastLevel then
    t <| sets ::= fmap (fun s => s <| set_pcmWriteBacks := 0 |> <| set_dramWriteBacks := 0 |>) |>
  else t.

(** ** Lookup *)

Definition findBlock (t : TagStore) (addr : Z) (is_secure : bool) : outcome (option nat) :=
  s ← getSet t (extractSet (cfg t) addr);
  findBlk (mem t) s (extractTag (cfg t) addr) is_secure.

Definition ticksToCycles (env : Env) (ticks : Z) : Z := divCeil ticks (clockPeriod env).

(** [accessBlock]: the block if there is a hit, and the access latency. *)
Definition accessBlock (env : Env) (addr : Z) (is_secure : bool) (t : TagStore)
    : outcome (TagStore * option nat * Z) :=
  let c := cfg t in
  let tg := extractTag c addr in
  let set := extractSet c addr in
  s ← getSet t set;
  blk ← findBlk (mem t) s tg is_secure;
  let hit := bool_decide (is_Some blk) in
  let data_accesses :=
    if sequentialAccess c then b2Z hit else Z.of_nat (ways c) in
  let t := t <| stats ::= fun st =>
    st <| tagAccesses ::= Z.add (Z.of_nat (ways c)) |>
       <| dataAccesses ::= Z.add data_accesses |> |> in
  match blk with
  | None => Ok (t, None, hitLatency c)
  | Some b =>
      bl ← getBlk t b;
      let wait := ticksToCycles env (whenReady bl - curTick env) in
      let lat := if (curTick env <? whenReady bl) && (hitLatency c <? wait)
                 then wait else hitLatency c in
      t ← updBlk b (fun bl => bl <| refCount ::= Z.succ |>) t;
      Ok (t, Some b, lat)
  end.

(** ** Replacement *)

Fixpoint first_invalid (mem : list CacheBlk) (last : option nat) (bs : list nat)
    : outcome (option nat) :=
  match bs with
  | [] => Ok last
  | b :: bs' => blk ← aget mem b;
                if isValid blk then first_invalid mem (Some b) bs' else Ok (Some b)
  end.

(** [findVictim]: the first invalid block of the set, otherwise the block of
    the last way. *)
Definition findVictim (addr : Z) (t : TagStore) : outcome nat :=
  s ← getSet t (extractSet (cfg t) addr);
  r ← first_invalid (mem t) None (take (ways (cfg t)) (blks s));
  match r with Some b => Ok b | None => Err OutOfBounds end.

(** [insertBlock], in three parts: count the tag the first time it is used,
    retire the block that was there, claim the block for the packet. *)
Definition touch (b : nat) (t : TagStore) : outcome TagStore :=
  blk ← getBlk t b;
  if isTouched blk then Ok t
  else
    let t := t <| stats ::= fun st => st <| tagsInUse ::= Z.succ |> |> in
    updBlk b (fun bl => bl <| isTouched := true |>) t.

Definition retire (env : Env) (b : nat) (t : TagStore) : outcome TagStore :=
  blk ← getBlk t b;
  if isValid blk then
    let t := t <| stats ::= fun st =>
      st <| replacements ::= Z.succ |> <| totalRefs ::= Z.add (refCount blk) |>
         <| sampledRefs ::= Z.succ |> |> in
    t ← updBlk b (fun bl => bl <| refCount := 0 |>) t;
    assert! srcMasterId blk <? maxMasters env;
    occ ← bump (srcMasterId blk) (-1) (occupancies (stats t));
    let t := t <| stats ::= fun st => st <| occupancies := occ |> |> in
    t ← decSetLine (blk_set blk) (isPcm blk) t;
    updBlk b blk_invalidate t
  else Ok t.

Definition claim (env : Env) (pkt : Packet) (b : nat) (t : TagStore) : outcome TagStore :=
  let addr := pkt_addr pkt in
  let master_id := masterId (req pkt) in
  let ispcm := if watershed env <=? addr then false else true in
  t ← updBlk b (fun bl => bl <| isPcm := ispcm |>) t;
  blk ← getBlk t b;
  t ← incSetLine (blk_set blk) (isPcm blk) t;
  t ← updBlk b (fun bl => bl <| isTouched := true |> <| tag := extractTag (cfg t) addr |>) t;
  assert! master_id <? maxMasters env;
  occ ← bump master_id 1 (occupancies (stats t));
  let t := t <| stats ::= fun st => st <| occupancies := occ |> |> in
  t ← updBlk b (fun bl => bl <| srcMasterId := master_id |>
                             <| task_id := taskId (req pkt) |>
                             <| tickInserted := curTick env |>) t;
  Ok (t <| stats ::= fun st =>
    st <| tagAccesses ::= Z.succ |> <| dataAccesses ::= Z.succ |> |>).

Definition insertBlock (env : Env) (pkt : Packet) (b : nat) (t : TagStore)
    : outcome TagStore :=
  t ← touch b t; t ← retire env b t; claim env pkt b t.

(** [invalidate]; the status bits are cleared by the caller, which goes on to
    call [blk->invalidate()]. *)
Definition invalidate (env : Env) (b : nat) (t : TagStore) : outcome TagStore :=
  blk ← getBlk t b;
  assert! isValid blk;
  let t := t <| stats ::= fun st => st <| tagsInUse ::= Z.pred |> |> in
  t ← decSetLine (blk_set blk) (isPcm blk) t;
  assert! srcMasterId blk <? maxMasters env;
  occ ← bump (srcMasterId blk) (-1) (occupancies (stats t));
  let t := t <| stats ::= fun st => st <| occupancies := occ |> |> in
  updBlk b (fun bl => bl <| srcMasterId := invldMasterId |> <| task_id := Unknown |>
                         <| tickInserted := curTick env |>) t.

(** ** Whole-store operations *)

Definition clearLocks (t : TagStore) : TagStore :=
  t <| mem ::= fmap (clearLoadLocks None) |>.

Definition setWarmUp (t : TagStore) : TagStore := t <| warmedUp := true |>.

(** [cleanupRefs]: fold the reference counts of the blocks still valid into
    the totals. *)
Definition cleanupRefs (t : TagStore) : TagStore :=
  foldl (fun t blk =>
    if isValid blk then
      t <| stats ::= fun st => st <| totalRefs ::= Z.add (refCount blk) |>
                                  <| sampledRefs ::= Z.succ |> |>
    else t) t (mem t).

(** The five age classes of [computeStats]; [us] and [ms] are the lengths of a
    microsecond and a millisecond in ticks. *)
Definition age_index (us ms age : Z) : nat :=
  if age / us <? 10 then 0%nat
  else if age / us <? 100 then 1%nat
  else if age / ms <? 1 then 2%nat
  else if age / ms <? 10 then 3%nat
  else 4%nat.

Definition computeStats_blk (env : Env) (us ms : Z)
    (acc : outcome (list Z * list (list Z))) (blk : CacheBlk)
    : outcome (list Z * list (list Z)) :=
  '(occ, ages) ← acc;
  if isValid blk then
    assert! task_id blk <? NumTaskId;
    occ ← bump (task_id blk) 1 occ;
    assert! tickInserted blk <=? curTick env;
    let age := curTick env - tickInserted blk in
    row ← aget ages (Z.to_nat (task_id blk));
    row ← bump (Z.of_nat (age_index us ms age)) 1 row;
    Ok (occ, <[Z.to_nat (task_id blk) := row]> ages)
  else Ok (occ, ages).

Definition computeStats (env : Env) (us ms : Z) (t : TagStore) : outcome TagStore :=
  let occ := replicate (Z.to_nat NumTaskId) 0 in
  let ages := replicate (Z.to_nat NumTaskId) (replicate 5 0) in
  '(occ, ages) ← foldl (computeStats_blk env us ms) (Ok (occ, ages)) (mem t);
  Ok (t <| stats ::= fun st => st <| occupanciesTaskId := occ |> <| ageTaskId := ages |> |>).

(** ** Sizes and masks *)

(** What the constructor promises about the sizes. *)
Record cfg_ok (c : TagConfig) : Prop := {
  ok_ways : (0 < ways c)%nat;
  ok_shift : 2 <= setShift c < 32;
  ok_tagShift : setShift c <= tagShift c < 62;
  ok_numSets : Z.of_nat (numSets c) = 2 ^ (tagShift c - setShift c);
  ok_numSets_int : Z.of_nat (numSets c) <= 2 ^ 30;
  ok_setMask : setMask c = Z.of_nat (numSets c) - 1;
  ok_blkSize : blkSize c = 2 ^ setShift c;
  ok_blkMask : blkMask c = blkSize c - 1;
  ok_hitLatency : 0 < hitLatency c;
  ok_numBlocks : numBlocks c = (numSets c * ways c)%nat
}.

Lemma cfg_numSets_pos c : cfg_ok c -> (0 < numSets c)%nat.
Proof.
  intros []. assert (0 < 2 ^ (tagShift c - setShift c)) by (apply Z.pow_pos_nonneg; lia). lia.
Qed.

Lemma compute_config_ok p c :
  0 <= p_size p < 2 ^ 32 -> 0 <= p_block_size p < 2 ^ 32 -> 0 <= p_assoc p < 2 ^ 32 ->
  p_block_size p * p_assoc p < 2 ^ 32 ->
  compute_config p = Ok c -> cfg_ok c.
Proof.
  intros Hsz Hbs Has Hprod. unfold compute_config.
  rewrite (wrap_small 32 (_ * _)) by nia.
  destruct (Z.eqb_spec (p_block_size p * p_assoc p) 0) as [|Hw0]; [done|].
  set (ns := p_size p / _). assert (Hns : 0 <= ns) by (apply Z.div_pos; nia).
  destruct (Z.ltb_spec (p_block_size p) 4) as [|Hb4]; simpl; [done|].
  destruct (isPowerOf2 32 (p_block_size p)) eqn:Hb2; simpl; [|done].
  destruct (Z.leb_spec ns 0) as [|Hns0]; simpl; [done|].
  assert (Hmul : ns * (p_block_size p * p_assoc p) <= p_size p).
  { rewrite Z.mul_comm. apply Z.mul_div_le. nia. }
  assert (ns <= 2 ^ 30) by nia.
  destruct (isPowerOf2 32 ns) eqn:Hn2; simpl; [|done].
  destruct (Z.leb_spec (p_assoc p) 0) as [|Ha0]; [done|].
  destruct (Z.leb_spec (p_hit_latency p) 0) as [|Hh0]; [done|].
  apply isPowerOf2_log2 in Hb2 as [Hb2 Hbl]; [|lia..].
  apply isPowerOf2_log2 in Hn2 as [Hn2 Hnl]; [|lia..].
  rewrite !floorLog2_log2 by lia. simpl. intros [= <-].
  assert (2 <= Z.log2 (p_block_size p)) by (change 2 with (Z.log2 4); by apply Z.log2_le_mono).
  assert (Z.log2 ns <= 30) by (change 30 with (Z.log2 (2 ^ 30)); by apply Z.log2_le_mono).
  rewrite !(wrap_small 32) by nia.
  constructor; simpl; try lia.
  - rewrite Z2Nat.id, Z.add_simpl_l by lia. done.
Qed.

(** ** Slicing an address *)

Section slicing.
Context (c : TagConfig) (Hc : cfg_ok c).

Lemma setMask_ones : setMask c = Z.ones (tagShift c - setShift c).
Proof. destruct Hc. rewrite Z.ones_equiv. lia. Qed.

Lemma blkMask_ones : blkMask c = Z.ones (setShift c).
Proof. destruct Hc. rewrite Z.ones_equiv. lia. Qed.

Lemma extractSet_mod addr :
  extractSet c addr = Z.land (Z.shiftr addr (setShift c)) (Z.ones (tagShift c - setShift c)).
Proof.
  unfold extractSet. rewrite setMask_ones. destruct Hc. apply swrap_small; [|lia].
  rewrite Z.land_ones by lia. rewrite <- ok_numSets0.
  pose proof (Z.mod_pos_bound (Z.shiftr addr (setShift c)) (Z.of_nat (numSets c))). lia.
Qed.

Lemma extractSet_range addr : 0 <= extractSet c addr < Z.of_nat (numSets c).
Proof.
  rewrite extractSet_mod. destruct Hc. rewrite Z.land_ones by lia.
  rewrite <- ok_numSets0. apply Z.mod_pos_bound. lia.
Qed.

Lemma regenerate_extract addr :
  0 <= addr < 2 ^ 64 ->
  regenerateBlkAddr c (extractTag c addr) (extractSet c addr) = blkAlign c addr.
Proof.
  intros Ha. unfold regenerateBlkAddr, extractTag, blkAlign.
  rewrite extractSet_mod, blkMask_ones. destruct Hc.
  assert (Hland : forall m, Z.land addr (u64 m) = Z.land addr m).
  { intros m. rewrite wrap_land, (Z.land_comm m), Z.land_assoc, Z.land_ones by lia.
    by rewrite Z.mod_small by lia. }
  assert (Hle : forall m, u64 (Z.land addr m) = Z.land addr m).
  { intros m. rewrite wrap_land by lia. rewrite <- Z.land_assoc, (Z.land_comm m), Z.land_assoc.
    rewrite Z.land_ones by lia. by rewrite Z.mod_small by lia. }
  rewrite Hland.
  assert (E1 : Z.shiftl (Z.shiftr addr (tagShift c)) (tagShift c) =
               Z.land addr (Z.lnot (Z.ones (tagShift c)))) by Z.bitblast.
  assert (E2 : Z.shiftl (Z.land (Z.shiftr addr (setShift c)) (Z.ones (tagShift c - setShift c)))
                 (setShift c) =
               Z.land addr (Z.land (Z.ones (tagShift c)) (Z.lnot (Z.ones (setShift c)))))
    by Z.bitblast.
  rewrite E1, E2, !Hle. Z.bitblast.
Qed.

Lemma extract_regenerate tg set :
  0 <= tg < 2 ^ (64 - tagShift c) -> 0 <= set < Z.of_nat (numSets c) ->
  extractTag c (regenerateBlkAddr c tg set) = tg /\
  extractSet c (regenerateBlkAddr c tg set) = set.
Proof.
  intros Ht Hset. unfold regenerateBlkAddr. rewrite extractSet_mod. unfold extractTag.
  destruct Hc. rewrite ok_numSets0 in Hset.
  assert (Hpow : 2 ^ 64 = 2 ^ (64 - tagShift c) * 2 ^ tagShift c)
    by (rewrite <- Z.pow_add_r by lia; f_equal; lia).
  assert (Hpow2 : 2 ^ tagShift c = 2 ^ (tagShift c - setShift c) * 2 ^ setShift c)
    by (rewrite <- Z.pow_add_r by lia; f_equal; lia).
  assert (2 ^ tagShift c < 2 ^ 64) by (apply Z.pow_lt_mono_r; lia).
  assert (0 < 2 ^ tagShift c) by lia. assert (0 < 2 ^ setShift c) by lia.
  rewrite !(wrap_small 64) by (rewrite Z.shiftl_mul_pow2 by lia; nia).
  assert (Hts : Z.land tg (Z.ones (64 - tagShift c)) = tg)
    by (rewrite Z.land_ones by lia; apply Z.mod_small; lia).
  assert (Hss : Z.land set (Z.ones (tagShift c - setShift c)) = set)
    by (rewrite Z.land_ones by lia; apply Z.mod_small; lia).
  split.
  - rewrite <- Hss. Z.bitblast.
  - rewrite <- Hss at 2. Z.bitblast. by rewrite (Z.testbit_neg_r tg) by lia.
Qed.
End slicing.

(** ** What the constructor and the address functions promise *)

(** [BaseSetAssoc]'s constructor on unsigned parameters: when it accepts
    them, the shifts, masks and counts it derives describe a power-of-two
    number of power-of-two blocks; and it accepts only a positive associativity
    and hit latency.  A zero [block_size * assoc] (an associativity of 0 among
    others) faults on the division of the initialiser list, before the
    [assoc <= 0] check that was meant to report it. *)
Theorem compute_config_correct (p : TagStoreParams) :
  0 <= p_size p < 2 ^ 32 -> 0 <= p_block_size p < 2 ^ 32 -> 0 <= p_assoc p < 2 ^ 32 ->
  p_block_size p * p_assoc p < 2 ^ 32 ->
  match compute_config p with
  | Ok c => cfg_ok c /\ blkSize c = p_block_size p /\ Z.of_nat (ways c) = p_assoc p /\
            hitLatency c = p_hit_latency p /\
            Z.of_nat (numSets c) = p_size p / (p_block_size p * p_assoc p)
  | Err DivByZero => p_block_size p = 0 \/ p_assoc p = 0
  | Err e => e = Fatal /\ p_assoc p <> 0 /\
      ~ (exists k j, 2 <= k /\ 0 <= j /\ p_block_size p = 2 ^ k /\
           p_size p / (p_block_size p * p_assoc p) = 2 ^ j /\ 0 < p_hit_latency p)
  end.
Proof.
  intros Hsz Hbs Has Hprod. pose proof (compute_config_ok p) as Hok.
  unfold compute_config in *. rewrite (wrap_small 32 (_ * _)) in * by nia.
  destruct (Z.eqb_spec (p_block_size p * p_assoc p) 0) as [E|Hw0]; [nia|].
  set (ns := p_size p / _) in *. assert (Hns : 0 <= ns) by (apply Z.div_pos; nia).
  assert (Hn32 : ns < 2 ^ 32)
    by (apply Z.le_lt_trans with (p_size p); [apply Z.div_le_upper_bound; nia|lia]).
  assert (Hpow : forall z k, 0 <= k -> z = 2 ^ k -> 0 <= z < 2 ^ 32 -> isPowerOf2 32 z = true).
  { intros z k Hk -> Hz. apply isPowerOf2_spec; [lia..|]. exists k. split; [|done].
    split; [done|]. apply (Z.pow_lt_mono_r_iff 2); lia. }
  destruct ((p_block_size p <? 4) || negb (isPowerOf2 32 (p_block_size p))) eqn:Eb.
  { split; [done|]. split; [nia|]. intros (k & j & Hk & Hj & Ek & _).
    rewrite (Hpow _ k) in Eb by (done || lia). rewrite orb_false_r in Eb. apply Z.ltb_lt in Eb.
    assert (2 ^ 2 <= 2 ^ k) by (apply Z.pow_le_mono_r; lia). lia. }
  destruct ((ns <=? 0) || negb (isPowerOf2 32 ns)) eqn:En.
  { split; [done|]. split; [nia|]. intros (k & j & Hk & Hj & _ & Ej & _).
    rewrite (Hpow _ j) in En by (done || lia). rewrite orb_false_r in En. apply Z.leb_le in En.
    assert (0 < 2 ^ j) by (by apply Z.pow_pos_nonneg). lia. }
  destruct (Z.leb_spec (p_assoc p) 0) as [|Ha0]; [nia|].
  destruct (Z.leb_spec (p_hit_latency p) 0) as [|Hh0].
  { split; [done|]. split; [lia|]. intros (k & j & Hkj). lia. }
  destruct (floorLog2 (p_block_size p)) as [sh|e] eqn:E1.
  2: { rewrite floorLog2_log2 in E1; [done|]. apply orb_false_iff in Eb as [Eb _].
       apply Z.ltb_ge in Eb. lia. }
  destruct (floorLog2 ns) as [sb|e] eqn:E2.
  2: { rewrite floorLog2_log2 in E2; [done|]. apply orb_false_iff in En as [En _].
       apply Z.leb_gt in En. lia. }
  cbn [mbind outcome_bind] in *. split; [by apply Hok|]. simpl. rewrite !Z2Nat.id by lia. done.
Qed.

Lemma compute_config_correct_witness :
  match compute_config (MkParams 65536 64 8 false 2) with
  | Ok c => cfg_ok c /\ blkSize c = 64 /\ Z.of_nat (ways c) = 8 /\ hitLatency c = 2 /\
            Z.of_nat (numSets c) = 65536 / (64 * 8)
  | Err DivByZero => 64 = 0 \/ 8 = 0
  | Err e => e = Fatal /\ 8 <> 0 /\
      ~ (exists k j, 2 <= k /\ 0 <= j /\ 64 = 2 ^ k /\ 65536 / (64 * 8) = 2 ^ j /\ 0 < 2)
  end.
Proof. apply (compute_config_correct (MkParams 65536 64 8 false 2)); simpl; lia. Defined.

(** Slicing an address into tag and set and putting them together again
    are inverse: [regenerateBlkAddr] of an address's tag and set is its block
    address, and the tag and set of a regenerated address are the ones it was
    made of, for every address and every tag and set in range. *)
Theorem address_round_trip (c : TagConfig) (addr tg set : Z) :
  cfg_ok c ->
  (0 <= addr < 2 ^ 64 ->
   regenerateBlkAddr c (extractTag c addr) (extractSet c addr) = blkAlign c addr /\
   0 <= extractSet c addr < Z.of_nat (numSets c)) /\
  (0 <= tg < 2 ^ (64 - tagShift c) -> 0 <= set < Z.of_nat (numSets c) ->
   extractTag c (regenerateBlkAddr c tg set) = tg /\
   extractSet c (regenerateBlkAddr c tg set) = set).
Proof.
  intros Hc. split.
  - intros Ha. split; [by apply regenerate_extract|by apply extractSet_range].
  - by apply extract_regenerate.
Qed.

Lemma address_round_trip_witness :
  let c := MkConfig 64 2 8 128 false 6 13 127 63 1024 1024 in
  (0 <= 123456789 < 2 ^ 64 ->
   regenerateBlkAddr c (extractTag c 123456789) (extractSet c 123456789) = blkAlign c 123456789 /\
   0 <= extractSet c 123456789 < Z.of_nat (numSets c)) /\
  (0 <= 99 < 2 ^ (64 - tagShift c) -> 0 <= 5 < Z.of_nat (numSets c) ->
   extractTag c (regenerateBlkAddr c 99 5) = 99 /\
   extractSet c (regenerateBlkAddr c 99 5) = 5).
Proof.
  intros c. apply (address_round_trip c 123456789 99 5).
  split; vm_compute; split_and?; congruence || lia.
Defined.
