(* ===== verification/Tags.v ===== *)
(** Well-formedness of a tag store, the lines it holds, and what each operation
    of [SetAssoc] does to both: the lemmas every replacement policy shares. *)
From S2P Require Import Prelude IntMath MemTypes Blk CacheSet SetAssoc.

#[local] Open Scope nat_scope.

(** ** Well-formed tag stores *)

(** The recency order of every set. *)
Definition orders (t : TagStore) : list (nat * list nat) :=
  (fun s => (assoc s, blks s)) <$> sets t.

(** Set [i] owns exactly the [i]-th slice of the block array. *)
Definition set_wf (c : TagConfig) (i : nat) (o : nat * list nat) : Prop :=
  o.1 = ways c /\ o.2 ≡ₚ seq (i * ways c) (ways c).

(** The structure no operation may break: sizes, the pointers of each set, and
    the set number of each block of the array. *)
Record tags_wf (t : TagStore) : Prop := {
  t_cfg : cfg_ok (cfg t);
  t_sets : length (orders t) = numSets (cfg t);
  t_mem : length (mem t) = numSets (cfg t) * ways (cfg t);
  t_set : forall i o, orders t !! i = Some o -> set_wf (cfg t) i o;
  t_blk : forall b blk, mem t !! b = Some blk -> blk_set blk = Z.of_nat (b / ways (cfg t))
}.

(** Between transactions, in addition, a valid block has been touched and was
    inserted by a master of the system. *)
Definition owned (env : Env) (blk : CacheBlk) : Prop :=
  isValid blk = true -> isTouched blk = true /\ (0 <= srcMasterId blk < maxMasters env)%Z.

Record tags_ok (env : Env) (t : TagStore) : Prop := {
  ok_wf : tags_wf t;
  t_occ : (Z.of_nat (length (occupancies (stats t))) = maxMasters env)%Z;
  t_owned : forall b blk, mem t !! b = Some blk -> owned env blk
}.

(** ** Primitive accesses *)

Lemma getBlk_ok t b blk : mem t !! b = Some blk -> getBlk t b = Ok blk.
Proof. intros H. unfold getBlk, aget. by rewrite H. Qed.

Lemma updBlk_ok t b f blk :
  mem t !! b = Some blk -> updBlk b f t = Ok (t <| mem := <[b := f blk]> (mem t) |>).
Proof. intros H. unfold updBlk. by rewrite (getBlk_ok _ _ _ H). Qed.

Lemma getSet_ok t i s : sets t !! i = Some s -> getSet t (Z.of_nat i) = Ok s.
Proof.
  intros H. unfold getSet, aget. rewrite Nat2Z.id, H.
  by destruct (Z.ltb_spec (Z.of_nat i) 0); [lia|].
Qed.

Lemma updSet_ok t i f s s' :
  sets t !! i = Some s -> f s = Ok s' ->
  updSet (Z.of_nat i) f t = Ok (t <| sets := <[i := s']> (sets t) |>).
Proof. intros H Hf. unfold updSet. rewrite (getSet_ok _ _ _ H). simpl. by rewrite Hf, Nat2Z.id. Qed.

Lemma bump_ok i d v :
  (0 <= i < Z.of_nat (length v))%Z ->
  exists x, v !! Z.to_nat i = Some x /\ bump i d v = Ok (<[Z.to_nat i := (x + d)%Z]> v).
Proof.
  intros Hi. unfold bump, aget. destruct (Z.ltb_spec i 0); [lia|].
  destruct (lookup_lt_is_Some_2 v (Z.to_nat i)) as [x Hx]; [lia|].
  exists x. by rewrite Hx.
Qed.

Lemma orders_sets t i o :
  orders t !! i = Some o <-> exists s, sets t !! i = Some s /\ o = (assoc s, blks s).
Proof. unfold orders. rewrite list_lookup_fmap, fmap_Some. done. Qed.

(** A set update that keeps the pointers keeps the orders. *)
Lemma orders_insert_same t i s s' :
  sets t !! i = Some s -> assoc s' = assoc s -> blks s' = blks s ->
  orders (t <| sets := <[i := s']> (sets t) |>) = orders t.
Proof.
  intros Hs Ha Hb. unfold orders. simpl. rewrite list_fmap_insert. rewrite Ha, Hb.
  apply list_insert_id. by rewrite list_lookup_fmap, Hs.
Qed.

Lemma tags_set t i :
  tags_wf t -> i < numSets (cfg t) ->
  exists s, sets t !! i = Some s /\ set_ok s /\ assoc s = ways (cfg t) /\
    blks s ≡ₚ seq (i * ways (cfg t)) (ways (cfg t)).
Proof.
  intros Hok Hi. destruct (lookup_lt_is_Some_2 (orders t) i) as [o Ho].
  { by rewrite (t_sets _ Hok). }
  pose proof (t_set _ Hok i o Ho) as [Ha Hb].
  apply orders_sets in Ho as (s & Hs & ->). simpl in *. exists s.
  split_and!; [done| |done|done]. pose proof (ok_ways _ (t_cfg _ Hok)).
  split_and!; [|rewrite Hb; apply NoDup_seq|by rewrite Ha].
  by rewrite Hb, length_seq.
Qed.

(** The pointers of set [i] are the blocks whose set number is [i]. *)
Lemma in_set_iff t i s b :
  tags_wf t -> sets t !! i = Some s ->
  b ∈ blks s <-> exists blk, mem t !! b = Some blk /\ blk_set blk = Z.of_nat i.
Proof.
  intros Hok Hs. pose proof (ok_ways _ (t_cfg _ Hok)) as Hw.
  assert (Hi : i < numSets (cfg t)).
  { rewrite <- (t_sets _ Hok). unfold orders. rewrite length_fmap. by eapply lookup_lt_Some. }
  destruct (tags_set t i Hok Hi) as (s' & Hs' & _ & _ & Hp).
  rewrite Hs in Hs'. injection Hs' as <-. rewrite Hp, elem_of_seq. split.
  - intros Hb. destruct (lookup_lt_is_Some_2 (mem t) b) as [blk Hblk].
    { rewrite (t_mem _ Hok). nia. }
    exists blk. split; [done|]. rewrite (t_blk _ Hok b blk Hblk). f_equal.
    symmetry. apply Nat.div_unique with (b - i * ways (cfg t)); lia.
  - intros (blk & Hblk & Hset). pose proof (t_blk _ Hok b blk Hblk) as Hset'.
    rewrite Hset in Hset'. apply Nat2Z.inj in Hset'.
    pose proof (Nat.div_mod_eq b (ways (cfg t))).
    pose proof (Nat.mod_upper_bound b (ways (cfg t))). nia.
Qed.

Lemma blk_set_lt t b blk :
  tags_wf t -> mem t !! b = Some blk ->
  exists i, blk_set blk = Z.of_nat i /\ i < numSets (cfg t).
Proof.
  intros Hok Hb. rewrite (t_blk _ Hok b blk Hb). eexists; split; [done|].
  pose proof (ok_ways _ (t_cfg _ Hok)). apply lookup_lt_Some in Hb.
  rewrite (t_mem _ Hok) in Hb. apply Nat.Div0.div_lt_upper_bound; lia.
Qed.

Lemma extractSet_nat t addr :
  tags_wf t -> exists i, extractSet (cfg t) addr = Z.of_nat i /\ i < numSets (cfg t).
Proof.
  intros Hok. pose proof (extractSet_range _ (t_cfg _ Hok) addr).
  exists (Z.to_nat (extractSet (cfg t) addr)). lia.
Qed.

(** ** The lines a tag store holds *)

(** A line: set, tag, and whether it belongs to the secure space. *)
Definition line_of (blk : CacheBlk) : option (Z * Z * bool) :=
  if isValid blk then Some (blk_set blk, tag blk, isSecure blk) else None.

Definition contents (t : TagStore) : gset (Z * Z * bool) :=
  list_to_set (omap line_of (mem t)).

Definition line_at (c : TagConfig) (addr : Z) (is_secure : bool) : Z * Z * bool :=
  (extractSet c addr, extractTag c addr, is_secure).

(** No line is held by two blocks. *)
Definition unique_lines (t : TagStore) : Prop :=
  forall b b' blk blk' l, mem t !! b = Some blk -> mem t !! b' = Some blk' ->
    line_of blk = Some l -> line_of blk' = Some l -> b = b'.

Lemma elem_of_contents t l :
  l ∈ contents t <-> exists b blk, mem t !! b = Some blk /\ line_of blk = Some l.
Proof.
  unfold contents. rewrite elem_of_list_to_set, list_elem_of_omap. split.
  - intros (blk & [b Hb]%list_elem_of_lookup & Hl). eauto.
  - intros (b & blk & Hb & Hl). exists blk. split; [by eapply list_elem_of_lookup_2|done].
Qed.

(** The line of a block, as a set of at most one line. *)
Definition lines (blk : CacheBlk) : gset (Z * Z * bool) :=
  match line_of blk with Some l => {[l]} | None => ∅ end.

Lemma elem_of_lines blk l : l ∈ lines blk <-> line_of blk = Some l.
Proof. unfold lines. destruct (line_of blk); set_solver. Qed.

(** Replacing one block replaces its line, and keeps lines unique if the new
    line was not held elsewhere. *)
Lemma contents_update t t' b blk blk' :
  unique_lines t -> mem t !! b = Some blk -> mem t' = <[b := blk']> (mem t) ->
  contents t' = (contents t ∖ lines blk) ∪ lines blk'.
Proof.
  intros Hu Hb Hm. pose proof (lookup_lt_Some _ _ _ Hb) as Hlt. apply set_eq. intros l.
  rewrite elem_of_union, elem_of_difference, !elem_of_contents, !elem_of_lines. rewrite Hm.
  split.
  - intros (d & blkd & Hd & Hl). destruct (decide (d = b)) as [->|Hne].
    + rewrite list_lookup_insert_eq in Hd by done. injection Hd as <-. by right.
    + rewrite list_lookup_insert_ne in Hd by done. left. split; [eauto|].
      intros Hl'. by destruct Hne; eapply Hu.
  - intros [[(d & blkd & Hd & Hl) Hn]|Hl].
    + exists d, blkd. rewrite list_lookup_insert_ne; [done|]. intros ->. congruence.
    + exists b, blk'. by rewrite list_lookup_insert_eq.
Qed.

Lemma unique_update t t' b blk blk' :
  unique_lines t -> mem t !! b = Some blk -> mem t' = <[b := blk']> (mem t) ->
  (forall l, l ∈ lines blk' -> l ∉ contents t \/ l ∈ lines blk) -> unique_lines t'.
Proof.
  intros Hu Hb Hm Hnew. pose proof (lookup_lt_Some _ _ _ Hb) as Hlt.
  assert (Hother : forall d blkd l, d <> b -> mem t !! d = Some blkd ->
            line_of blkd = Some l -> line_of blk' = Some l -> False).
  { intros d blkd l Hne Hd Hl Hl'. destruct (Hnew l) as [Hn|Hn].
    - by apply elem_of_lines.
    - apply Hn, elem_of_contents. eauto.
    - apply elem_of_lines in Hn. apply Hne. by eapply Hu. }
  intros d d' blkd blkd' l. rewrite !Hm.
  destruct (decide (d = b)) as [->|Hd], (decide (d' = b)) as [->|Hd']; [done|..];
    rewrite ?list_lookup_insert_eq, ?list_lookup_insert_ne by done.
  - intros [= <-] Hd1 Hl Hl'. exfalso. by eapply (Hother d').
  - intros Hd1 [= <-] Hl Hl'. exfalso. by eapply (Hother d).
  - by apply Hu.
Qed.

(** ** Lookup *)

Definition matches (tg : Z) (is_secure : bool) (blk : CacheBlk) : bool :=
  (tag blk =? tg)%Z && isValid blk && eqb (isSecure blk) is_secure.

Lemma matches_line tg sec blk :
  matches tg sec blk = true <-> line_of blk = Some (blk_set blk, tg, sec).
Proof.
  unfold matches, line_of. rewrite !andb_true_iff, Z.eqb_eq, eqb_true_iff.
  destruct (isValid blk); [|naive_solver].
  split; [intros [[<- _] <-]; done|]. by intros [= -> ->].
Qed.

Lemma findBlk_from_spec m tg sec i bs :
  (forall b, b ∈ bs -> is_Some (m !! b)) ->
  match findBlk_from m tg sec i bs with
  | Ok (Some (w, b)) =>
      i <= w /\ bs !! (w - i) = Some b /\
      (exists blk, m !! b = Some blk /\ matches tg sec blk = true)
  | Ok None => forall b blk, b ∈ bs -> m !! b = Some blk -> matches tg sec blk = false
  | Err _ => False
  end.
Proof.
  revert i. induction bs as [|b bs IH]; intros i Hin; simpl; [set_solver|].
  destruct (Hin b ltac:(set_solver)) as [blk Hblk]. unfold aget. rewrite Hblk. simpl.
  fold (matches tg sec blk). destruct (matches tg sec blk) eqn:Hm.
  - split; [lia|]. rewrite Nat.sub_diag. split; [done|]. eauto.
  - specialize (IH (S i) ltac:(set_solver)). destruct (findBlk_from _ _ _ _ _) as [[[w d]|]|]; [|set_solver|done].
    destruct IH as (Hle & Hd & Hex). split; [lia|]. split; [|done].
    by replace (w - i) with (S (w - S i)) by lia.
Qed.

Lemma findBlk_spec t i s tg sec :
  tags_wf t -> sets t !! i = Some s ->
  match findBlk (mem t) s tg sec with
  | Ok (Some b) => b ∈ blks s /\ exists blk, mem t !! b = Some blk /\
                     line_of blk = Some (Z.of_nat i, tg, sec)
  | Ok None => (Z.of_nat i, tg, sec) ∉ contents t
  | Err _ => False
  end.
Proof.
  intros Hok Hs.
  assert (Hi : i < numSets (cfg t)).
  { rewrite <- (t_sets _ Hok). unfold orders. rewrite length_fmap. by eapply lookup_lt_Some. }
  destruct (tags_set t i Hok Hi) as (s' & Hs' & (Hlen & _ & _) & Ha & _).
  rewrite Hs in Hs'. injection Hs' as <-.
  unfold findBlk, findBlk_way. rewrite take_ge by lia.
  pose proof (findBlk_from_spec (mem t) tg sec 0 (blks s)) as H.
  destruct (findBlk_from _ _ _ _ _) as [[[w b]|]|] eqn:E; simpl.
  - destruct H as (_ & Hb & blk & Hblk & Hm).
    { intros b'. rewrite (in_set_iff _ _ _ _ Hok Hs). naive_solver. }
    apply list_elem_of_lookup_2 in Hb. split; [done|]. exists blk. split; [done|].
    apply (in_set_iff _ _ _ _ Hok Hs) in Hb as (blk' & Hblk' & <-).
    rewrite Hblk in Hblk'. injection Hblk' as <-. by apply matches_line.
  - rewrite decide_False by lia. simpl. rewrite elem_of_contents. intros (b & blk & Hblk & Hl).
    assert (Hset : blk_set blk = Z.of_nat i) by (unfold line_of in Hl; case_match; naive_solver).
    assert (matches tg sec blk = false) as Hf.
    { eapply H; [|apply (in_set_iff _ _ _ _ Hok Hs); eauto|done].
      intros b'. rewrite (in_set_iff _ _ _ _ Hok Hs). naive_solver. }
    rewrite <- Hset, <- matches_line in Hl. congruence.
  - apply H. intros b'. rewrite (in_set_iff _ _ _ _ Hok Hs). naive_solver.
Qed.

(** A lookup by address: no fault, and a hit exactly on the lines held. *)
Lemma findBlock_spec t addr sec :
  tags_wf t ->
  (exists b blk, findBlock t addr sec = Ok (Some b) /\ mem t !! b = Some blk /\
     line_of blk = Some (line_at (cfg t) addr sec)) \/
  (findBlock t addr sec = Ok None /\ line_at (cfg t) addr sec ∉ contents t).
Proof.
  intros Hok. unfold findBlock, line_at.
  destruct (extractSet_nat _ addr Hok) as (i & -> & Hi).
  destruct (tags_set _ i Hok Hi) as (s & Hs & _). rewrite (getSet_ok _ _ _ Hs). simpl.
  pose proof (findBlk_spec _ _ _ (extractTag (cfg t) addr) sec Hok Hs) as H.
  destruct (findBlk _ _ _ _) as [[b|]|]; [|by right|done].
  left. destruct H as (_ & blk & ? & ?). eauto.
Qed.

(** ** Stores that differ only in recency *)

(** Same sets up to the order of their pointers, same blocks up to [rrpv]: the
    only part of the state a replacement policy decides. *)
Definition set_eqv (s s' : CacheSet) : Prop :=
  s <| blks := [] |> = s' <| blks := [] |> /\ blks s ≡ₚ blks s'.
Definition blk_eqv (b b' : CacheBlk) : Prop := b <| rrpv := 0%Z |> = b' <| rrpv := 0%Z |>.

Record reorder (t t' : TagStore) : Prop := {
  r_cfg : cfg t = cfg t';
  r_warm : warmedUp t = warmedUp t';
  r_stats : stats t = stats t';
  r_sets : Forall2 set_eqv (sets t) (sets t');
  r_mem : Forall2 blk_eqv (mem t) (mem t')
}.

#[export] Instance set_eqv_equiv : Equivalence set_eqv.
Proof.
  split.
  - done.
  - intros s s' [E P]. split; [congruence|by symmetry].
  - intros s s' s'' [E P] [E' P']. split; [congruence|by etrans].
Qed.

#[export] Instance blk_eqv_equiv : Equivalence blk_eqv.
Proof. split; unfold blk_eqv; congruence. Qed.

(** A function of a block that ignores [rrpv] does not tell equivalent blocks
    apart. *)
Lemma blk_eqv_use {A} (f : CacheBlk -> A) b b' :
  (forall b, f (b <| rrpv := 0%Z |>) = f b) -> blk_eqv b b' -> f b' = f b.
Proof. intros Hf He. by rewrite <- (Hf b), <- (Hf b'), He. Qed.

#[export] Instance reorder_equiv : Equivalence reorder.
Proof.
  split.
  - intros t. split; try done; reflexivity.
  - intros t t' []. split; try done; by symmetry.
  - intros t t' t'' [] []. split; try congruence; by etrans.
Qed.

Lemma blk_eqv_line b b' : blk_eqv b b' -> line_of b' = line_of b.
Proof. by apply blk_eqv_use. Qed.

Lemma reorder_mem t t' b blk :
  reorder t t' -> mem t !! b = Some blk -> exists blk', mem t' !! b = Some blk' /\ blk_eqv blk blk'.
Proof. intros [] Hb. by eapply Forall2_lookup_l. Qed.

#[export] Instance contents_proper : Proper (reorder ==> eq) contents.
Proof.
  intros t t' Hr. apply set_eq. intros l. rewrite !elem_of_contents. split.
  - intros (b & blk & Hb & Hl). destruct (reorder_mem _ _ _ _ Hr Hb) as (blk' & Hb' & He).
    exists b, blk'. split; [done|]. by rewrite (blk_eqv_line _ _ He).
  - symmetry in Hr. intros (b & blk & Hb & Hl).
    destruct (reorder_mem _ _ _ _ Hr Hb) as (blk' & Hb' & He).
    exists b, blk'. split; [done|]. by rewrite (blk_eqv_line _ _ He).
Qed.

Lemma unique_lines_reorder t t' : reorder t t' -> unique_lines t -> unique_lines t'.
Proof.
  intros Hr%symmetry Hu b b' blk blk' l Hb Hb' Hl Hl'.
  destruct (reorder_mem _ _ _ _ Hr Hb) as (blk1 & Hb1 & He).
  destruct (reorder_mem _ _ _ _ Hr Hb') as (blk1' & Hb1' & He').
  apply (Hu b b' blk1 blk1' l); [done|done|by rewrite (blk_eqv_line _ _ He)|].
  by rewrite (blk_eqv_line _ _ He').
Qed.

#[export] Instance unique_lines_proper : Proper (reorder ==> iff) unique_lines.
Proof. intros t t' Hr. split; by apply unique_lines_reorder. Qed.

Lemma orders_reorder t t' i o' :
  reorder t t' -> orders t' !! i = Some o' ->
  exists o, orders t !! i = Some o /\ o.1 = o'.1 /\ o.2 ≡ₚ o'.2.
Proof.
  intros Hr (s' & Hs' & ->)%orders_sets.
  destruct (Forall2_lookup_r _ _ _ _ _ (r_sets _ _ Hr) Hs') as (s & Hs & Hse & Hp).
  exists (assoc s, blks s). split; [apply orders_sets; eauto|]. split; [|done].
  by apply (f_equal assoc) in Hse.
Qed.

Lemma tags_wf_reorder t t' : reorder t t' -> tags_wf t -> tags_wf t'.
Proof.
  intros Hr [Hc Hs Hm Hset Hblk]. pose proof Hr as [Ec _ Es Hfs Hfm].
  split; rewrite <- ?Ec; try done.
  - rewrite <- Hs. unfold orders. rewrite !length_fmap. symmetry. by eapply Forall2_length.
  - rewrite <- Hm. symmetry. by eapply Forall2_length.
  - intros i o' (o & Ho1 & E1 & E2)%(orders_reorder t); [|done].
    destruct (Hset i o Ho1) as [? ?]. split; [congruence|]. by rewrite <- E2.
  - intros b blk' Hb. symmetry in Hr. destruct (reorder_mem _ _ _ _ Hr Hb) as (blk & Hb1 & He).
    rewrite <- (blk_eqv_use blk_set _ _ (fun _ => eq_refl) He). eauto.
Qed.

#[export] Instance tags_wf_proper : Proper (reorder ==> iff) tags_wf.
Proof. intros t t' Hr. split; by apply tags_wf_reorder. Qed.

Lemma tags_ok_reorder env t t' : reorder t t' -> tags_ok env t -> tags_ok env t'.
Proof.
  intros Hr [Hwf Ho Hown]. split.
  - by rewrite <- Hr.
  - by rewrite <- (r_stats _ _ Hr).
  - intros b blk' Hb. symmetry in Hr. destruct (reorder_mem _ _ _ _ Hr Hb) as (blk & Hb1 & He).
    rewrite <- (blk_eqv_use (owned env) _ _ (fun _ => eq_refl) He). eauto.
Qed.

#[export] Instance tags_ok_proper env : Proper (reorder ==> iff) (tags_ok env).
Proof. intros t t' Hr. split; by apply tags_ok_reorder. Qed.

(** ** Reordering one set *)

(** An operation that succeeds wherever [b] stands in its set, and one that
    succeeds when [b] is in the last of [w] ways. *)
Definition moves_any (b : nat) (f : CacheSet -> outcome CacheSet) : Prop :=
  forall s k, set_ok s -> index_of b (blks s) = Some k ->
    exists j, f s = Ok (s <| blks := place j b (blks s) |>).
Definition moves_last (w b : nat) (f : CacheSet -> outcome CacheSet) : Prop :=
  forall s, set_ok s -> assoc s = w -> index_of b (blks s) = Some (w - 1) ->
    exists j, f s = Ok (s <| blks := place j b (blks s) |>).

Lemma moves_any_last w b f : moves_any b f -> moves_last w b f.
Proof. intros H s Hs _ Hb. by eapply H. Qed.

Lemma moveToHead_any b : moves_any b (moveToHead b).
Proof. intros s k Hs Hk. eexists. by eapply moveToHead_place. Qed.
Lemma moveToTail_any b : moves_any b (moveToTail b).
Proof. intros s k Hs Hk. eexists. by eapply moveToTail_place. Qed.
Lemma moveOneStep_any b : moves_any b (moveOneStep b).
Proof. intros s k Hs Hk. eexists. by eapply moveOneStep_place. Qed.
Lemma moveNStep_any b n : (0 <= n)%Z -> moves_any b (moveNStep b n).
Proof. intros Hn s k Hs Hk. eexists. by eapply moveNStep_place. Qed.
Lemma insertFixLocation_last w b loc :
  (u8 loc < Z.of_nat w)%Z -> moves_last w b (insertFixLocation b loc).
Proof.
  intros Hl s Hs <- Hk. eexists. eapply insertFixLocation_place; [done|done|].
  pose proof (wrap_range 8 loc). destruct Hs. lia.
Qed.

Create HintDb moves.
#[export] Hint Resolve moveToHead_any moveToTail_any moveOneStep_any moveNStep_any
  insertFixLocation_last moves_any_last : moves.

(** [b] is in the last way of its set. *)
Definition last_way (t : TagStore) (b : nat) : Prop :=
  exists i s, sets t !! i = Some s /\ blks s !! (ways (cfg t) - 1) = Some b.

Lemma reorder_set t i s f b :
  tags_wf t -> sets t !! i = Some s -> b ∈ blks s ->
  (exists j, f s = Ok (s <| blks := place j b (blks s) |>)) ->
  exists t', updSet (Z.of_nat i) f t = Ok t' /\ reorder t t'.
Proof.
  intros Hok Hs Hb (j & Hf). rewrite (updSet_ok _ _ _ _ _ Hs Hf). eexists; split; [done|].
  assert (Hi : i < numSets (cfg t)).
  { rewrite <- (t_sets _ Hok). unfold orders. rewrite length_fmap. by eapply lookup_lt_Some. }
  destruct (tags_set t i Hok Hi) as (s' & Hs' & (_ & Hnd & _) & _).
  rewrite Hs in Hs'. injection Hs' as <-.
  split; simpl; try done. rewrite <- (list_insert_id (sets t) i s Hs) at 1.
  apply Forall2_insert; [reflexivity|]. split; [done|]. simpl. symmetry. by apply place_perm.
Qed.

Lemma reorder_any t b blk f :
  tags_wf t -> mem t !! b = Some blk -> moves_any b f ->
  exists t', updSet (blk_set blk) f t = Ok t' /\ reorder t t'.
Proof.
  intros Hok Hb Hf. destruct (blk_set_lt _ _ _ Hok Hb) as (i & Hset & Hi). rewrite Hset.
  destruct (tags_set t i Hok Hi) as (s & Hs & Hsok & _).
  assert (Hin : b ∈ blks s) by (apply (in_set_iff _ _ _ _ Hok Hs); eauto).
  eapply reorder_set; [done|done|done|].
  destruct (index_of_elem _ _ Hin) as [k Hk]. by eapply Hf.
Qed.

Lemma reorder_last t b blk f :
  tags_wf t -> mem t !! b = Some blk -> last_way t b ->
  moves_last (ways (cfg t)) b f ->
  exists t', updSet (blk_set blk) f t = Ok t' /\ reorder t t'.
Proof.
  intros Hok Hb (i & s & Hs & Hlast) Hf.
  assert (Hi : i < numSets (cfg t)).
  { rewrite <- (t_sets _ Hok). unfold orders. rewrite length_fmap. by eapply lookup_lt_Some. }
  destruct (tags_set t i Hok Hi) as (s' & Hs' & Hsok & Ha & _).
  rewrite Hs in Hs'. injection Hs' as <-.
  pose proof (list_elem_of_lookup_2 _ _ _ Hlast) as Hin.
  pose proof Hin as (blk' & Hb' & Hset)%(in_set_iff _ _ _ _ Hok Hs).
  rewrite Hb in Hb'. injection Hb' as <-. rewrite Hset.
  eapply reorder_set; [done|done|done|]. apply Hf; [done|done|].
  apply lookup_index_of; [apply Hsok|done].
Qed.

(** ** The operations on explicit states *)

Lemma updBlk_mk c w ss m st b f blk :
  m !! b = Some blk ->
  updBlk b f (MkTags c w ss m st) = Ok (MkTags c w ss (<[b := f blk]> m) st).
Proof. apply (updBlk_ok (MkTags c w ss m st)). Qed.

Lemma getBlk_mk c w ss m st b blk :
  m !! b = Some blk -> getBlk (MkTags c w ss m st) b = Ok blk.
Proof. apply (getBlk_ok (MkTags c w ss m st)). Qed.

Lemma updSet_mk c w ss m st i f s s' :
  ss !! i = Some s -> f s = Ok s' ->
  updSet (Z.of_nat i) f (MkTags c w ss m st) = Ok (MkTags c w (<[i := s']> ss) m st).
Proof. apply (updSet_ok (MkTags c w ss m st)). Qed.

(** The line counters of a set with one line more or less. *)
Definition line_in (ispcm : bool) (s : CacheSet) : CacheSet :=
  if ispcm then s <| pcm ::= fun n => u8 (n + 1) |> else s <| dram ::= fun n => u8 (n + 1) |>.
Definition line_out (ispcm : bool) (s : CacheSet) : CacheSet :=
  if ispcm then s <| pcm ::= fun n => u8 (n - 1) |> else s <| dram ::= fun n => u8 (n - 1) |>.

Lemma incSetLine_mk c w ss m st i p s :
  ss !! i = Some s ->
  incSetLine (Z.of_nat i) p (MkTags c w ss m st) =
    Ok (MkTags c w (<[i := line_in p s]> ss) m st).
Proof. intros H. unfold incSetLine. by erewrite updSet_mk by (done || reflexivity). Qed.

Lemma decSetLine_mk c w ss m st i p s :
  ss !! i = Some s ->
  decSetLine (Z.of_nat i) p (MkTags c w ss m st) =
    Ok (MkTags c w (<[i := line_out p s]> ss) m st).
Proof. intros H. unfold decSetLine. by erewrite updSet_mk by (done || reflexivity). Qed.

(** The stages of [insertBlock] and [invalidate] on the block itself. *)
Definition retired (blk : CacheBlk) : CacheBlk :=
  if isValid blk then blk_invalidate (blk <| refCount := 0%Z |>) else blk.

Definition is_pcm (env : Env) (addr : Z) : bool :=
  if (watershed env <=? addr)%Z then false else true.

Definition claimed (env : Env) (pkt : Packet) (c : TagConfig) (blk : CacheBlk) : CacheBlk :=
  blk <| isPcm := is_pcm env (pkt_addr pkt) |> <| isTouched := true |>
      <| tag := extractTag c (pkt_addr pkt) |> <| srcMasterId := masterId (req pkt) |>
      <| task_id := taskId (req pkt) |> <| tickInserted := curTick env |>.

Definition inserted (env : Env) (pkt : Packet) (c : TagConfig) (blk : CacheBlk) : CacheBlk :=
  claimed env pkt c (retired blk).

Definition invalidated (env : Env) (blk : CacheBlk) : CacheBlk :=
  blk <| srcMasterId := invldMasterId |> <| task_id := Unknown |>
      <| tickInserted := curTick env |>.

(** The occupancy vector with [d] added at entry [i]. *)
Definition occ_add (i d : Z) (v : list Z) : list Z := alter (Z.add d) (Z.to_nat i) v.

Lemma length_occ_add i d v : length (occ_add i d v) = length v.
Proof. apply length_alter. Qed.

Lemma bump_occ i d v :
  (0 <= i < Z.of_nat (length v))%Z -> bump i d v = Ok (occ_add i d v).
Proof.
  intros Hi. destruct (bump_ok i d v Hi) as (x & Hx & ->). unfold occ_add.
  f_equal. apply list_eq. intros j. destruct (decide (j = Z.to_nat i)) as [->|Hne].
  - rewrite list_lookup_insert_eq by (by eapply lookup_lt_Some).
    rewrite list_lookup_alter_eq, Hx. simpl. f_equal. lia.
  - by rewrite list_lookup_insert_ne, list_lookup_alter_ne.
Qed.

Definition retire_stats (blk : CacheBlk) (st : Stats) : Stats :=
  if isValid blk then
    st <| replacements ::= Z.succ |> <| totalRefs ::= Z.add (refCount blk) |>
       <| sampledRefs ::= Z.succ |> <| occupancies ::= occ_add (srcMasterId blk) (-1) |>
  else st.
Definition touch_stats (blk : CacheBlk) (st : Stats) : Stats :=
  if isTouched blk then st else st <| tagsInUse ::= Z.succ |>.
Definition claim_stats (pkt : Packet) (st : Stats) : Stats :=
  st <| occupancies ::= occ_add (masterId (req pkt)) 1 |>
     <| tagAccesses ::= Z.succ |> <| dataAccesses ::= Z.succ |>.

(** What the operations on a block [b] of set [i] do, spelled out. *)
Section ops.
Context (env : Env) (c : TagConfig) (w : bool) (ss : list CacheSet) (m : list CacheBlk)
  (st : Stats).
Context (b : nat) (blk : CacheBlk) (Hb : m !! b = Some blk).
Context (i : nat) (s : CacheSet) (Hset : blk_set blk = Z.of_nat i) (Hs : ss !! i = Some s).
Context (Hocc : Z.of_nat (length (occupancies st)) = maxMasters env).

Local Lemma b_lt : b < length m.
Proof. by eapply lookup_lt_Some. Qed.

Local Ltac mem_step :=
  first [ erewrite updBlk_mk by (first [exact Hb | apply list_lookup_insert_eq;
            rewrite ?length_insert; exact b_lt])
        | erewrite getBlk_mk by (first [exact Hb | apply list_lookup_insert_eq;
            rewrite ?length_insert; exact b_lt]) ];
  rewrite ?list_insert_insert_eq; cbn [mbind outcome_bind].

Lemma touch_spec :
  touch b (MkTags c w ss m st) =
    Ok (MkTags c w ss (<[b := blk <| isTouched := true |>]> m) (touch_stats blk st)).
Proof.
  unfold touch, touch_stats. mem_step. destruct (isTouched blk) eqn:Ht.
  - repeat f_equal. symmetry. apply list_insert_id. rewrite Hb. f_equal.
    destruct blk; simpl in *. by subst.
  - simpl. by mem_step.
Qed.

Lemma retire_spec :
  (isValid blk = true -> (0 <= srcMasterId blk < maxMasters env)%Z) ->
  retire env b (MkTags c w ss m st) = Ok
    (MkTags c w (if isValid blk then <[i := line_out (isPcm blk) s]> ss else ss)
      (<[b := retired blk]> m) (retire_stats blk st)).
Proof.
  intros Hsrc. unfold retire, retired, retire_stats. mem_step.
  destruct (isValid blk) eqn:Hv.
  - specialize (Hsrc eq_refl). simpl. mem_step.
    rewrite (proj2 (Z.ltb_lt _ _)) by lia. rewrite bump_occ by (simpl; lia). simpl. rewrite Hset.
    erewrite decSetLine_mk by exact Hs. cbn [mbind outcome_bind]. by mem_step.
  - by rewrite list_insert_id.
Qed.

Lemma claim_spec pkt :
  (0 <= masterId (req pkt) < maxMasters env)%Z ->
  claim env pkt b (MkTags c w ss m st) = Ok
    (MkTags c w (<[i := line_in (is_pcm env (pkt_addr pkt)) s]> ss)
      (<[b := claimed env pkt c blk]> m) (claim_stats pkt st)).
Proof.
  intros Hm. unfold claim. fold (is_pcm env (pkt_addr pkt)). do 2 mem_step.
  cbn [blk_set isPcm set_field]. rewrite Hset. erewrite incSetLine_mk by exact Hs.
  cbn [mbind outcome_bind]. mem_step.
  rewrite (proj2 (Z.ltb_lt _ _)) by lia. rewrite bump_occ by (simpl; lia). simpl.
  mem_step. by rewrite <- Hset.
Qed.

Lemma invalidate_spec :
  isValid blk = true -> (0 <= srcMasterId blk < maxMasters env)%Z ->
  invalidate env b (MkTags c w ss m st) = Ok
    (MkTags c w (<[i := line_out (isPcm blk) s]> ss) (<[b := invalidated env blk]> m)
       (st <| tagsInUse ::= Z.pred |> <| occupancies ::= occ_add (srcMasterId blk) (-1) |>)).
Proof.
  intros Hv Hr. unfold invalidate. mem_step.
  rewrite Hv, Hset. simpl. erewrite decSetLine_mk by exact Hs. simpl.
  rewrite (proj2 (Z.ltb_lt _ _)) by lia. rewrite bump_occ by (simpl; lia). simpl. by mem_step.
Qed.
End ops.

Definition insert_stats (pkt : Packet) (blk : CacheBlk) (st : Stats) : Stats :=
  claim_stats pkt (retire_stats blk (touch_stats blk st)).

Lemma insertBlock_spec env c w ss m st b blk i s pkt :
  m !! b = Some blk -> blk_set blk = Z.of_nat i -> ss !! i = Some s ->
  Z.of_nat (length (occupancies st)) = maxMasters env ->
  (isValid blk = true -> (0 <= srcMasterId blk < maxMasters env)%Z) ->
  (0 <= masterId (req pkt) < maxMasters env)%Z ->
  insertBlock env pkt b (MkTags c w ss m st) = Ok
    (MkTags c w
       (<[i := line_in (is_pcm env (pkt_addr pkt))
                 (if isValid blk then line_out (isPcm blk) s else s)]> ss)
       (<[b := inserted env pkt c blk]> m) (insert_stats pkt blk st)).
Proof.
  intros Hb Hset Hs Hocc Hsrc Hm. pose proof (lookup_lt_Some _ _ _ Hb) as Hblt.
  pose proof (lookup_lt_Some _ _ _ Hs) as Hilt. unfold insertBlock.
  erewrite touch_spec by eassumption. cbn [mbind outcome_bind].
  assert (Ht : occupancies (touch_stats blk st) = occupancies st)
    by (unfold touch_stats; by destruct (isTouched blk)).
  erewrite (retire_spec env c w ss); [|by apply list_lookup_insert_eq|exact Hset|exact Hs
                                      |by rewrite Ht|exact Hsrc].
  cbn [mbind outcome_bind]. rewrite list_insert_insert_eq.
  change (isValid (blk <| isTouched := true |>)) with (isValid blk).
  erewrite (claim_spec env c w _ _ _ b _ ltac:(by apply list_lookup_insert_eq) i
    (if isValid blk then line_out (isPcm blk) s else s)); [| | |..].
  - rewrite list_insert_insert_eq. unfold insert_stats. f_equal. f_equal.
    + destruct (isValid blk); [by rewrite list_insert_insert_eq|done].
    + unfold inserted, retired. change (isValid (blk <| isTouched := true |>)) with (isValid blk).
      by destruct (isValid blk).
  - unfold retired. change (isValid (blk <| isTouched := true |>)) with (isValid blk).
    by destruct (isValid blk).
  - destruct (isValid blk); [by apply list_lookup_insert_eq|done].
  - unfold retire_stats. change (isValid (blk <| isTouched := true |>)) with (isValid blk).
    destruct (isValid blk); simpl; rewrite ?length_occ_add, ?Ht; done.
  - done.
Qed.

(** ** What the operations preserve *)

(** Rewriting one block, set number kept. *)
Lemma tags_wf_blk t t' b blk blk' :
  tags_wf t -> mem t !! b = Some blk -> mem t' = <[b := blk']> (mem t) ->
  cfg t' = cfg t -> orders t' = orders t -> blk_set blk' = blk_set blk -> tags_wf t'.
Proof.
  intros [Hc Hs Hm Hset Hblk] Hb Em Ec Eo Eset. split; rewrite ?Ec, ?Eo, ?Em; try done.
  - by rewrite length_insert.
  - intros d blkd Hd. destruct (decide (d = b)) as [->|].
    + rewrite list_lookup_insert_eq in Hd by (by eapply lookup_lt_Some).
      injection Hd as <-. rewrite Eset. eauto.
    + rewrite list_lookup_insert_ne in Hd by done. eauto.
Qed.

Lemma tags_ok_blk env t t' b blk blk' :
  tags_ok env t -> mem t !! b = Some blk -> mem t' = <[b := blk']> (mem t) ->
  cfg t' = cfg t -> orders t' = orders t -> blk_set blk' = blk_set blk ->
  length (occupancies (stats t')) = length (occupancies (stats t)) ->
  owned env blk' -> tags_ok env t'.
Proof.
  intros [Hwf Ho Hown] Hb Em Ec Eo Eset El Hnew. split.
  - by eapply tags_wf_blk.
  - by rewrite El.
  - intros d blkd. rewrite Em. destruct (decide (d = b)) as [->|].
    + rewrite list_lookup_insert_eq by (by eapply lookup_lt_Some). by intros [= <-].
    + rewrite list_lookup_insert_ne by done. eauto.
Qed.

Lemma same_line_update t t' b blk blk' :
  unique_lines t -> mem t !! b = Some blk -> mem t' = <[b := blk']> (mem t) ->
  line_of blk' = line_of blk -> contents t' = contents t /\ unique_lines t'.
Proof.
  intros Hu Hb Em El. assert (Hl : lines blk' = lines blk) by (unfold lines; by rewrite El).
  split.
  - rewrite (contents_update t t' b blk blk') by done. rewrite Hl.
    assert (lines blk ⊆ contents t); [|set_solver by (destruct (decide (x ∈ lines blk)); set_solver)].
    intros l Hin%elem_of_lines. apply elem_of_contents. eauto.
  - eapply unique_update; [done..|]. rewrite Hl. by right.
Qed.

(** [accessBlock]: never a fault; a hit exactly on the lines held, with the
    reference counted in the block; nothing else of the sets or blocks moves. *)
Definition access_result (env : Env) (addr : Z) (sec : bool) (t t' : TagStore)
    (ob : option nat) : Prop :=
  cfg t' = cfg t /\ warmedUp t' = warmedUp t /\ sets t' = sets t /\
  occupancies (stats t') = occupancies (stats t) /\
  tagsInUse (stats t') = tagsInUse (stats t) /\
  match ob with
  | Some b => exists blk, mem t !! b = Some blk /\
      line_of blk = Some (line_at (cfg t) addr sec) /\
      mem t' = <[b := blk <| refCount ::= Z.succ |>]> (mem t)
  | None => line_at (cfg t) addr sec ∉ contents t /\ mem t' = mem t
  end.

Lemma accessBlock_ok env addr sec t :
  tags_wf t -> exists t' ob lat,
    accessBlock env addr sec t = Ok (t', ob, lat) /\ access_result env addr sec t t' ob.
Proof.
  intros Hwf. unfold accessBlock. pose proof (findBlock_spec t addr sec Hwf) as H.
  unfold findBlock in H. destruct (getSet t _) as [s|]; cbn [mbind outcome_bind] in *;
    [|destruct H as [(?&?&?&_)|[? _]]; done].
  destruct H as [(b & blk & -> & Hb & Hl)|[-> Hn]]; cbn [mbind outcome_bind].
  - unfold getBlk, updBlk, aget. simpl. unfold getBlk, aget. simpl. rewrite Hb. simpl.
    eexists _, _, _. split; [done|]. unfold access_result. simpl. naive_solver.
  - eexists _, _, _. split; [done|]. unfold access_result. simpl. naive_solver.
Qed.

Lemma access_result_wf env addr sec t t' ob :
  tags_wf t -> access_result env addr sec t t' ob -> tags_wf t' /\ orders t' = orders t.
Proof.
  intros Hwf (Ec & _ & Es & _ & _ & H).
  assert (Eo : orders t' = orders t) by (unfold orders; by rewrite Es). split; [|done].
  destruct ob as [b|].
  - destruct H as (blk & Hb & _ & Em). by eapply tags_wf_blk.
  - destruct H as [_ Em]. destruct Hwf. split; rewrite ?Ec, ?Eo, ?Em; done.
Qed.

(** The set of a block of a well-formed store. *)
Lemma blk_in_set t b blk :
  tags_wf t -> mem t !! b = Some blk ->
  exists i s, blk_set blk = Z.of_nat i /\ sets t !! i = Some s /\ set_ok s /\
    assoc s = ways (cfg t) /\ b ∈ blks s.
Proof.
  intros Hwf Hb. destruct (blk_set_lt _ _ _ Hwf Hb) as (i & Hset & Hi).
  destruct (tags_set _ i Hwf Hi) as (s & Hs & Hsok & Ha & _).
  exists i, s. split_and!; try done. apply (in_set_iff _ _ _ _ Hwf Hs). eauto.
Qed.

Lemma line_in_same p s : assoc (line_in p s) = assoc s /\ blks (line_in p s) = blks s.
Proof. by destruct p. Qed.
Lemma line_out_same p s : assoc (line_out p s) = assoc s /\ blks (line_out p s) = blks s.
Proof. by destruct p. Qed.

Lemma length_insert_occ pkt blk st :
  length (occupancies (insert_stats pkt blk st)) = length (occupancies st).
Proof.
  unfold insert_stats, claim_stats, retire_stats, touch_stats.
  destruct (isValid blk), (isTouched blk); simpl; by rewrite ?length_occ_add.
Qed.

Lemma inserted_invalid env pkt c blk : isValid (inserted env pkt c blk) = false.
Proof. unfold inserted, retired. by destruct (isValid blk) eqn:E. Qed.

Lemma insertBlock_ok env pkt b blk t :
  tags_ok env t -> mem t !! b = Some blk -> (0 <= masterId (req pkt) < maxMasters env)%Z ->
  exists t', insertBlock env pkt b t = Ok t' /\ tags_ok env t' /\ cfg t' = cfg t /\
    warmedUp t' = warmedUp t /\ orders t' = orders t /\
    mem t' = <[b := inserted env pkt (cfg t) blk]> (mem t).
Proof.
  intros Hok Hb Hm. pose proof (ok_wf _ _ Hok) as Hwf.
  destruct (blk_in_set _ _ _ Hwf Hb) as (i & s & Hset & Hs & _).
  pose proof (t_owned _ _ Hok b blk Hb) as Hown.
  assert (Hso : forall s', assoc s' = assoc s -> blks s' = blks s ->
            orders (t <| sets := <[i := s']> (sets t) |>) = orders t)
    by (intros; by eapply orders_insert_same).
  destruct t as [c w ss m st]. simpl in *. eexists. split.
  { eapply insertBlock_spec; try done; [apply (t_occ _ _ Hok)|]. intros. by apply Hown. }
  assert (Eo : orders (MkTags c w
    (<[i := line_in (is_pcm env (pkt_addr pkt)) (if isValid blk then line_out (isPcm blk) s else s)]> ss)
    (<[b := inserted env pkt c blk]> m) (insert_stats pkt blk st)) = orders (MkTags c w ss m st)).
  { destruct (line_out_same (isPcm blk) s) as [Ea Eb].
    destruct (line_in_same (is_pcm env (pkt_addr pkt))
      (if isValid blk then line_out (isPcm blk) s else s)) as [E1 E2].
    apply Hso; rewrite ?E1, ?E2; by destruct (isValid blk). }
  split; [|done]. eapply tags_ok_blk; [exact Hok|exact Hb|done|done|done|..].
  - unfold inserted, retired. by destruct (isValid blk).
  - apply length_insert_occ.
  - intros Hv. by rewrite inserted_invalid in Hv.
Qed.

Lemma invalidate_ok env b blk t :
  tags_ok env t -> mem t !! b = Some blk -> isValid blk = true ->
  exists t', invalidate env b t = Ok t' /\ tags_wf t' /\ cfg t' = cfg t /\
    warmedUp t' = warmedUp t /\ orders t' = orders t /\
    mem t' = <[b := invalidated env blk]> (mem t) /\
    length (occupancies (stats t')) = length (occupancies (stats t)).
Proof.
  intros Hok Hb Hv. pose proof (ok_wf _ _ Hok) as Hwf.
  destruct (blk_in_set _ _ _ Hwf Hb) as (i & s & Hset & Hs & _).
  destruct (t_owned _ _ Hok b blk Hb Hv) as [_ Hr].
  assert (Eo : orders (t <| sets := <[i := line_out (isPcm blk) s]> (sets t) |>) = orders t)
    by (eapply orders_insert_same; [done|apply line_out_same..]).
  destruct t as [c w ss m st]. simpl in *. eexists. split.
  { eapply invalidate_spec; try done. apply (t_occ _ _ Hok). }
  split; [|split_and!; try done; simpl; apply length_occ_add].
  eapply tags_wf_blk; [exact Hwf|exact Hb|done|done|exact Eo|done].
Qed.

(** ** The store the constructor leaves *)

Lemma rows_lookup {A} (f : nat -> nat -> A) w n s b :
  (0 < w)%nat ->
  ((i ← seq s n; f i <$> seq 0 w) : list A) !! b =
    if decide (b < n * w)%nat then Some (f (s + b / w)%nat (b mod w)%nat) else None.
Proof.
  intros Hw. revert s b. induction n as [|n IH]; intros s b; [done|].
  cbn [seq mbind list_bind]. rewrite lookup_app.
  destruct (decide (b < w)%nat) as [Hb|Hb].
  - rewrite list_lookup_fmap, lookup_seq_lt by done. cbn [fmap option_fmap option_map].
    rewrite decide_True by nia. rewrite Nat.div_small, Nat.mod_small by done. do 2 f_equal. lia.
  - rewrite (lookup_ge_None_2 (f s <$> seq 0 w)) by (rewrite length_fmap, length_seq; lia).
    change (list_bind _ _) with ((i ← seq (S s) n; f i <$> seq 0 w) : list A).
    rewrite length_fmap, length_seq. etrans; [apply IH|].
    assert (Eb : b = (b - w + 1 * w)%nat) by lia.
    assert (E1 : (b / w = (b - w) / w + 1)%nat) by (rewrite Eb at 1; apply Nat.div_add; lia).
    assert (E2 : (b mod w = (b - w) mod w)%nat) by (rewrite Eb at 1; apply Nat.Div0.mod_add).
    rewrite E1, E2.
    destruct (decide (b - w < n * w)%nat), (decide (b < S n * w)%nat); try lia; [|done].
    do 2 f_equal. lia.
Qed.

Section init.
Context (c : TagConfig) (Hc : cfg_ok c) (masters : Z).
Let t := init_tags c masters.

Lemma init_mem b :
  mem t !! b = if decide (b < numSets c * ways c)%nat
               then Some (init_blk c (b / ways c) (b mod ways c)) else None.
Proof. apply (rows_lookup (init_blk c)), Hc. Qed.

Lemma init_mem_length : length (mem t) = (numSets c * ways c)%nat.
Proof.
  pose proof (ok_ways _ Hc). apply Nat.le_antisymm.
  - apply lookup_ge_None. rewrite init_mem, decide_False by lia. done.
  - apply Nat.le_ngt. intros Hlt. destruct (lookup_ge_None_2 (mem t) (length (mem t))); [lia|].
    pose proof (init_mem (length (mem t))) as E. rewrite decide_True in E by done.
    rewrite lookup_ge_None_2 in E; [done|lia].
Qed.

Lemma init_blk_of b blk :
  mem t !! b = Some blk -> blk = init_blk c (b / ways c) (b mod ways c).
Proof. rewrite init_mem. by case_decide; intros; simplify_eq. Qed.

Lemma init_wf : tags_wf t.
Proof.
  split; try done.
  - unfold orders. rewrite length_fmap. simpl. by rewrite length_fmap, length_seq.
  - apply init_mem_length.
  - intros i o Ho. unfold orders in Ho. simpl in Ho. rewrite <- list_fmap_compose in Ho.
    apply list_lookup_fmap_Some in Ho as (k & -> & Hk). apply lookup_seq in Hk as [-> _]. done.
  - intros b blk Hb. by rewrite (init_blk_of b blk Hb).
Qed.

Lemma init_invalid b blk : mem t !! b = Some blk -> isValid blk = false /\ status blk = 0%Z.
Proof. intros Hb. by rewrite (init_blk_of b blk Hb). Qed.

Lemma init_invalid_in blk : blk ∈ mem t -> isValid blk = false.
Proof. intros (b & Hb)%list_elem_of_lookup. by apply (init_invalid b). Qed.

Lemma init_ok env : (0 <= masters)%Z -> maxMasters env = masters -> tags_ok env t.
Proof.
  intros Hm E. split; [apply init_wf| |].
  - simpl. rewrite length_replicate. lia.
  - intros b blk Hb Hv. apply init_invalid in Hb as [Hb _]. congruence.
Qed.

Lemma init_lines : unique_lines t.
Proof.
  intros b b' blk blk' l Hb _ Hl _. apply init_invalid in Hb as [Hb _].
  unfold line_of in Hl. by rewrite Hb in Hl.
Qed.
End init.

(** A store of two sets of two ways, for examples. *)
Definition tiny_cfg : TagConfig := MkConfig 4 1 2 2 false 2 3 1 3 4 4.
Lemma tiny_cfg_ok : cfg_ok tiny_cfg.
Proof. split; vm_compute; split_and?; congruence || lia. Defined.

(** ** Lookup *)

(** C31. [BaseSetAssoc::accessBlock] finds exactly the lines the store holds:
    with no line held twice, it never fails, it returns the one valid block
    whose set, tag and secure bit are those of the address, or nothing when no
    block holds that line, and all it changes in the store is that block's
    reference count and the statistics. *)
Theorem accessBlock_finds_line (env : Env) (addr : Z) (sec : bool) (t : TagStore) :
  tags_wf t -> unique_lines t ->
  exists t' ob lat, accessBlock env addr sec t = Ok (t', ob, lat) /\
    cfg t' = cfg t /\ sets t' = sets t /\ contents t' = contents t /\
    match ob with
    | Some b => exists blk, mem t !! b = Some blk /\ isValid blk = true /\
        blk_set blk = extractSet (cfg t) addr /\ tag blk = extractTag (cfg t) addr /\
        isSecure blk = sec /\ mem t' = <[b := blk <| refCount ::= Z.succ |>]> (mem t) /\
        forall b' blk', mem t !! b' = Some blk' -> line_of blk' = line_of blk -> b' = b
    | None => line_at (cfg t) addr sec ∉ contents t /\ mem t' = mem t
    end.
Proof.
  intros Hwf Hu. destruct (accessBlock_ok env addr sec t Hwf)
    as (t' & ob & lat & E & Ec & _ & Es & _ & _ & H).
  exists t', ob, lat. split_and!; try done.
  - destruct ob as [b|]; [|by destruct H as [_ Em]; unfold contents; rewrite Em].
    destruct H as (blk & Hb & Hl & Em). by apply (same_line_update t t' b blk _ Hu Hb Em).
  - destruct ob as [b|]; [|done]. destruct H as (blk & Hb & Hl & Em). exists blk.
    assert (Hv : isValid blk = true) by (unfold line_of in Hl; by destruct (isValid blk)).
    pose proof Hl as Hl'. unfold line_of in Hl'. rewrite Hv in Hl'. unfold line_at in Hl'.
    split_and!; try done; try congruence. intros b' blk' Hb' Hl''. rewrite Hl in Hl''.
    by eapply Hu.
Qed.

(** A store in which way 1 of set 0 holds the line of address 0x40. *)
Definition one_line : TagStore :=
  (init_tags tiny_cfg 8) <| mem := <[1 := (init_blk tiny_cfg 0 1) <| tag := 8%Z |> <| status := 7%Z |>]>
                              (mem (init_tags tiny_cfg 8)) |>.

Lemma accessBlock_finds_line_witness :
  let env := MkEnv 1000 10 8 512 in
  exists t' ob lat, accessBlock env 64 false one_line = Ok (t', ob, lat) /\
    cfg t' = cfg one_line /\ sets t' = sets one_line /\ contents t' = contents one_line /\
    match ob with
    | Some b => exists blk, mem one_line !! b = Some blk /\ isValid blk = true /\
        blk_set blk = extractSet tiny_cfg 64 /\ tag blk = extractTag tiny_cfg 64 /\
        isSecure blk = false /\ mem t' = <[b := blk <| refCount ::= Z.succ |>]> (mem one_line) /\
        forall b' blk', mem one_line !! b' = Some blk' -> line_of blk' = line_of blk -> b' = b
    | None => line_at tiny_cfg 64 false ∉ contents one_line /\ mem t' = mem one_line
    end.
Proof.
  intros env. apply (accessBlock_finds_line env 64 false one_line).
  - by apply (tags_wf_blk (init_tags tiny_cfg 8) one_line 1 (init_blk tiny_cfg 0 1)
      ((init_blk tiny_cfg 0 1) <| tag := 8%Z |> <| status := 7%Z |>) (init_wf tiny_cfg tiny_cfg_ok 8)).
  - intros [|[|[|[|b]]]] [|[|[|[|b']]]] blk blk' l; vm_compute; intros; simplify_eq; done.
Defined.
