(* ===== verification/Policy.v ===== *)
(** The interface between a replacement policy and the cache that owns it: the
    four operations a policy overrides ([accessBlock], [findVictim],
    [insertBlock], [invalidate]), and the laws the cache relies on.  A policy
    may decide recency and keep state of its own; it may not change what the
    base store [BaseSetAssoc] does to lines, counters and statistics. *)
From S2P Require Import Prelude IntMath MemTypes Blk CacheSet SetAssoc Tags.

#[local] Open Scope nat_scope.

(** ** Operations *)

(** A policy state [T] contains a [BaseSetAssoc] sub-object: [base] reads it,
    [rebase] replaces it.  The boolean of [pol_accessBlock] is the secure
    space, the last integer is the port ([portId]). *)
Class Policy (T : Type) := {
  base : T -> TagStore;
  rebase : TagStore -> T -> T;
  pol_accessBlock : Env -> Z -> bool -> Command -> Z -> T -> outcome (T * option nat * Z);
  pol_findVictim : Env -> Z -> T -> outcome (T * nat);
  pol_insertBlock : Env -> Packet -> nat -> T -> outcome T;
  pol_invalidate : Env -> nat -> T -> outcome T
}.

(** The port the cache passes for a master: [(masterId - 7) / 6]. *)
Definition portId (master : Z) : Z := Z.quot (master - 7) 6.

(** ** Laws *)

(** What operations of the cache between two policy calls leave alone. *)
Definition frame (t t' : TagStore) : Prop := cfg t' = cfg t /\ orders t' = orders t.

(** [b] belongs to the set [addr] maps to. *)
Definition in_set_of (t : TagStore) (addr : Z) (b : nat) : Prop :=
  exists blk, mem t !! b = Some blk /\ blk_set blk = extractSet (cfg t) addr.

Class PolicyLaws (T : Type) `{Policy T} := {
  (** state the policy maintains *)
  pol_inv : T -> Prop;
  (** masters the policy has room for *)
  pol_master : Z -> Prop;
  (** blocks [pol_insertBlock] can place, [pol_findVictim] having chosen them *)
  pol_slot : T -> nat -> Prop;
  base_rebase t x : base (rebase t x) = t;
  inv_rebase t x : pol_inv x -> frame (base x) t -> pol_inv (rebase t x);
  slot_rebase t x b : pol_slot x b -> frame (base x) t -> pol_slot (rebase t x) b;
  access_law env addr sec c m x t' ob lat :
    pol_inv x -> tags_wf (base x) -> pol_master m ->
    accessBlock env addr sec (base x) = Ok (t', ob, lat) ->
    exists x', pol_accessBlock env addr sec c (portId m) x = Ok (x', ob, lat) /\
      reorder t' (base x') /\ pol_inv x';
  victim_law env addr x :
    pol_inv x -> tags_wf (base x) ->
    exists x' b, pol_findVictim env addr x = Ok (x', b) /\
      reorder (base x) (base x') /\ pol_inv x' /\ pol_slot x' b /\ in_set_of (base x') addr b;
  insert_law env pkt b x t' :
    pol_inv x -> tags_ok env (base x) -> pol_slot x b ->
    in_set_of (base x) (pkt_addr pkt) b ->
    (0 <= masterId (req pkt) < maxMasters env)%Z -> pol_master (masterId (req pkt)) ->
    insertBlock env pkt b (base x) = Ok t' ->
    exists x', pol_insertBlock env pkt b x = Ok x' /\ reorder t' (base x') /\ pol_inv x';
  invalidate_law env b x blk t' :
    pol_inv x -> tags_ok env (base x) -> mem (base x) !! b = Some blk -> isValid blk = true ->
    invalidate env b (base x) = Ok t' ->
    exists x', pol_invalidate env b x = Ok x' /\ reorder t' (base x') /\ pol_inv x'
}.

(** ** Shapes policies share *)

(** The [if (blk != NULL)] part of an [accessBlock]. *)
Definition on_hit (f : nat -> CacheBlk -> TagStore -> outcome TagStore)
    (ob : option nat) (t : TagStore) : outcome TagStore :=
  match ob with
  | Some b => blk ← getBlk t b; f b blk t
  | None => Ok t
  end.

(** [sets[extractSet(addr)].blks[assoc - 1]]. *)
Definition lastWay (addr : Z) (t : TagStore) : outcome nat :=
  s ← getSet t (extractSet (cfg t) addr); aget (blks s) (ways (cfg t) - 1).

(** [sets[set].f(blk)] for the set of the address, and for the set recorded in
    the block. *)
Definition move_in (addr : Z) (f : CacheSet -> outcome CacheSet) (t : TagStore)
    : outcome TagStore := updSet (extractSet (cfg t) addr) f t.
Definition move_own (b : nat) (f : CacheSet -> outcome CacheSet) (t : TagStore)
    : outcome TagStore := blk ← getBlk t b; updSet (blk_set blk) f t.

(** ** Facts about the shapes *)

Lemma frame_refl t : frame t t.
Proof. done. Qed.

Lemma frame_last_way t t' b : frame t t' -> last_way t b -> last_way t' b.
Proof.
  intros [Ec Eo] (i & s & Hs & Hb).
  assert (orders t' !! i = Some (assoc s, blks s)) as (s' & Hs' & E)%orders_sets
    by (rewrite Eo; apply orders_sets; eauto).
  injection E as _ Eb. exists i, s'. rewrite Ec, <- Eb. done.
Qed.

Lemma in_set_lt t addr b : in_set_of t addr b -> is_Some (mem t !! b).
Proof. intros (blk & -> & _). done. Qed.

(** The set of a block is fixed by the block's index. *)
Lemma in_set_index t addr b :
  tags_wf t -> in_set_of t addr b <->
  b < length (mem t) /\ Z.of_nat (b / ways (cfg t)) = extractSet (cfg t) addr.
Proof.
  intros Hwf. split.
  - intros (blk & Hb & Hset). split; [by eapply lookup_lt_Some|].
    by rewrite <- (t_blk _ Hwf b blk Hb).
  - intros [[blk Hb]%lookup_lt_is_Some_2 E]. exists blk. split; [done|].
    by rewrite (t_blk _ Hwf b blk Hb).
Qed.

Lemma in_set_frame t t' addr b :
  tags_wf t -> tags_wf t' -> cfg t' = cfg t -> in_set_of t addr b -> in_set_of t' addr b.
Proof.
  intros Hwf Hwf' Ec. rewrite !in_set_index, Ec by done. intros [Hl E]. split; [|done].
  by rewrite (t_mem _ Hwf'), Ec, <- (t_mem _ Hwf).
Qed.

(** A hit leaves the store well-formed with its block where it was. *)
Lemma hit_facts env addr sec t t' ob lat :
  tags_wf t -> accessBlock env addr sec t = Ok (t', ob, lat) ->
  tags_wf t' /\ cfg t' = cfg t /\ orders t' = orders t /\ warmedUp t' = warmedUp t /\
  match ob with Some b => is_Some (mem t' !! b) | None => True end.
Proof.
  intros Hwf Ha. destruct (accessBlock_ok env addr sec t Hwf) as (t1 & ob1 & lat1 & E & Hr).
  rewrite Ha in E. injection E as <- <- <-.
  destruct (access_result_wf _ _ _ _ _ _ Hwf Hr) as [Hwf' Ho].
  destruct Hr as (Ec & Ew & _ & _ & _ & H). split_and!; try done.
  destruct ob as [b|]; [|done]. destruct H as (blk & Hb & _ & ->).
  rewrite list_lookup_insert_eq by (by eapply lookup_lt_Some). done.
Qed.

(** Reordering on a hit. *)
Lemma hit_move t ob f :
  tags_wf t -> match ob with Some b => is_Some (mem t !! b) | None => True end ->
  (forall b blk, exists g, moves_any b g /\ f b blk t = updSet (blk_set blk) g t) ->
  exists t', on_hit f ob t = Ok t' /\ reorder t t'.
Proof.
  intros Hwf Hb Hf. destruct ob as [b|]; [|by exists t]. destruct Hb as [blk Hb]. simpl.
  rewrite (getBlk_ok _ _ _ Hb). simpl. destruct (Hf b blk) as (g & Hg & ->).
  by eapply reorder_any.
Qed.

(** The hybrid policies promote a block that hits to the head, or by a number
    of steps that depends on the block: both moves work anywhere. *)
Lemma promote_any b (p : bool) f g t blk :
  moves_any b f -> moves_any b g ->
  exists h, moves_any b h /\
    (if warmedUp t then if negb p then updSet (blk_set blk) f t
                        else updSet (blk_set blk) g t
     else updSet (blk_set blk) g t) = updSet (blk_set blk) h t.
Proof. intros Hf Hg. destruct (warmedUp t), p; eauto. Qed.

(** The block of the last way is a victim in the right set. *)
Lemma lastWay_ok addr t :
  tags_wf t -> exists b, lastWay addr t = Ok b /\ last_way t b /\ in_set_of t addr b.
Proof.
  intros Hwf. unfold lastWay. destruct (extractSet_nat _ addr Hwf) as (i & E & Hi).
  destruct (tags_set _ i Hwf Hi) as (s & Hs & (Hl & _ & Ha) & Hw & _).
  rewrite E, (getSet_ok _ _ _ Hs). simpl. rewrite <- Hw.
  destruct (lookup_lt_is_Some_2 (blks s) (assoc s - 1)) as [b Hb]; [lia|].
  exists b. unfold aget. rewrite Hb. split_and!; [done| |].
  - exists i, s. by rewrite <- Hw.
  - apply list_elem_of_lookup_2 in Hb. apply (in_set_iff _ _ _ _ Hwf Hs) in Hb as (blk & ? & ?).
    exists blk. by rewrite E.
Qed.

(** What a policy knows after [BaseSetAssoc::insertBlock]. *)
Record just_inserted (env : Env) (pkt : Packet) (b : nat) (t t' : TagStore) : Prop := {
  ji_ok : tags_ok env t';
  ji_frame : frame t t';
  ji_warm : warmedUp t' = warmedUp t;
  ji_in : in_set_of t' (pkt_addr pkt) b;
  ji_blk : exists blk', mem t' !! b = Some blk' /\ isPcm blk' = is_pcm env (pkt_addr pkt)
}.

Lemma just_inserted_ok env pkt b t t' :
  tags_ok env t -> in_set_of t (pkt_addr pkt) b ->
  (0 <= masterId (req pkt) < maxMasters env)%Z -> insertBlock env pkt b t = Ok t' ->
  just_inserted env pkt b t t'.
Proof.
  intros Hok Hin Hm E. pose proof Hin as (blk & Hb & _).
  destruct (insertBlock_ok env pkt b blk t Hok Hb Hm) as (t1 & E1 & Hok' & Ec & Ew & Eo & Em).
  rewrite E in E1. injection E1 as <-. split; try done.
  - eapply in_set_frame; [apply Hok|apply Hok'|done|done].
  - eexists. rewrite Em, list_lookup_insert_eq by (by eapply lookup_lt_Some). done.
Qed.

Section moves.
Context (env : Env) (pkt : Packet) (b : nat) (t t' : TagStore).
Context (Hi : just_inserted env pkt b t t').

(** The insertion move of a policy, by the set of the address or of the
    block: anywhere, or from the last way. *)
Lemma move_in_any f :
  moves_any b f -> exists t'', move_in (pkt_addr pkt) f t' = Ok t'' /\ reorder t' t''.
Proof.
  intros Hf. destruct (ji_in _ _ _ _ _ Hi) as (blk & Hb & E). unfold move_in. rewrite <- E.
  eapply reorder_any; [apply (ji_ok _ _ _ _ _ Hi)|done|done].
Qed.

Lemma move_in_last f :
  last_way t b -> moves_last (ways (cfg t)) b f ->
  exists t'', move_in (pkt_addr pkt) f t' = Ok t'' /\ reorder t' t''.
Proof.
  intros Hl Hf. destruct (ji_in _ _ _ _ _ Hi) as (blk & Hb & E). unfold move_in. rewrite <- E.
  pose proof (ji_frame _ _ _ _ _ Hi) as Hfr.
  eapply reorder_last; [apply (ji_ok _ _ _ _ _ Hi)|done|by eapply frame_last_way|].
  destruct Hfr as [-> _]. done.
Qed.

Lemma move_own_last f :
  last_way t b -> moves_last (ways (cfg t)) b f ->
  exists t'', move_own b f t' = Ok t'' /\ reorder t' t''.
Proof.
  intros Hl Hf. destruct (move_in_last f Hl Hf) as (t'' & E & Hr). exists t''. split; [|done].
  destruct (ji_in _ _ _ _ _ Hi) as (blk & Hb & Es). unfold move_own, move_in in *.
  rewrite (getBlk_ok _ _ _ Hb). simpl. by rewrite Es.
Qed.
End moves.

(** A block known to be valid can be sent to the tail after it was
    invalidated. *)
Lemma invalidate_move env b blk t t' f :
  tags_ok env t -> mem t !! b = Some blk -> isValid blk = true ->
  invalidate env b t = Ok t' -> moves_any b f ->
  tags_wf t' /\ frame t t' /\ exists t'', move_own b f t' = Ok t'' /\ reorder t' t''.
Proof.
  intros Hok Hb Hv E Hf.
  destruct (invalidate_ok env b blk t Hok Hb Hv) as (t1 & E1 & Hwf' & Ec & _ & Eo & Em & _).
  rewrite E in E1. injection E1 as <-. split_and!; try done.
  assert (Hb' : mem t' !! b = Some (invalidated env blk))
    by (rewrite Em; apply list_lookup_insert_eq; by eapply lookup_lt_Some).
  unfold move_own. rewrite (getBlk_ok _ _ _ Hb'). cbn [mbind outcome_bind].
  by eapply reorder_any.
Qed.

Lemma frame_reorder_cfg t t' t'' : frame t t' -> reorder t' t'' -> cfg t'' = cfg t.
Proof. intros [Ec _] Hr. by rewrite <- (r_cfg _ _ Hr). Qed.

Lemma last_way_frame_cfg t t' : frame t t' -> ways (cfg t') = ways (cfg t).
Proof. by intros [-> _]. Qed.

(** ** Automation for the policies' instances *)

(** Bring the facts about the stage just reached into the context. *)
Ltac hit_stage Hwf Ha :=
  let Hwf' := fresh "Hwf'" in let Ec := fresh "Ec" in let Eo := fresh "Eo" in
  let Ew := fresh "Ew" in let Hb := fresh "Hb" in
  destruct (hit_facts _ _ _ _ _ _ _ Hwf Ha) as (Hwf' & Ec & Eo & Ew & Hb).
Ltac insert_stage Hok Hin Hm E :=
  let Hji := fresh "Hji" in
  pose proof (just_inserted_ok _ _ _ _ _ Hok Hin Hm E) as Hji.

(** Run the policy's own step [H : exists t, step = Ok t /\ reorder _ t]. *)
Ltac run_step H :=
  let t := fresh "t" in let E := fresh "E" in let Hr := fresh "Hr" in
  destruct H as (t & E & Hr); rewrite E; cbn [mbind outcome_bind].

(** Laws for a policy whose victim is the block of the last way, whose
    invalidation goes to the tail, and whose own state is untouched by both. *)
Lemma lastWay_victim {T} (f : T -> TagStore) addr (x : T) :
  tags_wf (f x) ->
  exists x' b, (b ← lastWay addr (f x); Ok (x, b)) = Ok (x', b) /\ reorder (f x) (f x') /\
    x' = x /\ last_way (f x') b /\ in_set_of (f x') addr b.
Proof.
  intros Hwf. destruct (lastWay_ok addr (f x) Hwf) as (b & -> & Hl & Hin).
  exists x, b. by split_and!.
Qed.

(** The four obligations of a policy's laws, each opened by a tactic that runs
    the base operation and leaves the policy's own moves. *)
Ltac open_access Hwf Ha := hit_stage Hwf Ha; simpl in *; rewrite Ha; cbn [mbind outcome_bind].
Ltac open_insert Hok Hin Hm E :=
  insert_stage Hok Hin Hm E; simpl in *; rewrite E; cbn [mbind outcome_bind].
Ltac invalidate_to_tail Hok Hb Hv E :=
  let H := fresh "H" in let Hwf' := fresh "Hwf'" in let Hfr := fresh "Hfr" in
  match type of E with
  | invalidate ?env ?b ?t = Ok ?t' =>
      destruct (invalidate_move env b _ t t' (moveToTail b) Hok Hb Hv E ltac:(eauto with moves))
        as (Hwf' & Hfr & H)
  end; simpl in *; rewrite E; cbn [mbind outcome_bind]; run_step H.
Ltac victim_is_last f addr x Hwf :=
  let b := fresh "b" in let E := fresh "E" in
  destruct (lastWay_victim f addr x Hwf) as (? & b & E & ? & -> & ? & ?);
  exists x, b; split; [exact E|]; split; [assumption|]; split;
  [try assumption; try exact I | split; assumption].
