(* ===== verification/Lru.v ===== *)
(** The policies without state of their own: [LRU] ([lru.cc]), [LRUWB]
    ([lru_wb.cc]), [PIPP] ([pipp.cc]) and [RandomRepl] ([random_repl.cc]). *)
From S2P Require Import Prelude IntMath MemTypes Blk CacheSet SetAssoc Tags Policy.

#[local] Open Scope nat_scope.

(** ** Definitions *)

Module Lru.
Record LRU := MkLRU { lru_base : TagStore }.

Definition accessBlock (env : Env) (addr : Z) (sec : bool) (c : Command) (port : Z) (x : LRU)
    : outcome (LRU * option nat * Z) :=
  '(t, ob, lat) ← SetAssoc.accessBlock env addr sec (lru_base x);
  t ← on_hit (fun b blk => updSet (blk_set blk) (moveToHead b)) ob t;
  Ok (MkLRU t, ob, lat).

Definition findVictim (addr : Z) (x : LRU) : outcome nat := lastWay addr (lru_base x).

Definition insertBlock (env : Env) (pkt : Packet) (b : nat) (x : LRU) : outcome LRU :=
  t ← SetAssoc.insertBlock env pkt b (lru_base x);
  t ← move_in (pkt_addr pkt) (moveToHead b) t;
  Ok (MkLRU t).

Definition invalidate (env : Env) (b : nat) (x : LRU) : outcome LRU :=
  t ← SetAssoc.invalidate env b (lru_base x);
  t ← move_own b (moveToTail b) t;
  Ok (MkLRU t).

#[global] Instance policy : Policy LRU := {
  base := lru_base;
  rebase t _ := MkLRU t;
  pol_accessBlock := accessBlock;
  pol_findVictim _ addr x := b ← findVictim addr x; Ok (x, b);
  pol_insertBlock := insertBlock;
  pol_invalidate := invalidate
}.
End Lru.

Module Lruwb.
Record LRUWB := MkLRUWB { lruwb_base : TagStore }.

(** A write-back that hits does not count as a use. *)
Definition accessBlock (env : Env) (addr : Z) (sec : bool) (c : Command) (port : Z)
    (x : LRUWB) : outcome (LRUWB * option nat * Z) :=
  '(t, ob, lat) ← SetAssoc.accessBlock env addr sec (lruwb_base x);
  t ← (if decide (c <> Writeback)
       then on_hit (fun b blk => updSet (blk_set blk) (moveToHead b)) ob t
       else Ok t);
  Ok (MkLRUWB t, ob, lat).

Definition findVictim (addr : Z) (x : LRUWB) : outcome nat := lastWay addr (lruwb_base x).

Definition insertBlock (env : Env) (pkt : Packet) (b : nat) (x : LRUWB) : outcome LRUWB :=
  t ← SetAssoc.insertBlock env pkt b (lruwb_base x);
  t ← move_in (pkt_addr pkt) (moveToHead b) t;
  Ok (MkLRUWB t).

Definition invalidate (env : Env) (b : nat) (x : LRUWB) : outcome LRUWB :=
  t ← SetAssoc.invalidate env b (lruwb_base x);
  t ← move_own b (moveToTail b) t;
  Ok (MkLRUWB t).

#[global] Instance policy : Policy LRUWB := {
  base := lruwb_base;
  rebase t _ := MkLRUWB t;
  pol_accessBlock := accessBlock;
  pol_findVictim _ addr x := b ← findVictim addr x; Ok (x, b);
  pol_insertBlock := insertBlock;
  pol_invalidate := invalidate
}.
End Lruwb.

Module Pipp.
(** [pcm_location] and [dram_location] are parameters of the object. *)
Record PIPP := MkPIPP { pipp_base : TagStore; pcmLocation : Z; dramLocation : Z }.
#[global] Instance PIPP_settable : Settable PIPP := fun x =>
  MkPIPP (pipp_base x) (pcmLocation x) (dramLocation x).

Definition accessBlock (env : Env) (addr : Z) (sec : bool) (c : Command) (port : Z)
    (x : PIPP) : outcome (PIPP * option nat * Z) :=
  '(t, ob, lat) ← SetAssoc.accessBlock env addr sec (pipp_base x);
  t ← on_hit (fun b blk => updSet (blk_set blk) (moveOneStep b)) ob t;
  Ok (x <| pipp_base := t |>, ob, lat).

Definition findVictim (addr : Z) (x : PIPP) : outcome nat := lastWay addr (pipp_base x).

Definition insertBlock (env : Env) (pkt : Packet) (b : nat) (x : PIPP) : outcome PIPP :=
  t ← SetAssoc.insertBlock env pkt b (pipp_base x);
  blk ← getBlk t b;
  t ← move_in (pkt_addr pkt)
        (insertFixLocation b (if isPcm blk then pcmLocation x else dramLocation x)) t;
  Ok (x <| pipp_base := t |>).

Definition invalidate (env : Env) (b : nat) (x : PIPP) : outcome PIPP :=
  t ← SetAssoc.invalidate env b (pipp_base x);
  t ← move_own b (moveToTail b) t;
  Ok (x <| pipp_base := t |>).

#[global] Instance policy : Policy PIPP := {
  base := pipp_base;
  rebase t x := x <| pipp_base := t |>;
  pol_accessBlock := accessBlock;
  pol_findVictim _ addr x := b ← findVictim addr x; Ok (x, b);
  pol_insertBlock := insertBlock;
  pol_invalidate := invalidate
}.
End Pipp.

Module RandomReplacement.
(** [random n lo hi] is the [n]-th number [random_mt.random<int>(lo, hi)]
    draws: the generator of the C++ library, a field of the state. *)
Record RandomRepl := MkRandom {
  rr_base : TagStore;
  random : nat -> Z -> Z -> Z;
  draws : nat
}.
#[global] Instance RandomRepl_settable : Settable RandomRepl := fun x =>
  MkRandom (rr_base x) (random x) (draws x).

Definition accessBlock (env : Env) (addr : Z) (sec : bool) (c : Command) (port : Z)
    (x : RandomRepl) : outcome (RandomRepl * option nat * Z) :=
  '(t, ob, lat) ← SetAssoc.accessBlock env addr sec (rr_base x);
  Ok (x <| rr_base := t |>, ob, lat).

Definition findVictim (addr : Z) (x : RandomRepl) : outcome (RandomRepl * nat) :=
  let t := rr_base x in
  b ← SetAssoc.findVictim addr t;
  blk ← getBlk t b;
  if isValid blk then
    let assoc := Z.of_nat (ways (cfg t)) in
    let idx := random x (draws x) 0 (assoc - 1) in
    assert! idx <? assoc;
    assert! idx >=? 0;
    s ← getSet t (extractSet (cfg t) addr);
    b ← aget (blks s) (Z.to_nat idx);
    Ok (x <| draws ::= S |>, b)
  else Ok (x, b).

Definition insertBlock (env : Env) (pkt : Packet) (b : nat) (x : RandomRepl)
    : outcome RandomRepl :=
  t ← SetAssoc.insertBlock env pkt b (rr_base x); Ok (x <| rr_base := t |>).

Definition invalidate (env : Env) (b : nat) (x : RandomRepl) : outcome RandomRepl :=
  t ← SetAssoc.invalidate env b (rr_base x); Ok (x <| rr_base := t |>).

#[global] Instance policy : Policy RandomRepl := {
  base := rr_base;
  rebase t x := x <| rr_base := t |>;
  pol_accessBlock := accessBlock;
  pol_findVictim _ := findVictim;
  pol_insertBlock := insertBlock;
  pol_invalidate := invalidate
}.
End RandomReplacement.

(** ** Laws *)

#[export] Instance LRU_laws : PolicyLaws Lru.LRU.
Proof.
  refine {| pol_inv x := True; pol_master _ := True; pol_slot x b := last_way (base x) b |};
    try done.
  - intros t x b Hl Hf. by eapply frame_last_way.
  - intros env addr sec c m x t' ob lat _ Hwf _ Ha. cbn. unfold Lru.accessBlock. open_access Hwf Ha.
    run_step (hit_move t' ob (fun b blk => updSet (blk_set blk) (moveToHead b)) Hwf' Hb
      ltac:(eauto with moves)). by eexists.
  - intros env addr x _ Hwf. victim_is_last Lru.lru_base addr x Hwf.
  - intros env pkt b x t' _ Hok Hl Hin Hm _ E. cbn. unfold Lru.insertBlock.
    open_insert Hok Hin Hm E.
    run_step (move_in_any _ _ _ _ _ Hji (moveToHead b) ltac:(eauto with moves)). by eexists.
  - intros env b x blk t' _ Hok Hb Hv E. cbn. unfold Lru.invalidate.
    invalidate_to_tail Hok Hb Hv E. by eexists.
Defined.

#[export] Instance LRUWB_laws : PolicyLaws Lruwb.LRUWB.
Proof.
  refine {| pol_inv x := True; pol_master _ := True; pol_slot x b := last_way (base x) b |};
    try done.
  - intros t x b Hl Hf. by eapply frame_last_way.
  - intros env addr sec c m x t' ob lat _ Hwf _ Ha. cbn. unfold Lruwb.accessBlock.
    open_access Hwf Ha. case_decide; [|by eexists].
    run_step (hit_move t' ob (fun b blk => updSet (blk_set blk) (moveToHead b)) Hwf' Hb
      ltac:(eauto with moves)). by eexists.
  - intros env addr x _ Hwf. victim_is_last Lruwb.lruwb_base addr x Hwf.
  - intros env pkt b x t' _ Hok Hl Hin Hm _ E. cbn. unfold Lruwb.insertBlock.
    open_insert Hok Hin Hm E.
    run_step (move_in_any _ _ _ _ _ Hji (moveToHead b) ltac:(eauto with moves)). by eexists.
  - intros env b x blk t' _ Hok Hb Hv E. cbn. unfold Lruwb.invalidate.
    invalidate_to_tail Hok Hb Hv E. by eexists.
Defined.

(** [PIPP] is safe when both insertion positions are ways of the set. *)
#[export] Instance PIPP_laws : PolicyLaws Pipp.PIPP.
Proof.
  refine {| pol_inv x := (u8 (Pipp.pcmLocation x) < Z.of_nat (ways (cfg (Pipp.pipp_base x))) /\
                          u8 (Pipp.dramLocation x) < Z.of_nat (ways (cfg (Pipp.pipp_base x))))%Z;
            pol_master _ := True; pol_slot x b := last_way (base x) b |}; try done.
  - intros t x Hx [Ec _]. simpl in *. by rewrite Ec.
  - intros t x b Hl Hf. by eapply frame_last_way.
  - intros env addr sec c m x t' ob lat Hx Hwf _ Ha. cbn. unfold Pipp.accessBlock.
    open_access Hwf Ha.
    run_step (hit_move t' ob (fun b blk => updSet (blk_set blk) (moveOneStep b)) Hwf' Hb
      ltac:(eauto with moves)). eexists. split_and!; [done|done|..]; simpl;
      rewrite <- (r_cfg _ _ Hr), Ec; apply Hx.
  - intros env addr x Hx Hwf. victim_is_last Pipp.pipp_base addr x Hwf.
  - intros env pkt b x t' Hx Hok Hl Hin Hm _ E. cbn. unfold Pipp.insertBlock.
    open_insert Hok Hin Hm E. destruct (ji_blk _ _ _ _ _ Hji) as (blk & Hb & _).
    rewrite (getBlk_ok _ _ _ Hb). cbn [mbind outcome_bind].
    run_step (move_in_last _ _ _ _ _ Hji (insertFixLocation b
      (if isPcm blk then Pipp.pcmLocation x else Pipp.dramLocation x)) Hl
      ltac:(apply insertFixLocation_last; by destruct (isPcm blk), Hx)).
    eexists. split_and!; [done|done|..]; simpl;
      rewrite (frame_reorder_cfg _ _ _ (ji_frame _ _ _ _ _ Hji) Hr); apply Hx.
  - intros env b x blk t' Hx Hok Hb Hv E. cbn. unfold Pipp.invalidate.
    invalidate_to_tail Hok Hb Hv E. eexists. split_and!; [done|done|..]; simpl;
      rewrite (frame_reorder_cfg _ _ _ Hfr Hr); apply Hx.
Defined.

(** [RandomRepl] relies on the generator to draw within the bounds it is
    given; then both assertions hold. *)
Lemma first_invalid_some m last bs :
  bs <> [] \/ is_Some last -> (forall b, b ∈ bs -> is_Some (m !! b)) ->
  exists b, first_invalid m last bs = Ok (Some b) /\ (b ∈ bs \/ last = Some b).
Proof.
  revert last. induction bs as [|b bs IH]; intros last Hl Hm; simpl.
  - destruct Hl as [|[b ->]]; [done|]. eauto.
  - destruct (Hm b ltac:(set_solver)) as [blk Hb]. unfold aget. rewrite Hb. simpl.
    destruct (isValid blk); [|exists b; set_solver].
    destruct (IH (Some b)) as (d & -> & Hd); [eauto|set_solver|]. exists d. set_solver.
Qed.

Lemma findVictim_ok addr t :
  tags_wf t -> exists b, SetAssoc.findVictim addr t = Ok b /\ in_set_of t addr b.
Proof.
  intros Hwf. unfold SetAssoc.findVictim. destruct (extractSet_nat _ addr Hwf) as (i & E & Hi).
  destruct (tags_set _ i Hwf Hi) as (s & Hs & (Hl & _ & Ha) & Hw & _).
  rewrite E, (getSet_ok _ _ _ Hs). simpl. rewrite take_ge by lia.
  assert (Hin : forall b, b ∈ blks s -> in_set_of t addr b).
  { intros b (blk & ? & ?)%(in_set_iff _ _ _ _ Hwf Hs). exists blk. by rewrite E. }
  destruct (first_invalid_some (mem t) None (blks s)) as (b & -> & [Hb|]); [| |simpl; eauto|done].
  - left. intros E0. rewrite E0 in Hl. simpl in Hl. lia.
  - intros b Hb. apply (in_set_lt t addr). by apply Hin.
Qed.

#[export] Instance RandomRepl_laws : PolicyLaws RandomReplacement.RandomRepl.
Proof.
  refine {| pol_inv x := (forall n lo hi, lo <= hi ->
                            lo <= RandomReplacement.random x n lo hi <= hi)%Z;
            pol_master _ := True; pol_slot x b := True |}; try done.
  - intros env addr sec c m x t' ob lat Hx Hwf _ Ha. cbn. unfold RandomReplacement.accessBlock.
    simpl in *. rewrite Ha. by eexists.
  - intros env addr x Hx Hwf. cbn. unfold RandomReplacement.findVictim.
    destruct (findVictim_ok addr _ Hwf) as (b & E & Hin). simpl in E, Hin. rewrite E.
    pose proof Hin as (blk & Hb & _). cbn [mbind outcome_bind]. rewrite (getBlk_ok _ _ _ Hb).
    cbn [mbind outcome_bind]. destruct (isValid blk); [|exists x, b; by split_and!].
    destruct (extractSet_nat _ addr Hwf) as (i & Ei & Hi).
    destruct (tags_set _ i Hwf Hi) as (s & Hs & (Hl & _ & Ha) & Hw & _). simpl in *.
    set (idx := RandomReplacement.random _ _ _ _).
    assert (0 <= idx <= Z.of_nat (ways (cfg (RandomReplacement.rr_base x))) - 1)%Z
      by (apply Hx; lia).
    rewrite (proj2 (Z.ltb_lt _ _)), (proj2 (Z.geb_le _ _)) by lia.
    rewrite Ei, (getSet_ok _ _ _ Hs). cbn [mbind outcome_bind].
    destruct (lookup_lt_is_Some_2 (blks s) (Z.to_nat idx)) as [d Hd]; [lia|].
    unfold aget. rewrite Hd. cbn [mbind outcome_bind]. eexists _, d. split_and!; try done.
    apply list_elem_of_lookup_2 in Hd.
    apply (in_set_iff _ _ _ _ Hwf Hs) in Hd as (blk' & ? & ?). exists blk'. simpl. by rewrite Ei.
  - intros env pkt b x t' Hx Hok _ Hin Hm _ E. cbn. unfold RandomReplacement.insertBlock.
    simpl in *. rewrite E. by eexists.
  - intros env b x blk t' Hx Hok Hb Hv E. cbn. unfold RandomReplacement.invalidate.
    simpl in *. rewrite E. by eexists.
Defined.
