(* ===== verification/Hybrid.v ===== *)
(** The hybrid DRAM/PCM policies that place blocks by memory type: [HYBLRU]
    ([hyblru.cc]), [HYBDIP] ([hybdip.cc]) and [IHYBDIP] ([ihybdip.cc]), the
    last two with a saturating position counter per set. *)
From S2P Require Import Prelude IntMath MemTypes Blk CacheSet SetAssoc Tags Policy.

#[local] Open Scope nat_scope.

(** ** Definitions *)

Module Hyblru.
Record HYBLRU := MkHYBLRU { hyblru_base : TagStore }.

Definition accessBlock (env : Env) (addr : Z) (sec : bool) (c : Command) (port : Z)
    (x : HYBLRU) : outcome (HYBLRU * option nat * Z) :=
  '(t, ob, lat) ← SetAssoc.accessBlock env addr sec (hyblru_base x);
  t ← on_hit (fun b blk t =>
        if warmedUp t then
          if negb (isPcm blk) then updSet (blk_set blk) (moveOneStep b) t
          else updSet (blk_set blk) (moveToHead b) t
        else updSet (blk_set blk) (moveToHead b) t) ob t;
  Ok (MkHYBLRU t, ob, lat).

Definition findVictim (addr : Z) (x : HYBLRU) : outcome nat := lastWay addr (hyblru_base x).

Definition insertBlock (env : Env) (pkt : Packet) (b : nat) (x : HYBLRU)
    : outcome HYBLRU :=
  t ← SetAssoc.insertBlock env pkt b (hyblru_base x);
  blk ← getBlk t b;
  t ← (if warmedUp t then
         if isPcm blk then move_in (pkt_addr pkt) (moveToHead b) t
         else move_in (pkt_addr pkt) (insertFixLocation b 7) t
       else move_in (pkt_addr pkt) (moveToHead b) t);
  Ok (MkHYBLRU t).

Definition invalidate (env : Env) (b : nat) (x : HYBLRU) : outcome HYBLRU :=
  t ← SetAssoc.invalidate env b (hyblru_base x);
  t ← move_own b (moveToTail b) t;
  Ok (MkHYBLRU t).

#[global] Instance policy : Policy HYBLRU := {
  base := hyblru_base;
  rebase t _ := MkHYBLRU t;
  pol_accessBlock := accessBlock;
  pol_findVictim _ addr x := b ← findVictim addr x; Ok (x, b);
  pol_insertBlock := insertBlock;
  pol_invalidate := invalidate
}.
End Hyblru.

(** [setLocation[set]], an [unsigned char] whose upper four bits are the
    position the set currently uses. *)
Definition location (v : Z) : Z := bits u8 v 7 4.

(** The promotion of [HYBDIP] and [IHYBDIP] on a hit: [step] moves a DRAM block
    by the position the set's counter holds. *)
Definition promote (setLocation : list Z) (step : nat -> Z -> CacheSet -> outcome CacheSet)
    (b : nat) (blk : CacheBlk) (t : TagStore) : outcome TagStore :=
  if warmedUp t then
    v ← aget setLocation (Z.to_nat (blk_set blk));
    let location := location v in
    assert! location <? 16;
    if negb (isPcm blk) then updSet (blk_set blk) (step b location) t
    else updSet (blk_set blk) (moveToHead b) t
  else updSet (blk_set blk) (moveToHead b) t.

(** [sets[set].moveToHead(blk)] or [sets[set].insertFixLocation(blk, l)]. *)
Definition place_at (pos : option Z) (b : nat) : CacheSet -> outcome CacheSet :=
  match pos with None => moveToHead b | Some l => insertFixLocation b l end.

Module Hybdip.
Record HYBDIP := MkHYBDIP { hybdip_base : TagStore; setLocation : list Z }.
#[global] Instance HYBDIP_settable : Settable HYBDIP := fun x =>
  MkHYBDIP (hybdip_base x) (setLocation x).

Definition HYBDIP_new (t : TagStore) : HYBDIP :=
  {| hybdip_base := t; setLocation := replicate (numSets (cfg t)) 128%Z |}.

Definition accessBlock (env : Env) (addr : Z) (sec : bool) (c : Command) (port : Z)
    (x : HYBDIP) : outcome (HYBDIP * option nat * Z) :=
  '(t, ob, lat) ← SetAssoc.accessBlock env addr sec (hybdip_base x);
  t ← on_hit (promote (setLocation x) moveNStep) ob t;
  Ok (x <| hybdip_base := t |>, ob, lat).

Definition findVictim (addr : Z) (x : HYBDIP) : outcome nat := lastWay addr (hybdip_base x).

(** The adjustment of the counter on a miss: down on PCM unless below 4, up
    on DRAM unless equal to 0xFC, modulo 256. *)
Definition adjust (ispcm : bool) (v : Z) : Z :=
  (if ispcm then if negb (Z.land v 0xfc =? 0) then u8 (v - 8) else v
  else if negb (Z.lxor v 0xfc =? 0) then u8 (v + 8) else v)%Z.

(** Where a new block goes once the cache is warm; [v] reads the counter of
    the set. *)
Definition insertPosition (assoc : Z) (ispcm writeback : bool) (v : outcome Z)
    : outcome (option Z) :=
  if ispcm then
    if writeback then Ok None else Ok (Some (u32 (assoc - 3)))
  else if writeback then
    v ← v;
    let location := location v in
    assert! location <? assoc;
    Ok (Some (u32 (assoc - location - 1)))
  else Ok (Some (u32 (assoc - 2))).

Definition insertBlock (env : Env) (pkt : Packet) (b : nat) (x : HYBDIP)
    : outcome HYBDIP :=
  t ← SetAssoc.insertBlock env pkt b (hybdip_base x);
  let set := extractSet (cfg t) (pkt_addr pkt) in
  let writeback := bool_decide (cmd pkt = Writeback) in
  blk ← getBlk t b;
  if warmedUp t then
    pos ← insertPosition (Z.of_nat (ways (cfg t))) (isPcm blk) writeback
            (aget (setLocation x) (Z.to_nat (blk_set blk)));
    t ← updSet set (place_at pos b) t;
    if writeback then Ok (x <| hybdip_base := t |>)
    else
      v ← aget (setLocation x) (Z.to_nat set);
      Ok (x <| hybdip_base := t |>
            <| setLocation ::= insert (Z.to_nat set) (adjust (isPcm blk) v) |>)
  else
    t ← updSet set (moveToHead b) t; Ok (x <| hybdip_base := t |>).

Definition invalidate (env : Env) (b : nat) (x : HYBDIP) : outcome HYBDIP :=
  t ← SetAssoc.invalidate env b (hybdip_base x);
  t ← move_own b (moveToTail b) t;
  Ok (x <| hybdip_base := t |>).

#[global] Instance policy : Policy HYBDIP := {
  base := hybdip_base;
  rebase t x := x <| hybdip_base := t |>;
  pol_accessBlock := accessBlock;
  pol_findVictim _ addr x := b ← findVictim addr x; Ok (x, b);
  pol_insertBlock := insertBlock;
  pol_invalidate := invalidate
}.
End Hybdip.

Module Ihybdip.
Record IHYBDIP := MkIHYBDIP { ihybdip_base : TagStore; setLocation : list Z }.
#[global] Instance IHYBDIP_settable : Settable IHYBDIP := fun x =>
  MkIHYBDIP (ihybdip_base x) (setLocation x).

Definition IHYBDIP_new (t : TagStore) : IHYBDIP :=
  {| ihybdip_base := t; setLocation := replicate (numSets (cfg t)) 128%Z |}.

Definition accessBlock (env : Env) (addr : Z) (sec : bool) (c : Command) (port : Z)
    (x : IHYBDIP) : outcome (IHYBDIP * option nat * Z) :=
  '(t, ob, lat) ← SetAssoc.accessBlock env addr sec (ihybdip_base x);
  t ← on_hit (promote (setLocation x) (fun b location =>
        if decide (c <> Writeback) then moveNStep b location
        else moveNStep b (Z.shiftr location 1))) ob t;
  Ok (x <| ihybdip_base := t |>, ob, lat).

Definition findVictim (addr : Z) (x : IHYBDIP) : outcome nat :=
  lastWay addr (ihybdip_base x).

(** As in [Hybdip], in steps of 4. *)
Definition adjust (ispcm : bool) (v : Z) : Z :=
  (if ispcm then if negb (Z.land v 0xfc =? 0) then u8 (v - 4) else v
  else if negb (Z.lxor v 0xfc =? 0) then u8 (v + 4) else v)%Z.

(** Where a new block goes once the cache is warm; [v] reads the counter of
    the set. *)
Definition insertPosition (assoc : Z) (ispcm : bool) (c : Command) (v : outcome Z)
    : outcome (option Z) :=
  if ispcm then
    if bool_decide (c = Writeback) || bool_decide (c = ReadResp) then Ok None
    else
      v ← v;
      let location := location v in
      assert! location <? assoc;
      Ok (Some location)
  else if bool_decide (c = Writeback) then
    v ← v;
    let location := location v in
    assert! location <? assoc;
    Ok (Some (u32 (assoc - location - 1)))
  else Ok (Some (u32 (assoc - 2))).

Definition insertBlock (env : Env) (pkt : Packet) (b : nat) (x : IHYBDIP)
    : outcome IHYBDIP :=
  t ← SetAssoc.insertBlock env pkt b (ihybdip_base x);
  let set := extractSet (cfg t) (pkt_addr pkt) in
  blk ← getBlk t b;
  if warmedUp t then
    pos ← insertPosition (Z.of_nat (ways (cfg t))) (isPcm blk) (cmd pkt)
            (aget (setLocation x) (Z.to_nat (blk_set blk)));
    t ← updSet set (place_at pos b) t;
    v ← aget (setLocation x) (Z.to_nat set);
    Ok (x <| ihybdip_base := t |>
          <| setLocation ::= insert (Z.to_nat set) (adjust (isPcm blk) v) |>)
  else
    t ← updSet set (moveToHead b) t; Ok (x <| ihybdip_base := t |>).

Definition invalidate (env : Env) (b : nat) (x : IHYBDIP) : outcome IHYBDIP :=
  t ← SetAssoc.invalidate env b (ihybdip_base x);
  t ← move_own b (moveToTail b) t;
  Ok (x <| ihybdip_base := t |>).

#[global] Instance policy : Policy IHYBDIP := {
  base := ihybdip_base;
  rebase t x := x <| ihybdip_base := t |>;
  pol_accessBlock := accessBlock;
  pol_findVictim _ addr x := b ← findVictim addr x; Ok (x, b);
  pol_insertBlock := insertBlock;
  pol_invalidate := invalidate
}.
End Ihybdip.

(** ** Laws *)

Lemma location_range v : (0 <= location v < 16)%Z.
Proof. unfold location. rewrite bits_7_4. apply Z.mod_pos_bound. lia. Qed.

(** A position computed in unsigned arithmetic below the number of ways stays
    below it after the conversions to 32 and to 8 bits. *)
Lemma fix_location_ok w b z :
  (0 <= z < Z.of_nat w)%Z -> moves_last w b (insertFixLocation b (u32 z)).
Proof.
  intros Hz. apply insertFixLocation_last. pose proof (wrap_range 32 z).
  pose proof (wrap_le 32 z). pose proof (wrap_le 8 (u32 z)). lia.
Qed.

#[export] Instance HYBLRU_laws : PolicyLaws Hyblru.HYBLRU.
Proof.
  refine {| pol_inv x := 7 < ways (cfg (base x)); pol_master _ := True;
            pol_slot x b := last_way (base x) b |}; try done.
  - intros t x Hx [Ec _]. simpl in *. by rewrite Ec.
  - intros t x b Hl Hf. by eapply frame_last_way.
  - intros env addr sec c m x t' ob lat Hx Hwf _ Ha. cbn. unfold Hyblru.accessBlock.
    open_access Hwf Ha.
    run_step (hit_move t' ob (fun b blk t =>
      if warmedUp t then if negb (isPcm blk) then updSet (blk_set blk) (moveOneStep b) t
                         else updSet (blk_set blk) (moveToHead b) t
      else updSet (blk_set blk) (moveToHead b) t) Hwf' Hb
      ltac:(intros; apply promote_any; eauto with moves)).
    eexists. split_and!; [done|done|]. simpl. by rewrite <- (r_cfg _ _ Hr), Ec.
  - intros env addr x Hx Hwf. victim_is_last Hyblru.hyblru_base addr x Hwf.
  - intros env pkt b x t' Hx Hok Hl Hin Hm _ E. cbn. unfold Hyblru.insertBlock.
    open_insert Hok Hin Hm E. destruct (ji_blk _ _ _ _ _ Hji) as (blk & Hb & _).
    rewrite (getBlk_ok _ _ _ Hb). cbn [mbind outcome_bind].
    assert (exists g, moves_last (ways (cfg (Hyblru.hyblru_base x))) b g /\
      (if warmedUp t' then if isPcm blk then move_in (pkt_addr pkt) (moveToHead b) t'
                           else move_in (pkt_addr pkt) (insertFixLocation b 7) t'
       else move_in (pkt_addr pkt) (moveToHead b) t') = move_in (pkt_addr pkt) g t')
      as (g & Hg & ->).
    { destruct (warmedUp t'), (isPcm blk);
        [exists (moveToHead b)|exists (insertFixLocation b 7)|exists (moveToHead b)..];
        split; eauto with moves.
      apply insertFixLocation_last. change (u8 7) with 7%Z. lia. }
    run_step (move_in_last _ _ _ _ _ Hji g Hl Hg). eexists. split_and!; [done|done|].
    simpl. by rewrite (frame_reorder_cfg _ _ _ (ji_frame _ _ _ _ _ Hji) Hr).
  - intros env b x blk t' Hx Hok Hb Hv E. cbn. unfold Hyblru.invalidate.
    invalidate_to_tail Hok Hb Hv E. eexists. split_and!; [done|done|]. simpl.
    by rewrite (frame_reorder_cfg _ _ _ Hfr Hr).
Defined.

(** The counters: one per set, a byte each. *)
Definition counters_ok (t : TagStore) (v : list Z) : Prop :=
  length v = numSets (cfg t) /\ Forall (fun z => 0 <= z < 256)%Z v.

Lemma counter_get t b blk v :
  tags_wf t -> mem t !! b = Some blk -> counters_ok t v ->
  exists z, aget v (Z.to_nat (blk_set blk)) = Ok z.
Proof.
  intros Hwf Hb [Hl _]. destruct (blk_set_lt _ _ _ Hwf Hb) as (i & -> & Hi).
  rewrite Nat2Z.id. destruct (lookup_lt_is_Some_2 v i) as [z Hz]; [lia|].
  exists z. unfold aget. by rewrite Hz.
Qed.

Lemma counters_frame t t' v : cfg t' = cfg t -> counters_ok t v -> counters_ok t' v.
Proof. intros E. unfold counters_ok. by rewrite E. Qed.

Lemma counters_set t v i z :
  (0 <= z < 256)%Z -> counters_ok t v -> counters_ok t (<[i := z]> v).
Proof.
  intros Hz [Hl Hv]. split; [by rewrite length_insert|]. by apply Forall_insert.
Qed.

Lemma hybdip_adjust_range p v : (0 <= v < 256)%Z -> (0 <= Hybdip.adjust p v < 256)%Z.
Proof.
  intros Hv. unfold Hybdip.adjust. pose proof (wrap_range 8 (v - 8)).
  pose proof (wrap_range 8 (v + 8)). repeat case_match; lia.
Qed.

Lemma ihybdip_adjust_range p v : (0 <= v < 256)%Z -> (0 <= Ihybdip.adjust p v < 256)%Z.
Proof.
  intros Hv. unfold Ihybdip.adjust. pose proof (wrap_range 8 (v - 4)).
  pose proof (wrap_range 8 (v + 4)). repeat case_match; lia.
Qed.

(** What both need to know of a hit. *)
Lemma promote_ok t ob v step :
  tags_wf t -> match ob with Some b => is_Some (mem t !! b) | None => True end ->
  counters_ok t v -> (forall b z, (0 <= z < 16)%Z -> moves_any b (step b z)) ->
  exists t', on_hit (promote v step) ob t = Ok t' /\ reorder t t'.
Proof.
  intros Hwf Hb Hc Hf. destruct ob as [b|]; [|by exists t]. destruct Hb as [blk Hb]. simpl.
  rewrite (getBlk_ok _ _ _ Hb). unfold promote. cbn [mbind outcome_bind].
  destruct (counter_get _ _ _ _ Hwf Hb Hc) as [z ->]. cbn [mbind outcome_bind].
  pose proof (location_range z). rewrite (proj2 (Z.ltb_lt _ _)) by lia.
  destruct (warmedUp t), (isPcm blk); simpl; eapply reorder_any; eauto with moves.
Qed.

Lemma hybdip_position w b p wb z :
  16 <= w -> exists pos, Hybdip.insertPosition (Z.of_nat w) p wb (Ok z) = Ok pos /\
    moves_last w b (place_at pos b).
Proof.
  intros Hw. pose proof (location_range z). unfold Hybdip.insertPosition.
  cbn [mbind outcome_bind]. rewrite (proj2 (Z.ltb_lt _ _)) by lia.
  destruct p, wb; eexists; (split; [done|]); simpl; eauto with moves;
    apply fix_location_ok; lia.
Qed.

Lemma ihybdip_position w b p c z :
  16 <= w -> exists pos, Ihybdip.insertPosition (Z.of_nat w) p c (Ok z) = Ok pos /\
    moves_last w b (place_at pos b).
Proof.
  intros Hw. pose proof (location_range z). unfold Ihybdip.insertPosition.
  cbn [mbind outcome_bind]. rewrite (proj2 (Z.ltb_lt _ _)) by lia.
  assert (moves_last w b (insertFixLocation b (location z))).
  { apply insertFixLocation_last. pose proof (wrap_le 8 (location z)). lia. }
  destruct p; repeat case_match; eexists; (split; [done|]); simpl; eauto with moves;
    apply fix_location_ok; lia.
Qed.

(** The stage after [BaseSetAssoc::insertBlock] for a policy with counters. *)
Lemma counted_insert env pkt b t t' v blk :
  just_inserted env pkt b t t' -> last_way t b -> counters_ok t v -> mem t' !! b = Some blk ->
  counters_ok t' v /\ blk_set blk = extractSet (cfg t') (pkt_addr pkt) /\
  (exists z, aget v (Z.to_nat (blk_set blk)) = Ok z /\ (0 <= z < 256)%Z) /\
  forall f, moves_last (ways (cfg t)) b f -> exists t'',
    updSet (extractSet (cfg t') (pkt_addr pkt)) f t' = Ok t'' /\ reorder t' t'' /\
    cfg t'' = cfg t.
Proof.
  intros Hji Hl Hc Hb. pose proof (ji_frame _ _ _ _ _ Hji) as Hfr.
  pose proof (ok_wf _ _ (ji_ok _ _ _ _ _ Hji)) as Hwf'.
  assert (Hc' : counters_ok t' v) by (eapply counters_frame; [apply Hfr|done]).
  split; [done|]. split; [|split].
  - destruct (ji_in _ _ _ _ _ Hji) as (blk' & Hb' & <-). congruence.
  - destruct (counter_get _ _ _ _ Hwf' Hb Hc') as [z Ez]. exists z. split; [done|].
    unfold aget in Ez. destruct (v !! _) as [z'|] eqn:El; [|done]. injection Ez as <-.
    by apply (Forall_lookup_1 _ _ _ _ (proj2 Hc) El).
  - intros f Hf. destruct (move_in_last _ _ _ _ _ Hji f Hl Hf) as (t'' & E & Hr).
    exists t''. split_and!; [done|done|]. by eapply frame_reorder_cfg.
Qed.

Lemma counters_put t t'' v i z :
  cfg t'' = cfg t -> counters_ok t v -> (0 <= z < 256)%Z -> counters_ok t'' (<[i := z]> v).
Proof. intros E Hc Hz. eapply counters_frame; [done|]. by apply counters_set. Qed.

#[export] Instance HYBDIP_laws : PolicyLaws Hybdip.HYBDIP.
Proof.
  refine {| pol_inv x := 16 <= ways (cfg (base x)) /\
                         counters_ok (base x) (Hybdip.setLocation x);
            pol_master _ := True; pol_slot x b := last_way (base x) b |}; try done.
  - intros t x [Hw Hc] [Ec _]. simpl in *. rewrite Ec. split; [done|].
    by eapply counters_frame.
  - intros t x b Hl Hf. by eapply frame_last_way.
  - intros env addr sec c m x t' ob lat [Hw Hc] Hwf _ Ha. cbn. unfold Hybdip.accessBlock.
    open_access Hwf Ha.
    run_step (promote_ok t' ob (Hybdip.setLocation x) moveNStep Hwf' Hb
      (counters_frame _ _ _ Ec Hc) ltac:(intros; apply moveNStep_any; lia)).
    assert (Ec' : cfg t = cfg (Hybdip.hybdip_base x)) by (by rewrite <- (r_cfg _ _ Hr)).
    eexists. split; [done|]. split; [done|]. simpl. rewrite Ec'. split; [done|].
    by eapply counters_frame.
  - intros env addr x Hx Hwf. victim_is_last Hybdip.hybdip_base addr x Hwf.
  - intros env pkt b x t' [Hw Hc] Hok Hl Hin Hm _ E. cbn. unfold Hybdip.insertBlock.
    open_insert Hok Hin Hm E. destruct (ji_blk _ _ _ _ _ Hji) as (blk & Hb & _).
    destruct (counted_insert _ _ _ _ _ _ _ Hji Hl Hc Hb) as (_ & Hset & (z & Ez & Hz) & Hmove).
    rewrite (getBlk_ok _ _ _ Hb), (last_way_frame_cfg _ _ (ji_frame _ _ _ _ _ Hji)), <- Hset.
    rewrite <- Hset in Hmove. cbn [mbind outcome_bind]. rewrite !Ez.
    destruct (warmedUp t').
    + destruct (hybdip_position _ b (isPcm blk) (bool_decide (cmd pkt = Writeback)) z Hw)
        as (pos & -> & Hpos). cbn [mbind outcome_bind].
      destruct (Hmove _ Hpos) as (t'' & -> & Hr & Ec). cbn [mbind outcome_bind].
      case_match; eexists; (split; [done|]); (split; [done|]); simpl; rewrite Ec;
        (split; [done|]); [by eapply counters_frame|].
      eapply counters_put; [done|done|by apply hybdip_adjust_range].
    + destruct (Hmove (moveToHead b) ltac:(eauto with moves)) as (t'' & -> & Hr & Ec).
      eexists. split; [done|]. split; [done|]. simpl. rewrite Ec. split; [done|].
      by eapply counters_frame.
  - intros env b x blk t' [Hw Hc] Hok Hb Hv E. cbn. unfold Hybdip.invalidate.
    invalidate_to_tail Hok Hb Hv E. pose proof (frame_reorder_cfg _ _ _ Hfr Hr) as Ec.
    eexists. split; [done|]. split; [done|]. simpl. rewrite Ec. split; [done|].
    by eapply counters_frame.
Defined.

#[export] Instance IHYBDIP_laws : PolicyLaws Ihybdip.IHYBDIP.
Proof.
  refine {| pol_inv x := 16 <= ways (cfg (base x)) /\
                         counters_ok (base x) (Ihybdip.setLocation x);
            pol_master _ := True; pol_slot x b := last_way (base x) b |}; try done.
  - intros t x [Hw Hc] [Ec _]. simpl in *. rewrite Ec. split; [done|].
    by eapply counters_frame.
  - intros t x b Hl Hf. by eapply frame_last_way.
  - intros env addr sec c m x t' ob lat [Hw Hc] Hwf _ Ha. cbn. unfold Ihybdip.accessBlock.
    open_access Hwf Ha.
    run_step (promote_ok t' ob (Ihybdip.setLocation x) (fun b location =>
      if decide (c <> Writeback) then moveNStep b location
      else moveNStep b (Z.shiftr location 1)) Hwf' Hb (counters_frame _ _ _ Ec Hc)
      ltac:(intros; cbn beta; case_decide; apply moveNStep_any; [lia|apply Z.shiftr_nonneg; lia])).
    assert (Ec' : cfg t = cfg (Ihybdip.ihybdip_base x)) by (by rewrite <- (r_cfg _ _ Hr)).
    eexists. split; [done|]. split; [done|]. simpl. rewrite Ec'. split; [done|].
    by eapply counters_frame.
  - intros env addr x Hx Hwf. victim_is_last Ihybdip.ihybdip_base addr x Hwf.
  - intros env pkt b x t' [Hw Hc] Hok Hl Hin Hm _ E. cbn. unfold Ihybdip.insertBlock.
    open_insert Hok Hin Hm E. destruct (ji_blk _ _ _ _ _ Hji) as (blk & Hb & _).
    destruct (counted_insert _ _ _ _ _ _ _ Hji Hl Hc Hb) as (_ & Hset & (z & Ez & Hz) & Hmove).
    rewrite (getBlk_ok _ _ _ Hb), (last_way_frame_cfg _ _ (ji_frame _ _ _ _ _ Hji)), <- Hset.
    rewrite <- Hset in Hmove. cbn [mbind outcome_bind]. rewrite !Ez.
    destruct (warmedUp t').
    + destruct (ihybdip_position _ b (isPcm blk) (cmd pkt) z Hw) as (pos & -> & Hpos).
      cbn [mbind outcome_bind].
      destruct (Hmove _ Hpos) as (t'' & -> & Hr & Ec). cbn [mbind outcome_bind].
      eexists. split; [done|]. split; [done|]. simpl. rewrite Ec. split; [done|].
      eapply counters_put; [done|done|by apply ihybdip_adjust_range].
    + destruct (Hmove (moveToHead b) ltac:(eauto with moves)) as (t'' & -> & Hr & Ec).
      eexists. split; [done|]. split; [done|]. simpl. rewrite Ec. split; [done|].
      by eapply counters_frame.
  - intros env b x blk t' [Hw Hc] Hok Hb Hv E. cbn. unfold Ihybdip.invalidate.
    invalidate_to_tail Hok Hb Hv E. pose proof (frame_reorder_cfg _ _ _ Hfr Hr) as Ec.
    eexists. split; [done|]. split; [done|]. simpl. rewrite Ec. split; [done|].
    by eapply counters_frame.
Defined.

(** ** The counters of the duelling policies *)

Definition counter_in (step top : Z) (v : Z) : Prop := (0 <= v <= top /\ (step | v))%Z.

Lemma land_fc v : (0 <= v < 256)%Z -> (4 | v)%Z -> Z.land v 0xfc = v.
Proof.
  intros Hv [k ->]. assert (exists n, k = Z.of_nat n /\ n < 64) as (n & -> & Hn)
    by (exists (Z.to_nat k); lia).
  do 64 (destruct n as [|n]; [reflexivity|]). lia.
Qed.

(** The moves of the two counters, on multiples of their step. *)
Lemma ihybdip_adjust_saturates p v :
  counter_in 4 252 v ->
  Ihybdip.adjust p v = (if p then Z.max 0 (v - 4) else Z.min 252 (v + 4))%Z /\
  counter_in 4 252 (Ihybdip.adjust p v).
Proof.
  intros [Hv Hd].
  assert (Ha : Ihybdip.adjust p v = (if p then Z.max 0 (v - 4) else Z.min 252 (v + 4))%Z).
  { unfold Ihybdip.adjust. rewrite (land_fc v) by (done || lia). destruct Hd as [k ->].
    destruct p.
    - destruct (Z.eqb_spec (k * 4) 0); simpl; [lia|]. rewrite wrap_small by lia. lia.
    - destruct (Z.eqb_spec (Z.lxor (k * 4) 252) 0) as [E0|E0]; simpl.
      + apply Z.lxor_eq in E0. lia.
      + assert (k * 4 <> 252)%Z by (intros E1; by rewrite E1 in E0).
        rewrite wrap_small by lia. lia. }
  split; [done|]. rewrite Ha. destruct Hd as [k ->]. destruct p; split; try lia.
  - destruct (Z.max_spec 0 (k * 4 - 4)) as [[? ->]|[? ->]]; [exists (k - 1)%Z; lia|by exists 0%Z].
  - destruct (Z.min_spec 252 (k * 4 + 4)) as [[? ->]|[? ->]]; [by exists 63%Z|exists (k + 1)%Z; lia].
Qed.

Lemma hybdip_adjust_wraps p v :
  counter_in 8 248 v ->
  Hybdip.adjust p v = (if p then Z.max 0 (v - 8) else (v + 8) mod 256)%Z /\
  counter_in 8 248 (Hybdip.adjust p v).
Proof.
  intros [Hv [k ->]].
  assert (Ha : Hybdip.adjust p (k * 8) = (if p then Z.max 0 (k * 8 - 8) else (k * 8 + 8) mod 256)%Z).
  { unfold Hybdip.adjust. rewrite (land_fc (k * 8)) by (try (exists (2 * k)%Z); lia).
    destruct p.
    - destruct (Z.eqb_spec (k * 8) 0); simpl; [lia|]. rewrite wrap_small by lia. lia.
    - destruct (Z.eqb_spec (Z.lxor (k * 8) 252) 0) as [E0|E0]; simpl; [|done].
      apply Z.lxor_eq in E0. lia. }
  split; [done|]. rewrite Ha. destruct p.
  - split; [lia|].
    destruct (Z.max_spec 0 (k * 8 - 8)) as [[? ->]|[? ->]]; [exists (k - 1)%Z; lia|by exists 0%Z].
  - destruct (Z.eq_dec k 31%Z) as [->|]; [by split; [|exists 0%Z]|].
    rewrite Z.mod_small by lia. split; [lia|]. exists (k + 1)%Z. lia.
Qed.

(** The per-set counter of IHYBDIP is a saturating counter: from the value
    the constructor gives it ([0x80]) it stays a multiple of 4 between 0 and
    0xFC, and a warm insertion moves it by 4, down for a PCM block and up for
    a DRAM block, stopping at both ends. *)
Theorem ihybdip_counter_saturates (env : Env) (pkt : Packet) (b : nat) (x x' : Ihybdip.IHYBDIP) :
  Forall (counter_in 4 252) (Ihybdip.setLocation x) ->
  Ihybdip.insertBlock env pkt b x = Ok x' ->
  Forall (counter_in 4 252) (Ihybdip.setLocation x') /\
  exists t blk, insertBlock env pkt b (Ihybdip.ihybdip_base x) = Ok t /\ mem t !! b = Some blk /\
    let set := Z.to_nat (extractSet (cfg t) (pkt_addr pkt)) in
    if warmedUp t then exists v, Ihybdip.setLocation x !! set = Some v /\
      Ihybdip.setLocation x' =
        <[set := if isPcm blk then Z.max 0 (v - 4) else Z.min 252 (v + 4)]> (Ihybdip.setLocation x)
    else Ihybdip.setLocation x' = Ihybdip.setLocation x.
Proof.
  intros Hx E. unfold Ihybdip.insertBlock in E. run_in E. rename r into t, r0 into blk.
  apply aget_Ok in E1. destruct (warmedUp t) eqn:Hw; run_in E.
  - apply aget_Ok in E4. rename r1 into v. simpl.
    destruct (ihybdip_adjust_saturates (isPcm blk) v) as [Ev Ha];
      [by apply (Forall_lookup_1 _ _ _ _ Hx E4)|].
    split; [by apply Forall_insert|]. exists t, blk. rewrite Hw. split_and!; [done|done|].
    exists v. by rewrite Ev.
  - split; [done|]. exists t, blk. by rewrite Hw.
Qed.

(** C39. The per-set counter of HYBDIP saturates below but not above: it steps
    by 8 and tests for 0xFC, which is no multiple of 8, so a DRAM insertion at
    248 wraps it to 0 and swings the policy to the opposite end. *)
Theorem hybdip_counter_wraps (env : Env) (pkt : Packet) (b : nat) (x x' : Hybdip.HYBDIP) :
  Forall (counter_in 8 248) (Hybdip.setLocation x) ->
  Hybdip.insertBlock env pkt b x = Ok x' ->
  Forall (counter_in 8 248) (Hybdip.setLocation x') /\
  exists t blk, insertBlock env pkt b (Hybdip.hybdip_base x) = Ok t /\ mem t !! b = Some blk /\
    let set := Z.to_nat (extractSet (cfg t) (pkt_addr pkt)) in
    if warmedUp t && bool_decide (cmd pkt <> Writeback) then
      exists v, Hybdip.setLocation x !! set = Some v /\
        Hybdip.setLocation x' =
          <[set := if isPcm blk then Z.max 0 (v - 8) else ((v + 8) mod 256)%Z]> (Hybdip.setLocation x)
    else Hybdip.setLocation x' = Hybdip.setLocation x.
Proof.
  intros Hx E. unfold Hybdip.insertBlock in E. run_in E. rename r into t, r0 into blk.
  apply aget_Ok in E1. destruct (warmedUp t) eqn:Hw; run_in E.
  - destruct (bool_decide (cmd pkt = Writeback)) eqn:Hc; run_in E.
    + split; [done|]. exists t, blk. rewrite Hw. apply bool_decide_eq_true in Hc.
      by rewrite bool_decide_false by (intros ?; done).
    + apply aget_Ok in E4. rename r1 into v. simpl. apply bool_decide_eq_false in Hc.
      destruct (hybdip_adjust_wraps (isPcm blk) v) as [Ev Ha];
        [by apply (Forall_lookup_1 _ _ _ _ Hx E4)|].
      split; [by apply Forall_insert|]. exists t, blk.
      rewrite Hw, bool_decide_true by done. split_and!; [done|done|]. exists v. by rewrite Ev.
  - split; [done|]. exists t, blk. by rewrite Hw.
Qed.

(** A warm store, and a DRAM insertion into way 1 of its set 0. *)
Definition warm_tags : TagStore := (init_tags tiny_cfg 16) <| warmedUp := true |>.
Definition dram_fill : Packet := MkPacket ReadResp 512 false (MkRequest 512 4 7 0 0 0).
Definition hybrid_env : Env := MkEnv 1000 10 16 512.

Lemma ihybdip_counter_saturates_witness :
  exists x', Ihybdip.insertBlock hybrid_env dram_fill 1 (Ihybdip.IHYBDIP_new warm_tags) = Ok x' /\
    Forall (counter_in 4 252) (Ihybdip.setLocation x').
Proof.
  eexists. split; [vm_compute; reflexivity|].
  refine (proj1 (ihybdip_counter_saturates hybrid_env dram_fill 1 (Ihybdip.IHYBDIP_new warm_tags) _ _ _)).
  - repeat constructor; try (vm_compute; congruence); by exists 32%Z.
  - vm_compute. reflexivity.
Defined.

(** The same with the counter of the set at 248: it becomes 0. *)
Lemma hybdip_counter_wraps_witness :
  exists x', Hybdip.insertBlock hybrid_env dram_fill 1 (Hybdip.MkHYBDIP warm_tags [248; 128])%Z = Ok x' /\
    Forall (counter_in 8 248) (Hybdip.setLocation x') /\ Hybdip.setLocation x' = [0; 128]%Z.
Proof.
  eexists. split; [vm_compute; reflexivity|]. split; [|reflexivity].
  refine (proj1 (hybdip_counter_wraps hybrid_env dram_fill 1 (Hybdip.MkHYBDIP warm_tags [248; 128])%Z _ _ _)).
  - repeat constructor; try (vm_compute; congruence); [by exists 31%Z|by exists 16%Z].
  - vm_compute. reflexivity.
Defined.
