(* ===== verification/Rrip.v ===== *)
(** The re-reference interval policy for hybrid memory, [HYBRRIP]
    ([hybrrip.cc]): an 8-bit prediction [rrpv] per block, victims found by
    ageing the whole set until some block reaches [assoc - 1]. *)
From S2P Require Import Prelude IntMath MemTypes Blk CacheSet SetAssoc Tags Policy.

#[local] Open Scope nat_scope.

(** ** Definitions *)

Module Hybrrip.
Record HYBRRIP := MkHYBRRIP { hybrrip_base : TagStore }.

(** The inner part of the loop of [findVictim]: the first way whose [rrpv] is
    [assoc - 1]. *)
Fixpoint scan (mem : list CacheBlk) (top : Z) (bs : list nat) : outcome (option nat) :=
  match bs with
  | [] => Ok None
  | b :: bs' =>
      blk ← aget mem b;
      if (rrpv blk =? top)%Z then Ok (Some b) else scan mem top bs'
  end.

(** [for (i = 0; i < assoc; i++) (sets[set].blks[i]->rrpv)++]. *)
Fixpoint age (mem : list CacheBlk) (bs : list nat) : outcome (list CacheBlk) :=
  match bs with
  | [] => Ok mem
  | b :: bs' =>
      blk ← aget mem b;
      age (<[b := blk <| rrpv ::= fun r => u8 (r + 1)%Z |>]> mem) bs'
  end.

(** [while (!found)]; each round of the fuel is one scan of the set.  The
    block found, and the array with the [rrpv]s as the loop leaves them. *)
Fixpoint victim_loop (fuel : nat) (top : Z) (bs : list nat) (mem : list CacheBlk)
    : outcome (list CacheBlk * nat) :=
  match fuel with
  | O => Err Diverge
  | S fuel =>
      r ← scan mem top bs;
      match r with
      | Some b => Ok (mem, b)
      | None => mem ← age mem bs; victim_loop fuel top bs mem
      end
  end.

(** [rrpv] has 256 values and one more round makes it a byte if it was not:
    257 rounds are enough whenever any number is. *)
Definition rounds : nat := 257.

Definition findVictim (addr : Z) (x : HYBRRIP) : outcome (HYBRRIP * nat) :=
  let t := hybrrip_base x in
  s ← getSet t (extractSet (cfg t) addr);
  '(m, b) ← victim_loop rounds (Z.of_nat (ways (cfg t)) - 1)
              (take (ways (cfg t)) (blks s)) (mem t);
  Ok (MkHYBRRIP (t <| mem := m |>), b).

Definition accessBlock (env : Env) (addr : Z) (sec : bool) (c : Command) (port : Z)
    (x : HYBRRIP) : outcome (HYBRRIP * option nat * Z) :=
  '(t, ob, lat) ← SetAssoc.accessBlock env addr sec (hybrrip_base x);
  t ← on_hit (fun b blk t =>
        let assoc := Z.of_nat (ways (cfg t)) in
        updBlk b (fun bl => bl <| rrpv :=
          (if warmedUp t then if isPcm blk then 0 else u8 (assoc / 2) else 0)%Z |>) t) ob t;
  Ok (MkHYBRRIP t, ob, lat).

Definition insertBlock (env : Env) (pkt : Packet) (b : nat) (x : HYBRRIP)
    : outcome HYBRRIP :=
  t ← SetAssoc.insertBlock env pkt b (hybrrip_base x);
  blk ← getBlk t b;
  let assoc := Z.of_nat (ways (cfg t)) in
  t ← updBlk b (fun bl => bl <| rrpv :=
        (if warmedUp t then
           if isPcm blk then 0
           else if bool_decide (cmd pkt = Writeback) then u8 (assoc / 2)
           else u8 (u32 (assoc - 2))
         else 0)%Z |>) t;
  Ok (MkHYBRRIP t).

Definition invalidate (env : Env) (b : nat) (x : HYBRRIP) : outcome HYBRRIP :=
  t ← SetAssoc.invalidate env b (hybrrip_base x);
  t ← updBlk b (fun bl => bl <| rrpv := u8 (Z.of_nat (ways (cfg t)) - 1)%Z |>) t;
  Ok (MkHYBRRIP t).

#[global] Instance policy : Policy HYBRRIP := {
  base := hybrrip_base;
  rebase t _ := MkHYBRRIP t;
  pol_accessBlock := accessBlock;
  pol_findVictim _ := findVictim;
  pol_insertBlock := insertBlock;
  pol_invalidate := invalidate
}.

(** The array after [k] rounds of ageing. *)
Definition aged (k : nat) (bs : list nat) (mem : list CacheBlk) : list CacheBlk :=
  imap (fun i blk => if decide (0 < k /\ i ∈ bs)
                     then blk <| rrpv ::= fun r => u8 (r + Z.of_nat k)%Z |> else blk) mem.

(** How many rounds away from [top] a block is. *)
Definition distance (top : Z) (blk : CacheBlk) : nat := Z.to_nat (u8 (top - rrpv blk)).
End Hybrrip.

(** ** The ageing loop *)

Lemma age_aged m l :
  NoDup l -> (forall b, b ∈ l -> is_Some (m !! b)) -> Hybrrip.age m l = Ok (Hybrrip.aged 1 l m).
Proof.
  unfold Hybrrip.aged. revert m. induction l as [|b l IH]; intros m Hnd Hm; simpl Hybrrip.age.
  - f_equal. apply list_eq. intros i. rewrite list_lookup_imap.
    destruct (m !! i); [|done]. cbn [fmap option_fmap option_map].
    rewrite decide_False; [done|]. set_solver.
  - apply NoDup_cons in Hnd as [Hb Hl]. destruct (Hm b ltac:(set_solver)) as [blk Hblk].
    unfold aget. rewrite Hblk. cbn [mbind outcome_bind]. rewrite IH; [|done|].
    2: { intros d Hd. destruct (decide (d = b)) as [->|]; [done|].
         rewrite list_lookup_insert_ne by done. apply Hm. set_solver. }
    f_equal. apply list_eq. intros i. rewrite !list_lookup_imap.
    destruct (decide (i = b)) as [->|Hne].
    + rewrite list_lookup_insert_eq by (by eapply lookup_lt_Some). rewrite Hblk.
      cbn [fmap option_fmap option_map].
      rewrite decide_False by tauto. rewrite decide_True by (split; [lia|set_solver]). done.
    + rewrite list_lookup_insert_ne by done. destruct (m !! i); [|done].
      cbn [fmap option_fmap option_map]. f_equal.
      destruct (decide (i ∈ l)); [rewrite !decide_True by set_solver; done|].
      rewrite !decide_False by set_solver. done.
Qed.

Lemma scan_spec top m l :
  (forall b, b ∈ l -> is_Some (m !! b)) ->
  match Hybrrip.scan m top l with
  | Ok (Some b) => exists p q blk, l = p ++ b :: q /\ m !! b = Some blk /\ rrpv blk = top /\
      forall d blkd, d ∈ p -> m !! d = Some blkd -> rrpv blkd <> top
  | Ok None => forall d blkd, d ∈ l -> m !! d = Some blkd -> rrpv blkd <> top
  | Err _ => False
  end.
Proof.
  induction l as [|b l IH]; intros Hm; simpl; [set_solver|].
  destruct (Hm b ltac:(set_solver)) as [blk Hb]. unfold aget. rewrite Hb.
  cbn [mbind outcome_bind]. destruct (Z.eqb_spec (rrpv blk) top) as [E|E].
  - exists [], l, blk. set_solver.
  - specialize (IH ltac:(set_solver)). destruct (Hybrrip.scan m top l) as [[d|]|]; [| |done].
    + destruct IH as (p & q & blkd & -> & Hd & Er & Hp). exists (b :: p), q, blkd.
      split_and!; try done. intros e blke [->|He]%elem_of_cons; [congruence|eauto].
    + intros e blke [->|He]%elem_of_cons; [congruence|eauto].
Qed.

Section ageing.
Import Hybrrip.
Context (bs : list nat) (Hnd : NoDup bs).

Lemma aged_0 m : aged 0 bs m = m.
Proof.
  unfold aged. apply list_eq. intros i. rewrite list_lookup_imap.
  destruct (m !! i); [|done]. cbn [fmap option_fmap option_map].
  rewrite decide_False by lia. done.
Qed.

Lemma aged_eqv k m : Forall2 blk_eqv m (aged k bs m).
Proof.
  apply Forall2_same_length_lookup. split; [unfold aged; by rewrite length_imap|].
  intros i x y Hx. unfold aged. rewrite list_lookup_imap, Hx.
  cbn [fmap option_fmap option_map]. intros [= <-].
  by case_decide.
Qed.

Lemma aged_lookup k m b blk :
  m !! b = Some blk -> b ∈ bs ->
  aged k bs m !! b = Some (if decide (0 < k) then blk <| rrpv ::= fun r => u8 (r + Z.of_nat k)%Z |>
                           else blk).
Proof.
  intros Hb Hin. unfold aged. rewrite list_lookup_imap, Hb.
  cbn [fmap option_fmap option_map].
  f_equal. repeat case_decide; tauto || done.
Qed.

Lemma aged_S k m : aged k bs (aged 1 bs m) = aged (S k) bs m.
Proof.
  unfold aged. apply list_eq. intros i. rewrite !list_lookup_imap.
  destruct (m !! i) as [blk|]; [|done]. cbn [fmap option_fmap option_map]. f_equal.
  destruct (decide (i ∈ bs)) as [Hi|Hi].
  - rewrite (decide_True (P := 0 < 1 /\ i ∈ bs)), (decide_True (P := 0 < S k /\ i ∈ bs))
      by (split; [lia|done]).
    destruct k as [|k]; [by rewrite decide_False by lia|].
    rewrite decide_True by (split; [lia|done]). destruct blk. simpl. f_equal. unfold wrap.
    rewrite Zplus_mod_idemp_l. f_equal. lia.
  - by rewrite !decide_False by tauto.
Qed.

Context (top : Z) (Htop : (0 <= top < 256)%Z).

Lemma distance_0 blk : (0 <= rrpv blk < 256)%Z -> distance top blk = 0 <-> rrpv blk = top.
Proof.
  intros Hr. unfold distance. split; [|intros ->; by rewrite Z.sub_diag].
  intros E. unfold wrap in E. change (2 ^ 8)%Z with 256%Z in E.
  pose proof (Z.mod_pos_bound (top - rrpv blk) 256).
  assert (E' : ((top - rrpv blk) mod 256 = 0)%Z) by lia.
  apply Z.mod_divide in E' as [q Hq]; lia.
Qed.

Lemma distance_aged blk :
  distance top blk <> 0 ->
  S (distance top (blk <| rrpv := u8 (rrpv blk + 1) |>)) = distance top blk.
Proof.
  intros Hd. unfold distance in *. simpl. unfold wrap in *.
  change (2 ^ 8)%Z with 256%Z in *.
  pose proof (Z.mod_pos_bound (top - rrpv blk) 256). 
  rewrite Zminus_mod_idemp_r.
  replace (top - (rrpv blk + 1))%Z with (top - rrpv blk - 1)%Z by lia.
  rewrite <- Zminus_mod_idemp_l.
  rewrite (Z.mod_small ((top - rrpv blk) mod 256 - 1)) by lia. lia.
Qed.

(** What [findVictim] computes when every [rrpv] is a byte: the first block
    nearest to [top], with the set aged by its distance. *)
Lemma victim_loop_nearest k fuel m p b q blk :
  bs = p ++ b :: q -> m !! b = Some blk ->
  (forall d, d ∈ bs -> exists blkd, m !! d = Some blkd /\ (0 <= rrpv blkd < 256)%Z /\
     k <= distance top blkd /\ (d ∈ p -> k < distance top blkd)) ->
  distance top blk = k -> k < fuel ->
  victim_loop fuel top bs m = Ok (aged k bs m, b).
Proof.
  intros Ebs. revert fuel m blk. induction k as [|k IH]; intros fuel m blk Hb Hall Hk Hf;
    destruct fuel as [|fuel]; try lia; cbn [victim_loop].
  - assert (Hm : forall d, d ∈ bs -> is_Some (m !! d)) by naive_solver.
    pose proof (scan_spec top m bs Hm) as Hs.
    assert (Hbin : b ∈ bs) by set_solver.
    destruct (Hall b Hbin) as (blk' & Hb' & Hr & _). rewrite Hb in Hb'. injection Hb' as <-.
    apply distance_0 in Hk; [|done].
    destruct (scan m top bs) as [[d|]|]; [| |done].
    + destruct Hs as (p' & q' & blkd & E & Hd & Er & Hp'). cbn [mbind outcome_bind].
      rewrite aged_0. do 2 f_equal.
      rewrite Ebs in E. destruct (decide (d = b)) as [|Hne]; [done|exfalso].
      assert (d ∈ p \/ b ∈ p') as [Hin|Hin].
      { clear -E Hne. revert p' E. induction p as [|x p IH]; intros [|y p'] E; simpl in E.
        - congruence.
        - right. injection E as -> _. set_solver.
        - left. injection E as -> _. set_solver.
        - injection E as <- E. destruct (IH p' E); set_solver. }
      * destruct (Hall d ltac:(set_solver)) as (blkd' & Hd' & Hrd & _ & Hlt).
        rewrite Hd in Hd'. injection Hd' as <-. specialize (Hlt Hin).
        apply (distance_0 blkd Hrd) in Er. lia.
      * by eapply Hp'.
    + exfalso. by eapply Hs.
  - assert (Hm : forall d, d ∈ bs -> is_Some (m !! d)) by naive_solver.
    pose proof (scan_spec top m bs Hm) as Hs.
    assert (Hnone : scan m top bs = Ok None).
    { destruct (scan m top bs) as [[d|]|]; [exfalso| done|done].
      destruct Hs as (p' & q' & blkd & E & Hd & Er & _).
      assert (Hdin : d ∈ bs) by (rewrite E, elem_of_app, elem_of_cons; tauto).
      destruct (Hall d Hdin) as (blkd' & Hd' & Hrd & Hle & _).
      rewrite Hd in Hd'. injection Hd' as <-. apply (distance_0 blkd Hrd) in Er. lia. }
    rewrite Hnone. cbn [mbind outcome_bind]. rewrite age_aged by done. cbn [mbind outcome_bind].
    assert (Haged : forall d blkd, d ∈ bs -> m !! d = Some blkd ->
      aged 1 bs m !! d = Some (blkd <| rrpv := u8 (rrpv blkd + 1) |>)).
    { intros d blkd Hd Hl. by rewrite (aged_lookup 1 m d blkd Hl Hd). }
    rewrite (IH fuel (aged 1 bs m) (blk <| rrpv := u8 (rrpv blk + 1) |>)).
    + by rewrite aged_S.
    + apply Haged; [set_solver|done].
    + intros d Hd. destruct (Hall d Hd) as (blkd & Hl & Hr & Hle & Hlt).
      eexists. split; [by apply Haged|].
      pose proof (wrap_range 8 (rrpv blkd + 1)).
      pose proof (distance_aged blkd ltac:(lia)). simpl rrpv.
      split; [|split; [lia|intros Hp; specialize (Hlt Hp); lia]].
      change (2 ^ 8)%Z with 256%Z in *. lia.
    + pose proof (distance_aged blk ltac:(lia)). lia.
    + lia.
Qed.

(** The loop always ends with a block of the set. *)
Lemma victim_loop_bytes m :
  bs <> [] ->
  (forall d, d ∈ bs -> exists blkd, m !! d = Some blkd /\ (0 <= rrpv blkd < 256)%Z) ->
  exists k b, b ∈ bs /\ forall fuel, 256 <= fuel ->
    victim_loop fuel top bs m = Ok (aged k bs m, b).
Proof.
  intros Hne Hm.
  set (f b := match m !! b with Some blk => distance top blk | None => 0 end).
  destruct (first_min f bs Hne) as (p & b & q & E & Hmin & Hp).
  destruct (Hm b ltac:(set_solver)) as (blk & Hb & Hr).
  assert (Hfb : f b = distance top blk) by (unfold f; by rewrite Hb).
  exists (f b), b. split; [set_solver|]. intros fuel Hf.
  apply (victim_loop_nearest (f b) fuel m p b q blk); try done.
  - intros d Hd. destruct (Hm d Hd) as (blkd & Hl & Hrd). exists blkd.
    assert (Hfd : f d = distance top blkd) by (unfold f; by rewrite Hl).
    split_and!; [done|lia|lia| |].
    + specialize (Hmin d Hd). lia.
    + intros Hdp. specialize (Hp d Hdp). lia.
  - rewrite Hfb. unfold distance. pose proof (wrap_range 8 (top - rrpv blk)).
    change (2 ^ 8)%Z with 256%Z in *. lia.
Qed.

Lemma victim_loop_total m fuel :
  257 <= fuel -> bs <> [] -> (forall d, d ∈ bs -> is_Some (m !! d)) ->
  exists k b, b ∈ bs /\ victim_loop fuel top bs m = Ok (aged k bs m, b).
Proof.
  intros Hf Hne Hm. pose proof (scan_spec top m bs Hm) as Hs.
  destruct fuel as [|fuel]; [lia|]. cbn [victim_loop].
  destruct (scan m top bs) as [[b|]|]; [| |done].
  - exists 0, b. cbn [mbind outcome_bind]. rewrite aged_0. split; [|done].
    destruct Hs as (p & q & blk & -> & _). set_solver.
  - cbn [mbind outcome_bind]. rewrite age_aged by done. cbn [mbind outcome_bind].
    destruct (victim_loop_bytes (aged 1 bs m) Hne) as (k & b & Hb & E).
    + intros d Hd. destruct (Hm d Hd) as [blk Hblk]. eexists.
      split; [by apply aged_lookup|]. rewrite decide_True by lia.
      apply (wrap_range 8). lia.
    + exists (S k), b. split; [done|]. rewrite <- (aged_S k). apply E. lia.
Qed.
End ageing.

(** ** Laws *)

Lemma updBlk_rrpv t b blk f :
  mem t !! b = Some blk -> blk_eqv blk (f blk) ->
  exists t', updBlk b f t = Ok t' /\ reorder t t'.
Proof.
  intros Hb Hf. rewrite (updBlk_ok _ _ _ _ Hb). eexists. split; [done|].
  split; simpl; try done; try reflexivity.
  rewrite <- (list_insert_id (mem t) b blk Hb) at 1. by apply Forall2_insert.
Qed.

(** The policy's own write to a block, found in the goal. *)
Ltac write_rrpv Hb :=
  match goal with
  | |- context [updBlk ?b ?f ?t] => run_step (updBlk_rrpv t b _ f Hb eq_refl)
  end.

#[export] Instance HYBRRIP_laws : PolicyLaws Hybrrip.HYBRRIP.
Proof.
  refine {| pol_inv x := ways (cfg (base x)) <= 256; pol_master _ := True;
            pol_slot x b := True |}; try done.
  - intros t x Hx [Ec _]. simpl in *. by rewrite Ec.
  - intros env addr sec c m x t' ob lat Hx Hwf _ Ha. cbn. unfold Hybrrip.accessBlock.
    open_access Hwf Ha. destruct ob as [b|]; [|eexists; split; [done|]; simpl; by rewrite Ec].
    destruct Hb as [blk Hb]. simpl. rewrite (getBlk_ok _ _ _ Hb). cbn [mbind outcome_bind].
    write_rrpv Hb.
    eexists. split; [done|]. split; [done|]. simpl. by rewrite <- (r_cfg _ _ Hr), Ec.
  - intros env addr x Hx Hwf. cbn [pol_findVictim base Hybrrip.policy] in *.
    unfold Hybrrip.findVictim.
    set (t := Hybrrip.hybrrip_base x) in *.
    destruct (extractSet_nat _ addr Hwf) as (i & E & Hi).
    destruct (tags_set _ i Hwf Hi) as (s & Hs & (Hl & Hnd & Ha) & Hw & _).
    rewrite E, (getSet_ok _ _ _ Hs). cbn [mbind outcome_bind]. rewrite take_ge by lia.
    assert (Hin : forall b, b ∈ blks s -> in_set_of t addr b).
    { intros b (blk & ? & ?)%(in_set_iff _ _ _ _ Hwf Hs). exists blk. by rewrite E. }
    destruct (victim_loop_total (blks s) Hnd (Z.of_nat (ways (cfg t)) - 1) ltac:(lia) (mem t) Hybrrip.rounds ltac:(unfold Hybrrip.rounds; lia))
      as (k & b & Hb & ->).
    { intros Hnil. rewrite Hnil in Hl. simpl in Hl. lia. }
    { intros d Hd. by eapply in_set_lt, Hin. }
    cbn [mbind outcome_bind]. eexists _, b. split; [done|]. simpl.
    assert (Hr : reorder t (t <| mem := Hybrrip.aged k (blks s) (mem t) |>)).
    { split; try done; simpl; try reflexivity. apply aged_eqv. }
    split_and!; [done|done|done|].
    eapply in_set_frame; [exact Hwf|by rewrite <- Hr|done|by apply Hin].
  - intros env pkt b x t' Hx Hok _ Hin Hm _ E. cbn. unfold Hybrrip.insertBlock.
    open_insert Hok Hin Hm E. destruct (ji_blk _ _ _ _ _ Hji) as (blk & Hb & _).
    rewrite (getBlk_ok _ _ _ Hb). cbn [mbind outcome_bind].
    write_rrpv Hb.
    eexists. split; [done|]. split; [done|]. simpl.
    by rewrite (frame_reorder_cfg _ _ _ (ji_frame _ _ _ _ _ Hji) Hr).
  - intros env b x blk t' Hx Hok Hb Hv E. cbn. unfold Hybrrip.invalidate. simpl in *.
    destruct (invalidate_move env b blk _ t' (moveToTail b) Hok Hb Hv E ltac:(eauto with moves))
      as (Hwf' & Hfr & _). rewrite E. cbn [mbind outcome_bind].
    destruct (invalidate_ok env b blk _ Hok Hb Hv) as (t1 & E1 & _ & _ & _ & _ & Em & _).
    rewrite E in E1. injection E1 as <-.
    assert (Hb' : mem t' !! b = Some (invalidated env blk))
      by (rewrite Em; apply list_lookup_insert_eq; by eapply lookup_lt_Some).
    write_rrpv Hb'.
    eexists. split; [done|]. split; [done|]. simpl.
    by rewrite (frame_reorder_cfg _ _ _ Hfr Hr).
Defined.

(** ** The victim of HYBRRIP *)

(** C37. [HYBRRIP::findVictim] ends, with the replacement candidate that
    re-reference prediction asks for: when every [rrpv] of the set is a byte and
    there are at most 256 ways, it returns the first block of the set, in way
    order, nearest below [assoc - 1] (modulo 256), and every block of the set
    is aged by the distance of that block, wrapping as [uint8_t] does. *)
Theorem hybrrip_victim_is_nearest (addr : Z) (x : Hybrrip.HYBRRIP) (i : nat) (s : CacheSet) :
  let t := Hybrrip.hybrrip_base x in
  let top := (Z.of_nat (ways (cfg t)) - 1)%Z in
  tags_wf t -> ways (cfg t) <= 256 ->
  extractSet (cfg t) addr = Z.of_nat i -> sets t !! i = Some s ->
  (forall d blkd, mem t !! d = Some blkd -> (0 <= rrpv blkd < 256)%Z) ->
  exists p b q blk, blks s = p ++ b :: q /\ mem t !! b = Some blk /\
    Hybrrip.findVictim addr x =
      Ok (Hybrrip.MkHYBRRIP
            (t <| mem := Hybrrip.aged (Hybrrip.distance top blk) (blks s) (mem t) |>), b) /\
    (forall d blkd, d ∈ blks s -> mem t !! d = Some blkd ->
       Hybrrip.distance top blk <= Hybrrip.distance top blkd) /\
    (forall d blkd, d ∈ p -> mem t !! d = Some blkd ->
       Hybrrip.distance top blk < Hybrrip.distance top blkd).
Proof.
  intros t top Hwf Hw Ei Hs Hr.
  assert (Hi : i < numSets (cfg t)) by (destruct Hwf; apply lookup_lt_Some in Hs; unfold orders in *;
    rewrite length_fmap in *; lia).
  destruct (tags_set _ i Hwf Hi) as (s' & Hs' & (Hl & Hnd & Ha) & Hway & _).
  rewrite Hs in Hs'. injection Hs' as <-.
  assert (Hm : forall d, d ∈ blks s -> exists blkd, mem t !! d = Some blkd)
    by (intros d (blkd & ? & _)%(in_set_iff _ _ _ _ Hwf Hs); by exists blkd).
  set (f d := match mem t !! d with Some blk => Hybrrip.distance top blk | None => 0 end).
  assert (Hf : forall d blkd, mem t !! d = Some blkd -> f d = Hybrrip.distance top blkd)
    by (intros d blkd E; unfold f; by rewrite E).
  assert (Hne : blks s <> []).
  { intros E. rewrite E in Hl. simpl in Hl. pose proof (ok_ways _ (t_cfg _ Hwf)). lia. }
  destruct (first_min f (blks s) Hne) as (p & b & q & E & Hmin & Hp).
  destruct (Hm b) as [blk Hb]; [rewrite E; set_solver|]. exists p, b, q, blk.
  split_and!; [done|done| | |].
  - unfold Hybrrip.findVictim. fold t. rewrite Ei, (getSet_ok _ _ _ Hs). cbn [mbind outcome_bind].
    rewrite take_ge by lia. fold top.
    rewrite (victim_loop_nearest (blks s) Hnd top ltac:(unfold top; lia) (Hybrrip.distance top blk)
      Hybrrip.rounds (mem t) p b q blk E Hb); [done| |done|].
    + intros d Hd. destruct (Hm d Hd) as [blkd Hblkd]. exists blkd.
      rewrite <- (Hf d blkd Hblkd), <- (Hf b blk Hb). split_and!; [done|by eapply Hr..| |]; auto.
    + unfold Hybrrip.distance, Hybrrip.rounds. pose proof (wrap_range 8 (top - rrpv blk)).
      change (2 ^ 8)%Z with 256%Z in *. lia.
  - intros d blkd Hd Hblkd. rewrite <- (Hf d blkd Hblkd), <- (Hf b blk Hb). auto.
  - intros d blkd Hd Hblkd. rewrite <- (Hf d blkd Hblkd), <- (Hf b blk Hb). auto.
Qed.

(** The loop of [HYBRRIP::findVictim] has no bound with more than 256 ways:
    [assoc - 1] is then no value of the [uint8_t] it is compared with, so
    however long the loop runs it does not find a victim. *)
Theorem hybrrip_victim_diverges (top : Z) (bs : list nat) (m : list CacheBlk) (fuel : nat) :
  (256 <= top)%Z -> NoDup bs ->
  (forall d, d ∈ bs -> exists blkd, m !! d = Some blkd /\ (0 <= rrpv blkd < 256)%Z) ->
  Hybrrip.victim_loop fuel top bs m = Err Diverge.
Proof.
  intros Ht Hnd. revert m. induction fuel as [|fuel IH]; intros m Hm; [done|].
  cbn [Hybrrip.victim_loop].
  assert (Hsome : forall d, d ∈ bs -> is_Some (m !! d)) by naive_solver.
  pose proof (scan_spec top m bs Hsome) as Hs.
  destruct (Hybrrip.scan m top bs) as [[b|]|]; [exfalso| |done].
  - destruct Hs as (p & q & blk & E & Hb & Er & _).
    destruct (Hm b) as (blk' & Hb' & Hr); [rewrite E; set_solver|].
    rewrite Hb in Hb'. injection Hb' as <-. lia.
  - cbn [mbind outcome_bind]. rewrite age_aged by done. cbn [mbind outcome_bind]. apply IH.
    intros d Hd. destruct (Hm d Hd) as (blk & Hb & _). eexists.
    split; [by apply aged_lookup|]. rewrite decide_True by lia. apply (wrap_range 8). lia.
Qed.

(** Two sets of two ways, their [rrpv]s 0 and 1 (the top). *)
Definition rrip_tags : TagStore := init_tags tiny_cfg 8.

Lemma hybrrip_victim_is_nearest_witness :
  let t := rrip_tags in
  exists p b q blk, seq 0 2 = p ++ b :: q /\ mem t !! b = Some blk /\
    Hybrrip.findVictim 0 (Hybrrip.MkHYBRRIP t) =
      Ok (Hybrrip.MkHYBRRIP
            (t <| mem := Hybrrip.aged (Hybrrip.distance 1 blk) (seq 0 2) (mem t) |>), b) /\
    (forall d blkd, d ∈ seq 0 2 -> mem t !! d = Some blkd ->
       Hybrrip.distance 1 blk <= Hybrrip.distance 1 blkd) /\
    (forall d blkd, d ∈ p -> mem t !! d = Some blkd ->
       Hybrrip.distance 1 blk < Hybrrip.distance 1 blkd).
Proof.
  apply (hybrrip_victim_is_nearest 0 (Hybrrip.MkHYBRRIP rrip_tags) 0 (MkSet 2 [0; 1] 0 0 0 0)).
  - exact (init_wf tiny_cfg tiny_cfg_ok 8).
  - vm_compute. lia.
  - reflexivity.
  - reflexivity.
  - intros [|[|[|[|d]]]] blkd; vm_compute; intros; simplify_eq; split_and?; congruence.
Defined.

Lemma hybrrip_victim_diverges_witness :
  Hybrrip.victim_loop 10 256 [0; 1] (mem rrip_tags) = Err Diverge.
Proof.
  apply (hybrrip_victim_diverges 256 [0; 1] (mem rrip_tags) 10); [lia| |].
  - by apply (bool_decide_eq_true_1 _).
  - intros d [->|[->|[]%elem_of_nil]%elem_of_cons]%elem_of_cons; eexists; (split; [reflexivity|]);
      vm_compute; split; congruence.
Defined.
