(* ===== verification/Eaf.v ===== *)
(** The evicted-address filter [SetBloomFilter] ([setbloomfilter.hh]) and the
    policy built on it, [FEAF] ([feaf.hh], [feaf.cc]): a victim evicted from a
    set is remembered in a queue of 16 tags, and a block found there when it
    comes back goes to the head of its set. *)
From S2P Require Import Prelude IntMath MemTypes Blk CacheSet SetAssoc Tags Policy.

#[local] Open Scope nat_scope.

(** ** Definitions *)

Module SetBloomFilter.
Record EAF := MkEAF { valid : bool; tags : Z }.
#[global] Instance EAF_settable : Settable EAF := fun e => MkEAF (valid e) (tags e).

Definition entries : nat := 16.

(** [for (i = 0; i < 16; i++) if (!eaf[i].valid) { ...; break; }]: the index
    of the entry taken. *)
Fixpoint first_free (n i : nat) (eaf : list EAF) : outcome (option nat) :=
  match n with
  | O => Ok None
  | S n => e ← aget eaf i;
           if negb (valid e) then Ok (Some i) else first_free n (S i) eaf
  end.

(** [for (i = 0; i < 15; i++) eaf[i] = eaf[i+1]]. *)
Fixpoint shift (n i : nat) (eaf : list EAF) : outcome (list EAF) :=
  match n with
  | O => Ok eaf
  | S n => e ← aget eaf (i + 1); eaf ← aset eaf i e; shift n (S i) eaf
  end.

(** The parameter is an [int]: the caller's address is converted. *)
Definition insertTags (tag : Z) (eaf : list EAF) : outcome (list EAF) :=
  let e := {| valid := true; tags := i32 tag |} in
  r ← first_free entries 0 eaf;
  match r with
  | Some i => aset eaf i e
  | None => eaf ← shift (entries - 1) 0 eaf; aset eaf (entries - 1) e
  end.

Fixpoint test_from (n i : nat) (tag : Z) (eaf : list EAF) : outcome bool :=
  match n with
  | O => Ok false
  | S n => e ← aget eaf i;
           if valid e && (tags e =? tag)%Z then Ok true else test_from n (S i) tag eaf
  end.
Definition testTags (tag : Z) (eaf : list EAF) : outcome bool :=
  test_from entries 0 (i32 tag) eaf.

Definition empty : list EAF := replicate entries {| valid := false; tags := 0 |}.
Definition clear (eaf : list EAF) : list EAF := (fun e => e <| valid := false |>) <$> eaf.
End SetBloomFilter.

Module Feaf.
Import SetBloomFilter.

Record FEAF := MkFEAF {
  feaf_base : TagStore;
  setbloomfilter : list (list EAF);
  totalCounter : Z
}.
#[global] Instance FEAF_settable : Settable FEAF := fun x =>
  MkFEAF (feaf_base x) (setbloomfilter x) (totalCounter x).

Definition FEAF_new (t : TagStore) : FEAF :=
  {| feaf_base := t; setbloomfilter := replicate (numSets (cfg t)) empty; totalCounter := 0 |}.

(** All filters are emptied every [numBlocks] insertions. *)
Definition insertBloomFilter (numSet tag : Z) (x : FEAF) : outcome FEAF :=
  f ← aget (setbloomfilter x) (Z.to_nat numSet);
  f ← insertTags tag f;
  let x := x <| setbloomfilter ::= insert (Z.to_nat numSet) f |>
             <| totalCounter ::= Z.succ |> in
  if (totalCounter x =? Z.of_nat (numBlocks (cfg (feaf_base x))))%Z
  then Ok (x <| setbloomfilter ::= fmap clear |> <| totalCounter := 0%Z |>)
  else Ok x.

Definition testBloomFilter (numSet tag : Z) (x : FEAF) : outcome bool :=
  f ← aget (setbloomfilter x) (Z.to_nat numSet); testTags tag f.

Definition accessBlock (env : Env) (addr : Z) (sec : bool) (c : Command) (port : Z)
    (x : FEAF) : outcome (FEAF * option nat * Z) :=
  '(t, ob, lat) ← SetAssoc.accessBlock env addr sec (feaf_base x);
  t ← on_hit (fun b blk => updSet (blk_set blk) (moveToHead b)) ob t;
  Ok (x <| feaf_base := t |>, ob, lat).

Definition findVictim (addr : Z) (x : FEAF) : outcome nat := lastWay addr (feaf_base x).

Definition insertBlock (env : Env) (pkt : Packet) (b : nat) (x : FEAF) : outcome FEAF :=
  blk ← getBlk (feaf_base x) b;
  let isValid := isValid blk in
  x ← (if isValid then insertBloomFilter (blk_set blk) (tag blk) x else Ok x);
  t ← SetAssoc.insertBlock env pkt b (feaf_base x);
  let set := extractSet (cfg t) (pkt_addr pkt) in
  t ← (if isValid then
         found ← testBloomFilter set (extractTag (cfg t) (pkt_addr pkt)) x;
         if found : bool then updSet set (moveToHead b) t
         else updSet set (insertFixLocation b 14) t
       else updSet set (moveToHead b) t);
  Ok (x <| feaf_base := t |>).

Definition invalidate (env : Env) (b : nat) (x : FEAF) : outcome FEAF :=
  t ← SetAssoc.invalidate env b (feaf_base x);
  t ← move_own b (moveToTail b) t;
  Ok (x <| feaf_base := t |>).

#[global] Instance policy : Policy FEAF := {
  base := feaf_base;
  rebase t x := x <| feaf_base := t |>;
  pol_accessBlock := accessBlock;
  pol_findVictim _ addr x := b ← findVictim addr x; Ok (x, b);
  pol_insertBlock := insertBlock;
  pol_invalidate := invalidate
}.
End Feaf.

(** ** The filter is a bounded queue *)

(** Its specification: a queue that forgets its oldest tag when it is full. *)
Definition enqueue (n : nat) (x : Z) (q : list Z) : list Z :=
  if decide (length q < n) then q ++ [x] else drop 1 q ++ [x].

(** The tags an array of entries stands for: those of the valid prefix. *)
Section queue.
Import SetBloomFilter.

Definition queue_entry (x : Z) : EAF := {| valid := true; tags := x |}.

(** [eaf] represents [q]: the tags of [q] in order, then invalid entries. *)
Definition represents (eaf : list EAF) (q : list Z) : Prop :=
  exists rest, eaf = (queue_entry <$> q) ++ rest /\ length eaf = entries /\
    Forall (fun e => valid e = false) rest.

Lemma represents_empty : represents empty [].
Proof. exists empty. split_and!; [done|done|]. repeat constructor. Qed.

Lemma represents_clear eaf q : represents eaf q -> represents (clear eaf) [].
Proof.
  intros (rest & _ & Hl & _). exists (clear eaf). unfold clear. split_and!; [done| |].
  - by rewrite length_fmap.
  - apply Forall_fmap, Forall_true. done.
Qed.

Lemma represents_length eaf q : represents eaf q -> length q <= entries.
Proof. intros (rest & -> & <- & _). rewrite length_app, length_fmap. lia. Qed.

Lemma first_free_spec q rest p :
  Forall (fun e => valid e = false) rest ->
  first_free (length q + length rest) (length p) (p ++ (queue_entry <$> q) ++ rest) =
    Ok (if decide (rest = []) then None else Some (length p + length q)).
Proof.
  intros Hr. revert p. induction q as [|x q IH]; intros p; simpl.
  - destruct rest as [|e rest]; [by rewrite app_nil_r|]. simpl. unfold aget.
    rewrite list_lookup_middle by done. simpl. inversion Hr as [|?? He]; subst. rewrite He.
    simpl. by rewrite Nat.add_0_r.
  - unfold aget. rewrite list_lookup_middle by done. simpl.
    change (list_fmap Z EAF queue_entry q) with (queue_entry <$> q).
    specialize (IH (p ++ [queue_entry x])). rewrite length_app in IH. simpl in IH.
    rewrite <- app_assoc in IH. simpl in IH. rewrite Nat.add_1_r in IH. rewrite IH.
    case_decide; [done|]. do 2 f_equal. lia.
Qed.

Lemma shift_spec n p (l : list EAF) x :
  length l = n -> exists z, shift n (length p) (p ++ x :: l) = Ok (p ++ l ++ [z]).
Proof.
  revert p x l. induction n as [|n IH]; intros p x [|y l] Hl; simplify_eq/=; [by exists x|].
  unfold aget, aset. rewrite lookup_app_r by lia.
  replace (length p + 1 - length p) with 1 by lia. simpl.
  rewrite decide_True by (rewrite length_app; simpl; lia). simpl.
  rewrite insert_app_r_alt, Nat.sub_diag by lia. simpl.
  destruct (IH (p ++ [y]) y l eq_refl) as [z Hz]. exists z.
  rewrite length_app in Hz. simpl in Hz. rewrite Nat.add_1_r, <- app_assoc in Hz.
  simpl in Hz. by rewrite Hz, <- app_assoc.
Qed.

Lemma insertTags_spec eaf q tag :
  represents eaf q ->
  exists eaf', insertTags tag eaf = Ok eaf' /\ represents eaf' (enqueue entries (i32 tag) q).
Proof.
  intros Hrep. pose proof (represents_length _ _ Hrep) as Hq.
  destruct Hrep as (rest & E & Hl & Hr). unfold insertTags, enqueue.
  assert (Hn : length q + length rest = entries)
    by (rewrite <- Hl, E, length_app, length_fmap; done).
  pose proof (first_free_spec q rest [] Hr) as Hf. rewrite Hn in Hf. simpl app in Hf.
  rewrite <- E in Hf. change (length []) with 0 in Hf. rewrite Hf. cbn [mbind outcome_bind]. destruct rest as [|e rest].
  - rewrite decide_True, decide_False by (done || simpl in Hn; lia).
    rewrite app_nil_r in E. subst eaf. destruct q as [|x q]; [done|].
    rewrite fmap_cons. simpl in Hn.
    destruct (shift_spec (entries - 1) [] (queue_entry <$> q) (queue_entry x)) as [z Hs].
    { rewrite length_fmap. lia. }
    simpl app in Hs. simpl length in Hs. rewrite Hs. cbn [mbind outcome_bind].
    assert (El : length (queue_entry <$> q) = entries - 1) by (rewrite length_fmap; lia).
    unfold aset. rewrite decide_True by (rewrite length_app, El; simpl; lia).
    eexists. split; [done|]. exists []. split; [|split; [|constructor]].
    + rewrite <- El, insert_app_r_alt, Nat.sub_diag by lia. simpl.
      by rewrite app_nil_r, fmap_app.
    + rewrite length_insert, length_app, El. done.
  - rewrite decide_False, decide_True by (done || simpl in Hn; lia). simpl Nat.add.
    unfold aset. rewrite decide_True by (simpl in Hn; lia). eexists. split; [done|].
    exists rest. subst eaf. inversion Hr; subst. split_and!; [| |done].
    + rewrite insert_app_r_alt, length_fmap, Nat.sub_diag by (rewrite length_fmap; lia).
      simpl. by rewrite fmap_app, <- app_assoc.
    + by rewrite length_insert.
Qed.

Lemma test_from_spec n i tag eaf :
  i + n <= length eaf ->
  test_from n i tag eaf =
    Ok (existsb (fun e => valid e && (tags e =? tag)%Z) (take n (drop i eaf))).
Proof.
  revert i. induction n as [|n IH]; intros i Hi; simpl; [done|].
  destruct (lookup_lt_is_Some_2 eaf i ltac:(lia)) as [e He]. unfold aget. rewrite He. simpl.
  rewrite (drop_S _ _ _ He). simpl. destruct (valid e && _); [done|]. apply IH. lia.
Qed.

Lemma testTags_spec eaf q tag :
  represents eaf q -> testTags tag eaf = Ok (bool_decide (i32 tag ∈ q)).
Proof.
  intros (rest & E & Hl & Hr). unfold testTags. rewrite test_from_spec by lia.
  rewrite drop_0, take_ge by lia. f_equal. apply eq_true_iff_eq.
  rewrite existsb_exists, bool_decide_eq_true. setoid_rewrite <- list_elem_of_In. subst eaf.
  setoid_rewrite andb_true_iff. setoid_rewrite Z.eqb_eq. split.
  - intros (e & [He|He]%elem_of_app & Hv & <-).
    + apply list_elem_of_fmap in He as (x & -> & Hx). done.
    + rewrite Forall_forall in Hr. specialize (Hr e He). congruence.
  - intros Hq. exists (queue_entry (i32 tag)). split_and!; [|done|done].
    apply elem_of_app. left. by apply list_elem_of_fmap_2.
Qed.
End queue.

(** ** Laws *)

Section laws.
Import SetBloomFilter Feaf.

Definition filters_ok (n : nat) (fs : list (list EAF)) : Prop :=
  length fs = n /\ Forall (fun f => exists q, represents f q) fs.

Lemma filters_get t b blk fs :
  tags_wf t -> mem t !! b = Some blk -> filters_ok (numSets (cfg t)) fs ->
  exists f q, fs !! Z.to_nat (blk_set blk) = Some f /\ represents f q.
Proof.
  intros Hwf Hb [Hl Hf]. destruct (blk_set_lt _ _ _ Hwf Hb) as (i & -> & Hi).
  rewrite Nat2Z.id. destruct (lookup_lt_is_Some_2 fs i) as [f Hfi]; [lia|].
  destruct (Forall_lookup_1 _ _ _ _ Hf Hfi) as [q Hq]. eauto.
Qed.

Lemma eaf_insertBloomFilter_ok t b blk tg x :
  tags_wf t -> mem t !! b = Some blk -> feaf_base x = t ->
  filters_ok (numSets (cfg t)) (setbloomfilter x) ->
  exists x', insertBloomFilter (blk_set blk) tg x = Ok x' /\ feaf_base x' = t /\
    filters_ok (numSets (cfg t)) (setbloomfilter x').
Proof.
  intros Hwf Hb Ex Hf. destruct (filters_get _ _ _ _ Hwf Hb Hf) as (f & q & Hfi & Hq).
  destruct Hf as [Hl Hall]. unfold insertBloomFilter, aget. rewrite Hfi.
  cbn [mbind outcome_bind]. destruct (insertTags_spec f q tg Hq) as (f' & -> & Hq').
  cbn [mbind outcome_bind].
  assert (Hf' : filters_ok (numSets (cfg t))
            (<[Z.to_nat (blk_set blk) := f']> (setbloomfilter x))).
  { split; [by rewrite length_insert|]. apply Forall_insert; eauto. }
  case_match; eexists; (split; [done|]); simpl; (split; [done|]); [|done].
  destruct Hf' as [Hl' Hall']. split; [by rewrite length_fmap|].
  apply Forall_fmap. eapply Forall_impl; [done|]. intros g [p Hp]. exists [].
  by eapply represents_clear.
Qed.
End laws.

#[export] Instance FEAF_laws : PolicyLaws Feaf.FEAF.
Proof.
  refine {| pol_inv x := 14 < ways (cfg (base x)) /\
                         filters_ok (numSets (cfg (base x))) (Feaf.setbloomfilter x);
            pol_master _ := True; pol_slot x b := last_way (base x) b |}; try done.
  - intros t x Hx [Ec _]. simpl in *. by rewrite Ec.
  - intros t x b Hl Hf. by eapply frame_last_way.
  - intros env addr sec c m x t' ob lat Hx Hwf _ Ha. cbn. unfold Feaf.accessBlock.
    open_access Hwf Ha.
    run_step (hit_move t' ob (fun b blk => updSet (blk_set blk) (moveToHead b)) Hwf' Hb
      ltac:(eauto with moves)). eexists. split; [done|]. split; [done|]. simpl.
    by rewrite <- (r_cfg _ _ Hr), Ec.
  - intros env addr x Hx Hwf. victim_is_last Feaf.feaf_base addr x Hwf.
  - intros env pkt b x t' [Hw Hf] Hok Hl Hin Hm _ E. cbn. unfold Feaf.insertBlock.
    pose proof Hin as (blk & Hb & Hset). simpl in *. rewrite (getBlk_ok _ _ _ Hb).
    cbn [mbind outcome_bind].
    assert (exists x1, (if isValid blk then Feaf.insertBloomFilter (blk_set blk) (tag blk) x
                        else Ok x) = Ok x1 /\ Feaf.feaf_base x1 = Feaf.feaf_base x /\
      filters_ok (numSets (cfg (Feaf.feaf_base x))) (Feaf.setbloomfilter x1))
      as (x1 & -> & Eb & Hf1).
    { destruct (isValid blk); [|eauto].
      eapply eaf_insertBloomFilter_ok; [apply (ok_wf _ _ Hok)|done|done|done]. }
    cbn [mbind outcome_bind]. insert_stage Hok Hin Hm E. rewrite Eb, E.
    cbn [mbind outcome_bind].
    pose proof (ji_frame _ _ _ _ _ Hji) as Hfr. pose proof Hfr as [Ec _].
    assert (exists g, moves_last (ways (cfg (Feaf.feaf_base x))) b g /\
      (if isValid blk then
         found ← Feaf.testBloomFilter (extractSet (cfg t') (pkt_addr pkt))
                   (extractTag (cfg t') (pkt_addr pkt)) x1;
         if found : bool then updSet (extractSet (cfg t') (pkt_addr pkt)) (moveToHead b) t'
         else updSet (extractSet (cfg t') (pkt_addr pkt)) (insertFixLocation b 14) t'
       else updSet (extractSet (cfg t') (pkt_addr pkt)) (moveToHead b) t')
      = move_in (pkt_addr pkt) g t') as (g & Hg & ->).
    { assert (moves_last (ways (cfg (Feaf.feaf_base x))) b (insertFixLocation b 14))
        by (apply insertFixLocation_last; change (u8 14) with 14%Z; lia).
      destruct (isValid blk); [|exists (moveToHead b); eauto with moves].
      unfold Feaf.testBloomFilter, aget. rewrite Ec, <- Hset.
      destruct (filters_get _ _ _ _ (ok_wf _ _ Hok) Hb Hf1) as (f & q & -> & Hq).
      cbn [mbind outcome_bind]. rewrite (testTags_spec f q _ Hq). cbn [mbind outcome_bind].
      unfold move_in. rewrite Ec, <- Hset.
      case_match; [exists (moveToHead b)|exists (insertFixLocation b 14)]; eauto with moves. }
    run_step (move_in_last _ _ _ _ _ Hji g Hl Hg). eexists. split; [done|]. split; [done|].
    simpl. by rewrite (frame_reorder_cfg _ _ _ Hfr Hr).
  - intros env b x blk t' Hx Hok Hb Hv E. cbn. unfold Feaf.invalidate.
    invalidate_to_tail Hok Hb Hv E. eexists. split; [done|]. split; [done|]. simpl.
    by rewrite (frame_reorder_cfg _ _ _ Hfr Hr).
Defined.

(** ** The evicted-address filter *)

Section remembered.
Import SetBloomFilter.

(** Insertions one after the other, from a freshly built filter. *)
Definition insert_all (tags : list Z) (eaf : list EAF) : outcome (list EAF) :=
  foldl (fun r tg => eaf ← r; insertTags tg eaf) (Ok eaf) tags.

Lemma enqueue_last n x q :
  0 < n -> enqueue n x (drop (length q - n) q) = drop (length (q ++ [x]) - n) (q ++ [x]).
Proof.
  intros Hn. unfold enqueue. rewrite length_drop, length_app. simpl. case_decide.
  - replace (length q - n) with 0 by lia. by replace (length q + 1 - n) with 0 by lia.
  - rewrite drop_drop, drop_app_le by lia. do 2 f_equal. lia.
Qed.

(** The evicted-address filter of FEAF forgets in order: after any sequence
    of [insertTags] on an empty filter none of which fails, [testTags] answers
    exactly whether the tag, as the [int] it is stored in, is one of the last
    sixteen inserted. *)
Theorem eaf_remembers_last_sixteen (tags : list Z) (tag : Z) :
  exists eaf, insert_all tags empty = Ok eaf /\
    testTags tag eaf = Ok (bool_decide (i32 tag ∈ drop (length tags - 16) (i32 <$> tags))).
Proof.
  assert (H : exists eaf, insert_all tags empty = Ok eaf /\
    represents eaf (drop (length (i32 <$> tags) - 16) (i32 <$> tags))).
  { induction tags as [|tg tags IH] using rev_ind; [exists empty; split; [done|apply represents_empty]|].
    destruct IH as (eaf & E & Hr). unfold insert_all in *. rewrite foldl_app, E. simpl.
    destruct (insertTags_spec eaf _ tg Hr) as (eaf' & -> & Hr'). exists eaf'. split; [done|].
    rewrite fmap_app. simpl. rewrite <- enqueue_last by lia. exact Hr'. }
  destruct H as (eaf & E & Hr). exists eaf. split; [done|].
  rewrite (testTags_spec eaf _ tag Hr). by rewrite length_fmap.
Qed.
End remembered.
