(* ===== verification/Bloom.v ===== *)
(** The Bloom filter of evicted tags [HSetBloomFilter] ([hsetbloomfilter.hh],
    [hsetbloomfilter.cc]) and the policies built on it: [HEAF] ([heaf.hh],
    [heaf.cc]) and [HYBBF] ([hybbf.hh], [hybbf.cc]). *)
From S2P Require Import Prelude IntMath MemTypes Blk CacheSet SetAssoc Tags Policy.

#[local] Open Scope nat_scope.

(** ** Definitions *)

Module HSetBloomFilter.
Record Filter := MkFilter {
  counter : Z;
  bloomfilter : list Z;
  FILTE_NUM : nat;
  FILTE_NUM_BIT : nat;
  TAG_NUM_BIT : nat
}.
#[global] Instance Filter_settable : Settable Filter := fun f =>
  MkFilter (counter f) (bloomfilter f) (FILTE_NUM f) (FILTE_NUM_BIT f) (TAG_NUM_BIT f).

Definition FUNC_NUM : nat := 3.

(** [HSetBloomFilter(cnt, numBFBits, numTagBits)]. *)
Definition HSetBloomFilter_new (cnt numBFBits numTagBits : Z) : outcome Filter :=
  n ← ceilLog2 numBFBits;
  Ok {| counter := cnt; bloomfilter := replicate (Z.to_nat numBFBits) 0%Z;
        FILTE_NUM := Z.to_nat n; FILTE_NUM_BIT := Z.to_nat numBFBits;
        TAG_NUM_BIT := Z.to_nat numTagBits |}.

Definition clearbloomfilter (f : Filter) : Filter :=
  f <| counter := 0%Z |> <| bloomfilter := replicate (FILTE_NUM_BIT f) 0%Z |>.

(** The bits of a tag, lowest first: the loop stops when [tag_temp] is 0 and
    leaves the rest at 0. *)
Fixpoint binary (n : nat) (tag_temp : Z) : list Z :=
  match n with
  | O => []
  | S n => if (tag_temp =? 0)%Z then replicate (S n) 0%Z
           else Z.land tag_temp 1 :: binary n (Z.shiftr tag_temp 1)
  end.

(** [fliter[i] = tags[i] ^ tags[TAG_NUM_BIT - 1 - i]]; an index outside the
    array is a fault. *)
Fixpoint fold_halves (n : nat) (group1_start : nat) (group2_start : Z) (tags : list Z)
    : outcome (list Z) :=
  match n with
  | O => Ok []
  | S n =>
      a ← aget tags group1_start;
      b ← (if (group2_start <? 0)%Z then Err OutOfBounds
           else aget tags (Z.to_nat group2_start));
      rest ← fold_halves n (S group1_start) (group2_start - 1) tags;
      Ok (Z.lxor a b :: rest)
  end.

(** The number with binary digits [fliter], highest first. *)
Definition to_number (fliter : list Z) : Z :=
  foldl (fun result x => (2 * result + if x =? 0 then 0 else 1)%Z) 0%Z fliter.

Definition getFliter (f : Filter) (tags : list Z) : outcome Z :=
  fliter ← fold_halves (FILTE_NUM f) 0 (Z.of_nat (TAG_NUM_BIT f) - 1) tags;
  Ok (to_number fliter).

Definition hash (f : Filter) (tag : Z) : outcome Z :=
  getFliter f (binary (TAG_NUM_BIT f) tag).

(** [tag = (tag >> (tag_number - 1)) | (tag << 1)] on an [int]. *)
Definition rotate (f : Filter) (tag : Z) : Z :=
  i32 (Z.lor (Z.shiftr tag (Z.of_nat (TAG_NUM_BIT f) - 1)) (i32 (Z.shiftl tag 1))).

Fixpoint insert_loop (j : nat) (tag : Z) (f : Filter) : outcome Filter :=
  match j with
  | O => Ok f
  | S j =>
      result ← hash f tag;
      bf ← aset (bloomfilter f) (Z.to_nat result) 1%Z;
      insert_loop j (rotate f tag) (f <| bloomfilter := bf |>)
  end.

Definition insertTags (tag : Z) (f : Filter) : outcome Filter :=
  let f := if (16 <? counter f)%Z then clearbloomfilter f else f in
  insert_loop FUNC_NUM (i32 tag) (f <| counter ::= Z.succ |>).

Fixpoint test_loop (j : nat) (tag : Z) (f : Filter) : outcome bool :=
  match j with
  | O => Ok true
  | S j =>
      result ← hash f tag;
      x ← aget (bloomfilter f) (Z.to_nat result);
      if (x =? 0)%Z then Ok false else test_loop j (rotate f tag) f
  end.

Definition testTags (tag : Z) (f : Filter) : outcome bool := test_loop FUNC_NUM (i32 tag) f.

(** An array of filters, one per set, as the constructors of the policies
    build it. *)
Definition filters_new (t : TagStore) (cnt numBits : Z) : outcome (list Filter) :=
  f ← HSetBloomFilter_new cnt numBits (32 - tagShift (cfg t));
  Ok (replicate (numSets (cfg t)) f).

Definition insertBloomFilter (numSet tag : Z) (fs : list Filter) : outcome (list Filter) :=
  f ← aget fs (Z.to_nat numSet);
  f ← insertTags tag f; Ok (<[Z.to_nat numSet := f]> fs).

Definition testBloomFilter (numSet tag : Z) (fs : list Filter) : outcome bool :=
  f ← aget fs (Z.to_nat numSet); testTags tag f.
End HSetBloomFilter.

Module Heaf.
Import HSetBloomFilter.

Record HEAF := MkHEAF { heaf_base : TagStore; setbloomfilter : list Filter }.
#[global] Instance HEAF_settable : Settable HEAF := fun x =>
  MkHEAF (heaf_base x) (setbloomfilter x).

Definition HEAF_new (t : TagStore) (cnt numBits : Z) : outcome HEAF :=
  fs ← filters_new t cnt numBits; Ok (MkHEAF t fs).

Definition accessBlock (env : Env) (addr : Z) (sec : bool) (c : Command) (port : Z)
    (x : HEAF) : outcome (HEAF * option nat * Z) :=
  '(t, ob, lat) ← SetAssoc.accessBlock env addr sec (heaf_base x);
  t ← on_hit (fun b blk => updSet (blk_set blk) (moveToHead b)) ob t;
  Ok (x <| heaf_base := t |>, ob, lat).

Definition findVictim (addr : Z) (x : HEAF) : outcome nat := lastWay addr (heaf_base x).

(** Only evicted DRAM blocks are remembered. *)
Definition insertBlock (env : Env) (pkt : Packet) (b : nat) (x : HEAF) : outcome HEAF :=
  blk ← getBlk (heaf_base x) b;
  let evicts := isValid blk && negb (isPcm blk) in
  fs ← (if evicts then insertBloomFilter (blk_set blk) (tag blk) (setbloomfilter x)
        else Ok (setbloomfilter x));
  t ← SetAssoc.insertBlock env pkt b (heaf_base x);
  blk ← getBlk t b;
  let set := blk_set blk in
  t ← (if evicts then
         found ← (if isPcm blk then Ok true
                  else testBloomFilter set (extractTag (cfg t) (pkt_addr pkt)) fs);
         if found : bool then updSet set (moveToHead b) t
         else updSet set (insertFixLocation b 7) t
       else updSet set (moveToHead b) t);
  Ok (MkHEAF t fs).

Definition invalidate (env : Env) (b : nat) (x : HEAF) : outcome HEAF :=
  t ← SetAssoc.invalidate env b (heaf_base x);
  t ← move_own b (moveToTail b) t;
  Ok (x <| heaf_base := t |>).

#[global] Instance policy : Policy HEAF := {
  base := heaf_base;
  rebase t x := x <| heaf_base := t |>;
  pol_accessBlock := accessBlock;
  pol_findVictim _ addr x := b ← findVictim addr x; Ok (x, b);
  pol_insertBlock := insertBlock;
  pol_invalidate := invalidate
}.
End Heaf.

Module Hybbf.
Import HSetBloomFilter.

Record HYBBF := MkHYBBF { hybbf_base : TagStore; setbloomfilter : list Filter }.
#[global] Instance HYBBF_settable : Settable HYBBF := fun x =>
  MkHYBBF (hybbf_base x) (setbloomfilter x).

Definition HYBBF_new (t : TagStore) (cnt numBits : Z) : outcome HYBBF :=
  fs ← filters_new t cnt numBits; Ok (MkHYBBF t fs).

Definition accessBlock (env : Env) (addr : Z) (sec : bool) (c : Command) (port : Z)
    (x : HYBBF) : outcome (HYBBF * option nat * Z) :=
  '(t, ob, lat) ← SetAssoc.accessBlock env addr sec (hybbf_base x);
  t ← on_hit (fun b blk t =>
        if warmedUp t then
          if negb (isPcm blk) then updSet (blk_set blk) (moveNStep b 3) t
          else updSet (blk_set blk) (moveToHead b) t
        else updSet (blk_set blk) (moveToHead b) t) ob t;
  Ok (x <| hybbf_base := t |>, ob, lat).

Definition findVictim (addr : Z) (x : HYBBF) : outcome nat := lastWay addr (hybbf_base x).

Definition insertBlock (env : Env) (pkt : Packet) (b : nat) (x : HYBBF) : outcome HYBBF :=
  let set := extractSet (cfg (hybbf_base x)) (pkt_addr pkt) in
  if warmedUp (hybbf_base x) then
    blk ← getBlk (hybbf_base x) b;
    fs ← (if isValid blk && negb (isPcm blk)
          then insertBloomFilter (blk_set blk) (tag blk) (setbloomfilter x)
          else Ok (setbloomfilter x));
    t ← SetAssoc.insertBlock env pkt b (hybbf_base x);
    blk ← getBlk t b;
    t ← (if isPcm blk then updSet set (moveToHead b) t
         else
           found ← testBloomFilter set (extractTag (cfg t) (pkt_addr pkt)) fs;
           if found : bool then updSet set (insertFixLocation b 3) t
           else updSet set (insertFixLocation b 7) t);
    Ok (MkHYBBF t fs)
  else
    t ← SetAssoc.insertBlock env pkt b (hybbf_base x);
    t ← updSet set (moveToHead b) t;
    Ok (x <| hybbf_base := t |>).

Definition invalidate (env : Env) (b : nat) (x : HYBBF) : outcome HYBBF :=
  t ← SetAssoc.invalidate env b (hybbf_base x);
  t ← move_own b (moveToTail b) t;
  Ok (x <| hybbf_base := t |>).

#[global] Instance policy : Policy HYBBF := {
  base := hybbf_base;
  rebase t x := x <| hybbf_base := t |>;
  pol_accessBlock := accessBlock;
  pol_findVictim _ addr x := b ← findVictim addr x; Ok (x, b);
  pol_insertBlock := insertBlock;
  pol_invalidate := invalidate
}.
End Hybbf.

(** ** Filters *)

Section filter.
Import HSetBloomFilter.

(** The hash of every tag is an index of the filter. *)
Record filter_ok (f : Filter) : Prop := {
  f_len : length (bloomfilter f) = FILTE_NUM_BIT f;
  f_bits : 2 ^ FILTE_NUM f <= FILTE_NUM_BIT f;
  f_halves : FILTE_NUM f <= TAG_NUM_BIT f
}.

Lemma length_binary n tg : length (binary n tg) = n.
Proof.
  revert tg. induction n as [|n IH]; intros tg; simpl; [done|].
  case_match; simpl; [by rewrite length_replicate|by rewrite IH].
Qed.

Lemma fold_halves_ok n g1 g2 l :
  g1 + n <= length l -> (Z.of_nat n - 1 <= g2 < Z.of_nat (length l))%Z ->
  exists r, fold_halves n g1 g2 l = Ok r /\ length r = n.
Proof.
  revert g1 g2. induction n as [|n IH]; intros g1 g2 H1 H2; simpl; [by exists []|].
  destruct (lookup_lt_is_Some_2 l g1 ltac:(lia)) as [a Ha].
  destruct (lookup_lt_is_Some_2 l (Z.to_nat g2) ltac:(lia)) as [b Hb].
  unfold aget. rewrite Ha. cbn [mbind outcome_bind].
  destruct (Z.ltb_spec g2 0); [lia|]. rewrite Hb. cbn [mbind outcome_bind].
  destruct (IH (S g1) (g2 - 1)%Z ltac:(lia) ltac:(lia)) as (r & -> & Hr).
  eexists. split; [done|]. simpl. by rewrite Hr.
Qed.

Lemma to_number_range l : (0 <= to_number l < 2 ^ Z.of_nat (length l))%Z.
Proof.
  unfold to_number. induction l as [|x l IH] using rev_ind; [simpl; lia|].
  rewrite foldl_app, length_app. simpl. rewrite Nat2Z.inj_add, Z.pow_add_r by lia.
  change (2 ^ Z.of_nat 1)%Z with 2%Z. destruct (x =? 0)%Z; lia.
Qed.

Lemma hash_ok f tg :
  filter_ok f -> exists r, hash f tg = Ok r /\ (0 <= r < Z.of_nat (FILTE_NUM_BIT f))%Z.
Proof.
  intros [_ Hb Hh]. unfold hash, getFliter.
  destruct (fold_halves_ok (FILTE_NUM f) 0 (Z.of_nat (TAG_NUM_BIT f) - 1)
    (binary (TAG_NUM_BIT f) tg)) as (r & -> & Hr); [rewrite length_binary; lia..|].
  eexists. split; [done|]. pose proof (to_number_range r) as Hn. rewrite Hr in Hn.
  apply inj_le in Hb. rewrite Nat2Z.inj_pow in Hb. lia.
Qed.

(** Filters that differ only in their bits and counter hash alike. *)
Definition same_shape (f g : Filter) : Prop :=
  FILTE_NUM g = FILTE_NUM f /\ TAG_NUM_BIT g = TAG_NUM_BIT f /\
  FILTE_NUM_BIT g = FILTE_NUM_BIT f /\ length (bloomfilter g) = length (bloomfilter f).

Lemma same_shape_ok f g : same_shape f g -> filter_ok f -> filter_ok g.
Proof. intros (E1 & E2 & E3 & E4) []. split; by rewrite ?E1, ?E2, ?E3, ?E4. Qed.

Lemma same_shape_hash f g tg : same_shape f g -> hash g tg = hash f tg.
Proof. intros (E1 & E2 & E3 & E4). unfold hash, getFliter. by rewrite E1, E2. Qed.

Lemma same_shape_rotate f g tg : same_shape f g -> rotate g tg = rotate f tg.
Proof. intros (E1 & E2 & E3 & E4). unfold rotate. by rewrite E2. Qed.

(** [g] has every bit of [f]. *)
Definition bits_le (f g : Filter) : Prop :=
  same_shape f g /\ forall i x, bloomfilter f !! i = Some x -> x <> 0%Z ->
    exists y, bloomfilter g !! i = Some y /\ y <> 0%Z.

#[export] Instance bits_le_preorder : PreOrder bits_le.
Proof.
  split; [intros f; split; [done|eauto]|].
  intros f g h [(?&?&?&?) Hfg] [(?&?&?&?) Hgh]. split; [split_and!; congruence|].
  intros i x Hx Hn. destruct (Hfg _ _ Hx Hn) as (y & Hy & Hy0). eauto.
Qed.

Lemma bits_le_set f i :
  i < length (bloomfilter f) -> bits_le f (f <| bloomfilter ::= insert i 1%Z |>).
Proof.
  intros Hi. split; [split_and!; try done; simpl; by rewrite length_insert|].
  intros j x Hx Hn. simpl. destruct (decide (j = i)) as [->|Hne].
  - exists 1%Z. by rewrite list_lookup_insert_eq.
  - exists x. by rewrite list_lookup_insert_ne.
Qed.

Lemma test_loop_ok j tg f : filter_ok f -> exists r, test_loop j tg f = Ok r.
Proof.
  intros Hf. revert tg. induction j as [|j IH]; intros tg; simpl; [eauto|].
  destruct (hash_ok f tg Hf) as (r & -> & Hr). cbn [mbind outcome_bind].
  destruct (lookup_lt_is_Some_2 (bloomfilter f) (Z.to_nat r)) as [x Hx];
    [rewrite (f_len _ Hf); lia|].
  unfold aget. rewrite Hx. cbn [mbind outcome_bind]. case_match; eauto.
Qed.

Lemma test_loop_mono j tg f g :
  filter_ok f -> bits_le f g -> test_loop j tg f = Ok true -> test_loop j tg g = Ok true.
Proof.
  intros Hf [Hs Hb]. revert tg. induction j as [|j IH]; intros tg; simpl; [done|].
  rewrite (same_shape_hash f g), (same_shape_rotate f g) by done.
  destruct (hash_ok f tg Hf) as (r & -> & Hr). cbn [mbind outcome_bind].
  unfold aget. destruct (bloomfilter f !! Z.to_nat r) as [x|] eqn:Hx; [|done].
  cbn [mbind outcome_bind]. destruct (Z.eqb_spec x 0) as [|Hx0]; [done|].
  destruct (Hb _ _ Hx Hx0) as (y & -> & Hy0). cbn [mbind outcome_bind].
  destruct (Z.eqb_spec y 0); [done|]. apply IH.
Qed.

Lemma insert_loop_ok j tg f :
  filter_ok f -> exists g, insert_loop j tg f = Ok g /\ bits_le f g /\
    counter g = counter f /\ test_loop j tg g = Ok true.
Proof.
  revert tg f. induction j as [|j IH]; intros tg f Hf; simpl.
  - exists f. split; [done|]. split; [reflexivity|done].
  - destruct (hash_ok f tg Hf) as (r & Hh & Hr). rewrite Hh. cbn [mbind outcome_bind].
    pose proof (f_len _ Hf) as Hl. unfold aset. rewrite decide_True by lia.
    cbn [mbind outcome_bind].
    set (f1 := f <| bloomfilter ::= insert (Z.to_nat r) 1%Z |>).
    change (MkFilter _ (<[_:=_]> _) _ _ _) with f1.
    assert (Hle : bits_le f f1) by (apply bits_le_set; lia).
    assert (Hf1 : filter_ok f1) by (eapply same_shape_ok; [apply Hle|done]).
    destruct (IH (rotate f tg) f1 Hf1) as (g & -> & Hg & Hc & Ht). exists g.
    assert (Hfg : bits_le f g) by (by etrans). split; [done|]. split; [done|].
    split; [done|].
    rewrite (same_shape_hash f g), (same_shape_rotate f g), Hh by apply Hfg.
    cbn [mbind outcome_bind]. unfold aget.
    destruct (proj2 Hg (Z.to_nat r) 1%Z) as (y & -> & Hy); [|done|].
    { simpl. rewrite list_lookup_insert_eq by lia. done. }
    cbn [mbind outcome_bind]. by destruct (Z.eqb_spec y 0).
Qed.

Lemma clear_shape f : length (bloomfilter f) = FILTE_NUM_BIT f -> same_shape f (clearbloomfilter f).
Proof. intros E. split_and!; try done. simpl. by rewrite length_replicate. Qed.

(** An insertion succeeds, remembers its tag, and forgets the others only
    when the counter is past 16. *)
Lemma insertTags_ok tg f :
  filter_ok f -> exists g, insertTags tg f = Ok g /\ same_shape f g /\
    testTags tg g = Ok true /\
    counter g = (if (16 <? counter f)%Z then 1 else counter f + 1)%Z /\
    ((counter f <= 16)%Z -> bits_le f g).
Proof.
  intros Hf. unfold insertTags, testTags.
  set (f1 := (if (16 <? counter f)%Z then clearbloomfilter f else f) <| counter ::= Z.succ |>).
  assert (Hs : same_shape f f1).
  { unfold f1. destruct (16 <? counter f)%Z; [|done]. apply clear_shape, Hf. }
  destruct (insert_loop_ok FUNC_NUM (i32 tg) f1 (same_shape_ok _ _ Hs Hf))
    as (g & -> & Hle & Hc & Ht).
  assert (Hsg : same_shape f g).
  { destruct Hs as (?&?&?&?), Hle as [(?&?&?&?) _]. split_and!; congruence. }
  exists g. split_and!; try done; [apply Hsg..| |].
  - rewrite Hc. unfold f1. by destruct (16 <? counter f)%Z.
  - intros Hcnt. unfold f1 in Hle. destruct (Z.ltb_spec 16 (counter f)); [lia|].
    destruct Hle as [Hl1 Hl2]. split; [done|]. intros i x. apply Hl2.
Qed.
End filter.

(** ** Laws *)

Section laws.
Import HSetBloomFilter.

Definition bloom_ok (t : TagStore) (fs : list Filter) : Prop :=
  length fs = numSets (cfg t) /\ Forall filter_ok fs.

Lemma bloom_frame t t' fs : cfg t' = cfg t -> bloom_ok t fs -> bloom_ok t' fs.
Proof. intros E. unfold bloom_ok. by rewrite E. Qed.

Context (t : TagStore) (Hwf : tags_wf t) (b : nat) (blk : CacheBlk) (Hb : mem t !! b = Some blk).

Lemma bloom_get fs :
  bloom_ok t fs -> exists f, aget fs (Z.to_nat (blk_set blk)) = Ok f /\ filter_ok f.
Proof.
  intros [Hl Hf]. destruct (blk_set_lt _ _ _ Hwf Hb) as (i & -> & Hi).
  rewrite Nat2Z.id. destruct (lookup_lt_is_Some_2 fs i) as [f Hfi]; [lia|].
  exists f. unfold aget. rewrite Hfi. split; [done|].
  apply (Forall_lookup_1 _ _ _ _ Hf Hfi).
Qed.

Lemma insertBloomFilter_ok fs tg :
  bloom_ok t fs ->
  exists fs', insertBloomFilter (blk_set blk) tg fs = Ok fs' /\ bloom_ok t fs'.
Proof.
  intros Hfs. destruct (bloom_get fs Hfs) as (f & E & Hf).
  unfold insertBloomFilter. rewrite E. cbn [mbind outcome_bind].
  destruct (insertTags_ok tg f Hf) as (g & -> & Hs & _). eexists. split; [done|].
  destruct Hfs as [Hl Hall]. split; [by rewrite length_insert|].
  apply Forall_insert; [done|]. by eapply same_shape_ok.
Qed.

Lemma testBloomFilter_ok fs tg :
  bloom_ok t fs -> exists r, testBloomFilter (blk_set blk) tg fs = Ok r.
Proof.
  intros Hfs. destruct (bloom_get fs Hfs) as (f & E & Hf).
  unfold testBloomFilter. rewrite E. cbn [mbind outcome_bind].
  by apply test_loop_ok.
Qed.

(** The insertion half of both policies. *)
Lemma remember_ok (evicts : bool) fs :
  bloom_ok t fs ->
  exists fs', (if evicts then insertBloomFilter (blk_set blk) (tag blk) fs else Ok fs) = Ok fs' /\
    bloom_ok t fs'.
Proof. intros Hfs. destruct evicts; [by apply insertBloomFilter_ok|eauto]. Qed.
End laws.

#[export] Instance HEAF_laws : PolicyLaws Heaf.HEAF.
Proof.
  refine {| pol_inv x := 7 < ways (cfg (base x)) /\ bloom_ok (base x) (Heaf.setbloomfilter x);
            pol_master _ := True; pol_slot x b := last_way (base x) b |}; try done.
  - intros t x [Hw Hf] [Ec Eo]. simpl in *. rewrite Ec. split; [done|]. by eapply bloom_frame.
  - intros t x b Hl Hf. by eapply frame_last_way.
  - intros env addr sec c m x t' ob lat [Hw Hf] Hwf _ Ha. cbn. unfold Heaf.accessBlock.
    open_access Hwf Ha.
    run_step (hit_move t' ob (fun b blk => updSet (blk_set blk) (moveToHead b)) Hwf' Hb
      ltac:(eauto with moves)). assert (Ec' : cfg t = cfg t') by (by rewrite (r_cfg _ _ Hr)).
    eexists. split; [done|]. split; [done|]. simpl. rewrite Ec', Ec. split; [done|].
    eapply bloom_frame; [|done]. congruence.
  - intros env addr x Hx Hwf. victim_is_last Heaf.heaf_base addr x Hwf.
  - intros env pkt b x t' [Hw Hf] Hok Hl Hin Hm _ E. cbn. unfold Heaf.insertBlock.
    pose proof Hin as (blk & Hb & Hset). simpl in *. rewrite (getBlk_ok _ _ _ Hb).
    cbn [mbind outcome_bind].
    destruct (remember_ok _ (ok_wf _ _ Hok) b blk Hb (isValid blk && negb (isPcm blk)) _ Hf)
      as (fs & -> & Hfs). cbn [mbind outcome_bind].
    open_insert Hok Hin Hm E. pose proof (ji_frame _ _ _ _ _ Hji) as Hfr.
    destruct (ji_in _ _ _ _ _ Hji) as (blk' & Hb' & Hset').
    rewrite (getBlk_ok _ _ _ Hb'). cbn [mbind outcome_bind]. rewrite Hset'.
    assert (exists g, moves_last (ways (cfg (Heaf.heaf_base x))) b g /\
      (if isValid blk && negb (isPcm blk) then
         found ← (if isPcm blk' then Ok true
                  else HSetBloomFilter.testBloomFilter (extractSet (cfg t') (pkt_addr pkt))
                         (extractTag (cfg t') (pkt_addr pkt)) fs);
         if found : bool then updSet (extractSet (cfg t') (pkt_addr pkt)) (moveToHead b) t'
         else updSet (extractSet (cfg t') (pkt_addr pkt)) (insertFixLocation b 7) t'
       else updSet (extractSet (cfg t') (pkt_addr pkt)) (moveToHead b) t')
      = move_in (pkt_addr pkt) g t') as (g & Hg & ->).
    { assert (moves_last (ways (cfg (Heaf.heaf_base x))) b (insertFixLocation b 7))
        by (apply insertFixLocation_last; change (u8 7) with 7%Z; lia).
      rewrite <- Hset'. unfold move_in. rewrite <- Hset'.
      destruct (testBloomFilter_ok t' (ok_wf _ _ (ji_ok _ _ _ _ _ Hji)) b blk' Hb' fs
        (extractTag (cfg t') (pkt_addr pkt)) (bloom_frame _ _ _ (proj1 Hfr) Hfs)) as [r Er].
      rewrite Er.
      destruct (isValid blk && _); [|exists (moveToHead b); eauto with moves].
      destruct (isPcm blk'); cbn [mbind outcome_bind]; [exists (moveToHead b); eauto with moves|].
      destruct r; [exists (moveToHead b)|exists (insertFixLocation b 7)]; eauto with moves. }
    run_step (move_in_last _ _ _ _ _ Hji g Hl Hg). eexists. split; [done|]. split; [done|].
    simpl. rewrite (frame_reorder_cfg _ _ _ Hfr Hr). split; [done|].
    eapply bloom_frame; [by eapply frame_reorder_cfg|done].
  - intros env b x blk t' [Hw Hf] Hok Hb Hv E. cbn. unfold Heaf.invalidate.
    invalidate_to_tail Hok Hb Hv E. eexists. split; [done|]. split; [done|]. simpl.
    rewrite (frame_reorder_cfg _ _ _ Hfr Hr). split; [done|].
    eapply bloom_frame; [by eapply frame_reorder_cfg|done].
Defined.

Lemma insertBlock_set env pkt b blk t t' :
  tags_ok env t -> mem t !! b = Some blk -> (0 <= masterId (req pkt) < maxMasters env)%Z ->
  insertBlock env pkt b t = Ok t' ->
  exists blk', mem t' !! b = Some blk' /\ blk_set blk' = blk_set blk.
Proof.
  intros Hok Hb Hm E. destruct (insertBlock_ok env pkt b blk t Hok Hb Hm)
    as (t1 & E1 & _ & _ & _ & _ & Em).
  rewrite E in E1. injection E1 as <-. eexists. rewrite Em.
  split; [apply list_lookup_insert_eq; by eapply lookup_lt_Some|].
  unfold inserted, retired. by destruct (isValid blk).
Qed.

#[export] Instance HYBBF_laws : PolicyLaws Hybbf.HYBBF.
Proof.
  refine {| pol_inv x := 7 < ways (cfg (base x)) /\ bloom_ok (base x) (Hybbf.setbloomfilter x);
            pol_master _ := True; pol_slot x b := last_way (base x) b |}; try done.
  - intros t x [Hw Hf] [Ec Eo]. simpl in *. rewrite Ec. split; [done|]. by eapply bloom_frame.
  - intros t x b Hl Hf. by eapply frame_last_way.
  - intros env addr sec c m x t' ob lat [Hw Hf] Hwf _ Ha. cbn. unfold Hybbf.accessBlock.
    open_access Hwf Ha.
    run_step (hit_move t' ob (fun b blk t =>
      if warmedUp t then if negb (isPcm blk) then updSet (blk_set blk) (moveNStep b 3) t
                         else updSet (blk_set blk) (moveToHead b) t
      else updSet (blk_set blk) (moveToHead b) t) Hwf' Hb
      ltac:(intros; apply promote_any; eauto with moves; apply moveNStep_any; lia)).
    eexists. split; [done|]. split; [done|]. simpl.
    assert (Ec' : cfg t = cfg (Hybbf.hybbf_base x)) by (by rewrite <- (r_cfg _ _ Hr)).
    rewrite Ec'. split; [done|]. by eapply bloom_frame.
  - intros env addr x Hx Hwf. victim_is_last Hybbf.hybbf_base addr x Hwf.
  - intros env pkt b x t' [Hw Hf] Hok Hl Hin Hm _ E. cbn. unfold Hybbf.insertBlock.
    insert_stage Hok Hin Hm E. pose proof (ji_frame _ _ _ _ _ Hji) as Hfr.
    pose proof Hin as (blk & Hb & Hset). simpl in *.
    destruct (insertBlock_set _ _ _ _ _ _ Hok Hb Hm E) as (blk' & Hb' & Hset').
    rewrite (getBlk_ok _ _ _ Hb), E. rewrite <- Hset. cbn [mbind outcome_bind].
    destruct (remember_ok _ (ok_wf _ _ Hok) b blk Hb (isValid blk && negb (isPcm blk)) _ Hf)
      as (fs & Efs & Hfs).
    assert (Hmove : forall f, moves_last (ways (cfg (Hybbf.hybbf_base x))) b f -> exists t'',
      updSet (blk_set blk) f t' = Ok t'' /\ reorder t' t'').
    { intros f Hg. pose proof (move_in_last _ _ _ _ _ Hji f Hl Hg) as Hmv. unfold move_in in Hmv.
      by rewrite (proj1 Hfr), <- Hset in Hmv. }
    assert (Hfix : forall n, (0 <= n <= 7)%Z ->
      moves_last (ways (cfg (Hybbf.hybbf_base x))) b (insertFixLocation b n)).
    { intros n Hn. apply insertFixLocation_last. rewrite wrap_small by lia. lia. }
    assert (Hend : forall t'' fs', reorder t' t'' -> bloom_ok (Hybbf.hybbf_base x) fs' ->
      7 < ways (cfg t'') /\ bloom_ok t'' fs').
    { intros t'' fs' Hr Hfs'. pose proof (frame_reorder_cfg _ _ _ Hfr Hr) as Ec. rewrite Ec.
      split; [done|]. by eapply bloom_frame. }
    destruct (warmedUp (Hybbf.hybbf_base x)).
    + rewrite Efs. cbn [mbind outcome_bind]. rewrite (getBlk_ok _ _ _ Hb').
      cbn [mbind outcome_bind]. rewrite <- Hset' in *.
      destruct (testBloomFilter_ok t' (ok_wf _ _ (ji_ok _ _ _ _ _ Hji)) b blk' Hb' fs
        (extractTag (cfg t') (pkt_addr pkt)) (bloom_frame _ _ _ (proj1 Hfr) Hfs)) as [r Er].
      rewrite Er. cbn [mbind outcome_bind].
      destruct (isPcm blk'); [|destruct r].
      * run_step (Hmove (moveToHead b) ltac:(eauto with moves)). eexists.
        split; [done|]. split; [done|]. by apply Hend.
      * run_step (Hmove _ (Hfix 3%Z ltac:(lia))). eexists.
        split; [done|]. split; [done|]. by apply Hend.
      * run_step (Hmove _ (Hfix 7%Z ltac:(lia))). eexists.
        split; [done|]. split; [done|]. by apply Hend.
    + run_step (Hmove (moveToHead b) ltac:(eauto with moves)). eexists.
      split; [done|]. split; [done|]. by apply Hend.
  - intros env b x blk t' [Hw Hf] Hok Hb Hv E. cbn. unfold Hybbf.invalidate.
    invalidate_to_tail Hok Hb Hv E. eexists. split; [done|]. split; [done|]. simpl.
    rewrite (frame_reorder_cfg _ _ _ Hfr Hr). split; [done|].
    eapply bloom_frame; [by eapply frame_reorder_cfg|done].
Defined.

(** ** No false negatives *)

Section remembered.
Import HSetBloomFilter.

Definition insert_tags (tags : list Z) (f : Filter) : outcome Filter :=
  foldl (fun r tg => f ← r; insertTags tg f) (Ok f) tags.

(** The Bloom filter of HEAF and HYBBF has no false negatives between two
    clearings: as long as the counter does not pass 16 on the way, a sequence
    of [insertTags] succeeds and [testTags] finds every tag inserted.  (The
    array has at least [2^FILTE_NUM] entries and [FILTE_NUM] is at most the
    number of tag bits; otherwise the hash indexes outside an array.) *)
Theorem bloom_no_false_negatives (tags : list Z) (f : Filter) :
  filter_ok f -> (counter f + Z.of_nat (length tags) <= 17)%Z ->
  exists g, insert_tags tags f = Ok g /\ forall tg, tg ∈ tags -> testTags tg g = Ok true.
Proof.
  intros Hf Hc.
  assert (H : exists g, insert_tags tags f = Ok g /\ filter_ok g /\
    counter g = (counter f + Z.of_nat (length tags))%Z /\
    forall tg, tg ∈ tags -> testTags tg g = Ok true); [|destruct H as (g & ? & _ & _ & ?); eauto].
  induction tags as [|tg tags IH] using rev_ind.
  { exists f. split_and!; [done|done|simpl; lia|]. by intros tg ?%elem_of_nil. }
  rewrite length_app in Hc. simpl in Hc. destruct IH as (g & E & Hg & Ec & Ht); [lia|].
  unfold insert_tags in *. rewrite foldl_app, E. simpl.
  destruct (insertTags_ok tg g Hg) as (g' & -> & Hs & Hin & Hc' & Hle).
  exists g'. split_and!; [done|by eapply same_shape_ok|..].
  - rewrite Hc', length_app. simpl. destruct (Z.ltb_spec 16 (counter g)); lia.
  - intros tg' [Hin'| ->%list_elem_of_singleton]%elem_of_app; [|done].
    specialize (Hle ltac:(lia)). specialize (Ht tg' Hin').
    unfold testTags in *. by eapply test_loop_mono.
Qed.
End remembered.

Lemma bloom_no_false_negatives_witness :
  exists f g, HSetBloomFilter.HSetBloomFilter_new 0 64 20 = Ok f /\
    insert_tags [3; 70000; 12345]%Z f = Ok g /\
    forall tg, tg ∈ [3; 70000; 12345]%Z -> HSetBloomFilter.testTags tg g = Ok true.
Proof.
  set (f := HSetBloomFilter.MkFilter 0 (replicate 64 0%Z) 6 64 20). exists f.
  destruct (bloom_no_false_negatives [3; 70000; 12345]%Z f) as (g & E & H).
  - split; simpl; lia.
  - simpl. lia.
  - exists g. by split_and!.
Defined.
