(* ===== verification/Brp.v ===== *)
(** The partitioning policy [BRP] ([brp.hh], [brp.cc]): an emulated tag
    directory per core measures the latency each number of ways would save, a
    search finds the best partition of every set, and blocks are inserted and
    promoted by the partition of the core they belong to. *)
From S2P Require Import Prelude IntMath MemTypes Blk CacheSet SetAssoc Tags Policy.
From Stdlib Require Import Floats.SpecFloat.

#[local] Open Scope Z_scope.

(** ** Definitions *)

Module Brp.
Definition NUM_CORE : nat := 4.
Definition NVM_r_t : Z := 24.
Definition NVM_w_t : Z := 70.
Definition DRAM_r_t : Z := 9.
Definition DRAM_w_t : Z := 10.
Definition SAMPLE_SET : Z := 32.

(** [record_sets[core][set][way]] are the emulated blocks, of which [tag],
    [status], [asid] and [asid_dirty] are used. *)
Record BRP := MkBRP {
  brp_base : TagStore;
  record_sets : list (list (list CacheBlk));
  access : list Z;
  hits : list Z;
  isStream : list Z;
  save_overhead : list (list Z);
  hit : Z;
  best : Z;
  core : list (list Z);
  core_sampling : list Z;
  skip_set : Z;
  accessPCMTimes : list (list Z);
  accessDRAMTimes : list (list Z);
  accessPCM : list Z;
  accessDRAM : list Z
}.
#[global] Instance BRP_settable : Settable BRP := fun x =>
  MkBRP (brp_base x) (record_sets x) (access x) (hits x) (isStream x) (save_overhead x)
    (hit x) (best x) (core x) (core_sampling x) (skip_set x) (accessPCMTimes x)
    (accessDRAMTimes x) (accessPCM x) (accessDRAM x).

Definition emulated_blk : CacheBlk :=
  CacheBlk_new <| tag := u64 (-1) |> <| asid := 0 |> <| asid_dirty := 0 |> <| status := 0 |>.

(** The members the constructor leaves uninitialised ([isStream], [best],
    [accessPCM], [accessDRAM]) are written before they are read. *)
Definition BRP_new (t : TagStore) : BRP :=
  let assoc := ways (cfg t) in
  let number_set := numSets (cfg t) in
  {| brp_base := t;
     record_sets := replicate NUM_CORE (replicate number_set (replicate assoc emulated_blk));
     access := replicate NUM_CORE 0; hits := replicate NUM_CORE 0;
     isStream := replicate NUM_CORE 0;
     save_overhead := replicate NUM_CORE (replicate assoc 0);
     hit := 0; best := 0;
     core := replicate number_set (replicate NUM_CORE (Z.of_nat assoc / 4));
     core_sampling := replicate NUM_CORE ((Z.of_nat assoc + 1) / Z.of_nat NUM_CORE);
     skip_set := Z.of_nat number_set / SAMPLE_SET;
     accessPCMTimes := replicate number_set (replicate NUM_CORE 0);
     accessDRAMTimes := replicate number_set (replicate NUM_CORE 0);
     accessPCM := replicate NUM_CORE 0; accessDRAM := replicate NUM_CORE 0 |}.

(** *** The emulated directory *)

Definition copy_tag (from to : CacheBlk) : CacheBlk :=
  to <| tag := tag from |> <| status := status from |>.

(** [for (i = index; i > 0; i--)] of [MoveTagHead]: the tag and status of each
    entry come from the one before it. *)
Fixpoint move_down (i : nat) (row : list CacheBlk) : outcome (list CacheBlk) :=
  match i with
  | O => Ok row
  | S j => to ← aget row i; from ← aget row j;
           move_down j (<[i := copy_tag from to]> row)
  end.

Definition MoveTagHead (index : nat) (row : list CacheBlk) : outcome (list CacheBlk) :=
  if decide (index = O) then Ok row
  else
    moved ← aget row index;
    row ← move_down index row;
    head ← aget row 0;
    Ok (<[O := copy_tag moved head]> row).

(** [for (i = index; i < assoc - 1; i++)] of [MoveTagTail]; [n] is
    [assoc - 1 - i]. *)
Fixpoint move_up (n i : nat) (row : list CacheBlk) : outcome (list CacheBlk) :=
  match n with
  | O => Ok row
  | S n => to ← aget row i; from ← aget row (S i);
           move_up n (S i) (<[i := copy_tag from to]> row)
  end.

Definition MoveTagTail (assoc index : nat) (row : list CacheBlk) : outcome (list CacheBlk) :=
  if decide (index = assoc - 1)%nat then Ok row
  else
    moved ← aget row index;
    row ← move_up (assoc - 1 - index) index row;
    last ← aget row (assoc - 1);
    Ok (<[(assoc - 1)%nat := copy_tag moved last]> row).

(** The first of the ways whose tag is [tag]. *)
Fixpoint find_tag (tg : Z) (i : nat) (row : list CacheBlk) : option nat :=
  match row with
  | [] => None
  | blk :: row => if tag blk =? tg then Some i else find_tag tg (S i) row
  end.

(** The latency a hit saves, charged to the position of the stack. *)
Definition charge (ispcm : bool) (blk : CacheBlk) : CacheBlk :=
  if negb (status blk =? 0) then
    blk <| asid_dirty ::= Z.add (if ispcm then NVM_w_t else DRAM_w_t) |>
  else blk <| asid ::= Z.add (if ispcm then NVM_r_t else DRAM_r_t) |>.

Definition set_dirty (c : Command) (blk : CacheBlk) : CacheBlk :=
  if decide (c = Writeback) then blk <| status := 1 |> else blk.

(** One access to the row of a set: the new row, and whether it hit. *)
Definition record_row (assoc : nat) (ispcm : bool) (c : Command) (tg : Z)
    (row : list CacheBlk) : outcome (list CacheBlk * bool) :=
  match find_tag tg 0 (take assoc row) with
  | Some i =>
      blk ← aget row i;
      row ← MoveTagHead i (<[i := set_dirty c (charge ispcm blk)]> row); Ok (row, true)
  | None =>
      blk ← aget row (assoc - 1);
      let blk := blk <| status := if decide (c = Writeback) then 1 else 0 |> <| tag := tg |> in
      row ← MoveTagHead (assoc - 1) (<[(assoc - 1)%nat := blk]> row); Ok (row, false)
  end.

Definition record_brp (env : Env) (addr : Z) (c : Command) (port : Z) (x : BRP)
    : outcome BRP :=
  let t := brp_base x in
  let set := extractSet (cfg t) addr in
  let ispcm := is_pcm env addr in
  rows ← zget (record_sets x) port;
  row ← zget rows set;
  '(row, found) ← record_row (ways (cfg t)) ispcm c (extractTag (cfg t) addr) row;
  rs ← zupd port (zupd set (fun _ => Ok row)) (record_sets x);
  let x := x <| record_sets := rs |> in
  if found : bool then
    let x := x <| hit ::= Z.succ |> in
    let count := zupd set (zupd port (fun n => Ok (n + 1))) in
    if ispcm then n ← count (accessPCMTimes x); Ok (x <| accessPCMTimes := n |>)
    else n ← count (accessDRAMTimes x); Ok (x <| accessDRAMTimes := n |>)
  else Ok x.

(** *** The search for the best partition *)

(** State of the search: [best], and the row [core[setIndex]]. *)
Definition Search : Type := Z * list Z.

(** [for (i = level; i < NUM_CORE; i++) core[setIndex][i] = 0]. *)
Definition zero_from (level : nat) (row : list Z) : list Z :=
  imap (fun i v => if decide (level <= i < NUM_CORE)%nat then 0 else v) row.

(** [ret = res + ret; if (res) core[setIndex][level] = v]. *)
Definition take_res (level : nat) (v : Z) (a : Z * Search) (res : Z) : Z * Search :=
  let '(ret, (best, row)) := a in
  (ret + res, (best, if res =? 0 then row else <[level := v]> row)).

(** [subBest(setIndex, level, tempBest, remain)] with [n] levels left
    ([NUM_CORE - level]); [save] is [save_overhead].  The result counts the
    improvements of [best]. *)
Fixpoint subBest (save : list (list Z)) (n level : nat) (tempBest : Z) (remain : nat)
    (st : Search) {struct n} : outcome (Z * Search) :=
  let leaf :=
    let '(best, row) := st in
    if best <? tempBest then
      let row := if decide (remain = O /\ (level < NUM_CORE)%nat)
                 then zero_from level row else row in
      Ok (1, (tempBest, row))
    else Ok (0, st) in
  match n with
  | O => leaf
  | S n' =>
      if decide (remain = O) then leaf
      else
        '(res, st) ← subBest save n' (S level) tempBest remain st;
        for_from 0 remain (fun i '(ret, st) =>
          gains ← aget save level;
          gain ← aget gains i;
          '(res, st) ← subBest save n' (S level) (tempBest + gain) (remain - i - 1) st;
          Ok (take_res level (Z.of_nat i + 1) (ret, st) res))
          (take_res level 0 (0, st) res)
  end.

Definition find_best (save : list (list Z)) (assoc : nat) (maxRatioIndex : nat) (row : list Z)
    : outcome (Z * list Z) :=
  '(_, (best, row)) ← subBest save NUM_CORE 0 0 assoc (0, row);
  let remain := foldl Z.sub (Z.of_nat assoc) (take NUM_CORE row) in
  if 0 <? remain then
    v ← aget row maxRatioIndex; Ok (best, <[maxRatioIndex := v + remain]> row)
  else Ok (best, row).

(** *** [setRecord] *)

(** The hit ratio of core [i], zero when it made no access. *)
Definition hit_ratio (x : BRP) (i : nat) : outcome spec_float :=
  a ← aget (access x) i;
  h ← aget (hits x) i;
  Ok (if 0 <? a then ddiv (to_double h) (to_double a) else to_double 0).

(** The first loop: [isStream], [maxRatioIndex], and the counts restarted.
    The state is [maxRatio], [maxRatioIndex] and the object. *)
Definition ratios (x : BRP) : outcome (nat * BRP) :=
  '(_, idx, x) ← for_from 0 NUM_CORE (fun i '(maxRatio, idx, x) =>
    temp_ratio ← hit_ratio x i;
    let stream := b2Z (dlt temp_ratio (ddiv (to_double 1) (to_double 8))) in
    let x := x <| isStream ::= insert i stream |> <| access ::= insert i 0 |>
               <| hits ::= insert i 0 |> in
    Ok (if dlt maxRatio temp_ratio then (temp_ratio, i, x) else (maxRatio, idx, x)))
    (to_double 0, O, x);
  let allStream := foldl Z.add 0 (take NUM_CORE (isStream x)) in
  let x := if allStream =? Z.of_nat NUM_CORE
           then x <| isStream := replicate NUM_CORE 0 |> else x in
  Ok (idx, x).

(** Cumulative savings of a row: entry [j] is what [j + 1] ways save. *)
Fixpoint savings (acc : Z) (row : list CacheBlk) : list Z :=
  match row with
  | [] => []
  | blk :: row => let acc := acc + (asid blk + asid_dirty blk) in acc :: savings acc row
  end.

Definition reset_row (row : list CacheBlk) : list CacheBlk :=
  (fun blk => blk <| asid := 0 |> <| asid_dirty := 0 |>) <$> row.

(** The second loop, for set [i] and core [k]: compute [save_overhead] and
    restart the counters of the emulated row. *)
Definition record_core (assoc i k : nat) (x : BRP) : outcome BRP :=
  rows ← aget (record_sets x) k;
  row ← aget rows i;
  assert! bool_decide (assoc <= length row)%nat;
  let row' := reset_row (take assoc row) ++ drop assoc row in
  Ok (x <| save_overhead ::= insert k (savings 0 (take assoc row)) |>
        <| record_sets ::= insert k (<[i := row']> rows) |>).

(** The second loop, for set [i]: all cores, then the search. *)
Definition record_set (maxRatioIndex : nat) (i : nat) (x : BRP) : outcome BRP :=
  let assoc := ways (cfg (brp_base x)) in
  x ← for_from 0 NUM_CORE (record_core assoc i) x;
  row ← aget (core x) i;
  '(best', row) ← find_best (save_overhead x) assoc maxRatioIndex row;
  Ok (x <| best := best' |> <| core ::= insert i row |>).

(** The last loop, for set [i] and core [k]. *)
Definition sample (i k : nat) (x : BRP) : outcome BRP :=
  if Z.land (Z.of_nat i) (skip_set x - 1) =? 0 then
    row ← aget (core x) i;
    n ← aget row k;
    cs ← zupd (Z.of_nat k) (fun v => Ok (v + n)) (core_sampling x);
    prow ← aget (accessPCMTimes x) i; p ← aget prow k;
    drow ← aget (accessDRAMTimes x) i; d ← aget drow k;
    Ok (x <| core_sampling := cs |>
          <| accessPCM ::= insert k p |> <| accessDRAM ::= insert k d |>
          <| accessPCMTimes ::= insert i (<[k := 0]> prow) |>
          <| accessDRAMTimes ::= insert i (<[k := 0]> drow) |>)
  else Ok x.

Definition setRecord (x : BRP) : outcome BRP :=
  let number_set := numSets (cfg (brp_base x)) in
  '(maxRatioIndex, x) ← ratios x;
  let x := x <| hit := 0 |> in
  x ← for_from 0 number_set (record_set maxRatioIndex) x;
  let x := x <| accessPCM := replicate NUM_CORE 0 |>
             <| accessDRAM := replicate NUM_CORE 0 |> in
  x ← for_from 0 number_set (fun i => for_from 0 NUM_CORE (sample i)) x;
  Ok (x <| core_sampling ::= fmap (fun v => Z.quot v SAMPLE_SET) |>).

(** *** The policy *)

Definition accessBlock (env : Env) (addr : Z) (sec : bool) (c : Command) (port : Z)
    (x : BRP) : outcome (BRP * option nat * Z) :=
  '(t, ob, lat) ← SetAssoc.accessBlock env addr sec (brp_base x);
  x ← record_brp env addr c port (x <| brp_base := t |>);
  acc ← zupd port (fun n => Ok (n + 1)) (access x);
  let x := x <| access := acc |> in
  match ob with
  | None => Ok (x, ob, lat)
  | Some b =>
      blk ← getBlk t b;
      t ← (if negb (warmedUp t) then updSet (blk_set blk) (moveToHead b) t
           else
             n ← zget (core_sampling x) port;
             if isPcm blk then updSet (blk_set blk) (moveNStep b (Z.quot n 2 + 1)) t
             else updSet (blk_set blk) (moveNStep b (Z.quot n 4 + 1)) t);
      hs ← zupd port (fun n => Ok (n + 1)) (hits x);
      Ok (x <| brp_base := t |> <| hits := hs |>, ob, lat)
  end.

Definition findVictim (addr : Z) (x : BRP) : outcome nat := lastWay addr (brp_base x).

(** Position, counted from the tail, of a new block of a core whose partition
    has [n] ways; compared as unsigned when [assoc] takes part. *)
Definition position (assoc : Z) (ispcm : bool) (n : Z) : Z :=
  let dram_offset := 2 in
  let pcm_offset := 4 in
  if ispcm then
    if u32 (assoc - 1) <? u32 (n + pcm_offset) then i32 (assoc - 1) else n + pcm_offset
  else if 0 <? n - dram_offset then n - dram_offset else 0.

Definition insertBlock (env : Env) (pkt : Packet) (b : nat) (x : BRP) : outcome BRP :=
  t ← SetAssoc.insertBlock env pkt b (brp_base x);
  let set := extractSet (cfg t) (pkt_addr pkt) in
  let assoc := Z.of_nat (ways (cfg t)) in
  t ← (if negb (warmedUp t) then updSet set (moveToHead b) t
       else
         let portId := portId (masterId (req pkt)) in
         blk ← getBlk t b;
         n ← zget (core_sampling x) portId;
         updSet set (insertFixLocation b
           (u32 (assoc - 1 - position assoc (isPcm blk) n))) t);
  Ok (x <| brp_base := t |>).

(** The first emulated entry of the set with the tag is dropped: cores in
    order, ways in order, at most one entry. *)
Fixpoint forget (assoc : nat) (set tg : Z) (rss : list (list (list CacheBlk)))
    : outcome (list (list (list CacheBlk))) :=
  match rss with
  | [] => Ok []
  | rows :: rss =>
      row ← zget rows set;
      match find_tag tg 0 (take assoc row) with
      | Some i =>
          blk ← aget row i;
          row ← MoveTagTail assoc i (<[i := blk <| tag := u64 (-1) |>]> row);
          Ok (<[Z.to_nat set := row]> rows :: rss)
      | None => rss ← forget assoc set tg rss; Ok (rows :: rss)
      end
  end.

Definition invalidate (env : Env) (b : nat) (x : BRP) : outcome BRP :=
  t ← SetAssoc.invalidate env b (brp_base x);
  t ← move_own b (moveToTail b) t;
  blk ← getBlk t b;
  rs ← forget (ways (cfg t)) (blk_set blk) (tag blk) (record_sets x);
  Ok (x <| brp_base := t |> <| record_sets := rs |>).

#[global] Instance policy : Policy BRP := {
  base := brp_base;
  rebase t x := x <| brp_base := t |>;
  pol_accessBlock := accessBlock;
  pol_findVictim _ addr x := b ← findVictim addr x; Ok (x, b);
  pol_insertBlock := insertBlock;
  pol_invalidate := invalidate
}.
End Brp.

(** ** The search is exhaustive *)

#[local] Open Scope nat_scope.

Section search.
Import Brp.
Context (save : list (list Z)).

(** What a core gains from [a] ways, and a whole (partial) partition. *)
Definition gain_of (k a : nat) : Z :=
  match a with O => 0%Z | S a => default 0%Z (default [] (save !! k) !! a) end.
Fixpoint value (level : nat) (l : list nat) : Z :=
  match l with [] => 0%Z | a :: l => (gain_of level a + value (S level) l)%Z end.

Definition sum (l : list nat) : nat := foldr Nat.add 0 l.

(** The search space at a level: [n] shares that add up to [remain] at most. *)
Definition share (n remain : nat) (l : list nat) : Prop := length l = n /\ sum l <= remain.

(** What a call may have done to the state: nothing, or found a better
    partition, now in the row. *)
Definition progress (n level : nat) (temp : Z) (remain : nat) (st : Search) (ret : Z)
    (st' : Search) : Prop :=
  (0 <= ret)%Z /\
  if decide (ret = 0%Z) then st' = st
  else (st.1 < st'.1)%Z /\ exists l, share n remain l /\
    st'.2 = take level st.2 ++ (Z.of_nat <$> l) /\ (temp + value level l)%Z = st'.1.

Definition covered (temp : Z) (level : nat) (best : Z) (P : list nat -> Prop) : Prop :=
  forall l, P l -> (temp + value level l <= best)%Z.

Lemma share_zero n l : share n 0 l -> l = replicate n 0.
Proof.
  intros [Hl Hs]. revert n Hl Hs. induction l as [|a l IH]; intros [|n] Hl Hs; simpl in *;
    try lia; [done|]. f_equal; [lia|]. apply IH; lia.
Qed.

Lemma value_zeros level n : value level (replicate n 0) = 0%Z.
Proof. revert level. induction n as [|n IH]; intros level; simpl; [done|]. by rewrite IH. Qed.

Lemma sum_zeros n : sum (replicate n 0) = 0.
Proof. induction n as [|n IH]; simpl; [done|]. by rewrite IH. Qed.

Lemma zero_from_split level n (row : list Z) :
  length row = NUM_CORE -> level + n = NUM_CORE ->
  zero_from level row = take level row ++ (Z.of_nat <$> replicate n 0).
Proof.
  intros Hr Hn. rewrite fmap_replicate. apply list_eq. intros i. unfold zero_from.
  rewrite list_lookup_imap. destruct (decide (i < level)).
  - rewrite lookup_app_l by (rewrite length_take; lia). rewrite lookup_take_lt by done.
    destruct (row !! i); [|done]. cbn [fmap option_fmap option_map].
    by rewrite decide_False by lia.
  - rewrite lookup_app_r by (rewrite length_take; lia).
    rewrite length_take, Hr, Nat.min_l by lia. destruct (decide (i < NUM_CORE)).
    + destruct (lookup_lt_is_Some_2 row i ltac:(lia)) as [v ->].
      cbn [fmap option_fmap option_map]. rewrite decide_True by lia.
      by rewrite lookup_replicate_2 by lia.
    + rewrite (lookup_ge_None_2 row i) by lia.
      rewrite (lookup_ge_None_2 (replicate _ _)) by (rewrite length_replicate; lia). done.
Qed.

Lemma progress_length n level temp remain st ret st' :
  length st.2 = NUM_CORE -> level + n = NUM_CORE ->
  progress n level temp remain st ret st' -> length st'.2 = NUM_CORE.
Proof.
  intros Hr Hn [_ H]. case_decide; [by subst|]. destruct H as (_ & l & [Hl _] & -> & _).
  rewrite length_app, length_take, length_fmap. lia.
Qed.

Lemma leaf_ok n level temp remain best row :
  length row = NUM_CORE -> level + n = NUM_CORE -> (n = 0 \/ remain = 0) ->
  exists ret st', (if (best <? temp)%Z then
       Ok (1%Z, (temp, if decide (remain = 0 /\ level < NUM_CORE)
                       then zero_from level row else row))
     else Ok (0%Z, (best, row))) = Ok (ret, st') /\
    progress n level temp remain (best, row) ret st' /\
    covered temp level st'.1 (share n remain) /\ (best <= st'.1)%Z.
Proof.
  intros Hr Hn Hleaf.
  assert (Hz : forall l, share n remain l -> l = replicate n 0).
  { intros l Hl. destruct Hleaf as [->| ->]; [|by apply share_zero].
    destruct Hl as [Hl _]. by apply length_zero_iff_nil in Hl as ->. }
  assert (Hcov : forall v, (temp <= v)%Z -> covered temp level v (share n remain)).
  { intros v Hv l Hl. rewrite (Hz l Hl), value_zeros. lia. }
  destruct (Z.ltb_spec best temp); eexists _, _; (split; [done|]).
  - split; [|split; [apply Hcov; simpl; lia|simpl; lia]]. split; [lia|]. simpl. split; [lia|].
    exists (replicate n 0). rewrite value_zeros. split_and!; [| |lia].
    + split; [apply length_replicate|]. rewrite sum_zeros. lia.
    + case_decide as Hd; [by apply zero_from_split|].
      assert (n = 0) as -> by lia. rewrite take_ge by lia. by rewrite app_nil_r.
  - split; [done|]. split; [apply Hcov; simpl; lia|simpl; lia].
Qed.

(** One more candidate share [v] for the core at [level]. *)
Lemma candidate_ok n level temp remain st ret st1 res st2 v :
  length st.2 = NUM_CORE -> level + S n = NUM_CORE -> v <= remain ->
  progress (S n) level temp remain st ret st1 ->
  progress n (S level) (temp + gain_of level v) (remain - v) st1 res st2 ->
  exists ret' st', take_res level (Z.of_nat v) (ret, st2) res = (ret', st') /\
    progress (S n) level temp remain st ret' st' /\ st'.1 = st2.1.
Proof.
  intros Hr Hn Hv H1 H2. pose proof (progress_length _ _ _ _ _ _ _ Hr Hn H1) as Hr1.
  destruct st as [best row], st1 as [best1 row1], st2 as [best2 row2]. simpl in *.
  destruct H1 as [Hret H1], H2 as [Hres H2]. simpl in *.
  destruct (Z.eqb_spec res 0) as [->|Hne].
  - rewrite decide_True in H2 by done. injection H2 as -> ->.
    eexists _, _. split; [done|]. split; [|done]. split; [lia|]. by rewrite Z.add_0_r.
  - rewrite decide_False in H2 by done. destruct H2 as (Hb & l & [Hl Hs] & -> & Hval).
    eexists _, _. split; [done|]. split; [|done]. split; [lia|].
    rewrite decide_False by lia. simpl in *.
    assert (best <= best1)%Z.
    { case_decide; [by simplify_eq|]. destruct H1 as [H1 _]. lia. }
    split; [lia|]. exists (v :: l). split; [split; simpl; lia|]. split; [|simpl; lia].
    assert (Ht : take level row1 = take level row).
    { case_decide; [by simplify_eq|]. destruct H1 as (_ & l1 & _ & -> & _).
      rewrite take_app_le by (rewrite length_take; lia). rewrite take_take. by rewrite Nat.min_id. }
    rewrite <- Ht. simpl.
    rewrite (take_S_r row1 level (default 0%Z (row1 !! level))).
    2: { destruct (lookup_lt_is_Some_2 row1 level ltac:(lia)) as [x ->]. done. }
    rewrite <- app_assoc. rewrite insert_app_r_alt by (rewrite length_take; lia).
    rewrite length_take, Nat.min_l, Nat.sub_diag by lia. done.
Qed.

Definition gains_ok (level n remain : nat) : Prop :=
  forall k, level <= k < level + n -> exists g, save !! k = Some g /\ remain <= length g.

(** The search explores every partition, never worsens [best], and the row
    holds the partition behind the last improvement. *)
Lemma subBest_ok n level temp remain st :
  length st.2 = NUM_CORE -> level + n = NUM_CORE -> gains_ok level n remain ->
  exists ret st', subBest save n level temp remain st = Ok (ret, st') /\
    progress n level temp remain st ret st' /\
    covered temp level st'.1 (share n remain) /\ (st.1 <= st'.1)%Z.
Proof.
  revert level temp remain st. induction n as [|n IH]; intros level temp remain st Hr Hn Hg.
  { destruct st as [best row]. apply leaf_ok; [done|done|by left]. }
  cbn [subBest]. case_decide as Hrem.
  { destruct st as [best row]. apply leaf_ok; [done|done|by right]. }
  assert (Hg' : forall r, r <= remain -> gains_ok (S level) n r).
  { intros r Hle k Hk. destruct (Hg k ltac:(lia)) as (g & ? & ?). exists g. split; [done|lia]. }
  destruct (IH (S level) temp remain st Hr ltac:(lia) (Hg' remain ltac:(lia)))
    as (res0 & st0 & -> & Hp0 & Hc0 & Hle0). cbn [mbind outcome_bind].
  assert (Hp00 : progress (S n) level temp remain st 0 st) by (split; [done|]; done).
  destruct (candidate_ok n level temp remain st 0 st res0 st0 0 Hr Hn ltac:(lia) Hp00)
    as (ret1 & st1 & E1 & Hp1 & Hb1).
  { by rewrite Z.add_0_r, Nat.sub_0_r. }
  change 0%Z with (Z.of_nat 0) at 1. rewrite E1.
  pose (I i (a : Z * Search) := progress (S n) level temp remain st a.1 a.2 /\
    covered temp level a.2.1 (fun l => share (S n) remain l /\ default 0 (head l) <= i) /\
    (st.1 <= a.2.1)%Z).
  edestruct (for_from_inv I 0 remain) as ([ret st'] & E & (Hp & Hc & Hle)).
  3: { eexists _, _. split; [exact E|]. split; [done|]. split; [|done].
       intros l Hl. apply Hc. split; [done|]. destruct Hl as [_ Hs].
       destruct l; simpl in *; lia. }
  - intros i [ret2 st2] Hi (Hp2 & Hc2 & Hle2). cbn [fst snd] in *.
    destruct (Hg level ltac:(lia)) as (g & Hgl & Hlen). unfold aget.
    rewrite Hgl. cbn [mbind outcome_bind].
    destruct (lookup_lt_is_Some_2 g i ltac:(lia)) as [gain Hgain]. rewrite Hgain.
    cbn [mbind outcome_bind].
    assert (Egain : gain = gain_of level (S i)) by (simpl; by rewrite Hgl; simpl; rewrite Hgain).
    pose proof (progress_length _ _ _ _ _ _ _ Hr Hn Hp2) as Hr2.
    destruct (IH (S level) (temp + gain)%Z (remain - i - 1) st2 Hr2 ltac:(lia)
      (Hg' (remain - i - 1) ltac:(lia))) as (res3 & st3 & -> & Hp3 & Hc3 & Hle3).
    cbn [mbind outcome_bind]. rewrite Egain in *.
    replace (remain - i - 1) with (remain - S i) in * by lia.
    destruct (candidate_ok n level temp remain st ret2 st2 res3 st3 (S i) Hr Hn ltac:(lia)
      Hp2 Hp3) as (ret4 & st4 & E4 & Hp4 & Hb4).
    replace (Z.of_nat i + 1)%Z with (Z.of_nat (S i)) by lia. rewrite E4.
    eexists. split; [done|]. split_and!; simpl; [done| |rewrite Hb4; lia].
    intros [|a l] [[Hl Hs] Ha]; [done|]. simpl in *. rewrite Hb4.
    destruct (decide (a = S i)) as [->|].
    + specialize (Hc3 l ltac:(split; lia)). simpl in *. lia.
    + specialize (Hc2 (a :: l) ltac:(split; [split|]; simpl; lia)). simpl in *. lia.
  - split_and!; simpl; [done| |by rewrite Hb1].
    intros [|a l] [[Hl Hs] Ha]; [done|]. simpl in *. assert (a = 0) as -> by lia. simpl.
    rewrite Hb1. apply Hc0. split; lia.
Qed.
End search.

(** ** The partition found *)

Section partition.
Import Brp.
Context (save : list (list Z)) (assoc : nat).

(** A partition of [assoc] ways, as a row of [core]. *)
Definition part_ok (row : list Z) : Prop :=
  exists l, row = Z.of_nat <$> l /\ length l = NUM_CORE /\ sum l <= assoc.
Definition full_part (row : list Z) (l : list nat) : Prop :=
  row = Z.of_nat <$> l /\ length l = NUM_CORE /\ sum l = assoc.

Lemma foldl_sub z l : foldl Z.sub z (Z.of_nat <$> l) = (z - Z.of_nat (sum l))%Z.
Proof. revert z. induction l as [|a l IH]; intros z; simpl; [lia|]. rewrite IH. lia. Qed.

Lemma sum_insert l i a b :
  l !! i = Some a -> sum (<[i := b]> l) + a = sum l + b.
Proof.
  revert i. induction l as [|x l IH]; intros [|i] Hi; simplify_eq/=; [lia|].
  specialize (IH i Hi). lia.
Qed.

(** Giving a core more ways does not cost anything. *)
Definition gains_mono : Prop := forall k a b, k < NUM_CORE -> a <= b <= assoc ->
  (gain_of save k a <= gain_of save k b)%Z.

Lemma value_insert level l i a b :
  gains_mono -> level + length l <= NUM_CORE -> l !! i = Some a -> a <= b <= assoc ->
  (value save level l <= value save level (<[i := b]> l))%Z.
Proof.
  intros Hm. revert level i. induction l as [|x l IH]; intros level [|i] Hl Hi Hab;
    simplify_eq/=.
  - specialize (Hm level a b ltac:(lia) Hab). lia.
  - specialize (IH (S level) i ltac:(lia) Hi Hab). lia.
Qed.

Lemma find_best_ok idx row :
  idx < NUM_CORE -> part_ok row -> gains_ok save 0 NUM_CORE assoc ->
  exists best row' l, find_best save assoc idx row = Ok (best, row') /\ full_part row' l /\
    (gains_mono -> forall l', share NUM_CORE assoc l' -> (value save 0 l' <= value save 0 l)%Z).
Proof.
  intros Hidx (l0 & -> & Hl0 & Hs0) Hg. unfold find_best.
  destruct (subBest_ok save NUM_CORE 0 0 assoc (0%Z, Z.of_nat <$> l0))
    as (ret & [best row1] & -> & Hp & Hc & Hle); [cbn [snd]; by rewrite length_fmap|done|done|].
  cbn [mbind outcome_bind].
  assert (exists l1, row1 = Z.of_nat <$> l1 /\ length l1 = NUM_CORE /\ sum l1 <= assoc /\
    (gains_mono -> forall l', share NUM_CORE assoc l' -> (value save 0 l' <= value save 0 l1)%Z))
    as (l1 & -> & Hl1 & Hs1 & Hopt).
  { destruct Hp as [_ Hp]. case_decide.
    - injection Hp as -> ->. exists l0. split_and!; try done. intros Hm l' Hl'.
      specialize (Hc l' Hl'). simpl in Hc.
      assert (forall level l, level + length l <= NUM_CORE -> sum l <= assoc ->
        (0 <= value save level l)%Z) as Hnn.
      { intros level l. revert level. induction l as [|x l IH]; intros level Hll Hsl; simpl in *; [lia|].
        specialize (IH (S level) ltac:(lia) ltac:(lia)).
        pose proof (Hm level 0 x ltac:(lia) ltac:(lia)). simpl in *. lia. }
      specialize (Hnn 0 l0 ltac:(lia) Hs0). lia.
    - destruct Hp as (_ & l & [Hl Hs] & E & Hv). simpl in *. exists l.
      split_and!; try done. intros _ l' Hl'. specialize (Hc l' Hl'). lia. }
  rewrite take_ge by (rewrite length_fmap; lia). rewrite foldl_sub.
  destruct (Z.ltb_spec 0 (Z.of_nat assoc - Z.of_nat (sum l1))).
  - destruct (lookup_lt_is_Some_2 l1 idx ltac:(lia)) as [a Ha].
    unfold aget. rewrite list_lookup_fmap, Ha. cbn [mbind outcome_bind fmap option_fmap option_map].
    pose proof (sum_insert l1 idx a (a + (assoc - sum l1)) Ha).
    eexists _, _, (<[idx := a + (assoc - sum l1)]> l1). split; [done|]. split.
    + split; [|split; [by rewrite length_insert|lia]].
      rewrite list_fmap_insert. f_equal. lia.
    + intros Hm l' Hl'. etrans; [by apply Hopt|].
      assert (a <= sum l1).
      { clear -Ha. revert idx Ha. induction l1 as [|x l IH]; intros [|i] Ha; simplify_eq/=; [lia|].
        specialize (IH i Ha). lia. }
      eapply value_insert; [done|lia|exact Ha|lia].
  - eexists _, _, l1. split; [done|]. split; [|done]. split_and!; [done|done|lia].
Qed.
End partition.

(** ** The emulated directory is an LRU stack *)

Section stack.
Import Brp.

(** What moves with a tag, and what stays with the position. *)
Definition key (blk : CacheBlk) : Z * Z := (tag blk, status blk).
Definition counts (blk : CacheBlk) : Z * Z := (asid blk, asid_dirty blk).

Lemma move_down_spec i row :
  i < length row -> exists row', move_down i row = Ok row' /\
    key <$> row' = take 1 (key <$> row) ++ take i (key <$> row) ++ drop (S i) (key <$> row) /\
    counts <$> row' = counts <$> row.
Proof.
  revert row. induction i as [|i IH]; intros row Hi; simpl.
  - exists row. split_and!; [done| |done]. simpl. by rewrite take_drop.
  - destruct (lookup_lt_is_Some_2 row (S i) ltac:(lia)) as [to Hto].
    destruct (lookup_lt_is_Some_2 row i ltac:(lia)) as [from Hfrom].
    unfold aget. rewrite Hto, Hfrom. cbn [mbind outcome_bind].
    destruct (IH (<[S i := copy_tag from to]> row)) as (row' & -> & Hk & Hc);
      [rewrite length_insert; lia|].
    exists row'. split; [done|]. rewrite Hk, Hc, !list_fmap_insert. split.
    + rewrite !take_insert_ge by lia. f_equal.
      assert (Hkf : (key <$> row) !! i = Some (key from)) by (by rewrite list_lookup_fmap, Hfrom).
      rewrite (take_S_r _ _ _ Hkf), <- app_assoc. f_equal.
      assert (Hlen : S i < length (key <$> row)) by (rewrite length_fmap; lia).
      rewrite (drop_S _ (key from) (S i)) by (by apply list_lookup_insert_eq).
      simpl. f_equal. rewrite drop_insert_lt by lia. done.
    + apply list_insert_id. by rewrite list_lookup_fmap, Hto.
Qed.

Lemma MoveTagHead_spec i row :
  i < length row -> exists row', MoveTagHead i row = Ok row' /\
    (exists blk, row !! i = Some blk /\
       key <$> row' = key blk :: take i (key <$> row) ++ drop (S i) (key <$> row)) /\
    counts <$> row' = counts <$> row.
Proof.
  intros Hi. destruct (lookup_lt_is_Some_2 row i Hi) as [blk Hb]. unfold MoveTagHead.
  case_decide as H0.
  - subst i. exists row. split; [done|]. split; [|done]. exists blk. split; [done|].
    destruct row; simplify_eq/=. by rewrite drop_0.
  - rewrite (aget_ok row i blk Hb). cbn [mbind outcome_bind].
    destruct (move_down_spec i row Hi) as (row1 & -> & Hk & Hc). cbn [mbind outcome_bind].
    assert (Hl : length row1 = length row)
      by (by rewrite <- (length_fmap counts), Hc, length_fmap).
    destruct row1 as [|h row1]; [simpl in Hl; lia|].
    change (aget (h :: row1) 0) with (Ok h). cbn [mbind outcome_bind]. eexists. split; [done|].
    destruct row as [|r row]; [simpl in *; lia|]. simpl in Hk. injection Hk as _ _ Hk.
    split; [|by rewrite <- Hc]. exists blk. split; [done|].
    transitivity (key blk :: (key <$> row1)); [done|]. f_equal. exact Hk.
Qed.

Lemma move_up_spec n i row :
  i + n < length row -> exists row', move_up n i row = Ok row' /\
    key <$> row' = take i (key <$> row) ++ take n (drop (S i) (key <$> row))
                     ++ drop (i + n) (key <$> row) /\
    counts <$> row' = counts <$> row.
Proof.
  revert i row. induction n as [|n IH]; intros i row Hi; simpl.
  - exists row. split_and!; [done| |done]. by rewrite Nat.add_0_r, take_drop.
  - destruct (lookup_lt_is_Some_2 row (S i) ltac:(lia)) as [from Hfrom].
    destruct (lookup_lt_is_Some_2 row i ltac:(lia)) as [to Hto].
    unfold aget. rewrite Hto, Hfrom. cbn [mbind outcome_bind].
    destruct (IH (S i) (<[i := copy_tag from to]> row)) as (row' & -> & Hk & Hc);
      [rewrite length_insert; lia|].
    exists row'. split; [done|]. rewrite Hk, Hc, !list_fmap_insert.
    assert (Hl : i < length (key <$> row)) by (rewrite length_fmap; lia).
    split; [|apply list_insert_id; by rewrite list_lookup_fmap, Hto].
    rewrite (take_S_r _ i (key from)) by (by apply list_lookup_insert_eq).
    rewrite take_insert_ge, !drop_insert_lt, <- app_assoc by lia. f_equal. simpl.
    rewrite (drop_S (key <$> row) (key from) (S i)) by (by rewrite list_lookup_fmap, Hfrom).
    simpl. do 2 f_equal. f_equal. lia.
Qed.

Lemma MoveTagTail_spec assoc i row :
  length row = assoc -> i < assoc -> exists row', MoveTagTail assoc i row = Ok row' /\
    (exists blk, row !! i = Some blk /\
       key <$> row' = take i (key <$> row) ++ drop (S i) (key <$> row) ++ [key blk]) /\
    counts <$> row' = counts <$> row.
Proof.
  intros Hl Hi. destruct (lookup_lt_is_Some_2 row i ltac:(lia)) as [blk Hb].
  assert (Hkb : (key <$> row) !! i = Some (key blk)) by (by rewrite list_lookup_fmap, Hb).
  unfold MoveTagTail. case_decide as H0.
  - exists row. split; [done|]. split; [|done]. exists blk. split; [done|].
    rewrite (drop_ge _ (S i)) by (rewrite length_fmap; lia). simpl.
    rewrite <- (take_drop i (key <$> row)) at 1. f_equal.
    rewrite (drop_S _ _ _ Hkb), drop_ge by (rewrite length_fmap; lia). done.
  - rewrite (aget_ok row i blk Hb). cbn [mbind outcome_bind].
    destruct (move_up_spec (assoc - 1 - i) i row ltac:(lia)) as (row1 & -> & Hk & Hc).
    cbn [mbind outcome_bind].
    assert (Hl1 : length row1 = length row)
      by (by rewrite <- (length_fmap counts), Hc, length_fmap).
    destruct (lookup_lt_is_Some_2 row1 (assoc - 1) ltac:(lia)) as [last Hlast].
    rewrite (aget_ok row1 _ last Hlast). cbn [mbind outcome_bind]. eexists. split; [done|].
    rewrite !list_fmap_insert. split; [|rewrite <- Hc; apply list_insert_id;
                                         by rewrite list_lookup_fmap, Hlast].
    exists blk. split; [done|]. rewrite Hk.
    replace (i + (assoc - 1 - i)) with (assoc - 1) by lia.
    rewrite (take_ge (drop (S i) _)) by (rewrite length_drop, length_fmap; lia).
    rewrite app_assoc. rewrite insert_app_r_alt.
    2: { rewrite length_app, length_take, length_drop, length_fmap. lia. }
    rewrite <- app_assoc. do 2 f_equal.
    rewrite length_app, length_take, length_drop, length_fmap.
    replace (assoc - 1 - (i `min` length row + (length row - S i))) with 0 by lia.
    destruct (lookup_lt_is_Some_2 row (assoc - 1) ltac:(lia)) as [z Hz].
    rewrite (drop_S _ (key z)) by (by rewrite list_lookup_fmap, Hz).
    rewrite drop_ge by (rewrite length_fmap; lia). done.
Qed.
End stack.

(** ** Recording an access *)

Section record.
Import Brp.

Lemma find_tag_spec tg i row :
  match find_tag tg i row with
  | Some j => exists k, j = i + k /\ (exists blk, row !! k = Some blk /\ tag blk = tg) /\
                tg ∉ take k (tag <$> row)
  | None => tg ∉ (tag <$> row)
  end.
Proof.
  revert i. induction row as [|blk row IH]; intros i; simpl; [set_solver|].
  destruct (Z.eqb_spec (tag blk) tg) as [E|E].
  - exists 0. rewrite Nat.add_0_r. split_and!; [done|by exists blk|set_solver].
  - specialize (IH (S i)). destruct (find_tag tg (S i) row) as [j|].
    + destruct IH as (k & -> & Hb & Hk). exists (S k). split; [lia|]. split; [done|].
      change (tag <$> blk :: row) with (tag blk :: (tag <$> row)). simpl. set_solver.
    + change (list_fmap CacheBlk Z tag row) with (tag <$> row). set_solver.
Qed.

(** What an access does to the tags of a row: the tag comes to the front, and
    on a miss the last one is lost. *)
Definition stack_step (assoc : nat) (tg : Z) (tags : list Z) : list Z :=
  match index_of tg tags with
  | Some i => tg :: take i tags ++ drop (S i) tags
  | None => tg :: take (assoc - 1) tags
  end.

Lemma index_of_fmap_find tg row :
  index_of tg (tag <$> row) = find_tag tg 0 row.
Proof.
  pose proof (find_tag_spec tg 0 row) as H. destruct (find_tag tg 0 row) as [i|].
  - destruct H as (k & -> & (blk & Hb & Ht) & Hk). simpl. apply index_of_Some.
    assert (Hl : (tag <$> row) !! k = Some tg) by (rewrite list_lookup_fmap, Hb; simpl; congruence).
    exists (take k (tag <$> row)), (drop (S k) (tag <$> row)).
    split; [by rewrite take_drop_middle|]. split; [|done].
    rewrite length_take, length_fmap. apply lookup_lt_Some in Hb. lia.
  - by apply index_of_None.
Qed.

Lemma tags_of_keys (row : list CacheBlk) : tag <$> row = fst <$> (key <$> row).
Proof. rewrite <- list_fmap_compose. done. Qed.

Lemma record_row_ok assoc p c tg row :
  0 < assoc -> length row = assoc ->
  exists row', record_row assoc p c tg row =
      Ok (row', bool_decide (tg ∈ (tag <$> row))) /\ length row' = assoc /\
    tag <$> row' = stack_step assoc tg (tag <$> row).
Proof.
  intros Ha Hl. unfold record_row, stack_step. rewrite take_ge, index_of_fmap_find by lia.
  pose proof (find_tag_spec tg 0 row) as H. destruct (find_tag tg 0 row) as [i|].
  - destruct H as (k & -> & (blk & Hb & Ht) & Hk). simpl.
    rewrite (aget_ok _ _ _ Hb). cbn [mbind outcome_bind].
    pose proof (lookup_lt_Some _ _ _ Hb) as Hlt. set (blk' := set_dirty c (charge p blk)).
    assert (Ht' : tag blk' = tag blk)
      by (unfold blk', set_dirty, charge; repeat case_match; done).
    destruct (MoveTagHead_spec k (<[k := blk']> row)) as (row' & -> & (blk1 & Hb1 & Hk1) & _);
      [by rewrite length_insert|].
    rewrite list_lookup_insert_eq in Hb1 by done. injection Hb1 as <-.
    cbn [mbind outcome_bind]. exists row'. split_and!.
    + rewrite bool_decide_true; [done|]. apply list_elem_of_fmap. exists blk.
      split; [done|]. by eapply list_elem_of_lookup_2.
    + rewrite <- (length_fmap key), Hk1. simpl. rewrite length_app, length_take, length_drop,
        length_fmap, length_insert. lia.
    + rewrite tags_of_keys, Hk1. rewrite fmap_cons, fmap_app, fmap_take, fmap_drop, <- tags_of_keys.
      simpl. rewrite Ht', Ht, list_fmap_insert, take_insert_ge, drop_insert_lt by lia. done.
  - destruct (lookup_lt_is_Some_2 row (assoc - 1) ltac:(lia)) as [blk Hb].
    rewrite (aget_ok _ _ _ Hb). cbn [mbind outcome_bind].
    set (blk' := blk <| status := _ |> <| tag := tg |>).
    destruct (MoveTagHead_spec (assoc - 1) (<[assoc - 1 := blk']> row))
      as (row' & -> & (blk1 & Hb1 & Hk1) & _); [rewrite length_insert; lia|].
    rewrite list_lookup_insert_eq in Hb1 by lia. injection Hb1 as <-.
    cbn [mbind outcome_bind]. exists row'.
    rewrite drop_ge, app_nil_r in Hk1 by (rewrite length_fmap, length_insert; lia).
    split_and!; [by rewrite bool_decide_false| |].
    + rewrite <- (length_fmap key), Hk1. simpl. rewrite length_take, length_fmap, length_insert. lia.
    + rewrite tags_of_keys, Hk1, fmap_cons, fmap_take, <- tags_of_keys.
      simpl. by rewrite list_fmap_insert, take_insert_ge by lia.
Qed.
End record.

(** ** Laws *)

Section laws.
Import Brp.

(** The arrays have the sizes the constructor gives them. *)
Definition rows_ok (t : TagStore) (rows : list (list CacheBlk)) : Prop :=
  length rows = numSets (cfg t) /\ Forall (fun row => length row = ways (cfg t)) rows.
Definition times_ok (t : TagStore) (l : list (list Z)) : Prop :=
  length l = numSets (cfg t) /\ Forall (fun r => length r = NUM_CORE) l.

Record brp_ok (t : TagStore) (x : BRP) : Prop := {
  b_ways : ways (cfg t) <= 62;
  b_rs : length (record_sets x) = NUM_CORE;
  b_rows : Forall (rows_ok t) (record_sets x);
  b_access : length (access x) = NUM_CORE;
  b_hits : length (hits x) = NUM_CORE;
  b_stream : length (isStream x) = NUM_CORE;
  b_save : length (save_overhead x) = NUM_CORE;
  b_core : length (core x) = numSets (cfg t) /\ Forall (part_ok (ways (cfg t))) (core x);
  b_samp : length (core_sampling x) = NUM_CORE /\
           Forall (fun v => 0 <= v <= Z.of_nat (ways (cfg t)) + 1)%Z (core_sampling x);
  b_skip : skip_set x = (Z.of_nat (numSets (cfg t)) / SAMPLE_SET)%Z;
  b_pcm : times_ok t (accessPCMTimes x);
  b_dram : times_ok t (accessDRAMTimes x)
}.

Lemma brp_frame t t' b x : cfg t' = cfg t -> brp_ok t x -> brp_ok t' (x <| brp_base := b |>).
Proof. intros Ec []. split; unfold rows_ok, times_ok in *; rewrite ?Ec; done. Qed.

Lemma times_incr t l set port :
  times_ok t l -> (0 <= set < Z.of_nat (numSets (cfg t)))%Z -> (0 <= port < 4)%Z ->
  exists l', zupd set (zupd port (fun n => Ok (n + 1)%Z)) l = Ok l' /\ times_ok t l'.
Proof.
  intros [Hl Hall] Hs Hp.
  destruct (lookup_lt_is_Some_2 l (Z.to_nat set) ltac:(lia)) as [r Hr].
  pose proof (Forall_lookup_1 _ _ _ _ Hall Hr) as Hlr. simpl in Hlr.
  destruct (lookup_lt_is_Some_2 r (Z.to_nat port)) as [n Hn]; [unfold NUM_CORE in *; lia|].
  erewrite zupd_ok; [|lia|exact Hr|by apply (zupd_ok port _ r n (n + 1)%Z); [lia|..]].
  eexists. split; [done|]. split; [by rewrite length_insert|].
  apply Forall_insert; [done|]. by rewrite length_insert.
Qed.

Lemma record_brp_ok env addr c port x :
  tags_wf (brp_base x) -> brp_ok (brp_base x) x -> (0 <= port < 4)%Z ->
  exists x', record_brp env addr c port x = Ok x' /\ brp_base x' = brp_base x /\
    brp_ok (brp_base x) x'.
Proof.
  intros Hwf Hx Hp. unfold record_brp.
  destruct (extractSet_nat _ addr Hwf) as (i & E & Hi). rewrite E.
  destruct (zget_ok (record_sets x) port) as (rows & -> & Hrows);
    [rewrite (b_rs _ _ Hx); unfold NUM_CORE; lia|].
  pose proof (Forall_lookup_1 _ _ _ _ (b_rows _ _ Hx) Hrows) as [Hl Hall].
  cbn [mbind outcome_bind].
  destruct (zget_ok rows (Z.of_nat i)) as (row & -> & Hrow); [lia|].
  pose proof (Forall_lookup_1 _ _ _ _ Hall Hrow) as Hlr. simpl in Hlr.
  cbn [mbind outcome_bind].
  destruct (record_row_ok (ways (cfg (brp_base x))) (is_pcm env addr) c
    (extractTag (cfg (brp_base x)) addr) row (ok_ways _ (t_cfg _ Hwf)) Hlr)
    as (row' & -> & Hl' & _). cbn [mbind outcome_bind].
  erewrite zupd_ok; [|lia|exact Hrows|by apply (zupd_ok _ _ rows row row'); [lia|..]].
  cbn [mbind outcome_bind].
  set (rs := <[_ := _]> (record_sets x)).
  assert (Hrs : length rs = NUM_CORE /\ Forall (rows_ok (brp_base x)) rs).
  { split; [unfold rs; rewrite length_insert; apply Hx|].
    apply Forall_insert; [apply Hx|]. split; [by rewrite length_insert|].
    by apply Forall_insert. }
  destruct Hrs as [Hrs1 Hrs2].
  destruct (bool_decide _); [|eexists; split; [done|]; split; [done|]; by destruct Hx; split].
  simpl. destruct (times_incr (brp_base x) (accessPCMTimes x) (Z.of_nat i) port (b_pcm _ _ Hx)
    ltac:(lia) Hp) as (l1 & E1 & Hl1).
  destruct (times_incr (brp_base x) (accessDRAMTimes x) (Z.of_nat i) port (b_dram _ _ Hx)
    ltac:(lia) Hp) as (l2 & E2 & Hl2).
  destruct (is_pcm env addr); [rewrite E1|rewrite E2]; cbn [mbind outcome_bind];
    (eexists; split; [done|]; split; [done|]; by destruct Hx; split).
Qed.

Lemma count_up (l : list Z) port :
  length l = NUM_CORE -> (0 <= port < 4)%Z ->
  exists l', zupd port (fun n => Ok (n + 1)%Z) l = Ok l' /\ length l' = NUM_CORE.
Proof.
  intros Hl Hp. destruct (lookup_lt_is_Some_2 l (Z.to_nat port)) as [n Hn];
    [unfold NUM_CORE in *; lia|].
  erewrite zupd_ok by (first [lia | exact Hn | done]). eexists. split; [done|].
  by rewrite length_insert.
Qed.

Lemma sampling_get t x port :
  brp_ok t x -> (0 <= port < 4)%Z ->
  exists n, zget (core_sampling x) port = Ok n /\ (0 <= n <= Z.of_nat (ways (cfg t)) + 1)%Z.
Proof.
  intros Hx Hp. destruct (b_samp _ _ Hx) as [Hl Hall].
  destruct (zget_ok (core_sampling x) port) as (n & E & Hn);
    [rewrite Hl; unfold NUM_CORE; lia|].
  exists n. split; [done|]. apply (Forall_lookup_1 _ _ _ _ Hall Hn).
Qed.

Lemma position_range w p n :
  (0 < w <= 62)%Z -> (0 <= n <= w + 1)%Z -> (0 <= position w p n <= w - 1)%Z.
Proof.
  intros Hw Hn. unfold position. destruct p.
  - rewrite !wrap_small, swrap_small by lia. destruct (Z.ltb_spec (w - 1) (n + 4)); lia.
  - destruct (Z.ltb_spec 0 (n - 2)); lia.
Qed.

Lemma find_tag_lt tg row i : find_tag tg 0 row = Some i -> i < length row.
Proof.
  intros E. pose proof (find_tag_spec tg 0 row) as H. rewrite E in H.
  destruct H as (k & -> & (blk & Hb & _) & _). simpl. by eapply lookup_lt_Some.
Qed.

Lemma MoveTagTail_length assoc i row :
  length row = assoc -> i < assoc ->
  exists row', MoveTagTail assoc i row = Ok row' /\ length row' = assoc.
Proof.
  intros Hl Hi. destruct (MoveTagTail_spec assoc i row Hl Hi) as (row' & E & _ & Hc).
  exists row'. split; [done|]. by rewrite <- (length_fmap counts), Hc, length_fmap.
Qed.

Lemma forget_ok t set tg rss :
  (0 <= set < Z.of_nat (numSets (cfg t)))%Z -> Forall (rows_ok t) rss ->
  exists rss', forget (ways (cfg t)) set tg rss = Ok rss' /\ length rss' = length rss /\
    Forall (rows_ok t) rss'.
Proof.
  intros Hs. induction rss as [|rows rss IH]; intros Hall; cbn [forget]; [by exists []|].
  apply Forall_cons in Hall as [[Hl Hr] Hrss].
  destruct (zget_ok rows set) as (row & -> & Hrow); [lia|]. cbn [mbind outcome_bind].
  pose proof (Forall_lookup_1 _ _ _ _ Hr Hrow) as Hlr. simpl in Hlr.
  rewrite take_ge by lia. destruct (find_tag tg 0 row) as [i|] eqn:Ef.
  - apply find_tag_lt in Ef. destruct (lookup_lt_is_Some_2 row i Ef) as [blk Hb].
    rewrite (aget_ok _ _ _ Hb). cbn [mbind outcome_bind].
    destruct (MoveTagTail_length (ways (cfg t)) i (<[i := blk <| tag := u64 (-1) |>]> row))
      as (row' & -> & Hl'); [by rewrite length_insert|lia|].
    cbn [mbind outcome_bind]. eexists. split; [done|]. split; [done|].
    constructor; [|done]. split; [by rewrite length_insert|]. by apply Forall_insert.
  - destruct (IH Hrss) as (rss' & -> & Hl' & Hall'). cbn [mbind outcome_bind].
    eexists. split; [done|]. split; [simpl; by rewrite Hl'|]. by constructor.
Qed.

(** The promotion of [accessBlock]. *)
Lemma promote_brp t x b port :
  tags_wf t -> is_Some (mem t !! b) -> brp_ok t x -> (0 <= port < 4)%Z ->
  exists blk t', getBlk t b = Ok blk /\ reorder t t' /\
    (if negb (warmedUp t) then updSet (blk_set blk) (moveToHead b) t
     else
       n ← zget (core_sampling x) port;
       if isPcm blk then updSet (blk_set blk) (moveNStep b (Z.quot n 2 + 1)) t
       else updSet (blk_set blk) (moveNStep b (Z.quot n 4 + 1)) t) = Ok t'.
Proof.
  intros Hwf [blk Hb] Hx Hp. exists blk.
  destruct (sampling_get t x port Hx Hp) as (n & -> & Hn). cbn [mbind outcome_bind].
  assert (exists f, moves_any b f /\
    (if negb (warmedUp t) then updSet (blk_set blk) (moveToHead b) t
     else if isPcm blk then updSet (blk_set blk) (moveNStep b (Z.quot n 2 + 1)) t
     else updSet (blk_set blk) (moveNStep b (Z.quot n 4 + 1)) t) = updSet (blk_set blk) f t)
    as (f & Hf & ->).
  { assert (0 <= Z.quot n 2 /\ 0 <= Z.quot n 4)%Z as [??] by (split; apply Z.quot_pos; lia).
    destruct (warmedUp t), (isPcm blk); simpl; eexists; (split; [|done]);
      first [apply moveToHead_any | apply moveNStep_any; lia]. }
  destruct (reorder_any t b blk f Hwf Hb Hf) as (t' & E & Hr).
  exists t'. by rewrite (getBlk_ok _ _ _ Hb).
Qed.
End laws.

Lemma BRP_new_ok t : ways (cfg t) <= 62 -> brp_ok t (Brp.BRP_new t).
Proof.
  intros Hw.
  split; simpl; try done; try (by rewrite length_replicate);
    try (split; [by rewrite length_replicate|]; by repeat apply Forall_replicate_1).
  - by repeat (apply Forall_cons; split; [split; [apply length_replicate|
      apply Forall_replicate_1, length_replicate]|]).
  - split; [apply length_replicate|]. apply Forall_replicate_1.
    exists (replicate 4 (ways (cfg t) / 4)).
    pose proof (Nat.Div0.mul_div_le (ways (cfg t)) 4) as E.
    rewrite fmap_replicate, Nat2Z.inj_div. split_and!; [done|done|].
    generalize dependent (ways (cfg t) / 4). simpl. lia.
  - split; [done|].
    assert (0 <= (Z.of_nat (ways (cfg t)) + 1) / 4 <= Z.of_nat (ways (cfg t)) + 1)%Z
      by (split; [apply Z.div_pos|apply Z.div_le_upper_bound]; lia).
    by repeat (apply Forall_cons; split; [done|]).
Qed.

#[export] Instance BRP_laws : PolicyLaws Brp.BRP.
Proof.
  refine {| pol_inv x := brp_ok (base x) x; pol_master m := (0 <= portId m < 4)%Z;
            pol_slot x b := last_way (base x) b |}; try done.
  - intros t x Hx [Ec _]. simpl in *. by apply (brp_frame (Brp.brp_base x)).
  - intros t x b Hl Hf. by eapply frame_last_way.
  - intros env addr sec c m x t' ob lat Hx Hwf Hp Ha. cbn. unfold Brp.accessBlock.
    open_access Hwf Ha.
    pose (x0 := x <| Brp.brp_base := t' |>).
    assert (Hx0 : brp_ok t' x0) by (by eapply brp_frame).
    destruct (record_brp_ok env addr c (portId m) x0 Hwf' Hx0 Hp) as (x1 & E1 & Eb1 & Hx1).
    unfold x0 in E1. simpl in E1. rewrite E1.
    cbn [mbind outcome_bind]. simpl in Eb1, Hx1.
    destruct (count_up (Brp.access x1) (portId m) (b_access _ _ Hx1) Hp) as (acc & -> & Hacc).
    cbn [mbind outcome_bind].
    set (x2 := x1 <| Brp.access := acc |>). change (Brp.MkBRP (Brp.brp_base x1) _ acc _ _ _ _ _ _ _ _ _ _ _ _) with x2.
    assert (Hx2 : brp_ok t' x2) by (by destruct Hx1; split).
    destruct ob as [b|].
    + destruct (promote_brp t' x2 b (portId m) Hwf' Hb Hx2 Hp) as (blk & t2 & -> & Hr & E2).
      cbn [mbind outcome_bind]. simpl in E2. simpl. rewrite E2. cbn [mbind outcome_bind].
      destruct (count_up (Brp.hits x1) (portId m) (b_hits _ _ Hx1) Hp) as (hs & -> & Hhs).
      eexists. split; [done|]. split; [done|]. simpl.
      assert (Hx3 : brp_ok t' (x2 <| Brp.hits := hs |>)) by (by destruct Hx2; split).
      eapply (brp_frame _ _ t2) in Hx3; [exact Hx3|]. by rewrite (r_cfg _ _ Hr).
    + eexists. split; [done|]. simpl. rewrite Eb1. by split.
  - intros env addr x Hx Hwf. victim_is_last Brp.brp_base addr x Hwf.
  - intros env pkt b x t' Hx Hok Hl Hin Hm Hp E. cbn. unfold Brp.insertBlock.
    open_insert Hok Hin Hm E. destruct (ji_blk _ _ _ _ _ Hji) as (blk & Hb & _).
    pose proof (ji_frame _ _ _ _ _ Hji) as Hfr.
    destruct (sampling_get _ x _ Hx Hp) as (n & En & Hn).
    rewrite (getBlk_ok _ _ _ Hb), En, (last_way_frame_cfg _ _ Hfr). cbn [mbind outcome_bind].
    pose proof (ok_ways _ (t_cfg _ (ok_wf _ _ Hok))) as Hw0. pose proof (b_ways _ _ Hx) as Hw.
    set (w := ways (cfg (Brp.brp_base x))) in *.
    pose proof (position_range (Z.of_nat w) (isPcm blk) n ltac:(lia) ltac:(lia)) as Hpos.
    assert (exists f, moves_last w b f /\
      (if negb (warmedUp t') then updSet (extractSet (cfg t') (pkt_addr pkt)) (moveToHead b) t'
       else updSet (extractSet (cfg t') (pkt_addr pkt)) (insertFixLocation b
              (u32 (Z.of_nat w - 1 - Brp.position (Z.of_nat w) (isPcm blk) n))) t') =
      move_in (pkt_addr pkt) f t') as (f & Hf & ->).
    { destruct (warmedUp t'); simpl; eexists; (split; [|done]); eauto with moves.
      apply insertFixLocation_last.
      set (z := (Z.of_nat w - 1 - Brp.position _ _ _)%Z) in *.
      pose proof (wrap_le 32 z ltac:(lia) ltac:(lia)). pose proof (wrap_range 32 z ltac:(lia)).
      pose proof (wrap_le 8 (u32 z) ltac:(lia) ltac:(lia)). lia. }
    run_step (move_in_last _ _ _ _ _ Hji f Hl Hf). eexists. split; [done|]. split; [done|].
    simpl. eapply brp_frame; [|done]. by eapply frame_reorder_cfg.
  - intros env b x blk t' Hx Hok Hb Hv E. cbn. unfold Brp.invalidate.
    invalidate_to_tail Hok Hb Hv E.
    pose proof (frame_reorder_cfg _ _ _ Hfr Hr) as Ec.
    assert (Hwt : tags_wf t) by (by rewrite <- Hr).
    assert (exists blk', mem t !! b = Some blk') as [blk' Hb'].
    { apply lookup_lt_is_Some_2. rewrite (t_mem _ Hwt), Ec, <- (t_mem _ (ok_wf _ _ Hok)).
      by eapply lookup_lt_Some. }
    rewrite (getBlk_ok _ _ _ Hb'). cbn [mbind outcome_bind].
    destruct (blk_set_lt _ _ _ Hwt Hb') as (i & -> & Hi).
    assert (Hrows : Forall (rows_ok t) (Brp.record_sets x)).
    { pose proof (b_rows _ _ Hx) as Hrows. unfold rows_ok in *. by rewrite Ec. }
    destruct (forget_ok t (Z.of_nat i) (tag blk') _ ltac:(lia) Hrows) as (rs & -> & Hlrs & Hrs).
    cbn [mbind outcome_bind]. eexists. split; [done|]. split; [done|]. simpl.
    assert (Hx' : brp_ok t (x <| Brp.brp_base := t |>)) by (by eapply brp_frame).
    destruct Hx'. split; simpl in *; try done. by rewrite Hlrs.
Defined.

(** ** The emulated directory is an LRU stack *)

Section emulation.
Import Brp.

(** Accesses to the row of a set, one after the other, and which of them hit;
    an access is its memory region, command and tag. *)
Fixpoint record_all (assoc : nat) (accs : list (bool * Command * Z)) (row : list CacheBlk)
    : outcome (list CacheBlk * list bool) :=
  match accs with
  | [] => Ok (row, [])
  | (ispcm, c, tg) :: accs =>
      '(row, found) ← record_row assoc ispcm c tg row;
      '(row, hs) ← record_all assoc accs row; Ok (row, found :: hs)
  end.

(** The reference: an unbounded recency list; an access hits in a cache of [n]
    ways when its tag is among the [n] most recent. *)
Fixpoint lru_run (n : nat) (l : list Z) (tgs : list Z) : list Z * list bool :=
  match tgs with
  | [] => (l, [])
  | tg :: tgs =>
      let '(l', hs) := lru_run n (tg :: without tg l) tgs in
      (l', bool_decide (tg ∈ take n l) :: hs)
  end.

Lemma stack_step_recency n tg f (l : list Z) :
  0 < n -> NoDup l -> tg <> f ->
  stack_step n tg (take n (l ++ replicate n f)) = take n ((tg :: without tg l) ++ replicate n f) /\
  (tg ∈ take n (l ++ replicate n f) <-> tg ∈ take n l).
Proof.
  intros Hn Hnd Hf. set (F := replicate n f).
  assert (HF : tg ∉ F) by (unfold F; rewrite elem_of_replicate; tauto).
  assert (Hin : tg ∈ take n (l ++ F) <-> tg ∈ take n l).
  { rewrite take_app, elem_of_app. split; [|tauto]. intros [|H]; [done|].
    destruct HF. by eapply subseteq_take. }
  split; [|done]. unfold stack_step.
  destruct n as [|n]; [lia|]. simpl. rewrite Nat.sub_0_r.
  destruct (decide (tg ∈ take (S n) l)) as [Hl|Hl].
  - apply list_elem_of_split in Hl as (p & s & E).
    assert (El : l = p ++ tg :: (s ++ drop (S n) l))
      by (rewrite <- (take_drop (S n) l) at 1; by rewrite E, <- app_assoc).
    assert (Hlen : length p <= n)
      by (apply (f_equal length) in E; rewrite length_take, length_app in E; cbn [length] in E; lia).
    set (s' := s ++ drop (S n) l) in *. clearbody s'. subst l.
    apply NoDup_app in Hnd as (_ & Hp & [Hs _]%NoDup_cons).
    assert (Htp : tg ∉ p) by (intros Hx; apply (Hp tg Hx); set_solver).
    rewrite without_split by done. rewrite <- !app_assoc. simpl.
    assert (ER : take (S n) (p ++ tg :: s' ++ F) = p ++ tg :: take (n - length p) (s' ++ F)).
    { rewrite take_app_ge by lia. replace (S n - length p) with (S (n - length p)) by lia. done. }
    rewrite ER. rewrite (proj2 (index_of_Some tg _ (length p))) by (by eexists p, _).
    f_equal. rewrite take_app_length, drop_app_ge by lia.
    replace (S (length p) - length p) with 1 by lia. simpl. rewrite drop_0.
    by rewrite (take_app_ge p) by lia.
  - rewrite (proj2 (index_of_None tg _)) by tauto. f_equal.
    rewrite take_take, Nat.min_l by lia.
    destruct (decide (tg ∈ l)) as [Hin'|Hn']; [|by rewrite without_notin].
    apply list_elem_of_split in Hin' as (p & s & ->).
    assert (Hlen : S n <= length p).
    { destruct (le_lt_dec (S n) (length p)); [done|]. destruct Hl. rewrite take_app_ge by lia.
      replace (S n - length p) with (S (n - length p)) by lia. set_solver. }
    apply NoDup_app in Hnd as (_ & Hp & [Hs _]%NoDup_cons).
    assert (Htp : tg ∉ p) by (intros Hx; apply (Hp tg Hx); set_solver).
    rewrite without_split by done. rewrite <- !app_assoc. by rewrite !take_app_le by lia.
Qed.

(** C38. The tag directory that BRP emulates for each core ([record_brp]) is a
    true LRU stack of the set: starting empty, after any sequence of accesses
    its [assoc] entries hold the [assoc] most recent distinct tags in recency
    order, and an access is found in it exactly when it would hit in an LRU
    cache of [assoc] ways. *)
Theorem brp_emulates_lru (assoc : nat) (accs : list (bool * Command * Z)) :
  0 < assoc -> Forall (fun acc => acc.2 <> u64 (-1)) accs ->
  exists row, record_all assoc accs (replicate assoc emulated_blk) =
      Ok (row, (lru_run assoc [] (snd <$> accs)).2) /\
    tag <$> row = take assoc ((lru_run assoc [] (snd <$> accs)).1 ++ replicate assoc (u64 (-1))).
Proof.
  intros Ha Hf.
  assert (H : forall l row, NoDup l -> length row = assoc ->
    tag <$> row = take assoc (l ++ replicate assoc (u64 (-1))) ->
    exists row', record_all assoc accs row = Ok (row', (lru_run assoc l (snd <$> accs)).2) /\
      tag <$> row' = take assoc ((lru_run assoc l (snd <$> accs)).1 ++ replicate assoc (u64 (-1)))).
  { induction accs as [|[[p c] tg] accs IH]; intros l row Hl Hn Et; [by exists row|].
    apply Forall_cons in Hf as [Hf Hfs]. simpl.
    destruct (record_row_ok assoc p c tg row Ha Hn) as (row1 & -> & Hn1 & Et1).
    cbn [mbind outcome_bind]. rewrite Et in *.
    destruct (stack_step_recency assoc tg (u64 (-1)) l Ha Hl Hf) as [Es Hin].
    destruct (IH Hfs (tg :: without tg l) row1) as (row' & E' & Et'); [|done|by rewrite Et1|].
    { apply NoDup_cons. split; [|by apply NoDup_filter]. by intros [? _]%list_elem_of_filter. }
    rewrite (bool_decide_ext _ _ Hin).
    change (list_fmap _ _ snd accs) with (snd <$> accs).
    destruct (lru_run assoc (tg :: without tg l) (snd <$> accs)) as [l' hs].
    exists row'. by rewrite E'. }
  apply H; [constructor|apply length_replicate|].
  rewrite app_nil_l, fmap_replicate, take_ge by (rewrite length_replicate; lia). done.
Qed.
End emulation.

Lemma brp_emulates_lru_witness :
  let accs := [(true, ReadReq, 5); (false, Writeback, 9); (true, ReadReq, 5); (true, ReadReq, 7);
               (true, ReadReq, 9)]%Z in
  exists row, record_all 2 accs (replicate 2 Brp.emulated_blk) =
      Ok (row, [false; false; true; false; false]) /\ tag <$> row = [9; 7]%Z.
Proof.
  intros accs. apply (brp_emulates_lru 2 accs); [lia|].
  by repeat (apply Forall_cons; split; [apply (bool_decide_eq_true_1 _)|]).
Defined.

(** The recursive search of BRP ([subBest], [find_best]) finds a best
    partition: the row of [core] it leaves gives every way to some core, and
    when no core loses by getting more ways, no other division of the ways
    among the four cores is worth more ([save_overhead] being the gain of each
    core from each number of ways). *)
Theorem brp_partition_optimal (save : list (list Z)) (assoc idx : nat) (row : list Z) :
  idx < Brp.NUM_CORE -> part_ok assoc row -> gains_ok save 0 Brp.NUM_CORE assoc ->
  exists best row' l, Brp.find_best save assoc idx row = Ok (best, row') /\
    row' = Z.of_nat <$> l /\ length l = Brp.NUM_CORE /\ sum l = assoc /\
    (gains_mono save assoc -> forall l', length l' = Brp.NUM_CORE -> sum l' <= assoc ->
       (value save 0 l' <= value save 0 l)%Z).
Proof.
  intros Hi Hr Hg. destruct (find_best_ok save assoc idx row Hi Hr Hg)
    as (best & row' & l & E & (El & Hl & Hs) & Hopt).
  exists best, row', l. split_and!; try done. intros Hm l' H1 H2. by apply Hopt.
Qed.

(** Four cores, of which the second gains most from its first way. *)
Lemma brp_partition_optimal_witness :
  let save := [[1; 1; 1]; [10; 11; 12]; [3; 6; 7]; [0; 0; 0]]%Z in
  exists best row' l, Brp.find_best save 3 0 [0; 0; 0; 0]%Z = Ok (best, row') /\
    row' = Z.of_nat <$> l /\ length l = 4 /\ sum l = 3 /\
    (gains_mono save 3 -> forall l', length l' = 4 -> sum l' <= 3 ->
       (value save 0 l' <= value save 0 l)%Z).
Proof.
  intros save. apply (brp_partition_optimal save 3 0 [0; 0; 0; 0]%Z).
  - unfold Brp.NUM_CORE. lia.
  - exists [0; 0; 0; 0]. split_and!; [reflexivity|reflexivity|simpl; lia].
  - intros [|[|[|[|k]]]] Hk; unfold Brp.NUM_CORE in Hk; try lia; eexists; (split; [reflexivity|]); simpl; lia.
Defined.
