(* ===== verification/BrpRecord.v ===== *)
(** The periodic repartitioning of [BRP] ([BRP::setRecord] in [brp.cc]): it
    never fails, keeps the invariant of the policy, and leaves every set with
    a partition of all its ways. *)
From S2P Require Import Prelude IntMath MemTypes Blk CacheSet SetAssoc Tags Policy Brp.
From Stdlib Require Import Floats.SpecFloat.
From coqutil Require Import Z.bitblast.

#[local] Open Scope nat_scope.
Import Brp.

(** ** The ratios *)

Lemma ratios_ok x :
  brp_ok (brp_base x) x ->
  exists idx x', ratios x = Ok (idx, x') /\ idx < NUM_CORE /\ brp_base x' = brp_base x /\
    core x' = core x /\ brp_ok (brp_base x) x'.
Proof.
  intros Hx. unfold ratios.
  pose (I (i : nat) (a : spec_float * nat * BRP) := a.1.2 < NUM_CORE /\
    brp_base a.2 = brp_base x /\ core a.2 = core x /\ brp_ok (brp_base x) a.2).
  edestruct (for_from_inv I 0 NUM_CORE) as ([[r idx] x1] & -> & Hidx & Eb & Ec & Hx1).
  3: { cbn [mbind outcome_bind]. simpl in *. eexists idx, _. split; [done|].
       split; [done|]. case_match; (split; [done|]); (split; [done|]); [|done].
       destruct Hx1. by split. }
  - intros i [[r idx] y] Hi (Hidx & Eb & Ec & Hy). cbn [fst snd] in *.
    unfold hit_ratio.
    destruct (lookup_lt_is_Some_2 (access y) i) as [a Ha]; [rewrite (b_access _ _ Hy); lia|].
    destruct (lookup_lt_is_Some_2 (hits y) i) as [h Hh]; [rewrite (b_hits _ _ Hy); lia|].
    rewrite (aget_ok _ _ _ Ha), (aget_ok _ _ _ Hh). cbn [mbind outcome_bind].
    eexists. split; [done|]. unfold I.
    case_match; cbn [fst snd]; (split; [lia|]); (split; [done|]); (split; [done|]);
      destruct Hy; split; simpl; rewrite ?length_insert; done.
  - unfold I. simpl. unfold NUM_CORE. split; [lia|done].
Qed.

(** ** The partitions *)

Lemma length_savings acc row : length (savings acc row) = length row.
Proof. revert acc. induction row as [|b row IH]; intros acc; simpl; [done|]. by rewrite IH. Qed.

(** The row of a set adds up to all its ways. *)
Definition full_row (w : nat) (row : list Z) : Prop := exists l, full_part w row l.

Lemma full_part_ok w row : full_row w row -> part_ok w row.
Proof. intros (l & -> & Hl & Hs). exists l. split_and!; [done|done|lia]. Qed.

Section sets.
Context (t : TagStore).

Lemma record_rows_ok i x :
  i < numSets (cfg t) -> brp_base x = t -> brp_ok t x ->
  exists x', for_from 0 NUM_CORE (record_core (ways (cfg t)) i) x = Ok x' /\
    brp_base x' = t /\ core x' = core x /\ brp_ok t x' /\
    gains_ok (save_overhead x') 0 NUM_CORE (ways (cfg t)).
Proof.
  intros Hi Eb Hx.
  pose (I (k : nat) (y : BRP) := brp_base y = t /\ core y = core x /\ brp_ok t y /\
    gains_ok (save_overhead y) 0 k (ways (cfg t))).
  edestruct (for_from_inv I 0 NUM_CORE) as (x' & E & Hb & Hc & Hy & Hg); [| |eauto 10].
  - intros k y Hk (Hb & Hc & Hy & Hg). unfold record_core.
    destruct (lookup_lt_is_Some_2 (record_sets y) k) as [rows Hrows]; [rewrite (b_rs _ _ Hy); lia|].
    rewrite (aget_ok _ _ _ Hrows). cbn [mbind outcome_bind].
    pose proof (Forall_lookup_1 _ _ _ _ (b_rows _ _ Hy) Hrows) as [Hl Hall].
    destruct (lookup_lt_is_Some_2 rows i ltac:(lia)) as [row Hrow].
    pose proof (Forall_lookup_1 _ _ _ _ Hall Hrow) as Hlr. simpl in Hlr.
    rewrite (aget_ok _ _ _ Hrow). cbn [mbind outcome_bind].
    rewrite bool_decide_true by lia. rewrite take_ge, drop_ge, app_nil_r by lia.
    eexists. split; [done|]. split; [done|]. split; [done|]. split.
    + destruct Hy. split; simpl; rewrite ?length_insert; try done.
      apply Forall_insert; [done|]. split; [by rewrite length_insert|].
      apply Forall_insert; [done|]. unfold reset_row. by rewrite length_fmap.
    + intros j Hj. simpl. destruct (decide (j = k)) as [->|Hne].
      * exists (savings 0 row). rewrite list_lookup_insert_eq by (rewrite (b_save _ _ Hy); lia).
        split; [done|]. rewrite length_savings. lia.
      * rewrite list_lookup_insert_ne by done. apply Hg. lia.
  - split; [done|]. split; [done|]. split; [done|]. intros j Hj. lia.
Qed.

Lemma record_set_ok idx i x :
  idx < NUM_CORE -> i < numSets (cfg t) -> brp_base x = t -> brp_ok t x ->
  exists x' row, record_set idx i x = Ok x' /\ brp_base x' = t /\ brp_ok t x' /\
    core x' = <[i := row]> (core x) /\ full_row (ways (cfg t)) row.
Proof.
  intros Hidx Hi Eb Hx. unfold record_set. rewrite Eb.
  destruct (record_rows_ok i x Hi Eb Hx) as (x1 & -> & Eb1 & Ec1 & Hx1 & Hg).
  cbn [mbind outcome_bind]. destruct (b_core _ _ Hx1) as [Hl Hall].
  destruct (lookup_lt_is_Some_2 (core x1) i ltac:(lia)) as [row Hrow].
  rewrite (aget_ok _ _ _ Hrow). cbn [mbind outcome_bind].
  destruct (find_best_ok (save_overhead x1) (ways (cfg t)) idx row Hidx
    (Forall_lookup_1 _ _ _ _ Hall Hrow) Hg) as (bst & row' & l & -> & Hfull & _).
  cbn [mbind outcome_bind]. eexists _, row'. split; [done|]. split; [done|]. split.
  - assert (Hp : part_ok (ways (cfg t)) row') by (apply full_part_ok; by exists l).
    destruct Hx1. split; simpl; try done. split; [by rewrite length_insert|].
    by apply Forall_insert.
  - simpl. rewrite Ec1. split; [done|]. by exists l.
Qed.

Lemma record_sets_ok idx x :
  idx < NUM_CORE -> brp_base x = t -> brp_ok t x ->
  exists x', for_from 0 (numSets (cfg t)) (record_set idx) x = Ok x' /\
    brp_base x' = t /\ brp_ok t x' /\ Forall (full_row (ways (cfg t))) (core x').
Proof.
  intros Hidx Eb Hx.
  pose (I (i : nat) (y : BRP) := brp_base y = t /\ brp_ok t y /\
    forall j row, j < i -> core y !! j = Some row -> full_row (ways (cfg t)) row).
  edestruct (for_from_inv I 0 (numSets (cfg t))) as (x' & E & Hb & Hy & Hc).
  3: { exists x'. split; [exact E|]. split; [done|]. split; [done|].
       apply Forall_lookup_2. intros j row Hj. apply (Hc j); [|done].
       apply lookup_lt_Some in Hj. destruct (b_core _ _ Hy). lia. }
  - intros i y Hi (Hb & Hy & Hc).
    destruct (record_set_ok idx i y Hidx ltac:(lia) Hb Hy) as (y' & row & -> & Hb' & Hy' & Ec & Hf).
    exists y'. split; [done|]. split; [done|]. split; [done|]. intros j row' Hj. rewrite Ec.
    destruct (b_core _ _ Hy) as [Hl _].
    destruct (decide (j = i)) as [->|Hne].
    + rewrite list_lookup_insert_eq by lia. by intros [= <-].
    + rewrite list_lookup_insert_ne by done. apply Hc. lia.
  - split; [done|]. split; [done|]. intros j row Hj. lia.
Qed.
End sets.

(** ** The sampled averages *)

(** How many of the first [i] sets are sampled, at most. *)
Definition quota (skip i : Z) : Z :=
  (if skip =? 0 then Z.min i 1 else (i + skip - 1) / skip)%Z.

Lemma quota_step skip i :
  (0 <= skip)%Z -> (0 <= i)%Z -> (skip = 0 \/ exists k, 0 <= k /\ skip = 2 ^ k)%Z ->
  (quota skip i <= quota skip (i + 1))%Z /\
  (Z.land i (skip - 1) = 0 -> quota skip i + 1 <= quota skip (i + 1))%Z.
Proof.
  intros Hs Hi Hk. unfold quota. destruct (Z.eqb_spec skip 0) as [->|Hne].
  - split; [lia|]. change (0 - 1)%Z with (-1)%Z. rewrite Z.land_m1_r. lia.
  - destruct Hk as [|(k & Hk0 & Hk)]; [lia|]. split; [apply Z.div_le_mono; lia|].
    rewrite Hk at 1. replace (2 ^ k - 1)%Z with (Z.ones k) by (rewrite Z.ones_equiv; lia).
    rewrite Z.land_ones, <- Hk by lia. intros Hm.
    apply Z.mod_divide in Hm as [q ->]; [|lia].
    replace (q * skip + 1 + skip - 1)%Z with ((q + 1) * skip)%Z by lia.
    rewrite Z.div_mul by lia.
    replace (q * skip + skip - 1)%Z with (q * skip + (skip - 1))%Z by lia.
    rewrite Z.div_add_l, Z.div_small by lia. lia.
Qed.

(** At most [SAMPLE_SET] sets are sampled. *)
Lemma quota_total n k :
  (0 <= k)%Z -> n = (2 ^ k)%Z -> (quota (n / SAMPLE_SET) n <= 32)%Z.
Proof.
  intros Hk ->. unfold quota, SAMPLE_SET. destruct (Z.eqb_spec (2 ^ k / 32) 0) as [|Hne]; [lia|].
  assert (5 <= k)%Z as H5.
  { destruct (Z.lt_ge_cases k 5); [|done]. destruct Hne. apply Z.div_small.
    assert (2 ^ k < 2 ^ 5)%Z by (apply Z.pow_lt_mono_r; lia). lia. }
  replace k with (k - 5 + 5)%Z at 1 3 by lia.
  replace k with (k - 5 + 5)%Z at 2 by lia.
  rewrite Z.pow_add_r by lia. change (2 ^ 5)%Z with 32%Z. rewrite Z.div_mul by lia.
  assert (0 < 2 ^ (k - 5))%Z by lia.
  replace (2 ^ (k - 5) * 32 + 2 ^ (k - 5) - 1)%Z
    with (32 * 2 ^ (k - 5) + (2 ^ (k - 5) - 1))%Z by lia.
  rewrite Z.div_add_l, Z.div_small by lia. lia.
Qed.

Lemma skip_pow2 n k :
  (0 <= k)%Z -> n = (2 ^ k)%Z ->
  (n / SAMPLE_SET = 0 \/ exists j, 0 <= j /\ n / SAMPLE_SET = 2 ^ j)%Z.
Proof.
  intros Hk ->. unfold SAMPLE_SET. destruct (Z.lt_ge_cases k 5).
  - left. apply Z.div_small. assert (2 ^ k < 2 ^ 5)%Z by (apply Z.pow_lt_mono_r; lia). lia.
  - right. exists (k - 5)%Z. split; [lia|]. replace k with (k - 5 + 5)%Z at 1 by lia.
    rewrite Z.pow_add_r by lia. change (2 ^ 5)%Z with 32%Z. by rewrite Z.div_mul.
Qed.

Lemma part_entry w row k v :
  part_ok w row -> row !! k = Some v -> (0 <= v <= Z.of_nat w)%Z.
Proof.
  intros (l & -> & _ & Hs) Hk. rewrite list_lookup_fmap in Hk.
  destruct (l !! k) as [a|] eqn:Ha; [|done]. injection Hk as <-.
  assert (a <= sum l); [|lia]. clear Hs. revert k Ha.
  induction l as [|x l IH]; intros [|k] Ha; simplify_eq/=; [lia|]. specialize (IH k Ha). lia.
Qed.

Section sampling.
Context (t : TagStore) (Hwf : tags_wf t).
Local Notation w := (Z.of_nat (ways (cfg t))).

(** During the last loop the sums are bounded by what was sampled; [m] is the
    number of cores already counted for the set in progress. *)
Definition sums_ok (full part : Z) (m : nat) (l : list Z) : Prop :=
  length l = NUM_CORE /\
  forall (k : nat) v, l !! k = Some v ->
    (0 <= v <= w + 1 + (if decide (k < m)%nat then full else part) * w)%Z.

Lemma sums_weaken full part m l :
  (0 <= part <= full)%Z -> sums_ok full part m l -> sums_ok full full 0 l.
Proof.
  intros Hle [Hl H]. split; [done|]. intros k v Hk. specialize (H k v Hk).
  case_decide; case_decide; try lia; nia.
Qed.

Record sampling (full part : Z) (m : nat) (x : BRP) : Prop := {
  s_base : brp_base x = t;
  s_core : length (core x) = numSets (cfg t) /\ Forall (full_row (ways (cfg t))) (core x);
  s_pcm : times_ok t (accessPCMTimes x);
  s_dram : times_ok t (accessDRAMTimes x);
  s_sums : sums_ok full part m (core_sampling x);
  (** the fields the loop does not touch *)
  s_rest : brp_ok t (x <| core_sampling := replicate NUM_CORE 0%Z |>)
}.

Lemma sample_ok full part i k x :
  i < numSets (cfg t) -> k < NUM_CORE -> (0 <= part <= full)%Z ->
  (Z.land (Z.of_nat i) (skip_set x - 1) = 0 -> part + 1 <= full)%Z ->
  sampling full part k x ->
  exists x', sample i k x = Ok x' /\ sampling full part (S k) x' /\ skip_set x' = skip_set x.
Proof.
  intros Hi Hk Hle Hq [Eb [Hlc Hc] Hp Hd [Hls Hs] Hr]. unfold sample.
  destruct (Z.eqb_spec (Z.land (Z.of_nat i) (skip_set x - 1)) 0) as [Hz|Hz].
  2: { exists x. split; [done|]. split; [|done]. split; try done. split; [done|].
       intros j v Hj. specialize (Hs j v Hj). repeat case_decide; try lia; nia. }
  specialize (Hq Hz).
  destruct (lookup_lt_is_Some_2 (core x) i ltac:(lia)) as [row Hrow].
  rewrite (aget_ok _ _ _ Hrow). cbn [mbind outcome_bind].
  pose proof (Forall_lookup_1 _ _ _ _ Hc Hrow) as Hfull.
  pose proof (full_part_ok _ _ Hfull) as Hpart.
  destruct (lookup_lt_is_Some_2 row k) as [n Hn].
  { destruct Hpart as (l & -> & Hl & _). rewrite length_fmap. lia. }
  rewrite (aget_ok _ _ _ Hn). cbn [mbind outcome_bind].
  pose proof (part_entry _ _ _ _ Hpart Hn) as Hnr.
  destruct (lookup_lt_is_Some_2 (core_sampling x) k ltac:(lia)) as [v Hv].
  rewrite (zupd_ok (Z.of_nat k) _ _ v (v + n)%Z) by (rewrite ?Nat2Z.id; first [lia|done]).
  cbn [mbind outcome_bind]. destruct Hp as [Hp1 Hp2], Hd as [Hd1 Hd2].
  destruct (lookup_lt_is_Some_2 (accessPCMTimes x) i ltac:(lia)) as [prow Hprow].
  destruct (lookup_lt_is_Some_2 (accessDRAMTimes x) i ltac:(lia)) as [drow Hdrow].
  pose proof (Forall_lookup_1 _ _ _ _ Hp2 Hprow) as Hlp.
  pose proof (Forall_lookup_1 _ _ _ _ Hd2 Hdrow) as Hld. simpl in Hlp, Hld.
  destruct (lookup_lt_is_Some_2 prow k ltac:(lia)) as [p Hpk].
  destruct (lookup_lt_is_Some_2 drow k ltac:(lia)) as [d Hdk].
  rewrite (aget_ok _ _ _ Hprow), (aget_ok _ _ _ Hdrow). cbn [mbind outcome_bind].
  rewrite (aget_ok _ _ _ Hpk), (aget_ok _ _ _ Hdk). cbn [mbind outcome_bind].
  eexists. split; [done|]. split; [|done]. rewrite Nat2Z.id.
  assert (Ht1 : times_ok t (<[i := <[k := 0%Z]> prow]> (accessPCMTimes x))).
  { split; [by rewrite length_insert|]. apply Forall_insert; [done|]. by rewrite length_insert. }
  assert (Ht2 : times_ok t (<[i := <[k := 0%Z]> drow]> (accessDRAMTimes x))).
  { split; [by rewrite length_insert|]. apply Forall_insert; [done|]. by rewrite length_insert. }
  split; simpl; try done.
  - split; [by rewrite length_insert|]. intros j z. destruct (decide (j = k)) as [->|Hne].
    + rewrite list_lookup_insert_eq by lia. intros [= <-]. specialize (Hs k v Hv).
      rewrite decide_False in Hs by lia. rewrite decide_True by lia. nia.
    + rewrite list_lookup_insert_ne by done. intros Hj. specialize (Hs j z Hj).
      repeat case_decide; try lia.
  - destruct Hr. by split.
Qed.

Lemma sample_sets x :
  brp_base x = t -> brp_ok t x -> Forall (full_row (ways (cfg t))) (core x) ->
  exists x' q, for_from 0 (numSets (cfg t)) (fun i => for_from 0 NUM_CORE (sample i)) x = Ok x' /\
    sampling q q 0 x' /\ (0 <= q <= 32)%Z.
Proof.
  intros Eb Hx Hc. pose proof (t_cfg _ Hwf) as Hcfg.
  pose proof (ok_numSets _ Hcfg) as Hn. pose proof (ok_tagShift _ Hcfg) as Hts.
  set (skip := skip_set x). set (n := Z.of_nat (numSets (cfg t))) in *.
  assert (Eskip : skip = (n / SAMPLE_SET)%Z) by apply Hx.
  assert (Hsk0 : (0 <= skip)%Z) by (rewrite Eskip; apply Z.div_pos; unfold SAMPLE_SET; lia).
  pose proof (skip_pow2 n (tagShift (cfg t) - setShift (cfg t)) ltac:(lia) Hn) as Hpow. rewrite <- Eskip in Hpow.
  assert (Hq0 : forall i, (0 <= i)%Z -> (0 <= quota skip i)%Z).
  { intros i Hi. unfold quota. destruct (Z.eqb_spec skip 0); [lia|]. apply Z.div_pos; lia. }
  pose (I (i : nat) (y : BRP) := sampling (quota skip (Z.of_nat i)) (quota skip (Z.of_nat i)) 0 y /\
    skip_set y = skip).
  destruct (for_from_inv I 0 (numSets (cfg t)) (fun i => for_from 0 NUM_CORE (sample i)) x)
    as (x' & E & Hs & _).
  - intros i y Hi [Hy Ey].
    destruct (quota_step skip (Z.of_nat i) Hsk0 ltac:(lia) Hpow) as [Hq1 Hq2].
    replace (Z.of_nat i + 1)%Z with (Z.of_nat (S i)) in * by lia.
    set (part := quota skip (Z.of_nat i)) in *. set (full := quota skip (Z.of_nat (S i))) in *.
    pose proof (Hq0 (Z.of_nat i) ltac:(lia)).
    pose (J (k : nat) (z : BRP) := sampling full part k z /\ skip_set z = skip).
    destruct (for_from_inv J 0 NUM_CORE (sample i) y) as (y' & E & Hy' & Ey').
    + intros k z Hk [Hz Ez].
      destruct (sample_ok full part i k z ltac:(lia) ltac:(lia) ltac:(lia)) as (z' & E & Hz' & Ez');
        [by rewrite Ez|done|]. exists z'. split; [done|]. split; [done|congruence].
    + split; [|done]. destruct Hy as [? ? ? ? [Hls Hs] ?]. split; try done.
    + exists y'. split; [done|]. split; [|done]. destruct Hy'. split; try done.
      apply (sums_weaken full part NUM_CORE); [lia|].
      destruct s_sums0 as [Hls Hs]. split; [done|]. intros k v Hk. specialize (Hs k v Hk).
      pose proof (lookup_lt_Some _ _ _ Hk). done.
  - split; [|done]. split; try apply Hx; [done|split; [apply Hx|done]| |].
    + destruct (b_samp _ _ Hx) as [Hl Hall]. split; [done|]. intros k v Hk.
      pose proof (Forall_lookup_1 _ _ _ _ Hall Hk) as Hv. simpl in Hv.
      rewrite decide_False by lia. pose proof (Hq0 (Z.of_nat 0) ltac:(lia)). nia.
    + destruct Hx. split; try done. simpl. split; [done|]. repeat constructor; lia.
  - exists x', (quota skip n). split; [exact E|]. split; [exact Hs|]. split; [apply Hq0; lia|].
    rewrite Eskip. eapply quota_total; [|exact Hn]. lia.
Qed.
End sampling.

Lemma setRecord_spec x :
  tags_wf (brp_base x) -> brp_ok (brp_base x) x ->
  exists x', setRecord x = Ok x' /\ brp_base x' = brp_base x /\ brp_ok (brp_base x) x' /\
    Forall (full_row (ways (cfg (brp_base x)))) (core x').
Proof.
  intros Hwf Hx. unfold setRecord.
  destruct (ratios_ok x Hx) as (idx & x1 & -> & Hidx & Eb1 & Ec1 & Hx1). cbn [mbind outcome_bind].
  set (t := brp_base x) in *. set (x2 := x1 <| hit := 0%Z |>).
  assert (Hx2 : brp_ok t x2) by (by destruct Hx1; split).
  destruct (record_sets_ok t idx x2 Hidx Eb1 Hx2) as (x3 & -> & Eb3 & Hx3 & Hfull).
  cbn [mbind outcome_bind].
  set (x4 := x3 <| accessPCM := replicate NUM_CORE 0%Z |> <| accessDRAM := replicate NUM_CORE 0%Z |>).
  assert (Hx4 : brp_ok t x4) by (by destruct Hx3; split).
  destruct (sample_sets t Hwf x4 Eb3 Hx4 Hfull) as (x5 & q & -> & Hs & Hq).
  cbn [mbind outcome_bind]. eexists. split; [done|].
  destruct Hs as [Eb5 [Hlc Hc] Hp Hd [Hls Hsum] Hr]. split; [done|]. split; [|done].
  destruct Hr. split; try done. simpl. split; [by rewrite length_fmap|].
  apply Forall_fmap, Forall_lookup_2. intros k v Hk. specialize (Hsum k v Hk).
  rewrite decide_False in Hsum by lia. simpl in b_ways. simpl. unfold SAMPLE_SET.
  rewrite Z.quot_div_nonneg by lia. split; [apply Z.div_pos; lia|].
  apply Z.lt_succ_r, Z.div_lt_upper_bound; nia.
Qed.

(** BRP's periodic [setRecord], from any state its constructor and its
    other operations can leave, fails no array access and ends with a
    partition of every set that gives out all its ways, with sample means
    within the bounds [accessBlock] and [insertBlock] rely on, and without
    touching the tag store. *)
Theorem brp_setRecord_total (x : Brp.BRP) :
  tags_wf (Brp.brp_base x) -> brp_ok (Brp.brp_base x) x ->
  exists x', Brp.setRecord x = Ok x' /\ Brp.brp_base x' = Brp.brp_base x /\
    brp_ok (Brp.brp_base x) x' /\
    Forall (fun row => exists l, row = Z.of_nat <$> l /\ length l = Brp.NUM_CORE /\
              sum l = ways (cfg (Brp.brp_base x))) (Brp.core x').
Proof.
  intros Hwf Hx. destruct (setRecord_spec x Hwf Hx) as (x' & E & Eb & Hx' & Hf). by exists x'.
Qed.

(** 32 sets, the fewest for which BRP has a sample. *)
Definition brp_cfg : TagConfig := MkConfig 4 1 4 32 false 2 7 31 3 128 128.

Lemma brp_setRecord_total_witness :
  let x := Brp.BRP_new (init_tags brp_cfg 8) in
  exists x', Brp.setRecord x = Ok x' /\ Brp.brp_base x' = Brp.brp_base x /\
    brp_ok (Brp.brp_base x) x' /\
    Forall (fun row => exists l, row = Z.of_nat <$> l /\ length l = Brp.NUM_CORE /\
              sum l = ways (cfg (Brp.brp_base x))) (Brp.core x').
Proof.
  intros x. apply (brp_setRecord_total x).
  - apply (init_wf brp_cfg). split; vm_compute; split_and?; congruence || lia.
  - apply BRP_new_ok. simpl. lia.
Defined.
