(* ===== verification/Hap.v ===== *)
(** The set-duelling policies for hybrid memory: [HAP] ([hap.hh], [hap.cc]),
    which keeps the number of PCM lines between two bounds learnt from five
    groups of sample sets, and its experimental variant [HAPTEST]
    ([hap_test.hh], [hap_test.cc]). *)
From S2P Require Import Prelude IntMath MemTypes Blk CacheSet SetAssoc Tags Policy.
From Stdlib Require Import Floats.SpecFloat.
From coqutil Require Import Z.bitblast.

#[local] Open Scope nat_scope.

(** ** Definitions *)

Module HapCommon.
(** [struct sample_counter]; [dramLineCounter] is never used. *)
Record SC := MkSC { access_counter : Z; cost_counter : Z; pcmLineCounter : Z }.
#[global] Instance SC_settable : Settable SC := fun s =>
  MkSC (access_counter s) (cost_counter s) (pcmLineCounter s).

(** [bits(set, tagShift - setShift - (bitsOfSets + 1), 0)]. *)
Definition low (c : TagConfig) (bitsOfSets set : Z) : Z :=
  bits i32 set (tagShift c - setShift c - (bitsOfSets + 1)) 0.

(** The search [for (j = assoc - 1; j >= 0; j--)] for a block of a kind. *)
Fixpoint pick (mem : list CacheBlk) (p : CacheBlk -> bool) (bs : list nat)
    : outcome (option nat) :=
  match bs with
  | [] => Ok None
  | b :: bs => blk ← aget mem b; if p blk then Ok (Some b) else pick mem p bs
  end.
Definition pick_last (t : TagStore) (s : CacheSet) (p : CacheBlk -> bool) (dflt : nat)
    : outcome nat :=
  r ← pick (mem t) p (rev (take (ways (cfg t)) (blks s)));
  Ok (default dflt r).

(** [0.25 * 16 * low * pow(2, bitsOfSets)], an integer. *)
Definition share (low bitsOfSets : Z) : Z := (low * 4 * 2 ^ bitsOfSets)%Z.

(** [0.25 * (numBlocks - 5 * pow(2, bitsOfSets) * 16) * quarter], truncated. *)
Definition bound (c : TagConfig) (bitsOfSets quarter : Z) : Z :=
  u32 (Z.quot ((Z.of_nat (numBlocks c) - 5 * 2 ^ bitsOfSets * 16) * quarter) 4).

(** [BaseSetAssoc::insertBlock] with the policy's own counters updated where
    the copy in [hap.cc] and [hap_test.cc] updates them: after the eviction
    of a valid PCM block, and before a PCM block is counted in its set. *)
Definition insert_counting {X} (env : Env) (pkt : Packet) (b : nat)
    (dec inc : Z -> X -> outcome X) (t : TagStore) (x : X) : outcome (TagStore * X) :=
  t ← touch b t;
  blk ← getBlk t b;
  t ← retire env b t;
  x ← (if isValid blk && isPcm blk then dec (blk_set blk) x else Ok x);
  x ← (if is_pcm env (pkt_addr pkt) then inc (blk_set blk) x else Ok x);
  t ← claim env pkt b t;
  Ok (t, x).
End HapCommon.

Module Hap.
Import HapCommon.

(** Everything but the store. *)
Record Counters := MkCounters {
  bitsOfSets : Z;
  sc : list SC;
  minPcmLineCounter : Z;
  maxPcmLineCounter : Z;
  currentPcmLineCounter : Z
}.
#[global] Instance Counters_settable : Settable Counters := fun k =>
  MkCounters (bitsOfSets k) (sc k) (minPcmLineCounter k) (maxPcmLineCounter k)
    (currentPcmLineCounter k).
Record HAP := MkHAP { hap_base : TagStore; counters : Counters }.
#[global] Instance HAP_settable : Settable HAP := fun x =>
  MkHAP (hap_base x) (counters x).

Definition HAP_new (t : TagStore) (bitsOfSets : Z) : HAP :=
  {| hap_base := t;
     counters := {| bitsOfSets := bitsOfSets; sc := replicate 5 (MkSC 0 0 0);
                    minPcmLineCounter := bound (cfg t) bitsOfSets 0;
                    maxPcmLineCounter := bound (cfg t) bitsOfSets 4;
                    currentPcmLineCounter := 0 |} |}.

Definition accessBlock (env : Env) (addr : Z) (sec : bool) (c : Command) (port : Z)
    (x : HAP) : outcome (HAP * option nat * Z) :=
  '(t, ob, lat) ← SetAssoc.accessBlock env addr sec (hap_base x);
  let k := counters x in
  let low := low (cfg t) (bitsOfSets k) (extractSet (cfg t) addr) in
  sc' ← (if decide (c <> Writeback) then
          if (low <=? 4)%Z
          then zupd low (fun s => Ok (s <| access_counter ::= fun n => u32 (n + 1)%Z |>)) (sc k)
          else Ok (sc k)
        else Ok (sc k));
  t ← on_hit (fun b blk => updSet (blk_set blk) (moveToHead b)) ob t;
  Ok (MkHAP t (k <| sc := sc' |>), ob, lat).

Definition findVictim (env : Env) (addr : Z) (x : HAP) : outcome nat :=
  let t := hap_base x in
  let k := counters x in
  let set := extractSet (cfg t) addr in
  s ← getSet t set;
  blk ← aget (blks s) (ways (cfg t) - 1);
  let low := low (cfg t) (bitsOfSets k) set in
  if (low <=? 4)%Z then
    c ← zget (sc k) low;
    if (share low (bitsOfSets k) <? pcmLineCounter c)%Z
    then pick_last t s (fun blk => isPcm blk && isValid blk) blk
    else Ok blk
  else if (maxPcmLineCounter k <? currentPcmLineCounter k)%Z then
    if (addr <? watershed env)%Z
    then pick_last t s (fun blk => isPcm blk && isValid blk) blk
    else Ok blk
  else if (currentPcmLineCounter k <? minPcmLineCounter k)%Z then
    if (watershed env <=? addr)%Z
    then pick_last t s (fun blk => negb (isPcm blk) && isValid blk) blk
    else Ok blk
  else Ok blk.

(** [decPcmLineCounter] and [incPcmLineCounter]. *)
Definition addPcmLineCounter (c : TagConfig) (d numSet : Z) (k : Counters)
    : outcome Counters :=
  let low := low c (bitsOfSets k) numSet in
  if (low <? 5)%Z then
    sc' ← zupd low (fun s => Ok (s <| pcmLineCounter ::= Z.add d |>)) (sc k);
    Ok (k <| sc := sc' |>)
  else Ok (k <| currentPcmLineCounter ::= fun n => u32 (n + d)%Z |>).

Definition add_cost (env : Env) (pkt : Packet) (c : TagConfig) (set : Z) (k : Counters)
    : outcome Counters :=
  if decide (cmd pkt <> Writeback) then
    let low := low c (bitsOfSets k) set in
    if (low <=? 4)%Z then
      let d := if (watershed env <=? pkt_addr pkt)%Z then 1%Z else 4%Z in
      sc' ← zupd low (fun s => Ok (s <| cost_counter ::= fun n => u32 (n + d)%Z |>)) (sc k);
      Ok (k <| sc := sc' |>)
    else Ok k
  else Ok k.

Definition insertBlock (env : Env) (pkt : Packet) (b : nat) (x : HAP) : outcome HAP :=
  let t := hap_base x in
  let c := cfg t in
  blk ← getBlk t b;
  k ← add_cost env pkt c (blk_set blk) (counters x);
  '(t, k) ← insert_counting env pkt b (addPcmLineCounter c (-1)) (addPcmLineCounter c 1) t k;
  t ← move_in (pkt_addr pkt) (moveToHead b) t;
  Ok (MkHAP t k).

Definition invalidate (env : Env) (b : nat) (x : HAP) : outcome HAP :=
  blk ← getBlk (hap_base x) b;
  k ← (if isPcm blk then addPcmLineCounter (cfg (hap_base x)) (-1) (blk_set blk) (counters x)
       else Ok (counters x));
  t ← SetAssoc.invalidate env b (hap_base x);
  t ← move_own b (moveToTail b) t;
  Ok (MkHAP t k).

(** [updateSomething].  [uninit] is what the array [tmpki] happens to hold:
    an entry whose group saw no access is never written. *)
Definition measure (uninit : nat -> spec_float) (i : nat) (st : list spec_float * list SC)
    : outcome (list spec_float * list SC) :=
  let '(tmpki, sc) := st in
  s ← aget sc i;
  if (access_counter s =? 0)%Z then
    assert! cost_counter s =? 0; Ok (tmpki ++ [uninit i], sc)
  else
    Ok (tmpki ++ [ddiv (to_double (cost_counter s)) (to_double (access_counter s))],
        <[i := s <| cost_counter := 0%Z |> <| access_counter := 0%Z |>]> sc).

(** The group with the least cost, and its better neighbour, in order. *)
Definition best_pair (tmpki : list spec_float) : nat * nat :=
  let v i := default S754_nan (tmpki !! i) in
  let first := foldl (fun first i => if dlt (v i) (v first) then i else first) 0 (seq 1 4) in
  let second :=
    if decide (first = 4) then 3
    else if decide (first = 0) then 1
    else if dlt (v (first + 1)) (v (first - 1)) then first + 1 else first - 1 in
  if decide (second < first) then (second, first) else (first, second).

Definition updateSomething (uninit : nat -> spec_float) (x : HAP) : outcome HAP :=
  let k := counters x in
  '(tmpki, sc') ← for_from 0 5 (measure uninit) ([], sc k);
  let '(first, second) := best_pair tmpki in
  let c := cfg (hap_base x) in
  Ok (x <| counters := k <| sc := sc' |>
             <| minPcmLineCounter := bound c (bitsOfSets k) (Z.of_nat first) |>
             <| maxPcmLineCounter := bound c (bitsOfSets k) (Z.of_nat second) |> |>).

#[global] Instance policy : Policy HAP := {
  base := hap_base;
  rebase t x := x <| hap_base := t |>;
  pol_accessBlock := accessBlock;
  pol_findVictim env addr x := b ← findVictim env addr x; Ok (x, b);
  pol_insertBlock := insertBlock;
  pol_invalidate := invalidate
}.
End Hap.

Module Haptest.
Import HapCommon.

Record Counters := MkCounters {
  bitsOfSets : Z;
  totalSampleSet : nat;
  sc : list SC;
  currentPcmLineCounter : Z
}.
#[global] Instance Counters_settable : Settable Counters := fun k =>
  MkCounters (bitsOfSets k) (totalSampleSet k) (sc k) (currentPcmLineCounter k).
Record HAPTEST := MkHAPTEST { haptest_base : TagStore; counters : Counters }.
#[global] Instance HAPTEST_settable : Settable HAPTEST := fun x =>
  MkHAPTEST (haptest_base x) (counters x).

(** [minPcmLineCounter] and [maxPcmLineCounter] are set and never read. *)
Definition HAPTEST_new (t : TagStore) (bitsOfSets : Z) : HAPTEST :=
  let n := Z.to_nat (Z.shiftl 1 (tagShift (cfg t) - setShift (cfg t) - bitsOfSets)) in
  {| haptest_base := t;
     counters := {| bitsOfSets := bitsOfSets; totalSampleSet := n;
                    sc := replicate n (MkSC 0 0 0); currentPcmLineCounter := 0 |} |}.

Definition accessBlock (env : Env) (addr : Z) (sec : bool) (c : Command) (port : Z)
    (x : HAPTEST) : outcome (HAPTEST * option nat * Z) :=
  '(t, ob, lat) ← SetAssoc.accessBlock env addr sec (haptest_base x);
  let k := counters x in
  let low := low (cfg t) (bitsOfSets k) (extractSet (cfg t) addr) in
  sc' ← (if warmedUp t
        then zupd low (fun s => Ok (s <| access_counter ::= fun n => u32 (n + 1)%Z |>)) (sc k)
        else Ok (sc k));
  t ← on_hit (fun b blk => updSet (blk_set blk) (moveToHead b)) ob t;
  Ok (MkHAPTEST t (k <| sc := sc' |>), ob, lat).

Definition findVictim (env : Env) (addr : Z) (x : HAPTEST) : outcome nat :=
  let t := haptest_base x in
  let k := counters x in
  let set := extractSet (cfg t) addr in
  s ← getSet t set;
  b ← aget (blks s) (ways (cfg t) - 1);
  blk ← getBlk t b;
  if warmedUp t && isValid blk then
    let low := low (cfg t) (bitsOfSets k) set in
    c ← zget (sc k) low;
    if (share (low mod 5) (bitsOfSets k) <? pcmLineCounter c)%Z then
      if (addr <? watershed env)%Z then pick_last t s isPcm b else Ok b
    else Ok b
  else Ok b.

Definition addPcmLineCounter (c : TagConfig) (d numSet : Z) (k : Counters)
    : outcome Counters :=
  sc' ← zupd (low c (bitsOfSets k) numSet)
         (fun s => Ok (s <| pcmLineCounter ::= Z.add d |>)) (sc k);
  Ok (k <| sc := sc' |> <| currentPcmLineCounter ::= fun n => u32 (n + d)%Z |>).

Definition add_cost (env : Env) (pkt : Packet) (t : TagStore) (set : Z) (k : Counters)
    : outcome Counters :=
  if warmedUp t && bool_decide (cmd pkt <> Writeback) then
    let low := low (cfg t) (bitsOfSets k) set in
    if (low <=? 4)%Z then
      let d := if (watershed env <=? pkt_addr pkt)%Z then 1%Z else 6%Z in
      sc' ← zupd low (fun s => Ok (s <| cost_counter ::= fun n => u32 (n + d)%Z |>)) (sc k);
      Ok (k <| sc := sc' |>)
    else Ok k
  else Ok k.

Definition insertBlock (env : Env) (pkt : Packet) (b : nat) (x : HAPTEST)
    : outcome HAPTEST :=
  let t := haptest_base x in
  let c := cfg t in
  blk ← getBlk t b;
  k ← add_cost env pkt t (blk_set blk) (counters x);
  '(t, k) ← insert_counting env pkt b (addPcmLineCounter c (-1)) (addPcmLineCounter c 1) t k;
  t ← move_in (pkt_addr pkt) (moveToHead b) t;
  Ok (MkHAPTEST t k).

Definition invalidate (env : Env) (b : nat) (x : HAPTEST) : outcome HAPTEST :=
  blk ← getBlk (haptest_base x) b;
  k ← (if isPcm blk
       then addPcmLineCounter (cfg (haptest_base x)) (-1) (blk_set blk) (counters x)
       else Ok (counters x));
  t ← SetAssoc.invalidate env b (haptest_base x);
  t ← move_own b (moveToTail b) t;
  Ok (MkHAPTEST t k).

(** [updateSomething]: the pairs it computes are printed only; what stays is
    the assertion and the counters restarted. *)
Definition updateSomething (x : HAPTEST) : outcome HAPTEST :=
  let k := counters x in
  sc' ← for_from 0 (totalSampleSet k) (fun i sc =>
         s ← aget sc i;
         if (access_counter s =? 0)%Z then assert! cost_counter s =? 0; Ok sc
         else Ok (<[i := s <| cost_counter := 0%Z |> <| access_counter := 0%Z |>]> sc)) (sc k);
  Ok (x <| counters := k <| sc := sc' |> |>).

#[global] Instance policy : Policy HAPTEST := {
  base := haptest_base;
  rebase t x := x <| haptest_base := t |>;
  pol_accessBlock := accessBlock;
  pol_findVictim env addr x := b ← findVictim env addr x; Ok (x, b);
  pol_insertBlock := insertBlock;
  pol_invalidate := invalidate
}.
End Haptest.

(** ** Laws *)

Section low.
Import HapCommon.
Context (c : TagConfig) (Hc : cfg_ok c).

(** The sample group of a set: its low bits. *)
Lemma low_mod bits set :
  (0 <= bits <= tagShift c - setShift c)%Z -> (0 <= set < Z.of_nat (numSets c))%Z ->
  low c bits set = (set mod 2 ^ (tagShift c - setShift c - bits))%Z.
Proof.
  intros Hb Hs. unfold low, IntMath.bits. destruct Hc.
  replace (tagShift c - setShift c - (bits + 1) - 0 + 1)%Z
    with (tagShift c - setShift c - bits)%Z by lia.
  set (n := (tagShift c - setShift c - bits)%Z). assert (Hn : (0 <= n < 62)%Z) by lia.
  assert (E : mask n = Z.ones n).
  { unfold mask. destruct (Z.eqb_spec n 64); [lia|]. rewrite Z.ones_equiv, Z.shiftl_1_l.
    assert (0 < 2 ^ n < 2 ^ 64)%Z by (split; [lia|apply Z.pow_lt_mono_r; lia]).
    rewrite (wrap_small 64 (2 ^ n)), wrap_small by lia. lia. }
  rewrite E, Z.shiftr_0_r, Z.land_ones by lia.
  pose proof (Z.mod_pos_bound set (2 ^ n) ltac:(lia)).
  pose proof (Z.mod_le set (2 ^ n) ltac:(lia) ltac:(lia)).
  apply swrap_small; [|lia]. change (2 ^ (32 - 1))%Z with 2147483648%Z.
  change (2 ^ 30)%Z with 1073741824%Z in *. lia.
Qed.

Lemma low_range bits set :
  (0 <= bits <= tagShift c - setShift c)%Z -> (0 <= set < Z.of_nat (numSets c))%Z ->
  (0 <= low c bits set < 2 ^ (tagShift c - setShift c - bits))%Z.
Proof. intros Hb Hs. rewrite low_mod by done. apply Z.mod_pos_bound. lia. Qed.
End low.

Section common.
Import HapCommon.

Lemma pick_in m p bs :
  (forall b, b ∈ bs -> is_Some (m !! b)) ->
  exists r, pick m p bs = Ok r /\ (forall b, r = Some b -> b ∈ bs).
Proof.
  induction bs as [|b bs IH]; intros Hm; simpl; [by exists None|].
  destruct (Hm b ltac:(set_solver)) as [blk Hb]. rewrite (aget_ok _ _ _ Hb).
  cbn [mbind outcome_bind]. destruct (p blk); [exists (Some b); set_solver|].
  destruct (IH ltac:(set_solver)) as (r & -> & Hr). exists r. set_solver.
Qed.

(** The victim search of both policies stays in the set. *)
Lemma pick_last_ok t addr i s p b :
  tags_wf t -> extractSet (cfg t) addr = Z.of_nat i -> sets t !! i = Some s ->
  in_set_of t addr b ->
  exists d, pick_last t s p b = Ok d /\ in_set_of t addr d.
Proof.
  intros Hwf E Hs Hb. unfold pick_last.
  assert (Hin : forall d, d ∈ rev (take (ways (cfg t)) (blks s)) -> in_set_of t addr d).
  { intros d Hd. assert (d ∈ blks s) as Hd'.
    { apply list_elem_of_In, in_rev, list_elem_of_In in Hd.
      rewrite <- (take_drop (ways (cfg t)) (blks s)). set_solver. }
    apply (in_set_iff _ _ _ _ Hwf Hs) in Hd' as (blk & ? & ?). exists blk. by rewrite E. }
  destruct (pick_in (mem t) p (rev (take (ways (cfg t)) (blks s)))) as (r & -> & Hr).
  { intros d Hd. by eapply in_set_lt, Hin. }
  cbn [mbind outcome_bind]. exists (default b r). split; [done|]. destruct r; simpl; auto.
Qed.

Lemma touch_blk t b blk t1 :
  mem t !! b = Some blk -> touch b t = Ok t1 ->
  exists blk1, mem t1 !! b = Some blk1 /\ blk_set blk1 = blk_set blk /\
    isValid blk1 = isValid blk /\ isPcm blk1 = isPcm blk.
Proof.
  intros Hb. unfold touch. rewrite (getBlk_ok _ _ _ Hb). cbn [mbind outcome_bind].
  destruct (isTouched blk); [intros [= <-]; eauto|].
  erewrite updBlk_ok by exact Hb. intros [= <-]. eexists. simpl.
  split; [apply list_lookup_insert_eq; by eapply lookup_lt_Some|done].
Qed.

(** The copy of [insertBlock] does what the original does, and the counter
    updates in between. *)
Lemma insert_counting_eq {X} env pkt b (dec inc : Z -> X -> outcome X) t t' x blk :
  mem t !! b = Some blk -> insertBlock env pkt b t = Ok t' ->
  insert_counting env pkt b dec inc t x =
    (x ← (if isValid blk && isPcm blk then dec (blk_set blk) x else Ok x);
     x ← (if is_pcm env (pkt_addr pkt) then inc (blk_set blk) x else Ok x);
     Ok (t', x)).
Proof.
  intros Hb E. unfold insert_counting, insertBlock in *.
  destruct (touch b t) as [t1|] eqn:E1; [|done]. cbn [mbind outcome_bind] in *.
  destruct (touch_blk _ _ _ _ Hb E1) as (blk1 & Hb1 & Hset & Hv & Hp).
  rewrite (getBlk_ok _ _ _ Hb1). cbn [mbind outcome_bind].
  destruct (retire env b t1) as [t2|] eqn:E2; [|done]. cbn [mbind outcome_bind] in *.
  rewrite Hset, Hv, Hp, E. done.
Qed.

(** So it keeps whatever the counter updates keep. *)
Lemma insert_counting_ok {X} (P : X -> Prop) env pkt b (dec inc : Z -> X -> outcome X) t t' x blk :
  tags_wf t -> mem t !! b = Some blk -> insertBlock env pkt b t = Ok t' -> P x ->
  (forall i x, (0 <= i < Z.of_nat (numSets (cfg t)))%Z -> P x ->
     exists x', dec i x = Ok x' /\ P x') ->
  (forall i x, (0 <= i < Z.of_nat (numSets (cfg t)))%Z -> P x ->
     exists x', inc i x = Ok x' /\ P x') ->
  exists x', insert_counting env pkt b dec inc t x = Ok (t', x') /\ P x'.
Proof.
  intros Hwf Hb E HP Hdec Hinc. rewrite (insert_counting_eq _ _ _ _ _ _ _ _ _ Hb E).
  destruct (blk_set_lt _ _ _ Hwf Hb) as (i & Ei & Hi). rewrite Ei.
  assert (exists x1, (if isValid blk && isPcm blk then dec (Z.of_nat i) x else Ok x) = Ok x1 /\ P x1)
    as (x1 & -> & HP1) by (case_match; [apply Hdec; [lia|done]|eauto]).
  cbn [mbind outcome_bind].
  assert (exists x2, (if is_pcm env (pkt_addr pkt) then inc (Z.of_nat i) x1 else Ok x1) = Ok x2 /\ P x2)
    as (x2 & -> & HP2) by (case_match; [apply Hinc; [lia|done]|eauto]).
  cbn [mbind outcome_bind]. eauto.
Qed.

Lemma set_range t b blk :
  tags_wf t -> mem t !! b = Some blk -> (0 <= blk_set blk < Z.of_nat (numSets (cfg t)))%Z.
Proof. intros Hwf Hb. destruct (blk_set_lt _ _ _ Hwf Hb) as (i & -> & Hi). lia. Qed.

Lemma invalidate_set env b blk t t' :
  tags_ok env t -> mem t !! b = Some blk -> isValid blk = true -> invalidate env b t = Ok t' ->
  frame t t'.
Proof.
  intros Hok Hb Hv E.
  by destruct (invalidate_move env b blk t t' (moveToHead b) Hok Hb Hv E (moveToHead_any b))
    as (_ & ? & _).
Qed.
End common.

(** The sample counters of [HAP] stay where they are. *)
Definition hap_ok (t : TagStore) (k : Hap.Counters) : Prop :=
  (0 <= Hap.bitsOfSets k <= tagShift (cfg t) - setShift (cfg t))%Z /\ length (Hap.sc k) = 5.

Section hap.
Import HapCommon Hap.
Context (t : TagStore) (Hwf : tags_wf t).

Lemma sc_update k set f :
  hap_ok t k -> (0 <= set < Z.of_nat (numSets (cfg t)))%Z ->
  (low (cfg t) (bitsOfSets k) set <= 4)%Z ->
  exists sc', zupd (low (cfg t) (bitsOfSets k) set) (fun s => Ok (f s)) (sc k) = Ok sc' /\
    length sc' = 5.
Proof.
  intros [Hb Hl] Hs Hlow.
  pose proof (low_range _ (t_cfg _ Hwf) _ _ Hb Hs) as Hr.
  destruct (lookup_lt_is_Some_2 (sc k) (Z.to_nat (low (cfg t) (bitsOfSets k) set))) as [s Hsc];
    [lia|]. erewrite zupd_ok by (first [lia | exact Hsc | done]).
  eexists. split; [done|]. by rewrite length_insert.
Qed.

Lemma addPcm_ok d i k :
  (0 <= i < Z.of_nat (numSets (cfg t)))%Z -> hap_ok t k ->
  exists k', addPcmLineCounter (cfg t) d i k = Ok k' /\ hap_ok t k'.
Proof.
  intros Hi Hk. unfold addPcmLineCounter.
  destruct (Z.ltb_spec (low (cfg t) (bitsOfSets k) i) 5); [|eexists; by split].
  destruct (sc_update k i (fun s => s <| pcmLineCounter ::= Z.add d |>) Hk Hi ltac:(lia))
    as (sc' & -> & Hl). eexists. split; [done|]. by split; [apply Hk|].
Qed.

Lemma add_cost_ok env pkt i k :
  (0 <= i < Z.of_nat (numSets (cfg t)))%Z -> hap_ok t k ->
  exists k', add_cost env pkt (cfg t) i k = Ok k' /\ hap_ok t k'.
Proof.
  intros Hi Hk. unfold add_cost. case_decide; [|eexists; by split].
  destruct (Z.leb_spec (low (cfg t) (bitsOfSets k) i) 4); [|eexists; by split].
  set (d := if (watershed env <=? pkt_addr pkt)%Z then 1%Z else 4%Z).
  destruct (sc_update k i (fun s => s <| cost_counter ::= fun n => u32 (n + d)%Z |>) Hk Hi
    ltac:(lia)) as (sc' & -> & Hl). eexists. split; [done|]. by split; [apply Hk|].
Qed.

Lemma hap_findVictim_ok env addr k :
  hap_ok t k -> exists b, findVictim env addr (MkHAP t k) = Ok b /\ in_set_of t addr b.
Proof.
  intros Hk. unfold findVictim. cbn [hap_base counters].
  destruct (extractSet_nat _ addr Hwf) as (i & E & Hi).
  destruct (tags_set _ i Hwf Hi) as (s & Hs & _).
  destruct (lastWay_ok addr t Hwf) as (b & Hb & _ & Hin).
  unfold lastWay in Hb. rewrite E, (getSet_ok _ _ _ Hs) in *. cbn [mbind outcome_bind] in *.
  rewrite Hb. cbn [mbind outcome_bind].
  assert (Hpick : forall p, exists d, pick_last t s p b = Ok d /\ in_set_of t addr d)
    by (intros p; by eapply pick_last_ok).
  destruct (Z.leb_spec (low (cfg t) (bitsOfSets k) (Z.of_nat i)) 4).
  - destruct (zget_ok (sc k) (low (cfg t) (bitsOfSets k) (Z.of_nat i))) as (c & -> & _).
    { pose proof (low_range _ (t_cfg _ Hwf) _ (Z.of_nat i) (proj1 Hk) ltac:(lia)).
      rewrite (proj2 Hk). lia. }
    cbn [mbind outcome_bind]. case_match; eauto.
  - repeat case_match; eauto.
Qed.
End hap.

#[export] Instance HAP_laws : PolicyLaws Hap.HAP.
Proof.
  refine {| pol_inv x := hap_ok (base x) (Hap.counters x); pol_master _ := True;
            pol_slot x b := True |}; try done.
  - intros t x Hx [Ec _]. unfold hap_ok in *. simpl in *. by rewrite Ec.
  - intros env addr sec c m x t' ob lat Hx Hwf _ Ha. cbn. unfold Hap.accessBlock.
    open_access Hwf Ha.
    assert (exists sc', (if decide (c <> Writeback) then
        if (HapCommon.low (cfg t') (Hap.bitsOfSets (Hap.counters x)) (extractSet (cfg t') addr) <=? 4)%Z
        then zupd (HapCommon.low (cfg t') (Hap.bitsOfSets (Hap.counters x)) (extractSet (cfg t') addr))
               (fun s => Ok (s <| HapCommon.access_counter ::= fun n => u32 (n + 1)%Z |>))
               (Hap.sc (Hap.counters x))
        else Ok (Hap.sc (Hap.counters x)) else Ok (Hap.sc (Hap.counters x))) = Ok sc' /\
      length sc' = 5) as (sc' & Esc & Hl).
    { rewrite Ec. case_decide; [|eexists; split; [done|apply Hx]].
      destruct (Z.leb_spec (HapCommon.low (cfg (Hap.hap_base x)) (Hap.bitsOfSets (Hap.counters x))
        (extractSet (cfg (Hap.hap_base x)) addr)) 4); [|eexists; split; [done|apply Hx]].
      apply (sc_update _ Hwf _ _ _ Hx); [|done]. apply extractSet_range, Hwf. }
    simpl in Esc. rewrite Esc. cbn [mbind outcome_bind].
    run_step (hit_move t' ob (fun b blk => updSet (blk_set blk) (moveToHead b)) Hwf' Hb
      ltac:(eauto with moves)). eexists. split; [done|]. split; [done|].
    unfold hap_ok. simpl. rewrite <- (r_cfg _ _ Hr), Ec. split; [apply Hx|done].
  - intros env addr x Hx Hwf. cbn.
    destruct (hap_findVictim_ok _ Hwf env addr _ Hx) as (b & E & Hin). destruct x as [t k]. simpl in *.
    rewrite E. cbn [mbind outcome_bind]. exists (Hap.MkHAP t k), b. by split_and!.
  - intros env pkt b x t' Hx Hok _ Hin Hm _ E. cbn. unfold Hap.insertBlock.
    insert_stage Hok Hin Hm E. pose proof Hin as (blk & Hb & _). simpl in *.
    rewrite (getBlk_ok _ _ _ Hb). cbn [mbind outcome_bind].
    pose proof (set_range _ _ _ (ok_wf _ _ Hok) Hb) as Hset.
    destruct (add_cost_ok _ (ok_wf _ _ Hok) env pkt _ _ Hset Hx) as (k1 & -> & Hk1).
    cbn [mbind outcome_bind].
    destruct (insert_counting_ok (hap_ok (Hap.hap_base x)) env pkt b
      (Hap.addPcmLineCounter (cfg (Hap.hap_base x)) (-1))
      (Hap.addPcmLineCounter (cfg (Hap.hap_base x)) 1) _ t' k1 blk (ok_wf _ _ Hok) Hb E Hk1)
      as (k2 & -> & Hk2); [intros; by apply addPcm_ok; [apply (ok_wf _ _ Hok)|..]..|].
    cbn [mbind outcome_bind].
    run_step (move_in_any _ _ _ _ _ Hji (moveToHead b) ltac:(eauto with moves)).
    eexists. split; [done|]. split; [done|]. unfold hap_ok. simpl.
    by rewrite (frame_reorder_cfg _ _ _ (ji_frame _ _ _ _ _ Hji) Hr).
  - intros env b x blk t' Hx Hok Hb Hv E. cbn. unfold Hap.invalidate. simpl in *.
    rewrite (getBlk_ok _ _ _ Hb). cbn [mbind outcome_bind].
    pose proof (set_range _ _ _ (ok_wf _ _ Hok) Hb) as Hset.
    assert (exists k1, (if isPcm blk then Hap.addPcmLineCounter (cfg (Hap.hap_base x)) (-1)
        (blk_set blk) (Hap.counters x) else Ok (Hap.counters x)) = Ok k1 /\
        hap_ok (Hap.hap_base x) k1) as (k1 & -> & Hk1).
    { destruct (isPcm blk); [|eauto]. by apply addPcm_ok; [apply (ok_wf _ _ Hok)|..]. }
    cbn [mbind outcome_bind]. invalidate_to_tail Hok Hb Hv E.
    eexists. split; [done|]. split; [done|]. unfold hap_ok. simpl.
    by rewrite (frame_reorder_cfg _ _ _ Hfr Hr).
Defined.

(** [HAPTEST] has a counter for every sample group. *)
Definition haptest_ok (t : TagStore) (k : Haptest.Counters) : Prop :=
  (0 <= Haptest.bitsOfSets k <= tagShift (cfg t) - setShift (cfg t))%Z /\
  Z.of_nat (length (Haptest.sc k)) =
    (2 ^ (tagShift (cfg t) - setShift (cfg t) - Haptest.bitsOfSets k))%Z.

Section haptest.
Import HapCommon Haptest.
Context (t : TagStore) (Hwf : tags_wf t).

Lemma sct_get k set :
  haptest_ok t k -> (0 <= set < Z.of_nat (numSets (cfg t)))%Z ->
  exists s, zget (sc k) (low (cfg t) (bitsOfSets k) set) = Ok s /\
    sc k !! Z.to_nat (low (cfg t) (bitsOfSets k) set) = Some s.
Proof.
  intros [Hb Hl] Hs. apply zget_ok. rewrite Hl. by apply low_range; [apply Hwf|..].
Qed.

Lemma sct_update k set f :
  haptest_ok t k -> (0 <= set < Z.of_nat (numSets (cfg t)))%Z ->
  exists sc', zupd (low (cfg t) (bitsOfSets k) set) (fun s => Ok (f s)) (sc k) = Ok sc' /\
    length sc' = length (sc k).
Proof.
  intros Hk Hs. destruct (sct_get k set Hk Hs) as (s & _ & Hsc).
  pose proof (low_range _ (t_cfg _ Hwf) _ _ (proj1 Hk) Hs) as Hr.
  erewrite zupd_ok by (first [lia | exact Hsc | done]).
  eexists. split; [done|]. by rewrite length_insert.
Qed.

Lemma addPcmt_ok d i k :
  (0 <= i < Z.of_nat (numSets (cfg t)))%Z -> haptest_ok t k ->
  exists k', addPcmLineCounter (cfg t) d i k = Ok k' /\ haptest_ok t k'.
Proof.
  intros Hi Hk. unfold addPcmLineCounter.
  destruct (sct_update k i (fun s => s <| pcmLineCounter ::= Z.add d |>) Hk Hi)
    as (sc' & -> & Hl). eexists. split; [done|]. split; [apply Hk|]. simpl. rewrite Hl. apply Hk.
Qed.

Lemma add_costt_ok env pkt i k :
  (0 <= i < Z.of_nat (numSets (cfg t)))%Z -> haptest_ok t k ->
  exists k', add_cost env pkt t i k = Ok k' /\ haptest_ok t k'.
Proof.
  intros Hi Hk. unfold add_cost. case_match; [|eexists; by split].
  case_match; [|eexists; by split].
  set (d := if (watershed env <=? pkt_addr pkt)%Z then 1%Z else 6%Z).
  destruct (sct_update k i (fun s => s <| cost_counter ::= fun n => u32 (n + d)%Z |>) Hk Hi)
    as (sc' & -> & Hl). eexists. split; [done|]. split; [apply Hk|]. simpl. rewrite Hl. apply Hk.
Qed.

Lemma findVictimt_ok env addr k :
  haptest_ok t k -> exists b, findVictim env addr (MkHAPTEST t k) = Ok b /\ in_set_of t addr b.
Proof.
  intros Hk. unfold findVictim. cbn [haptest_base counters].
  destruct (extractSet_nat _ addr Hwf) as (i & E & Hi).
  destruct (tags_set _ i Hwf Hi) as (s & Hs & _).
  destruct (lastWay_ok addr t Hwf) as (b & Hb & _ & Hin).
  unfold lastWay in Hb. rewrite E, (getSet_ok _ _ _ Hs) in *. cbn [mbind outcome_bind] in *.
  rewrite Hb. cbn [mbind outcome_bind]. pose proof Hin as (blk & Hblk & _).
  rewrite (getBlk_ok _ _ _ Hblk). cbn [mbind outcome_bind].
  destruct (pick_last_ok t addr i s isPcm b Hwf E Hs Hin) as (d & Ed & Hd).
  destruct (sct_get k (Z.of_nat i) Hk ltac:(lia)) as (c & -> & _). cbn [mbind outcome_bind].
  rewrite Ed. repeat case_match; eauto.
Qed.
End haptest.

#[export] Instance HAPTEST_laws : PolicyLaws Haptest.HAPTEST.
Proof.
  refine {| pol_inv x := haptest_ok (base x) (Haptest.counters x); pol_master _ := True;
            pol_slot x b := True |}; try done.
  - intros t x Hx [Ec _]. unfold haptest_ok in *. simpl in *. by rewrite Ec.
  - intros env addr sec c m x t' ob lat Hx Hwf _ Ha. cbn. unfold Haptest.accessBlock.
    open_access Hwf Ha.
    assert (exists sc', (if warmedUp t' then
        zupd (HapCommon.low (cfg t') (Haptest.bitsOfSets (Haptest.counters x))
                (extractSet (cfg t') addr))
             (fun s => Ok (s <| HapCommon.access_counter ::= fun n => u32 (n + 1)%Z |>))
             (Haptest.sc (Haptest.counters x))
        else Ok (Haptest.sc (Haptest.counters x))) = Ok sc' /\
      length sc' = length (Haptest.sc (Haptest.counters x))) as (sc' & Esc & Hl).
    { rewrite Ec. destruct (warmedUp t'); [|by eexists].
      apply (sct_update _ Hwf _ _ _ Hx). apply extractSet_range, Hwf. }
    simpl in Esc. rewrite Esc. cbn [mbind outcome_bind].
    run_step (hit_move t' ob (fun b blk => updSet (blk_set blk) (moveToHead b)) Hwf' Hb
      ltac:(eauto with moves)). eexists. split; [done|]. split; [done|].
    unfold haptest_ok. simpl. rewrite <- (r_cfg _ _ Hr), Ec, Hl. exact Hx.
  - intros env addr x Hx Hwf. cbn.
    destruct (findVictimt_ok _ Hwf env addr _ Hx) as (b & E & Hin). destruct x as [t k].
    simpl in *. rewrite E. cbn [mbind outcome_bind]. exists (Haptest.MkHAPTEST t k), b.
    by split_and!.
  - intros env pkt b x t' Hx Hok _ Hin Hm _ E. cbn. unfold Haptest.insertBlock.
    insert_stage Hok Hin Hm E. pose proof Hin as (blk & Hb & _). simpl in *.
    rewrite (getBlk_ok _ _ _ Hb). cbn [mbind outcome_bind].
    pose proof (set_range _ _ _ (ok_wf _ _ Hok) Hb) as Hset.
    destruct (add_costt_ok _ (ok_wf _ _ Hok) env pkt _ _ Hset Hx) as (k1 & -> & Hk1).
    cbn [mbind outcome_bind].
    destruct (insert_counting_ok (haptest_ok (Haptest.haptest_base x)) env pkt b
      (Haptest.addPcmLineCounter (cfg (Haptest.haptest_base x)) (-1))
      (Haptest.addPcmLineCounter (cfg (Haptest.haptest_base x)) 1) _ t' k1 blk (ok_wf _ _ Hok) Hb
      E Hk1) as (k2 & -> & Hk2); [intros; by apply addPcmt_ok; [apply (ok_wf _ _ Hok)|..]..|].
    cbn [mbind outcome_bind].
    run_step (move_in_any _ _ _ _ _ Hji (moveToHead b) ltac:(eauto with moves)).
    eexists. split; [done|]. split; [done|]. unfold haptest_ok. simpl.
    by rewrite (frame_reorder_cfg _ _ _ (ji_frame _ _ _ _ _ Hji) Hr).
  - intros env b x blk t' Hx Hok Hb Hv E. cbn. unfold Haptest.invalidate. simpl in *.
    rewrite (getBlk_ok _ _ _ Hb). cbn [mbind outcome_bind].
    pose proof (set_range _ _ _ (ok_wf _ _ Hok) Hb) as Hset.
    assert (exists k1, (if isPcm blk then Haptest.addPcmLineCounter
        (cfg (Haptest.haptest_base x)) (-1) (blk_set blk) (Haptest.counters x)
        else Ok (Haptest.counters x)) = Ok k1 /\ haptest_ok (Haptest.haptest_base x) k1)
      as (k1 & -> & Hk1).
    { destruct (isPcm blk); [|eauto]. by apply addPcmt_ok; [apply (ok_wf _ _ Hok)|..]. }
    cbn [mbind outcome_bind]. invalidate_to_tail Hok Hb Hv E.
    eexists. split; [done|]. split; [done|]. unfold haptest_ok. simpl.
    by rewrite (frame_reorder_cfg _ _ _ Hfr Hr).
Defined.
