(* ===== verification/Account.v ===== *)
(** The books a tag store keeps: how many blocks are in use, how many each
    master holds, how many PCM and DRAM lines each set holds.  Between
    transactions they agree with the blocks, the line counters modulo 256. *)
From S2P Require Import Prelude IntMath MemTypes Blk CacheSet SetAssoc Tags Policy.

#[local] Open Scope Z_scope.

(** ** Counting blocks *)

Definition count (p : CacheBlk -> bool) (m : list CacheBlk) : Z :=
  foldr (fun blk n => b2Z (p blk) + n) 0 m.

Lemma count_insert p m b blk blk' :
  m !! b = Some blk -> count p (<[b := blk']> m) = count p m - b2Z (p blk) + b2Z (p blk').
Proof.
  revert b. induction m as [|x m IH]; intros [|b] Hb; simplify_eq/=; [lia|].
  rewrite (IH b Hb). lia.
Qed.

Lemma count_nonneg p m : 0 <= count p m.
Proof. induction m as [|x m IH]; simpl; [lia|]. destruct (p x); simpl; lia. Qed.

Lemma count_eqv p m m' :
  (forall b b', blk_eqv b b' -> p b' = p b) -> Forall2 blk_eqv m m' -> count p m' = count p m.
Proof. intros Hp. induction 1 as [|x y m m' Hxy _ IH]; simpl; [done|]. by rewrite IH, (Hp x y). Qed.

Lemma count_none p m : (forall blk, blk ∈ m -> p blk = false) -> count p m = 0.
Proof.
  induction m as [|x m IH]; intros H; simpl; [done|].
  rewrite (H x), IH by set_solver. done.
Qed.

Definition held_by (master : Z) (blk : CacheBlk) : bool :=
  isValid blk && (srcMasterId blk =? master).
Definition line_in_set (ispcm : bool) (set : Z) (blk : CacheBlk) : bool :=
  isValid blk && eqb (isPcm blk) ispcm && (blk_set blk =? set).

(** ** The books are right *)

Record books_ok (t : TagStore) : Prop := {
  k_touched : forall b blk, mem t !! b = Some blk -> isTouched blk = isValid blk;
  k_used : tagsInUse (stats t) = count isValid (mem t);
  k_occ : forall j v, occupancies (stats t) !! j = Some v ->
            v = count (held_by (Z.of_nat j)) (mem t);
  k_pcm : forall i s, sets t !! i = Some s ->
            pcm s = u8 (count (line_in_set true (Z.of_nat i)) (mem t));
  k_dram : forall i s, sets t !! i = Some s ->
            dram s = u8 (count (line_in_set false (Z.of_nat i)) (mem t))
}.

Lemma books_reorder t t' : reorder t t' -> books_ok t -> books_ok t'.
Proof.
  intros Hr [Ht Hu Ho Hp Hd]. pose proof Hr as [_ _ Est Hs Hm].
  assert (Hc : forall p, (forall b, p (b <| rrpv := 0 |>) = p b) -> count p (mem t') = count p (mem t)).
  { intros p Hp'. apply count_eqv; [|done]. intros b b' E. by apply blk_eqv_use. }
  split.
  - intros b blk' Hb. symmetry in Hr. destruct (reorder_mem _ _ _ _ Hr Hb) as (blk & Hb1 & E).
    symmetry in E. rewrite (blk_eqv_use isTouched _ _ (fun _ => eq_refl) E),
      (blk_eqv_use isValid _ _ (fun _ => eq_refl) E). eauto.
  - by rewrite <- Est, Hu, Hc.
  - intros j v. rewrite <- Est. intros Hj. rewrite (Ho j v Hj). symmetry. by apply Hc.
  - intros i s' Hi. destruct (Forall2_lookup_r _ _ _ _ _ Hs Hi) as (s & Hsi & [E _]).
    apply (f_equal pcm) in E. simpl in E. rewrite <- E, (Hp i s Hsi), Hc by done. done.
  - intros i s' Hi. destruct (Forall2_lookup_r _ _ _ _ _ Hs Hi) as (s & Hsi & [E _]).
    apply (f_equal dram) in E. simpl in E. rewrite <- E, (Hd i s Hsi), Hc by done. done.
Qed.

#[export] Instance books_proper : Proper (reorder ==> iff) books_ok.
Proof. intros t t' Hr. split; by apply books_reorder. Qed.

(** Rewriting a block without touching what the books count. *)
Definition same_books (blk blk' : CacheBlk) : Prop :=
  isTouched blk' = isTouched blk /\ isValid blk' = isValid blk /\
  srcMasterId blk' = srcMasterId blk /\ isPcm blk' = isPcm blk /\ blk_set blk' = blk_set blk.

Lemma books_blk t t' b blk blk' :
  books_ok t -> mem t !! b = Some blk -> mem t' = <[b := blk']> (mem t) ->
  sets t' = sets t -> tagsInUse (stats t') = tagsInUse (stats t) ->
  occupancies (stats t') = occupancies (stats t) -> same_books blk blk' -> books_ok t'.
Proof.
  intros [Ht Hu Ho Hp Hd] Hb Em Es Eu Eo (E1 & E2 & E3 & E4 & E5).
  assert (Hc : forall p, p blk' = p blk -> count p (mem t') = count p (mem t)).
  { intros p E. rewrite Em, (count_insert p _ _ _ _ Hb), E. lia. }
  split; rewrite ?Es, ?Eu, ?Eo.
  - intros d blkd. rewrite Em. destruct (decide (d = b)) as [->|].
    + rewrite list_lookup_insert_eq by (by eapply lookup_lt_Some). intros [= <-].
      rewrite E1, E2. eauto.
    + rewrite list_lookup_insert_ne by done. eauto.
  - by rewrite Hu, Hc.
  - intros j v Hj. rewrite (Ho j v Hj), Hc; [done|]. unfold held_by. by rewrite E2, E3.
  - intros i s Hi. rewrite (Hp i s Hi), Hc; [done|]. unfold line_in_set. by rewrite E2, E4, E5.
  - intros i s Hi. rewrite (Hd i s Hi), Hc; [done|]. unfold line_in_set. by rewrite E2, E4, E5.
Qed.

Lemma u8_add a d : u8 (u8 a + d) = u8 (a + d).
Proof. unfold wrap. by rewrite Zplus_mod_idemp_l. Qed.

(** ** Line counters *)

Lemma u8_shift a n d : u8 a = u8 n -> u8 (a + d) = u8 (n + d).
Proof.
  unfold wrap. intros E. by rewrite <- (Zplus_mod_idemp_l a), E, Zplus_mod_idemp_l.
Qed.

(** A counter of [ispcm] lines moved by [line_in] and [line_out]. *)
Definition lines_of (ispcm : bool) (s : CacheSet) : Z := if ispcm then pcm s else dram s.

Lemma lines_of_in ispcm p s n d :
  lines_of ispcm s = u8 (n + d) -> lines_of ispcm (line_in p s) = u8 (n + (d + b2Z (eqb p ispcm))).
Proof.
  intros E. unfold line_in. destruct ispcm, p; simpl in *; rewrite E, ?u8_add; f_equal; lia.
Qed.

Lemma lines_of_out ispcm p s n d :
  lines_of ispcm s = u8 (n + d) -> lines_of ispcm (line_out p s) = u8 (n + (d - b2Z (eqb p ispcm))).
Proof.
  intros E. unfold line_out. destruct ispcm, p; simpl in *; rewrite E;
    rewrite <- ?Z.add_opp_r, ?u8_add; f_equal; lia.
Qed.

Lemma occ_add_lookup i d (v : list Z) (j : nat) x :
  0 <= i -> occ_add i d v !! j = Some x ->
  exists y, v !! j = Some y /\ x = y + (if i =? Z.of_nat j then d else 0).
Proof.
  intros Hi. unfold occ_add. destruct (Z.eqb_spec i (Z.of_nat j)) as [->|Hne].
  - rewrite Nat2Z.id, list_lookup_alter_eq. intros (y & Hy & ->)%fmap_Some. exists y.
    split; [done|lia].
  - rewrite list_lookup_alter_ne by lia. intros. exists x. split; [done|lia].
Qed.

(** ** Insertion followed by validation, and invalidation *)

(** A change of one block and of the counters by the same amounts. *)
Lemma books_change t t' b blk blk' i s s' :
  books_ok t -> mem t !! b = Some blk -> blk_set blk = Z.of_nat i -> sets t !! i = Some s ->
  mem t' = <[b := blk']> (mem t) -> sets t' = <[i := s']> (sets t) ->
  blk_set blk' = blk_set blk -> isTouched blk' = isValid blk' ->
  tagsInUse (stats t') = tagsInUse (stats t) - b2Z (isValid blk) + b2Z (isValid blk') ->
  (forall j v', occupancies (stats t') !! j = Some v' -> exists v,
     occupancies (stats t) !! j = Some v /\
     v' = v - b2Z (held_by (Z.of_nat j) blk) + b2Z (held_by (Z.of_nat j) blk')) ->
  (forall p n d, lines_of p s = u8 (n + d) ->
     lines_of p s' = u8 (n + (d - b2Z (isValid blk && eqb (isPcm blk) p)
                                + b2Z (isValid blk' && eqb (isPcm blk') p)))) ->
  books_ok t'.
Proof.
  intros [Ht Hu Ho Hp Hd] Hb Hset Hs Em Es Eset Etv Eu Eo El.
  pose proof (lookup_lt_Some _ _ _ Hb) as Hblt. pose proof (lookup_lt_Some _ _ _ Hs) as Hilt.
  assert (Hc : forall p, count p (mem t') = count p (mem t) - b2Z (p blk) + b2Z (p blk'))
    by (intros p; by rewrite Em, (count_insert p _ _ _ _ Hb)).
  assert (Hold : forall p k sk, sets t !! k = Some sk ->
    lines_of p sk = u8 (count (line_in_set p (Z.of_nat k)) (mem t)))
    by (intros [] k sk Hk; simpl; eauto).
  assert (Hline : forall p k sk, sets t' !! k = Some sk ->
    lines_of p sk = u8 (count (line_in_set p (Z.of_nat k)) (mem t'))).
  { intros p k sk. rewrite Es, Hc. unfold line_in_set at 2 3. rewrite Eset, Hset.
    destruct (decide (k = i)) as [->|Hne].
    - rewrite list_lookup_insert_eq by done. intros [= <-].
      rewrite !Z.eqb_refl, !andb_true_r. rewrite (El p (count (line_in_set p (Z.of_nat i)) (mem t)) 0).
      + f_equal. lia.
      + rewrite Z.add_0_r. by apply Hold.
    - rewrite list_lookup_insert_ne by done. intros Hk. rewrite (Hold p k sk Hk).
      replace (Z.of_nat i =? Z.of_nat k) with false by (symmetry; apply Z.eqb_neq; lia).
      rewrite !andb_false_r. f_equal. simpl. lia. }
  split.
  - intros d blkd. rewrite Em. destruct (decide (d = b)) as [->|].
    + rewrite list_lookup_insert_eq by done. intros [= <-]. done.
    + rewrite list_lookup_insert_ne by done. eauto.
  - by rewrite Eu, Hc, Hu.
  - intros j v' (v & Hv & ->)%Eo. by rewrite Hc, <- (Ho j v Hv).
  - intros k sk Hk. apply (Hline true k sk Hk).
  - intros k sk Hk. apply (Hline false k sk Hk).
Qed.

Lemma books_insert env pkt b blk t t' new :
  tags_ok env t -> books_ok t -> mem t !! b = Some blk ->
  0 <= masterId (req pkt) < maxMasters env -> insertBlock env pkt b t = Ok t' ->
  isValid new = true -> isTouched new = true -> blk_set new = blk_set blk ->
  isPcm new = is_pcm env (pkt_addr pkt) -> srcMasterId new = masterId (req pkt) ->
  books_ok (t' <| mem ::= insert b new |>).
Proof.
  intros Hok Hk Hb Hm E Hv Ht Hset Hp Hsrc.
  destruct (blk_in_set _ _ _ (ok_wf _ _ Hok) Hb) as (i & s & Hi & Hs & _).
  pose proof (t_owned _ _ Hok b blk Hb) as Hown. pose proof (k_touched _ Hk b blk Hb) as Htv.
  destruct t as [c w ss m st]. simpl in *.
  rewrite (insertBlock_spec env c w ss m st b blk i s pkt) in E;
    [|done..|apply (t_occ _ _ Hok)|intros; by apply Hown|done]. injection E as <-.
  eapply (books_change _ _ b blk new i s); [exact Hk|done|done|done|..]; simpl; try done.
  - by rewrite list_insert_insert_eq.
  - congruence.
  - unfold insert_stats, claim_stats, retire_stats, touch_stats. rewrite Htv, Hv.
    destruct (isValid blk); simpl; lia.
  - intros j v'. unfold insert_stats, claim_stats, retire_stats, touch_stats, held_by.
    rewrite Htv, Hv, Hsrc. destruct (isValid blk) eqn:Hvb; simpl.
    + intros (y & (z & Hz & ->)%occ_add_lookup & ->)%occ_add_lookup; [|apply Hown; done|lia].
      exists z. split; [done|]. unfold b2Z. repeat case_match; lia.
    + intros (y & Hy & ->)%occ_add_lookup; [|lia]. exists y. split; [done|].
      unfold b2Z. repeat case_match; lia.
  - intros p n d El. rewrite Hv, Hp. simpl. destruct (isValid blk); simpl.
    + apply lines_of_in. by apply lines_of_out.
    + rewrite Z.sub_0_r. by apply lines_of_in.
Qed.

Lemma books_invalidate env b blk t t' new :
  tags_ok env t -> books_ok t -> mem t !! b = Some blk -> isValid blk = true ->
  invalidate env b t = Ok t' ->
  isValid new = false -> isTouched new = false -> blk_set new = blk_set blk ->
  books_ok (t' <| mem ::= insert b new |>).
Proof.
  intros Hok Hk Hb Hv E Hvn Ht Hset.
  destruct (blk_in_set _ _ _ (ok_wf _ _ Hok) Hb) as (i & s & Hi & Hs & _).
  destruct (t_owned _ _ Hok b blk Hb Hv) as [_ Hr].
  destruct t as [c w ss m st]. simpl in *.
  rewrite (invalidate_spec env c w ss m st b blk Hb i s) in E;
    [|done..|apply (t_occ _ _ Hok)|done|done]. injection E as <-.
  eapply (books_change _ _ b blk new i s); [exact Hk|done|done|done|..]; simpl; try done.
  - by rewrite list_insert_insert_eq.
  - congruence.
  - rewrite Hv, Hvn. simpl. lia.
  - intros j v' (y & Hy & ->)%occ_add_lookup; [|lia]. exists y. split; [done|].
    unfold held_by. rewrite Hv, Hvn. unfold b2Z. repeat case_match; simpl in *; try done; lia.
  - intros p n d El. rewrite Hv, Hvn. simpl. rewrite Z.add_0_r. by apply lines_of_out.
Qed.

(** ** The books through a line's life *)

(** C28. The accounting of [BaseSetAssoc] is exact.  From a store whose books
    are right ([tagsInUse], the occupancy of each master and the PCM and DRAM
    line counts of each set, these modulo 256), inserting a line in any block,
    valid or not, and validating it as the cache does leaves the books right;
    and so does invalidating a valid block, first in the tag store and then in
    the block itself.  None of the steps fails. *)
Theorem books_balance (env : Env) (b : nat) (blk : CacheBlk) (t : TagStore) :
  tags_ok env t -> books_ok t -> mem t !! b = Some blk ->
  (forall pkt s, 0 <= masterId (req pkt) < maxMasters env -> Z.testbit s 0 = true ->
     exists t' blk', insertBlock env pkt b t = Ok t' /\ mem t' !! b = Some blk' /\
       books_ok (t' <| mem ::= insert b (blk' <| status := s |>) |>)) /\
  (isValid blk = true ->
     exists t' blk', invalidate env b t = Ok t' /\ mem t' !! b = Some blk' /\
       books_ok (t' <| mem ::= insert b (blk_invalidate blk') |>)).
Proof.
  intros Hok Hk Hb. pose proof (lookup_lt_Some _ _ _ Hb) as Hlt. split.
  - intros pkt s Hm Hs. destruct (insertBlock_ok env pkt b blk t Hok Hb Hm)
      as (t' & E & _ & _ & _ & _ & Em).
    exists t', (inserted env pkt (cfg t) blk). split_and!; [done|by rewrite Em, list_lookup_insert_eq|].
    apply (books_insert env pkt b blk t t'); try done; [by rewrite isValid_bit|].
    unfold inserted, retired. by destruct (isValid blk).
  - intros Hv. destruct (invalidate_ok env b blk t Hok Hb Hv) as (t' & E & _ & _ & _ & _ & Em & _).
    exists t', (invalidated env blk). split_and!; [done|by rewrite Em, list_lookup_insert_eq|].
    by apply (books_invalidate env b blk t t').
Qed.

Lemma init_books c masters : cfg_ok c -> books_ok (init_tags c masters).
Proof.
  intros Hc. set (t := init_tags c masters).
  assert (Hcnt : forall p, (forall blk, isValid blk = false -> p blk = false) -> count p (mem t) = 0)
    by (intros p Hp; apply count_none; intros blk Hb; apply Hp; by apply (init_invalid_in c Hc masters)).
  split.
  - intros b blk Hb. by rewrite (init_blk_of c Hc masters b blk Hb).
  - symmetry. by apply Hcnt.
  - intros j v Hv. simpl in Hv. apply lookup_replicate in Hv as [-> _].
    symmetry. apply Hcnt. intros blk Hi. unfold held_by. by rewrite Hi.
  - intros i s Hs. simpl in Hs. apply list_lookup_fmap_Some in Hs as (k & -> & _).
    rewrite Hcnt; [done|]. intros blk Hi. unfold line_in_set. by rewrite Hi.
  - intros i s Hs. simpl in Hs. apply list_lookup_fmap_Some in Hs as (k & -> & _).
    rewrite Hcnt; [done|]. intros blk Hi. unfold line_in_set. by rewrite Hi.
Qed.

Lemma books_balance_witness :
  let env := MkEnv 1000 10 8 512 in
  let pkt := MkPacket ReadResp 512 false (MkRequest 512 4 7 0 0 0) in
  exists t' blk', insertBlock env pkt 1 (init_tags tiny_cfg 8) = Ok t' /\ mem t' !! 1%nat = Some blk' /\
    books_ok (t' <| mem ::= insert 1%nat (blk' <| status := 7 |>) |>).
Proof.
  intros env pkt.
  refine (proj1 (books_balance env 1 (init_blk tiny_cfg 0 1) (init_tags tiny_cfg 8) _ _ _) pkt 7 _ _).
  - apply (init_ok tiny_cfg tiny_cfg_ok); [lia|done].
  - apply (init_books tiny_cfg 8 tiny_cfg_ok).
  - reflexivity.
  - simpl. lia.
  - reflexivity.
Defined.

(** ** The task statistics *)

Definition of_task (k : Z) (blk : CacheBlk) : bool := isValid blk && (task_id blk =? k).
Definition of_age (env : Env) (us ms : Z) (j : nat) (blk : CacheBlk) : bool :=
  bool_decide (age_index us ms (curTick env - tickInserted blk) = j).

Lemma count_snoc p m blk : count p (m ++ [blk]) = count p m + b2Z (p blk).
Proof. induction m as [|x m IH]; simpl; lia. Qed.

(** The vectors of [computeStats] after the blocks of [m]. *)
Record tallied (env : Env) (us ms : Z) (m : list CacheBlk) (occ : list Z) (ages : list (list Z))
    : Prop := {
  ta_len : length occ = Z.to_nat NumTaskId;
  ta_occ : forall k, 0 <= k < NumTaskId -> occ !! Z.to_nat k = Some (count (of_task k) m);
  ta_age : forall k, 0 <= k < NumTaskId -> exists row, ages !! Z.to_nat k = Some row /\
    length row = 5%nat /\ forall j, (j < 5)%nat ->
      row !! j = Some (count (fun blk => of_task k blk && of_age env us ms j blk) m)
}.

Lemma age_index_lt us ms age : (age_index us ms age < 5)%nat.
Proof. unfold age_index. repeat case_match; lia. Qed.

Lemma computeStats_blk_ok env us ms m occ ages blk :
  tallied env us ms m occ ages ->
  (isValid blk = true -> 0 <= task_id blk < NumTaskId /\ tickInserted blk <= curTick env) ->
  exists occ' ages', computeStats_blk env us ms (Ok (occ, ages)) blk = Ok (occ', ages') /\
    tallied env us ms (m ++ [blk]) occ' ages'.
Proof.
  intros [Hl Ho Ha] Hblk. unfold computeStats_blk. cbn [mbind outcome_bind].
  destruct (isValid blk) eqn:Hv.
  2: { exists occ, ages. split; [done|].
       assert (E : forall k, of_task k blk = false) by (intros k; unfold of_task; by rewrite Hv).
       split; [done| |].
       - intros k Hk. rewrite count_snoc, E, Z.add_0_r. by apply Ho.
       - intros k Hk. destruct (Ha k Hk) as (row & Hr & Hn & Hj). exists row. split_and!; [done|done|].
         intros j Hlt. rewrite count_snoc, E, Z.add_0_r. by apply Hj. }
  destruct (Hblk eq_refl) as [Ht Hi]. set (k0 := task_id blk) in *.
  rewrite (proj2 (Z.ltb_lt _ _)) by lia.
  destruct (bump_ok k0 1 occ) as (x & Hx & ->); [rewrite Hl; unfold NumTaskId in *; lia|].
  rewrite Ho in Hx by done. injection Hx as <-. cbn [mbind outcome_bind].
  rewrite (proj2 (Z.leb_le _ _)) by done.
  set (j0 := age_index us ms (curTick env - tickInserted blk)).
  destruct (Ha k0 Ht) as (row & Hr & Hn & Hj). rewrite (aget_ok _ _ _ Hr). cbn [mbind outcome_bind].
  pose proof (age_index_lt us ms (curTick env - tickInserted blk)) as Hj0. fold j0 in Hj0.
  destruct (bump_ok (Z.of_nat j0) 1 row) as (y & Hy & ->); [lia|].
  rewrite Nat2Z.id in *. rewrite Hj in Hy by done. injection Hy as <-. cbn [mbind outcome_bind].
  eexists _, _. split; [done|].
  assert (Et : forall k, of_task k blk = (k0 =? k)) by (intros k; unfold of_task; by rewrite Hv).
  pose proof (lookup_lt_Some _ _ _ Hr) as Hrl. split.
  - by rewrite length_insert.
  - intros k Hk. rewrite count_snoc, Et. destruct (Z.eqb_spec k0 k) as [<-|Hne]; simpl.
    + rewrite list_lookup_insert_eq; [done|]. rewrite Hl. unfold NumTaskId in *. lia.
    + rewrite list_lookup_insert_ne, Z.add_0_r by (unfold NumTaskId in *; lia). by apply Ho.
  - intros k Hk. destruct (decide (k = k0)) as [->|Hne].
    + eexists. split; [by apply list_lookup_insert_eq|]. rewrite length_insert. split; [done|].
      intros j Hlt. rewrite count_snoc, Et, Z.eqb_refl. cbn [andb].
      change (of_age env us ms j blk) with (bool_decide (j0 = j)).
      destruct (decide (j0 = j)) as [<-|Hnj].
      * rewrite bool_decide_true by done. apply list_lookup_insert_eq. lia.
      * rewrite bool_decide_false, Z.add_0_r, list_lookup_insert_ne by done. by apply Hj.
    + destruct (Ha k Hk) as (row' & Hr' & Hn' & Hj'). exists row'.
      rewrite list_lookup_insert_ne by (unfold NumTaskId in *; lia). split_and!; [done|done|].
      intros j Hlt. rewrite count_snoc, Et. destruct (Z.eqb_spec k0 k); [congruence|].
      rewrite Z.add_0_r. by apply Hj'.
Qed.

(** [computeStats] counts right: when every valid block has a task in range
    and was not inserted in the future, its assertions hold and it leaves, for
    each task, the number of valid blocks of that task, and for each task and
    age class, the number of those blocks of that age; so the classes of a
    task add up to its occupancy and nothing is counted twice. *)
Theorem computeStats_counts (env : Env) (us ms : Z) (t : TagStore) :
  Forall (fun blk => isValid blk = true -> 0 <= task_id blk < NumTaskId /\
                     tickInserted blk <= curTick env) (mem t) ->
  exists t', computeStats env us ms t = Ok t' /\
    (forall k, 0 <= k < NumTaskId ->
       occupanciesTaskId (stats t') !! Z.to_nat k = Some (count (of_task k) (mem t))) /\
    (forall k, 0 <= k < NumTaskId -> exists row, ageTaskId (stats t') !! Z.to_nat k = Some row /\
       length row = 5%nat /\
       forall j, (j < 5)%nat ->
         row !! j = Some (count (fun blk => of_task k blk && of_age env us ms j blk) (mem t))).
Proof.
  intros Hall. unfold computeStats.
  set (occ0 := replicate (Z.to_nat NumTaskId) 0).
  set (ages0 := replicate (Z.to_nat NumTaskId) (replicate 5 0)).
  assert (Hn : forall k, 0 <= k < NumTaskId -> (Z.to_nat k < Z.to_nat NumTaskId)%nat)
    by (intros; unfold NumTaskId in *; lia).
  assert (H : exists occ ages, foldl (computeStats_blk env us ms) (Ok (occ0, ages0)) (mem t) =
    Ok (occ, ages) /\ tallied env us ms (mem t) occ ages).
  { induction (mem t) as [|blk m IH] using rev_ind.
    - exists occ0, ages0. split; [done|]. split.
      + apply length_replicate.
      + intros k Hk. apply lookup_replicate_2. by apply Hn.
      + intros k Hk. exists (replicate 5 0).
        split; [apply lookup_replicate_2; by apply Hn|].
        split; [done|]. intros j Hj. by apply lookup_replicate_2.
    - apply Forall_app in Hall as [Hall Hblk]. destruct (IH Hall) as (occ & ages & E & Ht).
      rewrite foldl_app, E. cbn [foldl].
      apply computeStats_blk_ok; [done|]. by rewrite Forall_singleton in Hblk. }
  destruct H as (occ & ages & -> & [_ Ho Ha]). cbn [mbind outcome_bind].
  eexists. split; [done|]. by split.
Qed.

Lemma computeStats_counts_witness :
  let t := (init_tags tiny_cfg 8) <| mem := [CacheBlk_new <| status := 1 |> <| task_id := 3 |>] |> in
  let env := MkEnv 1000 10 8 512 in
  exists t', computeStats env 10 10000 t = Ok t' /\
    (forall k, 0 <= k < NumTaskId ->
       occupanciesTaskId (stats t') !! Z.to_nat k = Some (count (of_task k) (mem t))) /\
    (forall k, 0 <= k < NumTaskId -> exists row, ageTaskId (stats t') !! Z.to_nat k = Some row /\
       length row = 5%nat /\
       forall j, (j < 5)%nat ->
         row !! j = Some (count (fun blk => of_task k blk && of_age env 10 10000 j blk) (mem t))).
Proof.
  intros t env. apply (computeStats_counts env 10 10000 t).
  apply Forall_cons_2; [|apply Forall_nil_2]. intros _. vm_compute. split_and?; congruence.
Defined.
