(* ===== verification/HapLines.v ===== *)
(** The line counts the HAP policy decides by: how many PCM lines each of the
    five groups of sample sets holds, and how many all other sets hold; and the
    window its periodic update opens for the latter. *)
From S2P Require Import Prelude IntMath MemTypes Blk CacheSet SetAssoc Tags Policy Account Hap.
From Stdlib Require Import Floats.SpecFloat.

#[local] Open Scope Z_scope.
Import HapCommon Hap.

(** ** The counts *)

Definition pcm_line (p : Z -> bool) (blk : CacheBlk) : bool :=
  isValid blk && isPcm blk && p (blk_set blk).
Definition in_group (t : TagStore) (k : Counters) (g : Z) (set : Z) : bool :=
  low (cfg t) (bitsOfSets k) set =? g.
Definition in_no_group (t : TagStore) (k : Counters) (set : Z) : bool :=
  5 <=? low (cfg t) (bitsOfSets k) set.

(** The counters are those of the blocks, the last one as the [unsigned] it
    is kept in. *)
Record lines_counted (t : TagStore) (k : Counters) : Prop := {
  lc_group i s : sc k !! i = Some s ->
    HapCommon.pcmLineCounter s = count (pcm_line (in_group t k (Z.of_nat i))) (mem t);
  lc_rest : currentPcmLineCounter k = u32 (count (pcm_line (in_no_group t k)) (mem t))
}.

(** [k] counts [f i] lines in group [i] and [r] in the other sets. *)
Definition holds (k : Counters) (f : Z -> Z) (r : Z) : Prop :=
  (forall i s, sc k !! i = Some s -> HapCommon.pcmLineCounter s = f (Z.of_nat i)) /\
  currentPcmLineCounter k = u32 r.

Lemma holds_ext k f g r r' :
  holds k f r -> (forall i, 0 <= i -> f i = g i) -> r = r' -> holds k g r'.
Proof. intros [H1 H2] Hf <-. split; [|done]. intros i s Hi. rewrite (H1 i s Hi). apply Hf. lia. Qed.

Lemma holds_counted t k :
  lines_counted t k <->
  holds k (fun i => count (pcm_line (in_group t k i)) (mem t)) (count (pcm_line (in_no_group t k)) (mem t)).
Proof. split; intros []; by split. Qed.

Section counters.
Context (t : TagStore) (Hwf : tags_wf t).

Lemma addPcm_holds d set k f r :
  0 <= set < Z.of_nat (numSets (cfg t)) -> hap_ok t k -> holds k f r ->
  exists k', addPcmLineCounter (cfg t) d set k = Ok k' /\ hap_ok t k' /\ bitsOfSets k' = bitsOfSets k /\
    holds k' (fun i => f i + if in_group t k i set then d else 0)
      (r + if in_no_group t k set then d else 0).
Proof.
  intros Hs Hk [Hf Hr]. unfold addPcmLineCounter, in_group, in_no_group.
  pose proof (low_range _ (t_cfg _ Hwf) _ _ (proj1 Hk) Hs) as Hlow.
  destruct (Z.ltb_spec (low (cfg t) (bitsOfSets k) set) 5) as [Hlt|Hge].
  - destruct (lookup_lt_is_Some_2 (sc k) (Z.to_nat (low (cfg t) (bitsOfSets k) set))) as [s Hsc];
      [rewrite (proj2 Hk); lia|].
    erewrite zupd_ok by (first [lia | exact Hsc | done]). cbn [mbind outcome_bind].
    eexists. split; [done|]. split; [split; [apply Hk|simpl; rewrite length_insert; apply Hk]|].
    split; [done|]. split; simpl.
    + intros i s'. destruct (decide (i = Z.to_nat (low (cfg t) (bitsOfSets k) set))) as [->|Hne].
      * rewrite list_lookup_insert_eq by (by eapply lookup_lt_Some). intros [= <-]. simpl.
        rewrite (Hf _ _ Hsc), Z2Nat.id, Z.eqb_refl by lia. lia.
      * rewrite list_lookup_insert_ne by done. intros Hi. rewrite (Hf _ _ Hi).
        destruct (Z.eqb_spec (low (cfg t) (bitsOfSets k) set) (Z.of_nat i)); [lia|]. lia.
    + rewrite (proj2 (Z.leb_gt _ _)) by done. by rewrite Z.add_0_r.
  - eexists. split; [done|]. split; [exact Hk|]. split; [done|]. split; simpl.
    + intros i s Hi. pose proof (lookup_lt_Some _ _ _ Hi) as Hl. rewrite (proj2 Hk) in Hl.
      rewrite (Hf _ _ Hi). destruct (Z.eqb_spec (low (cfg t) (bitsOfSets k) set) (Z.of_nat i)); lia.
    + rewrite (proj2 (Z.leb_le _ _)) by done. rewrite Hr. unfold wrap. by rewrite Zplus_mod_idemp_l.
Qed.

Lemma add_cost_holds env pkt set k f r :
  0 <= set < Z.of_nat (numSets (cfg t)) -> hap_ok t k -> holds k f r ->
  exists k', add_cost env pkt (cfg t) set k = Ok k' /\ hap_ok t k' /\ bitsOfSets k' = bitsOfSets k /\
    holds k' f r.
Proof.
  intros Hs Hk Hh. unfold add_cost. case_decide; [|by eauto].
  pose proof (low_range _ (t_cfg _ Hwf) _ _ (proj1 Hk) Hs) as Hlow.
  destruct (Z.leb_spec (low (cfg t) (bitsOfSets k) set) 4) as [Hle|]; [|by eauto].
  destruct (lookup_lt_is_Some_2 (sc k) (Z.to_nat (low (cfg t) (bitsOfSets k) set))) as [s Hsc];
    [rewrite (proj2 Hk); lia|].
  erewrite zupd_ok by (first [lia | exact Hsc | done]). cbn [mbind outcome_bind].
  eexists. split; [done|]. split; [split; [apply Hk|simpl; rewrite length_insert; apply Hk]|].
  split; [done|]. split; [|apply Hh]. simpl. intros i s'.
  destruct (decide (i = Z.to_nat (low (cfg t) (bitsOfSets k) set))) as [->|Hne].
  - rewrite list_lookup_insert_eq by (by eapply lookup_lt_Some). intros [= <-]. simpl.
    by apply (proj1 Hh).
  - rewrite list_lookup_insert_ne by done. apply (proj1 Hh).
Qed.
End counters.

(** ** Insertion and invalidation *)

Lemma count_reorder p t t' :
  (forall b, p (b <| rrpv := 0 |>) = p b) -> reorder t t' -> count p (mem t') = count p (mem t).
Proof.
  intros Hp Hr. apply count_eqv; [|apply (r_mem _ _ Hr)]. intros b b' E. by apply blk_eqv_use.
Qed.

(** The blocks of a reordered store with one of them rewritten. *)
Lemma count_rewritten p t t' b new blk' s :
  (forall b, p (b <| rrpv := 0 |>) = p b) -> reorder t t' -> mem t !! b = Some new ->
  mem t' !! b = Some blk' -> p (s blk') = p (s new) ->
  count p (<[b := s blk']> (mem t')) = count p (mem t) - b2Z (p new) + b2Z (p (s new)).
Proof.
  intros Hp Hr Hn Hb' Hs. rewrite (count_insert p _ _ _ _ Hb'), (count_reorder p t t') by done.
  rewrite Hs. destruct (reorder_mem _ _ _ _ Hr Hn) as (b2 & Hb2 & E). simplify_eq.
  rewrite (blk_eqv_use p _ _ Hp E). done.
Qed.

Lemma pcm_line_rrpv p b : pcm_line p (b <| rrpv := 0 |>) = pcm_line p b.
Proof. done. Qed.

(** What is left to show once the counters are known. *)
Lemma counted_after t t1 k k1 b new blk' (s : CacheBlk -> CacheBlk) d :
  reorder t1 t -> mem t1 !! b = Some new -> mem t !! b = Some blk' ->
  (forall x y, blk_eqv x y -> isValid (s y) = isValid (s x) /\ isPcm (s y) = isPcm (s x) /\
     blk_set (s y) = blk_set (s x)) ->
  bitsOfSets k1 = bitsOfSets k -> (forall p, d p = count p (mem t1) - b2Z (p new) + b2Z (p (s new))) ->
  holds k1 (fun i => d (pcm_line (in_group t k i))) (d (pcm_line (in_no_group t k))) ->
  lines_counted (t <| mem ::= insert b (s blk') |>) k1.
Proof.
  intros Hr Hn Hb' Hs Eb Hd Hh. apply holds_counted.
  assert (E : forall p, count (pcm_line p) (mem (t <| mem ::= insert b (s blk') |>)) = d (pcm_line p)).
  { intros p. rewrite Hd. simpl. apply count_rewritten; [apply pcm_line_rrpv|done..|].
    destruct (reorder_mem _ _ _ _ Hr Hn) as (b2 & Hb2 & E). simplify_eq.
    destruct (Hs _ _ E) as (E1 & E2 & E3). unfold pcm_line. by rewrite E1, E2, E3. }
  unfold in_group, in_no_group in *. simpl in *. rewrite Eb.
  eapply holds_ext; [exact Hh|intros i _; symmetry; apply E|symmetry; apply E].
Qed.

Lemma status_eqv st x y :
  blk_eqv x y -> isValid (y <| status := st |>) = isValid (x <| status := st |>) /\
    isPcm (y <| status := st |>) = isPcm (x <| status := st |>) /\
    blk_set (y <| status := st |>) = blk_set (x <| status := st |>).
Proof.
  intros E. split; [done|]. simpl. split; [by apply (blk_eqv_use isPcm)|by apply (blk_eqv_use blk_set)].
Qed.

Lemma b2Z_down a (c : bool) : a + (if c then -1 else 0) = a - b2Z c.
Proof. destruct c; simpl; lia. Qed.
Lemma b2Z_up a (c : bool) : a + (if c then 1 else 0) = a + b2Z c.
Proof. by destruct c. Qed.

Lemma hap_insert_counted env pkt b blk x st :
  tags_ok env (hap_base x) -> hap_ok (hap_base x) (counters x) ->
  lines_counted (hap_base x) (counters x) ->
  mem (hap_base x) !! b = Some blk -> blk_set blk = extractSet (cfg (hap_base x)) (pkt_addr pkt) ->
  0 <= masterId (req pkt) < maxMasters env -> Z.testbit st 0 = true ->
  exists x' blk', insertBlock env pkt b x = Ok x' /\ mem (hap_base x') !! b = Some blk' /\
    lines_counted ((hap_base x') <| mem ::= insert b (blk' <| status := st |>) |>) (counters x').
Proof.
  destruct x as [t k]. cbn [hap_base counters]. intros Hok Hk Hc Hb Hset Hm Hst. pose proof (ok_wf _ _ Hok) as Hwf.
  assert (Hin : in_set_of t (pkt_addr pkt) b) by (by exists blk).
  destruct (insertBlock_ok env pkt b blk t Hok Hb Hm) as (t1 & E1 & _ & Ec & _ & _ & Em).
  pose proof (just_inserted_ok _ _ _ _ _ Hok Hin Hm E1) as Hji.
  pose proof (set_range _ _ _ Hwf Hb) as Hsr. apply holds_counted in Hc.
  unfold insertBlock. cbn [hap_base counters]. rewrite (getBlk_ok _ _ _ Hb). cbn [mbind outcome_bind].
  destruct (add_cost_holds t Hwf env pkt _ k _ _ Hsr Hk Hc) as (k1 & -> & Hk1 & Eb1 & Hh1).
  cbn [mbind outcome_bind]. rewrite (insert_counting_eq _ _ _ _ _ _ _ _ _ Hb E1).
  set (old := isValid blk && isPcm blk). set (fresh := is_pcm env (pkt_addr pkt)).
  assert (exists k2, (if old then addPcmLineCounter (cfg t) (-1) (blk_set blk) k1 else Ok k1) = Ok k2 /\
    hap_ok t k2 /\ bitsOfSets k2 = bitsOfSets k /\
    holds k2 (fun i => count (pcm_line (in_group t k i)) (mem t) - b2Z (pcm_line (in_group t k i) blk))
      (count (pcm_line (in_no_group t k)) (mem t) - b2Z (pcm_line (in_no_group t k) blk)))
    as (k2 & -> & Hk2 & Eb2 & Hh2).
  { assert (Epl : forall p, pcm_line p blk = old && p (blk_set blk)) by done. clearbody old. destruct old.
    - destruct (addPcm_holds t Hwf (-1) _ k1 _ _ Hsr Hk1 Hh1) as (k2 & -> & Hk2 & Eb2 & Hh2).
      exists k2. split; [done|]. split; [done|]. split; [congruence|].
      eapply holds_ext; [exact Hh2|..]; intros; cbv beta; rewrite Epl; cbn [andb];
        rewrite b2Z_down; unfold in_group, in_no_group; by rewrite Eb1.
    - exists k1. do 3 (split; [done|]).
      eapply holds_ext; [exact Hh1|..]; intros; cbv beta; rewrite Epl; simpl; lia. }
  cbn [mbind outcome_bind].
  assert (exists k3, (if fresh then addPcmLineCounter (cfg t) 1 (blk_set blk) k2 else Ok k2) = Ok k3 /\
    bitsOfSets k3 = bitsOfSets k /\
    holds k3 (fun i => count (pcm_line (in_group t k i)) (mem t) - b2Z (pcm_line (in_group t k i) blk)
        + b2Z (fresh && in_group t k i (blk_set blk)))
      (count (pcm_line (in_no_group t k)) (mem t) - b2Z (pcm_line (in_no_group t k) blk)
        + b2Z (fresh && in_no_group t k (blk_set blk))))
    as (k3 & -> & Eb3 & Hh3).
  { destruct fresh.
    - destruct (addPcm_holds t Hwf 1 _ k2 _ _ Hsr Hk2 Hh2) as (k3 & -> & _ & Eb3 & Hh3).
      exists k3. split; [done|]. split; [congruence|].
      eapply holds_ext; [exact Hh3|..]; intros; cbv beta; cbn [andb];
        rewrite b2Z_up; unfold in_group, in_no_group; by rewrite Eb2.
    - exists k2. do 2 (split; [done|]). eapply holds_ext; [exact Hh2|..]; intros; cbn; lia. }
  cbn [mbind outcome_bind].
  destruct (move_in_any _ _ _ _ _ Hji (moveToHead b) ltac:(eauto with moves)) as (t2 & -> & Hr).
  cbn [mbind outcome_bind]. assert (Hn : mem t1 !! b = Some (inserted env pkt (cfg t) blk))
    by (rewrite Em; apply list_lookup_insert_eq; by eapply lookup_lt_Some).
  destruct (reorder_mem _ _ _ _ Hr Hn) as (blk' & Hb' & _).
  eexists (MkHAP t2 k3), blk'. split; [done|]. split; [done|]. cbn [hap_base counters].
  assert (Ec2 : cfg t2 = cfg t) by (by rewrite <- (r_cfg _ _ Hr), Ec).
  apply (counted_after t2 t1 k k3 b (inserted env pkt (cfg t) blk) blk' (fun x => x <| status := st |>)
    (fun p => count p (mem t) - b2Z (p blk) + b2Z (p ((inserted env pkt (cfg t) blk) <| status := st |>))));
    [done..|by intros ? ? ?; apply status_eqv|done| |].
  - intros p. rewrite Em, (count_insert p _ _ _ _ Hb). lia.
  - unfold in_group, in_no_group in *. rewrite Ec2.
    assert (Epl : forall p, pcm_line p ((inserted env pkt (cfg t) blk) <| status := st |>) =
      fresh && p (blk_set blk)).
    { intros p. unfold pcm_line. replace (isValid _) with true by (symmetry; rewrite isValid_bit; exact Hst).
      unfold inserted, retired. by destruct (isValid blk). }
    eapply holds_ext; [exact Hh3|..]; intros; cbv beta; by rewrite Epl.
Qed.

Lemma hap_invalidate_counted env b blk x :
  tags_ok env (hap_base x) -> hap_ok (hap_base x) (counters x) ->
  lines_counted (hap_base x) (counters x) ->
  mem (hap_base x) !! b = Some blk -> isValid blk = true ->
  exists x' blk', invalidate env b x = Ok x' /\ mem (hap_base x') !! b = Some blk' /\
    lines_counted ((hap_base x') <| mem ::= insert b (blk_invalidate blk') |>) (counters x').
Proof.
  destruct x as [t k]. cbn [hap_base counters]. intros Hok Hk Hc Hb Hv. pose proof (ok_wf _ _ Hok) as Hwf.
  destruct (invalidate_ok env b blk t Hok Hb Hv) as (t1 & E1 & _ & Ec & _ & _ & Em & _).
  destruct (invalidate_move env b blk t t1 (moveToTail b) Hok Hb Hv E1 ltac:(eauto with moves))
    as (_ & _ & t2 & Emv & Hr).
  pose proof (set_range _ _ _ Hwf Hb) as Hsr. apply holds_counted in Hc.
  unfold invalidate. cbn [hap_base counters]. rewrite (getBlk_ok _ _ _ Hb). cbn [mbind outcome_bind].
  assert (Epl : forall p, pcm_line p blk = isPcm blk && p (blk_set blk))
    by (intros p; unfold pcm_line; by rewrite Hv).
  assert (exists k1, (if isPcm blk then addPcmLineCounter (cfg t) (-1) (blk_set blk) k else Ok k) = Ok k1 /\
    bitsOfSets k1 = bitsOfSets k /\
    holds k1 (fun i => count (pcm_line (in_group t k i)) (mem t) - b2Z (pcm_line (in_group t k i) blk))
      (count (pcm_line (in_no_group t k)) (mem t) - b2Z (pcm_line (in_no_group t k) blk)))
    as (k1 & -> & Eb1 & Hh1).
  { destruct (isPcm blk).
    - destruct (addPcm_holds t Hwf (-1) _ k _ _ Hsr Hk Hc) as (k1 & -> & _ & Eb1 & Hh1).
      exists k1. split; [done|]. split; [done|].
      eapply holds_ext; [exact Hh1|..]; intros; cbv beta; rewrite Epl; cbn [andb]; by rewrite b2Z_down.
    - exists k. do 2 (split; [done|]).
      eapply holds_ext; [exact Hc|..]; intros; cbv beta; rewrite Epl; simpl; lia. }
  cbn [mbind outcome_bind]. rewrite E1. cbn [mbind outcome_bind]. rewrite Emv. cbn [mbind outcome_bind].
  assert (Hn : mem t1 !! b = Some (invalidated env blk))
    by (rewrite Em; apply list_lookup_insert_eq; by eapply lookup_lt_Some).
  destruct (reorder_mem _ _ _ _ Hr Hn) as (blk' & Hb' & _).
  eexists (MkHAP t2 k1), blk'. split; [done|]. split; [done|]. cbn [hap_base counters].
  assert (Ec2 : cfg t2 = cfg t) by (by rewrite <- (r_cfg _ _ Hr), Ec).
  apply (counted_after t2 t1 k k1 b (invalidated env blk) blk' blk_invalidate
    (fun p => count p (mem t) - b2Z (p blk) + b2Z (p (blk_invalidate (invalidated env blk)))));
    [done..| |done| |].
  - intros y z E. split; [done|]. cbn.
    split; [by apply (blk_eqv_use isPcm)|by apply (blk_eqv_use blk_set)].
  - intros p. rewrite Em, (count_insert p _ _ _ _ Hb). lia.
  - unfold in_group, in_no_group in *. rewrite Ec2.
    assert (Epi : forall p, pcm_line p (blk_invalidate (invalidated env blk)) = false) by done.
    eapply holds_ext; [exact Hh1|..]; intros; cbv beta; rewrite Epi; simpl; lia.
Qed.

(** ** The periodic update *)

(** The assertion of the update: a group nothing was looked up in has no cost. *)
Definition quiet (s : SC) : bool := negb (access_counter s =? 0) || (cost_counter s =? 0).
Definition restart (s : SC) : SC :=
  if access_counter s =? 0 then s else s <| cost_counter := 0 |> <| access_counter := 0 |>.

Definition score (uninit : nat -> spec_float) (i : nat) (s : SC) : spec_float :=
  if access_counter s =? 0 then uninit i
  else ddiv (to_double (cost_counter s)) (to_double (access_counter s)).

Lemma measure_at uninit i l sc s :
  sc !! i = Some s -> measure uninit i (l, sc) =
    if quiet s then Ok (l ++ [score uninit i s], <[i := restart s]> sc) else Err AssertFail.
Proof.
  intros Hi. unfold measure, quiet, score, restart. rewrite (aget_ok _ _ _ Hi). cbn [mbind outcome_bind].
  destruct (access_counter s =? 0); cbn [negb orb]; [|done].
  destruct (cost_counter s =? 0); [|done]. by rewrite list_insert_id.
Qed.

Lemma measure_all uninit s : forall i l p,
  length p = i ->
  if forallb quiet s
  then exists l', for_from i (length s) (measure uninit) (l, p ++ s) = Ok (l', p ++ map restart s)
  else for_from i (length s) (measure uninit) (l, p ++ s) = Err AssertFail.
Proof.
  induction s as [|a s IH]; intros i l p Hp; [simpl; eauto|]. cbn [length for_from forallb map].
  rewrite (measure_at _ _ _ _ a) by (by rewrite lookup_app_r, <- Hp, Nat.sub_diag by lia).
  destruct (quiet a); cbn [mbind outcome_bind andb]; [|done].
  rewrite insert_app_r_alt, <- Hp, Nat.sub_diag by lia. cbn [insert list_insert].
  specialize (IH (S (length p)) (l ++ [score uninit (length p) a]) (p ++ [restart a])).
  rewrite <- !app_assoc, length_app, Nat.add_1_r in IH. by apply IH.
Qed.

(** Whatever the costs, the two groups are neighbours. *)
Lemma best_pair_adjacent l : exists i, (i <= 3)%nat /\ best_pair l = (i, S i).
Proof.
  unfold best_pair. cbv zeta.
  match goal with |- context [foldl ?f ?a ?s] =>
    assert (Hf : (foldl f a s <= 4)%nat) by (cbn [seq foldl]; repeat case_match; lia);
    revert Hf; generalize (foldl f a s) as first end.
  intros first Hf. destruct (decide (first = 4%nat)) as [->|]; [exists 3%nat; by split; [lia|]|].
  destruct (decide (first = 0%nat)) as [->|]; [exists 0%nat; by split; [lia|]|].
  destruct (dlt _ _).
  - rewrite decide_False by lia. exists first. rewrite Nat.add_1_r. split; [lia|done].
  - rewrite decide_True by lia. exists (first - 1)%nat. split; [lia|]. f_equal. lia.
Qed.

(** ** Properties *)

(** C33. The line counts HAP decides by are exact.  From a state in which the
    counter of each of the five groups of sample sets is the number of valid
    PCM lines in the sets of that group, and the global counter that of all
    other sets (modulo 2^32), inserting a line in a block of its set, valid or
    not, and validating it as the cache does gives such a state again; so does
    invalidating a valid block, first in the policy and then in the block.
    None of the steps fails. *)
Theorem hap_lines_exact (env : Env) (b : nat) (blk : CacheBlk) (x : HAP) :
  tags_ok env (hap_base x) -> hap_ok (hap_base x) (counters x) ->
  lines_counted (hap_base x) (counters x) -> mem (hap_base x) !! b = Some blk ->
  (forall pkt st, blk_set blk = extractSet (cfg (hap_base x)) (pkt_addr pkt) ->
     0 <= masterId (req pkt) < maxMasters env -> Z.testbit st 0 = true ->
     exists x' blk', insertBlock env pkt b x = Ok x' /\ mem (hap_base x') !! b = Some blk' /\
       lines_counted ((hap_base x') <| mem ::= insert b (blk' <| status := st |>) |>) (counters x')) /\
  (isValid blk = true ->
     exists x' blk', invalidate env b x = Ok x' /\ mem (hap_base x') !! b = Some blk' /\
       lines_counted ((hap_base x') <| mem ::= insert b (blk_invalidate blk') |>) (counters x')).
Proof.
  intros Hok Hk Hc Hb. split; [intros pkt st Hs Hm Hst; by eapply hap_insert_counted|].
  intros Hv. by eapply hap_invalidate_counted.
Qed.

(** HAP's periodic [updateSomething], whatever the uninitialised entries of
    its cost array hold: it stops on its assertion exactly when some group of
    sample sets has a cost and no access since the last update; otherwise it
    opens a window of one quarter, from [i] to [i + 1] quarters of the lines
    outside the sample sets, restarts the groups and touches neither the line
    counts nor the store; and the window lies within those lines when there
    are any. *)
Theorem hap_window (uninit : nat -> spec_float) (x : HAP) :
  length (sc (counters x)) = 5%nat ->
  let c := cfg (hap_base x) in
  let n := bitsOfSets (counters x) in
  let others := Z.of_nat (numBlocks c) - 5 * 2 ^ n * 16 in
  if forallb quiet (sc (counters x)) then
    exists i x', (i <= 3)%nat /\ updateSomething uninit x = Ok x' /\
      counters x' = (counters x) <| sc := map restart (sc (counters x)) |>
        <| minPcmLineCounter := bound c n (Z.of_nat i) |>
        <| maxPcmLineCounter := bound c n (Z.of_nat (S i)) |> /\
      hap_base x' = hap_base x /\
      (0 <= others < 2 ^ 32 ->
         minPcmLineCounter (counters x') = others * Z.of_nat i / 4 /\
         maxPcmLineCounter (counters x') = others * Z.of_nat (S i) / 4)
  else updateSomething uninit x = Err AssertFail.
Proof.
  intros Hl c n others. pose proof (measure_all uninit (sc (counters x)) 0 [] [] eq_refl) as Hm.
  rewrite Hl in Hm. cbn [app] in Hm. unfold updateSomething.
  destruct (forallb quiet (sc (counters x))); [|by rewrite Hm].
  destruct Hm as (l & ->). cbn [mbind outcome_bind].
  destruct (best_pair_adjacent l) as (i & Hi & ->). exists i. eexists. split; [done|]. split; [done|].
  split; [done|]. split; [done|]. intros Ho. cbn. unfold bound. fold c n others.
  assert (Hb : forall q, 0 <= q <= 4 -> u32 (Z.quot (others * q) 4) = others * q / 4).
  { intros q Hq. rewrite Z.quot_div_nonneg by nia. apply wrap_small.
    split; [apply Z.div_pos; nia|]. apply Z.div_lt_upper_bound; [lia|]. nia. }
  by split; apply Hb; lia.
Qed.

Definition tiny_hap : HAP := HAP_new (init_tags tiny_cfg 8) 0.

Lemma tiny_hap_counted : lines_counted (hap_base tiny_hap) (counters tiny_hap).
Proof.
  assert (Hc : forall p, count (pcm_line p) (mem (hap_base tiny_hap)) = 0).
  { intros p. apply count_none. intros blk Hb. unfold pcm_line.
    by rewrite (init_invalid_in tiny_cfg tiny_cfg_ok 8 blk Hb). }
  split.
  - intros i s Hi. rewrite Hc. change (sc (counters tiny_hap)) with (replicate 5 (MkSC 0 0 0)) in Hi.
    by apply lookup_replicate in Hi as [-> _].
  - by rewrite Hc.
Qed.

Lemma hap_lines_exact_witness :
  let env := MkEnv 1000 10 8 512 in
  let pkt := MkPacket ReadResp 512 false (MkRequest 512 4 7 0 0 0) in
  exists x' blk', insertBlock env pkt 1%nat tiny_hap = Ok x' /\ mem (hap_base x') !! 1%nat = Some blk' /\
    lines_counted ((hap_base x') <| mem ::= insert 1%nat (blk' <| status := 7 |>) |>) (counters x').
Proof.
  intros env pkt.
  refine (proj1 (hap_lines_exact env 1 (init_blk tiny_cfg 0 1) tiny_hap _ _ tiny_hap_counted _) pkt 7 _ _ _).
  - apply (init_ok tiny_cfg tiny_cfg_ok); [lia|done].
  - split; [vm_compute; split; congruence|reflexivity].
  - reflexivity.
  - reflexivity.
  - simpl. lia.
  - reflexivity.
Defined.

(** A fill that arrives in a period without a lookup of its group. *)
Definition cost_only : HAP :=
  tiny_hap <| counters ::= fun k => k <| sc := MkSC 0 4 1 :: replicate 4 (MkSC 0 0 0) |> |>.

Lemma hap_window_witness : updateSomething (fun _ => S754_zero false) cost_only = Err AssertFail.
Proof. exact (hap_window (fun _ => S754_zero false) cost_only eq_refl). Defined.
