(* ===== verification/Lines.v ===== *)
(** The lines of the address space: which addresses share a line, where the line
    of a block lies, and the contents of a memory as a function. *)
From S2P Require Import Prelude IntMath MemTypes Blk CacheSet SetAssoc Tags.

#[local] Open Scope Z_scope.

(** ** Addresses of a line *)

Definition is_addr (x : Z) : Prop := 0 <= x < 2 ^ 64.

(** The base address of a line, and of the line a block holds. *)
Definition line_base (c : TagConfig) (l : Z * Z * bool) : Z := regenerateBlkAddr c l.1.2 l.1.1.
Definition blk_base (c : TagConfig) (blk : CacheBlk) : Z :=
  regenerateBlkAddr c (tag blk) (blk_set blk).

(** Tags that come from an address. *)
Definition tag_ok (c : TagConfig) (blk : CacheBlk) : Prop := 0 <= tag blk < 2 ^ (64 - tagShift c).

Section geometry.
Context (c : TagConfig) (Hc : cfg_ok c).

Lemma blkSize_pos : 0 < blkSize c.
Proof. destruct Hc. rewrite ok_blkSize. lia. Qed.

Lemma blkSize_bound : blkSize c < 2 ^ 32.
Proof. destruct Hc. rewrite ok_blkSize. apply Z.pow_lt_mono_r; lia. Qed.

Lemma blkSize_divides : (blkSize c | 2 ^ 64).
Proof.
  destruct Hc. rewrite ok_blkSize. exists (2 ^ (64 - setShift c)).
  rewrite <- Z.pow_add_r by lia. f_equal. lia.
Qed.

Lemma blkAlign_sub x : is_addr x -> blkAlign c x = x - x mod blkSize c.
Proof.
  intros Hx. unfold blkAlign. rewrite wrap_land by lia.
  rewrite (Z.land_comm (Z.lnot _)), Z.land_assoc, Z.land_ones, (Z.mod_small x) by (done || lia).
  rewrite blkMask_ones by done. destruct Hc. rewrite ok_blkSize.
  rewrite <- Z.land_ones, <- Z.ldiff_land by lia.
  rewrite Z.sub_nocarry_ldiff; apply Z.bits_inj'; intros n Hn;
    rewrite !Z.ldiff_spec, Z.land_spec, ?Z.bits_0;
    destruct (Z.testbit x n), (Z.testbit (Z.ones (setShift c)) n); reflexivity.
Qed.

Lemma blkAlign_range x :
  is_addr x -> is_addr (blkAlign c x) /\ blkAlign c x <= x < blkAlign c x + blkSize c.
Proof.
  intros Hx. rewrite blkAlign_sub by done. pose proof blkSize_pos.
  pose proof (Z.mod_pos_bound x (blkSize c)). pose proof (Z.mod_le x (blkSize c)).
  unfold is_addr in *. lia.
Qed.

(** An aligned line never crosses the end of the address space. *)
Lemma blkAlign_top x : is_addr x -> blkAlign c x + blkSize c <= 2 ^ 64.
Proof.
  intros Hx. rewrite blkAlign_sub by done. pose proof blkSize_pos.
  destruct blkSize_divides as [k Hk]. unfold is_addr in Hx. rewrite Hk in *.
  pose proof (Z.div_mod x (blkSize c)). assert (x / blkSize c < k)
    by (apply Z.div_lt_upper_bound; lia). nia.
Qed.

Lemma blkAlign_offset x : is_addr x -> x mod blkSize c = x - blkAlign c x.
Proof. intros. rewrite blkAlign_sub by done. lia. Qed.

Lemma line_at_base x s : is_addr x -> line_base c (line_at c x s) = blkAlign c x.
Proof. intros. unfold line_base, line_at. simpl. by apply regenerate_extract. Qed.

Lemma line_at_shift x s :
  line_at c x s = (i32 (Z.land (x / blkSize c) (setMask c)),
                   Z.shiftr (x / blkSize c) (tagShift c - setShift c), s).
Proof.
  destruct Hc. unfold line_at, extractSet, extractTag.
  rewrite ok_blkSize, <- Z.shiftr_div_pow2, Z.shiftr_shiftr by lia.
  by replace (setShift c + (tagShift c - setShift c)) with (tagShift c) by lia.
Qed.

(** Two addresses share a line exactly when they share an aligned block. *)
Lemma line_at_same x y s s' :
  is_addr x -> is_addr y ->
  line_at c x s = line_at c y s' <-> blkAlign c x = blkAlign c y /\ s = s'.
Proof.
  intros Hx Hy. split.
  - intros E. split; [|unfold line_at in E; congruence].
    rewrite <- (line_at_base x s), <- (line_at_base y s') by done. by rewrite E.
  - intros [E <-]. rewrite !line_at_shift. rewrite !blkAlign_sub in E by done.
    assert (x / blkSize c = y / blkSize c) as ->; [|done].
    pose proof blkSize_pos. pose proof (Z.div_mod x (blkSize c)).
    pose proof (Z.div_mod y (blkSize c)). nia.
Qed.

Lemma line_at_near x y s :
  is_addr x -> blkAlign c x <= y < blkAlign c x + blkSize c -> line_at c y s = line_at c x s.
Proof.
  intros Hx Hy. pose proof (blkAlign_top x Hx). pose proof (blkAlign_range x Hx) as [[? ?] ?].
  assert (Hy' : is_addr y) by (unfold is_addr; lia). apply line_at_same; [done..|].
  split; [|done]. rewrite (blkAlign_sub y Hy').
  rewrite (blkAlign_sub x Hx) in *. pose proof blkSize_pos.
  pose proof (Z.div_mod x (blkSize c)).
  rewrite <- (Z.mod_unique y (blkSize c) (x / blkSize c) (y - (x - x mod blkSize c))); lia.
Qed.

Lemma blkAlign_idem x : is_addr x -> blkAlign c (blkAlign c x) = blkAlign c x.
Proof.
  intros Hx. pose proof (blkAlign_range x Hx) as [Ha ?]. pose proof blkSize_pos.
  assert (E : line_at c (blkAlign c x) false = line_at c x false)
    by (apply line_at_near; [done|lia]).
  by apply line_at_same in E as [E _].
Qed.

(** The line of a block is the line of its base address. *)
Lemma blk_base_line blk i :
  tag_ok c blk -> blk_set blk = Z.of_nat i -> (i < numSets c)%nat ->
  is_addr (blk_base c blk) /\ blkAlign c (blk_base c blk) = blk_base c blk /\
  line_at c (blk_base c blk) (isSecure blk) = (blk_set blk, tag blk, isSecure blk).
Proof.
  intros Ht Hs Hi. unfold blk_base, tag_ok in *.
  destruct (extract_regenerate c Hc (tag blk) (blk_set blk) Ht ltac:(lia)) as [E1 E2].
  assert (Ha : is_addr (regenerateBlkAddr c (tag blk) (blk_set blk))).
  { unfold regenerateBlkAddr, is_addr.
    pose proof (wrap_range 64 (Z.shiftl (tag blk) (tagShift c))).
    pose proof (wrap_range 64 (Z.shiftl (blk_set blk) (setShift c))).
    split; [apply Z.lor_nonneg; lia|].
    destruct (Z.eq_dec (Z.lor (u64 (Z.shiftl (tag blk) (tagShift c)))
      (u64 (Z.shiftl (blk_set blk) (setShift c)))) 0) as [->|]; [lia|].
    apply Z.log2_lt_pow2; [pose proof (Z.lor_nonneg (u64 (Z.shiftl (tag blk) (tagShift c)))
      (u64 (Z.shiftl (blk_set blk) (setShift c)))); lia|].
    rewrite Z.log2_lor by lia. apply Z.max_lub_lt.
    - destruct (Z.eq_dec (u64 (Z.shiftl (tag blk) (tagShift c))) 0) as [->|]; [done|].
      apply Z.log2_lt_pow2; lia.
    - destruct (Z.eq_dec (u64 (Z.shiftl (blk_set blk) (setShift c))) 0) as [->|]; [done|].
      apply Z.log2_lt_pow2; lia. }
  split; [done|]. split.
  - rewrite <- (regenerate_extract c Hc) by done. by rewrite E1, E2.
  - unfold line_at. by rewrite E1, E2.
Qed.
End geometry.

Lemma tag_ok_extract c addr : cfg_ok c -> is_addr addr -> 0 <= extractTag c addr < 2 ^ (64 - tagShift c).
Proof.
  intros [] Ha. unfold extractTag. apply shiftr_range; [lia..|].
  by replace (64 - tagShift c + tagShift c) with 64 by lia.
Qed.

(** ** Contents of memory *)

(** Contents are a function from addresses to bytes. *)
Abbreviation Bytes := (Z -> Z).

Definition fread (f : Bytes) (a n : Z) : list Z := f <$> seqZ a n.
Definition fwrite (f : Bytes) (a : Z) (bs : list Z) : Bytes := fun x =>
  if (a <=? x) && (x <? a + Z.of_nat (length bs)) then default 0 (bs !! Z.to_nat (x - a)) else f x.

Lemma length_fread f a n : length (fread f a n) = Z.to_nat n.
Proof. unfold fread. by rewrite length_fmap, length_seqZ. Qed.

Lemma fread_lookup f a n (i : nat) :
  (Z.of_nat i < n) -> fread f a n !! i = Some (f (a + Z.of_nat i)).
Proof.
  intros. unfold fread. rewrite list_lookup_fmap. rewrite (proj2 (lookup_seqZ a n i (a + Z.of_nat i))).
  - done.
  - lia.
Qed.

Lemma fread_ext f g a n : (forall x, a <= x < a + n -> f x = g x) -> fread f a n = fread g a n.
Proof.
  intros E. apply list_eq. intros i. destruct (Z_lt_le_dec (Z.of_nat i) n).
  - rewrite !fread_lookup by done. f_equal. apply E. lia.
  - rewrite !lookup_ge_None_2; [done|rewrite length_fread; lia..].
Qed.

Lemma fread_eq f a n d :
  Z.of_nat (length d) = n -> (forall i : nat, (i < length d)%nat -> d !! i = Some (f (a + Z.of_nat i))) ->
  fread f a n = d.
Proof.
  intros Hl E. apply list_eq. intros i. destruct (decide (i < length d)%nat).
  - by rewrite fread_lookup, E by lia.
  - rewrite !lookup_ge_None_2; [done|lia|rewrite length_fread; lia].
Qed.

Lemma fwrite_in f a bs x :
  a <= x < a + Z.of_nat (length bs) -> fwrite f a bs x = default 0 (bs !! Z.to_nat (x - a)).
Proof. intros. unfold fwrite. destruct (Z.leb_spec a x), (Z.ltb_spec x (a + Z.of_nat (length bs))); simpl; try done; lia. Qed.

Lemma fwrite_out f a bs x :
  x < a \/ a + Z.of_nat (length bs) <= x -> fwrite f a bs x = f x.
Proof. intros. unfold fwrite. destruct (Z.leb_spec a x), (Z.ltb_spec x (a + Z.of_nat (length bs))); simpl; try done; lia. Qed.

Lemma fread_fwrite f a bs : fread (fwrite f a bs) a (Z.of_nat (length bs)) = bs.
Proof.
  apply fread_eq; [done|]. intros i Hi. rewrite fwrite_in by lia.
  replace (Z.to_nat (a + Z.of_nat i - a)) with i by lia.
  by destruct (lookup_lt_is_Some_2 bs i Hi) as [v ->].
Qed.
