(* ===== verification/Memory.v ===== *)
(** Packets with their payload and flags ([mem/packet.hh], [mem/request.hh]),
    and the memory that answers them: [AbstractMemory] ([mem/abstract_mem.hh],
    [mem/abstract_mem.cc]) and the atomic side of [SimpleMemory]
    ([mem/simple_mem.cc]). *)
From S2P Require Import Prelude MemTypes Blk SetAssoc.

#[local] Open Scope Z_scope.

(** ** Byte buffers *)

(** [n] bytes of a buffer from an offset, and [memcpy] into a buffer. *)
Definition rd (buf : list Z) (off n : Z) : outcome (list Z) :=
  if (0 <=? off) && (0 <=? n) && (off + n <=? Z.of_nat (length buf))
  then Ok (take (Z.to_nat n) (drop (Z.to_nat off) buf)) else Err OutOfBounds.
Definition wr (buf : list Z) (off : Z) (src : list Z) : outcome (list Z) :=
  if (0 <=? off) && (off + Z.of_nat (length src) <=? Z.of_nat (length buf))
  then Ok (take (Z.to_nat off) buf ++ src ++ drop (Z.to_nat off + length src) buf)
  else Err OutOfBounds.

(** The bytes of an integer in memory, on a little-endian host. *)
Fixpoint le_bytes (n : nat) (v : Z) : list Z :=
  match n with O => [] | S n => u8 v :: le_bytes n (Z.shiftr v 8) end.

(** ** Packets *)

(** A packet: its header, the size and bytes of its payload, the flags that
    carry coherence state, and the flags of its request.  The routing fields
    ([src], [dest], [senderState]) and the delays are left out. *)
Record CPkt := MkCPkt {
  hdr : Packet;
  pk_size : Z;
  pk_data : list Z;
  sharedAsserted : bool;
  memInhibitAsserted : bool;
  isSupplyExclusive : bool;
  prefetchSquashed : bool;
  isUncacheable : bool;
  isInstFetch : bool;
  isCondSwap : bool;
  isClearLL : bool
}.
#[export] Instance CPkt_settable : Settable CPkt := fun p =>
  MkCPkt (hdr p) (pk_size p) (pk_data p) (sharedAsserted p) (memInhibitAsserted p)
    (isSupplyExclusive p) (prefetchSquashed p) (isUncacheable p) (isInstFetch p)
    (isCondSwap p) (isClearLL p).

Definition pk_cmd (p : CPkt) : Command := cmd (hdr p).
Definition pk_addr (p : CPkt) : Z := pkt_addr (hdr p).
Definition pk_secure (p : CPkt) : bool := pkt_secure (hdr p).
Definition pk_req (p : CPkt) : Request := req (hdr p).

Definition set_cmd (c : Command) (p : CPkt) : CPkt := p <| hdr ::= set_field cmd (fun _ => c) |>.
Definition set_req (r : Request) (p : CPkt) : CPkt := p <| hdr ::= set_field req (fun _ => r) |>.
Definition setExtraData (v : Z) (p : CPkt) : CPkt :=
  set_req ((pk_req p) <| extraData := v |>) p.

Definition getOffset (blkSize : Z) (p : CPkt) : Z := Z.land (pk_addr p) (u64 (blkSize - 1)).

(** [setData(p)]: the payload becomes the [size] bytes found at [off] in [buf];
    [writeData]: the payload is copied into [buf] at [off]. *)
Definition setData (buf : list Z) (off : Z) (p : CPkt) : outcome CPkt :=
  bs ← rd buf off (pk_size p); d ← wr (pk_data p) 0 bs; Ok (p <| pk_data := d |>).
Definition writeData (p : CPkt) (buf : list Z) (off : Z) : outcome (list Z) :=
  bs ← rd (pk_data p) 0 (pk_size p); wr buf off bs.
Definition setDataFromBlock (blk_data : list Z) (blkSize : Z) (p : CPkt) : outcome CPkt :=
  setData blk_data (getOffset blkSize p) p.
Definition writeDataToBlock (p : CPkt) (blk_data : list Z) (blkSize : Z) : outcome (list Z) :=
  writeData p blk_data (getOffset blkSize p).

(** [allocate]: nothing if there is a buffer already; the contents of a fresh
    one are never read before they are written. *)
Definition allocate (p : CPkt) : CPkt :=
  match pk_data p with
  | [] => p <| pk_data := replicate (Z.to_nat (pk_size p)) 0 |>
  | _ => p
  end.

(** [Packet(req, cmd)] with the flags of the request of [p], and
    [Packet(req, cmd, blkSize)], aligned to the block. *)
Definition new_packet (c : Command) (r : Request) (secure : bool) : CPkt :=
  {| hdr := MkPacket c (paddr r) secure r; pk_size := req_size r; pk_data := [];
     sharedAsserted := false; memInhibitAsserted := false; isSupplyExclusive := false;
     prefetchSquashed := false; isUncacheable := false; isInstFetch := false;
     isCondSwap := false; isClearLL := false |}.
Definition new_block_packet (p : CPkt) (c : Command) (blkSize : Z) : CPkt :=
  let r := pk_req p in
  {| hdr := MkPacket c (Z.land (paddr r) (u64 (Z.lnot (blkSize - 1)))) (pk_secure p) r;
     pk_size := blkSize; pk_data := [];
     sharedAsserted := false; memInhibitAsserted := false; isSupplyExclusive := false;
     prefetchSquashed := false; isUncacheable := isUncacheable p;
     isInstFetch := isInstFetch p; isCondSwap := isCondSwap p; isClearLL := isClearLL p |}.

Definition makeResponse (p : CPkt) : outcome CPkt :=
  assert! needsResponse (pk_cmd p);
  assert! isRequest (pk_cmd p);
  Ok (set_cmd (responseCommand (pk_cmd p)) p).

(** [copyError]. *)
Definition copyError (from p : CPkt) : outcome CPkt :=
  assert! isError (pk_cmd from); Ok (set_cmd (pk_cmd from) p).

(** ** The swap shared by caches and memories *)

(** Read the old bytes into the packet; the new bytes are written unless the
    swap is conditional and the old ones differ from the expected value. *)
Definition swap_data (p : CPkt) (buf : list Z) (off : Z)
    : outcome (CPkt * list Z * bool) :=
  assert! pk_size p <=? 8;
  overwrite_val ← rd (pk_data p) 0 (pk_size p);
  old ← rd buf off (pk_size p);
  p ← setData buf off p;
  overwrite_mem ←
    (if isCondSwap p then
       if pk_size p =? 8 then
         Ok (bool_decide (le_bytes 8 (extraData (pk_req p)) = old))
       else if pk_size p =? 4 then
         Ok (bool_decide (le_bytes 4 (u32 (extraData (pk_req p))) = old))
       else Err Fatal
     else Ok true);
  if overwrite_mem : bool then buf ← wr buf off overwrite_val; Ok (p, buf, true)
  else Ok (p, buf, false).

(** ** AbstractMemory *)

Record LockedAddr := MkLockedAddr { la_addr : Z; la_contextId : Z }.

(** [pmem] is the backing store, absent in a null memory. *)
Record AbstractMemory := MkMem {
  range_start : Z;
  range_end : Z;
  pmem : option (list Z);
  lockedAddrList : list LockedAddr;
  numReads : list Z;
  bytesRead : list Z;
  bytesInstRead : list Z;
  numWrites : list Z;
  bytesWritten : list Z;
  numOther : list Z
}.
#[export] Instance AbstractMemory_settable : Settable AbstractMemory := fun m =>
  MkMem (range_start m) (range_end m) (pmem m) (lockedAddrList m) (numReads m) (bytesRead m)
    (bytesInstRead m) (numWrites m) (bytesWritten m) (numOther m).

Definition la_mask (a : Z) : Z := Z.land a (u64 (Z.lnot 0xf)).
Definition la_matchesContext (l : LockedAddr) (r : Request) : bool :=
  la_contextId l =? contextId r.

(** The loop of [trackLoadLocked]: the record of the context is redirected. *)
Fixpoint redirect (r : Request) (ls : list LockedAddr) : option (list LockedAddr) :=
  match ls with
  | [] => None
  | l :: ls =>
      if la_matchesContext l r
      then Some ({| la_addr := la_mask (paddr r); la_contextId := la_contextId l |} :: ls)
      else cons l <$> redirect r ls
  end.
Definition mem_trackLoadLocked (p : CPkt) (m : AbstractMemory) : AbstractMemory :=
  m <| lockedAddrList ::= fun ls =>
    match redirect (pk_req p) ls with
    | Some ls' => ls'
    | None => {| la_addr := la_mask (paddr (pk_req p)); la_contextId := contextId (pk_req p) |} :: ls
    end |>.

Definition checkLockedAddrList (p : CPkt) (m : AbstractMemory) : bool * CPkt * AbstractMemory :=
  let r := pk_req p in
  let paddr := la_mask (paddr r) in
  let llsc := isLLSC (pk_cmd p) in
  let allowStore :=
    if llsc then existsb (fun l => (la_addr l =? paddr) && la_matchesContext l r)
                         (lockedAddrList m)
    else true in
  let p := if llsc then setExtraData (b2Z allowStore) p else p in
  let m := if allowStore
           then m <| lockedAddrList ::= filter (fun l => la_addr l <> paddr) |> else m in
  (allowStore, p, m).

Definition writeOK (p : CPkt) (m : AbstractMemory) : bool * CPkt * AbstractMemory :=
  match lockedAddrList m with
  | [] =>
      let llsc := isLLSC (pk_cmd p) in
      (negb llsc, if llsc then setExtraData 0 p else p, m)
  | _ => checkLockedAddrList p m
  end.

Definition in_range (p : CPkt) (m : AbstractMemory) : bool :=
  (range_start m <=? pk_addr p) && (u64 (pk_addr p + pk_size p - 1) <=? range_end m).

Definition count_master (p : CPkt) (d : Z) (v : list Z) : outcome (list Z) :=
  bump (masterId (pk_req p)) d v.

(** The four arms of [access]. *)
Definition mem_swap (p : CPkt) (m : AbstractMemory) : outcome (AbstractMemory * CPkt) :=
  match pmem m with
  | None => Err Fatal
  | Some bytes =>
      '(p, bytes, _) ← swap_data p bytes (pk_addr p - range_start m);
      let m := m <| pmem := Some bytes |> in
      assert! negb (isInstFetch p);
      n ← count_master p 1 (numOther m);
      Ok (m <| numOther := n |>, p)
  end.

Definition mem_read (p : CPkt) (m : AbstractMemory) : outcome (AbstractMemory * CPkt) :=
  assert! negb (isWrite (pk_cmd p));
  let m := if isLLSC (pk_cmd p) then mem_trackLoadLocked p m else m in
  p ← (match pmem m with
       | Some bytes => setData bytes (pk_addr p - range_start m) p
       | None => Ok p
       end);
  n ← count_master p 1 (numReads m);
  bs ← count_master p (pk_size p) (bytesRead m);
  ins ← (if isInstFetch p then count_master p (pk_size p) (bytesInstRead m)
        else Ok (bytesInstRead m));
  Ok (m <| numReads := n |> <| bytesRead := bs |> <| bytesInstRead := ins |>, p).

Definition mem_write (p : CPkt) (m : AbstractMemory) : outcome (AbstractMemory * CPkt) :=
  let '(ok, p, m) := writeOK p m in
  if ok then
    bytes ← (match pmem m with
             | Some bytes =>
                 bytes ← writeData p bytes (pk_addr p - range_start m); Ok (Some bytes)
             | None => Ok None
             end);
    assert! negb (isInstFetch p);
    n ← count_master p 1 (numWrites m);
    bs ← count_master p (pk_size p) (bytesWritten m);
    Ok (m <| pmem := bytes |> <| numWrites := n |> <| bytesWritten := bs |>, p)
  else Ok (m, p).

Definition mem_access (p : CPkt) (m : AbstractMemory) : outcome (AbstractMemory * CPkt) :=
  assert! in_range p m;
  if memInhibitAsserted p then Ok (m, p)
  else
    '(m, p) ←
      (if decide (pk_cmd p = SwapReq) then mem_swap p m
       else if isRead (pk_cmd p) then mem_read p m
       else if isWrite (pk_cmd p) then mem_write p m
       else if isInvalidate (pk_cmd p) then Ok (m, p)
       else Err Fatal);
    p ← (if needsResponse (pk_cmd p) then makeResponse p else Ok p);
    Ok (m, p).

(** [functionalAccess]; printing a byte of memory has no effect on it. *)
Definition mem_functionalAccess (p : CPkt) (m : AbstractMemory)
    : outcome (AbstractMemory * CPkt) :=
  assert! in_range p m;
  let off := pk_addr p - range_start m in
  if isRead (pk_cmd p) then
    p ← (match pmem m with Some bytes => setData bytes off p | None => Ok p end);
    p ← makeResponse p; Ok (m, p)
  else if isWrite (pk_cmd p) then
    bytes ← (match pmem m with
             | Some bytes => bytes ← writeData p bytes off; Ok (Some bytes)
             | None => Ok None
             end);
    p ← makeResponse p; Ok (m <| pmem := bytes |>, p)
  else if testCmdAttrib (pk_cmd p) IsPrint then Ok (m, p)
  else Err Fatal.

(** ** SimpleMemory, atomic accesses *)

(** [sm_random n lo hi] is the [n]-th draw of [random_mt.random<Tick>(lo, hi)]. *)
Record SimpleMemory := MkSimple {
  sm_mem : AbstractMemory;
  sm_latency : Z;
  sm_latency_var : Z;
  sm_random : nat -> Z -> Z -> Z;
  sm_draws : nat
}.
#[export] Instance SimpleMemory_settable : Settable SimpleMemory := fun m =>
  MkSimple (sm_mem m) (sm_latency m) (sm_latency_var m) (sm_random m) (sm_draws m).

Definition getLatency (m : SimpleMemory) : SimpleMemory * Z :=
  if sm_latency_var m =? 0 then (m, sm_latency m)
  else (m <| sm_draws ::= S |>,
        sm_latency m + sm_random m (sm_draws m) 0 (sm_latency_var m)).

Definition simple_recvAtomic (p : CPkt) (m : SimpleMemory) : outcome (SimpleMemory * CPkt * Z) :=
  '(a, p) ← mem_access p (sm_mem m);
  let m := m <| sm_mem := a |> in
  if memInhibitAsserted p then Ok (m, p, 0)
  else let '(m, lat) := getLatency m in Ok (m, p, lat).

(** With no response waiting in its packet queue. *)
Definition simple_recvFunctional (p : CPkt) (m : SimpleMemory) : outcome (SimpleMemory * CPkt) :=
  '(a, p) ← mem_functionalAccess p (sm_mem m); Ok (m <| sm_mem := a |>, p).

(** ** What a cache has below it *)

(** The master port: [sendAtomic] returns the state below, the packet as the
    responder left it, and a latency in ticks. *)
Class MemSide (M : Type) := {
  sendAtomic : CPkt -> M -> outcome (M * CPkt * Z);
  sendFunctional : CPkt -> M -> outcome (M * CPkt)
}.

#[export] Instance SimpleMemory_side : MemSide SimpleMemory := {
  sendAtomic := simple_recvAtomic;
  sendFunctional := simple_recvFunctional
}.
