(* ===== verification/Monitor.v ===== *)
(** The locked-address list of a memory is an exclusive monitor: it maps a
    context to the 16-byte granule of its last load-linked, until a write to
    that granule takes the entry away. *)
From S2P Require Import Prelude MemTypes Blk SetAssoc Memory.

#[local] Open Scope Z_scope.

(** ** The monitor *)

Definition entry (l : LockedAddr) : Z * Z := (la_contextId l, la_addr l).
Definition monitor (m : AbstractMemory) : gmap Z Z := list_to_map (entry <$> lockedAddrList m).
Definition one_each (ls : list LockedAddr) : Prop := NoDup (la_contextId <$> ls).

Lemma entry_keys ls : (entry <$> ls).*1 = la_contextId <$> ls.
Proof. rewrite <- list_fmap_compose. done. Qed.

Lemma monitor_lookup m c g :
  one_each (lockedAddrList m) ->
  monitor m !! c = Some g <-> exists l, l ∈ lockedAddrList m /\ la_contextId l = c /\ la_addr l = g.
Proof.
  intros Hn. unfold monitor. rewrite <- elem_of_list_to_map by (by rewrite entry_keys).
  rewrite list_elem_of_fmap. split.
  - intros (l & [= -> ->] & Hl). eauto.
  - intros (l & Hl & <- & <-). eauto.
Qed.

Lemma redirect_ok r ls :
  one_each ls ->
  match redirect r ls with
  | Some ls' => contextId r ∈ la_contextId <$> ls /\ (la_contextId <$> ls') = (la_contextId <$> ls) /\
      forall l, l ∈ ls' <-> (la_contextId l = contextId r /\ la_addr l = la_mask (paddr r)) \/
                            (l ∈ ls /\ la_contextId l <> contextId r)
  | None => contextId r ∉ la_contextId <$> ls
  end.
Proof.
  induction ls as [|a ls IH]; intros Hn; [by apply not_elem_of_nil|]. cbn [redirect fmap list_fmap] in *.
  apply NoDup_cons in Hn as [Ha Hn]. specialize (IH Hn).
  unfold la_matchesContext. destruct (Z.eqb_spec (la_contextId a) (contextId r)) as [E|E].
  - split; [rewrite <- E; set_solver|]. split; [done|]. intros l. rewrite !elem_of_cons. split.
    + intros [->|Hl]; [by left|]. right. split; [by right|]. rewrite <- E. intros El.
      apply Ha. rewrite <- El. by apply list_elem_of_fmap_2.
    + intros [[E1 E2]|[[->|Hl] Hne]]; [|done|by right]. left. destruct l; simpl in *. congruence.
  - destruct (redirect r ls) as [ls'|]; cbn [fmap option_fmap option_map].
    + destruct IH as (Hin & Ek & Hl). split; [set_solver|]. split; [exact (f_equal (cons (la_contextId a)) Ek)|].
      intros l. rewrite !elem_of_cons, Hl. naive_solver.
    + set_solver.
Qed.

Lemma track_ok p m :
  one_each (lockedAddrList m) ->
  one_each (lockedAddrList (mem_trackLoadLocked p m)) /\
  monitor (mem_trackLoadLocked p m) = <[contextId (pk_req p) := la_mask (paddr (pk_req p))]> (monitor m).
Proof.
  intros Hn. pose proof (redirect_ok (pk_req p) _ Hn) as Hr.
  unfold mem_trackLoadLocked, set_field. cbn [lockedAddrList].
  destruct (redirect (pk_req p) (lockedAddrList m)) as [ls'|] eqn:E.
  - destruct Hr as (Hin & Ek & Hl). assert (Hn' : one_each ls') by (unfold one_each; by rewrite Ek).
    split; [done|]. apply map_eq. intros c. apply option_eq. intros g.
    rewrite monitor_lookup by done. cbn [lockedAddrList].
    rewrite lookup_insert_Some, monitor_lookup by done. setoid_rewrite Hl. split.
    + intros (l & [[E1 E2]|[Hl1 E1]] & <- & <-); [left; by split|right]. split; [congruence|eauto].
    + intros [[<- <-]|(Hne & l & Hl1 & <- & <-)].
      * exists (MkLockedAddr (la_mask (paddr (pk_req p))) (contextId (pk_req p))). naive_solver.
      * exists l. naive_solver.
  - split; [by apply NoDup_cons|]. done.
Qed.

Lemma existsb_lock m c g :
  one_each (lockedAddrList m) ->
  existsb (fun l => (la_addr l =? g) && (la_contextId l =? c)) (lockedAddrList m) =
    bool_decide (monitor m !! c = Some g).
Proof.
  intros Hn. apply eq_true_iff_eq. rewrite existsb_exists, bool_decide_eq_true, monitor_lookup by done.
  setoid_rewrite andb_true_iff. setoid_rewrite Z.eqb_eq. setoid_rewrite list_elem_of_In. naive_solver.
Qed.

Lemma one_each_filter P `{!forall l, Decision (P l)} ls : one_each ls -> one_each (filter P ls).
Proof.
  unfold one_each. induction ls as [|a ls IH]; [done|]. cbn [fmap list_fmap].
  intros [Ha Hn]%NoDup_cons. rewrite filter_cons. case_decide; [|by apply IH].
  cbn [fmap list_fmap]. apply NoDup_cons. split; [|by apply IH].
  intros (l & E & [_ Hl]%list_elem_of_filter)%list_elem_of_fmap. apply Ha. rewrite E.
  by apply list_elem_of_fmap_2.
Qed.

Lemma monitor_filter m g :
  one_each (lockedAddrList m) ->
  monitor (m <| lockedAddrList ::= filter (fun l => la_addr l <> g) |>) =
    filter (fun cg => cg.2 <> g) (monitor m).
Proof.
  intros Hn. apply map_eq. intros c. apply option_eq. intros x.
  rewrite monitor_lookup by (by apply one_each_filter). rewrite map_lookup_filter_Some, monitor_lookup by done.
  unfold set_field. cbn [lockedAddrList snd]. setoid_rewrite list_elem_of_filter. naive_solver.
Qed.

(** ** Property *)

(** C34. The locked-address list of [AbstractMemory] implements an exclusive
    monitor.  With at most one record per context, a load-linked sets the
    granule of its context and keeps the others; a plain store is always
    allowed, a store-conditional exactly when the monitor holds its granule for
    its context, and the answer goes into the request; an allowed store takes
    that granule away from every context and a refused one changes nothing; and
    a swap, though it writes, takes nothing away. *)
Theorem memory_is_exclusive_monitor (p : CPkt) (m : AbstractMemory) :
  one_each (lockedAddrList m) ->
  let c := contextId (pk_req p) in
  let g := la_mask (paddr (pk_req p)) in
  (one_each (lockedAddrList (mem_trackLoadLocked p m)) /\
   monitor (mem_trackLoadLocked p m) = <[c := g]> (monitor m)) /\
  (exists ok p' m', writeOK p m = (ok, p', m') /\
     ok = (if isLLSC (pk_cmd p) then bool_decide (monitor m !! c = Some g) else true) /\
     p' = (if isLLSC (pk_cmd p) then setExtraData (b2Z ok) p else p) /\
     one_each (lockedAddrList m') /\ pmem m' = pmem m /\
     monitor m' = if ok then filter (fun cg => cg.2 <> g) (monitor m) else monitor m) /\
  (forall m' p', mem_swap p m = Ok (m', p') -> monitor m' = monitor m).
Proof.
  intros Hn c g. split; [by apply track_ok|]. split.
  - assert (E : writeOK p m = checkLockedAddrList p m).
    { unfold writeOK. destruct (lockedAddrList m) eqn:El; [|done]. unfold checkLockedAddrList. rewrite El.
      destruct (isLLSC (pk_cmd p)); cbn; [done|]. f_equal. destruct m; simpl in *. by rewrite El. }
    rewrite E. unfold checkLockedAddrList. eexists _, _, _. split; [done|].
    assert (Eok : (if isLLSC (pk_cmd p) then existsb (fun l => (la_addr l =? la_mask (paddr (pk_req p)))
        && la_matchesContext l (pk_req p)) (lockedAddrList m) else true) =
      (if isLLSC (pk_cmd p) then bool_decide (monitor m !! c = Some g) else true))
      by (case_match; [by apply existsb_lock|done]).
    rewrite Eok. split; [done|]. split; [done|].
    clear Eok. generalize (if isLLSC (pk_cmd p) then bool_decide (monitor m !! c = Some g) else true).
    intros [].
    + split; [by apply one_each_filter|]. split; [done|]. by apply monitor_filter.
    + by repeat split.
  - intros m' p' H. unfold mem_swap in H. destruct (pmem m); [|done].
    destruct (swap_data p l _) as [[[p1 b1] o]|]; cbn [mbind outcome_bind] in H; [|done].
    destruct (negb (isInstFetch p1)); [|done].
    destruct (count_master _ _ _); cbn [mbind outcome_bind] in H; [|done]. injection H as <- <-. done.
Qed.

(** Context 1 reserves a granule, context 2 stores to it. *)
Lemma memory_is_exclusive_monitor_witness :
  let z := replicate 2 0 in
  let m := MkMem 0 63 None [MkLockedAddr 16 1] z z z z z z in
  let sc := new_packet StoreCondReq (MkRequest 20 4 1 1 0 0) false in
  exists p' m', writeOK sc m = (true, p', m') /\ monitor m' = filter (fun cg => cg.2 <> 16) (monitor m).
Proof.
  intros z m sc.
  assert (Hn : one_each (lockedAddrList m)) by (apply (bool_decide_eq_true_1 _); reflexivity).
  destruct (proj1 (proj2 (memory_is_exclusive_monitor sc m Hn))) as (ok & p' & m' & E & Eok & _ & _ & _ & Em).
  assert (ok = true) as -> by (rewrite Eok; reflexivity).
  exists p', m'. split; [exact E|exact Em].
Defined.
