(* ===== verification/Mshr.v ===== *)
(** Miss status holding registers and their queue ([mem/cache/mshr.hh],
    [mshr.cc], [mshr_queue.hh], [mshr_queue.cc]).  The registers of all the
    caches of a hierarchy live in one heap: a target may have been sent by a
    register of the cache above, whose [downstreamPending] flag it drives. *)
From S2P Require Import Prelude MemTypes Blk SetAssoc Memory.

#[local] Open Scope Z_scope.

(** ** Data *)

Inductive Source := FromCPU | FromSnoop | FromPrefetcher.
#[export] Instance Source_eq_dec : EqDecision Source.
Proof. solve_decision. Defined.

(** [t_sender] is [pkt->findNextSenderState<MSHR>()]: the register of the
    cache above that is waiting for this packet, if there is one. *)
Record Target := MkTarget {
  t_recvTime : Z;
  t_readyTime : Z;
  t_order : Z;
  t_pkt : CPkt;
  t_sender : option nat;
  t_source : Source;
  t_markedPending : bool
}.
#[export] Instance Target_settable : Settable Target := fun t =>
  MkTarget (t_recvTime t) (t_readyTime t) (t_order t) (t_pkt t) (t_sender t) (t_source t)
    (t_markedPending t).

Record TargetList := MkTargets {
  tl_list : list Target;
  tl_needsExclusive : bool;
  hasUpgrade : bool
}.
#[export] Instance TargetList_settable : Settable TargetList := fun t =>
  MkTargets (tl_list t) (tl_needsExclusive t) (hasUpgrade t).

Record MSHR := MkMSHR {
  m_readyTime : Z;
  m_isUncacheable : bool;
  downstreamPending : bool;
  pendingDirty : bool;
  postInvalidate : bool;
  postDowngrade : bool;
  m_order : Z;
  m_addr : Z;
  m_size : Z;
  m_secure : bool;
  inService : bool;
  isForward : bool;
  threadNum : Z;
  targets : TargetList;
  deferredTargets : TargetList
}.
#[export] Instance MSHR_settable : Settable MSHR := fun m =>
  MkMSHR (m_readyTime m) (m_isUncacheable m) (downstreamPending m) (pendingDirty m)
    (postInvalidate m) (postDowngrade m) (m_order m) (m_addr m) (m_size m) (m_secure m)
    (inService m) (isForward m) (threadNum m) (targets m) (deferredTargets m).

Abbreviation Heap := (list MSHR).

Definition updM (m : nat) (f : MSHR -> MSHR) (h : Heap) : outcome Heap :=
  x ← aget h m; Ok (<[m := f x]> h).

(** [for (x in l) st = f(x, st)]. *)
Fixpoint foldO {A B} (f : A -> B -> outcome B) (l : list A) (b : B) : outcome B :=
  match l with [] => Ok b | x :: l => b ← f x b; foldO f l b end.

(** ** Target lists *)

Definition TargetList_new : TargetList := MkTargets [] false false.
Definition resetFlags (l : TargetList) : TargetList :=
  l <| tl_needsExclusive := false |> <| hasUpgrade := false |>.
Definition isReset (l : TargetList) : bool := negb (tl_needsExclusive l) && negb (hasUpgrade l).

(** The flags a target adds to its list. *)
Definition note_target (pkt : CPkt) (source : Source) (l : TargetList) : TargetList :=
  if decide (source <> FromSnoop) then
    let l := if needsExclusive (pk_cmd pkt) then l <| tl_needsExclusive := true |> else l in
    if isUpgrade (pk_cmd pkt) || bool_decide (pk_cmd pkt = StoreCondReq)
    then l <| hasUpgrade := true |> else l
  else l.

(** [TargetList::add]: [markPending] raises the flag of the sender above. *)
Definition tl_add (now : Z) (pkt : CPkt) (sender : option nat) (readyTime order : Z)
    (source : Source) (markPending : bool) (l : TargetList) (h : Heap)
    : outcome (TargetList * Heap) :=
  let l := note_target pkt source l in
  h ← (match markPending, sender with
       | true, Some u =>
           x ← aget h u;
           assert! negb (downstreamPending x);
           Ok (<[u := x <| downstreamPending := true |>]> h)
       | _, _ => Ok h
       end);
  Ok (l <| tl_list ::= fun ts =>
        ts ++ [MkTarget now readyTime order pkt sender source markPending] |>, h).

Definition replaceUpgrade (pkt : CPkt) : CPkt :=
  if decide (pk_cmd pkt = UpgradeReq) then set_cmd ReadExReq pkt
  else if decide (pk_cmd pkt = SCUpgradeReq) then set_cmd SCUpgradeFailReq pkt
  else if decide (pk_cmd pkt = StoreCondReq) then set_cmd StoreCondFailReq pkt
  else pkt.

Definition replaceUpgrades (l : TargetList) : TargetList :=
  if hasUpgrade l then
    l <| tl_list ::= fmap (set_field t_pkt replaceUpgrade) |> <| hasUpgrade := false |>
  else l.

(** [MSHR::clearDownstreamPending] and [TargetList::clearDownstreamPending]
    recurse into the senders above; [fuel] bounds the depth of the hierarchy. *)
Definition tl_clear (clear : nat -> Heap -> outcome Heap) (l : TargetList) (h : Heap)
    : outcome Heap :=
  foldO (fun t h => match t_markedPending t, t_sender t with
                    | true, Some u => clear u h
                    | _, _ => Ok h
                    end) (tl_list l) h.

Fixpoint clearDownstreamPending (fuel : nat) (m : nat) (h : Heap) : outcome Heap :=
  match fuel with
  | O => Err Diverge
  | S fuel =>
      x ← aget h m;
      assert! downstreamPending x;
      let h := <[m := x <| downstreamPending := false |>]> h in
      tl_clear (clearDownstreamPending fuel) (targets x) h
  end.

(** ** Registers *)

Definition getNumTargets (x : MSHR) : nat :=
  (length (tl_list (targets x)) + length (tl_list (deferredTargets x)))%nat.
Definition hasTargets (x : MSHR) : bool := negb (bool_decide (tl_list (targets x) = [])).

(** [targets.pop_front()]. *)
Definition popTarget (x : MSHR) : outcome MSHR :=
  match tl_list (targets x) with
  | [] => Err OutOfBounds
  | _ :: ts => Ok (x <| targets ::= set_field tl_list (fun _ => ts) |>)
  end.

(** The front of [targets] is read when there is exactly one target. *)
Definition isForwardNoResponse (x : MSHR) : outcome bool :=
  if negb (getNumTargets x =? 1)%nat then Ok false
  else match tl_list (targets x) with
       | t :: _ => Ok (bool_decide (t_source t = FromCPU) && negb (needsResponse (pk_cmd (t_pkt t))))
       | [] => Err OutOfBounds
       end.

Definition MSHR_new : MSHR :=
  {| m_readyTime := 0; m_isUncacheable := false; downstreamPending := false;
     pendingDirty := false; postInvalidate := false; postDowngrade := false; m_order := 0;
     m_addr := 0; m_size := 0; m_secure := false; inService := false; isForward := false;
     threadNum := -1; targets := TargetList_new; deferredTargets := TargetList_new |}.

(** [MSHR::allocate]: the fields it sets. *)
Definition set_request (addr size : Z) (target : CPkt) (whenReady order : Z) (x : MSHR)
    : MSHR :=
  x <| m_addr := addr |> <| m_size := size |> <| m_secure := pk_secure target |>
    <| m_readyTime := whenReady |> <| m_order := order |> <| isForward := false |>
    <| m_isUncacheable := isUncacheable target |> <| inService := false |>
    <| downstreamPending := false |> <| threadNum := 0 |>.

Definition mshr_allocate (now addr size : Z) (target : CPkt) (sender : option nat)
    (whenReady order : Z) (m : nat) (h : Heap) : outcome Heap :=
  x ← aget h m;
  let x := set_request addr size target whenReady order x in
  assert! isReset (targets x);
  let source := if decide (pk_cmd target = HardPFReq) then FromPrefetcher else FromCPU in
  let h := <[m := x]> h in
  '(ts, h) ← tl_add now target sender whenReady order source true (targets x) h;
  h ← updM m (fun x => x <| targets := ts |>) h;
  assert! isReset (deferredTargets x);
  Ok h.

(** [MSHR::markInService]; the boolean asks the queue to free the register. *)
Definition mshr_markInService (fuel : nat) (pkt : option CPkt) (m : nat) (h : Heap)
    : outcome (bool * Heap) :=
  x ← aget h m;
  assert! negb (inService x);
  fwd ← isForwardNoResponse x;
  if fwd : bool then
    assert! (getNumTargets x =? 1)%nat;
    x ← popTarget x;
    Ok (true, <[m := x]> h)
  else
    match pkt with
    | None => Err AssertFail
    | Some p =>
        let x := x <| inService := true |>
          <| pendingDirty := tl_needsExclusive (targets x) ||
                             (negb (sharedAsserted p) && memInhibitAsserted p) |>
          <| postInvalidate := false |> <| postDowngrade := false |> in
        let h := <[m := x]> h in
        h ← (if negb (downstreamPending x)
             then tl_clear (clearDownstreamPending fuel) (targets x) h else Ok h);
        Ok (false, h)
    end.

(** [MSHR::deallocate]. *)
Definition mshr_deallocate (x : MSHR) : outcome MSHR :=
  assert! negb (hasTargets x);
  assert! isReset (deferredTargets x);
  Ok (x <| targets ::= resetFlags |> <| inService := false |>).

(** The accessors that check [inService]. *)
Definition get_inService (f : MSHR -> bool) (x : MSHR) : outcome bool :=
  assert! inService x; Ok (f x).
Definition isPendingDirty := get_inService pendingDirty.
Definition hasPostInvalidate := get_inService postInvalidate.
Definition hasPostDowngrade := get_inService postDowngrade.

(** Whether a target that arrives while a request is in service waits until
    the response. *)
Definition must_defer (pkt : CPkt) (x : MSHR) : outcome bool :=
  if negb (inService x) then Ok false
  else if negb (bool_decide (tl_list (deferredTargets x) = [])) then Ok true
  else
    pinv ← hasPostInvalidate x;
    if pinv : bool then Ok true
    else if negb (needsExclusive (pk_cmd pkt)) then Ok false
    else
      pd ← isPendingDirty x;
      if negb pd then Ok true
      else pdg ← hasPostDowngrade x; Ok (pdg || isForward x).

Definition allocateTarget (now : Z) (pkt : CPkt) (sender : option nat) (whenReady order : Z)
    (m : nat) (h : Heap) : outcome Heap :=
  assert! negb (bool_decide (pk_cmd pkt = HardPFReq));
  x ← aget h m;
  defer ← must_defer pkt x;
  if defer : bool then
    pinv ← hasPostInvalidate x;
    let pkt := if pinv : bool then replaceUpgrade pkt else pkt in
    '(ts, h) ← tl_add now pkt sender whenReady order FromCPU true (deferredTargets x) h;
    updM m (fun x => x <| deferredTargets := ts |>) h
  else
    '(ts, h) ← tl_add now pkt sender whenReady order FromCPU (negb (inService x)) (targets x) h;
    updM m (fun x => x <| targets := ts |>) h.

(** [Packet(pkt, true)]: a copy with the flags cleared, and no payload of its
    own. *)
Definition copy_packet (p : CPkt) : CPkt :=
  p <| pk_data := [] |> <| sharedAsserted := false |> <| memInhibitAsserted := false |>
    <| isSupplyExclusive := false |> <| prefetchSquashed := false |>.

(** [MSHR::handleSnoop]: whether the register takes the snoop, the packet with
    the answer asserted on it. *)
Definition mshr_handleSnoop (now : Z) (pkt : CPkt) (sender : option nat) (express : bool)
    (order : Z) (m : nat) (h : Heap) : outcome (bool * CPkt * Heap) :=
  x ← aget h m;
  let excl := needsExclusive (pk_cmd pkt) in
  if negb (inService x) || (express && downstreamPending x) then
    let x := if excl then x <| targets ::= replaceUpgrades |>
                            <| deferredTargets ::= replaceUpgrades |> else x in
    Ok (false, pkt, <[m := x]> h)
  else
    let x := if excl then x <| deferredTargets ::= replaceUpgrades |> else x in
    let h := <[m := x]> h in
    pinv ← hasPostInvalidate x;
    if pinv : bool then Ok (true, pkt, h)
    else
      pd ← isPendingDirty x;
      '(pkt, h) ←
        (if pd || isInvalidate (pk_cmd pkt) then
           '(ts, h) ← tl_add now (copy_packet pkt) sender now order FromSnoop
                        (downstreamPending x && tl_needsExclusive (targets x)) (targets x) h;
           h ← updM m (fun x => x <| targets := ts |>) h;
           let pkt := if pd then pkt <| memInhibitAsserted := true |>
                                     <| isSupplyExclusive := true |> else pkt in
           h ← (if excl then updM m (fun x => x <| postInvalidate := true |>) h else Ok h);
           Ok (pkt, h)
         else Ok (pkt, h));
      if excl then Ok (true, pkt, h)
      else
        h ← updM m (fun x => x <| postDowngrade := true |>) h;
        Ok (true, pkt <| sharedAsserted := true |>, h).

Definition promoteDeferredTargets (now : Z) (x : MSHR) : outcome (bool * MSHR) :=
  assert! negb (hasTargets x);
  match tl_list (deferredTargets x) with
  | [] => Ok (false, x)
  | t :: _ =>
      Ok (true, x <| targets := deferredTargets x |>
                  <| deferredTargets := resetFlags (targets x) |>
                  <| m_order := t_order t |> <| m_readyTime := Z.max now (t_readyTime t) |>)
  end.

(** [MSHR::handleFill]; [targets.splice] keeps the flags of both lists. *)
Definition mshr_handleFill (fuel : nat) (pkt : CPkt) (m : nat) (h : Heap) : outcome Heap :=
  x ← aget h m;
  if sharedAsserted pkt then Ok h
  else
    pinv ← hasPostInvalidate x;
    pdg ← (if pinv : bool then Ok true else hasPostDowngrade x);
    if negb pdg && tl_needsExclusive (deferredTargets x) then
      assert! negb (tl_needsExclusive (targets x));
      let x := x <| targets ::= set_field tl_needsExclusive (fun _ => true) |> in
      assert! negb (downstreamPending x);
      let h := <[m := x]> h in
      h ← tl_clear (clearDownstreamPending fuel) (deferredTargets x) h;
      updM m (fun x =>
        x <| targets ::= set_field tl_list (fun ts => ts ++ tl_list (deferredTargets x)) |>
          <| deferredTargets := TargetList_new |>) h
    else Ok h.

(** ** The queue *)

Record MSHRQueue := MkQueue {
  numEntries : Z;
  numReserve : Z;
  allocatedList : list nat;
  readyList : list nat;
  freeList : list nat;
  draining : bool;
  drained : bool;
  allocated : Z;
  inServiceEntries : Z
}.
#[export] Instance MSHRQueue_settable : Settable MSHRQueue := fun q =>
  MkQueue (numEntries q) (numReserve q) (allocatedList q) (readyList q) (freeList q)
    (draining q) (drained q) (allocated q) (inServiceEntries q).

(** The constructor, over the registers at [base ..] of the heap. *)
Definition MSHRQueue_new (num_entries reserve : Z) (base : nat) : MSHRQueue :=
  let n := num_entries + reserve - 1 in
  {| numEntries := n; numReserve := reserve; allocatedList := []; readyList := [];
     freeList := seq base (Z.to_nat n); draining := false; drained := false;
     allocated := 0; inServiceEntries := 0 |}.

Fixpoint find_mshr (p : MSHR -> bool) (h : Heap) (l : list nat) : outcome (option nat) :=
  match l with
  | [] => Ok None
  | m :: l => x ← aget h m; if p x then Ok (Some m) else find_mshr p h l
  end.

Definition findMatch (addr : Z) (is_secure : bool) (q : MSHRQueue) (h : Heap)
    : outcome (option nat) :=
  find_mshr (fun x => (m_addr x =? addr) && eqb (m_secure x) is_secure) h (allocatedList q).

Fixpoint find_mshrs (p : MSHR -> bool) (h : Heap) (l : list nat) : outcome (list nat) :=
  match l with
  | [] => Ok []
  | m :: l => x ← aget h m; ms ← find_mshrs p h l; Ok (if p x then m :: ms else ms)
  end.

Definition findMatches (addr : Z) (is_secure : bool) (q : MSHRQueue) (h : Heap)
    : outcome (bool * list nat) :=
  ms ← find_mshrs (fun x => (m_addr x =? addr) && eqb (m_secure x) is_secure) h
         (allocatedList q);
  Ok (negb (bool_decide (ms = [])), ms).

(** The first waiting request whose bytes overlap [addr, addr + size). *)
Definition findPending (addr size : Z) (is_secure : bool) (q : MSHRQueue) (h : Heap)
    : outcome (option nat) :=
  find_mshr (fun x => eqb (m_secure x) is_secure &&
    (if m_addr x <? addr then addr <? u64 (m_addr x + m_size x)
     else m_addr x <? u64 (addr + size))) h (readyList q).

Fixpoint insert_ready (rt : Z) (m : nat) (h : Heap) (l : list nat) : outcome (list nat) :=
  match l with
  | [] => Err AssertFail
  | i :: l' =>
      x ← aget h i;
      if rt <? m_readyTime x then Ok (m :: l)
      else l' ← insert_ready rt m h l'; Ok (i :: l')
  end.

Definition addToReadyList (m : nat) (q : MSHRQueue) (h : Heap) : outcome MSHRQueue :=
  x ← aget h m;
  at_end ← (match last (readyList q) with
            | None => Ok true
            | Some b => y ← aget h b; Ok (m_readyTime y <=? m_readyTime x)
            end);
  if at_end : bool then Ok (q <| readyList ::= fun l => l ++ [m] |>)
  else l ← insert_ready (m_readyTime x) m h (readyList q); Ok (q <| readyList := l |>).

(** [list.erase(iterator)]; the iterators of a register point at itself. *)
Definition erase (m : nat) (l : list nat) : outcome (list nat) :=
  if decide (m ∈ l) then Ok (without m l) else Err OutOfBounds.

Definition allocate_mshr (now addr size : Z) (pkt : CPkt) (sender : option nat)
    (whenReady order : Z) (q : MSHRQueue) (h : Heap) : outcome (nat * MSHRQueue * Heap) :=
  match freeList q with
  | [] => Err AssertFail
  | m :: free =>
      x ← aget h m;
      assert! (getNumTargets x =? 0)%nat;
      h ← mshr_allocate now addr size pkt sender whenReady order m h;
      let q := q <| freeList := free |> <| allocatedList ::= fun l => l ++ [m] |> in
      q ← addToReadyList m q h;
      Ok (m, q <| allocated ::= Z.succ |>, h)
  end.

Definition deallocateOne (m : nat) (q : MSHRQueue) (h : Heap) : outcome (MSHRQueue * Heap) :=
  al ← erase m (allocatedList q);
  let q := q <| allocatedList := al |> <| freeList ::= cons m |> <| allocated ::= Z.pred |> in
  x ← aget h m;
  q ← (if inService x then Ok (q <| inServiceEntries ::= Z.pred |>)
       else rl ← erase m (readyList q); Ok (q <| readyList := rl |>));
  x ← mshr_deallocate x;
  let h := <[m := x]> h in
  if draining q && (allocated q =? 0) then Ok (q <| draining := false |> <| drained := true |>, h)
  else Ok (q, h).

Definition moveToFront (m : nat) (q : MSHRQueue) (h : Heap) : outcome MSHRQueue :=
  x ← aget h m;
  if negb (inService x) then
    rl ← erase m (readyList q); Ok (q <| readyList := m :: rl |>)
  else Ok q.

Definition markInService (fuel : nat) (pkt : option CPkt) (m : nat) (q : MSHRQueue) (h : Heap)
    : outcome (MSHRQueue * Heap) :=
  '(free, h) ← mshr_markInService fuel pkt m h;
  if free : bool then deallocateOne m q h
  else rl ← erase m (readyList q);
       Ok (q <| readyList := rl |> <| inServiceEntries ::= Z.succ |>, h).

Definition markPending (m : nat) (q : MSHRQueue) (h : Heap) : outcome (MSHRQueue * Heap) :=
  x ← aget h m;
  assert! inService x;
  let h := <[m := x <| inService := false |>]> h in
  q ← addToReadyList m (q <| inServiceEntries ::= Z.pred |>) h;
  Ok (q, h).

Definition isFull (q : MSHRQueue) : bool := numEntries q - numReserve q <? allocated q.
Definition havePending (q : MSHRQueue) : bool := negb (bool_decide (readyList q = [])).

Definition forceDeallocateTarget (now : Z) (m : nat) (q : MSHRQueue) (h : Heap)
    : outcome (bool * MSHRQueue * Heap) :=
  let was_full := isFull q in
  x ← aget h m;
  assert! hasTargets x;
  x ← popTarget x;
  '(promoted, x) ← (if hasTargets x then Ok (true, x) else promoteDeferredTargets now x);
  let h := <[m := x]> h in
  '(q, h) ← (if promoted : bool then Ok (q, h) else deallocateOne m q h);
  Ok (was_full && negb (isFull q), q, h).

(** [squash]: popping a target asserts that the thread is thread 0. *)
Definition squash_mshr (thread : Z) (m : nat) (st : MSHRQueue * Heap)
    : outcome (MSHRQueue * Heap) :=
  let '(q, h) := st in
  x ← aget h m;
  if threadNum x =? thread then
    assert! negb (hasTargets x) || (0 =? thread);
    let x := x <| targets ::= set_field tl_list (fun _ => []) |> in
    assert! (getNumTargets x =? 0)%nat;
    let h := <[m := x]> h in
    if negb (inService x) then deallocateOne m q h else Ok (q, h)
  else Ok (q, h).
Definition squash (thread : Z) (q : MSHRQueue) (h : Heap) : outcome (MSHRQueue * Heap) :=
  foldO (squash_mshr thread) (allocatedList q) (q, h).

Definition getNextMSHR (now : Z) (q : MSHRQueue) (h : Heap) : outcome (option nat) :=
  match readyList q with
  | [] => Ok None
  | m :: _ => x ← aget h m; Ok (if now <? m_readyTime x then None else Some m)
  end.
Definition MaxTick : Z := 2 ^ 64 - 1.
Definition nextMSHRReadyTime (q : MSHRQueue) (h : Heap) : outcome Z :=
  match readyList q with
  | [] => Ok MaxTick
  | m :: _ => x ← aget h m; Ok (m_readyTime x)
  end.
Definition drain (q : MSHRQueue) : MSHRQueue * Z :=
  if allocated q =? 0 then (q <| drained := true |>, 0) else (q <| draining := true |>, 1).

(** The end of [Cache::recvTimingResp], as far as the register and its queue
    are concerned: when targets were deferred they become the targets of a new
    request, otherwise the register is released. *)
Definition finish_mshr (now : Z) (m : nat) (q : MSHRQueue) (h : Heap)
    : outcome (MSHRQueue * Heap) :=
  x ← aget h m;
  '(promoted, x) ← promoteDeferredTargets now x;
  let h := <[m := x]> h in
  if promoted : bool then markPending m q h else deallocateOne m q h.

(** [mshr->popTarget()] at the end of the service of a target. *)
Definition pop_mshr (m : nat) (h : Heap) : outcome Heap :=
  x ← aget h m; x ← popTarget x; Ok (<[m := x]> h).
