(* ===== verification/Queue.v ===== *)
(** The invariant of an MSHR queue: the registers are split between the
    allocated and the free list, the ready list holds exactly the allocated
    registers that are not in service, the counters count, and free registers
    carry no target.  Every operation of the queue and of its registers keeps
    it, in any order. *)
From S2P Require Import Prelude MemTypes Blk SetAssoc Memory Mshr.
From stdpp Require Import sorting.

#[local] Open Scope Z_scope.

(** ** Heaps that differ in [downstreamPending] flags *)

Definition same_reg (x x' : MSHR) : Prop :=
  x <| downstreamPending := false |> = x' <| downstreamPending := false |>.
Definition heap_eqv : relation Heap := Forall2 same_reg.

#[export] Instance same_reg_equiv : Equivalence same_reg.
Proof. split; [done|intros x y E; exact (eq_sym E)|intros x y z E F; exact (eq_trans E F)]. Qed.
#[export] Instance heap_eqv_equiv : Equivalence heap_eqv.
Proof. unfold heap_eqv. split; apply _. Qed.

Lemma same_reg_use {A} (f : MSHR -> A) x x' :
  (forall x, f (x <| downstreamPending := false |>) = f x) -> same_reg x x' -> f x' = f x.
Proof. intros Hf E. by rewrite <- (Hf x'), <- (Hf x), E. Qed.

Lemma heap_eqv_insert h m x x' :
  h !! m = Some x -> same_reg x x' -> heap_eqv h (<[m := x']> h).
Proof.
  intros Hm Hx. apply Forall2_same_length_lookup. rewrite length_insert. split; [done|].
  intros i y z Hy Hz. destruct (decide (i = m)) as [->|Hne].
  - rewrite list_lookup_insert_eq in Hz by (by eapply lookup_lt_Some). by simplify_eq.
  - rewrite list_lookup_insert_ne in Hz by done. by simplify_eq.
Qed.

Lemma heap_eqv_lookup h h' m x :
  heap_eqv h h' -> h !! m = Some x -> exists x', h' !! m = Some x' /\ same_reg x x'.
Proof. intros He Hm. destruct (Forall2_lookup_l _ _ _ _ _ He Hm) as (x' & ? & ?). eauto. Qed.

Lemma tl_add_Ok now pkt s rt o src mark l h l' h' :
  tl_add now pkt s rt o src mark l h = Ok (l', h') ->
  heap_eqv h h' /\ tl_list l' <> [] /\
  tl_list l' = tl_list l ++ [MkTarget now rt o pkt s src mark].
Proof.
  unfold tl_add. intros H. destruct (_ : outcome Heap) as [h1|] eqn:Eh;
    cbn [mbind outcome_bind] in H; [|discriminate H]. injection H as <- <-.
  assert (El : tl_list (note_target pkt src l) = tl_list l)
    by (unfold note_target; repeat case_match; done).
  split; [|split; [simpl; rewrite El; by destruct (tl_list l)|simpl; by rewrite El]].
  destruct mark; [|by injection Eh as <-]. destruct s as [u|]; [|by injection Eh as <-].
  run_in Eh. apply aget_Ok in E. by eapply heap_eqv_insert.
Qed.

Lemma tl_clear_Ok clear l h h' :
  (forall u h h', clear u h = Ok h' -> heap_eqv h h') -> tl_clear clear l h = Ok h' -> heap_eqv h h'.
Proof.
  intros Hc. unfold tl_clear. generalize (tl_list l). intros ts. revert h.
  induction ts as [|t ts IH]; intros h H; cbn [foldO] in H; [by injection H as <-|].
  run_in H. transitivity r; [|by apply IH].
  destruct (t_markedPending t); [|by injection E as <-].
  destruct (t_sender t); [|by injection E as <-]. by eapply Hc.
Qed.

Lemma clearDownstreamPending_Ok fuel m h h' :
  clearDownstreamPending fuel m h = Ok h' -> heap_eqv h h'.
Proof.
  revert m h h'. induction fuel as [|fuel IH]; intros m h h' H; [done|]. cbn in H. run_in H.
  apply aget_Ok in E. transitivity (<[m := r <| downstreamPending := false |>]> h).
  - by eapply heap_eqv_insert.
  - eapply tl_clear_Ok; [|exact H]. apply IH.
Qed.

(** What an operation on register [m] may change of the others. *)
Definition touches (m : nat) (h h' : Heap) : Prop :=
  length h' = length h /\
  forall i y, i <> m -> h !! i = Some y -> exists y', h' !! i = Some y' /\ same_reg y y'.

Lemma touches_refl m h : touches m h h.
Proof. split; [done|]. intros i y _ Hy. by exists y. Qed.

Lemma touches_trans m h1 h2 h3 : touches m h1 h2 -> touches m h2 h3 -> touches m h1 h3.
Proof.
  intros [L1 T1] [L2 T2]. split; [congruence|]. intros i y Hne Hy.
  destruct (T1 i y Hne Hy) as (y2 & Hy2 & S1). destruct (T2 i y2 Hne Hy2) as (y3 & ? & S2).
  exists y3. split; [done|]. by transitivity y2.
Qed.

Lemma touches_insert m h x : touches m h (<[m := x]> h).
Proof.
  split; [by rewrite length_insert|]. intros i y Hne Hy. exists y.
  by rewrite list_lookup_insert_ne by done.
Qed.

Lemma touches_eqv m h h' : heap_eqv h h' -> touches m h h'.
Proof.
  intros He. split; [symmetry; by eapply Forall2_length|]. intros i y _ Hy.
  by eapply heap_eqv_lookup.
Qed.

Lemma updM_Ok m f h h' :
  updM m f h = Ok h' -> exists x, h !! m = Some x /\ h' = <[m := f x]> h.
Proof. unfold updM. intros H. run_in H. apply aget_Ok in E. eauto. Qed.

Lemma updM_total m f h : (m < length h)%nat -> exists h', updM m f h = Ok h'.
Proof. intros [x Hx]%lookup_lt_is_Some_2. unfold updM. rewrite (aget_ok _ _ _ Hx). eauto. Qed.

Lemma insert_lookup (m : nat) (h : Heap) x y :
  h !! m = Some y -> <[m := x]> h !! m = Some x.
Proof. intros Hm. apply list_lookup_insert_eq. by eapply lookup_lt_Some. Qed.

(** ** The three lists *)

Record lists_ok (ids : list nat) (q : MSHRQueue) (serv : nat -> bool) : Prop := {
  lo_split : allocatedList q ++ freeList q ≡ₚ ids;
  lo_nodup : NoDup ids;
  lo_size : numEntries q = Z.of_nat (length ids) /\ 1 <= numReserve q;
  lo_count : allocated q = Z.of_nat (length (allocatedList q));
  lo_ready_nodup : NoDup (readyList q);
  lo_ready m : m ∈ readyList q <-> m ∈ allocatedList q /\ serv m = false;
  lo_service : inServiceEntries q + Z.of_nat (length (readyList q)) = allocated q;
  lo_drain : draining q = true -> 0 < allocated q
}.
Arguments lo_split {ids q serv}. Arguments lo_nodup {ids q serv}. Arguments lo_count {ids q serv}.
Arguments lo_size {ids q serv}.
Arguments lo_ready_nodup {ids q serv}. Arguments lo_ready {ids q serv}.
Arguments lo_service {ids q serv}. Arguments lo_drain {ids q serv}.

Section queue_lists.
Context {ids : list nat} {q : MSHRQueue} {serv : nat -> bool} (L : lists_ok ids q serv).

Lemma lo_app_nodup : NoDup (allocatedList q ++ freeList q).
Proof. rewrite (lo_split L). apply (lo_nodup L). Qed.
Lemma lo_alloc_nodup : NoDup (allocatedList q).
Proof. pose proof lo_app_nodup as H. by apply NoDup_app in H as [? _]. Qed.
Lemma lo_disjoint m : m ∈ allocatedList q -> m ∈ freeList q -> False.
Proof. pose proof lo_app_nodup as H. apply NoDup_app in H as (_ & H & _). apply H. Qed.
Lemma lo_in m : m ∈ ids <-> m ∈ allocatedList q \/ m ∈ freeList q.
Proof. by rewrite <- (lo_split L), elem_of_app. Qed.

Lemma lo_ext serv' :
  (forall m, m ∈ allocatedList q -> serv' m = serv m) -> lists_ok ids q serv'.
Proof.
  intros He. destruct L. split; try done. intros m. rewrite lo_ready0.
  split; intros [? ?]; (split; [done|]); rewrite He in * by done; done.
Qed.

Context (m : nat) (serv' : nat -> bool) (Hoth : forall i, i <> m -> serv' i = serv i).

Lemma without_length (l : list nat) :
  NoDup l -> m ∈ l -> Z.of_nat (length (without m l)) = Z.of_nat (length l) - 1.
Proof. intros Hn Hm. rewrite <- (without_perm m l) at 2 by done. cbn [length]. lia. Qed.

Lemma without_in (i : nat) (l : list nat) : i ∈ without m l <-> i <> m /\ i ∈ l.
Proof. unfold without. by rewrite list_elem_of_filter. Qed.

Lemma lo_to_service :
  m ∈ readyList q -> serv' m = true ->
  lists_ok ids (q <| readyList := without m (readyList q) |> <| inServiceEntries ::= Z.succ |>) serv'.
Proof.
  intros Hm Hs. pose proof (without_length _ (lo_ready_nodup L) Hm). destruct L. split; simpl; try done.
  - by apply NoDup_filter.
  - intros i. rewrite without_in, lo_ready0. destruct (decide (i = m)) as [->|Hne].
    + rewrite Hs. naive_solver.
    + rewrite Hoth by done. naive_solver.
  - lia.
Qed.

Lemma lo_to_pending l :
  m ∈ allocatedList q -> serv m = true -> serv' m = false -> l ≡ₚ m :: readyList q ->
  lists_ok ids (q <| inServiceEntries ::= Z.pred |> <| readyList := l |>) serv'.
Proof.
  intros Hm Hs Hs' Hl. assert (Hr : m ∉ readyList q) by (rewrite (lo_ready L); naive_solver congruence).
  destruct L. split; simpl; try done.
  - rewrite Hl. by apply NoDup_cons.
  - intros i. rewrite Hl, elem_of_cons, lo_ready0. destruct (decide (i = m)) as [->|Hne].
    + naive_solver.
    + rewrite Hoth by done. naive_solver.
  - rewrite Hl. cbn [length]. lia.
Qed.

Lemma lo_alloc free l :
  freeList q = m :: free -> serv' m = false -> l ≡ₚ m :: readyList q ->
  lists_ok ids (q <| freeList := free |> <| allocatedList ::= fun al => al ++ [m] |>
                  <| readyList := l |> <| allocated ::= Z.succ |>) serv'.
Proof.
  intros Hf Hs Hl.
  assert (Hm : m ∉ allocatedList q) by (intros H; apply (lo_disjoint m H); rewrite Hf; set_solver).
  destruct L. rewrite Hf in lo_split0. split; simpl; try done.
  - rewrite <- lo_split0, <- app_assoc. done.
  - rewrite length_app. cbn [length]. lia.
  - rewrite Hl. apply NoDup_cons. split; [rewrite lo_ready0; naive_solver|done].
  - intros i. rewrite Hl, elem_of_cons, lo_ready0, elem_of_app, list_elem_of_singleton.
    destruct (decide (i = m)) as [->|Hne]; [naive_solver|].
    rewrite Hoth by done. naive_solver.
  - rewrite Hl. cbn [length]. lia.
  - intros Hd. specialize (lo_drain0 Hd). lia.
Qed.

(** [deallocateOne]: the register leaves the allocated list and whichever
    count it was in. *)
Definition dealloc_lists (q' : MSHRQueue) : Prop :=
  exists ise rl dr dd, q' = q <| allocatedList := without m (allocatedList q) |>
    <| freeList ::= cons m |> <| allocated ::= Z.pred |>
    <| inServiceEntries := ise |> <| readyList := rl |> <| draining := dr |> <| drained := dd |> /\
  (if serv m then ise = inServiceEntries q - 1 /\ rl = readyList q
   else ise = inServiceEntries q /\ rl = without m (readyList q)) /\
  dr = draining q && negb (allocated q =? 1).

Lemma lo_dealloc q' : m ∈ allocatedList q -> dealloc_lists q' -> lists_ok ids q' serv'.
Proof.
  intros Hm (ise & rl & dr & dd & -> & Hs & ->).
  pose proof (without_length _ lo_alloc_nodup Hm) as Hla. pose proof lo_alloc_nodup as Hna.
  assert (Hrl : forall i, i ∈ rl <-> i <> m /\ i ∈ readyList q).
  { intros i. destruct (serv m) eqn:Em; destruct Hs as [_ ->]; [|apply without_in].
    split; [|by intros []]. intros Hi. split; [|done]. intros ->.
    apply (lo_ready L) in Hi as [_ ?]. congruence. }
  assert (Hlen : ise + Z.of_nat (length rl) = allocated q - 1).
  { pose proof (lo_service L). destruct (serv m) eqn:Em; destruct Hs as [-> ->]; [lia|].
    rewrite without_length; [lia|apply (lo_ready_nodup L)|by apply (lo_ready L)]. }
  assert (Hnd : NoDup rl).
  { destruct (serv m); destruct Hs as [_ ->]; [|apply NoDup_filter]; apply (lo_ready_nodup L). }
  destruct L. split; simpl; try done.
  - rewrite <- lo_split0, <- Permutation_middle, app_comm_cons. by rewrite without_perm.
  - lia.
  - intros i. rewrite Hrl, lo_ready0, without_in. destruct (decide (i = m)) as [->|Hne]; [naive_solver|].
    rewrite Hoth by done. naive_solver.
  - intros [Hd Hc]%andb_true_iff. apply lo_drain0 in Hd. apply negb_true_iff, Z.eqb_neq in Hc. lia.
Qed.
End queue_lists.

(** ** Registers *)

Definition serv (h : Heap) (m : nat) : bool :=
  match h !! m with Some x => inService x | None => false end.
Definition ready_at (h : Heap) (m : nat) : Z :=
  match h !! m with Some x => m_readyTime x | None => 0 end.

(** Only a register in service has deferred targets, and without them its
    deferred list has no flag set. *)
Definition reg_ok (x : MSHR) : Prop :=
  (inService x = false -> tl_list (deferredTargets x) = []) /\
  (tl_list (deferredTargets x) = [] -> isReset (deferredTargets x) = true).
Definition free_reg (x : MSHR) : Prop :=
  inService x = false /\ tl_list (targets x) = [] /\ tl_list (deferredTargets x) = [] /\
  isReset (targets x) = true /\ isReset (deferredTargets x) = true.

Lemma same_reg_ok x x' : same_reg x x' -> reg_ok x -> reg_ok x'.
Proof.
  intros E. unfold reg_ok.
  rewrite (same_reg_use inService x x'), (same_reg_use deferredTargets x x') by done. done.
Qed.
Lemma same_reg_free x x' : same_reg x x' -> free_reg x -> free_reg x'.
Proof.
  intros E. unfold free_reg.
  rewrite (same_reg_use inService x x'), (same_reg_use deferredTargets x x'),
    (same_reg_use targets x x') by done. done.
Qed.

Lemma free_reg_ok x : free_reg x -> reg_ok x.
Proof. intros (? & ? & ? & ? & ?). by split. Qed.

Lemma touches_same {A} (f : MSHR -> A) (d : A) m h h' i :
  (forall x, f (x <| downstreamPending := false |>) = f x) -> touches m h h' -> i <> m ->
  match h' !! i with Some x => f x | None => d end =
  match h !! i with Some x => f x | None => d end.
Proof.
  intros Hf [Hl Ht] Hne. destruct (h !! i) as [y|] eqn:Hy.
  - destruct (Ht i y Hne Hy) as (y' & -> & S). by apply same_reg_use.
  - apply lookup_ge_None in Hy. by rewrite lookup_ge_None_2 by lia.
Qed.
Lemma touches_serv m h h' i : touches m h h' -> i <> m -> serv h' i = serv h i.
Proof. intros T ?. by apply (touches_same inService false m). Qed.
Lemma touches_ready m h h' i : touches m h h' -> i <> m -> ready_at h' i = ready_at h i.
Proof. intros T ?. by apply (touches_same m_readyTime 0 m). Qed.

(** An operation on register [m] that leaves its place in the lists. *)
Definition keeps (m : nat) (h h' : Heap) : Prop :=
  touches m h h' /\
  forall x, h !! m = Some x -> reg_ok x ->
    exists x', h' !! m = Some x' /\ reg_ok x' /\ inService x' = inService x /\
      m_readyTime x' = m_readyTime x.

Lemma same_lists_trans m h1 h2 h3 : keeps m h1 h2 -> keeps m h2 h3 -> keeps m h1 h3.
Proof.
  intros [T1 K1] [T2 K2]. split; [by eapply touches_trans|]. intros x Hx Hok.
  destruct (K1 x Hx Hok) as (x2 & Hx2 & Hok2 & S2 & R2).
  destruct (K2 x2 Hx2 Hok2) as (x3 & ? & ? & ? & ?). exists x3. split; [done|]. split; [done|]. split; congruence.
Qed.

Lemma keeps_eqv m h h' : heap_eqv h h' -> keeps m h h'.
Proof.
  intros He. split; [by apply touches_eqv|]. intros x Hx Hok.
  destruct (heap_eqv_lookup _ _ _ _ He Hx) as (x' & ? & S). exists x'.
  split; [done|]. split; [by eapply same_reg_ok|].
  split; [by eapply (same_reg_use inService)|by eapply (same_reg_use m_readyTime)].
Qed.

Lemma keeps_insert m h x x' :
  h !! m = Some x ->
  (reg_ok x -> reg_ok x' /\ inService x' = inService x /\ m_readyTime x' = m_readyTime x) ->
  keeps m h (<[m := x']> h).
Proof.
  intros Hm Hx. split; [apply touches_insert|]. intros y Hy Hok. simplify_eq.
  exists x'. split; [by eapply insert_lookup|]. by apply Hx.
Qed.

Lemma keeps_updM m f h h' :
  (forall x, reg_ok x ->
     reg_ok (f x) /\ inService (f x) = inService x /\ m_readyTime (f x) = m_readyTime x) ->
  updM m f h = Ok h' -> keeps m h h'.
Proof. intros Hf (x & Hm & ->)%updM_Ok. apply (keeps_insert m h x (f x)); auto. Qed.

#[local] Hint Resolve keeps_eqv : mshr.

Lemma allocateTarget_keeps now pkt s rt o m h h' :
  allocateTarget now pkt s rt o m h = Ok h' -> keeps m h h'.
Proof.
  unfold allocateTarget. intros H. run_in H. apply aget_Ok in E0.
  assert (Hs : forall ts h1, heap_eqv h h1 ->
    (r0 = true -> tl_list ts <> []) ->
    (if r0 then updM m (fun x => x <| deferredTargets := ts |>) h1
     else updM m (fun x => x <| targets := ts |>) h1) = Ok h' -> keeps m h h').
  { intros ts h1 He Hts Hu. split.
    - apply touches_trans with h1; [by apply touches_eqv|].
      destruct r0; apply updM_Ok in Hu as (? & ? & ->); apply touches_insert.
    - intros x Hx Hok. rewrite E0 in Hx. injection Hx as <-. rename r into x.
      destruct (heap_eqv_lookup _ _ _ _ He E0) as (y & Hy & S).
      pose proof (same_reg_use inService x y (fun _ => eq_refl) S) as Ei.
      pose proof (same_reg_use m_readyTime x y (fun _ => eq_refl) S) as Er.
      pose proof (same_reg_ok _ _ S Hok) as Hoky.
      destruct r0; apply updM_Ok in Hu as (y' & Hy' & ->); simplify_eq;
        eexists; (split; [by eapply insert_lookup|]); split; try by simpl; [].
      split; simpl; [|by intros ?%(Hts eq_refl)]. intros Hf. exfalso.
      unfold must_defer in E1. rewrite <- Ei, Hf in E1. discriminate E1. }
  destruct r0; run_in H; apply tl_add_Ok in E2 || apply tl_add_Ok in E3; destruct_and?; eapply Hs; eauto.
Qed.

Lemma replaceUpgrades_list l : tl_list (replaceUpgrades l) = [] <-> tl_list l = [].
Proof. unfold replaceUpgrades. case_match; simpl; [|done]. by destruct (tl_list l). Qed.
Lemma replaceUpgrades_reset l : isReset l = true -> isReset (replaceUpgrades l) = true.
Proof. unfold replaceUpgrades, isReset. destruct (hasUpgrade l) eqn:E; simpl; [|by rewrite E]. by rewrite andb_false_r. Qed.

Lemma snoop_keeps now pkt s ex o m h b pkt' h' :
  mshr_handleSnoop now pkt s ex o m h = Ok (b, pkt', h') -> keeps m h h'.
Proof.
  assert (Hrep : forall x, reg_ok x -> reg_ok (x <| deferredTargets ::= replaceUpgrades |>)).
  { intros x [H1 H2]. split; simpl; rewrite replaceUpgrades_list; [done|].
    intros ?. by apply replaceUpgrades_reset, H2. }
  unfold mshr_handleSnoop. intros H. run_in H. apply aget_Ok in E.
  case_match; run_in H.
  - eapply keeps_insert; [done|]. intros Hok. case_match; [|done].
    split; [exact (Hrep r Hok)|done].
  - set (x0 := if needsExclusive _ then _ else _) in *. set (h0 := <[m:=x0]> h) in *.
    assert (K : keeps m h h0).
    { eapply keeps_insert; [done|]. intros Hok. unfold x0.
      destruct (needsExclusive _); [|done]. split; [by apply Hrep|done]. }
    assert (Hk : forall f h1 h2, (forall x, reg_ok x ->
       reg_ok (f x) /\ inService (f x) = inService x /\ m_readyTime (f x) = m_readyTime x) ->
       updM m f h1 = Ok h2 -> keeps m h1 h2) by (intros; by eapply keeps_updM).
    apply (same_lists_trans m h h0 h' K). clearbody h0 x0. clear K.
    destruct r0; run_in H; [by apply keeps_eqv|].
    assert (Hmid : keeps m h0 l).
    { destruct (r0 || _); run_in E2; [|by apply keeps_eqv].
      match goal with Ha : tl_add _ _ _ _ _ _ _ _ _ = _ |- _ => apply tl_add_Ok in Ha as (He & _ & _) end.
      eapply same_lists_trans; [by apply keeps_eqv|].
      eapply same_lists_trans; [eapply Hk; [|done]; by intros ? []|].
      match goal with Hx : (if _ then _ else _) = Ok ?h2 |- keeps _ _ ?h2 =>
        destruct (needsExclusive _); [eapply Hk; [|exact Hx]; by intros ? []|injection Hx as ->] end.
      by apply keeps_eqv. }
    destruct (needsExclusive _); run_in H; [done|]. eapply same_lists_trans; [done|].
    eapply Hk; [|done]. by intros ? [].
Qed.

Lemma fill_keeps fuel pkt m h h' : mshr_handleFill fuel pkt m h = Ok h' -> keeps m h h'.
Proof.
  assert (Hr : keeps m h h) by (by apply keeps_eqv).
  unfold mshr_handleFill. intros H. run_in H. apply aget_Ok in E.
  destruct (sharedAsserted pkt); [by injection H as <-|]. run_in H.
  case_match; [|by injection H as <-]. run_in H.
  eapply same_lists_trans; [eapply (keeps_insert m h r
     (r <| targets ::= set_field tl_needsExclusive (fun _ => true) |>)); [done|by intros []]|].
  eapply same_lists_trans; [apply keeps_eqv; eapply tl_clear_Ok; [apply clearDownstreamPending_Ok|done]|].
  eapply keeps_updM; [|done]. intros x [H1 H2]. by repeat split.
Qed.

Lemma popTarget_Ok x x' :
  popTarget x = Ok x' -> exists t ts, tl_list (targets x) = t :: ts /\
    x' = x <| targets := (targets x) <| tl_list := ts |> |>.
Proof.
  unfold popTarget. destruct (tl_list (targets x)) as [|t ts]; [done|]. intros [= <-]. eauto.
Qed.

(** ** The invariant of the queue *)

Record queue_ok (ids : list nat) (q : MSHRQueue) (h : Heap) : Prop := {
  qo_lists : lists_ok ids q (serv h);
  qo_regs m : m ∈ ids -> exists x, h !! m = Some x /\ reg_ok x;
  qo_free m x : m ∈ freeList q -> h !! m = Some x -> free_reg x;
  qo_sorted : StronglySorted Z.le (ready_at h <$> readyList q)
}.
Arguments qo_lists {ids q h}. Arguments qo_regs {ids q h}. Arguments qo_free {ids q h}.
Arguments qo_sorted {ids q h}.

Lemma sorted_without m (f : nat -> Z) l :
  StronglySorted Z.le (f <$> l) -> StronglySorted Z.le (f <$> without m l).
Proof.
  induction l as [|a l IH]; cbn; [done|]. intros [Hs Hf]%StronglySorted_inv.
  unfold without. cbn. case_decide; cbn; [|by apply IH]. constructor; [by apply IH|].
  rewrite Forall_fmap in *. apply Forall_forall. intros i [_ Hi]%list_elem_of_filter.
  by eapply (proj1 (Forall_forall _ _) Hf).
Qed.

Lemma ready_ext m h h' (l : list nat) :
  touches m h h' -> m ∉ l -> ready_at h' <$> l = ready_at h <$> l.
Proof.
  intros T Hm. apply list_fmap_ext. intros k i Hi. apply (touches_ready m); [done|].
  intros ->. apply Hm. by eapply list_elem_of_lookup_2.
Qed.

(** Insertion in the ready list always finds its place: the list keeps its
    order of ready times. *)
Lemma insert_ready_ok m h l :
  Forall (fun i => is_Some (h !! i)) l -> StronglySorted Z.le (ready_at h <$> l) ->
  (exists i, i ∈ l /\ ready_at h m < ready_at h i) ->
  exists l', insert_ready (ready_at h m) m h l = Ok l' /\ l' ≡ₚ m :: l /\
    StronglySorted Z.le (ready_at h <$> l').
Proof.
  induction l as [|a l IH]; intros Hf Hs (i & Hi & Hlt); [by apply not_elem_of_nil in Hi|].
  apply Forall_cons in Hf as [[x Hx] Hf]. cbn in Hs. apply StronglySorted_inv in Hs as [Hs Ha].
  cbn. rewrite (aget_ok _ _ _ Hx). cbn [mbind outcome_bind].
  assert (Er : m_readyTime x = ready_at h a) by (unfold ready_at; by rewrite Hx).
  rewrite Er. destruct (Z.ltb_spec (ready_at h m) (ready_at h a)) as [Hlt'|Hge].
  - eexists. split; [done|]. split; [done|]. cbn. constructor; [by constructor|].
    constructor; [lia|]. eapply Forall_impl; [exact Ha|]. simpl. lia.
  - apply elem_of_cons in Hi as [->|Hi]; [lia|].
    destruct IH as (l' & -> & Hp & Hs'); [done|done|eauto|]. cbn [mbind outcome_bind].
    eexists. split; [done|]. split; [rewrite Hp; apply Permutation_swap|]. cbn. constructor; [done|].
    rewrite Hp. cbn. by constructor.
Qed.

Lemma sorted_snoc (l : list Z) x y :
  StronglySorted Z.le (l ++ [x]) -> x <= y -> StronglySorted Z.le (l ++ [x; y]).
Proof.
  induction l as [|a l IH]; cbn; intros Hs Hxy.
  - constructor; [repeat constructor|]. by repeat constructor.
  - apply StronglySorted_inv in Hs as [Hs Ha]. constructor; [by apply IH|].
    apply Forall_app in Ha as [Ha [Hax _]%Forall_cons]. apply Forall_app.
    split; [done|]. repeat constructor; [done|lia].
Qed.

Section queue.
Context {ids : list nat} {q : MSHRQueue} {h : Heap} (Q : queue_ok ids q h).

Lemma qo_reg m : m ∈ allocatedList q -> exists x, h !! m = Some x /\ reg_ok x.
Proof. intros Hm. apply (qo_regs Q). apply (lo_in (qo_lists Q)). by left. Qed.

(** What is left to show after an operation on register [m]. *)
Lemma queue_ok_step q' h' m x' :
  touches m h h' -> h' !! m = Some x' -> reg_ok x' ->
  lists_ok ids q' (serv h') ->
  (forall i, i ∈ freeList q' -> i <> m -> i ∈ freeList q) -> (m ∈ freeList q' -> free_reg x') ->
  StronglySorted Z.le (ready_at h' <$> readyList q') ->
  queue_ok ids q' h'.
Proof.
  intros T Hm Hok L Hfr Hfm Hs. split; [done|..|done].
  - intros i Hi. destruct (decide (i = m)) as [->|Hne]; [eauto|].
    destruct (qo_regs Q i Hi) as (y & Hy & Hoky).
    destruct (proj2 T i y Hne Hy) as (y' & ? & S). exists y'. split; [done|]. by eapply same_reg_ok.
  - intros i y' Hi Hy'. destruct (decide (i = m)) as [->|Hne]; [by simplify_eq; auto|].
    apply Hfr in Hi; [|done].
    destruct (qo_regs Q i) as (y & Hy & _); [apply (lo_in (qo_lists Q)); by right|].
    destruct (proj2 T i y Hne Hy) as (y2 & ? & S). simplify_eq.
    eapply same_reg_free; [done|]. by eapply (qo_free Q).
Qed.

Lemma queue_ok_keeps h' m : m ∈ allocatedList q -> keeps m h h' -> queue_ok ids q h'.
Proof.
  intros Hm [T K]. destruct (qo_reg m Hm) as (x & Hx & Hok).
  destruct (K x Hx Hok) as (x' & Hx' & Hok' & S & R).
  assert (Hserv : forall i, serv h' i = serv h i).
  { intros i. destruct (decide (i = m)) as [->|?]; [|by apply (touches_serv m)].
    unfold serv. by rewrite Hx, Hx'. }
  apply (queue_ok_step _ _ m x'); try done.
  - apply (lo_ext (qo_lists Q)). by intros.
  - intros Hf. exfalso. by eapply (lo_disjoint (qo_lists Q)).
  - erewrite list_fmap_ext; [apply (qo_sorted Q)|]. intros k i _. simpl.
    destruct (decide (i = m)) as [->|?]; [|by apply (touches_ready m)].
    unfold ready_at. by rewrite Hx, Hx'.
Qed.

(** ** The ready list *)

Lemma addToReadyList_ok h' m x' :
  touches m h h' -> m ∉ readyList q -> h' !! m = Some x' ->
  exists l, (forall q0, readyList q0 = readyList q ->
    addToReadyList m q0 h' = Ok (q0 <| readyList := l |>)) /\ l ≡ₚ m :: readyList q /\
    StronglySorted Z.le (ready_at h' <$> l).
Proof.
  intros T Hm Hx'. pose proof (qo_sorted Q) as Hs. rewrite <- (ready_ext m h h') in Hs by done.
  assert (Em : m_readyTime x' = ready_at h' m) by (unfold ready_at; by rewrite Hx').
  assert (Hf : Forall (fun i => is_Some (h' !! i)) (readyList q)).
  { apply Forall_forall. intros i Hi. assert (i <> m) by (by intros ->).
    apply (lo_ready (qo_lists Q)) in Hi as [(y & Hy & _)%qo_reg _].
    destruct (proj2 T i y) as (? & -> & _); eauto. }
  unfold addToReadyList. destruct (readyList q) as [|b l _] eqn:Er using rev_ind.
  { exists [m]. split; [|split; [done|by repeat constructor]].
    intros q0 E0. rewrite (aget_ok _ _ _ Hx'), E0. cbn. unfold set_field. cbn. by rewrite E0. }
  apply Forall_app in Hf as [Hf [[y Hy] _]%Forall_cons].
  assert (Ey : m_readyTime y = ready_at h' b) by (unfold ready_at; by rewrite Hy).
  destruct (Z.leb_spec (m_readyTime y) (m_readyTime x')) as [Hle|Hgt].
  - exists (l ++ [b; m]). split; [|split].
    + intros q0 E0. rewrite (aget_ok _ _ _ Hx'). cbn [mbind outcome_bind].
      rewrite E0, last_snoc, (aget_ok _ _ _ Hy). cbn [mbind outcome_bind].
      rewrite (proj2 (Z.leb_le _ _)) by done. unfold set_field. cbn. by rewrite E0, <- app_assoc.
    + change [b; m] with ([b] ++ [m]). rewrite (app_assoc l). by rewrite (Permutation_app_comm _ [m]).
    + rewrite fmap_app in *. cbn in *. apply sorted_snoc; [done|lia].
  - destruct (insert_ready_ok m h' (l ++ [b])) as (l' & Hi & Hp & Hs').
    + apply Forall_app. split; [done|]. apply Forall_singleton. eauto.
    + done.
    + exists b. split; [set_solver|lia].
    + exists l'. split; [|done]. intros q0 E0. rewrite (aget_ok _ _ _ Hx'). cbn [mbind outcome_bind].
      rewrite E0, last_snoc, (aget_ok _ _ _ Hy). cbn [mbind outcome_bind].
      rewrite (proj2 (Z.leb_gt _ _)) by done. rewrite Em, Hi. done.
Qed.

Lemma addToReadyList_step q0 h' m x' q' :
  touches m h h' -> m ∉ readyList q -> h' !! m = Some x' -> readyList q0 = readyList q ->
  addToReadyList m q0 h' = Ok q' ->
  exists l, q' = q0 <| readyList := l |> /\ l ≡ₚ m :: readyList q /\
    StronglySorted Z.le (ready_at h' <$> l).
Proof.
  intros T Hm Hx' E0 Ha. destruct (addToReadyList_ok h' m x' T Hm Hx') as (l & Hl & ? & ?).
  exists l. rewrite (Hl q0 E0) in Ha. by injection Ha as <-.
Qed.

(** ** Release of a register *)

Lemma deallocateOne_ok h1 m x :
  m ∈ allocatedList q -> touches m h h1 -> h1 !! m = Some x -> inService x = serv h m ->
  tl_list (targets x) = [] -> tl_list (deferredTargets x) = [] ->
  isReset (deferredTargets x) = true ->
  exists q' h', deallocateOne m q h1 = Ok (q', h') /\ queue_ok ids q' h' /\
    dealloc_lists (q := q) (serv := serv h) m q' /\ h' = <[m := x <| targets ::= resetFlags |> <| inService := false |>]> h1.
Proof.
  intros Hm T Hx Hs Ht Hd Hr. set (x' := x <| targets ::= resetFlags |> <| inService := false |>).
  assert (Hde : mshr_deallocate x = Ok x').
  { unfold mshr_deallocate, hasTargets. by rewrite Ht, Hr. }
  assert (Hrl : serv h m = false -> erase m (readyList q) = Ok (without m (readyList q))).
  { intros Hf. unfold erase. rewrite decide_True; [done|]. by apply (lo_ready (qo_lists Q)). }
  assert (T' : touches m h (<[m := x']> h1)) by (eapply touches_trans; [done|apply touches_insert]).
  assert (Hfin : forall q', dealloc_lists (q := q) (serv := serv h) m q' ->
    queue_ok ids q' (<[m := x']> h1)).
  { intros q' D. apply (queue_ok_step _ _ m x' T').
    - by eapply insert_lookup.
    - split; [done|]. intros _. apply Hr.
    - apply (lo_dealloc (qo_lists Q) m); [intros i Hne; by apply (touches_serv m)|done|done].
    - destruct D as (? & ? & ? & ? & -> & _). cbn. set_solver.
    - intros _. by repeat split.
    - assert (Hrl' : readyList q' = without m (readyList q)).
      { destruct D as (? & ? & ? & ? & -> & Hse & _). cbn. destruct (serv h m) eqn:Es.
        - destruct Hse as [_ ->]. rewrite without_notin; [done|].
          rewrite (lo_ready (qo_lists Q)). intros [_ ?]. congruence.
        - by destruct Hse as [_ ->]. }
      rewrite Hrl', (ready_ext m h); [|done|unfold without; rewrite list_elem_of_filter; tauto].
      apply sorted_without, (qo_sorted Q). }
  assert (Hal : erase m (allocatedList q) = Ok (without m (allocatedList q)))
    by (unfold erase; by rewrite decide_True).
  unfold deallocateOne. rewrite Hal. cbn [mbind outcome_bind].
  rewrite (aget_ok _ _ _ Hx). cbn [mbind outcome_bind]. rewrite Hs.
  assert (HD : forall ise rl, (if serv h m then ise = inServiceEntries q - 1 /\ rl = readyList q
   else ise = inServiceEntries q /\ rl = without m (readyList q)) ->
   forall q1, q1 = q <| allocatedList := without m (allocatedList q) |> <| freeList ::= cons m |>
     <| allocated ::= Z.pred |> <| inServiceEntries := ise |> <| readyList := rl |> ->
   exists q' h', (if draining q1 && (allocated q1 =? 0)
      then Ok (q1 <| draining := false |> <| drained := true |>, <[m := x']> h1)
      else Ok (q1, <[m := x']> h1)) = Ok (q', h') /\ queue_ok ids q' h' /\
     dealloc_lists (q := q) (serv := serv h) m q' /\ h' = <[m := x']> h1).
  { intros ise rl Hse q1 ->.
    assert (Ea : (Z.pred (allocated q) =? 0) = (allocated q =? 1)).
    { destruct (Z.eqb_spec (Z.pred (allocated q)) 0), (Z.eqb_spec (allocated q) 1); done || lia. }
    cbn. rewrite Ea.
    destruct (draining q && (allocated q =? 1)) eqn:Ed.
    - eexists _, _. split; [done|]. apply andb_true_iff in Ed as [Ed1 Ed2].
      assert (D : dealloc_lists (q := q) (serv := serv h) m
        (q <| allocatedList := without m (allocatedList q) |> <| freeList ::= cons m |>
     <| allocated ::= Z.pred |> <| inServiceEntries := ise |> <| readyList := rl |>
         <| draining := false |> <| drained := true |>)).
      { exists ise, rl, false, true. split; [done|]. split; [done|]. by rewrite Ed1, Ed2. }
      split; [by apply Hfin|]. by split.
    - eexists _, _. split; [done|].
      assert (D : dealloc_lists (q := q) (serv := serv h) m
        (q <| allocatedList := without m (allocatedList q) |> <| freeList ::= cons m |>
     <| allocated ::= Z.pred |> <| inServiceEntries := ise |> <| readyList := rl |>)).
      { exists ise, rl, (draining q), (drained q). split; [done|]. split; [done|].
        destruct (draining q), (allocated q =? 1); done. }
      split; [by apply Hfin|]. by split. }
  destruct (serv h m) eqn:Es.
  - rewrite Hde. cbn [mbind outcome_bind]. eapply (HD (inServiceEntries q - 1) (readyList q)); [done|].
    unfold set_field. cbn. by rewrite Z.sub_1_r.
  - cbn. rewrite Hrl by done. cbn [mbind outcome_bind]. rewrite Hde. cbn [mbind outcome_bind].
    eapply (HD (inServiceEntries q) (without m (readyList q))); [done|done].
Qed.

(** ** Allocation *)

Lemma set_request_fields addr size pkt wr o x :
  inService (set_request addr size pkt wr o x) = false /\
  targets (set_request addr size pkt wr o x) = targets x /\
  deferredTargets (set_request addr size pkt wr o x) = deferredTargets x /\
  downstreamPending (set_request addr size pkt wr o x) = false.
Proof. by destruct x. Qed.

Lemma mshr_allocate_Ok now addr size pkt s wr o m h' x :
  h !! m = Some x -> mshr_allocate now addr size pkt s wr o m h = Ok h' ->
  exists src ts h1,
    tl_add now pkt s wr o src true (targets x) (<[m := set_request addr size pkt wr o x]> h) = Ok (ts, h1) /\
    updM m (fun x => x <| targets := ts |>) h1 = Ok h'.
Proof.
  intros Hx H. unfold mshr_allocate in H. rewrite (aget_ok _ _ _ Hx) in H. cbn [mbind outcome_bind] in H.
  destruct (set_request_fields addr size pkt wr o x) as (_ & Et & _).
  revert Et H. generalize (set_request addr size pkt wr o x). intros x0 Et H. rewrite Et in H.
  run_in H. eauto.
Qed.

Lemma allocate_reg now addr size pkt s wr o m h' x :
  h !! m = Some x -> free_reg x -> mshr_allocate now addr size pkt s wr o m h = Ok h' ->
  touches m h h' /\ exists x', h' !! m = Some x' /\ reg_ok x' /\ inService x' = false.
Proof.
  intros Hx (Hs & Ht & Hd & Hrt & Hrd) H.
  destruct (mshr_allocate_Ok _ _ _ _ _ _ _ _ _ _ Hx H) as (src & ts & h1 & Ha & Hu).
  destruct (set_request_fields addr size pkt wr o x) as (Es & Et & Ed & _).
  revert Es Ed Ha. generalize (set_request addr size pkt wr o x). intros x0 Es Ed Ha.
  apply tl_add_Ok in Ha as (He & _ & _). apply updM_Ok in Hu as (y & Hy & ->).
  destruct (heap_eqv_lookup _ _ _ _ He (insert_lookup m h x0 x Hx)) as (y' & Hy' & S). simplify_eq.
  assert (Hok : reg_ok x0) by (unfold reg_ok; by rewrite Ed).
  split.
  - eapply touches_trans; [apply (touches_insert m h x0)|].
    eapply touches_trans; [by apply touches_eqv|]. apply touches_insert.
  - eexists. split; [by eapply insert_lookup|].
    apply (same_reg_ok _ _ S) in Hok. split; [exact Hok|].
    rewrite <- Es. exact (same_reg_use inService _ _ (fun _ => eq_refl) S).
Qed.

Lemma allocate_step now addr size pkt s wr o m q' h' :
  allocate_mshr now addr size pkt s wr o q h = Ok (m, q', h') -> queue_ok ids q' h'.
Proof.
  unfold allocate_mshr. intros H. destruct (freeList q) as [|m0 free] eqn:Ef; [done|].
  assert (Hin : m0 ∈ freeList q) by (rewrite Ef; set_solver). pose proof (qo_lists Q) as L.
  run_in H. apply aget_Ok in E. pose proof (qo_free Q _ _ Hin E) as Hfree.
  destruct (allocate_reg _ _ _ _ _ _ _ _ _ _ E Hfree E1) as (T & x' & Hx' & Hok & Hs).
  assert (Hr : m ∉ readyList q).
  { intros [Hr _]%(lo_ready L). by apply (lo_disjoint L m). }
  eapply addToReadyList_step in E2 as (l & -> & Hp & Hs'); [|done..].
  apply (queue_ok_step _ _ m x'); try done.
  - pose proof (lo_alloc L m (serv h') (fun i Hi => touches_serv m h h' i T Hi) free l Ef) as HL.
    unfold set_field in *. cbn in *. apply HL; [|done]. unfold serv. by rewrite Hx'.
  - cbn. intros i Hi _. rewrite Ef. by apply elem_of_cons; right.
  - cbn. intros Hi. exfalso. pose proof (lo_app_nodup L) as Hn. rewrite Ef in Hn.
    apply NoDup_app in Hn as (_ & _ & [Hn _]%NoDup_cons). done.
Qed.

(** The sender above does not wait for another packet of this level. *)
Definition sender_ready (s : option nat) (h : Heap) : Prop :=
  match s with
  | Some u => exists x, h !! u = Some x /\ downstreamPending x = false
  | None => True
  end.

Lemma allocate_total now addr size pkt s wr o :
  isFull q = false -> sender_ready s h ->
  exists m q' h', allocate_mshr now addr size pkt s wr o q h = Ok (m, q', h') /\
    freeList q = m :: freeList q' /\ allocatedList q' = allocatedList q ++ [m] /\
    readyList q' ≡ₚ m :: readyList q.
Proof.
  intros Hfull Hsend. pose proof (qo_lists Q) as L. destruct (lo_size L) as [Hlen Hres].
  assert (Hl : Z.of_nat (length (allocatedList q) + length (freeList q)) = numEntries q)
    by (rewrite <- length_app, (lo_split L); done).
  assert (exists m free, freeList q = m :: free) as (m & free & Ef).
  { destruct (freeList q) as [|m free]; [exfalso|eauto]. cbn in Hl.
    unfold isFull in Hfull. pose proof (lo_count L). lia. }
  assert (Hin : m ∈ freeList q) by (rewrite Ef; set_solver).
  destruct (qo_regs Q m) as (x & Hx & _); [apply (lo_in L); by right|].
  pose proof (qo_free Q _ _ Hin Hx) as Hfree.
  assert (exists h', mshr_allocate now addr size pkt s wr o m h = Ok h') as (h' & Ha).
  { destruct Hfree as (_ & _ & _ & Hrt & Hrd). unfold mshr_allocate.
    rewrite (aget_ok _ _ _ Hx). cbn [mbind outcome_bind].
    destruct (set_request_fields addr size pkt wr o x) as (_ & Et & Ed & Hdp). revert Et Ed Hdp.
    generalize (set_request addr size pkt wr o x). intros x0 Et Ed Hdp.
    rewrite Et, Ed, Hrt, Hrd. unfold tl_add.
    destruct s as [u|]; cbn [mbind outcome_bind].
    - destruct Hsend as (y & Hy & Hyp).
      assert (exists y', <[m := x0]> h !! u = Some y' /\ downstreamPending y' = false) as (y' & Hy' & Hyp').
      { destruct (decide (u = m)) as [->|]; [exists x0; split; [by eapply insert_lookup|done]|].
        exists y. by rewrite list_lookup_insert_ne. }
      rewrite (aget_ok _ _ _ Hy'). cbn [mbind outcome_bind]. rewrite Hyp'. cbn.
      edestruct (updM_total m) as (h' & ->); [|by eexists].
      rewrite !length_insert. by eapply lookup_lt_Some.
    - edestruct (updM_total m) as (h' & ->); [|by eexists].
      rewrite !length_insert. by eapply lookup_lt_Some. }
  destruct (allocate_reg _ _ _ _ _ _ _ _ _ _ Hx Hfree Ha) as (T & x' & Hx' & _ & _).
  assert (Hr : m ∉ readyList q).
  { intros [Hr _]%(lo_ready L). by apply (lo_disjoint L m). }
  destruct (addToReadyList_ok h' m x' T Hr Hx') as (l & Hl' & Hp & _).
  unfold allocate_mshr. rewrite Ef, (aget_ok _ _ _ Hx). cbn [mbind outcome_bind].
  destruct Hfree as (_ & Ht & Hd & _). unfold getNumTargets. rewrite Ht, Hd. cbn [length Nat.add Nat.eqb].
  rewrite Ha. cbn [mbind outcome_bind]. rewrite Hl' by done. cbn [mbind outcome_bind].
  eexists _, _, _. split; [done|]. by repeat split.
Qed.

(** ** The life of an allocated register *)

Lemma serv_at x m : h !! m = Some x -> serv h m = inService x.
Proof. intros Hx. unfold serv. by rewrite Hx. Qed.

Lemma markInService_step fuel p m q' h' :
  m ∈ allocatedList q -> markInService fuel p m q h = Ok (q', h') -> queue_ok ids q' h'.
Proof.
  intros Hm H. pose proof (qo_lists Q) as L. destruct (qo_reg m Hm) as (x & Hx & Hok).
  unfold markInService, mshr_markInService in H. rewrite (aget_ok _ _ _ Hx) in H.
  cbn [mbind outcome_bind] in H. destruct (negb (inService x)) eqn:Es; [|done].
  apply negb_true_iff in Es. pose proof (proj1 Hok Es) as Hd.
  destruct (isForwardNoResponse x) as [fwd|] eqn:Ef; cbn [mbind outcome_bind] in H; [|done].
  destruct fwd.
  - destruct (getNumTargets x =? 1)%nat eqn:En; [|done].
    destruct (popTarget x) as [x'|] eqn:Ep; cbn [mbind outcome_bind] in H; [|done].
    apply popTarget_Ok in Ep as (t & ts & Et & ->). unfold getNumTargets in En.
    rewrite Et, Hd in En. cbn in En. apply Nat.eqb_eq in En. destruct ts; [|cbn in En; lia].
    match type of H with deallocateOne _ _ (<[_ := ?y]> _) = _ =>
      destruct (deallocateOne_ok (<[m := y]> h) m y) as (? & ? & Hde & ? & _) end;
      [done|apply touches_insert|by eapply insert_lookup|by rewrite (serv_at x)|done|done|by apply Hok|].
    rewrite Hde in H. by injection H as <- <-.
  - destruct p as [p|]; [|done]. set (x' := set_field postDowngrade _ _) in H.
    assert (E' : reg_ok x' /\ inService x' = true).
    { split; [|done]. split; [done|]. exact (proj2 Hok). }
    clearbody x'. destruct E' as [Hok' Hs'].
    destruct (if negb (downstreamPending x') then _ else _) as [h2|] eqn:Eh;
      cbn [mbind outcome_bind] in H; [|done].
    assert (He : heap_eqv (<[m := x']> h) h2).
    { destruct (negb _); [|by injection Eh as <-].
      eapply tl_clear_Ok; [|exact Eh]. apply clearDownstreamPending_Ok. }
    assert (T : touches m h h2) by (eapply touches_trans; [apply touches_insert|by apply touches_eqv]).
    destruct (heap_eqv_lookup _ _ _ _ He (insert_lookup m h x' x Hx)) as (y & Hy & S).
    assert (Hr : m ∈ readyList q) by (apply (lo_ready L); by rewrite (serv_at x)).
    unfold erase in H. rewrite decide_True in H by done. injection H as <- <-.
    apply (queue_ok_step _ _ m y); try done.
    + by eapply same_reg_ok.
    + apply (lo_to_service L); [intros i Hi; by apply (touches_serv m)|done|].
      unfold serv. rewrite Hy, <- Hs'. exact (same_reg_use inService _ _ (fun _ => eq_refl) S).
    + cbn. intros Hf. exfalso. by apply (lo_disjoint L m).
    + cbn. rewrite (ready_ext m h); [|done|by rewrite without_in; intros []].
      apply sorted_without, (qo_sorted Q).
Qed.

Lemma finish_ok now m x :
  m ∈ allocatedList q -> h !! m = Some x -> inService x = true -> tl_list (targets x) = [] ->
  exists q' h', finish_mshr now m q h = Ok (q', h') /\ queue_ok ids q' h'.
Proof.
  intros Hm Hx Hs Ht. pose proof (qo_lists Q) as L. destruct (qo_reg m Hm) as (? & ? & Hok). simplify_eq.
  unfold finish_mshr, promoteDeferredTargets, hasTargets. rewrite (aget_ok _ _ _ Hx).
  cbn [mbind outcome_bind]. rewrite Ht. cbn [negb bool_decide decide_rel].
  destruct (tl_list (deferredTargets x)) as [|t ts] eqn:Ed; cbn [mbind outcome_bind negb bool_decide].
  - destruct (deallocateOne_ok (<[m := x]> h) m x) as (q' & h' & Hde & Q' & _); try done.
    + apply touches_insert.
    + by eapply insert_lookup.
    + by rewrite (serv_at x).
    + by apply Hok.
    + exists q', h'. split; [exact Hde|done].
  - set (x' := set_field _ _ _). assert (E' : reg_ok (x' <| inService := false |>) /\ inService x' = true)
      by (by repeat split).
    clearbody x'. destruct E' as [Hok' Hs'].
    change (exists q' h', markPending m q (<[m := x']> h) = Ok (q', h') /\ queue_ok ids q' h').
    unfold markPending. erewrite aget_ok by (by eapply insert_lookup).
    cbn [mbind outcome_bind]. rewrite Hs', list_insert_insert_eq.
    set (y := x' <| inService := false |>) in *. set (h1 := <[m := y]> h).
    assert (T : touches m h h1) by apply touches_insert.
    assert (Hy : h1 !! m = Some y) by (by eapply insert_lookup).
    assert (Hr : m ∉ readyList q) by (rewrite (lo_ready L), (serv_at x) by done; rewrite Hs; by intros []).
    destruct (addToReadyList_ok h1 m y T Hr Hy) as (l & -> & Hp & Hsl); [|done].
    cbn [mbind outcome_bind]. eexists _, _. split; [done|].
    apply (queue_ok_step _ _ m y); try done.
    + apply (lo_to_pending L m); [intros i Hi; by apply (touches_serv m)|done|by rewrite (serv_at x)| |done].
      unfold serv. by rewrite Hy.
    + cbn. intros Hf. exfalso. by apply (lo_disjoint L m).
Qed.

Lemma force_ok now m x :
  m ∈ readyList q -> h !! m = Some x -> tl_list (targets x) <> [] ->
  exists b q' h', forceDeallocateTarget now m q h = Ok (b, q', h') /\ queue_ok ids q' h'.
Proof.
  intros Hr Hx Ht. pose proof (qo_lists Q) as L.
  apply (lo_ready L) in Hr as [Hm Hs]. rewrite (serv_at x) in Hs by done.
  destruct (qo_reg m Hm) as (? & ? & Hok). simplify_eq. pose proof (proj1 Hok Hs) as Hd.
  unfold forceDeallocateTarget, hasTargets at 1, popTarget. rewrite (aget_ok _ _ _ Hx).
  cbn [mbind outcome_bind]. destruct (tl_list (targets x)) as [|t ts]; [done|].
  rewrite bool_decide_false by done. cbn [negb mbind outcome_bind].
  set (x1 := set_field targets _ _). unfold hasTargets, promoteDeferredTargets.
  replace (tl_list (targets x1)) with ts by done.
  replace (deferredTargets x1) with (deferredTargets x) by done. rewrite Hd.
  assert (K : keeps m h (<[m := x1]> h)) by (apply (keeps_insert m h x x1 Hx); by intros []).
  destruct ts as [|t2 ts].
  - unfold hasTargets. replace (tl_list (targets x1)) with (@nil Target) by done.
    cbn [negb bool_decide decide_rel mbind outcome_bind].
    destruct (deallocateOne_ok (<[m := x1]> h) m x1) as (q' & h' & Hde & Q' & _); try done.
    + apply touches_insert.
    + by eapply insert_lookup.
    + by rewrite (serv_at x).
    + by apply Hok.
    + eexists _, q', h'. split; [|done].
      rewrite bool_decide_true by done. cbn [negb mbind outcome_bind]. by rewrite Hde.
  - rewrite bool_decide_false by done. cbn [negb mbind outcome_bind].
    eexists _, _, _. split; [done|]. by apply (queue_ok_keeps _ m).
Qed.
End queue.

(** ** Whole-queue operations *)

Lemma squash_mshr_step ids thread m q h q' h' :
  queue_ok ids q h -> m ∈ allocatedList q -> squash_mshr thread m (q, h) = Ok (q', h') ->
  queue_ok ids q' h' /\ forall i, i <> m -> i ∈ allocatedList q -> i ∈ allocatedList q'.
Proof.
  intros Q Hm H. destruct (qo_reg Q m Hm) as (x & Hx & Hok).
  unfold squash_mshr in H. rewrite (aget_ok _ _ _ Hx) in H. cbn [mbind outcome_bind] in H.
  destruct (threadNum x =? thread); [|by injection H as <- <-].
  destruct (negb (hasTargets x) || _); [|done].
  set (x' := set_field targets _ _) in H.
  assert (K : keeps m h (<[m := x']> h)) by (apply (keeps_insert m h x x' Hx); by intros []).
  destruct (getNumTargets x' =? 0)%nat eqn:En; [|done].
  replace (inService x') with (inService x) in H by done.
  destruct (inService x) eqn:Es; cbn [negb] in H.
  - injection H as <- <-. split; [by apply (queue_ok_keeps Q _ m)|done].
  - assert (Hd : tl_list (deferredTargets x') = []) by (by apply Hok).
    destruct (deallocateOne_ok Q (<[m := x']> h) m x') as (? & ? & Hde & ? & D & _); try done.
    + apply touches_insert.
    + by eapply insert_lookup.
    + by rewrite (serv_at x).
    + by apply Hok.
    + rewrite Hde in H. injection H as <- <-. split; [done|]. intros i Hne Hi.
      destruct D as (? & ? & ? & ? & -> & _). cbn. by apply without_in.
Qed.

Lemma squash_step ids thread q h q' h' :
  queue_ok ids q h -> squash thread q h = Ok (q', h') -> queue_ok ids q' h'.
Proof.
  unfold squash. intros Q. pose proof (lo_alloc_nodup (qo_lists Q)) as Hnd.
  assert (Hin : forall i, i ∈ allocatedList q -> i ∈ allocatedList q) by done.
  revert Hnd Hin. generalize (allocatedList q) at 1 2 4. intros l Hnd Hin.
  revert q h Q Hin. induction l as [|m l IH]; intros q h Q Hin H; cbn [foldO] in H; [by injection H as <- <-|].
  apply NoDup_cons in Hnd as [Hm Hnd].
  destruct (squash_mshr thread m (q, h)) as [[q1 h1]|] eqn:E; cbn [mbind outcome_bind] in H; [|done].
  apply (squash_mshr_step ids) in E as [Q1 Hk]; [|done|apply Hin; set_solver].
  apply (IH Hnd q1 h1); [done| |done]. intros i Hi. apply Hk; [by intros ->|]. apply Hin. set_solver.
Qed.

Lemma drain_ok ids q h : queue_ok ids q h -> queue_ok ids (drain q).1 h.
Proof.
  intros [L R F S]. pose proof (lo_count L) as Hc. unfold drain.
  destruct (Z.eqb_spec (allocated q) 0) as [E|E]; (split; [destruct L; split; try done|..]; try done).
  cbn. intros _. lia.
Qed.

(** ** Reachable states *)

(** One event of the life of a queue.  The registers are those of one queue;
    the events of other caches show as changes of [downstreamPending]. *)
Inductive qstep (ids : list nat) : MSHRQueue * Heap -> MSHRQueue * Heap -> Prop :=
| step_allocate now addr size pkt s wr o q h m q' h' :
    allocate_mshr now addr size pkt s wr o q h = Ok (m, q', h') -> qstep ids (q, h) (q', h')
| step_target now pkt s wr o m q h h' :
    m ∈ allocatedList q -> allocateTarget now pkt s wr o m h = Ok h' -> qstep ids (q, h) (q, h')
| step_service fuel p m q h q' h' :
    m ∈ allocatedList q -> markInService fuel p m q h = Ok (q', h') -> qstep ids (q, h) (q', h')
| step_snoop now pkt s express o m q h b pkt' h' :
    m ∈ allocatedList q -> mshr_handleSnoop now pkt s express o m h = Ok (b, pkt', h') ->
    qstep ids (q, h) (q, h')
| step_fill fuel pkt m q h h' :
    m ∈ allocatedList q -> mshr_handleFill fuel pkt m h = Ok h' -> qstep ids (q, h) (q, h')
| step_pop m q h h' :
    m ∈ allocatedList q -> pop_mshr m h = Ok h' -> qstep ids (q, h) (q, h')
| step_finish now m x q h q' h' :
    m ∈ allocatedList q -> h !! m = Some x -> inService x = true -> tl_list (targets x) = [] ->
    finish_mshr now m q h = Ok (q', h') -> qstep ids (q, h) (q', h')
| step_force now m q h b q' h' :
    m ∈ readyList q -> forceDeallocateTarget now m q h = Ok (b, q', h') -> qstep ids (q, h) (q', h')
| step_squash thread q h q' h' :
    squash thread q h = Ok (q', h') -> qstep ids (q, h) (q', h')
| step_drain q h : qstep ids (q, h) ((drain q).1, h)
| step_others q h h' :
    (forall m, m ∈ ids -> exists x x', h !! m = Some x /\ h' !! m = Some x' /\ same_reg x x') ->
    qstep ids (q, h) (q, h').

Lemma queue_ok_others ids q h h' :
  (forall m, m ∈ ids -> exists x x', h !! m = Some x /\ h' !! m = Some x' /\ same_reg x x') ->
  queue_ok ids q h -> queue_ok ids q h'.
Proof.
  intros He [L R F S].
  assert (Hin : forall m, m ∈ allocatedList q -> m ∈ ids) by (intros; apply (lo_in L); by left).
  split.
  - apply (lo_ext L). intros m Hm. destruct (He m (Hin m Hm)) as (x & x' & Hx & Hx' & E).
    unfold serv. rewrite Hx, Hx'. exact (same_reg_use inService _ _ (fun _ => eq_refl) E).
  - intros m Hm. destruct (He m Hm) as (x & x' & Hx & Hx' & E).
    destruct (R m Hm) as (? & ? & ?). simplify_eq. exists x'. split; [done|]. by eapply same_reg_ok.
  - intros m y Hm Hy. assert (Hi : m ∈ ids) by (apply (lo_in L); by right).
    destruct (He m Hi) as (x & x' & Hx & Hx' & E). simplify_eq. eapply same_reg_free; [done|]. by eapply F.
  - erewrite list_fmap_ext; [exact S|]. intros k m Hm. simpl.
    assert (Hi : m ∈ ids) by (apply Hin; apply (lo_ready L); by eapply list_elem_of_lookup_2).
    destruct (He m Hi) as (x & x' & Hx & Hx' & E). unfold ready_at. rewrite Hx, Hx'.
    exact (same_reg_use m_readyTime _ _ (fun _ => eq_refl) E).
Qed.

Lemma pop_keeps m h h' : pop_mshr m h = Ok h' -> keeps m h h'.
Proof.
  unfold pop_mshr. intros H. run_in H. apply aget_Ok in E. apply popTarget_Ok in E0 as (t & ts & _ & ->).
  eapply keeps_insert; [done|]. by intros [].
Qed.

Lemma qstep_ok ids s s' : qstep ids s s' -> queue_ok ids s.1 s.2 -> queue_ok ids s'.1 s'.2.
Proof.
  destruct 1; cbn [fst snd]; intros Q.
  - by eapply allocate_step.
  - eapply queue_ok_keeps; [done..|]. by eapply allocateTarget_keeps.
  - by eapply markInService_step.
  - eapply queue_ok_keeps; [done..|]. by eapply snoop_keeps.
  - eapply queue_ok_keeps; [done..|]. by eapply fill_keeps.
  - eapply queue_ok_keeps; [done..|]. by eapply pop_keeps.
  - destruct (finish_ok Q now m x) as (? & ? & E & ?); try done. rewrite E in *. by simplify_eq.
  - match goal with H : forceDeallocateTarget _ _ _ _ = _ |- _ =>
      pose proof H as H'; unfold forceDeallocateTarget in H'; run_in H'; apply aget_Ok in E end.
    destruct (force_ok Q now m r) as (? & ? & ? & Ef & ?); [done..| |rewrite Ef in *; by simplify_eq].
    intros Ht. unfold hasTargets in E0. by rewrite Ht in E0.
  - by eapply squash_step.
  - by apply drain_ok.
  - by eapply queue_ok_others.
Qed.

Definition registers (num_entries reserve : Z) (base : nat) : list nat :=
  freeList (MSHRQueue_new num_entries reserve base).

Lemma MSHRQueue_new_ok num_entries reserve base h :
  0 <= num_entries -> 1 <= reserve ->
  (forall m, m ∈ registers num_entries reserve base -> h !! m = Some MSHR_new) ->
  queue_ok (registers num_entries reserve base) (MSHRQueue_new num_entries reserve base) h.
Proof.
  intros Hn Hr Hh. split; [split; try done|..].
  - apply NoDup_seq.
  - cbn. rewrite length_seq. lia.
  - by constructor.
  - intros m. cbn. split; [by intros ?%not_elem_of_nil|]. by intros [?%not_elem_of_nil _].
  - intros m Hm. exists MSHR_new. split; [by apply Hh|]. by repeat split.
  - intros m x Hm Hx. rewrite Hh in Hx by done. injection Hx as <-. by repeat split.
  - by constructor.
Qed.

(** ** Properties *)

(** C24. Whatever the order of allocations, targets, services, snoops, fills,
    releases, squashes and drains, and of events in other caches, a miss queue
    keeps its books: the registers are split between the allocated and the free
    list, the ready list holds exactly the allocated registers that wait to be
    sent, in the order of their ready times, the two counters count, free
    registers are blank, only a register in service defers targets, and a
    queue that drains still has work. *)
Theorem queue_invariant (num_entries reserve : Z) (base : nat) (h : Heap) (q' : MSHRQueue) (h' : Heap) :
  0 <= num_entries -> 1 <= reserve ->
  let ids := registers num_entries reserve base in
  (forall m, m ∈ ids -> h !! m = Some MSHR_new) ->
  rtc (qstep ids) (MSHRQueue_new num_entries reserve base, h) (q', h') ->
  queue_ok ids q' h'.
Proof.
  intros Hn Hr ids Hh Hs. change (queue_ok ids (q', h').1 (q', h').2).
  pose proof (MSHRQueue_new_ok _ _ _ _ Hn Hr Hh) as Q.
  change (queue_ok ids (MSHRQueue_new num_entries reserve base, h).1
    (MSHRQueue_new num_entries reserve base, h).2) in Q.
  revert Hs Q. generalize (MSHRQueue_new num_entries reserve base, h), (q', h').
  induction 1; [done|]. intros Q. apply IHHs. by eapply qstep_ok.
Qed.

(** C25. The assertions of a miss queue that keeps its books cannot fail: while
    it is not full a miss is allocated (the free list is not empty, its first
    register has no targets, a place is found in the ready list), a register
    whose targets have been served is released or made pending again, and a
    squashed prefetch gives its target up; each leaves the books right. *)
Theorem queue_never_stuck (ids : list nat) (q : MSHRQueue) (h : Heap) :
  queue_ok ids q h ->
  (forall now addr size pkt s wr o, isFull q = false -> sender_ready s h ->
     exists m q' h', allocate_mshr now addr size pkt s wr o q h = Ok (m, q', h') /\
       freeList q = m :: freeList q' /\ allocatedList q' = allocatedList q ++ [m] /\
       readyList q' ≡ₚ m :: readyList q /\ queue_ok ids q' h') /\
  (forall now m x, m ∈ allocatedList q -> h !! m = Some x -> inService x = true ->
     tl_list (targets x) = [] ->
     exists q' h', finish_mshr now m q h = Ok (q', h') /\ queue_ok ids q' h') /\
  (forall now m x, m ∈ readyList q -> h !! m = Some x -> tl_list (targets x) <> [] ->
     exists b q' h', forceDeallocateTarget now m q h = Ok (b, q', h') /\ queue_ok ids q' h').
Proof.
  intros Q. split; [|split].
  - intros now addr size pkt s wr o Hf Hs.
    destruct (allocate_total Q now addr size pkt s wr o Hf Hs) as (m & q' & h' & E & ? & ? & ?).
    exists m, q', h'. do 4 (split; [done|]). by eapply allocate_step.
  - intros. by eapply finish_ok.
  - intros. by eapply force_ok.
Qed.

Lemma sorted_head (f : nat -> Z) (m : nat) l :
  StronglySorted Z.le (f <$> m :: l) -> forall i, i ∈ m :: l -> f m <= f i.
Proof.
  intros [_ Hf]%StronglySorted_inv i [->|Hi]%elem_of_cons; [lia|].
  rewrite Forall_forall in Hf. apply Hf, list_elem_of_fmap. eauto.
Qed.

(** The next request a miss queue sends is the one whose time came first:
    [getNextMSHR] returns a waiting register with the least ready time when
    that time has come, and nothing only when no waiting register is ready. *)
Theorem queue_next_is_earliest (ids : list nat) (q : MSHRQueue) (h : Heap) (now : Z) :
  queue_ok ids q h ->
  match getNextMSHR now q h with
  | Ok (Some m) => exists x, h !! m = Some x /\ m ∈ allocatedList q /\ inService x = false /\
      m_readyTime x <= now /\
      forall i y, i ∈ allocatedList q -> h !! i = Some y -> inService y = false ->
        m_readyTime x <= m_readyTime y
  | Ok None => forall i y, i ∈ allocatedList q -> h !! i = Some y -> inService y = false ->
      now < m_readyTime y
  | Err _ => False
  end.
Proof.
  intros Q. pose proof (qo_lists Q) as L. pose proof (qo_sorted Q) as Hs.
  assert (Hin : forall i y, i ∈ allocatedList q -> h !! i = Some y -> inService y = false ->
    i ∈ readyList q).
  { intros i y Hi Hy Hsv. apply (lo_ready L). by rewrite (serv_at y). }
  unfold getNextMSHR. destruct (readyList q) as [|m l] eqn:Er.
  { intros i y Hi Hy Hsv. by apply (Hin i y Hi Hy), not_elem_of_nil in Hsv. }
  assert (Hm : m ∈ readyList q) by (rewrite Er; set_solver).
  apply (lo_ready L) in Hm as [Hm Hsm]. destruct (qo_reg Q m Hm) as (x & Hx & _).
  rewrite (serv_at x) in Hsm by done. rewrite (aget_ok _ _ _ Hx). cbn [mbind outcome_bind].
  assert (Hle : forall i y, i ∈ allocatedList q -> h !! i = Some y -> inService y = false ->
    m_readyTime x <= m_readyTime y).
  { intros i y Hi Hy Hsv. pose proof (sorted_head (ready_at h) m l Hs i (Hin i y Hi Hy Hsv)) as H.
    unfold ready_at in H. by rewrite Hx, Hy in H. }
  destruct (Z.ltb_spec now (m_readyTime x)) as [Hlt|Hge].
  - intros i y Hi Hy Hsv. specialize (Hle i y Hi Hy Hsv). lia.
  - exists x. split; [done|]. split; [done|]. split; [done|]. split; [done|exact Hle].
Qed.

(** ** Witnesses *)

Definition tiny_q : MSHRQueue := MSHRQueue_new 1 1 0.
Definition tiny_h : Heap := [MSHR_new].
Definition tiny_req : CPkt :=
  new_packet ReadReq {| paddr := 64; req_size := 4; masterId := 0; contextId := 0; taskId := 0;
                        extraData := 0 |} false.

Definition after_miss : MSHRQueue * Heap :=
  match allocate_mshr 0 64 64 tiny_req None 5 0 tiny_q tiny_h with
  | Ok (_, q, h) => (q, h)
  | Err _ => (tiny_q, tiny_h)
  end.

Lemma after_miss_eq :
  allocate_mshr 0 64 64 tiny_req None 5 0 tiny_q tiny_h = Ok (0%nat, after_miss.1, after_miss.2).
Proof. vm_compute. reflexivity. Qed.

Lemma queue_invariant_witness :
  rtc (qstep (registers 1 1 0)) (tiny_q, tiny_h) (after_miss.1, after_miss.2) /\
  queue_ok (registers 1 1 0) after_miss.1 after_miss.2.
Proof.
  assert (Hs : rtc (qstep (registers 1 1 0)) (tiny_q, tiny_h) (after_miss.1, after_miss.2)).
  { eapply rtc_l; [|apply rtc_refl].
    apply (step_allocate _ 0 64 64 tiny_req None 5 0 tiny_q tiny_h 0%nat). exact after_miss_eq. }
  split; [exact Hs|].
  apply (queue_invariant 1 1 0 tiny_h); [lia|lia| |exact Hs].
  intros m Hm. change (registers 1 1 0) with [0%nat] in Hm.
  apply list_elem_of_singleton in Hm as ->. reflexivity.
Defined.

Lemma tiny_ok : queue_ok (registers 1 1 0) tiny_q tiny_h.
Proof.
  apply MSHRQueue_new_ok; [lia|lia|]. intros m Hm. change (registers 1 1 0) with [0%nat] in Hm.
  by apply list_elem_of_singleton in Hm as ->.
Qed.

Lemma queue_never_stuck_witness :
  exists m q' h', allocate_mshr 0 64 64 tiny_req None 5 0 tiny_q tiny_h = Ok (m, q', h') /\
    queue_ok (registers 1 1 0) q' h'.
Proof.
  destruct (proj1 (queue_never_stuck _ _ _ tiny_ok) 0 64 64 tiny_req None 5 0 eq_refl I)
    as (m & q' & h' & E & _ & _ & _ & Q).
  exists m, q', h'. split; [exact E|exact Q].
Defined.

Lemma after_miss_next :
  getNextMSHR 7 after_miss.1 after_miss.2 = Ok (Some 0%nat).
Proof. vm_compute. reflexivity. Qed.

Lemma queue_next_is_earliest_witness :
  exists x, after_miss.2 !! 0%nat = Some x /\ inService x = false /\ m_readyTime x <= 7.
Proof.
  pose proof (queue_next_is_earliest _ _ _ 7 (allocate_step tiny_ok _ _ _ _ _ _ _ _ _ _ after_miss_eq)) as H.
  rewrite after_miss_next in H.
  destruct H as (x & Hx & _ & Hs & Hle & _). exists x. split; [exact Hx|]. by split.
Defined.
