(* ===== verification/Cache.v ===== *)
(** The cache controller ([mem/cache/cache_impl.hh], [mem/cache/base.hh]) over
    a tag store with any replacement policy: hits, fills, replacement,
    write-backs, flushes, snoops, and the atomic-mode transaction that composes
    them. *)
From S2P Require Import Prelude IntMath MemTypes Blk CacheSet SetAssoc Policy Memory Mshr.

#[local] Open Scope Z_scope.

(** ** State *)

Record CacheParams := MkCacheParams {
  c_blkSize : Z;
  c_hitLatency : Z;
  responseLatency : Z;
  isTopLevel : bool;
  doFastWrites : bool;
  forwardSnoops : bool;
  bypassCaches : bool;
  numPcmPages : Z
}.

(** Hits and misses per command and master, and the counters of the cache
    itself. *)
Record CacheStats := MkCacheStats {
  hits : Command -> Z -> Z;
  pcmHits : Command -> Z -> Z;
  dramHits : Command -> Z -> Z;
  misses : Command -> Z -> Z;
  pcmMisses : Command -> Z -> Z;
  dramMisses : Command -> Z -> Z;
  pcmReadDirtyHits : Z;
  dramReadDirtyHits : Z;
  pcmReadExDirtyHits : Z;
  dramReadExDirtyHits : Z;
  fastWrites : Z;
  wb_count : Z
}.
#[export] Instance CacheStats_settable : Settable CacheStats := fun s =>
  MkCacheStats (hits s) (pcmHits s) (dramHits s) (misses s) (pcmMisses s) (dramMisses s)
    (pcmReadDirtyHits s) (dramReadDirtyHits s) (pcmReadExDirtyHits s) (dramReadExDirtyHits s)
    (fastWrites s) (wb_count s).

(** [datas] holds the bytes of each block of the tag store: the constructor of
    the store gives block [i] the [i]-th chunk of its data array. *)
Record Cache (T : Type) := MkCache {
  par : CacheParams;
  tags : T;
  datas : list (list Z);
  tempBlock : CacheBlk;
  tempData : list Z;
  mshrQueue : MSHRQueue;
  mshrs : Heap;
  missCount : Z;
  exit_requested : bool;
  c_stats : CacheStats
}.
Arguments MkCache {T}.
Arguments par {T}. Arguments tags {T}. Arguments datas {T}. Arguments tempBlock {T}.
Arguments tempData {T}. Arguments mshrQueue {T}. Arguments mshrs {T}. Arguments missCount {T}.
Arguments exit_requested {T}. Arguments c_stats {T}.
#[export] Instance Cache_settable {T} : Settable (Cache T) := fun c =>
  MkCache (par c) (tags c) (datas c) (tempBlock c) (tempData c) (mshrQueue c) (mshrs c)
    (missCount c) (exit_requested c) (c_stats c).

(** A [BlkType *]: a block of the tag store, or the temporary block. *)
Inductive BRef := Way (b : nat) | Temp.
#[export] Instance BRef_eq_dec : EqDecision BRef.
Proof. solve_decision. Defined.

Definition bump_stat (c : Command) (m : Z) (f : Command -> Z -> Z) : Command -> Z -> Z :=
  fun c' m' => if decide (c = c') then if m =? m' then f c' m' + 1 else f c' m' else f c' m'.

Definition CacheStats_new : CacheStats :=
  let z := fun (_ : Command) (_ : Z) => 0 in
  {| hits := z; pcmHits := z; dramHits := z; misses := z; pcmMisses := z; dramMisses := z;
     pcmReadDirtyHits := 0; dramReadDirtyHits := 0; pcmReadExDirtyHits := 0;
     dramReadExDirtyHits := 0; fastWrites := 0; wb_count := 0 |}.

(** The constructor: [entries] miss registers and four in reserve, and data
    arrays with whatever bytes they were allocated with. *)
Definition Cache_new {T} (p : CacheParams) (x : T) (bytes : list (list Z)) (temp : list Z)
    (entries maxMiss : Z) : Cache T :=
  let q := MSHRQueue_new entries 4 0 in
  {| par := p; tags := x; datas := bytes; tempBlock := CacheBlk_new; tempData := temp;
     mshrQueue := q; mshrs := replicate (Z.to_nat (numEntries q)) MSHR_new;
     missCount := maxMiss; exit_requested := false; c_stats := CacheStats_new |}.

Section cache.
Context {T : Type} `{Policy T}.
Implicit Types (ch : Cache T) (r : BRef) (pkt : CPkt).

(** ** Blocks *)

Definition store ch : TagStore := base (tags ch).

(** A call on the [BaseSetAssoc] part of the tag store. *)
Definition on_base (f : TagStore -> outcome TagStore) ch : outcome (Cache T) :=
  t ← f (store ch); Ok (ch <| tags ::= rebase t |>).
Definition on_tags (f : T -> outcome T) ch : outcome (Cache T) :=
  x ← f (tags ch); Ok (ch <| tags := x |>).

Definition get_ref r ch : outcome CacheBlk :=
  match r with Way b => getBlk (store ch) b | Temp => Ok (tempBlock ch) end.
Definition upd_ref r (f : CacheBlk -> CacheBlk) ch : outcome (Cache T) :=
  match r with
  | Way b => on_base (updBlk b f) ch
  | Temp => Ok (ch <| tempBlock ::= f |>)
  end.
Definition get_data r ch : outcome (list Z) :=
  match r with Way b => aget (datas ch) b | Temp => Ok (tempData ch) end.
Definition set_data r (d : list Z) ch : outcome (Cache T) :=
  match r with
  | Way b => ds ← aset (datas ch) b d; Ok (ch <| datas := ds |>)
  | Temp => Ok (ch <| tempData := d |>)
  end.

Definition set_bits (bits : Z) r ch : outcome (Cache T) :=
  upd_ref r (fun b => b <| status ::= fun s => Z.lor s bits |>) ch.
Definition clear_bits (bits : Z) r ch : outcome (Cache T) :=
  upd_ref r (fun b => b <| status ::= fun s => Z.land s (Z.lnot bits) |>) ch.

(** [tags->invalidate(blk); blk->invalidate();], the first only for a block
    of the tag store. *)
Definition invalidate_ref (env : Env) r ch : outcome (Cache T) :=
  ch ← (match r with Way b => on_tags (pol_invalidate env b) ch | Temp => Ok ch end);
  upd_ref r blk_invalidate ch.

(** ** Hit and miss counts *)

Definition is_pcm_page pkt ch : bool := pk_addr pkt <? Z.shiftl (numPcmPages (par ch)) 12.

Definition incMissCount (env : Env) pkt ch : outcome (Cache T) :=
  let m := masterId (pk_req pkt) in
  let c := pk_cmd pkt in
  assert! m <? maxMasters env;
  let ch := ch <| c_stats ::= set_field misses (bump_stat c m) |> in
  let ch := if is_pcm_page pkt ch then ch <| c_stats ::= set_field pcmMisses (bump_stat c m) |>
            else ch <| c_stats ::= set_field dramMisses (bump_stat c m) |> in
  if missCount ch =? 0 then Ok ch
  else
    let ch := ch <| missCount ::= Z.pred |> in
    Ok (if missCount ch =? 0 then ch <| exit_requested := true |> else ch).

Definition incHitCount (env : Env) pkt ch : outcome (Cache T) :=
  let m := masterId (pk_req pkt) in
  let c := pk_cmd pkt in
  assert! m <? maxMasters env;
  let ch := ch <| c_stats ::= set_field hits (bump_stat c m) |> in
  Ok (if is_pcm_page pkt ch then ch <| c_stats ::= set_field pcmHits (bump_stat c m) |>
      else ch <| c_stats ::= set_field dramHits (bump_stat c m) |>).

(** ** Write-backs and replacement *)

Definition writebackBlk (env : Env) r ch : outcome (Cache T * CPkt) :=
  blk ← get_ref r ch;
  assert! isValid blk && isDirty blk;
  let ch := ch <| c_stats ::= set_field wb_count Z.succ |> in
  ch ← on_base (incWriteBacks blk) ch;
  let writebackReq :=
    {| paddr := regenerateBlkAddr (cfg (store ch)) (tag blk) (blk_set blk);
       req_size := c_blkSize (par ch); masterId := srcMasterId blk; contextId := 0;
       taskId := task_id blk; extraData := 0 |} in
  ch ← upd_ref r (fun b => b <| task_id := Unknown |> <| tickInserted := curTick env |>) ch;
  let writeback := new_packet Writeback writebackReq (isSecure blk) in
  let writeback := if isWritable blk then writeback <| isSupplyExclusive := true |>
                   else writeback in
  d ← get_data r ch;
  d ← rd d 0 (c_blkSize (par ch));
  let writeback := writeback <| pk_data := d |> in
  ch ← clear_bits BlkDirty r ch;
  Ok (ch, writeback).

(** The block to fill, or [None] when the victim has an outstanding miss;
    the write-back of a dirty victim is appended to the caller's list. *)
Definition allocateBlock (env : Env) (addr : Z) (wbs : list CPkt) ch
    : outcome (Cache T * option nat * list CPkt) :=
  '(x, b) ← pol_findVictim env addr (tags ch);
  let ch := ch <| tags := x |> in
  blk ← getBlk (store ch) b;
  if isValid blk then
    let repl_addr := regenerateBlkAddr (cfg (store ch)) (tag blk) (blk_set blk) in
    repl_mshr ← findMatch repl_addr (isSecure blk) (mshrQueue ch) (mshrs ch);
    match repl_mshr with
    | Some m =>
        assert! negb (isWritable blk) || isDirty blk;
        x ← aget (mshrs ch) m;
        assert! tl_needsExclusive (targets x);
        Ok (ch, None, wbs)
    | None =>
        if isDirty blk then
          '(ch, wb) ← writebackBlk env (Way b) ch;
          Ok (ch, Some b, wbs ++ [wb])
        else Ok (ch, Some b, wbs)
    end
  else Ok (ch, Some b, wbs).

(** ** Fills *)

(** The temporary block takes the identity of the line. *)
Definition use_temp (env : Env) (addr : Z) ch : outcome (Cache T) :=
  assert! negb (isValid (tempBlock ch));
  let c := cfg (store ch) in
  let ispcm := if watershed env <=? addr then false else true in
  let ch := ch <| tempBlock ::= fun b =>
    b <| blk_set := extractSet c addr |> <| tag := extractTag c addr |>
      <| isPcm := ispcm |> |> in
  on_base (incSetLine (blk_set (tempBlock ch)) (isPcm (tempBlock ch))) ch.

(** Where the data goes: a new block, or the block that was there. *)
Definition fill_target (env : Env) pkt (or : option BRef) (wbs : list CPkt) ch
    : outcome (Cache T * BRef * list CPkt) :=
  let addr := pk_addr pkt in
  match or with
  | None =>
      assert! hasData (pk_cmd pkt);
      '(ch, ob, wbs) ← allocateBlock env addr wbs ch;
      '(ch, r) ←
        (match ob with
         | None => ch ← use_temp env addr ch; Ok (ch, Temp)
         | Some b => ch ← on_tags (pol_insertBlock env (hdr pkt) b) ch; Ok (ch, Way b)
         end);
      blk ← get_ref r ch;
      assert! negb (isValid blk);
      Ok (ch, r, wbs)
  | Some r =>
      blk ← get_ref r ch;
      assert! tag blk =? extractTag (cfg (store ch)) addr;
      assert! hasData (pk_cmd pkt) || isValid blk;
      Ok (ch, r, wbs)
  end.

(** The status bits a fill adds. *)
Definition fill_bits pkt (s : Z) : Z :=
  let s := if pk_secure pkt then Z.lor s BlkSecure else s in
  let s := Z.lor s (Z.lor BlkValid BlkReadable) in
  let s := if negb (sharedAsserted pkt) then
             let s := Z.lor s BlkWritable in
             if memInhibitAsserted pkt then Z.lor s BlkDirty else s
           else s in
  if decide (pk_cmd pkt = WriteInvalidateReq) then Z.lor s BlkDirty else s.

(** [clockEdge()] is the tick of the cache's next clock edge; [lastWordDelay]
    of the packet is a parameter. *)
Definition clockEdge (env : Env) : Z := divCeil (curTick env) (clockPeriod env) * clockPeriod env.

Definition handleFill (env : Env) (lastWordDelay : Z) pkt (or : option BRef)
    (wbs : list CPkt) ch : outcome (Cache T * BRef * list CPkt) :=
  assert! isResponse (pk_cmd pkt);
  '(ch, r, wbs) ← fill_target env pkt or wbs ch;
  ch ← upd_ref r (fun b => b <| status ::= fill_bits pkt |>) ch;
  ch ← (if isRead (pk_cmd pkt) then
          d ← get_data r ch;
          bs ← rd (pk_data pkt) 0 (c_blkSize (par ch));
          d ← wr d 0 bs;
          set_data r d ch
        else Ok ch);
  let ready := clockEdge env + responseLatency (par ch) * clockPeriod env + lastWordDelay in
  ch ← upd_ref r (fun b => b <| whenReady := ready |>) ch;
  Ok (ch, r, wbs).

(** The temporary block at the end of the transaction that used it. *)
Definition release_temp (env : Env) (wbs : list CPkt) ch : outcome (Cache T * list CPkt) :=
  '(ch, wbs) ← (if isDirty (tempBlock ch) then
                  '(ch, wb) ← writebackBlk env Temp ch; Ok (ch, wbs ++ [wb])
                else Ok (ch, wbs));
  ch ← on_base (decSetLine (blk_set (tempBlock ch)) (isPcm (tempBlock ch))) ch;
  Ok (ch <| tempBlock ::= blk_invalidate |>, wbs).

(** ** Hits *)

Definition cmpAndSwap r pkt ch : outcome (Cache T * CPkt) :=
  assert! isRequest (pk_cmd pkt);
  let offset := extractBlkOffset (cfg (store ch)) (pk_addr pkt) in
  d ← get_data r ch;
  '(pkt, d, overwrite_mem) ← swap_data pkt d offset;
  if overwrite_mem : bool then
    ch ← set_data r d ch; ch ← set_bits BlkDirty r ch; Ok (ch, pkt)
  else Ok (ch, pkt).

(** The arms of [satisfyCpuSideRequest]. *)
Definition satisfy_write r pkt ch : outcome (Cache T * CPkt) :=
  blk ← get_ref r ch;
  let '(ok, rq, blk') := checkWrite (hdr pkt) blk in
  let pkt := set_req rq pkt in
  ch ← upd_ref r (fun _ => blk') ch;
  ch ← (if ok : bool then
          d ← get_data r ch; d ← writeDataToBlock pkt d (c_blkSize (par ch)); set_data r d ch
        else Ok ch);
  ch ← set_bits BlkDirty r ch;
  Ok (ch, pkt).

Definition satisfy_read (env : Env) r (deferred_response pending_downgrade : bool) pkt ch
    : outcome (Cache T * CPkt) :=
  ch ← (if isLLSC (pk_cmd pkt) then
          blk ← get_ref r ch;
          blk ← trackLoadLocked (hdr pkt) blk;
          upd_ref r (fun _ => blk) ch
        else Ok ch);
  d ← get_data r ch;
  pkt ← setDataFromBlock d (c_blkSize (par ch)) pkt;
  if negb (pk_size pkt =? c_blkSize (par ch)) then Ok (ch, pkt)
  else
    blk ← get_ref r ch;
    if needsExclusive (pk_cmd pkt) then
      let pkt := if isDirty blk then pkt <| memInhibitAsserted := true |> else pkt in
      ch ← invalidate_ref env r ch;
      Ok (ch, pkt)
    else if isWritable blk && negb pending_downgrade && negb (sharedAsserted pkt)
              && negb (isInstFetch pkt) then
      if isDirty blk then
        if negb deferred_response && negb (isTopLevel (par ch)) then
          ch ← clear_bits BlkDirty r ch;
          Ok (ch, pkt <| memInhibitAsserted := true |>)
        else Ok (ch, pkt <| sharedAsserted := true |>)
      else Ok (ch, pkt)
    else Ok (ch, pkt <| sharedAsserted := true |>).

Definition satisfyCpuSideRequest (env : Env) pkt r (deferred_response pending_downgrade : bool)
    ch : outcome (Cache T * CPkt) :=
  assert! isRequest (pk_cmd pkt);
  blk ← get_ref r ch;
  assert! isValid blk;
  assert! getOffset (c_blkSize (par ch)) pkt + pk_size pkt <=? c_blkSize (par ch);
  if decide (pk_cmd pkt = SwapReq) then cmpAndSwap r pkt ch
  else if isWrite (pk_cmd pkt) then satisfy_write r pkt ch
  else if isRead (pk_cmd pkt) then satisfy_read env r deferred_response pending_downgrade pkt ch
  else
    assert! isUpgrade (pk_cmd pkt);
    assert! negb (bool_decide (r = Temp));
    ch ← invalidate_ref env r ch;
    Ok (ch, pkt).
End cache.
