(* ===== verification/CacheSide.v ===== *)
(** The cache controller between its two ports: access from the CPU side, the
    atomic transaction with the memory below, flushes, and snoops
    ([mem/cache/cache_impl.hh]). *)
From S2P Require Import Prelude IntMath MemTypes Blk CacheSet SetAssoc Policy Memory Mshr.
From S2P Require Import Cache.

#[local] Open Scope Z_scope.

Section sides.
Context {T M : Type} `{Policy T} `{MemSide M}.
Implicit Types (ch : Cache T) (m : M) (pkt : CPkt).

(** ** Flushing *)

(** [writebackVisitor]: a dirty block is written below functionally. *)
Definition writebackVisitor (funcMasterId : Z) (b : nat) ch m : outcome (Cache T * M) :=
  blk ← get_ref (Way b) ch;
  if isDirty blk then
    assert! isValid blk;
    let request :=
      {| paddr := regenerateBlkAddr (cfg (store ch)) (tag blk) (blk_set blk);
         req_size := c_blkSize (par ch); masterId := funcMasterId; contextId := 0;
         taskId := task_id blk; extraData := 0 |} in
    d ← get_data (Way b) ch;
    let packet := (new_packet WriteReq request false) <| pk_data := d |> in
    '(m, _) ← sendFunctional packet m;
    ch ← clear_bits BlkDirty (Way b) ch;
    Ok (ch, m)
  else Ok (ch, m).

Definition invalidateVisitor (env : Env) (b : nat) ch : outcome (Cache T) :=
  blk ← get_ref (Way b) ch;
  if isValid blk then
    assert! negb (isDirty blk);
    invalidate_ref env (Way b) ch
  else Ok ch.

(** Both visit every block of the store's array. *)
Definition memWriteback (funcMasterId : Z) ch m : outcome (Cache T * M) :=
  for_from 0 (length (mem (store ch)))
    (fun b st => writebackVisitor funcMasterId b st.1 st.2) (ch, m).
Definition memInvalidate (env : Env) ch : outcome (Cache T) :=
  for_from 0 (length (mem (store ch))) (fun b ch => invalidateVisitor env b ch) ch.
Definition cache_isDirty ch : outcome bool :=
  '(d, _) ← forEachBlk isDirtyVisitor false (mem (store ch)); Ok d.

Definition uncacheableFlush (env : Env) (funcMasterId : Z) pkt ch m : outcome (Cache T * M) :=
  ch ← (if isClearLL pkt then on_base (fun t => Ok (clearLocks t)) ch else Ok ch);
  ob ← findBlock (store ch) (pk_addr pkt) (pk_secure pkt);
  match ob with
  | Some b =>
      '(ch, m) ← writebackVisitor funcMasterId b ch m;
      ch ← invalidateVisitor env b ch;
      Ok (ch, m)
  | None => Ok (ch, m)
  end.

(** ** Access from the CPU side *)

(** What [access] hands back: the state, the packet, the block, the latency,
    the write-backs, and whether the request is satisfied. *)
Record Accessed := MkAccessed {
  a_ch : Cache T;
  a_m : M;
  a_pkt : CPkt;
  a_blk : option BRef;
  a_lat : Z;
  a_wbs : list CPkt;
  a_ok : bool
}.

(** Write-backs, and whole-line writes at the top level, put their data in
    the cache without reading the line: first the block, *)
Definition place_line (env : Env) pkt (ob : option nat) (wbs : list CPkt) ch
    : outcome (Cache T * option nat * list CPkt) :=
  match ob with
  | Some b => Ok (ch, Some b, wbs)
  | None =>
      '(ch, ob, wbs) ← allocateBlock env (pk_addr pkt) wbs ch;
      match ob with
      | None => ch ← incMissCount env pkt ch; Ok (ch, None, wbs)
      | Some b =>
          ch ← on_tags (pol_insertBlock env (hdr pkt) b) ch;
          let s := Z.lor BlkValid BlkReadable in
          let s := if pk_secure pkt then Z.lor s BlkSecure else s in
          ch ← upd_ref (Way b) (fun blk => blk <| status := s |>) ch;
          Ok (ch, Some b, wbs)
      end
  end.

(** then the data and the state it leaves the block in. *)
Definition write_line (env : Env) pkt (b : nat) ch : outcome (Cache T) :=
  d ← get_data (Way b) ch;
  bs ← rd (pk_data pkt) 0 (c_blkSize (par ch));
  d ← wr d 0 bs;
  ch ← set_data (Way b) d ch;
  ch ←
    (if decide (pk_cmd pkt = Writeback) then
       ch ← set_bits BlkDirty (Way b) ch;
       ch ← (if isSupplyExclusive pkt then set_bits BlkWritable (Way b) ch else Ok ch);
       assert! negb (needsResponse (pk_cmd pkt));
       Ok ch
     else
       blk ← get_ref (Way b) ch;
       assert! isReadable blk;
       ch ← set_bits (Z.lor BlkDirty BlkCanGoExclusive) (Way b) ch;
       ch ← clear_bits BlkWritable (Way b) ch;
       Ok (ch <| c_stats ::= set_field fastWrites Z.succ |>));
  incHitCount env pkt ch.

Definition access_whole_line (env : Env) pkt (ob : option nat) (lat : Z) (wbs : list CPkt) ch m
    : outcome Accessed :=
  assert! c_blkSize (par ch) =? pk_size pkt;
  '(ch, ob, wbs) ← place_line env pkt ob wbs ch;
  match ob with
  | None => Ok (MkAccessed ch m pkt None lat wbs false)
  | Some b =>
      ch ← write_line env pkt b ch;
      Ok (MkAccessed ch m pkt (Some (Way b)) lat wbs true)
  end.

Definition count_dirty_hit (blk : CacheBlk) pkt ch : Cache T :=
  if isDirty blk then
    if decide (pk_cmd pkt = ReadReq) then
      if isPcm blk then ch <| c_stats ::= set_field pcmReadDirtyHits Z.succ |>
      else ch <| c_stats ::= set_field dramReadDirtyHits Z.succ |>
    else if decide (pk_cmd pkt = ReadExReq) then
      if isPcm blk then ch <| c_stats ::= set_field pcmReadExDirtyHits Z.succ |>
      else ch <| c_stats ::= set_field dramReadExDirtyHits Z.succ |>
    else ch
  else ch.

(** The last arm: a hit with sufficient rights, or a miss. *)
Definition access_block (env : Env) pkt (ob : option nat) (lat : Z) (wbs : list CPkt) ch m
    : outcome Accessed :=
  hit ← (match ob with
         | Some b => blk ← get_ref (Way b) ch;
                     Ok (if needsExclusive (pk_cmd pkt) then isWritable blk else isReadable blk)
         | None => Ok false
         end);
  match ob, hit : bool with
  | Some b, true =>
      ch ← incHitCount env pkt ch;
      blk ← get_ref (Way b) ch;
      let ch := count_dirty_hit blk pkt ch in
      '(ch, pkt) ← satisfyCpuSideRequest env pkt (Way b) false false ch;
      Ok (MkAccessed ch m pkt (Some (Way b)) lat wbs true)
  | _, _ =>
      ch ← incMissCount env pkt ch;
      if bool_decide (ob = None) && isLLSC (pk_cmd pkt) && isWrite (pk_cmd pkt)
      then Ok (MkAccessed ch m (setExtraData 0 pkt) None lat wbs true)
      else Ok (MkAccessed ch m pkt (Way <$> ob) lat wbs false)
  end.

Definition access (env : Env) (funcMasterId : Z) pkt (wbs : list CPkt) ch m
    : outcome Accessed :=
  assert! isRequest (pk_cmd pkt);
  if isUncacheable pkt then
    '(ch, m) ← uncacheableFlush env funcMasterId pkt ch m;
    Ok (MkAccessed ch m pkt None (c_hitLatency (par ch)) wbs false)
  else
    '(x, ob, lat) ← pol_accessBlock env (pk_addr pkt) (pk_secure pkt) (pk_cmd pkt)
                      (portId (masterId (pk_req pkt))) (tags ch);
    let ch := ch <| tags := x |> in
    if decide (pk_cmd pkt = Writeback \/ pk_cmd pkt = WriteInvalidateReq /\ isTopLevel (par ch))
    then access_whole_line env pkt ob lat wbs ch m
    else if decide (pk_cmd pkt = WriteInvalidateReq) then
      ch ← (match ob with
            | Some b => invalidate_ref env (Way b) ch
            | None => Ok ch
            end);
      Ok (MkAccessed ch m pkt (Way <$> ob) lat wbs true)
    else access_block env pkt ob lat wbs ch m.

(** ** The request sent below on a miss *)

Definition bus_command (cpu_pkt : CPkt) (needs_exclusive : bool) (blk : option CacheBlk) : outcome Command :=
  match blk with
  | Some b =>
      assert! needs_exclusive;
      assert! negb (isWritable b);
      Ok (if isLLSC (pk_cmd cpu_pkt) then SCUpgradeReq else UpgradeReq)
  | None =>
      Ok (if decide (pk_cmd cpu_pkt = SCUpgradeFailReq \/ pk_cmd cpu_pkt = StoreCondFailReq)
          then SCUpgradeFailReq
          else if needs_exclusive then ReadExReq else ReadReq)
  end.

(** [None] when the request itself is forwarded. *)
Definition getBusPacket (cpu_pkt : CPkt) (or : option BRef) (needs_exclusive : bool) ch : outcome (option CPkt) :=
  ob ← (match or with Some r => b ← get_ref r ch; Ok (Some b) | None => Ok None end);
  let valid := match ob with
               | Some b => if isValid b then Some b else None
               | None => None
               end in
  if isUncacheable cpu_pkt then Ok None
  else if decide (pk_cmd cpu_pkt = WriteInvalidateReq) then Ok None
  else if bool_decide (valid = None)
            && (bool_decide (pk_cmd cpu_pkt = Writeback) || isUpgrade (pk_cmd cpu_pkt))
  then Ok None
  else
    assert! needsResponse (pk_cmd cpu_pkt);
    c ← bus_command cpu_pkt needs_exclusive valid;
    Ok (Some (allocate (new_block_packet cpu_pkt c (c_blkSize (par ch))))).

(** ** The atomic transaction *)

Definition promoteWholeLineWrites pkt ch : outcome CPkt :=
  if doFastWrites (par ch) && bool_decide (pk_cmd pkt = WriteReq)
       && (pk_size pkt =? c_blkSize (par ch)) && (getOffset (c_blkSize (par ch)) pkt =? 0)
  then assert! isTopLevel (par ch); Ok (set_cmd WriteInvalidateReq pkt)
  else Ok pkt.

(** A request another cache already answers only invalidates. *)
Definition atomic_inhibited (env : Env) pkt ch m : outcome (Cache T * M * CPkt * Z) :=
  let lat := c_hitLatency (par ch) in
  assert! negb (isUncacheable pkt);
  if isInvalidate (pk_cmd pkt) then
    ob ← findBlock (store ch) (pk_addr pkt) (pk_secure pkt);
    ch ← (match ob with
          | Some b => blk ← get_ref (Way b) ch;
                      if isValid blk then invalidate_ref env (Way b) ch else Ok ch
          | None => Ok ch
          end);
    '(m, pkt, ticks) ← sendAtomic pkt m;
    Ok (ch, m, pkt, (lat + ticksToCycles env ticks) * clockPeriod env)
  else Ok (ch, m, pkt, lat * clockPeriod env).

(** The response to the packet sent below. *)
Definition atomic_response (env : Env) (bus_pkt pkt : CPkt) (or : option BRef) (wbs : list CPkt) ch
    : outcome (Cache T * CPkt * option BRef * list CPkt) :=
  if negb (needsResponse (pk_cmd pkt)) then Ok (ch, pkt, or, wbs)
  else
    assert! isResponse (pk_cmd bus_pkt);
    if isError (pk_cmd bus_pkt) then
      pkt ← makeResponse pkt; pkt ← copyError bus_pkt pkt; Ok (ch, pkt, or, wbs)
    else if isRead (pk_cmd bus_pkt) || bool_decide (pk_cmd bus_pkt = UpgradeResp) then
      '(ch, r, wbs) ← handleFill env 0 bus_pkt or wbs ch;
      '(ch, pkt) ← satisfyCpuSideRequest env pkt r false false ch;
      Ok (ch, pkt, Some r, wbs)
    else
      pkt ← makeResponse pkt; Ok (ch, pkt, or, wbs).

(** Both packets carry the same request object. *)
Definition atomic_miss (env : Env) (a : Accessed) : outcome Accessed :=
  assert! negb (bool_decide (pk_cmd (a_pkt a) = WriteInvalidateReq));
  obus ← getBusPacket (a_pkt a) (a_blk a) (needsExclusive (pk_cmd (a_pkt a))) (a_ch a);
  match obus with
  | None =>
      '(m, pkt, ticks) ← sendAtomic (a_pkt a) (a_m a);
      Ok (MkAccessed (a_ch a) m pkt (a_blk a) (a_lat a + ticksToCycles env ticks) (a_wbs a) true)
  | Some bus_pkt =>
      '(m, bus_pkt, ticks) ← sendAtomic bus_pkt (a_m a);
      let pkt := set_req (pk_req bus_pkt) (a_pkt a) in
      '(ch, pkt, or, wbs) ← atomic_response env bus_pkt pkt (a_blk a) (a_wbs a) (a_ch a);
      Ok (MkAccessed ch m pkt or (a_lat a + ticksToCycles env ticks) wbs true)
  end.

Definition send_writebacks (wbs : list CPkt) m : outcome M :=
  foldO (fun wb m => '(m, _, _) ← sendAtomic wb m; Ok m) wbs m.

(** The end of a whole-line write: the data goes below, and the block is
    clean and writable from then on. *)
Definition complete_write_invalidate pkt (or : option BRef) ch m
    : outcome (Cache T * M * CPkt) :=
  if decide (pk_cmd pkt = WriteInvalidateReq) then
    '(m, pkt, _) ← sendAtomic pkt m;
    if isTopLevel (par ch) then
      match or with
      | None => Err AssertFail
      | Some r =>
          blk ← get_ref r ch;
          assert! isDirty blk;
          assert! negb (isWritable blk);
          assert! negb (Z.land (status blk) BlkCanGoExclusive =? 0);
          ch ← clear_bits (Z.lor BlkDirty BlkCanGoExclusive) r ch;
          ch ← set_bits BlkWritable r ch;
          Ok (ch, m, pkt)
      end
    else
      match or with
      | None => Ok (ch, m, pkt)
      | Some r => blk ← get_ref r ch; assert! negb (isValid blk); Ok (ch, m, pkt)
      end
  else Ok (ch, m, pkt).

Definition recvAtomic (env : Env) (funcMasterId : Z) pkt ch m : outcome (Cache T * M * CPkt * Z) :=
  if bypassCaches (par ch) then
    '(m, pkt, ticks) ← sendAtomic pkt m; Ok (ch, m, pkt, ticksToCycles env ticks)
  else
    pkt ← promoteWholeLineWrites pkt ch;
    if memInhibitAsserted pkt then atomic_inhibited env pkt ch m
    else
      a ← access env funcMasterId pkt [] ch m;
      a ← (if a_ok a then Ok a else atomic_miss env a);
      m ← send_writebacks (a_wbs a) (a_m a);
      '(ch, m, pkt) ← complete_write_invalidate (a_pkt a) (a_blk a) (a_ch a) m;
      pkt ← (if needsResponse (pk_cmd pkt) then makeResponse pkt else Ok pkt);
      Ok (ch, m, pkt, a_lat a * clockPeriod env).
End sides.
Arguments MkAccessed {T M}.
Arguments a_ch {T M}. Arguments a_m {T M}. Arguments a_pkt {T M}. Arguments a_blk {T M}.
Arguments a_lat {T M}. Arguments a_wbs {T M}. Arguments a_ok {T M}.
