(* ===== verification/CacheLaws.v ===== *)
(** What the cache controller keeps true, and the abstract cache it
    implements: a finite map from lines to their state and bytes.  Proved for
    every replacement policy that obeys [PolicyLaws]. *)
From S2P Require Import Prelude IntMath MemTypes Blk CacheSet SetAssoc Tags Policy Account.
From S2P Require Import Lines Memory Mshr Cache.

#[local] Open Scope Z_scope.

(** ** The abstract cache *)

Abbreviation Line := (Z * Z * bool)%type.

(** Rights, dirtiness and bytes of a line. *)
Record LineState := MkLine {
  ls_dirty : bool;
  ls_writable : bool;
  ls_readable : bool;
  ls_data : list Z
}.
#[export] Instance LineState_eq_dec : EqDecision LineState.
Proof. solve_decision. Defined.

Definition line_state (blk : CacheBlk) (d : list Z) : LineState :=
  {| ls_dirty := isDirty blk; ls_writable := isWritable blk; ls_readable := isReadable blk;
     ls_data := d |}.
Definition entry (e : CacheBlk * list Z) : option (Line * LineState) :=
  (fun l => (l, line_state e.1 e.2)) <$> line_of e.1.
Definition lines_map (m : list CacheBlk) (ds : list (list Z)) : gmap Line LineState :=
  list_to_map (omap entry (zip m ds)).

Definition held (m : list CacheBlk) (ds : list (list Z)) (l : Line) (b : nat) (blk : CacheBlk)
    (d : list Z) : Prop :=
  m !! b = Some blk /\ ds !! b = Some d /\ line_of blk = Some l.

Definition unique_in (m : list CacheBlk) : Prop :=
  forall b b' blk blk' l, m !! b = Some blk -> m !! b' = Some blk' ->
    line_of blk = Some l -> line_of blk' = Some l -> b = b'.

Lemma unique_in_tail x m : unique_in (x :: m) -> unique_in m.
Proof. intros Hu b b' blk blk' l Hb Hb' Hl Hl'. pose proof (Hu (S b) (S b') blk blk' l Hb Hb' Hl Hl'). lia. Qed.

Lemma lines_map_lookup m ds l st :
  unique_in m ->
  lines_map m ds !! l = Some st <->
  exists b blk d, held m ds l b blk d /\ st = line_state blk d.
Proof.
  unfold lines_map. revert ds. induction m as [|x m IH]; intros ds Hu; simpl.
  - split; [done|]. by intros (b & blk & d & (Hb & _) & _).
  - destruct ds as [|d0 ds]; simpl.
    { split; [done|]. by intros (b & blk & d & (_ & Hb & _) & _). }
    specialize (IH ds (unique_in_tail _ _ Hu)). unfold entry at 1. simpl.
    destruct (line_of x) as [l0|] eqn:Hx; simpl.
    + destruct (decide (l = l0)) as [->|Hne].
      * rewrite lookup_insert_eq. split.
        -- intros [= <-]. by exists 0%nat, x, d0.
        -- intros (b & blk & d & (Hb & Hd & Hl) & ->).
           pose proof (Hu b 0%nat blk x l0 Hb eq_refl Hl Hx) as ->. by simplify_eq/=.
      * rewrite lookup_insert_ne by done. rewrite IH. split.
        -- intros (b & blk & d & (? & ? & ?) & ->). by exists (S b), blk, d.
        -- intros ([|b] & blk & d & (? & ? & ?) & ->); simplify_eq/=. by exists b, blk, d.
    + rewrite IH. split.
      * intros (b & blk & d & (? & ? & ?) & ->). by exists (S b), blk, d.
      * intros ([|b] & blk & d & (? & ? & ?) & ->); simplify_eq/=. by exists b, blk, d.
Qed.

(** Replacing the block and the bytes at one position. *)
Definition drop_line (blk : CacheBlk) (a : gmap Line LineState) : gmap Line LineState :=
  match line_of blk with Some l => delete l a | None => a end.
Definition put_line (blk : CacheBlk) (d : list Z) (a : gmap Line LineState) : gmap Line LineState :=
  match line_of blk with Some l => <[l := line_state blk d]> a | None => a end.

Lemma lines_map_update m ds b blk d blk' d' :
  unique_in m -> m !! b = Some blk -> ds !! b = Some d ->
  unique_in (<[b := blk']> m) ->
  lines_map (<[b := blk']> m) (<[b := d']> ds) = put_line blk' d' (drop_line blk (lines_map m ds)).
Proof.
  intros Hu Hb Hd Hu'. pose proof (lookup_lt_Some _ _ _ Hb) as Hbl.
  pose proof (lookup_lt_Some _ _ _ Hd) as Hdl.
  apply map_eq. intros l. apply option_eq. intros st.
  rewrite lines_map_lookup by done.
  assert (Hnew : forall st, (exists b0 blk0 d0, held (<[b:=blk']> m) (<[b:=d']> ds) l b0 blk0 d0 /\
      st = line_state blk0 d0) <->
    (line_of blk' = Some l /\ st = line_state blk' d') \/
    (line_of blk' <> Some l /\ exists b0 blk0 d0, b0 <> b /\ held m ds l b0 blk0 d0 /\
      st = line_state blk0 d0)).
  { intros st0. split.
    - intros (b0 & blk0 & d0 & (H1 & H2 & H3) & ->). destruct (decide (b0 = b)) as [->|Hne].
      + rewrite list_lookup_insert_eq in H1 by done. rewrite list_lookup_insert_eq in H2 by done. simplify_eq. by left.
      + right. split.
        * intros Hl. apply Hne. apply (Hu' b0 b blk0 blk' l); try done.
          by rewrite list_lookup_insert_eq.
        * rewrite list_lookup_insert_ne in H1 by done. rewrite list_lookup_insert_ne in H2 by done.
          by exists b0, blk0, d0.
    - intros [[Hl ->]|(_ & b0 & blk0 & d0 & Hne & (H1 & H2 & H3) & ->)].
      + exists b, blk', d'. unfold held. rewrite !list_lookup_insert_eq by done. done.
      + exists b0, blk0, d0. unfold held. by rewrite !list_lookup_insert_ne by done. }
  rewrite Hnew. clear Hnew. unfold put_line.
  assert (Hold : forall st, drop_line blk (lines_map m ds) !! l = Some st <->
    exists b0 blk0 d0, b0 <> b /\ held m ds l b0 blk0 d0 /\ st = line_state blk0 d0).
  { intros st0. unfold drop_line. split.
    - intros E. assert (E' : lines_map m ds !! l = Some st0 /\ line_of blk <> Some l).
      { destruct (line_of blk) as [l1|] eqn:Hl1; [|done].
        apply lookup_delete_Some in E as [Hne E]. split; [done|congruence]. }
      destruct E' as [(b0 & blk0 & d0 & Hh & ->)%lines_map_lookup Hne]; [|done].
      exists b0, blk0, d0. split; [|done]. intros ->. destruct Hh as (H1 & _ & H3). congruence.
    - intros (b0 & blk0 & d0 & Hne & Hh & ->). destruct Hh as (H1 & H2 & H3).
      assert (E : lines_map m ds !! l = Some (line_state blk0 d0)).
      { apply lines_map_lookup; [done|]. by exists b0, blk0, d0. }
      destruct (line_of blk) as [l1|] eqn:Hl1; [|done]. rewrite lookup_delete_ne; [done|].
      intros ->. by destruct Hne; eapply Hu. }
  destruct (line_of blk') as [l'|] eqn:Hl'.
  - destruct (decide (l = l')) as [->|Hne].
    + rewrite lookup_insert_eq. naive_solver.
    + rewrite lookup_insert_ne by done. rewrite Hold. naive_solver.
  - rewrite Hold. naive_solver.
Qed.

Lemma lines_map_reorder m m' ds : Forall2 blk_eqv m m' -> lines_map m' ds = lines_map m ds.
Proof.
  intros Hm. unfold lines_map. f_equal. revert ds.
  induction Hm as [|x y m m' Hxy Hm IH]; intros [|d ds]; simpl; try done.
  assert (entry (y, d) = entry (x, d)) as ->; [|by rewrite IH].
  apply (blk_eqv_use (fun x => entry (x, d))); done.
Qed.

Lemma unique_insert t b blk blk' :
  unique_lines t -> mem t !! b = Some blk ->
  (forall l, l ∈ lines blk' -> l ∉ contents t \/ l ∈ lines blk) ->
  unique_in (<[b := blk']> (mem t)).
Proof.
  intros Hu Hb Hl. assert (Hus : unique_lines (t <| mem := <[b := blk']> (mem t) |>))
    by (eapply (unique_update t _ b blk blk'); [done|done|reflexivity|done]).
  exact Hus.
Qed.

(** ** The invariant of a cache between steps *)

Section laws.
Context {T : Type} `{PolicyLaws T}.
Context (env : Env).
Implicit Types (ch : Cache T) (pkt : CPkt) (b : nat) (blk : CacheBlk).

Record cache_ok ch : Prop := {
  co_tags : tags_ok env (store ch);
  co_lines : unique_lines (store ch);
  co_pol : pol_inv (tags ch);
  co_books : books_ok (store ch);
  co_blkSize : c_blkSize (par ch) = blkSize (cfg (store ch));
  co_datas : length (datas ch) = length (mem (store ch));
  co_data : forall b d, datas ch !! b = Some d -> Z.of_nat (length d) = c_blkSize (par ch);
  co_tag : forall b blk, mem (store ch) !! b = Some blk -> isValid blk = true ->
             tag_ok (cfg (store ch)) blk;
  co_free : forall b blk, mem (store ch) !! b = Some blk -> isValid blk = false ->
              status blk = 0
}.

(** The abstract cache behind the concrete one. *)
Definition cached ch : gmap Line LineState := lines_map (mem (store ch)) (datas ch).

(** What no step changes: parameters, miss registers, sizes. *)
Record kin ch ch' : Prop := {
  kin_par : par ch' = par ch;
  kin_queue : mshrQueue ch' = mshrQueue ch;
  kin_mshrs : mshrs ch' = mshrs ch;
  kin_cfg : cfg (store ch') = cfg (store ch)
}.

Lemma kin_refl ch : kin ch ch.
Proof. done. Qed.
Lemma kin_trans ch ch' ch'' : kin ch ch' -> kin ch' ch'' -> kin ch ch''.
Proof. intros [] []. split; congruence. Qed.

Lemma data_of ch b blk :
  cache_ok ch -> mem (store ch) !! b = Some blk ->
  exists d, datas ch !! b = Some d /\ Z.of_nat (length d) = blkSize (cfg (store ch)).
Proof.
  intros Hok Hb. destruct (lookup_lt_is_Some_2 (datas ch) b) as [d Hd].
  { rewrite (co_datas _ Hok). by eapply lookup_lt_Some. }
  exists d. split; [done|]. rewrite <- (co_blkSize _ Hok). by eapply co_data.
Qed.

Lemma cached_lookup ch l st :
  cache_ok ch -> cached ch !! l = Some st <->
  exists b blk d, held (mem (store ch)) (datas ch) l b blk d /\ st = line_state blk d.
Proof. intros Hok. apply lines_map_lookup, Hok. Qed.

Lemma cached_held ch l b blk d :
  cache_ok ch -> held (mem (store ch)) (datas ch) l b blk d ->
  cached ch !! l = Some (line_state blk d).
Proof. intros Hok Hh. apply cached_lookup; [done|]. by exists b, blk, d. Qed.

Lemma cached_None ch l : cache_ok ch -> cached ch !! l = None <-> l ∉ contents (store ch).
Proof.
  intros Hok. rewrite elem_of_contents. split.
  - intros E (b & blk & Hb & Hl). destruct (data_of _ _ _ Hok Hb) as (d & Hd & _).
    assert (cached ch !! l = Some (line_state blk d)) by (by eapply cached_held). congruence.
  - intros Hn. destruct (cached ch !! l) as [st|] eqn:E; [|done]. exfalso. apply Hn.
    apply cached_lookup in E as (b & blk & d & (? & ? & ?) & _); [|done]. eauto.
Qed.

(** Replacing the [BaseSetAssoc] part. *)
Lemma store_rebase ch t : store (ch <| tags ::= rebase t |>) = t.
Proof. apply base_rebase. Qed.

(** The statistics and the miss counter carry no invariant. *)
Lemma counters_ok ch ch' :
  tags ch' = tags ch -> datas ch' = datas ch -> par ch' = par ch -> cache_ok ch -> cache_ok ch'.
Proof.
  intros Et Ed Ep []. split; unfold store in *; rewrite ?Et, ?Ed, ?Ep in *; try done.
Qed.

(** A change of recency. *)
Lemma reorder_ok ch x :
  cache_ok ch -> reorder (store ch) (base x) -> pol_inv x ->
  cache_ok (ch <| tags := x |>) /\ kin ch (ch <| tags := x |>) /\
  cached (ch <| tags := x |>) = cached ch.
Proof.
  intros [] Hr Hx. split_and!.
  - split; unfold store in *; simpl; rewrite <- ?Hr, <- ?(r_cfg _ _ Hr); try done.
    + rewrite <- (Forall2_length _ _ _ (r_mem _ _ Hr)). done.
    + intros b blk' Hb Hv. symmetry in Hr. destruct (reorder_mem _ _ _ _ Hr Hb) as (blk & Hb1 & He).
      symmetry in He. pose proof (blk_eqv_use isValid _ _ (fun _ => eq_refl) He).
      rewrite (blk_eqv_use (tag_ok _) _ _ (fun _ => eq_refl) He). apply (co_tag0 b blk); congruence.
    + intros b blk' Hb Hv. symmetry in Hr. destruct (reorder_mem _ _ _ _ Hr Hb) as (blk & Hb1 & He).
      symmetry in He. rewrite (blk_eqv_use status _ _ (fun _ => eq_refl) He).
      pose proof (blk_eqv_use isValid _ _ (fun _ => eq_refl) He). apply (co_free0 b blk); congruence.
  - split; try done. symmetry. apply (r_cfg _ _ Hr).
  - unfold cached, store. simpl. apply lines_map_reorder. apply (r_mem _ _ Hr).
Qed.

(** Steps that leave the victim chosen by the policy usable. *)
Definition steady ch ch' : Prop := forall b, pol_slot (tags ch) b -> pol_slot (tags ch') b.

(** What a block keeps when only its flags and bookkeeping fields change. *)
Definition keeps blk blk' : Prop :=
  same_books blk blk' /\ tag blk' = tag blk /\ isSecure blk' = isSecure blk /\
  (isValid blk' = true \/ status blk' = status blk).

(** Fields the books, the line and the status do not involve. *)
Lemma keeps_fields blk blk' :
  same_books blk blk' -> tag blk' = tag blk -> status blk' = status blk -> keeps blk blk'.
Proof. intros Hs Et Es. split_and!; try done; [unfold isSecure; by rewrite Es|by right]. Qed.

Lemma keeps_line blk blk' : keeps blk blk' -> line_of blk' = line_of blk.
Proof. intros ((_ & E1 & _ & _ & E2) & E3 & E4 & _). unfold line_of. by rewrite E1, E2, E3, E4. Qed.

Lemma keeps_owned blk blk' : keeps blk blk' -> owned env blk -> owned env blk'.
Proof. intros ((E1 & E2 & E3 & _) & _). unfold owned. by rewrite E1, E2, E3. Qed.

(** The effect of rewriting block [b] and its bytes on the abstract cache. *)
Lemma cached_update ch ch' b blk d blk' d' :
  cache_ok ch -> cache_ok ch' -> mem (store ch) !! b = Some blk -> datas ch !! b = Some d ->
  mem (store ch') = <[b := blk']> (mem (store ch)) -> datas ch' = <[b := d']> (datas ch) ->
  cached ch' = put_line blk' d' (drop_line blk (cached ch)).
Proof.
  intros Hok Hok' Hb Hd Em Ed. unfold cached. rewrite Em, Ed.
  apply lines_map_update with d; try done; [apply (co_lines _ Hok)|]. rewrite <- Em. apply (co_lines _ Hok').
Qed.

(** A block rewritten with its line, its books and its bytes kept. *)
Lemma rewrite_ok ch t b blk blk' :
  cache_ok ch -> mem (store ch) !! b = Some blk -> keeps blk blk' ->
  mem t = <[b := blk']> (mem (store ch)) -> cfg t = cfg (store ch) ->
  orders t = orders (store ch) ->
  (forall i s, sets t !! i = Some s -> exists s0, sets (store ch) !! i = Some s0 /\
     pcm s = pcm s0 /\ dram s = dram s0) ->
  occupancies (stats t) = occupancies (stats (store ch)) ->
  tagsInUse (stats t) = tagsInUse (stats (store ch)) ->
  let ch' := ch <| tags ::= rebase t |> in
  cache_ok ch' /\ kin ch ch' /\ steady ch ch' /\
  (isValid blk = true -> forall d, datas ch !! b = Some d ->
     cached ch' = <[(blk_set blk, tag blk, isSecure blk) := line_state blk' d]> (cached ch)).
Proof.
  intros Hok Hb Hk Em Ec Eo Es Eocc Eu ch'. pose proof (keeps_line _ _ Hk) as El.
  pose proof Hok as [Ht Hu Hp Hbk Hbs Hds Hd Htag Hfree].
  assert (Hch : store ch' = t) by apply store_rebase.
  assert (Hok' : cache_ok ch').
  { split; rewrite ?Hch; try done.
    - eapply (tags_ok_blk env (store ch) t b blk blk'); try done.
      + destruct Hk as ((_ & _ & _ & _ & ?) & _). done.
      + by rewrite Eocc.
      + eapply keeps_owned; [done|]. by eapply t_owned.
    - by eapply (same_line_update (store ch) t b blk blk').
    - simpl. by apply inv_rebase.
    - destruct Hbk as [K1 K2 K3 K4 K5]. destruct Hk as [(E1 & E2 & E3 & E4 & E5) _].
      assert (Hc : forall p, p blk' = p blk -> count p (mem t) = count p (mem (store ch))).
      { intros p E. rewrite Em, (count_insert p _ _ _ _ Hb), E. lia. }
      split.
      + intros e blke. rewrite Em. destruct (decide (e = b)) as [->|].
        * rewrite list_lookup_insert_eq by (by eapply lookup_lt_Some). intros [= <-].
          rewrite E1, E2. eauto.
        * rewrite list_lookup_insert_ne by done. eauto.
      + by rewrite Eu, K2, Hc.
      + intros j v. rewrite Eocc. intros Hj. rewrite (K3 j v Hj), Hc; [done|].
        unfold held_by. by rewrite E2, E3.
      + intros i s Hi. destruct (Es i s Hi) as (s0 & Hi0 & -> & _). rewrite (K4 i s0 Hi0), Hc; [done|].
        unfold line_in_set. by rewrite E2, E4, E5.
      + intros i s Hi. destruct (Es i s Hi) as (s0 & Hi0 & _ & ->). rewrite (K5 i s0 Hi0), Hc; [done|].
        unfold line_in_set. by rewrite E2, E4, E5.
    - by rewrite Ec.
    - rewrite Em, length_insert. done.
    - intros e blke. rewrite Em, Ec. destruct (decide (e = b)) as [->|].
      + rewrite list_lookup_insert_eq by (by eapply lookup_lt_Some). intros [= <-] Hv.
        destruct Hk as [(_ & E2 & _) [E3 _]]. unfold tag_ok. rewrite E3.
        apply (Htag b blk Hb). congruence.
      + rewrite list_lookup_insert_ne by done. eauto.
    - intros e blke. rewrite Em. destruct (decide (e = b)) as [->|].
      + rewrite list_lookup_insert_eq by (by eapply lookup_lt_Some). intros [= <-] Hv.
        destruct Hk as [(_ & E2 & _) (_ & _ & [E3| ->])]; [congruence|].
        apply (Hfree b blk Hb). congruence.
      + rewrite list_lookup_insert_ne by done. eauto. }
  split_and!; [done|by split; rewrite ?Hch|intros e He; by apply slot_rebase|].
  intros Hv d Hdd. rewrite (cached_update ch ch' b blk d blk' d Hok Hok' Hb Hdd).
  - unfold put_line, drop_line. rewrite El. unfold line_of. rewrite Hv.
    apply insert_delete_eq.
  - by rewrite Hch.
  - simpl. by rewrite list_insert_id.
Qed.

(** Changing the flags of a block of the store. *)
Lemma upd_ref_ok ch b blk f :
  cache_ok ch -> mem (store ch) !! b = Some blk -> keeps blk (f blk) ->
  exists ch', upd_ref (Way b) f ch = Ok ch' /\ cache_ok ch' /\ kin ch ch' /\ steady ch ch' /\
    mem (store ch') = <[b := f blk]> (mem (store ch)) /\ datas ch' = datas ch /\
    (isValid blk = true -> forall d, datas ch !! b = Some d ->
       cached ch' = <[(blk_set blk, tag blk, isSecure blk) := line_state (f blk) d]> (cached ch)).
Proof.
  intros Hok Hb Hk. unfold upd_ref, on_base. rewrite (updBlk_ok _ _ _ _ Hb). cbn [mbind outcome_bind].
  eexists. split; [done|].
  destruct (rewrite_ok ch ((store ch) <| mem := <[b := f blk]> (mem (store ch)) |>) b blk (f blk))
    as (H1 & H2 & H3 & H4); try done.
  { intros i s Hi. by exists s. }
  split_and!; try done. by rewrite store_rebase.
Qed.

(** Replacing the bytes of a block. *)
Lemma set_data_ok ch b blk d d' :
  cache_ok ch -> mem (store ch) !! b = Some blk -> datas ch !! b = Some d ->
  length d' = length d ->
  exists ch', set_data (Way b) d' ch = Ok ch' /\ cache_ok ch' /\ kin ch ch' /\
    store ch' = store ch /\ datas ch' = <[b := d']> (datas ch) /\
    (isValid blk = true ->
       cached ch' = <[(blk_set blk, tag blk, isSecure blk) := line_state blk d']> (cached ch)).
Proof.
  intros Hok Hb Hd Hl. unfold set_data, aset.
  pose proof (lookup_lt_Some _ _ _ Hd) as Hlt. rewrite decide_True by done.
  cbn [mbind outcome_bind]. eexists. split; [done|].
  assert (Hok' : cache_ok (ch <| datas := <[b := d']> (datas ch) |>)).
  { destruct Hok. split; try done; simpl.
    - by rewrite length_insert.
    - intros e de. destruct (decide (e = b)) as [->|].
      + rewrite list_lookup_insert_eq by done. intros [= <-]. rewrite Hl. eauto.
      + rewrite list_lookup_insert_ne by done. eauto. }
  split_and!; try done. intros Hv. rewrite (cached_update ch _ b blk d blk d' Hok Hok' Hb Hd);
    [|symmetry; by apply list_insert_id|done].
  unfold put_line, drop_line, line_of. rewrite Hv. apply insert_delete_eq.
Qed.

(** New status bits that keep the block's validity and security. *)
Lemma keeps_status blk s :
  isValid blk = true -> Z.testbit s 0 = true -> Z.testbit s 6 = Z.testbit (status blk) 6 ->
  keeps blk (blk <| status := s |>).
Proof.
  intros Hv E0 E6. unfold keeps, same_books. rewrite !isValid_bit, !isSecure_bit in *.
  change (status (blk <| status := s |>)) with s. rewrite E0, Hv. split_and!; try done. by left.
Qed.

Lemma upd_status_ok ch b blk f :
  cache_ok ch -> mem (store ch) !! b = Some blk -> isValid blk = true ->
  Z.testbit (f (status blk)) 0 = true ->
  Z.testbit (f (status blk)) 6 = Z.testbit (status blk) 6 ->
  exists ch', upd_ref (Way b) (fun x => x <| status ::= f |>) ch = Ok ch' /\ cache_ok ch' /\
    kin ch ch' /\ steady ch ch' /\
    mem (store ch') = <[b := blk <| status := f (status blk) |>]> (mem (store ch)) /\
    datas ch' = datas ch /\
    (forall d, datas ch !! b = Some d ->
       cached ch' = <[(blk_set blk, tag blk, isSecure blk) :=
                      line_state (blk <| status := f (status blk) |>) d]> (cached ch)).
Proof.
  intros Hok Hb Hv E0 E6. change (blk <| status := f (status blk) |>) with (blk <| status ::= f |>).
  destruct (upd_ref_ok ch b blk (fun x => x <| status ::= f |>) Hok Hb)
    as (ch' & ? & ? & ? & ? & ? & ? & ?); [by apply (keeps_status blk (f (status blk)))|].
  exists ch'. split_and!; auto.
Qed.

Lemma keeps_trans blk blk' blk'' : keeps blk blk' -> keeps blk' blk'' -> keeps blk blk''.
Proof. unfold keeps, same_books. naive_solver congruence. Qed.

(** ** Write-backs *)

Lemma incWriteBacks_ok t b blk :
  tags_wf t -> mem t !! b = Some blk ->
  exists t', incWriteBacks blk t = Ok t' /\ cfg t' = cfg t /\ mem t' = mem t /\
    orders t' = orders t /\ occupancies (stats t') = occupancies (stats t) /\
    tagsInUse (stats t') = tagsInUse (stats t) /\
    (forall i s, sets t' !! i = Some s -> exists s0, sets t !! i = Some s0 /\
       pcm s = pcm s0 /\ dram s = dram s0).
Proof.
  intros Hwf Hb. destruct (blk_in_set _ _ _ Hwf Hb) as (i & s & Hi & Hs & _).
  pose proof (lookup_lt_Some _ _ _ Hs) as Hlt. unfold incWriteBacks.
  assert (Hsets : forall s', pcm s' = pcm s -> dram s' = dram s ->
    forall j sj, <[i := s']> (sets t) !! j = Some sj ->
      exists s0, sets t !! j = Some s0 /\ pcm sj = pcm s0 /\ dram sj = dram s0).
  { intros s' E1 E2 j sj. destruct (decide (j = i)) as [->|].
    - rewrite list_lookup_insert_eq by done. intros [= <-]. by exists s.
    - rewrite list_lookup_insert_ne by done. intros. by exists sj. }
  rewrite Hi. destruct (isPcm blk); (erewrite updSet_ok by (done || reflexivity));
    cbn [mbind outcome_bind]; eexists; (split; [done|]); split_and!; try done; simpl;
    try (apply Hsets; done); by (eapply orders_insert_same).
Qed.

(** The packet a write-back sends. *)
Definition writeback_of (c : TagConfig) blk (d : list Z) : CPkt :=
  (new_packet Writeback
    {| paddr := blk_base c blk; req_size := blkSize c; masterId := srcMasterId blk;
       contextId := 0; taskId := task_id blk; extraData := 0 |} (isSecure blk))
    <| isSupplyExclusive := isWritable blk |> <| pk_data := d |>.

Lemma rd_all (d : list Z) n : Z.of_nat (length d) = n -> rd d 0 n = Ok d.
Proof.
  intros <-. unfold rd. destruct (Z.leb_spec 0 (Z.of_nat (length d))); [|lia].
  rewrite (proj2 (Z.leb_le (0 + _) _)) by lia. rewrite Nat2Z.id. cbn [andb].
  change (Z.to_nat 0) with 0%nat. by rewrite drop_0, take_ge by lia.
Qed.

Lemma writebackBlk_ok ch b blk d :
  cache_ok ch -> held (mem (store ch)) (datas ch) (blk_set blk, tag blk, isSecure blk) b blk d ->
  isDirty blk = true ->
  exists ch' blk', writebackBlk env (Way b) ch = Ok (ch', writeback_of (cfg (store ch)) blk d) /\
    cache_ok ch' /\ kin ch ch' /\ steady ch ch' /\ datas ch' = datas ch /\
    mem (store ch') = <[b := blk']> (mem (store ch)) /\ keeps blk blk' /\
    line_state blk' d = MkLine false (isWritable blk) (isReadable blk) d /\
    cached ch' = <[(blk_set blk, tag blk, isSecure blk) := line_state blk' d]> (cached ch).
Proof.
  intros Hok (Hb & Hd & Hl) Hdirty.
  assert (Hv : isValid blk = true) by (unfold line_of in Hl; by destruct (isValid blk)).
  unfold writebackBlk. unfold get_ref. rewrite (getBlk_ok _ _ _ Hb). cbn [mbind outcome_bind].
  rewrite Hv, Hdirty. cbn [andb].
  set (ch0 := ch <| c_stats ::= _ |>).
  assert (Hok0 : cache_ok ch0) by (by apply (counters_ok ch)).
  change (store ch) with (store ch0) in Hb |- *. change (datas ch) with (datas ch0) in Hd |- *.
  change (cached ch) with (cached ch0).
  assert (Hk0 : kin ch ch0) by done.
  assert (Hs0 : steady ch ch0) by (intros e He; exact He). clearbody ch0.
  destruct (incWriteBacks_ok (store ch0) b blk) as (t & E & Ec & Em & Eo & Eocc & Eu & Es);
    [apply Hok0|done|]. unfold on_base at 1. rewrite E. cbn [mbind outcome_bind].
  destruct (rewrite_ok ch0 t b blk blk) as (Hok1 & Hk1 & Hs1 & Hc1); try done; [by apply keeps_fields| |].
  { by rewrite Em, list_insert_id. }
  set (ch1 := ch0 <| tags ::= rebase t |>) in *.
  assert (Hst : store ch1 = t) by apply store_rebase.
  assert (Hb1 : mem (store ch1) !! b = Some blk) by (rewrite Hst, Em; done).
  assert (Hd1 : datas ch1 !! b = Some d) by done.
  assert (Hcid : cached ch1 = cached ch0).
  { rewrite (Hc1 Hv d Hd). apply insert_id. by eapply cached_held. }
  assert (Hdat1 : datas ch1 = datas ch0) by done. assert (Em1 : mem (store ch1) = mem (store ch0)) by (by rewrite Hst).
  clearbody ch1.
  destruct (upd_ref_ok ch1 b blk (fun x => x <| task_id := Unknown |> <| tickInserted := curTick env |>))
    as (ch2 & E2 & Hok2 & Hk2 & Hs2 & Em2 & Hdat2 & Hc2); [done|done|by apply keeps_fields|].
  rewrite E2. cbn [mbind outcome_bind]. unfold get_data. rewrite (aget_ok (datas ch2) b d) by congruence.
  cbn [mbind outcome_bind]. pose proof (kin_trans _ _ _ Hk0 (kin_trans _ _ _ Hk1 Hk2)) as Hk02.
  rewrite (rd_all d) by (apply (co_data _ Hok2 b); by rewrite Hdat2, Hdat1).
  cbn [mbind outcome_bind]. unfold clear_bits.
  set (blk1 := blk <| task_id := Unknown |> <| tickInserted := curTick env |>) in *.
  assert (Hb2 : mem (store ch2) !! b = Some blk1)
    by (rewrite Em2; apply list_lookup_insert_eq; by eapply lookup_lt_Some).
  destruct (upd_status_ok ch2 b blk1 (fun s => Z.land s (Z.lnot BlkDirty)))
    as (ch3 & E3 & Hok3 & Hk3 & Hs3 & Em3 & Hdat3 & Hc3); [done|done|exact Hv|by rewrite isValid_bit in Hv; status_bits|by status_bits|].
  rewrite E3. cbn [mbind outcome_bind].
  assert (Hkeep : keeps blk (blk1 <| status := Z.land (status blk1) (Z.lnot BlkDirty) |>))
    by (apply (keeps_trans _ blk1); [by apply keeps_fields|by apply keeps_status; rewrite ?isValid_bit in *; status_bits]).
  set (blk2 := blk1 <| status := Z.land (status blk1) (Z.lnot BlkDirty) |>) in *.
  exists ch3, blk2. split_and!; try done.
  - f_equal. f_equal. unfold writeback_of. destruct Hk1 as [E11 _ _ E12], Hk0 as [E01 _ _ E02].
    unfold blk_base. rewrite E12, E11, (co_blkSize _ Hok0).
    by destruct (isWritable blk).
  - by eapply kin_trans.
  - intros e He. by apply Hs3, Hs2, Hs1, Hs0.
  - by rewrite Hdat3, Hdat2.
  - by rewrite Em3, Em2, list_insert_insert_eq, Em1.
  - unfold line_state, blk2. f_equal; by status_bits.
  - rewrite (Hc3 d), (Hc2 Hv d), Hcid by (done || congruence).
    apply insert_insert_eq.
Qed.

(** ** Lookup, victims, insertion, invalidation *)

Definition idle ch : Prop := allocatedList (mshrQueue ch) = [].

Lemma kin_idle ch ch' : kin ch ch' -> idle ch -> idle ch'.
Proof. intros [_ E _ _] Hi. unfold idle. by rewrite E. Qed.

Lemma idle_findMatch ch addr sec : idle ch -> findMatch addr sec (mshrQueue ch) (mshrs ch) = Ok None.
Proof. intros Hi. unfold findMatch. by rewrite Hi. Qed.

Definition line_ref ch (l : Line) (ob : option nat) : Prop :=
  match ob with
  | Some b => exists blk d, held (mem (store ch)) (datas ch) l b blk d
  | None => cached ch !! l = None
  end.

Lemma accessBlock_cache ch addr sec c m :
  cache_ok ch -> pol_master m ->
  exists x ob lat, pol_accessBlock env addr sec c (portId m) (tags ch) = Ok (x, ob, lat) /\
    let ch' := ch <| tags := x |> in
    cache_ok ch' /\ kin ch ch' /\ cached ch' = cached ch /\
    line_ref ch' (line_at (cfg (store ch)) addr sec) ob.
Proof.
  intros Hok Hm. pose proof Hok as [Ht Hu Hp Hbk Hbs Hds Hd Htag Hfree].
  destruct (accessBlock_ok env addr sec (store ch) (ok_wf _ _ Ht)) as (t' & ob & lat & E & Hr).
  destruct (access_law env addr sec c m (tags ch) t' ob lat Hp (ok_wf _ _ Ht) Hm E)
    as (x & Ex & Hre & Hx).
  exists x, ob, lat. split; [done|].
  (* the base store after the access, then its reordering *)
  destruct Hr as (Ec & Ew & Es & Eocc & Eu & Hob).
  set (ch1 := ch <| tags ::= rebase t' |>).
  assert (Hst : store ch1 = t') by apply store_rebase.
  assert (H1 : cache_ok ch1 /\ kin ch ch1 /\ cached ch1 = cached ch /\
    line_ref ch1 (line_at (cfg (store ch)) addr sec) ob).
  { destruct ob as [b|].
    - destruct Hob as (blk & Hb & Hl & Em).
      destruct (rewrite_ok ch t' b blk (blk <| refCount ::= Z.succ |>)) as (H1 & H2 & _ & H3); try done; [by apply keeps_fields|..].
      { unfold orders. by rewrite Es. }
      { intros i s Hi. exists s. by rewrite <- Es. }
      destruct (data_of ch b blk Hok Hb) as (d & Hdd & _).
      assert (Hv : isValid blk = true) by (unfold line_of in Hl; by destruct (isValid blk)).
      split_and!; try done.
      + fold ch1 in H3. rewrite (H3 Hv d Hdd). apply insert_id.
        rewrite (cached_held ch _ b blk d Hok); [done|].
        split_and!; try done. unfold line_of. by rewrite Hv.
      + exists (blk <| refCount ::= Z.succ |>), d. split_and!; try done.
        rewrite Hst, Em. apply list_lookup_insert_eq. by eapply lookup_lt_Some.
    - destruct Hob as [Hn Em].
      assert (Hcid : cached ch1 = cached ch) by (unfold cached; by rewrite Hst, Em).
      split_and!; try done.
      + assert (Eo : orders t' = orders (store ch)) by (unfold orders; by rewrite Es).
        split; rewrite ?Hst, ?Ec, ?Em; try done.
        * destruct Ht as [[] ? ?]. split; [split|..]; rewrite ?Ec, ?Em, ?Eo, ?Eocc; done.
        * intros b b' blk blk' l. rewrite Em. apply Hu.
        * simpl. by apply inv_rebase.
        * destruct Hbk. split; rewrite ?Es, ?Em, ?Eocc, ?Eu; done.
      + split; rewrite ?Hst; done.
      + unfold line_ref. rewrite Hcid. by apply cached_None. }
  destruct H1 as (Hok1 & Hk1 & Hc1 & Hr1).
  assert (Hre' : reorder (store ch1) (base x)) by (by rewrite Hst).
  destruct (reorder_ok ch1 x Hok1 Hre' Hx) as (Hok2 & Hk2 & Hc2).
  change (ch1 <| tags := x |>) with (ch <| tags := x |>) in *.
  split_and!; [done|by eapply kin_trans|congruence|].
  destruct ob as [b|]; unfold line_ref in *; [|by rewrite Hc2].
  destruct Hr1 as (blk & d & Hb & Hdd & Hl).
  destruct (reorder_mem _ _ _ _ Hre' Hb) as (blk' & Hb' & He). exists blk', d.
  split_and!; try done. by rewrite (blk_eqv_line _ _ He).
Qed.

(** What [allocateBlock] gives back: a block of the right set, clean or free,
    and the write-back of the line it held if that was dirty. *)
Definition evicted (c : TagConfig) (a : gmap Line LineState) (w : list CPkt)
    (blk : CacheBlk) (d : list Z) : Prop :=
  (isValid blk = true /\ isDirty blk = true /\
   a !! (blk_set blk, tag blk, isSecure blk) = Some (line_state blk d) /\
   w = [writeback_of c blk d]) \/
  ((isValid blk = true -> isDirty blk = false /\
      a !! (blk_set blk, tag blk, isSecure blk) = Some (line_state blk d)) /\ w = []).

Record allocated ch (addr : Z) ch' b (w : list CPkt) blk (d : list Z) : Prop := {
  al_ok : cache_ok ch';
  al_kin : kin ch ch';
  al_slot : pol_slot (tags ch') b;
  al_in : in_set_of (store ch') addr b;
  al_evicted : evicted (cfg (store ch)) (cached ch) w blk d;
  al_blk : exists blk', mem (store ch') !! b = Some blk' /\ keeps blk blk';
  al_data : datas ch' !! b = Some d;
  al_len : Z.of_nat (length d) = blkSize (cfg (store ch));
  al_other : forall l, l ∉ lines blk -> cached ch' !! l = cached ch !! l;
  al_set : blk_set blk = extractSet (cfg (store ch)) addr;
  al_owned : owned env blk;
  al_tag : isValid blk = true -> tag_ok (cfg (store ch)) blk
}.

Lemma allocateBlock_ok ch addr wbs :
  cache_ok ch -> idle ch ->
  exists ch' b w blk d, allocateBlock env addr wbs ch = Ok (ch', Some b, wbs ++ w) /\
    allocated ch addr ch' b w blk d.
Proof.
  intros Hok Hi. pose proof Hok as [Ht Hu Hp Hbk Hbs Hds Hd Htag Hfree]. unfold allocateBlock.
  destruct (victim_law env addr (tags ch) Hp (ok_wf _ _ Ht)) as (x & b & E & Hr & Hx & Hsl & Hin).
  rewrite E. cbn [mbind outcome_bind].
  destruct (reorder_ok ch x Hok Hr Hx) as (Hok1 & Hk1 & Hc1).
  set (ch1 := ch <| tags := x |>) in *. change (base x) with (store ch1) in Hin.
  change x with (tags ch1) in Hsl.
  pose proof (kin_idle _ _ Hk1 Hi) as Hi1. clearbody ch1.
  pose proof (kin_cfg _ _ Hk1) as Ec1.
  pose proof Hin as (blk & Hb & Hset). rewrite (getBlk_ok _ _ _ Hb). cbn [mbind outcome_bind].
  destruct (data_of _ _ _ Hok1 Hb) as (d & Hdd & Hlen).
  pose proof (t_owned _ _ (co_tags _ Hok1) b blk Hb) as Hown.
  pose proof (co_tag _ Hok1 b blk Hb) as Htb. rewrite Ec1 in Hset, Htb, Hlen.
  assert (Hh : isValid blk = true ->
    held (mem (store ch1)) (datas ch1) (blk_set blk, tag blk, isSecure blk) b blk d)
    by (intros Hv; split_and!; try done; unfold line_of; by rewrite Hv).
  assert (Hnowb : (isValid blk = true -> isDirty blk = false) ->
    allocated ch addr ch1 b [] blk d).
  { intros Hclean. split; try done.
    - right. split; [|done]. intros Hv. split; [auto|]. rewrite <- Hc1.
      eapply cached_held; [done|]. by apply Hh.
    - exists blk. split; [done|by apply keeps_fields].
    - by rewrite Hc1. }
  destruct (isValid blk) eqn:Hv.
  2: { exists ch1, b, [], blk, d. rewrite app_nil_r. split; [done|by apply Hnowb]. }
  rewrite (idle_findMatch _ _ _ Hi1). cbn [mbind outcome_bind].
  destruct (isDirty blk) eqn:Hdirty.
  2: { exists ch1, b, [], blk, d. rewrite app_nil_r. split; [done|by apply Hnowb]. }
  clear Hnowb. specialize (Hh eq_refl).
  destruct (writebackBlk_ok ch1 b blk d Hok1 Hh Hdirty)
    as (ch2 & blk' & E2 & Hok2 & Hk2 & Hs2 & Hdat2 & Em2 & Hkeep & _ & Hc2).
  rewrite E2. cbn [mbind outcome_bind].
  assert (Hblt : (b < length (mem (store ch1)))%nat) by (by eapply lookup_lt_Some).
  exists ch2, b, [writeback_of (cfg (store ch1)) blk d], blk, d. split; [done|]. split; try done.
  - by eapply kin_trans.
  - by apply Hs2.
  - eapply in_set_frame; [apply (co_tags _ Hok1)|apply (co_tags _ Hok2)|apply (kin_cfg _ _ Hk2)|done].
  - left. split_and!; try done; [|by rewrite Ec1]. rewrite <- Hc1. by eapply cached_held.
  - exists blk'. by rewrite Em2, list_lookup_insert_eq.
  - by rewrite Hdat2.
  - intros l Hl. rewrite Hc2, Hc1, lookup_insert_ne; [done|].
    intros <-. apply Hl, elem_of_lines. unfold line_of. by rewrite Hv.
  - intros _. by apply Htb.
Qed.

Lemma put_line_valid blk d a :
  isValid blk = true ->
  put_line blk d a = <[(blk_set blk, tag blk, isSecure blk) := line_state blk d]> a.
Proof. intros Hv. unfold put_line, line_of. by rewrite Hv. Qed.

(** Insertion, and the validation the caller adds to it. *)
Lemma insert_validate_ok ch pkt b blk d g :
  cache_ok ch -> pol_slot (tags ch) b -> in_set_of (store ch) (pk_addr pkt) b ->
  mem (store ch) !! b = Some blk -> datas ch !! b = Some d -> is_addr (pk_addr pkt) ->
  cached ch !! line_at (cfg (store ch)) (pk_addr pkt) (pk_secure pkt) = None ->
  0 <= masterId (pk_req pkt) < maxMasters env -> pol_master (masterId (pk_req pkt)) ->
  Z.testbit (g 0) 0 = true -> Z.testbit (g 0) 6 = pk_secure pkt ->
  exists ch1 blk1 ch2 blk2,
    on_tags (pol_insertBlock env (hdr pkt) b) ch = Ok ch1 /\
    get_ref (Way b) ch1 = Ok blk1 /\ isValid blk1 = false /\
    upd_ref (Way b) (fun x => x <| status ::= g |>) ch1 = Ok ch2 /\
    cache_ok ch2 /\ kin ch ch2 /\ datas ch2 = datas ch /\
    mem (store ch2) !! b = Some blk2 /\ status blk2 = g 0 /\
    line_of blk2 = Some (line_at (cfg (store ch)) (pk_addr pkt) (pk_secure pkt)) /\
    cached ch2 = <[line_at (cfg (store ch)) (pk_addr pkt) (pk_secure pkt) := line_state blk2 d]>
                   (drop_line blk (cached ch)).
Proof.
  intros Hok Hsl Hin Hb Hdd Ha Hn Hm Hpm G0 G6.
  pose proof Hok as [Ht Hu Hp Hbk Hbs Hds Hd Htag Hfree].
  destruct (insertBlock_ok env (hdr pkt) b blk (store ch) Ht Hb Hm)
    as (t' & E & Hok' & Ec & Ew & Eo & Em).
  destruct (insert_law env (hdr pkt) b (tags ch) t' Hp Ht Hsl Hin Hm Hpm E) as (x & Ex & Hr & Hx).
  pose proof (lookup_lt_Some _ _ _ Hb) as Hblt. pose proof Hin as (blk0 & Hb0 & Hset).
  assert (blk0 = blk) as -> by congruence. clear Hb0.
  set (ins := inserted env (hdr pkt) (cfg (store ch)) blk) in *.
  assert (Hbt : mem t' !! b = Some ins) by (rewrite Em; by apply list_lookup_insert_eq).
  destruct (reorder_mem _ _ _ _ Hr Hbt) as (blk1 & Hb1 & He).
  set (ch1 := ch <| tags := x |>).
  set (blk2 := blk1 <| status ::= g |>).
  set (t2 := (base x) <| mem := <[b := blk2]> (mem (base x)) |>).
  set (ch2 := ch1 <| tags ::= rebase t2 |>).
  pose proof (proj1 (tags_ok_proper env _ _ Hr) Hok') as Hok1.
  pose proof (lookup_lt_Some _ _ _ Hb1) as Hb1lt.
  assert (Hst0 : status blk1 = 0).
  { rewrite (blk_eqv_use status _ _ (fun _ => eq_refl) He). unfold ins, inserted, retired.
    destruct (isValid blk) eqn:Hv; [done|]. simpl. by apply (Hfree b). }
  assert (Hst2 : status blk2 = g 0) by (simpl; by rewrite Hst0).
  assert (Hv2 : isValid blk2 = true) by (by rewrite isValid_bit, Hst2).
  assert (Hset1 : blk_set blk1 = blk_set blk)
    by (rewrite (blk_eqv_use blk_set _ _ (fun _ => eq_refl) He); unfold ins, inserted, retired;
        by destruct (isValid blk)).
  assert (Htag2 : tag blk2 = extractTag (cfg (store ch)) (pk_addr pkt))
    by (apply (blk_eqv_use tag _ _ (fun _ => eq_refl) He)).
  assert (Hl2 : line_of blk2 = Some (line_at (cfg (store ch)) (pk_addr pkt) (pk_secure pkt))).
  { unfold line_of. rewrite Hv2, Htag2, isSecure_bit, Hst2, G6. unfold line_at.
    rewrite <- Hset, <- Hset1. done. }
  assert (Hst : store ch2 = t2) by apply store_rebase.
  assert (Hcx : cfg (base x) = cfg (store ch)) by (by rewrite <- (r_cfg _ _ Hr)).
  assert (Hins : lines ins = ∅)
    by (unfold lines, line_of, ins; by rewrite inserted_invalid).
  assert (Hcont : contents (base x) = contents (store ch) ∖ lines blk).
  { rewrite <- Hr, (contents_update (store ch) t' b blk ins), Hins by done. set_solver. }
  apply cached_None in Hn; [|done].
  assert (Hu1 : unique_lines (base x)).
  { rewrite <- Hr. eapply (unique_update (store ch)); [done..|]. rewrite Hins. set_solver. }
  assert (Hok2 : cache_ok ch2).
  { split; rewrite ?Hst; unfold t2; simpl; rewrite ?Hcx; try done.
    - eapply (tags_ok_blk env (base x) _ b blk1 blk2); try done.
      intros _. split; [apply (blk_eqv_use isTouched _ _ (fun _ => eq_refl) He)|].
      change (srcMasterId blk2) with (srcMasterId blk1).
      by rewrite (blk_eqv_use srcMasterId _ _ (fun _ => eq_refl) He).
    - eapply (unique_update (base x)); [done|exact Hb1|done|].
      intros l [= <-]%elem_of_lines%(eq_trans (eq_sym Hl2)). left. rewrite Hcont. set_solver.
    - by apply inv_rebase.
    - assert (Hr2 : reorder (t' <| mem ::= insert b blk2 |>)
                            ((base x) <| mem := <[b := blk2]> (mem (base x)) |>)).
      { destruct Hr. split; try done. simpl. by apply Forall2_insert. }
      rewrite <- Hcx. refine (proj1 (books_proper _ _ Hr2) _). eapply books_insert; [exact Ht|done|exact Hb|exact Hm|done|done|..].
      + apply (blk_eqv_use isTouched _ _ (fun _ => eq_refl) He).
      + done.
      + apply (blk_eqv_use isPcm _ _ (fun _ => eq_refl) He).
      + apply (blk_eqv_use srcMasterId _ _ (fun _ => eq_refl) He).
    - rewrite length_insert, <- (Forall2_length _ _ _ (r_mem _ _ Hr)), Em, length_insert. done.
    - intros e blke. destruct (decide (e = b)) as [->|].
      + rewrite list_lookup_insert_eq by done. intros [= <-] _. unfold tag_ok. rewrite Htag2.
        apply tag_ok_extract; [apply (t_cfg _ (ok_wf _ _ Ht))|done].
      + rewrite list_lookup_insert_ne by done. intros Hbe Hve. symmetry in Hr.
        destruct (reorder_mem _ _ _ _ Hr Hbe) as (blke' & Hbe' & Hee). symmetry in Hee.
        rewrite Em, list_lookup_insert_ne in Hbe' by done.
        rewrite (blk_eqv_use (tag_ok _) _ _ (fun _ => eq_refl) Hee).
        apply (Htag e); [done|]. by rewrite <- (blk_eqv_use isValid _ _ (fun _ => eq_refl) Hee).
    - intros e blke. destruct (decide (e = b)) as [->|].
      + rewrite list_lookup_insert_eq by done. intros [= <-]. congruence.
      + rewrite list_lookup_insert_ne by done. intros Hbe Hve. symmetry in Hr.
        destruct (reorder_mem _ _ _ _ Hr Hbe) as (blke' & Hbe' & Hee). symmetry in Hee.
        rewrite Em, list_lookup_insert_ne in Hbe' by done.
        rewrite (blk_eqv_use status _ _ (fun _ => eq_refl) Hee).
        apply (Hfree e); [done|]. by rewrite <- (blk_eqv_use isValid _ _ (fun _ => eq_refl) Hee). }
  exists ch1, blk1, ch2, blk2. split_and!; try done.
  - unfold on_tags. by rewrite Ex.
  - unfold get_ref. by apply getBlk_ok.
  - rewrite (blk_eqv_use isValid _ _ (fun _ => eq_refl) He). apply inserted_invalid.
  - unfold upd_ref, on_base. change (store ch1) with (base x). by rewrite (updBlk_ok _ _ _ _ Hb1).
  - split; try done. by rewrite Hst.
  - rewrite Hst. by apply list_lookup_insert_eq.
  - assert (Ecm : cached ch2 = lines_map (<[b := blk2]> (mem (store ch))) (<[b := d]> (datas ch))).
    { unfold cached. rewrite Hst. simpl. rewrite (list_insert_id (datas ch)) by done.
      rewrite (lines_map_reorder (<[b := blk2]> (mem t'))).
      - by rewrite Em, list_insert_insert_eq.
      - apply Forall2_insert; [apply Hr|done]. }
    rewrite Ecm, (lines_map_update _ _ b blk d); [unfold put_line; by rewrite Hl2|done..|].
    eapply (unique_insert (store ch)); [done..|].
    intros l [= <-]%elem_of_lines%(eq_trans (eq_sym Hl2)). by left.
Qed.

Lemma invalidate_ref_ok ch b blk :
  cache_ok ch -> mem (store ch) !! b = Some blk -> isValid blk = true ->
  exists ch' blk', invalidate_ref env (Way b) ch = Ok ch' /\ cache_ok ch' /\ kin ch ch' /\
    datas ch' = datas ch /\ mem (store ch') !! b = Some blk' /\ isValid blk' = false /\
    cached ch' = delete (blk_set blk, tag blk, isSecure blk) (cached ch).
Proof.
  intros Hok Hb Hv. pose proof Hok as [Ht Hu Hp Hbk Hbs Hds Hd Htag Hfree].
  destruct (data_of _ _ _ Hok Hb) as (d & Hdd & _).
  destruct (invalidate_ok env b blk (store ch) Ht Hb Hv)
    as (t' & E & Hwf' & Ec & Ew & Eo & Em & El).
  destruct (invalidate_law env b (tags ch) blk t' Hp Ht Hb Hv E) as (x & Ex & Hr & Hx).
  pose proof (lookup_lt_Some _ _ _ Hb) as Hblt.
  assert (Hbt : mem t' !! b = Some (invalidated env blk)) by (rewrite Em; by apply list_lookup_insert_eq).
  destruct (reorder_mem _ _ _ _ Hr Hbt) as (blk1 & Hb1 & He).
  set (ch1 := ch <| tags := x |>). set (blk2 := blk_invalidate blk1).
  set (t2 := (base x) <| mem := <[b := blk2]> (mem (base x)) |>).
  set (ch2 := ch1 <| tags ::= rebase t2 |>).
  pose proof (lookup_lt_Some _ _ _ Hb1) as Hb1lt.
  assert (Hst : store ch2 = t2) by apply store_rebase.
  assert (Hcx : cfg (base x) = cfg (store ch)) by (by rewrite <- (r_cfg _ _ Hr)).
  assert (Hwx : tags_wf (base x)) by (by rewrite <- Hr).
  assert (Hset1 : blk_set blk1 = blk_set blk)
    by (apply (blk_eqv_use blk_set _ _ (fun _ => eq_refl) He)).
  assert (Hsame : forall (P : CacheBlk -> Prop), (forall blk, P (blk <| rrpv := 0 |>) = P blk) ->
    P blk2 -> (forall e blke, mem (store ch) !! e = Some blke -> P blke) ->
    forall e blke, <[b := blk2]> (mem (base x)) !! e = Some blke -> P blke).
  { intros P HP HP2 Hall e blke. destruct (decide (e = b)) as [->|].
    - rewrite list_lookup_insert_eq by done. by intros [= <-].
    - rewrite list_lookup_insert_ne by done. intros Hbe. symmetry in Hr.
      destruct (reorder_mem _ _ _ _ Hr Hbe) as (blke' & Hbe' & Hee). symmetry in Hee.
      rewrite Em, list_lookup_insert_ne in Hbe' by done.
      rewrite (blk_eqv_use P _ _ HP Hee). eauto. }
  assert (Hnone : line_of blk2 = None) by done.
  assert (Hus : unique_in (<[b := blk2]> (mem (store ch)))).
  { eapply (unique_insert (store ch)); [done..|]. intros l Hl%elem_of_lines. done. }
  assert (Hmm : Forall2 blk_eqv (<[b := blk2]> (mem (store ch))) (<[b := blk2]> (mem (base x)))).
  { rewrite <- (list_insert_insert_eq (mem (store ch)) b blk2 (invalidated env blk)), <- Em.
    apply Forall2_insert; [apply Hr|done]. }
  assert (Hok2 : cache_ok ch2).
  { split; rewrite ?Hst; unfold t2; simpl; rewrite ?Hcx; try done.
    - split.
      + eapply (tags_wf_blk (base x) _ b blk1 blk2); try done.
      + simpl. rewrite <- (r_stats _ _ Hr), El. apply (t_occ _ _ Ht).
      + simpl. apply (Hsame (owned env)); [done|done|]. apply (t_owned _ _ Ht).
    - intros e e' k k' l Hbe Hbe' Hle Hle'. symmetry in Hmm.
      destruct (Forall2_lookup_l _ _ _ _ _ Hmm Hbe) as (k1 & H1 & Hk1).
      destruct (Forall2_lookup_l _ _ _ _ _ Hmm Hbe') as (k2 & H2 & Hk2).
      pose proof (blk_eqv_line _ _ Hk1). pose proof (blk_eqv_line _ _ Hk2).
      apply (Hus e e' k1 k2 l); congruence.
    - by apply inv_rebase.
    - assert (Hr2 : reorder (t' <| mem ::= insert b blk2 |>)
                            ((base x) <| mem := <[b := blk2]> (mem (base x)) |>)).
      { destruct Hr. split; try done. simpl. by apply Forall2_insert. }
      rewrite <- Hcx. refine (proj1 (books_proper _ _ Hr2) _).
      eapply books_invalidate; [exact Ht|done|exact Hb|done|done|done|done|done].
    - rewrite length_insert, <- (Forall2_length _ _ _ (r_mem _ _ Hr)), Em, length_insert. done.
    - apply (Hsame (fun blk => isValid blk = true -> tag_ok (cfg (store ch)) blk)); done.
    - apply (Hsame (fun blk => isValid blk = false -> status blk = 0)); done. }
  exists ch2, blk2. split_and!; try done.
  - unfold invalidate_ref, on_tags. rewrite Ex. cbn [mbind outcome_bind].
    unfold upd_ref, on_base. change (store (ch <| tags := x |>)) with (base x).
    by rewrite (updBlk_ok _ _ _ _ Hb1).
  - split; try done. by rewrite Hst.
  - rewrite Hst. by apply list_lookup_insert_eq.
  - assert (Ecm : cached ch2 = lines_map (<[b := blk2]> (mem (store ch))) (<[b := d]> (datas ch))).
    { unfold cached. rewrite Hst. simpl. rewrite (list_insert_id (datas ch)) by done.
      by apply lines_map_reorder. }
    rewrite Ecm, (lines_map_update _ _ b blk d) by done.
    unfold put_line, drop_line. rewrite Hnone. unfold line_of. by rewrite Hv.
Qed.
End laws.
