(* ===== verification/MemLaws.v ===== *)
(** The reference memory: what a request does to the contents of memory and to
    the packet, as a function; the interface a cache assumes of what lies below
    it ([MemSideLaws]); and the proof that [SimpleMemory] honours it. *)
From S2P Require Import Prelude IntMath MemTypes Blk SetAssoc Tags Lines Memory.

#[local] Open Scope Z_scope.

(** ** The reference memory *)

(** Whether a swap overwrites memory, given the old bytes. *)
Definition swap_overwrites (p : CPkt) (old : list Z) : bool :=
  if isCondSwap p then
    if pk_size p =? 8 then bool_decide (le_bytes 8 (extraData (pk_req p)) = old)
    else bool_decide (le_bytes 4 (u32 (extraData (pk_req p))) = old)
  else true.

(** The effect of a request; [sc] is the fate of a store-conditional. *)
Definition ref_effect (sc : bool) (f : Bytes) (p : CPkt) : Bytes * CPkt :=
  let a := pk_addr p in
  let old := fread f a (pk_size p) in
  if decide (pk_cmd p = SwapReq) then
    (if swap_overwrites p old then fwrite f a (pk_data p) else f, p <| pk_data := old |>)
  else if isRead (pk_cmd p) then (f, p <| pk_data := old |>)
  else if isWrite (pk_cmd p) then
    if isLLSC (pk_cmd p)
    then (if sc then fwrite f a (pk_data p) else f, setExtraData (b2Z sc) p)
    else (fwrite f a (pk_data p), p)
  else (f, p).

Definition respond (p : CPkt) : CPkt :=
  if needsResponse (pk_cmd p) then set_cmd (responseCommand (pk_cmd p)) p else p.

(** ** Requests a memory serves *)

Record request_ok (masters lo hi : Z) (p : CPkt) : Prop := {
  rq_cmd : pk_cmd p ∈ [ReadReq; ReadExReq; WriteReq; Writeback; WriteInvalidateReq; UpgradeReq;
                       SCUpgradeReq; LoadLockedReq; StoreCondReq; SwapReq];
  rq_inhibit : memInhibitAsserted p = false;
  rq_addr : is_addr (pk_addr p);
  rq_size : 0 < pk_size p;
  rq_range : lo <= pk_addr p /\ pk_addr p + pk_size p <= hi;
  rq_len : Z.of_nat (length (pk_data p)) = pk_size p;
  rq_master : 0 <= masterId (pk_req p) < masters;
  rq_fetch : isWrite (pk_cmd p) = true -> isInstFetch p = false;
  rq_swap : pk_cmd p = SwapReq -> pk_size p <= 8 /\
              (isCondSwap p = true -> pk_size p = 8 \/ pk_size p = 4)
}.

(** ** The interface *)

Class MemSideLaws (M : Type) `{MemSide M} (masters : Z) := {
  m_inv : M -> Prop;
  m_bytes : M -> Bytes;
  m_lo : M -> Z;
  m_hi : M -> Z;
  atomic_law m p :
    m_inv m -> request_ok masters (m_lo m) (m_hi m) p ->
    exists m' t sc, sendAtomic p m = Ok (m', respond (ref_effect sc (m_bytes m) p).2, t) /\
      m_inv m' /\ m_lo m' = m_lo m /\ m_hi m' = m_hi m /\
      forall x, m_bytes m' x = (ref_effect sc (m_bytes m) p).1 x;
  functional_law m p :
    m_inv m -> pk_cmd p = WriteReq -> is_addr (pk_addr p) -> 0 < pk_size p ->
    m_lo m <= pk_addr p -> pk_addr p + pk_size p <= m_hi m ->
    Z.of_nat (length (pk_data p)) = pk_size p ->
    exists m' p', sendFunctional p m = Ok (m', p') /\ m_inv m' /\ m_lo m' = m_lo m /\
      m_hi m' = m_hi m /\ forall x, m_bytes m' x = fwrite (m_bytes m) (pk_addr p) (pk_data p) x
}.

(** ** Buffers as functions *)

(** The contents of a buffer that starts at address [a]. *)
Definition at_base (a : Z) (buf : list Z) : Bytes := fun x =>
  if x <? a then 0 else default 0 (buf !! Z.to_nat (x - a)).

Lemma rd_spec buf off n a :
  0 <= off -> 0 <= n -> off + n <= Z.of_nat (length buf) ->
  rd buf off n = Ok (fread (at_base a buf) (a + off) n).
Proof.
  intros H1 H2 H3. unfold rd.
  rewrite !(proj2 (Z.leb_le _ _)) by lia. cbn [andb]. f_equal.
  symmetry. apply fread_eq.
  - rewrite length_take, length_drop. lia.
  - intros i Hi. rewrite length_take, length_drop in Hi. rewrite lookup_take, lookup_drop.
    rewrite decide_True by lia. unfold at_base.
    destruct (Z.ltb_spec (a + off + Z.of_nat i) a); [lia|].
    replace (Z.to_nat (a + off + Z.of_nat i - a)) with (Z.to_nat off + i)%nat by lia.
    by destruct (lookup_lt_is_Some_2 buf (Z.to_nat off + i)%nat ltac:(lia)) as [v ->].
Qed.

Lemma wr_spec buf off src a :
  0 <= off -> off + Z.of_nat (length src) <= Z.of_nat (length buf) ->
  exists buf', wr buf off src = Ok buf' /\ length buf' = length buf /\
    forall x, at_base a buf' x = fwrite (at_base a buf) (a + off) src x.
Proof.
  intros H1 H2. unfold wr. rewrite !(proj2 (Z.leb_le _ _)) by lia. cbn [andb].
  eexists. split; [done|]. split.
  - rewrite !length_app, length_take, length_drop. lia.
  - intros x. unfold at_base, fwrite.
    assert (Hlt : length (take (Z.to_nat off) buf) = Z.to_nat off) by (rewrite length_take; lia).
    destruct (Z.ltb_spec x a).
    { destruct (Z.leb_spec (a + off) x); [lia|]. done. }
    destruct (Z.leb_spec (a + off) x); cbn [andb].
    + rewrite lookup_app_r by lia. rewrite Hlt.
      destruct (Z.ltb_spec x (a + off + Z.of_nat (length src))).
      * rewrite lookup_app_l by lia. f_equal. f_equal. lia.
      * rewrite lookup_app_r by lia. rewrite lookup_drop. do 2 f_equal. lia.
    + rewrite lookup_app_l by lia. rewrite lookup_take, decide_True by lia. done.
Qed.

Lemma at_base_ext a buf buf' :
  length buf = length buf' -> (forall x, at_base a buf x = at_base a buf' x) -> buf = buf'.
Proof.
  intros Hl E. apply list_eq. intros i. destruct (decide (i < length buf)%nat) as [Hi|Hi].
  - destruct (lookup_lt_is_Some_2 buf i Hi) as [u Hu].
    destruct (lookup_lt_is_Some_2 buf' i ltac:(lia)) as [v Hv].
    specialize (E (a + Z.of_nat i)). unfold at_base in E.
    destruct (Z.ltb_spec (a + Z.of_nat i) a); [lia|].
    replace (Z.to_nat (a + Z.of_nat i - a)) with i in E by lia. rewrite Hu, Hv in *. simpl in E.
    by subst.
  - by rewrite !lookup_ge_None_2 by lia.
Qed.

Lemma fread_all a buf : fread (at_base a buf) a (Z.of_nat (length buf)) = buf.
Proof.
  apply fread_eq; [done|]. intros i Hi. unfold at_base.
  destruct (Z.ltb_spec (a + Z.of_nat i) a); [lia|].
  replace (Z.to_nat (a + Z.of_nat i - a)) with i by lia.
  by destruct (lookup_lt_is_Some_2 buf i Hi) as [v ->].
Qed.

(** Reading and writing whole payloads. *)
Lemma setData_ok buf off p a :
  0 <= off -> 0 <= pk_size p -> off + pk_size p <= Z.of_nat (length buf) ->
  Z.of_nat (length (pk_data p)) = pk_size p ->
  setData buf off p = Ok (p <| pk_data := fread (at_base a buf) (a + off) (pk_size p) |>).
Proof.
  intros H1 H2 H3 H4. unfold setData. rewrite (rd_spec buf off (pk_size p) a) by done.
  cbn [mbind outcome_bind]. set (bs := fread _ _ _).
  assert (Hl : Z.of_nat (length bs) = pk_size p) by (unfold bs; rewrite length_fread; lia).
  destruct (wr_spec (pk_data p) 0 bs 0) as (d & -> & Hd & E); [lia|lia|].
  cbn [mbind outcome_bind]. assert (d = bs) as ->; [|done].
  apply (at_base_ext 0); [lia|]. intros x. rewrite E. unfold fwrite.
  destruct (Z.leb_spec (0 + 0) x), (Z.ltb_spec x (0 + 0 + Z.of_nat (length bs))); cbn [andb].
  - unfold at_base. destruct (Z.ltb_spec x 0); [lia|]. by replace (x - (0 + 0)) with (x - 0) by lia.
  - unfold at_base. destruct (Z.ltb_spec x 0); [lia|]. by rewrite !lookup_ge_None_2 by lia.
  - unfold at_base. by destruct (Z.ltb_spec x 0); [|lia].
  - lia.
Qed.

Lemma rd_payload p : Z.of_nat (length (pk_data p)) = pk_size p -> rd (pk_data p) 0 (pk_size p) = Ok (pk_data p).
Proof.
  intros Hl. rewrite (rd_spec _ _ _ 0) by lia. rewrite Z.add_0_r, <- Hl. by rewrite fread_all.
Qed.

Lemma writeData_ok p buf off a :
  0 <= off -> off + pk_size p <= Z.of_nat (length buf) ->
  Z.of_nat (length (pk_data p)) = pk_size p ->
  exists buf', writeData p buf off = Ok buf' /\ length buf' = length buf /\
    forall x, at_base a buf' x = fwrite (at_base a buf) (a + off) (pk_data p) x.
Proof.
  intros H1 H2 H3. unfold writeData. rewrite rd_payload by done. cbn [mbind outcome_bind].
  apply wr_spec; lia.
Qed.

Lemma length_le_bytes n v : length (le_bytes n v) = n.
Proof. revert v. induction n; intros; simpl; [done|]. by rewrite IHn. Qed.

Lemma swap_data_ok p buf off a :
  0 <= off -> 0 <= pk_size p <= 8 -> off + pk_size p <= Z.of_nat (length buf) ->
  Z.of_nat (length (pk_data p)) = pk_size p ->
  (isCondSwap p = true -> pk_size p = 8 \/ pk_size p = 4) ->
  let old := fread (at_base a buf) (a + off) (pk_size p) in
  exists buf', swap_data p buf off = Ok (p <| pk_data := old |>, buf', swap_overwrites p old) /\
    length buf' = length buf /\
    (swap_overwrites p old = false -> buf' = buf) /\
    forall x, at_base a buf' x =
      (if swap_overwrites p old then fwrite (at_base a buf) (a + off) (pk_data p)
       else at_base a buf) x.
Proof.
  intros H1 [H2 H2'] H3 H4 H5 old. unfold swap_data.
  rewrite (proj2 (Z.leb_le _ _)) by lia. rewrite rd_payload by done. cbn [mbind outcome_bind].
  rewrite (rd_spec buf off (pk_size p) a) by done. cbn [mbind outcome_bind]. fold old.
  rewrite (setData_ok buf off p a) by done. cbn [mbind outcome_bind]. fold old.
  change (isCondSwap (p <| pk_data := old |>)) with (isCondSwap p).
  change (pk_size (p <| pk_data := old |>)) with (pk_size p).
  change (pk_req (p <| pk_data := old |>)) with (pk_req p).
  destruct (wr_spec buf off (pk_data p) a) as (buf' & Hw & Hl & E); [lia|lia|].
  assert (Hcond : (if isCondSwap p
    then if pk_size p =? 8 then Ok (bool_decide (le_bytes 8 (extraData (pk_req p)) = old))
         else if pk_size p =? 4 then Ok (bool_decide (le_bytes 4 (u32 (extraData (pk_req p))) = old))
         else Err Fatal
    else Ok true) = Ok (swap_overwrites p old)).
  { unfold swap_overwrites. destruct (isCondSwap p); [|done].
    destruct (H5 eq_refl) as [-> | ->]; done. }
  rewrite Hcond. cbn [mbind outcome_bind]. destruct (swap_overwrites p old).
  - rewrite Hw. cbn [mbind outcome_bind]. by exists buf'.
  - by exists buf.
Qed.

(** ** SimpleMemory honours the interface *)

Section simple.
Context (masters : Z).

Definition counters (a : AbstractMemory) : list Z * list Z * list Z * list Z * list Z * list Z :=
  (numReads a, bytesRead a, bytesInstRead a, numWrites a, bytesWritten a, numOther a).
Definition sized (vs : list Z * list Z * list Z * list Z * list Z * list Z) : Prop :=
  let '(v1, v2, v3, v4, v5, v6) := vs in
  Z.of_nat (length v1) = masters /\ Z.of_nat (length v2) = masters /\
  Z.of_nat (length v3) = masters /\ Z.of_nat (length v4) = masters /\
  Z.of_nat (length v5) = masters /\ Z.of_nat (length v6) = masters.

Record simple_inv (m : SimpleMemory) : Prop := {
  si_bytes : exists bytes, pmem (sm_mem m) = Some bytes /\
    Z.of_nat (length bytes) = range_end (sm_mem m) - range_start (sm_mem m) + 1;
  si_start : 0 <= range_start (sm_mem m);
  si_end : range_end (sm_mem m) < 2 ^ 64;
  si_counters : sized (counters (sm_mem m))
}.

Definition simple_bytes (m : SimpleMemory) : Bytes :=
  match pmem (sm_mem m) with
  | Some bytes => at_base (range_start (sm_mem m)) bytes
  | None => fun _ => 0
  end.

Lemma count_master_ok p d v :
  Z.of_nat (length v) = masters -> 0 <= masterId (pk_req p) < masters ->
  exists v', count_master p d v = Ok v' /\ Z.of_nat (length v') = masters.
Proof.
  intros Hl Hm. unfold count_master. destruct (bump_ok (masterId (pk_req p)) d v) as (x & _ & ->); [lia|].
  eexists. split; [done|]. by rewrite length_insert.
Qed.

(** The effect of an access on the backing store and the packet. *)
Definition served (a : AbstractMemory) (p : CPkt) (r : outcome (AbstractMemory * CPkt)) : Prop :=
  exists a' bytes sc, r = Ok (a', (ref_effect sc (at_base (range_start a) bytes) p).2) /\
    pmem a = Some bytes /\
    range_start a' = range_start a /\ range_end a' = range_end a /\
    sized (counters a') /\
    exists bytes', pmem a' = Some bytes' /\ length bytes' = length bytes /\
      forall x, at_base (range_start a) bytes' x =
                (ref_effect sc (at_base (range_start a) bytes) p).1 x.

Context (a : AbstractMemory) (bytes : list Z) (Hb : pmem a = Some bytes).
Context (Hlen : Z.of_nat (length bytes) = range_end a - range_start a + 1).
Context (Hcnt : sized (counters a)).
Context (p : CPkt) (Hp : request_ok masters (range_start a) (range_end a + 1) p).

Lemma mem_off : 0 <= pk_addr p - range_start a /\
  pk_addr p - range_start a + pk_size p <= Z.of_nat (length bytes).
Proof. destruct Hp. lia. Qed.

Lemma mem_swap_ok : pk_cmd p = SwapReq -> served a p (mem_swap p a).
Proof.
  intros Hc. unfold mem_swap. rewrite Hb. pose proof mem_off as [H1 H2]. pose proof Hp as [].
  destruct (rq_swap0 Hc) as [Hs Hcs].
  destruct (swap_data_ok p bytes (pk_addr p - range_start a) (range_start a)) as (b' & -> & Hl & _ & E);
    [lia..|done|]. cbn [mbind outcome_bind].
  replace (range_start a + (pk_addr p - range_start a)) with (pk_addr p) in * by lia.
  change (isInstFetch (p <| pk_data := _ |>)) with (isInstFetch p).
  rewrite rq_fetch0 by (by rewrite Hc). cbn [negb].
  pose proof Hcnt as (K1 & K2 & K3 & K4 & K5 & K6).
  destruct (count_master_ok (p <| pk_data := fread (at_base (range_start a) bytes) (pk_addr p) (pk_size p) |>)
    1 (numOther a)) as (n & E1 & Hn); [done|done|]. cbn [numOther set_field].
  simpl in E1 |- *. rewrite E1. cbn [mbind outcome_bind].
  unfold served. eexists _, bytes, true. split.
  { unfold ref_effect. rewrite (decide_True _ _ Hc). reflexivity. }
  split_and!; try done.
  - exists b'. split_and!; [done|done|]. intros x. rewrite E. unfold ref_effect.
    by rewrite (decide_True _ _ Hc).
Qed.

Lemma mem_read_ok :
  pk_cmd p <> SwapReq -> isRead (pk_cmd p) = true -> isWrite (pk_cmd p) = false ->
  served a p (mem_read p a).
Proof.
  intros Hc Hr Hw. unfold mem_read. rewrite Hw. cbn [negb].
  set (a1 := if isLLSC (pk_cmd p) then mem_trackLoadLocked p a else a).
  assert (Ha1 : pmem a1 = Some bytes /\ range_start a1 = range_start a /\
    range_end a1 = range_end a /\ counters a1 = counters a)
    by (unfold a1; by destruct (isLLSC (pk_cmd p))).
  destruct Ha1 as (Hb1 & Es & Ee & Ecnt). clearbody a1. rewrite Hb1, Es.
  pose proof mem_off as [H1 H2]. pose proof Hp as [].
  rewrite (setData_ok bytes _ p (range_start a)) by lia. cbn [mbind outcome_bind].
  replace (range_start a + (pk_addr p - range_start a)) with (pk_addr p) by lia.
  set (p' := p <| pk_data := _ |>). pose proof Hcnt as Hcnt1. rewrite <- Ecnt in Hcnt1.
  pose proof Hcnt1 as (K1 & K2 & K3 & K4 & K5 & K6).
  destruct (count_master_ok p' 1 (numReads a1)) as (n & -> & Hn); [done|done|]. cbn [mbind outcome_bind].
  destruct (count_master_ok p' (pk_size p') (bytesRead a1)) as (n2 & -> & Hn2); [done|done|].
  cbn [mbind outcome_bind].
  destruct (count_master_ok p' (pk_size p') (bytesInstRead a1)) as (n3 & E3 & Hn3); [done|done|].
  rewrite E3.
  assert (Hi : exists n4, (if isInstFetch p' then Ok n3 else Ok (bytesInstRead a1)) = Ok n4 /\
    Z.of_nat (length n4) = masters) by (destruct (isInstFetch p'); eauto).
  destruct Hi as (n4 & -> & Hn4). cbn [mbind outcome_bind].
  eexists _, bytes, true. split.
  { unfold ref_effect. rewrite decide_False, Hr by done. reflexivity. }
  split_and!; try done.
  - exists bytes. split_and!; [done|done|]. intros x. unfold ref_effect.
    by rewrite decide_False, Hr by done.
Qed.

Lemma writeOK_ok : exists ok a1,
  writeOK p a = (if isLLSC (pk_cmd p) then ok else true,
                 if isLLSC (pk_cmd p) then setExtraData (b2Z ok) p else p, a1) /\
  pmem a1 = pmem a /\ range_start a1 = range_start a /\ range_end a1 = range_end a /\
  counters a1 = counters a.
Proof.
  unfold writeOK, checkLockedAddrList. destruct (lockedAddrList a) as [|l ls].
  - exists false, a. by destruct (isLLSC (pk_cmd p)).
  - generalize (existsb (fun l => (la_addr l =? la_mask (paddr (pk_req p))) &&
      la_matchesContext l (pk_req p)) (l :: ls)). intros ok. exists ok.
    destruct (isLLSC (pk_cmd p)), ok; eexists; split_and!; reflexivity.
Qed.

Lemma mem_write_ok :
  pk_cmd p <> SwapReq -> isRead (pk_cmd p) = false -> isWrite (pk_cmd p) = true ->
  served a p (mem_write p a).
Proof.
  intros Hc Hr Hw. unfold mem_write. destruct writeOK_ok as (ok & a1 & E & Hb1 & Es & Ee & Ecnt). rewrite E. clear E.
  pose proof mem_off as [H1 H2]. pose proof Hp as [].
  set (p1 := if isLLSC (pk_cmd p) then setExtraData (b2Z ok) p else p).
  assert (Hp1 : pk_data p1 = pk_data p /\ pk_size p1 = pk_size p /\ pk_addr p1 = pk_addr p /\
    isInstFetch p1 = isInstFetch p /\ masterId (pk_req p1) = masterId (pk_req p))
    by (unfold p1; by destruct (isLLSC (pk_cmd p))).
  destruct Hp1 as (Ed & Esz & Ea & Ef & Em).
  set (sc := if isLLSC (pk_cmd p) then ok else true).
  assert (Href : ref_effect sc (at_base (range_start a) bytes) p =
    (if sc then fwrite (at_base (range_start a) bytes) (pk_addr p) (pk_data p)
     else at_base (range_start a) bytes, p1)).
  { unfold ref_effect, sc, p1. rewrite decide_False, Hr, Hw by done. by destruct (isLLSC (pk_cmd p)). }
  clearbody p1. pose proof Hcnt as Hcnt1. rewrite <- Ecnt in Hcnt1.
  pose proof Hcnt1 as (K1 & K2 & K3 & K4 & K5 & K6).
  destruct sc.
  2: { exists a1, bytes, false. rewrite Href. rewrite Hb1. split_and!; try done. by exists bytes. }
  rewrite Hb1, Hb, Es.
  destruct (writeData_ok p1 bytes (pk_addr p1 - range_start a) (range_start a))
    as (b' & -> & Hl & E); [lia|lia|by rewrite Ed, Esz|].
  cbn [mbind outcome_bind]. rewrite Ef, (rq_fetch0 Hw). cbn [negb].
  destruct (count_master_ok p1 1 (numWrites a1)) as (n & -> & Hn); [done|by rewrite Em|].
  cbn [mbind outcome_bind].
  destruct (count_master_ok p1 (pk_size p1) (bytesWritten a1)) as (n2 & -> & Hn2); [done|by rewrite Em|].
  cbn [mbind outcome_bind].
  eexists _, bytes, true. rewrite Href. split; [reflexivity|]. split_and!; try done.
  - exists b'. split_and!; [done|done|]. intros x. rewrite E, Ea, Ed.
    by replace (range_start a + (pk_addr p - range_start a)) with (pk_addr p) by lia.
Qed.

Lemma mem_access_ok :
  range_end a < 2 ^ 64 -> 0 <= range_start a ->
  exists a' sc bytes', mem_access p a =
    Ok (a', respond (ref_effect sc (at_base (range_start a) bytes) p).2) /\
    range_start a' = range_start a /\ range_end a' = range_end a /\
    sized (counters a') /\
    pmem a' = Some bytes' /\ length bytes' = length bytes /\
    forall x, at_base (range_start a) bytes' x =
              (ref_effect sc (at_base (range_start a) bytes) p).1 x.
Proof.
  intros He Hs. pose proof Hp as []. unfold mem_access, in_range.
  rewrite (wrap_small 64) by lia. rewrite !(proj2 (Z.leb_le _ _)) by lia. cbn [andb].
  rewrite rq_inhibit0.
  assert (Hserve : served a p
    (if decide (pk_cmd p = SwapReq) then mem_swap p a
     else if isRead (pk_cmd p) then mem_read p a
     else if isWrite (pk_cmd p) then mem_write p a
     else if isInvalidate (pk_cmd p) then Ok (a, p) else Err Fatal)).
  { assert (Hup : (pk_cmd p = UpgradeReq \/ pk_cmd p = SCUpgradeReq) -> served a p (Ok (a, p))).
    { intros Hc. exists a, bytes, true. split_and!; try done; [|exists bytes; split_and!; try done; intros x];
        unfold ref_effect; destruct Hc as [-> | ->]; done. }
    destruct (decide (pk_cmd p = SwapReq)); [by apply mem_swap_ok|].
    destruct (isRead (pk_cmd p)) eqn:Hr; [apply mem_read_ok; try done|
      destruct (isWrite (pk_cmd p)) eqn:Hw; [by apply mem_write_ok|]].
    all: repeat (apply elem_of_cons in rq_cmd0 as [Hc|rq_cmd0]; [rewrite Hc in *; try done; auto|]);
      by apply elem_of_nil in rq_cmd0. }
  destruct Hserve as (a' & bytes0 & sc & -> & Hb0 & H1 & H2 & H3 & bytes' & H4 & H5 & H6).
  rewrite Hb in Hb0. injection Hb0 as <-. cbn [mbind outcome_bind].
  exists a', sc, bytes'. split_and!; try done. unfold respond.
  assert (Hcmd : pk_cmd (ref_effect sc (at_base (range_start a) bytes) p).2 = pk_cmd p).
  { unfold ref_effect. repeat case_match; done. }
  rewrite !Hcmd. destruct (needsResponse (pk_cmd p)) eqn:Hn; [|done].
  unfold makeResponse. rewrite !Hcmd, Hn.
  repeat (apply elem_of_cons in rq_cmd0 as [->|rq_cmd0]; [done|]). by apply elem_of_nil in rq_cmd0.
Qed.
End simple.

#[export] Instance SimpleMemory_laws masters : MemSideLaws SimpleMemory masters.
Proof.
  refine {| m_inv := simple_inv masters; m_bytes := simple_bytes;
            m_lo m := range_start (sm_mem m); m_hi m := range_end (sm_mem m) + 1 |}.
  - intros m p [(bytes & Hb & Hl) Hs He Hcnt] Hp. cbn. unfold simple_recvAtomic.
    destruct (mem_access_ok masters _ bytes Hb Hl Hcnt p Hp He Hs)
      as (a' & sc & bytes' & E & H1 & H2 & H3 & H4 & H5 & H6).
    unfold simple_bytes. rewrite Hb, E. cbn [mbind outcome_bind].
    assert (Hinv : forall m', sm_mem m' = a' -> simple_inv masters m' /\
      range_start (sm_mem m') = range_start (sm_mem m) /\
      range_end (sm_mem m') + 1 = range_end (sm_mem m) + 1 /\
      forall x, match pmem (sm_mem m') with
                | Some bytes => at_base (range_start (sm_mem m')) bytes
                | None => fun _ => 0
                end x = (ref_effect sc (at_base (range_start (sm_mem m)) bytes) p).1 x).
    { intros m' Em. rewrite Em, H4, H1, H2. split_and!; try done.
      split; rewrite Em, ?H1, ?H2; try done. exists bytes'. split; [done|]. lia. }
    unfold getLatency.
    match goal with |- context [if memInhibitAsserted ?q then _ else _] =>
      destruct (memInhibitAsserted q) end; [|destruct (_ =? 0)];
      eexists _, _, sc; (split; [reflexivity|]); apply Hinv; reflexivity.
  - intros m p [(bytes & Hb & Hl) Hs He Hcnt] Hc Ha Hsz Hlo Hhi Hlen. cbn.
    unfold simple_recvFunctional, mem_functionalAccess, in_range.
    rewrite (wrap_small 64) by (unfold is_addr in Ha; lia).
    rewrite !(proj2 (Z.leb_le _ _)) by lia. rewrite Hb, Hc. cbn [andb].
    destruct (writeData_ok p bytes (pk_addr p - range_start (sm_mem m)) (range_start (sm_mem m)))
      as (b' & E1 & Hl' & E); [lia..|]. 
    change (isRead WriteReq) with false. change (isWrite WriteReq) with true.
    rewrite E1. cbn [mbind outcome_bind]. unfold makeResponse. rewrite Hc.
    change (needsResponse WriteReq) with true. change (isRequest WriteReq) with true.
    cbn [mbind outcome_bind]. eexists _, _. split; [done|].
    split_and!; [|done|done|].
    + split; [|done..|done]. simpl. exists b'. split; [done|lia].
    + intros x. unfold simple_bytes. simpl. rewrite E, Hb.
      by replace (range_start (sm_mem m) + (pk_addr p - range_start (sm_mem m))) with (pk_addr p) by lia.
Defined.


