(* ===== verification/View.v ===== *)
(** Memory seen through a cache: the bytes of the line if it is held, those of
    the memory below otherwise; and what filling, evicting and writing a line
    do to that view. *)
From S2P Require Import Prelude IntMath MemTypes Blk SetAssoc Tags Lines Memory MemLaws.
From S2P Require Import CacheLaws.

#[local] Open Scope Z_scope.

Section view.
Context (c : TagConfig) (Hc : cfg_ok c).
Implicit Types (a : gmap Line LineState) (f : Bytes) (l : Line) (st : LineState).

Definition view a f : Bytes := fun x =>
  match a !! line_at c x false with
  | Some st => default 0 (ls_data st !! Z.to_nat (x mod blkSize c))
  | None => f x
  end.

(** A line of the non-secure space inside the memory below. *)
Record line_ok (lo hi : Z) l : Prop := {
  lo_secure : l.2 = false;
  lo_addr : is_addr (line_base c l);
  lo_align : blkAlign c (line_base c l) = line_base c l;
  lo_line : line_at c (line_base c l) false = l;
  lo_range : lo <= line_base c l /\ line_base c l + blkSize c <= hi
}.

(** Clean lines agree with the memory below. *)
Definition coherent (lo hi : Z) a f : Prop := forall l st, a !! l = Some st ->
  line_ok lo hi l /\ Z.of_nat (length (ls_data st)) = blkSize c /\ ls_readable st = true /\
  (ls_dirty st = false -> ls_data st = fread f (line_base c l) (blkSize c)).

Context (lo hi : Z).

Lemma line_at_ok x :
  is_addr x -> lo <= blkAlign c x -> blkAlign c x + blkSize c <= hi ->
  line_ok lo hi (line_at c x false).
Proof.
  intros Hx H1 H2. pose proof (blkAlign_range c Hc x Hx) as [Ha ?]. pose proof (blkSize_pos c Hc).
  split; rewrite ?line_at_base by done; try done; [by apply blkAlign_idem|].
  apply line_at_near; [done..|lia].
Qed.

Lemma in_line l x :
  line_ok lo hi l -> is_addr x ->
  line_at c x false = l <-> line_base c l <= x < line_base c l + blkSize c.
Proof.
  intros Hl Hx. split.
  - intros <-. rewrite line_at_base by done. by apply blkAlign_range.
  - intros Hi. rewrite <- (lo_line _ _ _ Hl).
    apply line_at_near; [done|apply Hl|]. by rewrite (lo_align _ _ _ Hl).
Qed.

(** The offset of an address in its line. *)
Lemma line_mod l x :
  line_ok lo hi l -> is_addr x -> line_at c x false = l -> x mod blkSize c = x - line_base c l.
Proof. intros Hl Hx <-. rewrite line_at_base by done. by apply blkAlign_offset. Qed.

Lemma view_held a f x l st :
  coherent lo hi a f -> is_addr x -> line_at c x false = l -> a !! l = Some st ->
  view a f x = at_base (line_base c l) (ls_data st) x.
Proof.
  intros Ha Hx Hl Hst. unfold view. rewrite Hl, Hst.
  destruct (Ha l st Hst) as (Hlo & _). unfold at_base.
  pose proof (proj1 (in_line l x Hlo Hx) Hl). destruct (Z.ltb_spec x (line_base c l)); [lia|].
  by rewrite (line_mod l x).
Qed.

Lemma view_free a f x : a !! line_at c x false = None -> view a f x = f x.
Proof. intros E. unfold view. by rewrite E. Qed.

Lemma line_top l : line_ok lo hi l -> line_base c l + blkSize c <= 2 ^ 64.
Proof. intros Hl. rewrite <- (lo_align _ _ _ Hl). apply blkAlign_top; [done|apply Hl]. Qed.

(** Reading a whole line through the cache. *)
Lemma fread_view a f l st :
  coherent lo hi a f -> a !! l = Some st ->
  fread (view a f) (line_base c l) (blkSize c) = ls_data st.
Proof.
  intros Ha Hst. destruct (Ha l st Hst) as (Hlo & Hlen & _).
  pose proof (fread_all (line_base c l) (ls_data st)) as E. rewrite Hlen in E.
  transitivity (fread (at_base (line_base c l) (ls_data st)) (line_base c l) (blkSize c)); [|done].
  apply fread_ext. intros x Hx.
  pose proof (line_top l Hlo). pose proof (lo_addr _ _ _ Hlo) as Hb. unfold is_addr in Hb.
  assert (is_addr x) by (unfold is_addr; lia).
  apply (view_held a f x l st); [done|done|by apply in_line|done].
Qed.

(** The memory below changed only outside the clean lines. *)
Lemma coherent_ext a f f' :
  coherent lo hi a f ->
  (forall l st x, a !! l = Some st -> ls_dirty st = false ->
     line_base c l <= x < line_base c l + blkSize c -> f' x = f x) ->
  coherent lo hi a f'.
Proof.
  intros Ha E l st Hst. destruct (Ha l st Hst) as (H1 & H2 & H3 & H4). split_and!; try done.
  intros Hd. rewrite (H4 Hd). apply fread_ext. intros x Hx. symmetry. by eapply E.
Qed.

Lemma view_ext a f f' x :
  (a !! line_at c x false = None -> f' x = f x) -> view a f' x = view a f x.
Proof. intros E. unfold view. destruct (a !! _); [done|]. by apply E. Qed.

(** Writing a line of the memory below leaves other lines alone. *)
Lemma other_line l l' x d f :
  line_ok lo hi l -> line_ok lo hi l' -> l <> l' -> Z.of_nat (length d) = blkSize c ->
  line_base c l' <= x < line_base c l' + blkSize c -> fwrite f (line_base c l) d x = f x.
Proof.
  intros Hl Hl' Hne Hd Hx. apply fwrite_out.
  pose proof (line_top l' Hl'). pose proof (lo_addr _ _ _ Hl') as Hb. unfold is_addr in Hb.
  assert (Ha : is_addr x) by (unfold is_addr; lia).
  destruct (Z_lt_le_dec x (line_base c l)); [by left|]. right. rewrite Hd.
  destruct (Z_le_gt_dec (line_base c l + blkSize c) x); [done|]. exfalso. apply Hne.
  rewrite <- (proj2 (in_line l x Hl Ha)) by lia. by rewrite <- (proj2 (in_line l' x Hl' Ha)).
Qed.

(** Evicting a line: a clean one disappears, a dirty one is written below. *)
Lemma evict_clean a f l st :
  coherent lo hi a f -> a !! l = Some st -> ls_dirty st = false ->
  coherent lo hi (delete l a) f /\
  forall x, is_addr x -> view (delete l a) f x = view a f x.
Proof.
  intros Ha Hst Hd. split.
  - intros l' st' [_ Hst']%lookup_delete_Some. by apply Ha.
  - intros x Hx. destruct (decide (line_at c x false = l)) as [E|Hne].
    + rewrite (view_held a f x l st) by done. rewrite view_free by (by rewrite E, lookup_delete_eq).
      destruct (Ha l st Hst) as (Hlo & Hlen & _ & Hcl). rewrite (Hcl Hd).
      pose proof (proj1 (in_line l x Hlo Hx) E). unfold at_base.
      destruct (Z.ltb_spec x (line_base c l)); [lia|]. rewrite fread_lookup by lia. simpl. f_equal. lia.
    + unfold view. by rewrite lookup_delete_ne.
Qed.

Lemma evict_dirty a f l st :
  coherent lo hi a f -> a !! l = Some st ->
  coherent lo hi (delete l a) (fwrite f (line_base c l) (ls_data st)) /\
  forall x, is_addr x -> view (delete l a) (fwrite f (line_base c l) (ls_data st)) x = view a f x.
Proof.
  intros Ha Hst. destruct (Ha l st Hst) as (Hlo & Hlen & _ & Hcl). split.
  - apply (coherent_ext _ f).
    + intros l' st' [_ Hst']%lookup_delete_Some. by apply Ha.
    + intros l' st' x [Hne Hst']%lookup_delete_Some _ Hx. apply (other_line l l'); try done.
      apply (Ha l' st' Hst').
  - intros x Hx. destruct (decide (line_at c x false = l)) as [E|Hne].
    + rewrite (view_held a f x l st) by done. rewrite view_free by (by rewrite E, lookup_delete_eq).
      pose proof (proj1 (in_line l x Hlo Hx) E). rewrite fwrite_in by lia.
      unfold at_base. destruct (Z.ltb_spec x (line_base c l)); [lia|done].
    + unfold view. rewrite lookup_delete_ne by done.
      destruct (a !! line_at c x false) eqn:E; [done|].
      apply fwrite_out. destruct (Z_lt_le_dec x (line_base c l)); [by left|]. right. rewrite Hlen.
      destruct (Z_le_gt_dec (line_base c l + blkSize c) x); [done|]. exfalso. apply Hne.
      apply in_line; [done|done|lia].
Qed.

(** Setting the state of a line. *)
Lemma put_view a f l st :
  coherent lo hi a f -> line_ok lo hi l -> Z.of_nat (length (ls_data st)) = blkSize c ->
  ls_readable st = true ->
  (ls_dirty st = false -> ls_data st = fread f (line_base c l) (blkSize c)) ->
  coherent lo hi (<[l := st]> a) f /\
  forall x, is_addr x -> view (<[l := st]> a) f x =
    if decide (line_at c x false = l) then at_base (line_base c l) (ls_data st) x else view a f x.
Proof.
  intros Ha Hl Hlen Hr Hd.
  assert (Hco : coherent lo hi (<[l := st]> a) f).
  { intros l' st' [[<- <-]|[_ Hst']]%lookup_insert_Some; [done|]. by apply Ha. }
  split; [done|]. intros x Hx. case_decide as E.
  - apply (view_held _ f x l st Hco Hx E). apply lookup_insert_eq.
  - unfold view. by rewrite lookup_insert_ne.
Qed.

(** Two contents that agree on the addresses. *)
Definition same_mem (f g : Bytes) : Prop := forall x, is_addr x -> f x = g x.

(** A line put in without changing what is seen. *)
Lemma fill_view a f l st :
  coherent lo hi a f -> a !! l = None -> line_ok lo hi l -> ls_readable st = true ->
  ls_data st = fread f (line_base c l) (blkSize c) ->
  coherent lo hi (<[l := st]> a) f /\ same_mem (view (<[l := st]> a) f) (view a f).
Proof.
  intros Ha Hn Hl Hr Hd. pose proof (blkSize_pos c Hc).
  destruct (put_view a f l st Ha Hl) as [Hco Hv]; [rewrite Hd, length_fread; lia|done|done|].
  split; [done|]. intros x Hx. rewrite (Hv x Hx). case_decide as E; [|done].
  rewrite (view_free a f x) by (by rewrite E). pose proof (proj1 (in_line l x Hl Hx) E).
  unfold at_base. destruct (Z.ltb_spec x (line_base c l)); [lia|].
  rewrite Hd, fread_lookup by lia. simpl. f_equal. lia.
Qed.

(** A line whose state changes but whose bytes do not. *)
Lemma restate_view a f l st st' :
  coherent lo hi a f -> a !! l = Some st -> ls_data st' = ls_data st -> ls_readable st' = true ->
  (ls_dirty st' = false -> ls_dirty st = false) ->
  coherent lo hi (<[l := st']> a) f /\ same_mem (view (<[l := st']> a) f) (view a f).
Proof.
  intros Ha Hst Ed Hr Hd. destruct (Ha l st Hst) as (Hl & Hlen & _ & Hcl).
  destruct (put_view a f l st' Ha Hl) as [Hco Hv]; [by rewrite Ed|done|rewrite Ed; auto|].
  split; [done|]. intros x Hx. rewrite (Hv x Hx), Ed. case_decide as E; [|done].
  symmetry. by apply (view_held a f x l st).
Qed.

(** Writing inside a held line is writing in the memory that is seen. *)
Lemma write_view a f l st st' addr bs :
  coherent lo hi a f -> a !! l = Some st -> ls_readable st' = true -> ls_dirty st' = true ->
  line_base c l <= addr -> addr + Z.of_nat (length bs) <= line_base c l + blkSize c ->
  length (ls_data st') = length (ls_data st) ->
  (forall x, at_base (line_base c l) (ls_data st') x =
             fwrite (at_base (line_base c l) (ls_data st)) addr bs x) ->
  coherent lo hi (<[l := st']> a) f /\
  same_mem (view (<[l := st']> a) f) (fwrite (view a f) addr bs).
Proof.
  intros Ha Hst Hr Hd Hlo Hhi Hlen' E. destruct (Ha l st Hst) as (Hl & Hlen & _ & Hcl).
  destruct (put_view a f l st' Ha Hl) as [Hco Hv]; [by rewrite Hlen'|done|congruence|].
  split; [done|]. intros x Hx. rewrite (Hv x Hx). case_decide as El.
  - rewrite E. unfold fwrite. rewrite (view_held a f x l st) by done. done.
  - symmetry. apply fwrite_out. destruct (Z_lt_le_dec x addr); [by left|]. right.
    destruct (Z_le_gt_dec (addr + Z.of_nat (length bs)) x); [done|]. exfalso. apply El.
    apply in_line; [done|done|lia].
Qed.

(** A whole line written through: clean in the cache, and in the memory. *)
Lemma through_view a f l st :
  coherent lo hi a f -> line_ok lo hi l -> ls_readable st = true ->
  Z.of_nat (length (ls_data st)) = blkSize c ->
  let f' := fwrite f (line_base c l) (ls_data st) in
  coherent lo hi (<[l := st]> a) f' /\
  same_mem (view (<[l := st]> a) f') (fwrite (view a f) (line_base c l) (ls_data st)).
Proof.
  intros Ha Hl Hr Hlen f'.
  assert (Hd : coherent lo hi (delete l a) f').
  { apply (coherent_ext _ f).
    - intros l' st' [_ Hst']%lookup_delete_Some. by apply Ha.
    - intros l' st' x [Hne Hst']%lookup_delete_Some _ Hx. apply (other_line l l'); try done.
      apply (Ha l' st' Hst'). }
  destruct (put_view (delete l a) f' l st Hd Hl Hlen Hr) as [Hco Hv].
  { intros _. unfold f'. rewrite <- Hlen. symmetry. apply fread_fwrite. }
  rewrite insert_delete_eq in Hco, Hv. split; [done|]. intros x Hx. rewrite (Hv x Hx).
  case_decide as E.
  - pose proof (proj1 (in_line l x Hl Hx) E). rewrite fwrite_in by lia.
    unfold at_base. by destruct (Z.ltb_spec x (line_base c l)); [lia|].
  - assert (Hout : x < line_base c l \/ line_base c l + blkSize c <= x).
    { destruct (Z_lt_le_dec x (line_base c l)); [by left|]. right.
      destruct (Z_le_gt_dec (line_base c l + blkSize c) x); [done|]. exfalso. apply E.
      apply in_line; [done|done|lia]. }
    rewrite (fwrite_out (view a f)) by (rewrite Hlen; lia).
    unfold view. rewrite lookup_delete_ne by done. destruct (a !! _); [done|].
    apply fwrite_out. rewrite Hlen. lia.
Qed.
End view.

#[export] Instance same_mem_equiv : Equivalence same_mem.
Proof. split; [done|intros f g E x Hx; by rewrite E|intros f g h E1 E2 x Hx; by rewrite E1, E2]. Qed.
