(* ===== verification/Atomic.v ===== *)
(** The atomic transaction: a top-level cache with any lawful replacement policy
    over any lawful memory answers every processor request the way the memory
    alone would, and keeps its invariants. *)
From S2P Require Import Prelude IntMath MemTypes Blk CacheSet SetAssoc Tags Policy Account.
From S2P Require Import Lines Memory Mshr Cache CacheSide CacheLaws MemLaws View.

#[local] Open Scope Z_scope.

(** ** Requests of a processor *)

Record cpu_request (env : Env) (c : TagConfig) (lo hi : Z) (p : CPkt) : Prop := {
  cr_cmd : pk_cmd p ∈ [ReadReq; WriteReq; LoadLockedReq; StoreCondReq; SwapReq];
  cr_inhibit : memInhibitAsserted p = false;
  cr_secure : pk_secure p = false;
  cr_addr : is_addr (pk_addr p);
  cr_paddr : paddr (pk_req p) = pk_addr p;
  cr_size : 0 < pk_size p;
  cr_line : pk_addr p - blkAlign c (pk_addr p) + pk_size p <= blkSize c;
  cr_range : lo <= blkAlign c (pk_addr p) /\ blkAlign c (pk_addr p) + blkSize c <= hi;
  cr_len : Z.of_nat (length (pk_data p)) = pk_size p;
  cr_master : 0 <= masterId (pk_req p) < maxMasters env;
  cr_fetch : isWrite (pk_cmd p) = true -> isInstFetch p = false;
  cr_swap : pk_cmd p = SwapReq -> pk_size p <= 8 /\
              (isCondSwap p = true -> pk_size p = 8 \/ pk_size p = 4);
  cr_clear : isClearLL p = false
}.

Lemma cpu_cmd env c lo hi p :
  cpu_request env c lo hi p ->
  pk_cmd p = ReadReq \/ pk_cmd p = WriteReq \/ pk_cmd p = LoadLockedReq \/
  pk_cmd p = StoreCondReq \/ pk_cmd p = SwapReq.
Proof. intros [Hc]. set_solver. Qed.

(** ** The reference memory, by the bytes it replaces *)

Definition ref_bytes (sc : bool) (old : list Z) (p : CPkt) : option (list Z) :=
  if decide (pk_cmd p = SwapReq) then
    if swap_overwrites p old then Some (pk_data p) else None
  else if isRead (pk_cmd p) then None
  else if isWrite (pk_cmd p) then
    if isLLSC (pk_cmd p) then if sc then Some (pk_data p) else None else Some (pk_data p)
  else None.
Definition ref_packet (sc : bool) (old : list Z) (p : CPkt) : CPkt :=
  if decide (pk_cmd p = SwapReq) then p <| pk_data := old |>
  else if isRead (pk_cmd p) then p <| pk_data := old |>
  else if isWrite (pk_cmd p) then
    if isLLSC (pk_cmd p) then setExtraData (b2Z sc) p else p
  else p.
Definition overwrite (f : Bytes) (a : Z) (o : option (list Z)) : Bytes :=
  match o with Some bs => fwrite f a bs | None => f end.

Lemma ref_effect_bytes sc f p :
  ref_effect sc f p =
    (overwrite f (pk_addr p) (ref_bytes sc (fread f (pk_addr p) (pk_size p)) p),
     ref_packet sc (fread f (pk_addr p) (pk_size p)) p).
Proof.
  unfold ref_effect, ref_bytes, ref_packet. repeat case_match; try done; simplify_eq/=; try done.
Qed.

Lemma ref_bytes_len sc old p bs : ref_bytes sc old p = Some bs -> bs = pk_data p.
Proof. unfold ref_bytes. repeat case_match; naive_solver. Qed.

(** ** Offsets *)

Lemma getOffset_ok c p :
  cfg_ok c -> is_addr (pk_addr p) ->
  getOffset (blkSize c) p = pk_addr p - blkAlign c (pk_addr p).
Proof.
  intros Hc Ha. unfold getOffset. rewrite wrap_small.
  2: { pose proof (blkSize_pos c Hc). pose proof (blkSize_bound c Hc). lia. }
  rewrite <- (ok_blkMask c Hc), blkMask_ones by done. destruct Hc.
  rewrite Z.land_ones, <- ok_blkSize by lia. rewrite blkAlign_sub by done. lia.
Qed.

Lemma extractBlkOffset_ok c addr :
  cfg_ok c -> is_addr addr -> extractBlkOffset c addr = addr - blkAlign c addr.
Proof.
  intros Hc Ha. unfold extractBlkOffset. rewrite blkMask_ones by done. pose proof Hc as [].
  rewrite Z.land_ones, <- ok_blkSize by lia. rewrite blkAlign_sub by done.
  pose proof (Z.mod_pos_bound addr (blkSize c)). pose proof (blkSize_pos c Hc).
  assert (blkSize c <= 2 ^ 31) by (rewrite ok_blkSize; apply Z.pow_le_mono_r; lia).
  rewrite swrap_small by lia. lia.
Qed.

(** ** Satisfying a request from a block *)

Section satisfy.
Context {T : Type} `{PolicyLaws T}.
Context (env : Env) (lo hi : Z).
Implicit Types (ch : Cache T) (p : CPkt).

(** The block [b] holds the line of the request. *)
Record serves ch p b blk d : Prop := {
  sv_ok : cache_ok env ch;
  sv_req : cpu_request env (cfg (store ch)) lo hi p;
  sv_held : held (mem (store ch)) (datas ch)
              (line_at (cfg (store ch)) (pk_addr p) false) b blk d
}.

(** What [satisfyCpuSideRequest] leaves: the reference effect on the bytes of
    the line, dirty if they changed. *)
Definition satisfied ch p d blk (r : outcome (Cache T * CPkt)) : Prop :=
  let la := blkAlign (cfg (store ch)) (pk_addr p) in
  exists ch' p' sc st', r = Ok (ch', p') /\ cache_ok env ch' /\ kin ch ch' /\
    cached ch' = <[line_at (cfg (store ch)) (pk_addr p) false := st']> (cached ch) /\
    ls_readable st' = isReadable blk /\ length (ls_data st') = length d /\
    (forall x, at_base la (ls_data st') x = (ref_effect sc (at_base la d) p).1 x) /\
    pk_data p' = pk_data (ref_effect sc (at_base la d) p).2 /\
    pk_req p' = pk_req (ref_effect sc (at_base la d) p).2 /\ pk_cmd p' = pk_cmd p /\
    pk_addr p' = pk_addr p /\ pk_size p' = pk_size p /\
    (ls_dirty st' = true \/ ls_data st' = d /\ ls_dirty st' = isDirty blk).

Section one.
Context ch p b blk d (Hs : serves ch p b blk d).
Let c := cfg (store ch).
Let la := blkAlign c (pk_addr p).
Let l := line_at c (pk_addr p) false.

Lemma sv_cfg : cfg_ok c.
Proof. apply (sv_ok _ _ _ _ _ Hs). Qed.
Lemma sv_line : (blk_set blk, tag blk, isSecure blk) = l /\ isValid blk = true.
Proof.
  destruct (sv_held _ _ _ _ _ Hs) as (_ & _ & Hl). unfold line_of in Hl.
  destruct (isValid blk); [|done]. split; [|done]. unfold l, c. congruence.
Qed.
Lemma sv_len : Z.of_nat (length d) = blkSize c.
Proof.
  destruct (sv_held _ _ _ _ _ Hs) as (_ & Hd & _). pose proof (sv_ok _ _ _ _ _ Hs) as Hok.
  rewrite (co_data _ _ Hok _ _ Hd). apply (co_blkSize _ _ Hok).
Qed.
Lemma sv_off : 0 <= pk_addr p - la /\ pk_addr p - la + pk_size p <= Z.of_nat (length d) /\
  la + (pk_addr p - la) = pk_addr p.
Proof.
  rewrite sv_len. pose proof (sv_req _ _ _ _ _ Hs) as []. unfold la, c.
  pose proof (blkAlign_range _ sv_cfg (pk_addr p) ltac:(done)). unfold c in *. lia.
Qed.
Lemma sv_base : forall f, fread f (la + (pk_addr p - la)) (pk_size p) = fread f (pk_addr p) (pk_size p).
Proof. intros f. by destruct sv_off as (_ & _ & ->). Qed.

(** The end of a write: new bytes in the block, which becomes dirty. *)
Lemma dirty_write ch1 blk1 d' :
  cache_ok env ch1 -> kin ch ch1 -> mem (store ch1) !! b = Some blk1 -> keeps blk blk1 ->
  datas ch1 = datas ch -> status blk1 = status blk ->
  (forall l', l' <> l -> cached ch1 !! l' = cached ch !! l') ->
  length d' = length d ->
  exists ch', (ch2 ← set_data (Way b) d' ch1; set_bits BlkDirty (Way b) ch2) = Ok ch' /\
    cache_ok env ch' /\ kin ch ch' /\
    cached ch' = <[l := MkLine true (isWritable blk) (isReadable blk) d']> (cached ch).
Proof.
  intros Hok1 Hk1 Hb1 Hkeep Hd1 Hst Hc1 Hlen.
  destruct (sv_held _ _ _ _ _ Hs) as (Hb & Hd & Hl). destruct sv_line as [El Hv].
  assert (Hv1 : isValid blk1 = true) by (unfold isValid in *; by rewrite Hst).
  assert (El1 : (blk_set blk1, tag blk1, isSecure blk1) = l).
  { rewrite <- El. destruct Hkeep as ((_ & _ & _ & _ & ->) & -> & -> & _). done. }
  destruct (set_data_ok env ch1 b blk1 d d') as (ch2 & E2 & Hok2 & Hk2 & Es2 & Hd2 & Hc2);
    [done|done|by rewrite Hd1|done|]. rewrite E2. cbn [mbind outcome_bind]. unfold set_bits.
  destruct (upd_status_ok env ch2 b blk1 (fun s => Z.lor s BlkDirty))
    as (ch3 & E3 & Hok3 & Hk3 & _ & Em3 & Hd3 & Hc3);
    [done|by rewrite Es2|done|by rewrite isValid_bit in Hv1; status_bits; rewrite Hv1|by status_bits|].
  exists ch3. split_and!; [done|done|by eapply kin_trans; [|eapply kin_trans]|].
  rewrite (Hc3 d'), Hc2, El1, insert_insert_eq by
    (done || (rewrite Hd2; apply list_lookup_insert_eq; rewrite Hd1; by eapply lookup_lt_Some)).
  assert (Els : line_state (blk1 <| status := Z.lor (status blk1) BlkDirty |>) d' =
    MkLine true (isWritable blk) (isReadable blk) d').
  { unfold line_state. rewrite !isWritable_bit, !isReadable_bit, !isDirty_bit.
    rewrite Hst. f_equal; by status_bits. }
  rewrite Els. apply map_eq. intros l'. destruct (decide (l' = l)) as [->|Hne].
  - by rewrite !lookup_insert_eq.
  - rewrite !lookup_insert_ne by done. by apply Hc1.
Qed.

Lemma sv_blkSize : c_blkSize (par ch) = blkSize c.
Proof. apply (co_blkSize _ _ (sv_ok _ _ _ _ _ Hs)). Qed.

Lemma sv_getOffset p' : pk_addr p' = pk_addr p -> getOffset (blkSize c) p' = pk_addr p - la.
Proof.
  intros E. rewrite <- E at 1. unfold la. rewrite <- E. apply getOffset_ok; [apply sv_cfg|].
  rewrite E. apply (sv_req _ _ _ _ _ Hs).
Qed.

(** Refetching the block after its bookkeeping fields changed. *)
Lemma sv_rewrite f :
  same_books blk (f blk) -> tag (f blk) = tag blk -> status (f blk) = status blk ->
  exists ch1, upd_ref (Way b) f ch = Ok ch1 /\ cache_ok env ch1 /\ kin ch ch1 /\
    mem (store ch1) !! b = Some (f blk) /\ datas ch1 = datas ch /\ cached ch1 = cached ch.
Proof.
  intros Hb1 Ht Hst. destruct (sv_held _ _ _ _ _ Hs) as (Hb & Hd & Hl).
  destruct sv_line as [El Hv]. pose proof (sv_ok _ _ _ _ _ Hs) as Hok.
  destruct (upd_ref_ok env ch b blk f Hok Hb) as (ch1 & E & Hok1 & Hk1 & _ & Em & Hd1 & Hc1);
    [by apply keeps_fields|]. exists ch1. split_and!; try done.
  - rewrite Em. apply list_lookup_insert_eq. by eapply lookup_lt_Some.
  - rewrite (Hc1 Hv d Hd), El. apply insert_id. unfold line_state.
    rewrite !isDirty_bit, !isWritable_bit, !isReadable_bit, Hst,
      <- isDirty_bit, <- isWritable_bit, <- isReadable_bit.
    eapply cached_held; [done|]. done.
Qed.

Lemma cmpAndSwap_ok : pk_cmd p = SwapReq -> satisfied ch p d blk (cmpAndSwap (Way b) p ch).
Proof.
  intros Hc. destruct (sv_held _ _ _ _ _ Hs) as (Hb & Hd & Hl).
  pose proof (sv_req _ _ _ _ _ Hs) as Hr. pose proof Hr as [].
  destruct sv_off as (H1 & H2 & H3). destruct (cr_swap0 Hc) as [Hsz Hcs].
  unfold cmpAndSwap. rewrite Hc. change (isRequest SwapReq) with true.
  unfold get_data. rewrite (aget_ok _ _ _ Hd). cbn [mbind outcome_bind].
  fold c. rewrite (extractBlkOffset_ok c _ sv_cfg cr_addr0).
  destruct (swap_data_ok p d (pk_addr p - la) la) as (d' & E & Hlen & Hsame & Ed); [lia..|done|].
  unfold la in E at 1. rewrite E. cbn [mbind outcome_bind]. rewrite H3 in *.
  set (old := fread (at_base la d) (pk_addr p) (pk_size p)) in *.
  assert (Href : ref_effect true (at_base la d) p =
    (if swap_overwrites p old then fwrite (at_base la d) (pk_addr p) (pk_data p) else at_base la d,
     p <| pk_data := old |>)).
  { unfold ref_effect. rewrite (decide_True _ _ Hc). reflexivity. }
  pose proof (sv_ok _ _ _ _ _ Hs) as Hok. destruct sv_line as [El Hv].
  destruct (swap_overwrites p old) eqn:Hsw.
  - destruct (dirty_write ch blk d') as (ch' & Ew & Hok' & Hk' & Hc'); try done.
    { by apply keeps_fields. }
    destruct (set_data (Way b) d' ch) as [ch2|]; cbn [mbind outcome_bind] in Ew |- *; [|done].
    rewrite Ew. cbn [mbind outcome_bind]. unfold satisfied. fold c la l.
    eexists ch', _, true, _. split; [done|]. rewrite Href. split_and!; try done. by left.
  - unfold satisfied. fold c la l.
    eexists ch, _, true, (line_state blk d). split; [done|]. rewrite Href. split_and!; try done.
    + rewrite insert_id; [done|]. eapply cached_held; [done|]. done.
    + by right.
Qed.

Lemma satisfy_write_ok :
  pk_cmd p = WriteReq \/ pk_cmd p = StoreCondReq ->
  satisfied ch p d blk (satisfy_write (Way b) p ch).
Proof.
  intros Hc. destruct (sv_held _ _ _ _ _ Hs) as (Hb & Hd & Hl).
  pose proof (sv_req _ _ _ _ _ Hs) as Hr. pose proof Hr as [].
  destruct sv_off as (H1 & H2 & H3). destruct sv_line as [El Hv].
  unfold satisfy_write, get_ref. rewrite (getBlk_ok _ _ _ Hb). cbn [mbind outcome_bind].
  set (ok := if isLLSC (pk_cmd p)
             then existsb (fun l => matchesContext l (req (hdr p))) (lockList blk) else true).
  set (rq := if isLLSC (pk_cmd p) then (pk_req p) <| extraData := b2Z ok |> else pk_req p).
  assert (Hcw : exists ls, checkWrite (hdr p) blk = (ok, rq, blk <| lockList := ls |>)).
  { exists (lockList (checkWrite (hdr p) blk).2). subst ok rq.
    unfold checkWrite, pk_cmd, pk_req. destruct (isLLSC (cmd (hdr p))); reflexivity. }
  destruct Hcw as (ls & ->). set (p1 := set_req rq p).
  assert (Hp1 : pk_data p1 = pk_data p /\ pk_size p1 = pk_size p /\ pk_addr p1 = pk_addr p /\
    pk_cmd p1 = pk_cmd p) by done. destruct Hp1 as (Ep1 & Ep2 & Ep3 & Ep4).
  destruct (sv_rewrite (fun _ => blk <| lockList := ls |>)) as (ch1 & E1 & Hok1 & Hk1 & Hb1 & Hd1 & Hc1);
    [done|done|done|]. rewrite E1. cbn [mbind outcome_bind].
  assert (Href : ref_effect ok (at_base la d) p =
    (if ok then fwrite (at_base la d) (pk_addr p) (pk_data p) else at_base la d, p1)).
  { unfold ref_effect, p1, rq, ok, setExtraData. destruct Hc as [Hc|Hc]; rewrite Hc; [|done].
    cbn. f_equal. by destruct p as [[]]. }
  assert (Hbytes : exists d', length d' = length d /\
    (forall x, at_base la d' x = (ref_effect ok (at_base la d) p).1 x) /\
    (ch2 ← (if ok then d ← get_data (Way b) ch1; d ← writeDataToBlock p1 d (c_blkSize (par ch1));
                       set_data (Way b) d ch1 else Ok ch1);
     set_bits BlkDirty (Way b) ch2) =
    (ch2 ← set_data (Way b) d' ch1; set_bits BlkDirty (Way b) ch2)).
  { rewrite Href. cbn [fst]. unfold get_data. rewrite (aget_ok (datas ch1) b d) by (by rewrite Hd1).
    cbn [mbind outcome_bind]. destruct ok.
    - unfold writeDataToBlock. rewrite (kin_par _ _ Hk1), sv_blkSize, (sv_getOffset p1) by done.
      destruct (writeData_ok p1 d (pk_addr p - la) la) as (d' & -> & Hl' & E); [lia|by rewrite Ep2|by rewrite Ep1, Ep2|].
      exists d'. rewrite H3 in E. by split_and!.
    - exists d. split_and!; [done|done|]. unfold set_data, aset.
      rewrite decide_True by (rewrite Hd1; by eapply lookup_lt_Some). cbn [mbind outcome_bind].
      rewrite list_insert_id by (by rewrite Hd1). by destruct ch1. }
  destruct Hbytes as (d' & Hlen & Hbytes & Heq).
  destruct (dirty_write ch1 (blk <| lockList := ls |>) d') as (ch' & Ew & Hok' & Hk' & Hc'); try done.
  { by apply keeps_fields. }
  { intros. by rewrite Hc1. }
  rewrite Ew in Heq.
  match goal with |- satisfied _ _ _ _ (?e ≫= _) => destruct e as [ch2|] eqn:E2 end;
    cbn [mbind outcome_bind] in Heq |- *; [|done].
  rewrite Heq. cbn [mbind outcome_bind]. unfold satisfied. fold c la l.
  eexists ch', p1, ok, _. split; [done|]. rewrite Href. rewrite Href in Hbytes.
  split_and!; try done. by left.
Qed.

Lemma satisfy_read_ok :
  pk_cmd p = ReadReq \/ pk_cmd p = LoadLockedReq -> isTopLevel (par ch) = true ->
  satisfied ch p d blk (satisfy_read env (Way b) false false p ch).
Proof.
  intros Hc Htop. destruct (sv_held _ _ _ _ _ Hs) as (Hb & Hd & Hl).
  pose proof (sv_req _ _ _ _ _ Hs) as Hr. pose proof Hr as [].
  destruct sv_off as (H1 & H2 & H3). destruct sv_line as [El Hv].
  unfold satisfy_read.
  assert (Hll : exists ch1 blk1,
    (if isLLSC (pk_cmd p) then
       blk ← get_ref (Way b) ch; blk ← trackLoadLocked (hdr p) blk; upd_ref (Way b) (fun _ => blk) ch
     else Ok ch) = Ok ch1 /\ cache_ok env ch1 /\ kin ch ch1 /\
    mem (store ch1) !! b = Some blk1 /\ datas ch1 = datas ch /\ cached ch1 = cached ch /\
    status blk1 = status blk).
  { destruct Hc as [Hc|Hc]; rewrite Hc.
    - change (isLLSC ReadReq) with false. cbv iota. exists ch, blk.
      split_and!; try done. apply (sv_ok _ _ _ _ _ Hs).
    - change (isLLSC LoadLockedReq) with true. cbv iota. unfold get_ref.
      rewrite (getBlk_ok _ _ _ Hb). cbn [mbind outcome_bind]. unfold trackLoadLocked.
      change (cmd (hdr p)) with (pk_cmd p). rewrite Hc. change (isLLSC LoadLockedReq) with true.
      cbv iota. cbn [mbind outcome_bind].
      destruct (sv_rewrite (fun _ => blk <| lockList ::= cons (Lock_of_Request (req (hdr p))) |>))
        as (ch1 & E1 & Hok1 & Hk1 & Hb1 & Hd1 & Hc1); [done|done|done|].
      rewrite E1. eexists ch1, _. by split_and!. }
  destruct Hll as (ch1 & blk1 & -> & Hok1 & Hk1 & Hb1 & Hd1 & Hc1 & Hst).
  cbn [mbind outcome_bind]. unfold get_data. rewrite (aget_ok (datas ch1) b d) by (by rewrite Hd1).
  cbn [mbind outcome_bind]. unfold setDataFromBlock.
  rewrite (kin_par _ _ Hk1), sv_blkSize, (sv_getOffset p) by done.
  rewrite (setData_ok d _ p la) by lia. cbn [mbind outcome_bind]. rewrite H3.
  set (old := fread (at_base la d) (pk_addr p) (pk_size p)).
  assert (Href : ref_effect true (at_base la d) p = (at_base la d, p <| pk_data := old |>)).
  { unfold ref_effect. destruct Hc as [Hc|Hc]; rewrite Hc; reflexivity. }
  assert (Hsat : forall p', pk_data p' = old -> pk_req p' = pk_req p -> pk_cmd p' = pk_cmd p ->
    pk_addr p' = pk_addr p -> pk_size p' = pk_size p ->
    satisfied ch p d blk (Ok (ch1, p'))).
  { intros p' E1 E2 E3 E4 E5. unfold satisfied. fold c la l.
    eexists ch1, p', true, (line_state blk d). rewrite Href. split_and!; try done.
    - rewrite Hc1, insert_id; [done|]. eapply cached_held; [apply (sv_ok _ _ _ _ _ Hs)|done].
    - by right. }
  change (pk_size (p <| pk_data := old |>)) with (pk_size p).
  destruct (negb (pk_size p =? blkSize c)); [by apply Hsat|].
  unfold get_ref. rewrite (getBlk_ok _ _ _ Hb1). cbn [mbind outcome_bind].
  change (pk_cmd (p <| pk_data := old |>)) with (pk_cmd p).
  replace (needsExclusive (pk_cmd p)) with false by (by destruct Hc as [-> | ->]).
  rewrite Htop. cbn [negb andb].
  repeat case_match; by apply Hsat.
Qed.

Lemma satisfyCpuSideRequest_ok :
  isTopLevel (par ch) = true ->
  satisfied ch p d blk (satisfyCpuSideRequest env p (Way b) false false ch).
Proof.
  intros Htop. destruct (sv_held _ _ _ _ _ Hs) as (Hb & Hd & Hl).
  pose proof (sv_req _ _ _ _ _ Hs) as Hr. destruct sv_off as (H1 & H2 & H3).
  destruct sv_line as [_ Hv]. unfold satisfyCpuSideRequest, get_ref.
  replace (isRequest (pk_cmd p)) with true
    by (by destruct (cpu_cmd _ _ _ _ _ Hr) as [->|[->|[->|[->| ->]]]]).
  rewrite (getBlk_ok _ _ _ Hb). cbn [mbind outcome_bind]. rewrite Hv.
  rewrite sv_blkSize, (sv_getOffset p) by done.
  rewrite (proj2 (Z.leb_le _ _)) by (rewrite <- sv_len; done).
  destruct (cpu_cmd _ _ _ _ _ Hr) as [Hc|[Hc|[Hc|[Hc|Hc]]]]; rewrite Hc; simpl;
    [apply satisfy_read_ok|apply satisfy_write_ok|apply satisfy_read_ok|apply satisfy_write_ok
    |by apply cmpAndSwap_ok]; auto.
Qed.
End one.
End satisfy.

(** ** Effects on what is seen *)

Section seen.
Context (c : TagConfig) (Hc : cfg_ok c) (lo hi : Z).
Implicit Types (a : gmap Line LineState) (f : Bytes) (p : CPkt).

Lemma ref_effect_ext sc f g p :
  (forall x, pk_addr p <= x < pk_addr p + pk_size p -> f x = g x) ->
  (ref_effect sc f p).2 = (ref_effect sc g p).2 /\
  ref_bytes sc (fread f (pk_addr p) (pk_size p)) p = ref_bytes sc (fread g (pk_addr p) (pk_size p)) p.
Proof. intros E. rewrite !ref_effect_bytes. simpl. by rewrite (fread_ext f g) by done. Qed.

Lemma ref_effect_same sc f g p :
  is_addr (pk_addr p) -> pk_addr p + pk_size p <= 2 ^ 64 ->
  same_mem f g -> (ref_effect sc f p).2 = (ref_effect sc g p).2 /\
    same_mem (ref_effect sc f p).1 (ref_effect sc g p).1.
Proof.
  intros Ha Hs E. destruct (ref_effect_ext sc f g p) as [E1 E2].
  { intros x Hx. apply E. unfold is_addr in *. lia. }
  split; [done|]. rewrite !ref_effect_bytes. simpl. rewrite E2. clear E1 E2. intros x Hx.
  unfold overwrite. destruct (ref_bytes _ _ _) as [bs|]; [|by apply E].
  unfold fwrite. by rewrite (E x Hx).
Qed.

(** A request satisfied from the block that holds its line. *)
Lemma satisfied_view a f p l st st' sc :
  coherent c lo hi a f -> a !! l = Some st -> l = line_at c (pk_addr p) false ->
  is_addr (pk_addr p) -> 0 < pk_size p ->
  pk_addr p - blkAlign c (pk_addr p) + pk_size p <= blkSize c ->
  Z.of_nat (length (pk_data p)) = pk_size p ->
  ls_readable st' = ls_readable st -> length (ls_data st') = length (ls_data st) ->
  (forall x, at_base (blkAlign c (pk_addr p)) (ls_data st') x =
     (ref_effect sc (at_base (blkAlign c (pk_addr p)) (ls_data st)) p).1 x) ->
  (ls_dirty st' = true \/ ls_data st' = ls_data st /\ ls_dirty st' = ls_dirty st) ->
  coherent c lo hi (<[l := st']> a) f /\
  same_mem (view c (<[l := st']> a) f) (ref_effect sc (view c a f) p).1 /\
  (ref_effect sc (at_base (blkAlign c (pk_addr p)) (ls_data st)) p).2 =
    (ref_effect sc (view c a f) p).2.
Proof.
  intros Ha Hst El Hp Hsz Hline Hlen Hr Hl E Hd.
  assert (Hbase : line_base c l = blkAlign c (pk_addr p)) by (rewrite El; by apply line_at_base).
  destruct (Ha l st Hst) as (Hlo & Hlen0 & Hrd & Hcl).
  pose proof (blkAlign_range c Hc _ Hp) as [_ Hbr]. pose proof (line_top c Hc lo hi l Hlo).
  assert (Hagree : forall x, pk_addr p <= x < pk_addr p + pk_size p ->
    at_base (blkAlign c (pk_addr p)) (ls_data st) x = view c a f x).
  { intros x Hx. assert (is_addr x) by (unfold is_addr in *; lia). rewrite <- Hbase. symmetry.
    apply (view_held c Hc lo hi a f x l st Ha); [done| |done].
    apply (in_line c Hc lo hi l x Hlo); [done|lia]. }
  destruct (ref_effect_ext sc _ _ p Hagree) as [E1 E2].
  enough (coherent c lo hi (<[l := st']> a) f /\
    same_mem (view c (<[l := st']> a) f) (ref_effect sc (view c a f) p).1) as [? ?] by done.
  clear E1. rewrite ref_effect_bytes in E |- *. cbn [fst] in E |- *. rewrite <- E2.
  destruct (ref_bytes sc _ p) as [bs|] eqn:Eb; cbn [overwrite] in *; clear E2.
  - apply ref_bytes_len in Eb as ->. destruct Hd as [Hd|[Hsame Hd]].
    + apply (write_view c Hc lo hi a f l st st'); try done; try congruence; try lia.
    + (* the bytes written are those that were there *)
      destruct (restate_view c Hc lo hi a f l st st') as [G1 G2]; try done; try congruence.
      split; [done|]. rewrite G2. intros x Hx. unfold fwrite at 1.
      destruct (Z.leb_spec (pk_addr p) x), (Z.ltb_spec x (pk_addr p + Z.of_nat (length (pk_data p))));
        try done. cbn [andb]. rewrite <- Hagree by lia. rewrite <- Hsame, E. by rewrite fwrite_in by lia.
  - assert (Hsame : ls_data st' = ls_data st) by (by eapply at_base_ext).
    destruct (put_view c Hc lo hi a f l st' Ha Hlo) as [G1 G2]; [by rewrite Hsame|congruence| |].
    { destruct Hd as [->|[_ ->]]; [done|]. rewrite Hsame. done. }
    split; [done|]. intros x Hx. rewrite (G2 x Hx). case_decide as Ex; [|done].
    rewrite Hsame. symmetry. by apply (view_held c Hc lo hi a f x l st).
Qed.

(** ** Pending write-backs *)

Definition pend f (wbs : list CPkt) : Bytes :=
  foldl (fun f wb => fwrite f (pk_addr wb) (pk_data wb)) f wbs.

Lemma pend_ext f g wbs : (forall x, f x = g x) -> forall x, pend f wbs x = pend g wbs x.
Proof.
  revert f g. induction wbs as [|wb wbs IH]; intros f g E; [done|]. simpl. apply IH.
  intros x. unfold fwrite. by rewrite E.
Qed.

Lemma evict_view env a f w blk d :
  coherent c lo hi a f -> evicted c a w blk d -> owned env blk ->
  coherent c lo hi (drop_line blk a) (pend f w) /\
  same_mem (view c (drop_line blk a) (pend f w)) (view c a f) /\
  Forall (fun wb => pk_cmd wb = Writeback /\ request_ok (maxMasters env) lo hi wb) w.
Proof.
  intros Ha He Hown. unfold drop_line, line_of.
  destruct He as [(Hv & Hd & Hst & ->)|[Hcl ->]].
  - rewrite Hv. cbn [pend foldl].
    destruct (evict_dirty c Hc lo hi a f _ _ Ha Hst) as [G1 G2].
    destruct (Ha _ _ Hst) as (Hlo & Hlen & _). simpl in Hlen. split_and!; [done|done|].
    apply Forall_singleton. split; [done|]. destruct (Hown Hv) as [_ Hm].
    destruct Hlo as [_ L2 _ _ L5]. unfold line_base in *. simpl in *.
    split; try done.
    + set_solver.
    + change (0 < blkSize c). by apply blkSize_pos.
  - destruct (isValid blk) eqn:Hv; [|done]. destruct (Hcl eq_refl) as [Hd Hst].
    destruct (evict_clean c Hc lo hi a f _ _ Ha Hst) as [G1 G2]; [done|]. done.
Qed.
End seen.

(** ** Fills *)

Lemma wr_all buf src : length src = length buf -> wr buf 0 src = Ok src.
Proof.
  intros Hl. destruct (wr_spec buf 0 src 0) as (b' & -> & Hl' & E); [lia|lia|].
  f_equal. apply (at_base_ext 0); [lia|]. intros x. rewrite E. unfold fwrite, at_base.
  destruct (Z.ltb_spec x 0), (Z.leb_spec (0 + 0) x); try done; try lia. cbn [andb].
  destruct (Z.ltb_spec x (0 + 0 + Z.of_nat (length src))).
  - by replace (x - (0 + 0)) with (x - 0) by lia.
  - by rewrite !lookup_ge_None_2 by lia.
Qed.

Section fills.
Context {T : Type} `{PolicyLaws T}.
Context (env : Env) (lo hi : Z).
Implicit Types (ch : Cache T) (p : CPkt) (f : Bytes).

(** The cache side of the system: lawful, no outstanding miss, coherent with
    the contents [f] of the memory below. *)
Record cache_sys ch f : Prop := {
  cs_ok : cache_ok env ch;
  cs_idle : idle ch;
  cs_coh : coherent (cfg (store ch)) lo hi (cached ch) f;
  cs_top : isTopLevel (par ch) = true
}.

Definition seen ch f : Bytes := view (cfg (store ch)) (cached ch) f.

Lemma cache_sys_ext ch f g : (forall x, g x = f x) -> cache_sys ch f -> cache_sys ch g.
Proof.
  intros E [H1 H2 H3 H4]. split; try done. eapply coherent_ext; [done|]. intros. apply E.
Qed.

Lemma seen_ext ch f g : (forall x, g x = f x) -> forall x, seen ch g x = seen ch f x.
Proof. intros E x. unfold seen, view. destruct (_ !! _); [done|]. apply E. Qed.

(** A response that carries the line as the memory below has it. *)
Record line_response ch f p : Prop := {
  lr_cmd : pk_cmd p = ReadResp \/ pk_cmd p = ReadExResp;
  lr_shared : sharedAsserted p = false;
  lr_inhibit : memInhibitAsserted p = false;
  lr_secure : pk_secure p = false;
  lr_addr : is_addr (pk_addr p);
  lr_range : lo <= blkAlign (cfg (store ch)) (pk_addr p) /\
             blkAlign (cfg (store ch)) (pk_addr p) + blkSize (cfg (store ch)) <= hi;
  lr_data : pk_data p = fread f (blkAlign (cfg (store ch)) (pk_addr p)) (blkSize (cfg (store ch)));
  lr_master : 0 <= masterId (pk_req p) < maxMasters env;
  lr_pol : pol_master (masterId (pk_req p))
}.

(** The line [l] is held, by block [b]. *)
Definition filled ch ch' f (w : list CPkt) (l : Line) (b : nat) : Prop :=
  cache_sys ch' (pend f w) /\ kin ch ch' /\ same_mem (seen ch' (pend f w)) (seen ch f) /\
  Forall (fun wb => pk_cmd wb = Writeback /\ request_ok (maxMasters env) lo hi wb) w /\
  exists blk d, held (mem (store ch')) (datas ch') l b blk d.

Lemma allocated_fresh ch addr ch1 b w blk d l :
  allocated env ch addr ch1 b w blk d -> cached ch !! l = None -> l ∉ lines blk.
Proof.
  intros [_ _ _ _ He _ _ _ _ _ _ _] Hn Hl%elem_of_lines.
  destruct He as [(Hv & _ & Hst & _)|[Hcl _]].
  - unfold line_of in Hl. rewrite Hv in Hl. congruence.
  - assert (Hv : isValid blk = true) by (unfold line_of in Hl; by destruct (isValid blk)).
    destruct (Hcl Hv) as [_ Hst]. unfold line_of in Hl. rewrite Hv in Hl. congruence.
Qed.

Lemma allocated_drop ch addr ch1 b w blk d blk1 :
  allocated env ch addr ch1 b w blk d -> keeps blk blk1 ->
  drop_line blk1 (cached ch1) = drop_line blk (cached ch).
Proof.
  intros [_ _ _ _ _ _ _ _ Ho _ _ _] Hk. unfold drop_line. rewrite (keeps_line _ _ Hk).
  apply map_eq. intros l'. destruct (line_of blk) as [l1|] eqn:El1.
  - destruct (decide (l' = l1)) as [->|Hne]; [by rewrite !lookup_delete_eq|].
    rewrite !lookup_delete_ne by done. apply Ho. rewrite elem_of_lines, El1. congruence.
  - apply Ho. by rewrite elem_of_lines, El1.
Qed.

Lemma fill_bits_plain p s :
  pk_cmd p <> WriteInvalidateReq -> sharedAsserted p = false -> memInhibitAsserted p = false ->
  pk_secure p = false ->
  fill_bits p s = Z.lor (Z.lor s (Z.lor BlkValid BlkReadable)) BlkWritable.
Proof.
  intros H1 H2 H3 H4. unfold fill_bits. rewrite H2, H3, H4. cbn [negb].
  by rewrite decide_False.
Qed.

Lemma handleFill_new ch f p wbs :
  cache_sys ch f -> line_response ch f p ->
  cached ch !! line_at (cfg (store ch)) (pk_addr p) false = None ->
  exists ch' b w, handleFill env 0 p None wbs ch = Ok (ch', Way b, wbs ++ w) /\
    filled ch ch' f w (line_at (cfg (store ch)) (pk_addr p) false) b.
Proof.
  intros Hsys Hlr Hn. pose proof Hsys as [Hok Hi Hco Htop]. pose proof Hlr as [].
  assert (Hcfg : cfg_ok (cfg (store ch))) by apply Hok.
  unfold handleFill, fill_target.
  replace (isResponse (pk_cmd p)) with true by (by destruct lr_cmd0 as [-> | ->]).
  replace (hasData (pk_cmd p)) with true by (by destruct lr_cmd0 as [-> | ->]).
  replace (isRead (pk_cmd p)) with true by (by destruct lr_cmd0 as [-> | ->]).
  destruct (allocateBlock_ok env ch (pk_addr p) wbs Hok Hi) as (ch1 & b & w & blk & d & E1 & Hal).
  rewrite E1. cbn [mbind outcome_bind]. pose proof Hal as [].
  destruct al_blk as (blk1 & Hb1 & Hkeep).
  pose proof (allocated_fresh _ _ _ _ _ _ _ _ Hal Hn) as Hnl.
  set (g := fill_bits p).
  assert (Hg : forall s, g s = Z.lor (Z.lor s (Z.lor BlkValid BlkReadable)) BlkWritable).
  { intros s. apply fill_bits_plain; try done. by destruct lr_cmd0 as [-> | ->]. }
  pose proof (kin_cfg _ _ al_kin) as Ec1.
  destruct (insert_validate_ok env ch1 p b blk1 d g) as
    (ch2 & blk2 & ch3 & blk3 & E2 & Eg & Hinv & E3 & Hok3 & Hk3 & Hd3 & Hb3 & Hst3 & Hl3 & Hc3);
    try done.
  { rewrite Ec1, lr_secure0. by rewrite al_other. }
  { rewrite Hg. done. }
  { rewrite Hg, lr_secure0. done. }
  rewrite Ec1, lr_secure0 in *. rewrite E2. cbn [mbind outcome_bind]. rewrite Eg.
  cbn [mbind outcome_bind]. rewrite Hinv. cbn [negb mbind outcome_bind]. rewrite E3.
  cbn [mbind outcome_bind]. unfold get_data.
  assert (Hd3b : datas ch3 !! b = Some d) by (by rewrite Hd3).
  rewrite (aget_ok _ _ _ Hd3b). cbn [mbind outcome_bind].
  assert (Hbs : c_blkSize (par ch3) = blkSize (cfg (store ch))).
  { rewrite (co_blkSize _ _ Hok3), (kin_cfg _ _ Hk3). by rewrite Ec1. }
  assert (Hplen : Z.of_nat (length (pk_data p)) = blkSize (cfg (store ch))).
  { rewrite lr_data0, length_fread. pose proof (blkSize_pos _ Hcfg). lia. }
  rewrite Hbs, rd_all by done. cbn [mbind outcome_bind].
  rewrite wr_all by lia. cbn [mbind outcome_bind].
  destruct (set_data_ok env ch3 b blk3 d (pk_data p)) as (ch4 & E4 & Hok4 & Hk4 & Es4 & Hd4 & Hc4);
    [done|done|done|lia|]. rewrite E4. cbn [mbind outcome_bind].
  assert (Hv3 : isValid blk3 = true) by (unfold line_of in Hl3; by destruct (isValid blk3)).
  destruct (upd_ref_ok env ch4 b blk3
    (fun x => x <| whenReady := clockEdge env + responseLatency (par ch4) * clockPeriod env + 0 |>))
    as (ch5 & E5 & Hok5 & Hk5 & _ & Em5 & Hd5 & Hc5); [done|by rewrite Es4|by apply keeps_fields|].
  rewrite E5. cbn [mbind outcome_bind]. exists ch5, b, w. split; [done|].
  set (l := line_at (cfg (store ch)) (pk_addr p) false) in *.
  assert (El3 : (blk_set blk3, tag blk3, isSecure blk3) = l)
    by (unfold line_of in Hl3; rewrite Hv3 in Hl3; congruence).
  assert (Hd4b : datas ch4 !! b = Some (pk_data p))
    by (rewrite Hd4; apply list_lookup_insert_eq; by eapply lookup_lt_Some).
  set (blk5 := blk3 <| whenReady := clockEdge env + responseLatency (par ch4) * clockPeriod env + 0 |>) in *.
  assert (Hcached : cached ch5 = <[l := line_state blk5 (pk_data p)]> (drop_line blk (cached ch))).
  { rewrite (Hc5 Hv3 _ Hd4b), (Hc4 Hv3), Hc3, El3, !insert_insert_eq. f_equal.
    by apply (allocated_drop _ _ _ _ _ _ _ _ Hal). }
  destruct (evict_view (cfg (store ch)) Hcfg lo hi env (cached ch) f w blk d Hco al_evicted al_owned)
    as (G1 & G2 & G3).
  assert (Hlo : line_ok (cfg (store ch)) lo hi l) by (apply line_at_ok; tauto).
  assert (Hbase : line_base (cfg (store ch)) l = blkAlign (cfg (store ch)) (pk_addr p))
    by (by apply line_at_base).
  assert (Hdn : drop_line blk (cached ch) !! l = None)
    by (unfold drop_line; destruct (line_of blk); [apply lookup_delete_None; auto|done]).
  assert (Hseen : pk_data p = fread (pend f w) (line_base (cfg (store ch)) l) (blkSize (cfg (store ch)))).
  { rewrite lr_data0, Hbase. pose proof (line_top _ Hcfg lo hi l Hlo) as Htp. rewrite Hbase in Htp.
    pose proof (blkAlign_range _ Hcfg _ lr_addr0) as [[? ?] ?].
    apply fread_ext. intros x Hx. assert (Hxa : is_addr x) by (unfold is_addr; lia).
    assert (Hxl : line_at (cfg (store ch)) x false = l) by (by apply line_at_near).
    pose proof (G2 x Hxa) as E. unfold view in E. rewrite Hxl, Hdn, Hn in E. done. }
  assert (Els : ls_readable (line_state blk5 (pk_data p)) = true).
  { unfold line_state. cbn [ls_readable]. rewrite isReadable_bit.
    change (status blk5) with (status blk3). rewrite Hst3, Hg. done. }
  destruct (fill_view (cfg (store ch)) Hcfg lo hi _ (pend f w) l _ G1 Hdn Hlo Els Hseen) as [G4 G5].
  assert (Hk : kin ch ch5).
  { eapply kin_trans; [done|]. eapply kin_trans; [done|]. by eapply kin_trans. }
  split_and!; try done.
  - split; try done.
    + by eapply kin_idle.
    + by rewrite (kin_cfg _ _ Hk), Hcached.
    + by rewrite (kin_par _ _ Hk).
  - unfold seen. rewrite (kin_cfg _ _ Hk), Hcached. by etrans.
  - exists blk5, (pk_data p). split_and!.
    + rewrite Em5, Es4. apply list_lookup_insert_eq. by eapply lookup_lt_Some.
    + by rewrite Hd5.
    + done.
Qed.

Lemma handleFill_upgrade ch f p wbs b blk d :
  cache_sys ch f -> pk_cmd p = UpgradeResp -> sharedAsserted p = false ->
  memInhibitAsserted p = false -> pk_secure p = false ->
  held (mem (store ch)) (datas ch) (line_at (cfg (store ch)) (pk_addr p) false) b blk d ->
  exists ch', handleFill env 0 p (Some (Way b)) wbs ch = Ok (ch', Way b, wbs) /\
    filled ch ch' f [] (line_at (cfg (store ch)) (pk_addr p) false) b.
Proof.
  intros Hsys Hc Hsh Hin Hsec (Hb & Hd & Hl). pose proof Hsys as [Hok Hi Hco Htop].
  set (l := line_at (cfg (store ch)) (pk_addr p) false) in *.
  assert (Hv : isValid blk = true) by (unfold line_of in Hl; by destruct (isValid blk)).
  assert (El : (blk_set blk, tag blk, isSecure blk) = l)
    by (unfold line_of in Hl; rewrite Hv in Hl; congruence).
  unfold handleFill, fill_target, get_ref. rewrite Hc. change (isResponse UpgradeResp) with true.
  rewrite (getBlk_ok _ _ _ Hb). cbn [mbind outcome_bind].
  assert (Et : tag blk = extractTag (cfg (store ch)) (pk_addr p)) by (unfold l, line_at in El; congruence).
  rewrite Et, Z.eqb_refl, Hv, orb_true_r. cbn [mbind outcome_bind].
  set (g := fill_bits p).
  assert (Hg : forall s, g s = Z.lor (Z.lor s (Z.lor BlkValid BlkReadable)) BlkWritable)
    by (intros s; apply fill_bits_plain; congruence).
  destruct (upd_status_ok env ch b blk g) as (ch1 & E1 & Hok1 & Hk1 & _ & Em1 & Hd1 & Hc1); try done.
  { rewrite Hg. by status_bits. }
  { rewrite Hg. by status_bits. }
  rewrite E1. cbn [mbind outcome_bind]. change (isRead UpgradeResp) with false. cbv iota.
  cbn [mbind outcome_bind]. set (blk1 := blk <| status := g (status blk) |>) in *.
  assert (Hb1 : mem (store ch1) !! b = Some blk1)
    by (rewrite Em1; apply list_lookup_insert_eq; by eapply lookup_lt_Some).
  destruct (upd_ref_ok env ch1 b blk1
    (fun x => x <| whenReady := clockEdge env + responseLatency (par ch1) * clockPeriod env + 0 |>))
    as (ch2 & E2 & Hok2 & Hk2 & _ & Em2 & Hd2 & Hc2); [done|done|by apply keeps_fields|].
  rewrite E2. cbn [mbind outcome_bind]. exists ch2. split; [done|].
  assert (Hkeep : keeps blk blk1)
    by (apply keeps_status; [done|rewrite Hg; by status_bits|rewrite Hg; by status_bits]).
  assert (El1 : (blk_set blk1, tag blk1, isSecure blk1) = l)
    by (rewrite <- El; by destruct Hkeep as ((_ & _ & _ & _ & ->) & -> & -> & _)).
  assert (Hv1 : isValid blk1 = true) by (rewrite isValid_bit; change (status blk1) with (g (status blk)); rewrite Hg; by status_bits).
  set (blk2 := blk1 <| whenReady := _ |>) in *.
  assert (Hcached : cached ch2 = <[l := line_state blk2 d]> (cached ch)).
  { rewrite (Hc2 Hv1 d) by (by rewrite Hd1). rewrite (Hc1 d Hd), El, El1. by rewrite insert_insert_eq. }
  assert (Hcfg : cfg_ok (cfg (store ch))) by apply Hok.
  destruct (restate_view (cfg (store ch)) Hcfg lo hi (cached ch) f l (line_state blk d) (line_state blk2 d))
    as [G1 G2]; [done|by eapply cached_held|done| | |].
  { cbn. rewrite isReadable_bit. change (status blk2) with (g (status blk)). rewrite Hg. by status_bits. }
  { cbn. rewrite !isDirty_bit. change (status blk2) with (g (status blk)). rewrite Hg. by status_bits. }
  assert (Hk : kin ch ch2) by (by eapply kin_trans).
  split_and!; try done.
  - split; try done; [by eapply kin_idle| |by rewrite (kin_par _ _ Hk)].
    by rewrite (kin_cfg _ _ Hk), Hcached.
  - unfold seen. by rewrite (kin_cfg _ _ Hk), Hcached.
  - exists blk2, d. split_and!.
    + rewrite Em2. apply list_lookup_insert_eq. by eapply lookup_lt_Some.
    + by rewrite Hd2, Hd1.
    + unfold line_of. change (isValid blk2) with (isValid blk1). rewrite Hv1. f_equal. exact El1.
Qed.
End fills.

(** ** The transaction *)

Section transaction.
Context {T : Type} `{PolicyLaws T}.
Context (env : Env) {M : Type} `{MemSideLaws M (maxMasters env)}.
Implicit Types (ch : Cache T) (m : M) (p : CPkt) (f : Bytes).

(** Data and request of the answer, as the reference memory gives them. *)
Definition answered (sc : bool) (g : Bytes) p p' : Prop :=
  pk_data p' = pk_data (ref_effect sc g p).2 /\ pk_req p' = pk_req (ref_effect sc g p).2.

Lemma satisfied_sys lo hi ch p b blk d f r :
  cache_sys env lo hi ch f -> serves env lo hi ch p b blk d -> satisfied env ch p d blk r ->
  exists ch' p' sc, r = Ok (ch', p') /\ cache_sys env lo hi ch' f /\ kin ch ch' /\
    same_mem (seen ch' f) (ref_effect sc (seen ch f) p).1 /\ answered sc (seen ch f) p p' /\
    pk_cmd p' = pk_cmd p.
Proof.
  intros [Hok Hi Hco Htop] Hs (ch' & p' & sc & st' & -> & Hok' & Hk & Hc' & Hr & Hl & Hb & Hd & Hrq & Hcmd & _ & _ & Hdirty).
  pose proof (sv_req _ _ _ _ _ _ _ _ Hs) as [].
  destruct (satisfied_view (cfg (store ch)) (t_cfg _ (ok_wf _ _ (co_tags _ _ Hok))) lo hi (cached ch) f p
    (line_at (cfg (store ch)) (pk_addr p) false) (line_state blk d) st' sc) as (G1 & G2 & G3); try done.
  { eapply cached_held; [done|]. apply (sv_held _ _ _ _ _ _ _ _ Hs). }
  exists ch', p', sc. split_and!; try done.
  - split; try done; [by eapply kin_idle| |by rewrite (kin_par _ _ Hk)].
    by rewrite (kin_cfg _ _ Hk), Hc'.
  - unfold seen. by rewrite (kin_cfg _ _ Hk), Hc'.
  - unfold answered, seen. rewrite <- G3. done.
Qed.

(** Counters. *)
Record same_core ch ch' : Prop := {
  sc_tags : tags ch' = tags ch;
  sc_datas : datas ch' = datas ch;
  sc_par : par ch' = par ch;
  sc_queue : mshrQueue ch' = mshrQueue ch;
  sc_mshrs : mshrs ch' = mshrs ch
}.

Lemma same_core_trans ch ch' ch'' : same_core ch ch' -> same_core ch' ch'' -> same_core ch ch''.
Proof. intros [] []. split; congruence. Qed.

Lemma same_core_sys lo hi ch ch' f :
  same_core ch ch' -> cache_sys env lo hi ch f ->
  cache_sys env lo hi ch' f /\ store ch' = store ch /\ cached ch' = cached ch /\ kin ch ch'.
Proof.
  intros [Et Ed Ep Eq Em] [Hok Hi Hco Htop].
  assert (Es : store ch' = store ch) by (unfold store; by rewrite Et).
  assert (Ec : cached ch' = cached ch) by (unfold cached; by rewrite Es, Ed).
  split_and!; try done; [|split; try done; by rewrite Es].
  split; [by apply (counters_ok env ch)|unfold idle; by rewrite Eq|by rewrite Es, Ec|by rewrite Ep].
Qed.

Lemma incHitCount_ok p ch :
  masterId (pk_req p) < maxMasters env ->
  exists ch', incHitCount env p ch = Ok ch' /\ same_core ch ch'.
Proof.
  intros Hm. unfold incHitCount. rewrite (proj2 (Z.ltb_lt _ _)) by done.
  destruct (is_pcm_page _ _); eexists; by split.
Qed.

Lemma incMissCount_ok p ch :
  masterId (pk_req p) < maxMasters env ->
  exists ch', incMissCount env p ch = Ok ch' /\ same_core ch ch'.
Proof.
  intros Hm. unfold incMissCount. rewrite (proj2 (Z.ltb_lt _ _)) by done.
  destruct (is_pcm_page _ _); simpl; (destruct (missCount ch =? 0); [|destruct (Z.pred _ =? 0)]);
    eexists; by split.
Qed.

Lemma count_dirty_hit_ok blk p ch : same_core ch (count_dirty_hit blk p ch).
Proof. unfold count_dirty_hit. repeat case_match; by split. Qed.

(** Write-backs reach the memory below in order. *)
Lemma send_writebacks_ok w m :
  m_inv m -> Forall (fun wb => pk_cmd wb = Writeback /\
                      request_ok (maxMasters env) (m_lo m) (m_hi m) wb) w ->
  exists m', send_writebacks w m = Ok m' /\ m_inv m' /\ m_lo m' = m_lo m /\ m_hi m' = m_hi m /\
    forall x, m_bytes m' x = pend (m_bytes m) w x.
Proof.
  unfold send_writebacks. revert m. induction w as [|wb w IH]; intros m Hm Hw; [by exists m|].
  apply Forall_cons in Hw as [[Hc Hwb] Hw]. cbn [foldO].
  destruct (atomic_law m wb Hm Hwb) as (m1 & t & sc & -> & Hm1 & Hlo & Hhi & Hb).
  cbn [mbind outcome_bind].
  destruct (IH m1 Hm1) as (m2 & -> & Hm2 & Hlo2 & Hhi2 & Hb2); [by rewrite Hlo, Hhi|].
  exists m2. split_and!; try done; try congruence. intros x. rewrite Hb2. cbn [pend foldl].
  apply pend_ext. intros y. rewrite Hb. unfold ref_effect. by rewrite Hc.
Qed.

(** The state of the system between transactions. *)
Record system_ok ch m : Prop := {
  sys_cache : cache_sys env (m_lo m) (m_hi m) ch (m_bytes m);
  sys_mem : m_inv m;
  sys_bypass : bypassCaches (par ch) = false
}.

Definition request ch m p : Prop :=
  cpu_request env (cfg (store ch)) (m_lo m) (m_hi m) p /\ pol_master (masterId (pk_req p)).

(** The bus packet of a miss. *)
Lemma bus_packet_ok ch m p (cd : Command) :
  system_ok ch m -> cpu_request env (cfg (store ch)) (m_lo m) (m_hi m) p ->
  cd ∈ [ReadReq; ReadExReq; UpgradeReq; SCUpgradeReq] ->
  let bus := allocate (new_block_packet p cd (c_blkSize (par ch))) in
  request_ok (maxMasters env) (m_lo m) (m_hi m) bus /\ pk_cmd bus = cd /\
  pk_addr bus = blkAlign (cfg (store ch)) (pk_addr p) /\ pk_secure bus = false /\
  pk_req bus = pk_req p /\ sharedAsserted bus = false /\ memInhibitAsserted bus = false /\
  pk_size bus = blkSize (cfg (store ch)).
Proof.
  intros [[Hok _ _ _] _ _] [] Hcd bus.
  assert (Hcfg : cfg_ok (cfg (store ch))) by apply Hok.
  pose proof (blkSize_pos _ Hcfg) as Hpos.
  assert (Ea : pk_addr bus = blkAlign (cfg (store ch)) (pk_addr p)).
  { unfold bus, allocate, new_block_packet, pk_addr. simpl.
    rewrite (co_blkSize _ _ Hok). unfold blkAlign. rewrite (ok_blkMask _ Hcfg).
    change (pkt_addr (hdr p)) with (pk_addr p). rewrite <- cr_paddr0. done. }
  assert (Es : pk_size bus = blkSize (cfg (store ch))) by (simpl; apply (co_blkSize _ _ Hok)).
  split_and!; try done. split; rewrite ?Ea, ?Es; try done.
  - change (pk_cmd bus) with cd.
    repeat (apply elem_of_cons in Hcd as [->|Hcd]; [apply (bool_decide_eq_true_1 _); reflexivity|]).
    by apply elem_of_nil in Hcd.
  - by apply blkAlign_range.
  - simpl. rewrite length_replicate, (co_blkSize _ _ Hok). lia.
  - change (pk_cmd bus) with cd. intros Hw.
    repeat (apply elem_of_cons in Hcd as [->|Hcd]; [done|]). by apply elem_of_nil in Hcd.
  - change (pk_cmd bus) with cd. intros ->.
    repeat (apply elem_of_cons in Hcd as [?|Hcd]; [done|]). by apply elem_of_nil in Hcd.
Qed.

(** Where a transaction arrives: the system lawful again, the memory that is
    seen changed as the reference memory would, and the answer its answer. *)
Definition transacted ch m p (r : outcome (Cache T * M * CPkt * Z)) : Prop :=
  exists ch' m' p' lat sc, r = Ok (ch', m', p', lat) /\ system_ok ch' m' /\ kin ch ch' /\
    m_lo m' = m_lo m /\ m_hi m' = m_hi m /\
    same_mem (seen ch' (m_bytes m')) (ref_effect sc (seen ch (m_bytes m)) p).1 /\
    answered sc (seen ch (m_bytes m)) p p' /\
    (pk_cmd p' = responseCommand (pk_cmd p) \/
     pk_cmd p = WriteReq /\ pk_cmd p' = WriteInvalidateResp).

(** The last steps, once the request is answered: write-backs, response. *)
Definition conclude (a : Accessed) : outcome (Cache T * M * CPkt * Z) :=
  m ← send_writebacks (a_wbs a) (a_m a);
  '(ch, m, pkt) ← complete_write_invalidate (a_pkt a) (a_blk a) (a_ch a) m;
  pkt ← (if needsResponse (pk_cmd pkt) then makeResponse pkt else Ok pkt);
  Ok (ch, m, pkt, a_lat a * clockPeriod env).

Lemma recvAtomic_conclude fm p ch m :
  bypassCaches (par ch) = false -> memInhibitAsserted p = false ->
  promoteWholeLineWrites p ch = Ok p ->
  recvAtomic env fm p ch m =
    (a ← access env fm p [] ch m; a ← (if a_ok a then Ok a else atomic_miss env a); conclude a).
Proof. intros Hb Hi Hp. unfold recvAtomic, conclude. rewrite Hb, Hp. cbn [mbind outcome_bind]. by rewrite Hi. Qed.

(** Concluding after the request was satisfied from a block. *)
Lemma conclude_ok ch0 m0 p ch m p' ob lat w sc :
  system_ok ch0 m0 -> request ch0 m0 p ->
  cache_sys env (m_lo m) (m_hi m) ch (pend (m_bytes m) w) -> kin ch0 ch -> m_inv m ->
  m_lo m = m_lo m0 -> m_hi m = m_hi m0 ->
  Forall (fun wb => pk_cmd wb = Writeback /\ request_ok (maxMasters env) (m_lo m) (m_hi m) wb) w ->
  same_mem (seen ch (pend (m_bytes m) w)) (ref_effect sc (seen ch0 (m_bytes m0)) p).1 ->
  answered sc (seen ch0 (m_bytes m0)) p p' -> pk_cmd p' = pk_cmd p ->
  transacted ch0 m0 p (conclude (MkAccessed ch m p' ob lat w true)).
Proof.
  intros Hsys [Hreq _] Hcs Hk Hm Hlo Hhi Hw Hsee Hans Hcmd. unfold conclude. cbn [a_wbs a_m a_pkt a_blk a_ch a_lat].
  destruct (send_writebacks_ok w m Hm Hw) as (m1 & -> & Hm1 & Hlo1 & Hhi1 & Hb1).
  cbn [mbind outcome_bind]. unfold complete_write_invalidate.
  rewrite decide_False by (rewrite Hcmd; destruct (cpu_cmd _ _ _ _ _ Hreq) as [->|[->|[->|[->| ->]]]]; done).
  cbn [mbind outcome_bind]. unfold makeResponse.
  replace (needsResponse (pk_cmd p')) with true
    by (rewrite Hcmd; by destruct (cpu_cmd _ _ _ _ _ Hreq) as [->|[->|[->|[->| ->]]]]).
  replace (isRequest (pk_cmd p')) with true
    by (rewrite Hcmd; by destruct (cpu_cmd _ _ _ _ _ Hreq) as [->|[->|[->|[->| ->]]]]).
  cbn [mbind outcome_bind]. eexists ch, m1, _, _, sc. split; [done|]. split_and!; try done; try congruence.
  - split; [|done|rewrite (kin_par _ _ Hk); apply Hsys].
    rewrite Hlo1, Hhi1. eapply cache_sys_ext; [exact Hb1|done].
  - intros x Hx. rewrite (seen_ext ch _ _ Hb1). by apply Hsee.
  - left. change (pk_cmd (set_cmd (responseCommand (pk_cmd p')) p')) with (responseCommand (pk_cmd p')).
    by rewrite Hcmd.
Qed.

Lemma request_kin ch ch' lo hi p :
  kin ch ch' -> cpu_request env (cfg (store ch)) lo hi p ->
  cpu_request env (cfg (store ch')) lo hi p.
Proof. intros Hk. by rewrite (kin_cfg _ _ Hk). Qed.

Lemma request_top c lo hi p :
  cfg_ok c -> cpu_request env c lo hi p -> pk_addr p + pk_size p <= 2 ^ 64.
Proof. intros Hc []. pose proof (blkAlign_top c Hc (pk_addr p) ltac:(done)). lia. Qed.

(** Satisfying the request once its line is held and what is seen is still
    what was seen at the start. *)
Lemma satisfy_after ch0 m0 p ch f b blk d :
  system_ok ch0 m0 -> request ch0 m0 p ->
  cache_sys env (m_lo m0) (m_hi m0) ch f -> kin ch0 ch ->
  same_mem (seen ch f) (seen ch0 (m_bytes m0)) ->
  held (mem (store ch)) (datas ch) (line_at (cfg (store ch0)) (pk_addr p) false) b blk d ->
  exists ch' p' sc, satisfyCpuSideRequest env p (Way b) false false ch = Ok (ch', p') /\
    cache_sys env (m_lo m0) (m_hi m0) ch' f /\ kin ch0 ch' /\
    same_mem (seen ch' f) (ref_effect sc (seen ch0 (m_bytes m0)) p).1 /\
    answered sc (seen ch0 (m_bytes m0)) p p' /\ pk_cmd p' = pk_cmd p.
Proof.
  intros Hsys [Hreq _] Hcs Hk Hsee Hh. rewrite <- (kin_cfg _ _ Hk) in Hh.
  assert (Hcfg : cfg_ok (cfg (store ch0))) by apply Hsys.
  assert (Hsv : serves env (m_lo m0) (m_hi m0) ch p b blk d).
  { split; [apply Hcs|by eapply request_kin|done]. }
  pose proof (satisfyCpuSideRequest_ok env _ _ ch p b blk d Hsv ltac:(apply Hcs)) as Hsat.
  destruct (satisfied_sys _ _ _ _ _ _ _ _ _ Hcs Hsv Hsat)
    as (ch' & p' & sc & E & Hcs' & Hk' & Hsee' & Hans & Hcmd).
  destruct (ref_effect_same sc _ _ p ltac:(apply Hreq) (request_top _ _ _ _ Hcfg Hreq) Hsee)
    as [E1 E2].
  exists ch', p', sc. split_and!; try done.
  - by eapply kin_trans.
  - by etrans.
  - unfold answered in *. by rewrite <- E1.
Qed.

Lemma set_req_self p : set_req (pk_req p) p = p.
Proof. by destruct p as [[]]. Qed.

(** A miss on a line that is not held: the line is read from below. *)
Lemma miss_ok ch0 m0 p ch lat :
  system_ok ch0 m0 -> request ch0 m0 p -> isUncacheable p = false ->
  cache_sys env (m_lo m0) (m_hi m0) ch (m_bytes m0) -> kin ch0 ch ->
  same_mem (seen ch (m_bytes m0)) (seen ch0 (m_bytes m0)) ->
  cached ch !! line_at (cfg (store ch0)) (pk_addr p) false = None ->
  transacted ch0 m0 p (a ← atomic_miss env (MkAccessed ch m0 p None lat [] false); conclude a).
Proof.
  intros Hsys Hrq Hunc Hcs Hk Hsee Hn. pose proof Hrq as [Hreq Hpol].
  pose proof (cpu_cmd _ _ _ _ _ Hreq) as Hcmd. assert (Hcfg : cfg_ok (cfg (store ch0))) by apply Hsys.
  unfold atomic_miss. cbn [a_pkt a_ch a_m a_blk a_lat a_wbs].
  rewrite bool_decide_eq_false_2 by (destruct Hcmd as [->|[->|[->|[->| ->]]]]; done).
  cbn [negb]. unfold getBusPacket. cbn [mbind outcome_bind]. rewrite Hunc.
  rewrite decide_False by (destruct Hcmd as [->|[->|[->|[->| ->]]]]; done).
  rewrite (bool_decide_eq_true_2 (None = None)) by done. cbn [andb].
  replace (bool_decide (pk_cmd p = Writeback) || isUpgrade (pk_cmd p)) with false
    by (by destruct Hcmd as [->|[->|[->|[->| ->]]]]).
  replace (needsResponse (pk_cmd p)) with true by (by destruct Hcmd as [->|[->|[->|[->| ->]]]]).
  unfold bus_command.
  rewrite decide_False by (destruct Hcmd as [->|[->|[->|[->| ->]]]]; by intros [?|?]).
  cbn [mbind outcome_bind].
  set (cd := if needsExclusive (pk_cmd p) then ReadExReq else ReadReq).
  assert (Hcd : cd = ReadReq \/ cd = ReadExReq) by (unfold cd; destruct (needsExclusive _); auto).
  assert (Hsys1 : system_ok ch m0) by (split; [done|apply Hsys|rewrite (kin_par _ _ Hk); apply Hsys]).
  destruct (bus_packet_ok ch m0 p cd Hsys1 ltac:(by eapply request_kin))
    as (Hbr & Hbc & Hba & Hbs & Hbq & Hbsh & Hbi & Hbsz).
  { destruct Hcd as [-> | ->]; apply (bool_decide_eq_true_1 _); reflexivity. }
  set (bus := allocate _) in *. clearbody bus.
  destruct (atomic_law m0 bus ltac:(apply Hsys) Hbr) as (m1 & t & sc & -> & Hm1 & Hlo1 & Hhi1 & Hb1).
  cbn [mbind outcome_bind].
  assert (Href : ref_effect sc (m_bytes m0) bus = (m_bytes m0,
    bus <| pk_data := fread (m_bytes m0) (pk_addr bus) (pk_size bus) |>)).
  { unfold ref_effect. rewrite Hbc. by destruct Hcd as [-> | ->]. }
  rewrite Href in *. cbn [fst snd] in *. set (resp := respond _).
  assert (Hresp : pk_cmd resp = (if decide (cd = ReadReq) then ReadResp else ReadExResp) /\
    pk_addr resp = pk_addr bus /\ pk_secure resp = pk_secure bus /\ pk_req resp = pk_req bus /\
    sharedAsserted resp = sharedAsserted bus /\ memInhibitAsserted resp = memInhibitAsserted bus /\
    pk_data resp = fread (m_bytes m0) (pk_addr bus) (pk_size bus)).
  { unfold resp, respond. change (pk_cmd (bus <| pk_data := _ |>)) with (pk_cmd bus).
    rewrite Hbc. destruct Hcd as [-> | ->]; by split_and!. }
  destruct Hresp as (R1 & R2 & R3 & R4 & R5 & R6 & R7). clearbody resp.
  rewrite R4, Hbq, set_req_self. unfold atomic_response.
  replace (needsResponse (pk_cmd p)) with true by (by destruct Hcmd as [->|[->|[->|[->| ->]]]]).
  cbn [negb].
  replace (isResponse (pk_cmd resp)) with true by (rewrite R1; by destruct Hcd as [-> | ->]).
  replace (isError (pk_cmd resp)) with false by (rewrite R1; by destruct Hcd as [-> | ->]).
  replace (isRead (pk_cmd resp)) with true by (rewrite R1; by destruct Hcd as [-> | ->]).
  cbn [orb].
  set (c := cfg (store ch0)) in *. assert (Ec : cfg (store ch) = c) by apply (kin_cfg _ _ Hk).
  pose proof (blkAlign_idem c Hcfg (pk_addr p) ltac:(apply Hreq)) as Hal.
  pose proof (blkAlign_range c Hcfg (pk_addr p) ltac:(apply Hreq)) as [Hra _].
  assert (Ela : line_at (cfg (store ch)) (pk_addr resp) false = line_at c (pk_addr p) false).
  { rewrite Ec, R2, Hba, Ec. apply line_at_near; [done|apply Hreq|]. pose proof (blkSize_pos c Hcfg). lia. }
  assert (Hlr : line_response env (m_lo m0) (m_hi m0) ch (m_bytes m0) resp).
  { split.
    - rewrite R1. destruct Hcd as [-> | ->]; auto.
    - by rewrite R5.
    - by rewrite R6.
    - by rewrite R3.
    - by rewrite R2, Hba, Ec.
    - rewrite R2, Hba, Ec, Hal. apply Hreq.
    - rewrite R7, R2, Hba, Hbsz, Ec, Hal. done.
    - rewrite R4, Hbq. apply Hreq.
    - rewrite R4, Hbq. apply Hpol. }
  destruct (handleFill_new env (m_lo m0) (m_hi m0) ch (m_bytes m0) resp [] Hcs Hlr)
    as (ch1 & b & w & -> & Hcs1 & Hk1 & Hsee1 & Hw & blk & d & Hh); [by rewrite Ela|].
  cbn [mbind outcome_bind app]. rewrite Ela in Hh.
  destruct (satisfy_after ch0 m0 p ch1 (pend (m_bytes m0) w) b blk d Hsys Hrq Hcs1)
    as (ch2 & p2 & sc2 & -> & Hcs2 & Hk2 & Hsee2 & Hans2 & Hcmd2); try done.
  { by eapply kin_trans. }
  { by etrans. }
  cbn [mbind outcome_bind].
  pose proof (pend_ext _ _ w Hb1) as Hpe.
  eapply (conclude_ok ch0 m0 p ch2 m1 p2 _ _ w sc2); try done; try congruence.
  - rewrite Hlo1, Hhi1. eapply cache_sys_ext; [exact Hpe|done].
  - by rewrite Hlo1, Hhi1.
  - intros x Hx. rewrite (seen_ext ch2 _ _ Hpe). by apply Hsee2.
Qed.

(** A write to a line that is held without write permission: the line is
    upgraded in place. *)
Lemma upgrade_ok ch0 m0 p ch lat b blk d :
  system_ok ch0 m0 -> request ch0 m0 p -> isUncacheable p = false ->
  cache_sys env (m_lo m0) (m_hi m0) ch (m_bytes m0) -> kin ch0 ch ->
  same_mem (seen ch (m_bytes m0)) (seen ch0 (m_bytes m0)) ->
  held (mem (store ch)) (datas ch) (line_at (cfg (store ch0)) (pk_addr p) false) b blk d ->
  needsExclusive (pk_cmd p) = true -> isWritable blk = false ->
  transacted ch0 m0 p
    (a ← atomic_miss env (MkAccessed ch m0 p (Some (Way b)) lat [] false); conclude a).
Proof.
  intros Hsys Hrq Hunc Hcs Hk Hsee Hh Hne Hwr. pose proof Hrq as [Hreq Hpol].
  pose proof (cpu_cmd _ _ _ _ _ Hreq) as Hcmd. assert (Hcfg : cfg_ok (cfg (store ch0))) by apply Hsys.
  destruct Hh as (Hb & Hd & Hl).
  assert (Hv : isValid blk = true) by (unfold line_of in Hl; by destruct (isValid blk)).
  unfold atomic_miss. cbn [a_pkt a_ch a_m a_blk a_lat a_wbs].
  rewrite bool_decide_eq_false_2 by (destruct Hcmd as [->|[->|[->|[->| ->]]]]; done).
  cbn [negb]. unfold getBusPacket, get_ref. rewrite (getBlk_ok _ _ _ Hb). cbn [mbind outcome_bind].
  rewrite Hv, Hunc.
  rewrite decide_False by (destruct Hcmd as [->|[->|[->|[->| ->]]]]; done).
  rewrite (bool_decide_eq_false_2 (Some blk = None)) by done. cbn [andb].
  replace (needsResponse (pk_cmd p)) with true by (by destruct Hcmd as [->|[->|[->|[->| ->]]]]).
  unfold bus_command. rewrite Hne, Hwr. cbn [negb mbind outcome_bind].
  set (cd := if isLLSC (pk_cmd p) then SCUpgradeReq else UpgradeReq).
  assert (Hcd : cd = SCUpgradeReq \/ cd = UpgradeReq) by (unfold cd; destruct (isLLSC _); auto).
  assert (Hsys1 : system_ok ch m0) by (split; [done|apply Hsys|rewrite (kin_par _ _ Hk); apply Hsys]).
  destruct (bus_packet_ok ch m0 p cd Hsys1 ltac:(by eapply request_kin))
    as (Hbr & Hbc & Hba & Hbs & Hbq & Hbsh & Hbi & Hbsz).
  { destruct Hcd as [-> | ->]; apply (bool_decide_eq_true_1 _); reflexivity. }
  set (bus := allocate _) in *. clearbody bus.
  destruct (atomic_law m0 bus ltac:(apply Hsys) Hbr) as (m1 & t & sc & -> & Hm1 & Hlo1 & Hhi1 & Hb1).
  cbn [mbind outcome_bind].
  assert (Href : ref_effect sc (m_bytes m0) bus = (m_bytes m0, bus))
    by (unfold ref_effect; rewrite Hbc; by destruct Hcd as [-> | ->]).
  rewrite Href in *. cbn [fst snd] in *. set (resp := respond _).
  assert (Hresp : pk_cmd resp = UpgradeResp /\
    pk_addr resp = pk_addr bus /\ pk_secure resp = pk_secure bus /\ pk_req resp = pk_req bus /\
    sharedAsserted resp = sharedAsserted bus /\ memInhibitAsserted resp = memInhibitAsserted bus).
  { unfold resp, respond. rewrite Hbc. destruct Hcd as [-> | ->]; by split_and!. }
  destruct Hresp as (R1 & R2 & R3 & R4 & R5 & R6). clearbody resp.
  rewrite R4, Hbq, set_req_self. unfold atomic_response.
  replace (needsResponse (pk_cmd p)) with true by (by destruct Hcmd as [->|[->|[->|[->| ->]]]]).
  cbn [negb]. rewrite R1. cbn [isResponse isError orb].
  change (isResponse UpgradeResp) with true. change (isError UpgradeResp) with false.
  change (isRead UpgradeResp) with false. cbn [orb].
  rewrite bool_decide_eq_true_2 by done.
  set (c := cfg (store ch0)) in *. assert (Ec : cfg (store ch) = c) by apply (kin_cfg _ _ Hk).
  pose proof (blkAlign_range c Hcfg (pk_addr p) ltac:(apply Hreq)) as [Hra _].
  assert (Ela : line_at (cfg (store ch)) (pk_addr resp) false = line_at c (pk_addr p) false).
  { rewrite Ec, R2, Hba, Ec. apply line_at_near; [done|apply Hreq|]. pose proof (blkSize_pos c Hcfg). lia. }
  destruct (handleFill_upgrade env (m_lo m0) (m_hi m0) ch (m_bytes m0) resp [] b blk d Hcs R1)
    as (ch1 & -> & Hcs1 & Hk1 & Hsee1 & Hw & blk1 & d1 & Hh); [congruence..| |].
  { rewrite Ela. by split_and!. }
  cbn [mbind outcome_bind app]. rewrite Ela in Hh.
  destruct (satisfy_after ch0 m0 p ch1 (m_bytes m0) b blk1 d1 Hsys Hrq Hcs1)
    as (ch2 & p2 & sc2 & -> & Hcs2 & Hk2 & Hsee2 & Hans2 & Hcmd2); try done.
  { by eapply kin_trans. }
  { by etrans. }
  cbn [mbind outcome_bind].
  eapply (conclude_ok ch0 m0 p ch2 m1 p2 _ _ [] sc2); try done; try congruence.
  - rewrite Hlo1, Hhi1. eapply cache_sys_ext; [exact Hb1|done].
  - intros x Hx. change (pend (m_bytes m1) []) with (m_bytes m1). rewrite (seen_ext ch2 _ _ Hb1). by apply Hsee2.
Qed.

(** A store-conditional that misses fails at once: nothing is written. *)
Lemma store_cond_miss_ok ch0 m0 p ch lat :
  system_ok ch0 m0 -> request ch0 m0 p ->
  cache_sys env (m_lo m0) (m_hi m0) ch (m_bytes m0) -> kin ch0 ch ->
  same_mem (seen ch (m_bytes m0)) (seen ch0 (m_bytes m0)) ->
  isLLSC (pk_cmd p) = true -> isWrite (pk_cmd p) = true ->
  transacted ch0 m0 p (conclude (MkAccessed ch m0 (setExtraData 0 p) None lat [] true)).
Proof.
  intros Hsys Hrq Hcs Hk Hsee Hll Hw.
  assert (Hc : pk_cmd p = StoreCondReq)
    by (destruct (cpu_cmd _ _ _ _ _ (proj1 Hrq)) as [E|[E|[E|[E|E]]]]; by rewrite E in *).
  assert (E : forall g, ref_effect false g p = (g, setExtraData 0 p))
    by (intros g; unfold ref_effect; by rewrite Hc).
  eapply (conclude_ok ch0 m0 p ch m0 _ _ _ [] false); try done; try apply Hsys; unfold answered; by rewrite ?E.
Qed.

(** The last arm of [access], and what follows it. *)
Lemma access_block_ok ch0 m0 p ch lat ob :
  system_ok ch0 m0 -> request ch0 m0 p -> isUncacheable p = false ->
  cache_sys env (m_lo m0) (m_hi m0) ch (m_bytes m0) -> kin ch0 ch ->
  cached ch = cached ch0 ->
  line_ref ch (line_at (cfg (store ch0)) (pk_addr p) false) ob ->
  transacted ch0 m0 p (a ← access_block env p ob lat [] ch m0;
    a ← (if a_ok a then Ok a else atomic_miss env a); conclude a).
Proof.
  intros Hsys Hrq Hunc Hcs Hk Hc Hob. pose proof Hrq as [Hreq Hpol].
  set (l := line_at (cfg (store ch0)) (pk_addr p) false) in *.
  assert (Hm : masterId (pk_req p) < maxMasters env) by apply Hreq.
  assert (Hsame : forall ch', same_core ch ch' ->
    cache_sys env (m_lo m0) (m_hi m0) ch' (m_bytes m0) /\ kin ch0 ch' /\
    same_mem (seen ch' (m_bytes m0)) (seen ch0 (m_bytes m0)) /\ line_ref ch' l ob).
  { intros ch' Hs. destruct (same_core_sys _ _ _ _ _ Hs Hcs) as (G1 & G2 & G3 & G4). split_and!; try done.
    - by eapply kin_trans.
    - intros x _. unfold seen. by rewrite (kin_cfg _ _ (kin_trans _ _ _ Hk G4)), G3, Hc.
    - unfold line_ref in *. rewrite G2, G3, (sc_datas _ _ Hs). done. }
  unfold access_block, get_ref. destruct ob as [b|].
  - destruct Hob as (blk & d & Hh). pose proof Hh as (Hb & Hd & Hl).
    rewrite (getBlk_ok _ _ _ Hb). cbn [mbind outcome_bind].
    destruct (if needsExclusive (pk_cmd p) then _ else _) eqn:Hhit.
    + destruct (incHitCount_ok p ch Hm) as (ch1 & -> & Hs1). cbn [mbind outcome_bind].
      destruct (same_core_sys _ _ _ _ _ Hs1 Hcs) as (_ & E1 & _).
      rewrite E1, (getBlk_ok _ _ _ Hb). cbn [mbind outcome_bind].
      pose proof (same_core_trans _ _ _ Hs1 (count_dirty_hit_ok blk p ch1)) as Hs2.
      destruct (Hsame _ Hs2) as (C1 & C2 & C3 & blk2 & d2 & C4).
      destruct (satisfy_after ch0 m0 p _ _ b blk2 d2 Hsys Hrq C1 C2 C3 C4)
        as (ch3 & p3 & sc & -> & D1 & D2 & D3 & D4 & D5).
      cbn [mbind outcome_bind a_ok].
      eapply (conclude_ok ch0 m0 p ch3 m0 p3 _ _ [] sc); try done; apply Hsys.
    + destruct (incMissCount_ok p ch Hm) as (ch1 & -> & Hs1). cbn [mbind outcome_bind].
      rewrite (bool_decide_eq_false_2 (Some b = None)) by done. cbn [andb a_ok mbind outcome_bind].
      destruct (Hsame _ Hs1) as (C1 & C2 & C3 & _).
      destruct (same_core_sys _ _ _ _ _ Hs1 Hcs) as (_ & E1 & _).
      assert (Hst : cached ch !! l = Some (line_state blk d)) by (by eapply cached_held; [apply Hcs|]).
      destruct (cs_coh _ _ _ _ _ Hcs _ _ Hst) as (_ & _ & Hrd & _).
      destruct (needsExclusive (pk_cmd p)) eqn:Hne; [|unfold line_state in Hrd; cbn [ls_readable] in Hrd; congruence].
      apply (upgrade_ok ch0 m0 p ch1 lat b blk d); try done.
      unfold held. by rewrite E1, (sc_datas _ _ Hs1).
  - cbn [mbind outcome_bind]. destruct (incMissCount_ok p ch Hm) as (ch1 & -> & Hs1).
    cbn [mbind outcome_bind]. destruct (Hsame _ Hs1) as (C1 & C2 & C3 & C4).
    rewrite bool_decide_eq_true_2 by done. cbn [andb].
    destruct (isLLSC (pk_cmd p) && isWrite (pk_cmd p)) eqn:Hsc; cbn [a_ok mbind outcome_bind fmap option_fmap option_map].
    + apply andb_true_iff in Hsc as [].
      by apply store_cond_miss_ok.
    + by apply miss_ok.
Qed.
End transaction.
