(* ===== verification/WholeLine.v ===== *)
(** Whole-line writes of a top-level cache: the line is put in the cache
    without being read, and written through to the memory below. *)
From S2P Require Import Prelude IntMath MemTypes Blk CacheSet SetAssoc Tags Policy Account.
From S2P Require Import Lines Memory Mshr Cache CacheSide CacheLaws MemLaws View Atomic.

#[local] Open Scope Z_scope.

Section whole_line.
Context {T : Type} `{PolicyLaws T}.
Context (env : Env) {M : Type} `{MemSideLaws M (maxMasters env)}.
Implicit Types (ch : Cache T) (m : M) (p : CPkt) (f : Bytes).

(** The request after its promotion. *)
Record promoted ch m p : Prop := {
  pr_cmd : pk_cmd p = WriteReq;
  pr_req : request env ch m p;
  pr_size : pk_size p = blkSize (cfg (store ch));
  pr_align : blkAlign (cfg (store ch)) (pk_addr p) = pk_addr p
}.

(** Status updates of a valid block that keep its line. *)
Definition placed_at ch0 ch (l : Line) (b : nat) (a : gmap Line LineState) (s : Z) (d : list Z)
    : Prop :=
  cache_ok env ch /\ kin ch0 ch /\ Z.testbit s 0 = true /\
  exists blk, held (mem (store ch)) (datas ch) l b blk d /\ status blk = s /\
    cached ch = <[l := line_state blk d]> a.

Lemma placed_at_get ch0 ch l b a s d :
  placed_at ch0 ch l b a s d -> exists blk, get_ref (Way b) ch = Ok blk /\ status blk = s.
Proof.
  intros (_ & _ & _ & blk & (Hb & _) & Hs & _). exists blk. split; [|done].
  unfold get_ref. by apply getBlk_ok.
Qed.

Lemma placed_at_upd ch0 ch l b a s d g :
  placed_at ch0 ch l b a s d -> Z.testbit (g s) 0 = true ->
  Z.testbit (g s) 6 = Z.testbit s 6 ->
  exists ch', upd_ref (Way b) (fun x => x <| status ::= g |>) ch = Ok ch' /\
    placed_at ch0 ch' l b a (g s) d.
Proof.
  intros (Hok & Hk & Hs0 & blk & (Hb & Hd & Hl) & <- & Hc) G0 G6.
  assert (Hv : isValid blk = true) by (by rewrite isValid_bit).
  destruct (upd_status_ok env ch b blk g Hok Hb Hv G0 G6)
    as (ch' & -> & Hok' & Hk' & _ & Em & Ed & Hc').
  exists ch'. split; [done|]. split_and!; try done; [by eapply kin_trans|].
  assert (El : (blk_set blk, tag blk, isSecure blk) = l)
    by (unfold line_of in Hl; rewrite Hv in Hl; congruence).
  exists (blk <| status := g (status blk) |>). split_and!; [split_and!| |].
  - rewrite Em. apply list_lookup_insert_eq. by eapply lookup_lt_Some.
  - by rewrite Ed.
  - unfold line_of.
    replace (isValid _) with true by (rewrite isValid_bit; symmetry; exact G0).
    replace (isSecure _) with (isSecure blk) by (rewrite !isSecure_bit; symmetry; exact G6).
    by rewrite <- El.
  - done.
  - rewrite (Hc' d Hd), El, Hc. by rewrite insert_insert_eq.
Qed.

Lemma placed_at_data ch0 ch l b a s d d' :
  placed_at ch0 ch l b a s d -> length d' = length d ->
  exists ch', set_data (Way b) d' ch = Ok ch' /\ placed_at ch0 ch' l b a s d'.
Proof.
  intros (Hok & Hk & Hs0 & blk & (Hb & Hd & Hl) & <- & Hc) Hlen.
  assert (Hv : isValid blk = true) by (by rewrite isValid_bit).
  destruct (set_data_ok env ch b blk d d' Hok Hb Hd Hlen) as (ch' & -> & Hok' & Hk' & Es & Ed & Hc').
  exists ch'. split; [done|]. split_and!; try done; [by eapply kin_trans|].
  assert (El : (blk_set blk, tag blk, isSecure blk) = l)
    by (unfold line_of in Hl; rewrite Hv in Hl; congruence).
  exists blk. split_and!; [split_and!|..]; try done.
  - by rewrite Es.
  - rewrite Ed. apply list_lookup_insert_eq. by eapply lookup_lt_Some.
  - rewrite (Hc' Hv), El, Hc. by rewrite insert_insert_eq.
Qed.

Lemma placed_at_core ch0 ch ch' l b a s d :
  placed_at ch0 ch l b a s d -> same_core ch ch' -> placed_at ch0 ch' l b a s d.
Proof.
  intros (Hok & Hk & Hs0 & blk & (Hb & Hd & Hl) & <- & Hc) [Et Ed Ep Eq Em].
  assert (Es : store ch' = store ch) by (unfold store; by rewrite Et).
  split_and!; [by apply (counters_ok env ch)| |done|].
  - eapply kin_trans; [done|]. split; try done. by rewrite Es.
  - exists blk. unfold held. rewrite Es, Ed. split_and!; try done. unfold cached. by rewrite Es, Ed.
Qed.

Definition wi p : CPkt := set_cmd WriteInvalidateReq p.

(** The bits of the block once the line is written, and once it is complete. *)
Definition written_bits (s : Z) : Z :=
  Z.land (Z.lor s (Z.lor BlkDirty BlkCanGoExclusive)) (Z.lnot BlkWritable).
Definition complete_bits (s : Z) : Z :=
  Z.lor (Z.land s (Z.lnot (Z.lor BlkDirty BlkCanGoExclusive))) BlkWritable.

Lemma written_bits_spec s :
  Z.testbit s 0 = true -> Z.testbit s 2 = true ->
  let w := written_bits s in let k := complete_bits w in
  Z.testbit w 0 = true /\ Z.testbit w 6 = Z.testbit s 6 /\ Z.testbit w 3 = true /\
  Z.testbit w 7 = true /\ Z.testbit w 1 = false /\
  Z.testbit k 0 = true /\ Z.testbit k 6 = Z.testbit s 6 /\ Z.testbit k 3 = false /\
  Z.testbit k 2 = true.
Proof. intros E0 E2. unfold complete_bits, written_bits. split_and!; status_bits; done. Qed.

Lemma write_line_ok ch0 ch p l b a s d :
  placed_at ch0 ch l b a s d -> Z.testbit s 2 = true ->
  Z.of_nat (length d) = blkSize (cfg (store ch0)) -> pk_size p = blkSize (cfg (store ch0)) ->
  Z.of_nat (length (pk_data p)) = pk_size p -> masterId (pk_req p) < maxMasters env ->
  exists ch', write_line env (wi p) b ch = Ok ch' /\
    placed_at ch0 ch' l b a (written_bits s) (pk_data p).
Proof.
  intros Hp Hs2 Hd Hsz Hlen Hm. pose proof Hp as (Hok & Hk & Hs0 & blk & (Hb & Hdat & _) & Hs & _).
  assert (Hbs : c_blkSize (par ch) = blkSize (cfg (store ch0)))
    by (rewrite (co_blkSize _ _ Hok); f_equal; apply Hk).
  destruct (written_bits_spec s Hs0 Hs2) as (W0 & W6 & _). unfold write_line, get_data.
  rewrite (aget_ok _ _ _ Hdat). change (pk_data (wi p)) with (pk_data p).
  cbn [mbind outcome_bind]. rewrite rd_all by (rewrite Hbs; lia). cbn [mbind outcome_bind].
  rewrite wr_all by lia. cbn [mbind outcome_bind].
  destruct (placed_at_data _ _ _ _ _ _ _ (pk_data p) Hp) as (ch1 & -> & Hp1); [lia|].
  cbn [mbind outcome_bind]. change (pk_cmd (wi p)) with WriteInvalidateReq. rewrite decide_False by done.
  destruct (placed_at_get _ _ _ _ _ _ _ Hp1) as (blk1 & -> & Hs1). cbn [mbind outcome_bind].
  rewrite isReadable_bit, Hs1, Hs2, Hs0. cbn [andb].
  set (g1 := fun s : Z => Z.lor s (Z.lor BlkDirty BlkCanGoExclusive)).
  destruct (placed_at_upd _ _ _ _ _ _ _ g1 Hp1) as (ch2 & E2 & Hp2);
    [unfold g1; status_bits; done..|]. unfold set_bits. fold g1. rewrite E2. cbn [mbind outcome_bind].
  destruct (placed_at_upd _ _ _ _ _ _ _ (fun s => Z.land s (Z.lnot BlkWritable)) Hp2)
    as (ch3 & E3 & Hp3); [done|by unfold g1; status_bits|].
  unfold clear_bits. rewrite E3. cbn [mbind outcome_bind].
  destruct (incHitCount_ok env (wi p) (ch3 <| c_stats ::= set_field fastWrites Z.succ |>) Hm)
    as (ch4 & -> & Hs4). exists ch4. split; [done|].
  apply (placed_at_core _ ch3); [done|]. eapply same_core_trans; [|done]; by split.
Qed.

(** The block for a line that was not held. *)
Lemma place_new_ok ch0 m0 ch p :
  system_ok env ch0 m0 -> promoted ch0 m0 p ->
  cache_ok env ch -> kin ch0 ch -> cached ch = cached ch0 ->
  cached ch !! line_at (cfg (store ch0)) (pk_addr p) false = None ->
  exists ch' b w a d, place_line env (wi p) None [] ch = Ok (ch', Some b, w) /\
    placed_at ch0 ch' (line_at (cfg (store ch0)) (pk_addr p) false) b a
      (Z.lor BlkValid BlkReadable) d /\
    Z.of_nat (length d) = blkSize (cfg (store ch0)) /\
    coherent (cfg (store ch0)) (m_lo m0) (m_hi m0) a (pend (m_bytes m0) w) /\
    same_mem (view (cfg (store ch0)) a (pend (m_bytes m0) w)) (seen ch0 (m_bytes m0)) /\
    Forall (fun wb => pk_cmd wb = Writeback /\
              request_ok (maxMasters env) (m_lo m0) (m_hi m0) wb) w.
Proof.
  intros Hsys [Hcmd [Hreq Hpol] Hsz Hal] Hok Hk Hc Hn. pose proof Hsys as [[_ Hidle Hco _] _ _].
  assert (Hcfg : cfg_ok (cfg (store ch0))) by apply Hsys.
  pose proof (kin_cfg _ _ Hk) as Ec. set (c := cfg (store ch0)) in *.
  set (l := line_at c (pk_addr p) false) in *.
  unfold place_line. change (pk_addr (wi p)) with (pk_addr p).
  destruct (allocateBlock_ok env ch (pk_addr p) [] Hok ltac:(by eapply kin_idle))
    as (ch1 & b & w & blk & d & -> & Hal1).
  pose proof Hal1 as [A1 A2 A3 A4 A5 (blk1 & Hb1 & Hkeep) A7 A8 A9 A10 A11 A12].
  cbn [mbind outcome_bind app]. change (pk_secure (wi p)) with (pk_secure p).
  rewrite (cr_secure _ _ _ _ _ Hreq). pose proof (kin_cfg _ _ A2) as Ec1.
  pose proof (allocated_fresh env _ _ _ _ _ _ _ l Hal1 Hn) as Hnl.
  destruct (insert_validate_ok env ch1 (wi p) b blk1 d (fun _ => Z.lor BlkValid BlkReadable))
    as (ch2 & blk2 & ch3 & blk3 & E1 & _ & _ & E3 & Hok3 & Hk3 & Hd3 & Hb3 & Hs3 & Hl3 & Hc3); try done.
  { apply Hreq. }
  { change (pk_addr (wi p)) with (pk_addr p). change (pk_secure (wi p)) with (pk_secure p).
    rewrite (cr_secure _ _ _ _ _ Hreq), Ec1, Ec. fold l. by rewrite (A9 l Hnl). }
  { apply Hreq. }
  { change (pk_secure (wi p)) with (pk_secure p). by rewrite (cr_secure _ _ _ _ _ Hreq). }
  rewrite E1. cbn [mbind outcome_bind].
  assert (Eu : upd_ref (Way b) (fun blk => blk <| status := Z.lor BlkValid BlkReadable |>) ch2 = Ok ch3)
    by exact E3. rewrite Eu. cbn [mbind outcome_bind]. clear E1 E3 Eu.
  change (pk_addr (wi p)) with (pk_addr p) in *. change (pk_secure (wi p)) with (pk_secure p) in *.
  rewrite (cr_secure _ _ _ _ _ Hreq), Ec1, Ec in Hl3, Hc3. fold l in Hl3, Hc3.
  exists ch3, b, w, (drop_line blk (cached ch)), d. split; [done|].
  rewrite <- Hc in Hco. rewrite Ec in A5, A8.
  destruct (evict_view c Hcfg _ _ env (cached ch) (m_bytes m0) w blk d Hco A5 A11) as (G1 & G2 & G3).
  split_and!; try done.
  - split_and!; try done; [eapply kin_trans; [done|]; by eapply kin_trans|].
    exists blk3. split_and!; [by rewrite Hd3|done|]. rewrite Hc3. f_equal.
    by apply (allocated_drop env _ _ _ _ _ _ _ _ Hal1).
  - unfold seen. fold c. by rewrite <- Hc.
Qed.

(** The bytes of the line a promoted request covers. *)
Lemma promoted_line ch0 m0 p :
  system_ok env ch0 m0 -> promoted ch0 m0 p ->
  let c := cfg (store ch0) in let l := line_at c (pk_addr p) false in
  line_ok c (m_lo m0) (m_hi m0) l /\ line_base c l = pk_addr p /\
  request_ok (maxMasters env) (m_lo m0) (m_hi m0) (wi p).
Proof.
  intros Hsys [Hcmd [Hreq Hpol] Hsz Hal] c l.
  assert (Hcfg : cfg_ok c) by apply Hsys. pose proof Hreq as []. fold c in Hal, Hsz, cr_range.
  split_and!.
  - apply line_at_ok; tauto.
  - unfold l. by rewrite line_at_base.
  - split; change (pk_addr (wi p)) with (pk_addr p); change (pk_size (wi p)) with (pk_size p);
      try done.
    + apply (bool_decide_eq_true_1 _). reflexivity.
    + rewrite Hal in cr_range. lia.
    + intros _. apply cr_fetch. by rewrite Hcmd.
Qed.

Lemma ref_effect_wi sc f p : ref_effect sc f (wi p) = (fwrite f (pk_addr p) (pk_data p), wi p).
Proof. reflexivity. Qed.

Lemma complete_ok ch0 m0 ch p b a w lat s :
  system_ok env ch0 m0 -> promoted ch0 m0 p ->
  let c := cfg (store ch0) in let l := line_at c (pk_addr p) false in
  placed_at ch0 ch l b a (written_bits s) (pk_data p) ->
  Z.testbit s 0 = true -> Z.testbit s 2 = true ->
  coherent c (m_lo m0) (m_hi m0) a (pend (m_bytes m0) w) ->
  same_mem (view c a (pend (m_bytes m0) w)) (seen ch0 (m_bytes m0)) ->
  Forall (fun wb => pk_cmd wb = Writeback /\
            request_ok (maxMasters env) (m_lo m0) (m_hi m0) wb) w ->
  transacted env ch0 m0 p (conclude env (MkAccessed ch m0 (wi p) (Some (Way b)) lat w true)).
Proof.
  intros Hsys Hpr c l Hp S0 S2 Hco Hsee Hw. pose proof Hpr as [Hcmd [Hreq Hpol] Hsz Hal].
  assert (Hcfg : cfg_ok c) by apply Hsys.
  destruct (written_bits_spec s S0 S2) as (W0 & W6 & W3 & W7 & W1 & K0 & K6 & K3 & K2).
  destruct (promoted_line ch0 m0 p Hsys Hpr) as (Hlo & Hbase & Hwi). fold c in Hlo, Hbase. fold l in Hlo, Hbase.
  unfold conclude. cbn [a_wbs a_m a_pkt a_blk a_ch a_lat].
  destruct (send_writebacks_ok env w m0 ltac:(apply Hsys) Hw) as (m1 & -> & Hm1 & Hlo1 & Hhi1 & Hb1).
  cbn [mbind outcome_bind]. unfold complete_write_invalidate.
  change (pk_cmd (wi p)) with WriteInvalidateReq. rewrite decide_True by done.
  rewrite <- Hlo1, <- Hhi1 in Hwi.
  destruct (atomic_law m1 (wi p) Hm1 Hwi) as (m2 & t & sc & -> & Hm2 & Hlo2 & Hhi2 & Hb2).
  rewrite ref_effect_wi in *. cbn [fst snd mbind outcome_bind] in *.
  pose proof Hp as (_ & Hk & _).
  rewrite (kin_par _ _ Hk), (cs_top _ _ _ _ _ (sys_cache _ _ _ Hsys)).
  destruct (placed_at_get _ _ _ _ _ _ _ Hp) as (blk & -> & Hs). cbn [mbind outcome_bind].
  rewrite isDirty_bit, isWritable_bit, canGoExclusive_bit, Hs, W3, W1, W7. cbn [andb negb].
  unfold clear_bits, set_bits.
  set (g := fun s : Z => Z.land s (Z.lnot (Z.lor BlkDirty BlkCanGoExclusive))).
  destruct (placed_at_upd _ _ _ _ _ _ _ g Hp) as (ch1 & -> & Hp1);
    [unfold g; status_bits; done..|]. cbn [mbind outcome_bind].
  destruct (placed_at_upd _ _ _ _ _ _ _ (fun s => Z.lor s BlkWritable) Hp1) as (ch2 & -> & Hp2);
    [exact K0|by status_bits|]. cbn [mbind outcome_bind].
  destruct Hp2 as (Hok2 & Hk2 & _ & blk2 & _ & Hs2 & Hc2).
  change (Z.lor (g (written_bits s)) BlkWritable) with (complete_bits (written_bits s)) in Hs2.
  assert (Hcl : ls_dirty (line_state blk2 (pk_data p)) = false)
    by (unfold line_state; cbn [ls_dirty]; by rewrite isDirty_bit, Hs2).
  assert (Hrd : ls_readable (line_state blk2 (pk_data p)) = true)
    by (unfold line_state; cbn [ls_readable]; by rewrite isReadable_bit, Hs2, K2, K0).
  assert (Hlen : Z.of_nat (length (pk_data p)) = blkSize c) by (by rewrite (cr_len _ _ _ _ _ Hreq)).
  destruct (through_view c Hcfg (m_lo m0) (m_hi m0) a (pend (m_bytes m0) w) l
    (line_state blk2 (pk_data p)) Hco Hlo Hrd Hlen) as [G1 G2]. cbn [ls_data line_state] in G1, G2.
  rewrite Hbase in G1, G2.
  assert (Hb : forall x, m_bytes m2 x = fwrite (pend (m_bytes m0) w) (pk_addr p) (pk_data p) x).
  { intros x. rewrite Hb2. unfold fwrite. by rewrite Hb1. }
  change (needsResponse (pk_cmd (respond (wi p)))) with false. cbn [mbind outcome_bind].
  exists ch2, m2, (respond (wi p)), (lat * clockPeriod env), false.
  split; [done|]. split_and!; try done; try congruence.
  - split; [|done|rewrite (kin_par _ _ Hk2); apply Hsys]. rewrite Hlo2, Hhi2, Hlo1, Hhi1.
    apply (cache_sys_ext _ _ _ _ (fwrite (pend (m_bytes m0) w) (pk_addr p) (pk_data p))); [exact Hb|].
    pose proof (sys_cache _ _ _ Hsys) as [_ Hidle _ Htop].
    split; [done|by eapply kin_idle| |by rewrite (kin_par _ _ Hk2)].
    by rewrite (kin_cfg _ _ Hk2), Hc2.
  - unfold ref_effect. rewrite Hcmd. cbn [fst]. etrans.
    { intros x _. apply (seen_ext _ _ _ Hb). }
    unfold seen. rewrite (kin_cfg _ _ Hk2), Hc2. etrans; [exact G2|].
    intros x Hx. unfold fwrite. rewrite (Hsee x Hx). reflexivity.
  - unfold answered, ref_effect. by rewrite Hcmd.
  - right. split; [done|]. reflexivity.
Qed.

(** A promoted write, from its access to its response. *)
Lemma whole_line_ok ch0 m0 p ch lat ob :
  system_ok env ch0 m0 -> promoted ch0 m0 p ->
  cache_ok env ch -> kin ch0 ch -> cached ch = cached ch0 ->
  line_ref ch (line_at (cfg (store ch0)) (pk_addr p) false) ob ->
  transacted env ch0 m0 p (a ← access_whole_line env (wi p) ob lat [] ch m0;
    a ← (if a_ok a then Ok a else atomic_miss env a); conclude env a).
Proof.
  intros Hsys Hpr Hok Hk Hc Hob. pose proof Hpr as [Hcmd [Hreq Hpol] Hsz Hal].
  set (c := cfg (store ch0)) in *. set (l := line_at c (pk_addr p) false) in *.
  pose proof Hsys as [[_ _ Hco _] _ _]. fold c in Hco.
  assert (Hbs : c_blkSize (par ch) = blkSize c)
    by (rewrite (co_blkSize _ _ Hok); unfold c; f_equal; apply Hk).
  unfold access_whole_line. change (pk_size (wi p)) with (pk_size p).
  rewrite Hbs, Hsz, Z.eqb_refl.
  assert (Hplace : exists ch' b w a s d, place_line env (wi p) ob [] ch = Ok (ch', Some b, w) /\
    placed_at ch0 ch' l b a s d /\ Z.testbit s 2 = true /\ Z.of_nat (length d) = blkSize c /\
    coherent c (m_lo m0) (m_hi m0) a (pend (m_bytes m0) w) /\
    same_mem (view c a (pend (m_bytes m0) w)) (seen ch0 (m_bytes m0)) /\
    Forall (fun wb => pk_cmd wb = Writeback /\
              request_ok (maxMasters env) (m_lo m0) (m_hi m0) wb) w).
  { destruct ob as [b|].
    - destruct Hob as (blk & d & Hh). exists ch, b, [], (cached ch), (status blk), d.
      pose proof Hh as (Hb & Hd & Hl).
      assert (Hst : cached ch !! l = Some (line_state blk d)) by (by eapply cached_held).
      assert (Hv : isValid blk = true) by (unfold line_of in Hl; by destruct (isValid blk)).
      pose proof Hst as Hst0. rewrite Hc in Hst0. destruct (Hco _ _ Hst0) as (_ & Hlen & Hr & _).
      unfold line_state in Hr, Hlen. cbn [ls_readable ls_data] in Hr, Hlen.
      rewrite isReadable_bit in Hr. apply andb_true_iff in Hr as [R2 R0].
      split_and!; try done.
      + split_and!; try done. exists blk. split_and!; try done. by rewrite insert_id.
      + by rewrite Hc.
      + unfold seen. by rewrite Hc.
    - destruct (place_new_ok ch0 m0 ch p Hsys Hpr Hok Hk Hc Hob)
        as (ch' & b & w & a & d & E & Hp & ? & ? & ? & ?).
      exists ch', b, w, a, (Z.lor BlkValid BlkReadable), d. by split_and!. }
  destruct Hplace as (ch1 & b & w & a & s & d & -> & Hp & S2 & Hd & Hco1 & Hsee & Hw).
  cbn [mbind outcome_bind].
  destruct (write_line_ok ch0 ch1 p l b a s d Hp S2 Hd Hsz ltac:(apply Hreq) ltac:(apply Hreq))
    as (ch2 & -> & Hp2). cbn [mbind outcome_bind a_ok].
  apply (complete_ok ch0 m0 ch2 p b a w lat s); try done. apply Hp.
Qed.
End whole_line.
