(* ===== verification/Uncached.v ===== *)
(** Uncacheable requests: the line is flushed from the cache, and the request
    is answered by the memory below. *)
From S2P Require Import Prelude IntMath MemTypes Blk CacheSet SetAssoc Tags Policy Account.
From S2P Require Import Lines Memory Mshr Cache CacheSide CacheLaws MemLaws View Atomic.

#[local] Open Scope Z_scope.

(** ** Memory accesses outside the lines that are held *)

Section free_line.
Context (c : TagConfig) (Hc : cfg_ok c) (lo hi : Z).
Context (a : gmap Line LineState) (f : Bytes) (p : CPkt).
Context (Ha : coherent c lo hi a f) (Hn : a !! line_at c (pk_addr p) false = None).
Context (Hp : is_addr (pk_addr p)) (Hsz : 0 < pk_size p)
  (Hline : pk_addr p - blkAlign c (pk_addr p) + pk_size p <= blkSize c)
  (Hlen : Z.of_nat (length (pk_data p)) = pk_size p).

Lemma free_in_line x :
  pk_addr p <= x < pk_addr p + pk_size p -> line_at c x false = line_at c (pk_addr p) false.
Proof.
  intros Hx. pose proof (blkAlign_range c Hc _ Hp) as [_ ?]. apply line_at_near; [done..|lia].
Qed.

Lemma free_fread : fread f (pk_addr p) (pk_size p) = fread (view c a f) (pk_addr p) (pk_size p).
Proof. apply fread_ext. intros x Hx. symmetry. apply view_free. by rewrite free_in_line. Qed.

Lemma free_effect sc :
  coherent c lo hi a (ref_effect sc f p).1 /\
  same_mem (view c a (ref_effect sc f p).1) (ref_effect sc (view c a f) p).1 /\
  (ref_effect sc f p).2 = (ref_effect sc (view c a f) p).2.
Proof.
  rewrite !ref_effect_bytes. cbn [fst snd]. rewrite <- free_fread.
  destruct (ref_bytes _ _ _) as [bs|] eqn:Hb; cbn [overwrite]; [|by split_and!].
  apply ref_bytes_len in Hb as ->. split_and!; [| |done].
  - apply (coherent_ext c lo hi a f); [done|]. intros l st x Hst Hd Hx.
    apply fwrite_out. destruct (Ha l st Hst) as [Hl _].
    destruct (Z_lt_le_dec x (pk_addr p)); [by left|]. right.
    destruct (Z_le_gt_dec (pk_addr p + Z.of_nat (length (pk_data p))) x); [done|]. exfalso.
    pose proof (line_top c Hc lo hi l Hl). pose proof (lo_addr _ _ _ _ Hl) as Hb. unfold is_addr in Hb.
    assert (E : line_at c x false = l) by (apply (in_line c Hc lo hi l x Hl); [unfold is_addr; lia|done]).
    rewrite free_in_line in E by lia. congruence.
  - intros x Hx. unfold fwrite at 2. destruct (_ && _) eqn:Hin.
    + apply andb_true_iff in Hin as [H1%Z.leb_le H2%Z.ltb_lt].
      rewrite view_free by (by rewrite free_in_line by lia). rewrite fwrite_in by lia. done.
    + unfold view. destruct (a !! _) eqn:E; [done|]. unfold fwrite. by rewrite Hin.
Qed.
End free_line.

Lemma ref_effect_cmd sc f p : pk_cmd (ref_effect sc f p).2 = pk_cmd p.
Proof. rewrite ref_effect_bytes. unfold ref_packet. cbn [snd]. by repeat case_match. Qed.

(** ** Flushing a line *)

Section flush.
Context {T : Type} `{PolicyLaws T}.
Context (env : Env) {M : Type} `{MemSideLaws M (maxMasters env)}.
Implicit Types (ch : Cache T) (m : M) (p : CPkt).

(** What a flush of line [l] leaves. *)
Definition flushed ch m (l : Line) ch' m' : Prop :=
  cache_sys env (m_lo m) (m_hi m) ch' (m_bytes m') /\ kin ch ch' /\ m_inv m' /\
  m_lo m' = m_lo m /\ m_hi m' = m_hi m /\
  same_mem (seen ch' (m_bytes m')) (seen ch (m_bytes m)) /\ cached ch' !! l = None.

(** The first visitor: the memory below has the line of block [b]. *)
Lemma writebackVisitor_ok fm ch m l b blk d :
  cache_sys env (m_lo m) (m_hi m) ch (m_bytes m) -> m_inv m ->
  held (mem (store ch)) (datas ch) l b blk d ->
  exists ch' m' blk', writebackVisitor fm b ch m = Ok (ch', m') /\
    cache_ok env ch' /\ kin ch ch' /\ m_inv m' /\ m_lo m' = m_lo m /\ m_hi m' = m_hi m /\
    mem (store ch') !! b = Some blk' /\ isValid blk' = true /\ isDirty blk' = false /\
    (blk_set blk', tag blk', isSecure blk') = l /\ delete l (cached ch') = delete l (cached ch) /\
    coherent (cfg (store ch)) (m_lo m) (m_hi m) (delete l (cached ch)) (m_bytes m') /\
    same_mem (view (cfg (store ch)) (delete l (cached ch)) (m_bytes m')) (seen ch (m_bytes m)).
Proof.
  intros [Hok Hi Hco Htop] Hm (Hb & Hd & Hl). set (c := cfg (store ch)) in *.
  assert (Hcfg : cfg_ok c) by apply Hok.
  assert (Hv : isValid blk = true) by (unfold line_of in Hl; by destruct (isValid blk)).
  assert (El : (blk_set blk, tag blk, isSecure blk) = l)
    by (unfold line_of in Hl; rewrite Hv in Hl; congruence).
  assert (Hst : cached ch !! l = Some (line_state blk d)) by (by eapply cached_held).
  destruct (Hco _ _ Hst) as (Hlo & Hlen & _). cbn [ls_data line_state] in Hlen.
  pose proof Hlo as [L1 L2 _ _ L5].
  unfold writebackVisitor, get_ref, get_data. rewrite (getBlk_ok _ _ _ Hb). cbn [mbind outcome_bind].
  destruct (isDirty blk) eqn:Hdirty.
  2: { destruct (evict_clean c Hcfg _ _ (cached ch) (m_bytes m) l _ Hco Hst Hdirty) as [G1 G2].
       by exists ch, m, blk. }
  rewrite Hv, (aget_ok _ _ _ Hd). cbn [mbind outcome_bind]. fold c.
  set (pkt := (new_packet _ _ _) <| pk_data := d |>).
  assert (Epa : pk_addr pkt = line_base c l) by (rewrite <- El; reflexivity).
  assert (Epd : pk_data pkt = d) by reflexivity.
  assert (Eps : pk_size pkt = blkSize c) by (apply (co_blkSize _ _ Hok)).
  assert (Epc : pk_cmd pkt = WriteReq) by reflexivity. clearbody pkt.
  destruct (functional_law m pkt) as (m' & p' & -> & Hm' & Hlo' & Hhi' & Hb');
    rewrite ?Epa, ?Epd, ?Eps; try done; try tauto; [by apply blkSize_pos|].
  rewrite Epa, Epd in Hb'. cbn [mbind outcome_bind]. unfold clear_bits.
  destruct (upd_status_ok env ch b blk (fun s => Z.land s (Z.lnot BlkDirty)) Hok Hb Hv)
    as (ch' & -> & Hok' & Hk' & _ & Em & Ed & Hc');
    [by rewrite isValid_bit in Hv; status_bits|by status_bits|].
  cbn [mbind outcome_bind]. specialize (Hc' d Hd). rewrite El in Hc'.
  destruct (evict_dirty c Hcfg _ _ (cached ch) (m_bytes m) l _ Hco Hst) as [G1 G2].
  cbn [ls_data line_state] in G1, G2.
  exists ch', m', (blk <| status := Z.land (status blk) (Z.lnot BlkDirty) |>). split; [done|].
  split_and!; try done.
  - rewrite Em. apply list_lookup_insert_eq. by eapply lookup_lt_Some.
  - rewrite isValid_bit in *. by status_bits.
  - by status_bits.
  - rewrite <- El. f_equal. by status_bits.
  - rewrite Hc'. by rewrite delete_insert_eq.
  - eapply coherent_ext; [exact G1|]. intros. apply Hb'.
  - etrans; [|exact G2]. intros x _. apply view_ext. intros _. apply Hb'.
Qed.

Lemma uncacheableFlush_ok fm ch m p :
  cache_sys env (m_lo m) (m_hi m) ch (m_bytes m) -> m_inv m ->
  pk_secure p = false -> isClearLL p = false ->
  exists ch' m', uncacheableFlush env fm p ch m = Ok (ch', m') /\
    flushed ch m (line_at (cfg (store ch)) (pk_addr p) false) ch' m'.
Proof.
  intros Hsys Hm Hsec Hcl. pose proof Hsys as [Hok Hi Hco Htop].
  set (l := line_at (cfg (store ch)) (pk_addr p) false).
  unfold uncacheableFlush. rewrite Hcl, Hsec. cbn [mbind outcome_bind].
  destruct (findBlock_spec (store ch) (pk_addr p) false (ok_wf _ _ (co_tags _ _ Hok)))
    as [(b & blk & -> & Hb & Hl)|[-> Hn]]; cbn [mbind outcome_bind].
  2: { exists ch, m. split; [done|]. split_and!; try done. by apply (cached_None env). }
  destruct (data_of env ch b blk Hok Hb) as (d & Hd & _).
  destruct (writebackVisitor_ok fm ch m l b blk d Hsys Hm) as
    (ch1 & m1 & blk1 & -> & Hok1 & Hk1 & Hm1 & Hlo & Hhi & Hb1 & Hv1 & Hd1 & El & Ed & G1 & G2).
  { by split_and!. }
  cbn [mbind outcome_bind]. unfold invalidateVisitor, get_ref. rewrite (getBlk_ok _ _ _ Hb1).
  cbn [mbind outcome_bind]. rewrite Hv1, Hd1. cbn [negb].
  destruct (invalidate_ref_ok env ch1 b blk1 Hok1 Hb1 Hv1)
    as (ch2 & blk2 & -> & Hok2 & Hk2 & _ & _ & _ & Hc2). cbn [mbind outcome_bind].
  rewrite El, Ed in Hc2. exists ch2, m1. split; [done|].
  assert (Hk : kin ch ch2) by (by eapply kin_trans).
  unfold flushed. rewrite Hc2. split_and!; try done.
  - split; [done|by eapply kin_idle| |by rewrite (kin_par _ _ Hk)]. by rewrite (kin_cfg _ _ Hk), Hc2.
  - unfold seen at 1. by rewrite (kin_cfg _ _ Hk), Hc2.
  - apply lookup_delete_eq.
Qed.

(** ** An uncacheable request *)

Lemma uncacheable_ok fm ch m p :
  system_ok env ch m -> request env ch m p -> isUncacheable p = true ->
  transacted env ch m p (a ← access env fm p [] ch m;
    a ← (if a_ok a then Ok a else atomic_miss env a); conclude env a).
Proof.
  intros Hsys [Hreq Hpol] Hunc. pose proof (cpu_cmd _ _ _ _ _ Hreq) as Hcmd.
  assert (Hcfg : cfg_ok (cfg (store ch))) by apply Hsys.
  unfold access. replace (isRequest (pk_cmd p)) with true by (by destruct Hcmd as [->|[->|[->|[->| ->]]]]).
  rewrite Hunc.
  destruct (uncacheableFlush_ok fm ch m p ltac:(apply Hsys) ltac:(apply Hsys) ltac:(apply Hreq)
    ltac:(apply Hreq)) as (ch1 & m1 & -> & Hcs1 & Hk1 & Hm1 & Hlo1 & Hhi1 & Hsee1 & Hn1).
  cbn [mbind outcome_bind a_ok]. unfold atomic_miss. cbn [a_pkt a_blk a_ch a_m a_lat a_wbs].
  rewrite bool_decide_eq_false_2 by (destruct Hcmd as [->|[->|[->|[->| ->]]]]; done).
  cbn [negb]. unfold getBusPacket. cbn [mbind outcome_bind]. rewrite Hunc.
  cbn [mbind outcome_bind]. pose proof Hreq as [].
  assert (Hrq : request_ok (maxMasters env) (m_lo m1) (m_hi m1) p).
  { rewrite Hlo1, Hhi1. split; try done.
    - destruct Hcmd as [->|[->|[->|[->| ->]]]]; apply (bool_decide_eq_true_1 _); reflexivity.
    - pose proof (blkAlign_range _ Hcfg _ cr_addr). lia. }
  destruct (atomic_law m1 p Hm1 Hrq) as (m2 & t & sc & -> & Hm2 & Hlo2 & Hhi2 & Hb2).
  cbn [mbind outcome_bind]. unfold conclude. cbn [a_wbs a_m a_pkt a_blk a_ch a_lat].
  unfold send_writebacks. cbn [foldO mbind outcome_bind].
  unfold complete_write_invalidate.
  assert (Hrc : pk_cmd (respond (ref_effect sc (m_bytes m1) p).2) = responseCommand (pk_cmd p)).
  { unfold respond. rewrite ref_effect_cmd.
    by destruct Hcmd as [E|[E|[E|[E|E]]]]; rewrite E. }
  rewrite decide_False by (rewrite Hrc; destruct Hcmd as [->|[->|[->|[->| ->]]]]; done).
  cbn [mbind outcome_bind].
  replace (needsResponse (pk_cmd (respond _))) with false
    by (rewrite Hrc; by destruct Hcmd as [->|[->|[->|[->| ->]]]]).
  cbn [mbind outcome_bind].
  assert (Hco : coherent (cfg (store ch)) (m_lo m) (m_hi m) (cached ch1) (m_bytes m1))
    by (rewrite <- (kin_cfg _ _ Hk1); apply Hcs1).
  destruct (free_effect (cfg (store ch)) Hcfg (m_lo m) (m_hi m) (cached ch1) (m_bytes m1) p
    Hco Hn1 cr_addr cr_line cr_len sc) as (G1 & G2 & G3).
  destruct (ref_effect_same sc _ _ p cr_addr (request_top _ _ _ _ _ Hcfg Hreq) Hsee1) as [E1 E2].
  unfold seen at 1 in E1. unfold seen at 1 in E2. rewrite (kin_cfg _ _ Hk1) in E1, E2.
  eexists ch1, m2, _, _, sc. split; [done|]. split_and!; try congruence; try done.
  - split; [|done|rewrite (kin_par _ _ Hk1); apply Hsys]. rewrite Hlo2, Hhi2, Hlo1, Hhi1.
    apply (cache_sys_ext _ _ _ _ _ _ Hb2). destruct Hcs1. split; try done.
    by rewrite (kin_cfg _ _ Hk1).
  - etrans; [intros x _; apply (seen_ext ch1 _ _ Hb2)|]. unfold seen. rewrite (kin_cfg _ _ Hk1).
    etrans; [exact G2|]. exact E2.
  - unfold answered. rewrite <- E1, <- G3. unfold respond. by destruct (needsResponse _).
  - left. done.
Qed.
End flush.
