(* ===== verification/Transparent.v ===== *)
(** Transparency of a top-level cache in atomic mode: whatever its replacement
    policy and its size, a processor cannot tell it from the memory below. *)
From S2P Require Import Prelude IntMath MemTypes Blk CacheSet SetAssoc Tags Policy Account.
From S2P Require Import Lines Memory Mshr Cache CacheSide CacheLaws MemLaws View Atomic.
From S2P Require Import WholeLine Uncached.

#[local] Open Scope Z_scope.

Section transparent.
Context {T : Type} `{PolicyLaws T}.
Context (env : Env) {M : Type} `{MemSideLaws M (maxMasters env)}.
Implicit Types (ch : Cache T) (m : M) (p : CPkt).

(** Requests [promoteWholeLineWrites] turns into whole-line writes. *)
Definition promotes ch p : bool :=
  doFastWrites (par ch) && bool_decide (pk_cmd p = WriteReq)
    && (pk_size p =? c_blkSize (par ch)) && (getOffset (c_blkSize (par ch)) p =? 0).

(** A request the cache serves: an uncacheable one must not be promoted. *)
Definition serviceable ch m p : Prop :=
  request env ch m p /\ (isUncacheable p = true -> promotes ch p = false).

Lemma promotes_false ch p : promotes ch p = false -> promoteWholeLineWrites p ch = Ok p.
Proof. intros E. unfold promoteWholeLineWrites. unfold promotes in E. by rewrite E. Qed.

Lemma promotes_true ch m p :
  system_ok env ch m -> request env ch m p -> promotes ch p = true ->
  promoteWholeLineWrites p ch = Ok (wi p) /\ promoted env ch m p.
Proof.
  intros Hsys Hrq E. unfold promoteWholeLineWrites. unfold promotes in E. rewrite E.
  apply andb_true_iff in E as [[[_ Hc%bool_decide_eq_true]%andb_true_iff
    Hs%Z.eqb_eq]%andb_true_iff Ho%Z.eqb_eq].
  pose proof (sys_cache _ _ _ Hsys) as [Hok _ _ Htop]. rewrite Htop. split; [done|].
  rewrite (co_blkSize _ _ Hok) in Hs, Ho. pose proof Hrq as [Hreq _].
  rewrite getOffset_ok in Ho by (apply Hok || apply Hreq). split; try done. lia.
Qed.

(** A cacheable request, once the tag store has been looked up. *)
Lemma cacheable_ok fm ch m p q :
  system_ok env ch m -> request env ch m p -> isUncacheable p = false ->
  q = p /\ promotes ch p = false \/ q = wi p /\ promoted env ch m p ->
  transacted env ch m p (a ← access env fm q [] ch m;
    a ← (if a_ok a then Ok a else atomic_miss env a); conclude env a).
Proof.
  intros Hsys [Hreq Hpol] Hunc Hq. pose proof (cpu_cmd _ _ _ _ _ Hreq) as Hcmd.
  pose proof (sys_cache _ _ _ Hsys) as [Hok Hi Hco Htop].
  assert (Hqs : isRequest (pk_cmd q) = true /\ isUncacheable q = false /\ pk_addr q = pk_addr p /\
    pk_secure q = false /\ pk_req q = pk_req p).
  { destruct Hq as [[-> _]|[-> _]]; split_and!; try done; try apply Hreq.
    by destruct Hcmd as [->|[->|[->|[->| ->]]]]. }
  destruct Hqs as (Q1 & Q2 & Q3 & Q4 & Q5). unfold access. rewrite Q1, Q2, Q3, Q4, Q5.
  destruct (accessBlock_cache env ch (pk_addr p) false (pk_cmd q) (masterId (pk_req p)) Hok Hpol)
    as (x & ob & lat & -> & Hok1 & Hk1 & Hc1 & Hob).
  cbn [mbind outcome_bind]. set (ch1 := ch <| tags := x |>) in *.
  destruct Hq as [[-> Hnp]|[-> Hpr]].
  - rewrite !decide_False by (destruct Hcmd as [->|[->|[->|[->| ->]]]]; naive_solver).
    apply access_block_ok; try done. split; try done. by rewrite (kin_cfg _ _ Hk1), Hc1.
  - rewrite decide_True by (right; split; [done|]; by rewrite (kin_par _ _ Hk1), Htop).
    by apply whole_line_ok.
Qed.

Lemma recvAtomic_transacted fm ch m p :
  system_ok env ch m -> serviceable ch m p ->
  transacted env ch m p (recvAtomic env fm p ch m).
Proof.
  intros Hsys [Hrq Hun]. pose proof Hrq as [Hreq Hpol]. unfold recvAtomic.
  rewrite (sys_bypass _ _ _ Hsys).
  destruct (promotes ch p) eqn:Hpr.
  - destruct (promotes_true ch m p Hsys Hrq Hpr) as [-> Hp]. cbn [mbind outcome_bind].
    change (memInhibitAsserted (wi p)) with (memInhibitAsserted p).
    rewrite (cr_inhibit _ _ _ _ _ Hreq).
    apply (cacheable_ok fm ch m p (wi p)); try done; [|by right].
    destruct (isUncacheable p); [naive_solver|done].
  - rewrite (promotes_false _ _ Hpr). cbn [mbind outcome_bind].
    rewrite (cr_inhibit _ _ _ _ _ Hreq).
    destruct (isUncacheable p) eqn:Hunc; [by apply uncacheable_ok|].
    apply (cacheable_ok fm ch m p p); try done. by left.
Qed.
End transparent.

(** ** Sequences of requests *)

Definition at_tick (t : Z) (env : Env) : Env :=
  {| curTick := t; clockPeriod := clockPeriod env; maxMasters := maxMasters env;
     watershed := watershed env |}.

(** The reference memory answers the requests in order. *)
Fixpoint ref_run (scs : list bool) (f : Bytes) (ps : list (Z * CPkt)) : Bytes * list CPkt :=
  match ps, scs with
  | (_, p) :: ps, sc :: scs =>
      let '(f', r) := ref_effect sc f p in
      let '(f'', rs) := ref_run scs f' ps in (f'', r :: rs)
  | _, _ => (f, [])
  end.

Section runs.
Context {T : Type} `{PolicyLaws T}.
Context (env : Env) {M : Type} `{ML : MemSideLaws M (maxMasters env)}.
Implicit Types (ch : Cache T) (m : M) (p : CPkt).

(** Each request arrives at its own tick. *)
Fixpoint run (fm : Z) (ps : list (Z * CPkt)) ch m : outcome (Cache T * M * list CPkt) :=
  match ps with
  | [] => Ok (ch, m, [])
  | (t, p) :: ps =>
      '(ch, m, r, _) ← recvAtomic (at_tick t env) fm p ch m;
      '(ch, m, rs) ← run fm ps ch m;
      Ok (ch, m, r :: rs)
  end.

#[local] Instance tick_laws t : MemSideLaws M (maxMasters (at_tick t env)) | 1000 := ML.

Lemma cache_ok_tick e1 e2 ch : maxMasters e1 = maxMasters e2 -> cache_ok e1 ch -> cache_ok e2 ch.
Proof.
  intros E [[Hwf Ho Hown] ? ? ? ? ? ? ? ?]. split; try done. split; [done|congruence|].
  intros b blk Hb Hv. rewrite <- E. by eapply Hown.
Qed.

Lemma cache_sys_tick e1 e2 lo hi ch f :
  maxMasters e1 = maxMasters e2 -> cache_sys e1 lo hi ch f -> cache_sys e2 lo hi ch f.
Proof. intros E []. split; try done. by apply (cache_ok_tick e1). Qed.

Lemma system_tick t ch m : system_ok env ch m <-> system_ok (at_tick t env) ch m.
Proof.
  split; intros []; split; try done; [by apply (cache_sys_tick env)|by apply (cache_sys_tick (at_tick t env))].
Qed.

Lemma serviceable_tick t ch m p : serviceable env ch m p -> serviceable (at_tick t env) ch m p.
Proof. intros [[[] Hp] Hun]. split; [split; [by split|done]|done]. Qed.

Lemma serviceable_kin ch ch' m m' p :
  kin ch ch' -> m_lo m' = m_lo m -> m_hi m' = m_hi m ->
  serviceable env ch m p -> serviceable env ch' m' p.
Proof.
  intros Hk Hlo Hhi [[Hr Hp] Hun]. split; [split; [|done]|].
  - rewrite Hlo, Hhi. by eapply request_kin.
  - intros Hu. unfold promotes. rewrite (kin_par _ _ Hk). by apply Hun.
Qed.

Lemma ref_run_same scs f g (ps : list (Z * CPkt)) c lo hi :
  cfg_ok c -> same_mem f g -> Forall (fun tp => cpu_request env c lo hi tp.2) ps ->
  (ref_run scs f ps).2 = (ref_run scs g ps).2 /\
  same_mem (ref_run scs f ps).1 (ref_run scs g ps).1.
Proof.
  intros Hc. revert scs f g. induction ps as [|[t p] ps IH]; intros [|sc scs] f g E Hps; try done.
  apply Forall_cons in Hps as [Hp Hps]. simpl.
  destruct (ref_effect_same sc f g p ltac:(apply Hp) (request_top env c lo hi p Hc Hp) E) as [E1 E2].
  destruct (ref_effect sc f p) as [f' r], (ref_effect sc g p) as [g' r']. simpl in E1, E2. subst r'.
  destruct (IH scs f' g' E2 Hps) as [E3 E4].
  destruct (ref_run scs f' ps) as [f'' rs], (ref_run scs g' ps) as [g'' rs']. simpl in *.
  by subst.
Qed.

(** Each answer has the data and the request of the reference answer. *)
Definition same_answer (p p' : CPkt) : Prop := pk_data p' = pk_data p /\ pk_req p' = pk_req p.

Lemma run_ok fm ps ch m :
  system_ok env ch m -> Forall (fun tp => serviceable env ch m tp.2) ps ->
  exists ch' m' rs scs, run fm ps ch m = Ok (ch', m', rs) /\ system_ok env ch' m' /\
    length scs = length ps /\
    same_mem (seen ch' (m_bytes m')) (ref_run scs (seen ch (m_bytes m)) ps).1 /\
    Forall2 same_answer (ref_run scs (seen ch (m_bytes m)) ps).2 rs.
Proof.
  revert ch m. induction ps as [|[t p] ps IH]; intros ch m Hsys Hps.
  { exists ch, m, [], []. by split_and!. }
  apply Forall_cons in Hps as [Hp Hps]. cbn [run].
  destruct (recvAtomic_transacted (at_tick t env) fm ch m p) as
    (ch1 & m1 & r & lat & sc & -> & Hsys1 & Hk & Hlo & Hhi & Hsee & Hans & _).
  { by apply system_tick. }
  { by apply serviceable_tick. }
  cbn [mbind outcome_bind]. apply system_tick in Hsys1.
  destruct (IH ch1 m1 Hsys1) as (ch2 & m2 & rs & scs & -> & Hsys2 & Hl & Hsee2 & Hans2).
  { eapply Forall_impl; [exact Hps|]. intros tp. by apply serviceable_kin. }
  cbn [mbind outcome_bind]. exists ch2, m2, (r :: rs), (sc :: scs).
  assert (Hcfg : cfg_ok (cfg (store ch))) by apply Hsys.
  assert (Hrs : Forall (fun tp => cpu_request env (cfg (store ch)) (m_lo m) (m_hi m) tp.2) ps)
    by (eapply Forall_impl; [exact Hps|]; intros tp [[Hr _] _]; exact Hr).
  destruct (ref_run_same scs _ _ ps _ _ _ Hcfg Hsee Hrs) as [E1 E2].
  cbn [ref_run]. unfold answered in Hans.
  destruct (ref_effect sc (seen ch (m_bytes m)) p) as [f' r'] eqn:Er. cbn [fst snd] in *.
  assert (Hans3 : Forall2 same_answer (ref_run scs f' ps).2 rs) by (rewrite <- E1; exact Hans2).
  clear E1 Hans2.
  destruct (ref_run scs f' ps) as [f'' rs'] eqn:Ers. cbn [fst snd] in *.
  split_and!; try done; [simpl; by rewrite Hl|by etrans|by constructor].
Qed.
End runs.
