(* ===== verification/Init.v ===== *)
(** The state the constructors leave: an empty tag store with its books in
    order, and a cache that holds nothing. *)
From S2P Require Import Prelude IntMath MemTypes Blk CacheSet SetAssoc Tags Policy Account.
From S2P Require Import Lines Memory Mshr Cache CacheSide CacheLaws MemLaws View Atomic.

#[local] Open Scope Z_scope.

(** ** The cache after its constructor *)

Section cache_new.
Context {T : Type} `{PolicyLaws T} (env : Env) (p : CacheParams) (x : T).
Context (bytes : list (list Z)) (temp : list Z) (entries maxMiss : Z).
Context (c : TagConfig) (Hc : cfg_ok c) (Hm : 0 <= maxMasters env).
Context (Hx : base x = init_tags c (maxMasters env)) (Hinv : pol_inv x).
Context (Hsize : c_blkSize p = blkSize c).
Context (Hbytes : length bytes = (numSets c * ways c)%nat).
Context (Hdata : Forall (fun d => Z.of_nat (length d) = blkSize c) bytes).
Let ch := Cache_new p x bytes temp entries maxMiss.

Lemma Cache_new_store : store ch = init_tags c (maxMasters env).
Proof. exact Hx. Qed.

Lemma Cache_new_ok : cache_ok env ch.
Proof.
  split; rewrite ?Cache_new_store; try done.
  - by apply init_ok.
  - by apply init_lines.
  - by apply init_books.
  - by rewrite init_mem_length.
  - intros b d Hd. simpl. rewrite Hsize. by eapply (Forall_lookup_1 _ _ _ _ Hdata).
  - intros b blk Hb Hv. apply (init_invalid c Hc) in Hb as [Hb _]. congruence.
  - intros b blk Hb _. by apply (init_invalid c Hc) in Hb as [_ Hb].
Qed.

Lemma Cache_new_empty : cached ch = ∅.
Proof.
  apply map_eq. intros l. rewrite lookup_empty. apply (cached_None env); [apply Cache_new_ok|].
  rewrite Cache_new_store. intros Hl. unfold contents in Hl.
  apply elem_of_list_to_set, list_elem_of_omap in Hl as (blk & Hb & Hl).
  apply (init_invalid_in c Hc) in Hb. unfold line_of in Hl. by rewrite Hb in Hl.
Qed.

Context {M : Type} `{MemSideLaws M (maxMasters env)} (m : M).

Lemma Cache_new_system :
  m_inv m -> isTopLevel p = true -> bypassCaches p = false -> system_ok env ch m.
Proof.
  intros Hmi Ht Hb. split; try done. split; try done; [apply Cache_new_ok|].
  intros l st. rewrite Cache_new_empty. done.
Qed.

Lemma Cache_new_seen : forall a, seen ch (m_bytes m) a = m_bytes m a.
Proof. intros a. unfold seen, view. by rewrite Cache_new_empty. Qed.
End cache_new.
