(* ===== verification/Correct.v ===== *)
(** The cache as it is built and used: every policy's constructor leaves a
    state its laws accept, so a cache made by its constructor, over any memory
    that honours the interface, answers a sequence of requests as that memory
    alone would. *)
From S2P Require Import Prelude IntMath MemTypes Blk CacheSet SetAssoc Tags Policy.
From S2P Require Import Lru Hybrid Rrip Eaf Bloom Brp Hap Account.
From S2P Require Import Lines Memory Mshr Cache CacheSide CacheLaws MemLaws View Atomic.
From S2P Require Import WholeLine Uncached Transparent Init.

#[local] Open Scope Z_scope.

(** ** Constructors of the policies *)

Section constructors.
Context (t : TagStore) (Hc : cfg_ok (cfg t)).

Lemma counters_new v : 0 <= v < 256 -> Hybrid.counters_ok t (replicate (numSets (cfg t)) v).
Proof. intros Hv. split; [by rewrite length_replicate|by apply Forall_replicate_1]. Qed.

Lemma HYBDIP_new_ok : (16 <= ways (cfg t))%nat -> pol_inv (Hybdip.HYBDIP_new t).
Proof. intros Hw. split; [done|]. apply counters_new. by vm_compute. Qed.

Lemma IHYBDIP_new_ok : (16 <= ways (cfg t))%nat -> pol_inv (Ihybdip.IHYBDIP_new t).
Proof. intros Hw. split; [done|]. apply counters_new. by vm_compute. Qed.

Lemma FEAF_new_ok : (14 < ways (cfg t))%nat -> pol_inv (Feaf.FEAF_new t).
Proof.
  intros Hw. split; [done|]. split; [apply length_replicate|].
  apply Forall_replicate_1. exists []. apply represents_empty.
Qed.

(** A filter of a power-of-two size whose index is no longer than a tag. *)
Lemma filters_new_ok cnt k :
  0 <= k < 32 -> k <= 32 - tagShift (cfg t) ->
  exists fs, HSetBloomFilter.filters_new t cnt (2 ^ k) = Ok fs /\ bloom_ok t fs.
Proof.
  intros Hk Hb. unfold HSetBloomFilter.filters_new, HSetBloomFilter.HSetBloomFilter_new.
  assert (H1 : 1 <= 2 ^ k < 2 ^ 32)
    by (split; [apply Z.lt_pred_le, Z.pow_pos_nonneg|apply Z.pow_lt_mono_r]; lia).
  assert (E : ceilLog2 (2 ^ k) = Ok k).
  { destruct (Z.eq_dec k 0) as [->|]; [done|].
    destruct (ceilLog2_spec (2 ^ k) H1) as (j & -> & Hn & Hle & Hlt). f_equal.
    apply Z.pow_le_mono_r_iff in Hle; [|lia..].
    assert (Hp : 2 ^ (j - 1) < 2 ^ k)
      by (apply Hlt; change 1 with (2 ^ 0); apply Z.pow_lt_mono_r; lia).
    apply Z.pow_lt_mono_r_iff in Hp; lia. }
  rewrite E. cbn [mbind outcome_bind].
  eexists. split; [done|]. split; [apply length_replicate|]. apply Forall_replicate_1. split; simpl.
  - by rewrite length_replicate.
  - apply Nat2Z.inj_le. rewrite Nat2Z.inj_pow, !Z2Nat.id by lia. done.
  - lia.
Qed.

Lemma HAP_new_ok bits :
  0 <= bits <= tagShift (cfg t) - setShift (cfg t) -> pol_inv (Hap.HAP_new t bits).
Proof. done. Qed.

Lemma HAPTEST_new_ok bits :
  0 <= bits <= tagShift (cfg t) - setShift (cfg t) -> pol_inv (Haptest.HAPTEST_new t bits).
Proof.
  intros Hb. split; [done|]. simpl. rewrite length_replicate, Z.shiftl_1_l, Z2Nat.id; [done|].
  apply Z.pow_nonneg. lia.
Qed.
End constructors.

(** ** A cache from its constructor *)

(** A run of requests, each at its tick, over a cache built from the policy
    state [x]: the run succeeds, the answers are those of the memory below
    alone, and at the end the system shows that memory as the requests leave
    it.  [scs] are the outcomes of the store-conditionals among them. *)
Definition answers_as_memory {T} `{Policy T} (env : Env) (c : TagConfig) (p : CacheParams)
    (master_ok : Z -> Prop) (x : T) : Prop :=
  forall (M : Type) (side : MemSide M) (laws : MemSideLaws M (maxMasters env)) (m : M)
    bytes temp entries maxMiss fm ps,
  m_inv m -> length bytes = (numSets c * ways c)%nat ->
  Forall (fun d => Z.of_nat (length d) = blkSize c) bytes ->
  let ch := Cache_new p x bytes temp entries maxMiss in
  Forall (fun tp : Z * CPkt => cpu_request env c (m_lo m) (m_hi m) tp.2 /\ master_ok (masterId (pk_req tp.2)) /\
    (isUncacheable tp.2 = true -> promotes ch tp.2 = false)) ps ->
  exists ch' m' rs scs, run env fm ps ch m = Ok (ch', m', rs) /\ length scs = length ps /\
    Forall2 same_answer (ref_run scs (m_bytes m) ps).2 rs /\
    same_mem (seen ch' (m_bytes m')) (ref_run scs (m_bytes m) ps).1.

Section lawful.
Context {T : Type} `{PolicyLaws T} (env : Env) (c : TagConfig) (p : CacheParams).
Context (Hc : cfg_ok c) (Hm : 0 <= maxMasters env).
Context (Hsize : c_blkSize p = blkSize c) (Htop : isTopLevel p = true).
Context (Hbypass : bypassCaches p = false).

Lemma lawful_answers (x : T) :
  base x = init_tags c (maxMasters env) -> pol_inv x ->
  answers_as_memory env c p pol_master x.
Proof.
  intros Hx Hinv M side laws m bytes temp entries maxMiss fm ps Hmi Hb Hd ch Hps.
  pose proof (Cache_new_system env p x bytes temp entries maxMiss c Hc Hm Hx Hinv Hsize Hb Hd m
    Hmi Htop Hbypass) as Hsys.
  assert (Hseen : forall a, seen ch (m_bytes m) a = m_bytes m a)
    by (by apply (Cache_new_seen env p x bytes temp entries maxMiss c)).
  assert (Hcfg : cfg (store ch) = c) by (unfold ch, store; simpl; by rewrite Hx).
  destruct (run_ok env fm ps ch m Hsys) as (ch' & m' & rs & scs & Hrun & _ & Hl & Hmem & Hans).
  { eapply Forall_impl; [exact Hps|]. intros tp (H1 & H2 & H3). split; [split|]; try done.
    by rewrite Hcfg. }
  destruct (ref_run_same env scs (seen ch (m_bytes m)) (m_bytes m) ps c (m_lo m) (m_hi m) Hc)
    as [E1 E2]; [intros a _; apply Hseen| |].
  { eapply Forall_impl; [exact Hps|]. by intros tp (H1 & _). }
  exists ch', m', rs, scs. split_and!; [done..|by rewrite <- E1|]. by etrans.
Qed.
End lawful.


(** *** A small system *)

Definition small_cfg : TagConfig :=
  MkConfig 4 1 16 8 false 2 5 7 3 128 128.

Definition small_par : CacheParams := MkCacheParams 4 1 1 true true false false 0.
Definition small_env : Env := MkEnv 1000 10 16 512.

(** 1024 bytes of memory, and what the cache's data array holds at reset. *)
Definition small_mem : SimpleMemory :=
  let v := replicate 16 0 in
  MkSimple (MkMem 0 1023 (Some (Z.of_nat <$> seq 0 1024)) [] v v v v v v) 100 0 (fun _ lo _ => lo) 0.
Definition small_bytes : list (list Z) := replicate 128 [0; 0; 0; 0].
Definition small_cache {T} (x : T) : Cache T := Cache_new small_par x small_bytes [0; 0; 0; 0] 4 10.

Definition small_request (cd : Command) (addr : Z) (bytes : list Z) : CPkt :=
  MkCPkt (MkPacket cd addr false (MkRequest addr (Z.of_nat (length bytes)) 7 0 0 0))
    (Z.of_nat (length bytes)) bytes false false false false false false false false.

Lemma small_cfg_ok : cfg_ok small_cfg.
Proof. split; vm_compute; split_and?; congruence || lia. Defined.

Lemma small_mem_ok : m_inv (masters := 16) small_mem.
Proof.
  split; [|by vm_compute..].
  exists (Z.of_nat <$> seq 0 1024). split; [done|]. by vm_compute.
Defined.

(** A store of two bytes, a load-linked and a whole-line store. *)
Definition small_run : list (Z * CPkt) :=
  [(1010, small_request WriteReq 66 [170; 187]); (1020, small_request LoadLockedReq 64 [0; 0; 0; 0]);
   (1030, small_request WriteReq 512 [1; 2; 3; 4])].

Lemma small_requests_ok :
  Forall (fun tp : Z * CPkt => cpu_request small_env small_cfg (m_lo (masters := 16) small_mem)
      (m_hi (masters := 16) small_mem) tp.2 /\
    True /\ (isUncacheable tp.2 = true -> promotes (small_cache (Lru.MkLRU (init_tags small_cfg 16))) tp.2 = false))
    small_run.
Proof.
  repeat apply Forall_cons_2; try apply Forall_nil_2; repeat split; try (vm_compute; congruence || lia);
    try (apply (bool_decide_eq_true_1 _); by vm_compute).
Defined.





Lemma small_cache_ok : cache_ok small_env (small_cache (Lru.MkLRU (init_tags small_cfg 16))).
Proof.
  apply (Cache_new_ok small_env small_par (Lru.MkLRU (init_tags small_cfg 16)) small_bytes
    [0; 0; 0; 0] 4 10 small_cfg small_cfg_ok); try done. by repeat constructor.
Defined.

Lemma small_cache_empty : cached (small_cache (Lru.MkLRU (init_tags small_cfg 16))) = ∅.
Proof.
  apply (Cache_new_empty small_env small_par (Lru.MkLRU (init_tags small_cfg 16)) small_bytes
    [0; 0; 0; 0] 4 10 small_cfg small_cfg_ok); try done. by repeat constructor.
Defined.


(** C3. [handleFill] of a response that carries a line as the memory below has
    it, the line not being held: a block is found for it, the victim's dirty
    line goes to the write-backs, the line is held with the memory's bytes,
    and what is seen through the cache (with the write-backs applied below) is
    unchanged at every address. *)
Theorem handleFill_transparent {T} `{PolicyLaws T} (env : Env) (lo hi : Z) (ch : Cache T)
    (f : Bytes) (p : CPkt) (wbs : list CPkt) :
  cache_sys env lo hi ch f -> line_response env lo hi ch f p ->
  cached ch !! line_at (cfg (store ch)) (pk_addr p) false = None ->
  exists ch' b w blk d, handleFill env 0 p None wbs ch = Ok (ch', Way b, wbs ++ w) /\
    cache_sys env lo hi ch' (pend f w) /\
    same_mem (seen ch' (pend f w)) (seen ch f) /\
    held (mem (store ch')) (datas ch') (line_at (cfg (store ch)) (pk_addr p) false) b blk d /\
    Forall (fun wb => pk_cmd wb = Writeback /\ request_ok (maxMasters env) lo hi wb) w.
Proof.
  intros Hs Hr Hn. destruct (handleFill_new env lo hi ch f p wbs Hs Hr Hn)
    as (ch' & b & w & E & Hs' & _ & Hsee & Hw & blk & d & Hh).
  by exists ch', b, w, blk, d.
Qed.

Lemma handleFill_transparent_witness :
  let ch := small_cache (Lru.MkLRU (init_tags small_cfg 16)) in
  let f : Bytes := fun x => x mod 256 in
  let p := small_request ReadResp 64 [64; 65; 66; 67] in
  exists ch' b w blk d, handleFill small_env 0 p None [] ch = Ok (ch', Way b, [] ++ w) /\
    cache_sys small_env 0 1024 ch' (pend f w) /\
    same_mem (seen ch' (pend f w)) (seen ch f) /\
    held (mem (store ch')) (datas ch') (line_at (cfg (store ch)) (pk_addr p) false) b blk d /\
    Forall (fun wb => pk_cmd wb = Writeback /\ request_ok (maxMasters small_env) 0 1024 wb) w.
Proof.
  intros ch f p. apply (handleFill_transparent small_env 0 1024 ch f p []).
  - split; [exact small_cache_ok|done| |done]. intros l st Hl. exfalso.
    pose proof (eq_trans (eq_sym (f_equal (lookup l) small_cache_empty)) Hl) as E. done.
  - split; try done; try (by left); vm_compute; split_and?; congruence.
  - exact (f_equal (lookup _) small_cache_empty).
Defined.
