(* ===== verification/Linked.v ===== *)
(** Doubly linked lists in a store of nodes: what it means that the nodes [l]
    are linked in both directions, and the lemmas on splitting and relinking that
    [FaLru] and [Pages] share. *)
From S2P Require Import Prelude.

(** A node is its index; the links of a node are its predecessor and successor. *)
Definition first_or (nx : option nat) (l : list nat) : option nat :=
  match l with [] => nx | c :: _ => Some c end.
Definition last_or (pr : option nat) (l : list nat) : option nat :=
  match last l with None => pr | Some a => Some a end.

(** [l] is linked in both directions, between [pr] and [nx]. *)
Fixpoint seg (L : nat -> option (option nat * option nat)) (pr : option nat) (l : list nat)
    (nx : option nat) : Prop :=
  match l with
  | [] => True
  | b :: l => L b = Some (pr, first_or nx l) /\ seg L (Some b) l nx
  end.

Lemma seg_ext L L' pr l nx : (forall b, b ∈ l -> L' b = L b) -> seg L pr l nx -> seg L' pr l nx.
Proof.
  revert pr. induction l as [|b l IH]; intros pr He; [done|]. cbn [seg]. rewrite He by set_solver.
  intros [? ?]. split; [done|]. apply IH; [set_solver|done].
Qed.

Lemma last_or_cons pr b l : last_or pr (b :: l) = last_or (Some b) l.
Proof. unfold last_or. rewrite last_cons. by destruct (last l). Qed.
Lemma last_or_snoc pr l a : last_or pr (l ++ [a]) = Some a.
Proof. unfold last_or. by rewrite last_snoc. Qed.
Lemma first_or_app nx l1 l2 : first_or nx (l1 ++ l2) = first_or (first_or nx l2) l1.
Proof. by destruct l1. Qed.

Lemma seg_app L pr l1 l2 nx :
  seg L pr (l1 ++ l2) nx <-> seg L pr l1 (first_or nx l2) /\ seg L (last_or pr l1) l2 nx.
Proof.
  revert pr. induction l1 as [|b l1 IH]; intros pr; cbn [app seg]; [tauto|].
  rewrite IH, first_or_app, last_or_cons. tauto.
Qed.

(** A new successor of the last block, a new predecessor of the first. *)
Lemma seg_next L L' pr l a nx nx' x :
  a ∉ l -> (forall b, b ∈ l -> L' b = L b) -> L a = Some x -> L' a = Some (x.1, nx') ->
  seg L pr (l ++ [a]) nx -> seg L' pr (l ++ [a]) nx'.
Proof.
  intros Ha He Hx Hx' [H1 [H2 _]]%seg_app. apply seg_app. split; [by eapply seg_ext|].
  split; [|done]. rewrite Hx in H2. injection H2 as ->. done.
Qed.
Lemma seg_prev L L' pr pr' c l nx x :
  c ∉ l -> (forall b, b ∈ l -> L' b = L b) -> L c = Some x -> L' c = Some (pr', x.2) ->
  seg L pr (c :: l) nx -> seg L' pr' (c :: l) nx.
Proof.
  intros Hc He Hx Hx' [H1 H2]. split; [|by eapply seg_ext]. rewrite Hx in H1. injection H1 as ->. done.
Qed.

Lemma seg_at L pr p b s nx :
  seg L pr (p ++ b :: s) nx -> L b = Some (last_or pr p, first_or nx s).
Proof. by intros [_ [H _]]%seg_app. Qed.

(** The same for any list: the last node gets another successor, the first
    another predecessor. *)
Lemma seg_set_next L L' pr l nx nx' :
  NoDup l -> (forall b, b ∈ l -> Some b <> last l -> L' b = L b) ->
  (forall a x, last l = Some a -> L a = Some x -> L' a = Some (x.1, nx')) ->
  seg L pr l nx -> seg L' pr l nx'.
Proof.
  intros Hn He Ha. destruct l as [|a l _] using rev_ind; [done|]. rewrite last_snoc in He, Ha.
  apply NoDup_app in Hn as (_ & Hn & _). intros Hs.
  assert (Hal : a ∉ l) by (intros H; apply (Hn a H), list_elem_of_singleton; done).
  destruct (L a) as [x|] eqn:Ex; [|apply seg_at in Hs; by rewrite Ex in Hs].
  apply (seg_next L L' pr l a nx nx' x); [done| |done|by apply Ha|done].
  intros b Hb. apply He; [by apply elem_of_app; left|]. intros [= ->]. done.
Qed.
Lemma seg_set_prev L L' pr pr' l nx :
  NoDup l -> (forall b, b ∈ l -> Some b <> head l -> L' b = L b) ->
  (forall c x, head l = Some c -> L c = Some x -> L' c = Some (pr', x.2)) ->
  seg L pr l nx -> seg L' pr' l nx.
Proof.
  intros Hn He Hc. destruct l as [|c l]; [done|]. cbn [head] in He, Hc.
  apply NoDup_cons in Hn as [Hcl _]. intros Hs.
  destruct (L c) as [x|] eqn:Ex; [|destruct Hs as [H _]; by rewrite Ex in H].
  apply (seg_prev L L' pr pr' c l nx x); [done| |done|by apply Hc|done].
  intros b Hb. apply He; [by apply list_elem_of_further|]. intros [= ->]. done.
Qed.

Lemma last_or_None l : last_or None l = last l.
Proof. unfold last_or. by destruct (last l). Qed.
Lemma last_or_some pr l : l <> [] -> last_or pr l = last l.
Proof. unfold last_or. destruct (last l) eqn:E; [done|]. by apply last_None in E. Qed.
Lemma first_or_None l : first_or None l = head l.
Proof. by destruct l. Qed.

(** A node is bypassed: its predecessor gets its successor, and its successor
    its predecessor. *)
Lemma seg_bypass L L' pr l1 p l2 nx :
  NoDup (l1 ++ p :: l2) ->
  (forall b, b ∈ l1 ++ l2 -> Some b <> last l1 -> Some b <> head l2 -> L' b = L b) ->
  (forall a x, last l1 = Some a -> L a = Some x -> L' a = Some (x.1, first_or nx l2)) ->
  (forall c x, head l2 = Some c -> L c = Some x -> L' c = Some (last_or pr l1, x.2)) ->
  seg L pr (l1 ++ p :: l2) nx -> seg L' pr (l1 ++ l2) nx.
Proof.
  intros Hn Ho Ha Hc [H1 [_ H2]]%seg_app. apply NoDup_app in Hn as (Hn1 & Hd & [_ Hn2]%NoDup_cons).
  apply seg_app. split.
  - apply (seg_set_next L _ pr l1 (Some p) _ Hn1); [|done|exact H1]. intros b Hb Hl.
    apply Ho; [by apply elem_of_app; left|done|]. intros Hh. apply (Hd b Hb), list_elem_of_further.
    destruct l2; [done|]. injection Hh as ->. left.
  - apply (seg_set_prev L _ (Some p) _ l2 _ Hn2); [|done|exact H2]. intros b Hb Hh.
    apply Ho; [by apply elem_of_app; right| |done]. intros Hl. apply (Hd b); [|by apply list_elem_of_further].
    by apply last_Some_elem_of.
Qed.
