(* ===== verification/FaLru.v ===== *)
(** The fully associative tag store ([mem/cache/tags/fa_lru.hh], [fa_lru.cc]):
    one recency list of all blocks, linked through the blocks, with the
    boundaries of the smaller caches it tracks at the same time. *)
From S2P Require Import Prelude Linked IntMath MemTypes Blk.
From stdpp Require Import gmap.

#[local] Open Scope Z_scope.

(** ** State *)

(** A pointer to a block is its index in [blks]; [isTouched] of [FALRUBlk]
    hides the one of [CacheBlk]. *)
Record FALRUBlk := MkFABlk {
  fa_blk : CacheBlk;
  prev : option nat;
  next : option nat;
  fa_isTouched : bool;
  inCache : Z
}.
#[export] Instance FALRUBlk_settable : Settable FALRUBlk := fun b =>
  MkFABlk (fa_blk b) (prev b) (next b) (fa_isTouched b) (inCache b).

Record FALRU := MkFALRU {
  fa_blkSize : Z;
  fa_hitLatency : Z;
  cacheBoundaries : list (option nat);
  cacheMask : Z;
  numCaches : Z;
  blks : list FALRUBlk;
  fa_head : nat;
  fa_tail : nat;
  tagHash : gmap Z nat;
  fa_warmupBound : Z;
  fa_warmedUp : bool;
  warmupCycle : Z;
  fa_hits : list Z;
  fa_misses : list Z;
  accesses : Z;
  fa_replacements : Z;
  fa_tagsInUse : Z
}.
#[export] Instance FALRU_settable : Settable FALRU := fun f =>
  MkFALRU (fa_blkSize f) (fa_hitLatency f) (cacheBoundaries f) (cacheMask f) (numCaches f) (blks f)
    (fa_head f) (fa_tail f) (tagHash f) (fa_warmupBound f) (fa_warmedUp f) (warmupCycle f)
    (fa_hits f) (fa_misses f) (accesses f) (fa_replacements f) (fa_tagsInUse f).

Definition get_blk (b : nat) (f : FALRU) : outcome FALRUBlk := aget (blks f) b.
Definition upd_blk (b : nat) (g : FALRUBlk -> FALRUBlk) (f : FALRU) : outcome FALRU :=
  x ← get_blk b f; Ok (f <| blks ::= insert b (g x) |>).
(** A null pointer is not followed. *)
Definition deref (p : option nat) : outcome nat :=
  match p with Some b => Ok b | None => Err OutOfBounds end.

Definition caches (f : FALRU) : nat := Z.to_nat (numCaches f).
(** [(1 << i) & mask] *)
Definition has_bit (mask : Z) (i : nat) : bool := negb (Z.land (Z.shiftl 1 (Z.of_nat i)) mask =? 0).
(** [mask & ~(1 << i)] *)
Definition clear_bit (i : nat) (mask : Z) : Z := Z.land mask (Z.lnot (Z.shiftl 1 (Z.of_nat i))).

(** ** Construction *)

(** One block between the first and the last: its flags, the boundary it may
    be, its links. *)
Definition link_block (i : nat) (st : FALRU * Z * nat * Z) : outcome (FALRU * Z * nat * Z) :=
  let '(f, flags, j, index) := st in
  f ← upd_blk i (fun x => x <| inCache := flags |>) f;
  '(f, flags, j, index) ←
    (if Z.of_nat i =? u32 (index - 1) then
       cb ← aset (cacheBoundaries f) j (Some i);
       Ok (f <| cacheBoundaries := cb |>, clear_bit j flags, S j, u32 (Z.shiftl index 1))
     else Ok (f, flags, j, index));
  f ← upd_blk i (fun x => x <| prev := Some (i - 1)%nat |> <| next := Some (S i) |>
                            <| fa_isTouched := false |>) f;
  Ok (f, flags, j, index).

(** The constructor and the vectors [regStats] sizes; [touched] is what
    [isTouched] of the first and the last block holds, which nothing sets.
    With fewer than two blocks the links point outside the array. *)
Definition FALRU_new (size block_size hit_latency : Z) (touched : bool) : outcome FALRU :=
  if negb (isPowerOf2 32 block_size) then Err Fatal
  else if negb (0 <? hit_latency) then Err Fatal
  else if negb (isPowerOf2 32 size) then Err Fatal
  else
    l ← floorLog2 size;
    let nc := u32 (l - 17) in
    if 31 <=? nc then Err BadShift
    else
      let mask := if 0 <? nc then Z.shiftl 1 nc - 1 else 0 in
      let n := Z.to_nat (size / block_size) in
      if (n <? 2)%nat then Err OutOfBounds
      else
        let f := MkFALRU block_size hit_latency (replicate (Z.to_nat nc) None) mask nc
                   (replicate n (MkFABlk CacheBlk_new None None touched 0)) 0 (n - 1) ∅
                   (size / block_size) false 0 (replicate (S (Z.to_nat nc)) 0)
                   (replicate (S (Z.to_nat nc)) 0) 0 0 0 in
        f ← upd_blk 0 (fun x => x <| prev := None |> <| next := Some 1%nat |> <| inCache := mask |>) f;
        f ← upd_blk (n - 1) (fun x => x <| prev := Some (n - 2)%nat |> <| next := None |>
                                        <| inCache := 0 |>) f;
        '(f, _, j, index) ← for_from 1 (n - 2) link_block (f, mask, O, 2 ^ 17 / block_size);
        assert! (Z.of_nat j =? nc);
        assert! (index =? Z.of_nat n);
        Ok f.

(** ** The recency list *)

(** One round of the loop over the boundaries. *)
Definition boundary_step (b : nat) (updateMask : Z) (i : nat) (f : FALRU) : outcome FALRU :=
  p ← aget (cacheBoundaries f) i;
  if has_bit updateMask i then
    q ← deref p;
    f ← upd_blk q (fun x => x <| inCache ::= clear_bit i |>) f;
    x ← get_blk q f;
    Ok (f <| cacheBoundaries ::= insert i (prev x) |>)
  else if decide (p = Some b) then
    x ← get_blk b f;
    Ok (f <| cacheBoundaries ::= insert i (prev x) |>)
  else Ok f.

(** Taking [b], which is not the first, out of the list. *)
Definition unlink (b : nat) (f : FALRU) : outcome FALRU :=
  x ← get_blk b f;
  if decide (b = fa_tail f) then
    assert! bool_decide (next x = None);
    p ← deref (prev x);
    upd_blk p (fun y => y <| next := None |>) (f <| fa_tail := p |>)
  else
    p ← deref (prev x);
    f ← upd_blk p (fun y => y <| next := next x |>) f;
    c ← deref (next x);
    upd_blk c (fun y => y <| prev := prev x |>) f.

Definition to_front (b : nat) (f : FALRU) : outcome FALRU :=
  if decide (b = fa_head f) then Ok f
  else
    f ← unlink b f;
    f ← upd_blk b (fun x => x <| next := Some (fa_head f) |> <| prev := None |>) f;
    f ← upd_blk (fa_head f) (fun x => x <| prev := Some b |>) f;
    Ok (f <| fa_head := b |>).

Definition moveToHead (b : nat) (f : FALRU) : outcome FALRU :=
  x ← get_blk b f;
  let updateMask := Z.lxor (inCache x) (cacheMask f) in
  f ← for_from 0 (caches f) (boundary_step b updateMask) f;
  f ← upd_blk b (fun x => x <| inCache := cacheMask f |>) f;
  to_front b f.

(** ** Lookup and replacement *)

Definition fa_blkAlign (f : FALRU) (addr : Z) : Z := Z.land addr (u64 (Z.lnot (fa_blkSize f - 1))).

Definition hashLookup (addr : Z) (f : FALRU) : option nat := tagHash f !! addr.

(** [v[i]++] *)
Definition incr (i : nat) (v : list Z) : outcome (list Z) := x ← aget v i; aset v i (x + 1).

Definition count_cache (mask : Z) (i : nat) (f : FALRU) : outcome FALRU :=
  if has_bit mask i then h ← incr i (fa_hits f); Ok (f <| fa_hits := h |>)
  else m ← incr i (fa_misses f); Ok (f <| fa_misses := m |>).

(** The block, its [inCache] flags before the access, the latency. *)
Definition accessBlock (addr : Z) (f : FALRU) : outcome (option nat * Z * Z * FALRU) :=
  let f := f <| accesses ::= Z.succ |> in
  let blkAddr := fa_blkAlign f addr in
  let miss := f ← for_from 0 (S (caches f)) (fun i f =>
                     m ← incr i (fa_misses f); Ok (f <| fa_misses := m |>)) f;
              Ok (None, 0, fa_hitLatency f, f) in
  match hashLookup blkAddr f with
  | None => miss
  | Some b =>
      x ← get_blk b f;
      if isValid (fa_blk x) then
        assert! (tag (fa_blk x) =? blkAddr);
        f ← for_from 0 (caches f) (count_cache (inCache x)) f;
        h ← incr (caches f) (fa_hits f);
        let f := f <| fa_hits := h |> in
        f ← (if decide (b = fa_head f) then Ok f else moveToHead b f);
        Ok (Some b, inCache x, fa_hitLatency f, f)
      else miss
  end.

Definition findBlock (addr : Z) (f : FALRU) : outcome (option nat) :=
  let blkAddr := fa_blkAlign f addr in
  match hashLookup blkAddr f with
  | None => Ok None
  | Some b =>
      x ← get_blk b f;
      if isValid (fa_blk x) then assert! (tag (fa_blk x) =? blkAddr); Ok (Some b) else Ok None
  end.

Definition findVictim (curTick addr : Z) (f : FALRU) : outcome (nat * FALRU) :=
  let b := fa_tail f in
  x ← get_blk b f;
  assert! (inCache x =? 0);
  f ← moveToHead b f;
  x ← get_blk b f;
  let f := f <| tagHash ::= delete (tag (fa_blk x)) |> in
  let f := f <| tagHash ::= insert (fa_blkAlign f addr) b |> in
  if isValid (fa_blk x) then Ok (b, f <| fa_replacements ::= Z.succ |>)
  else
    let f := f <| fa_tagsInUse ::= Z.succ |> in
    f ← upd_blk b (fun x => x <| fa_isTouched := true |>) f;
    if negb (fa_warmedUp f) && (fa_warmupBound f <=? fa_tagsInUse f)
    then Ok (b, f <| fa_warmedUp := true |> <| warmupCycle := curTick |>)
    else Ok (b, f).

(** [insertBlock] does nothing; [invalidate] counts. *)
Definition insertBlock (pkt : Packet) (b : nat) (f : FALRU) : FALRU := f.
Definition invalidate (b : option nat) (f : FALRU) : outcome FALRU :=
  assert! bool_decide (b <> None);
  Ok (f <| fa_tagsInUse ::= Z.pred |>).

Definition clearLocks (f : FALRU) : FALRU :=
  f <| blks ::= map (fun x => x <| fa_blk ::= clearLoadLocks None |>) |>.

(** ** The consistency check *)

Fixpoint check_from (fuel : nat) (f : FALRU) (blk : option nat) (tot_size boundary flags : Z) (j : nat)
    : outcome bool :=
  match fuel, blk with
  | _, None => Ok true
  | O, _ => Err Diverge
  | S fuel, Some b =>
      x ← get_blk b f;
      let tot_size := i32 (tot_size + fa_blkSize f) in
      if negb (inCache x =? flags) then Ok false
      else if (tot_size =? boundary) && bool_decide (b <> fa_tail f) then
        p ← aget (cacheBoundaries f) j;
        if decide (p = Some b)
        then check_from fuel f (next x) tot_size (i32 (Z.shiftl boundary 1)) (clear_bit j flags) (S j)
        else Ok false
      else check_from fuel f (next x) tot_size boundary flags j
  end.
Definition check (f : FALRU) : outcome bool :=
  check_from (S (length (blks f))) f (Some (fa_head f)) 0 (2 ^ 17) (cacheMask f) 0.

Example tiny_check : (f ← FALRU_new (2 ^ 19) (2 ^ 16) 1 false; check f) = Ok true.
Proof. vm_compute. reflexivity. Qed.
Example tiny_moved : (f ← FALRU_new (2 ^ 19) (2 ^ 16) 1 false; f ← moveToHead 5 f; check f) = Ok true.
Proof. vm_compute. reflexivity. Qed.

(** ** Linked segments *)

Definition links (bs : list FALRUBlk) (b : nat) : option (option nat * option nat) :=
  (fun x => (prev x, next x)) <$> bs !! b.

Lemma links_upd bs b x y c :
  bs !! b = Some x ->
  links (<[b := y]> bs) c = if decide (c = b) then Some (prev y, next y) else links bs c.
Proof.
  intros Hb. unfold links. destruct (decide (c = b)) as [->|Hne].
  - by rewrite list_lookup_insert_eq by (by eapply lookup_lt_Some).
  - by rewrite list_lookup_insert_ne.
Qed.

Lemma links_blk bs b l : links bs b = Some l -> exists x, bs !! b = Some x /\ prev x = l.1 /\ next x = l.2.
Proof. unfold links. destruct (bs !! b) as [x|]; intros [= <-]. by exists x. Qed.

(** ** Bits *)

Lemma has_bit_test m i : has_bit m i = Z.testbit m (Z.of_nat i).
Proof.
  unfold has_bit. rewrite Z.shiftl_1_l, Z.land_comm. apply land_bit_test. lia.
Qed.
Lemma clear_bit_test i m j : 0 <= j ->
  Z.testbit (clear_bit i m) j = Z.testbit m j && negb (j =? Z.of_nat i).
Proof.
  intros Hj. unfold clear_bit. rewrite Z.land_spec, Z.lnot_spec by done.
  rewrite Z.shiftl_1_l, Z.pow2_bits_eqb by lia. by rewrite Z.eqb_sym.
Qed.
Lemma mask_bit n j : 0 <= n -> 0 <= j -> Z.testbit (Z.shiftl 1 n - 1) j = (j <? n).
Proof.
  intros Hn Hj. rewrite Z.shiftl_1_l, Z.sub_1_r, <- Z.ones_equiv.
  destruct (Z.ltb_spec j n); [by apply Z.ones_spec_low|by apply Z.ones_spec_high].
Qed.

(** ** Moving a block to the front *)

(** What changing links leaves alone. *)
Definition core (x : FALRUBlk) : CacheBlk * bool * Z := (fa_blk x, fa_isTouched x, inCache x).
Record relinked (f f' : FALRU) : Prop := {
  rl_core : core <$> blks f' = core <$> blks f;
  rl_rest : f' = f <| blks := blks f' |> <| fa_head := fa_head f' |> <| fa_tail := fa_tail f' |>
}.

Lemma relinked_trans f1 f2 f3 : relinked f1 f2 -> relinked f2 f3 -> relinked f1 f3.
Proof. intros [C1 R1] [C2 R2]. split; [congruence|]. rewrite R2, R1. by destruct f1, f2, f3. Qed.

Lemma get_blk_ok b f x : blks f !! b = Some x -> get_blk b f = Ok x.
Proof. apply aget_ok. Qed.
Lemma upd_blk_ok b g f x :
  blks f !! b = Some x -> upd_blk b g f = Ok (f <| blks := <[b := g x]> (blks f) |>).
Proof. intros Hb. unfold upd_blk. by rewrite (get_blk_ok _ _ _ Hb). Qed.

Lemma relinked_upd b x y f :
  blks f !! b = Some x -> core y = core x -> relinked f (f <| blks := <[b := y]> (blks f) |>).
Proof.
  intros Hb Hy. split; [|by destruct f]. cbn. rewrite list_fmap_insert, Hy.
  apply list_insert_id. by rewrite list_lookup_fmap, Hb.
Qed.

Lemma relinked_head b f : relinked f (f <| fa_head := b |>).
Proof. split; [done|by destruct f]. Qed.

Lemma unlink_ok p b s f :
  p <> [] -> NoDup (p ++ b :: s) -> seg (links (blks f)) None (p ++ b :: s) None ->
  last (p ++ b :: s) = Some (fa_tail f) ->
  exists f', unlink b f = Ok f' /\ relinked f f' /\ fa_head f' = fa_head f /\
    seg (links (blks f')) None (p ++ s) None /\ last (p ++ s) = Some (fa_tail f').
Proof.
  intros Hp Hn Hs Hl. destruct (exists_last Hp) as (p' & a & ->). clear Hp.
  pose proof (seg_at _ _ _ _ _ _ Hs) as Hb. rewrite last_or_snoc in Hb.
  apply links_blk in Hb as (x & Hx & Hpv & Hnx). cbn [fst snd] in Hpv, Hnx.
  rewrite <- app_assoc in Hs. cbn [app] in Hs. pose proof (seg_at _ _ _ _ _ _ Hs) as Ha.
  apply links_blk in Ha as (y & Hy & Hyp & Hyn). cbn [fst snd first_or] in Hyp, Hyn.
  rewrite <- app_assoc in Hn. cbn [app] in Hn.
  apply NoDup_app in Hn as (Hnp & Hps & Has). apply NoDup_cons in Has as [Has Hbs].
  apply NoDup_cons in Hbs as [Hbs Hns].
  assert (Hap : a ∉ p') by (intros H; apply (Hps a H); set_solver).
  assert (Hs1 : seg (links (blks f)) None (p' ++ [a]) (Some b))
    by (apply seg_app in Hs as [H1 [H2 _]]; apply seg_app; by split).
  assert (Hs2 : seg (links (blks f)) (Some b) s None)
    by (apply seg_app in Hs as [_ [_ [_ H]]]; done).
  assert (Ela : links (blks f) a = Some (prev y, next y)) by (unfold links; by rewrite Hy).
  (* the predecessor gets the successor of [b] *)
  assert (Hseg : forall nx g, prev (g y) = prev y -> next (g y) = nx ->
    seg (links (<[a := g y]> (blks f))) None (p' ++ [a]) nx).
  { intros nx g Eg En. eapply seg_next; [done| |exact Ela| |exact Hs1].
    - intros c Hc. rewrite (links_upd _ _ y) by done. by rewrite decide_False by (intros ->; done).
    - rewrite (links_upd _ _ y) by done. rewrite decide_True by done. cbn. by rewrite Eg, En. }
  assert (Htail : s = [] <-> b = fa_tail f).
  { rewrite last_app_cons, last_cons in Hl. destruct s as [|c s].
    - cbn in Hl. split; [congruence|done].
    - split; [done|]. intros ->. destruct (last (c :: s)) as [z|] eqn:E; [|by apply last_None in E].
      injection Hl as ->. exfalso. apply Hbs. by apply last_Some_elem_of. }
  unfold unlink. rewrite (get_blk_ok _ _ _ Hx). cbn [mbind outcome_bind].
  rewrite Hnx, Hpv. destruct (decide (b = fa_tail f)) as [Et|Et].
  - apply Htail in Et. subst s. cbn [first_or]. rewrite bool_decide_true by done. cbn [deref mbind outcome_bind].
    rewrite (upd_blk_ok _ _ _ y) by done. eexists. split; [done|]. split; [|split; [done|]].
    + eapply relinked_trans; [|by eapply (relinked_upd a y)]. by destruct f.
    + rewrite app_nil_r. split; [by apply Hseg|by rewrite last_snoc].
  - destruct s as [|c s]; [by destruct Et; apply Htail|]. cbn [first_or deref mbind outcome_bind].
    rewrite (upd_blk_ok _ _ _ y) by done. cbn [mbind outcome_bind].
    assert (Hca : c <> a) by (intros ->; apply Has; set_solver).
    pose proof Hs2 as [Hc _]. apply links_blk in Hc as (z & Hz & Hzp & Hzn). cbn [fst snd] in Hzp, Hzn.
    rewrite (upd_blk_ok _ _ _ z) by (cbn; by rewrite list_lookup_insert_ne).
    eexists. split; [done|]. split; [|split; [done|]].
    + eapply relinked_trans; [|eapply (relinked_upd c z); [cbn; by rewrite list_lookup_insert_ne|done]].
      by eapply (relinked_upd a y).
    + cbn [blks set_field fa_tail]. split.
      2: { rewrite last_app_cons in Hl |- *. rewrite <- Hl. by rewrite !last_cons; destruct (last s). }
      assert (Hz' : <[a := y <| next := Some c |>]> (blks f) !! c = Some z) by (by rewrite list_lookup_insert_ne).
      apply seg_app. split; [|rewrite last_or_snoc].
      * eapply seg_ext; [|by apply (Hseg (Some c) (fun y => y <| next := Some c |>))].
        intros q Hq. rewrite (links_upd _ c z) by done.
        rewrite decide_False; [done|]. intros ->. apply elem_of_app in Hq as [Hq|Hq]; [|set_solver].
        apply (Hps c Hq). set_solver.
      * apply NoDup_cons in Hns as [Hcs _].
        eapply (seg_prev (links (blks f))); [done| | | |exact Hs2].
        -- intros q Hq. rewrite (links_upd _ c z) by done.
           rewrite decide_False by (intros ->; done).
           rewrite (links_upd _ a y) by done.
           rewrite decide_False; [done|]. intros ->. apply Has. set_solver.
        -- unfold links. by rewrite Hz.
        -- rewrite (links_upd _ c z) by done. by rewrite decide_True.
Qed.

Lemma core_lookup f f' b x :
  core <$> blks f' = core <$> blks f -> blks f !! b = Some x ->
  exists y, blks f' !! b = Some y /\ core y = core x.
Proof.
  intros E Hx. apply (f_equal (fun l => l !! b)) in E. rewrite !list_lookup_fmap, Hx in E.
  destruct (blks f' !! b) as [y|]; [|done]. exists y. split; [done|]. by apply (inj Some).
Qed.

Lemma to_front_ok p b s f :
  NoDup (p ++ b :: s) -> seg (links (blks f)) None (p ++ b :: s) None ->
  head (p ++ b :: s) = Some (fa_head f) -> last (p ++ b :: s) = Some (fa_tail f) ->
  exists f', to_front b f = Ok f' /\ relinked f f' /\ fa_head f' = b /\
    seg (links (blks f')) None (b :: p ++ s) None /\ last (b :: p ++ s) = Some (fa_tail f').
Proof.
  intros Hn Hs Hh Hl. unfold to_front. destruct (decide (b = fa_head f)) as [E|E].
  { assert (p = []) as ->.
    { destruct p as [|a p]; [done|]. cbn in Hh. injection Hh as ->. cbn in Hn.
      apply NoDup_cons in Hn as [Hn _]. destruct Hn. set_solver. }
    exists f. split; [done|]. split; [split; [done|by destruct f]|]. by split_and!. }
  assert (Hp : p <> []) by (intros ->; injection Hh as ->; done).
  pose proof (seg_at _ _ _ _ _ _ Hs) as Hb. apply links_blk in Hb as (x & Hx & _).
  destruct (unlink_ok p b s f Hp Hn Hs Hl) as (f1 & -> & R1 & Hh1 & Hs1 & Hl1). cbn [mbind outcome_bind].
  destruct (core_lookup _ _ _ _ (rl_core _ _ R1) Hx) as (x1 & Hx1 & _).
  destruct p as [|h p]; [done|]. cbn [app head] in Hh. injection Hh as Hh. rewrite <- Hh in *.
  rewrite (upd_blk_ok _ _ _ x1) by done. cbn [mbind outcome_bind].
  match goal with |- context [upd_blk (fa_head ?g)] => change (fa_head g) with (fa_head f1) end.
  assert (Hhb : h <> b) by (intros ->; apply NoDup_cons in Hn as [Hn _]; set_solver).
  cbn [app] in Hs1, Hl1, Hn. pose proof Hs1 as [Hlh _]. apply links_blk in Hlh as (y & Hy & _).
  rewrite Hh1, (upd_blk_ok _ _ _ y) by (cbn; by rewrite list_lookup_insert_ne). cbn [mbind outcome_bind].
  apply NoDup_cons in Hn as [Hhn Hn]. apply NoDup_app in Hn as (_ & Hpb & Hbn).
  apply NoDup_cons in Hbn as [Hbs _].
  assert (Hbn : b ∉ h :: p ++ s) by (intros [->|[H|H]%elem_of_app]%elem_of_cons; [done|apply (Hpb b H); set_solver|done]).
  eexists. split; [done|]. split; [|split; [done|]].
  - eapply relinked_trans; [done|]. eapply relinked_trans; [|apply relinked_head].
    eapply relinked_trans; [|eapply (relinked_upd h y); [cbn; by rewrite list_lookup_insert_ne|done]].
    by eapply (relinked_upd b x1).
  - cbn [blks set_field fa_tail app]. split; [|rewrite <- Hl1; rewrite !last_cons; by destruct (last (p ++ s))].
    split.
    + rewrite (links_upd _ h y) by (by rewrite list_lookup_insert_ne). rewrite decide_False by done.
      rewrite (links_upd _ b x1) by done. rewrite decide_True by done. done.
    + eapply (seg_prev (links (blks f1))); [set_solver| | | |exact Hs1].
      * intros q Hq. rewrite (links_upd _ h y) by (by rewrite list_lookup_insert_ne).
        rewrite decide_False by (intros ->; apply Hhn; set_solver).
        rewrite (links_upd _ b x1) by done. rewrite decide_False; [done|]. intros ->. set_solver.
      * unfold links. by rewrite Hy.
      * rewrite (links_upd _ h y) by (by rewrite list_lookup_insert_ne). by rewrite decide_True.
Qed.

(** ** The invariant *)

(** The blocks of the smallest cache tracked, of the [i]th. *)
Definition unit_blocks (f : FALRU) : nat := Z.to_nat (2 ^ 17 / fa_blkSize f).
Definition cache_blocks (f : FALRU) (i : nat) : nat := (unit_blocks f * 2 ^ i)%nat.

(** The flags of the block at place [k] of the recency list: the caches it is
    in. *)
Definition flags_at (f : FALRU) (k : nat) (m : Z) : Prop :=
  forall i : nat, Z.testbit m (Z.of_nat i) = bool_decide (i < caches f /\ k < cache_blocks f i)%nat.

(** [order] is the recency list, the most recently used block first. *)
Record falru_ok (order : list nat) (f : FALRU) : Prop := {
  fo_perm : order ≡ₚ seq 0 (length (blks f));
  fo_len : length order = cache_blocks f (caches f);
  fo_unit : (2 <= unit_blocks f)%nat;
  fo_size : Z.of_nat (unit_blocks f) * fa_blkSize f = 2 ^ 17;
  fo_caches : 0 <= numCaches f < 31;
  fo_mask : flags_at f 0 (cacheMask f);
  fo_head : head order = Some (fa_head f);
  fo_tail : last order = Some (fa_tail f);
  fo_seg : seg (links (blks f)) None order None;
  fo_bounds : length (cacheBoundaries f) = caches f;
  fo_bound i : (i < caches f)%nat ->
    cacheBoundaries f !! i = Some (order !! (cache_blocks f i - 1)%nat);
  fo_flags k b x : order !! k = Some b -> blks f !! b = Some x -> flags_at f k (inCache x);
  fo_hash a b : tagHash f !! a = Some b -> (b < length (blks f))%nat;
  fo_stats : length (fa_hits f) = S (caches f) /\ length (fa_misses f) = S (caches f)
}.

Lemma cache_blocks_ge f i : (2 <= unit_blocks f)%nat -> (2 <= cache_blocks f i)%nat.
Proof. intros H. unfold cache_blocks. pose proof (Nat.pow_nonzero 2 i). nia. Qed.

Lemma cache_blocks_mono f i j :
  (2 <= unit_blocks f)%nat -> (i < j)%nat -> (cache_blocks f i < cache_blocks f j)%nat.
Proof.
  intros H Hij. unfold cache_blocks. apply Nat.mul_lt_mono_pos_l; [lia|]. apply Nat.pow_lt_mono_r; lia.
Qed.

Lemma flags_at_eq f k m m' : flags_at f k m -> flags_at f k m' -> m = m'.
Proof.
  intros H H'. apply Z.bits_inj'. intros n Hn. replace n with (Z.of_nat (Z.to_nat n)) by lia.
  by rewrite H, H'.
Qed.

Lemma order_blk order f k b : falru_ok order f -> order !! k = Some b -> exists x, blks f !! b = Some x.
Proof.
  intros H Hk. apply lookup_lt_is_Some_2.
  assert (Hb : b ∈ seq 0 (length (blks f))) by (rewrite <- (fo_perm _ _ H); by eapply list_elem_of_lookup_2).
  apply elem_of_seq in Hb. lia.
Qed.

Lemma order_NoDup order f : falru_ok order f -> NoDup order.
Proof. intros H. rewrite (fo_perm _ _ H). apply NoDup_seq. Qed.

Lemma seg_lookup L pr l nx k b :
  seg L pr l nx -> l !! k = Some b ->
  L b = Some (match k with O => pr | S k => l !! k end, first_or nx (drop (S k) l)).
Proof.
  intros Hs Hk. rewrite <- (take_drop_middle l k b Hk) in Hs. rewrite (seg_at _ _ _ _ _ _ Hs).
  f_equal. f_equal. unfold last_or. destruct k as [|k]; [done|].
  apply lookup_lt_Some in Hk as Hlt. rewrite last_lookup, length_take.
  replace (pred (S k `min` length l)) with k by lia. rewrite lookup_take_lt by lia.
  destruct (lookup_lt_is_Some_2 l k) as [a ->]; [lia|done].
Qed.

Lemma prev_at order f k b x :
  falru_ok order f -> order !! S k = Some b -> blks f !! b = Some x -> prev x = order !! k.
Proof.
  intros H Hk Hx. pose proof (seg_lookup _ _ _ _ _ _ (fo_seg _ _ H) Hk) as E.
  unfold links in E. rewrite Hx in E. cbn in E. congruence.
Qed.

Lemma lookup_front {A} (p s : list A) b j :
  (b :: p ++ s) !! j =
    if decide (j = 0%nat) then Some b
    else if decide (j <= length p)%nat then (p ++ b :: s) !! (j - 1)%nat else (p ++ b :: s) !! j.
Proof.
  destruct j as [|j]; [done|]. rewrite decide_False by done.
  change ((b :: p ++ s) !! S j) with ((p ++ s) !! j).
  replace (S j - 1)%nat with j by lia. destruct (decide _) as [Hj|Hj].
  - by rewrite !lookup_app_l by lia.
  - rewrite !lookup_app_r by lia. by replace (S j - length p)%nat with (S (j - length p)) by lia.
Qed.

Definition public (x : FALRUBlk) : CacheBlk * bool := (fa_blk x, fa_isTouched x).

(** The state after rounds [0] to [i - 1] for the block at place [k]. *)
Record swept (order order' : list nat) (k i : nat) (f g : FALRU) : Prop := {
  sw_rest : g = f <| blks := blks g |> <| cacheBoundaries := cacheBoundaries g |>;
  sw_public : public <$> blks g = public <$> blks f;
  sw_len : length (cacheBoundaries g) = caches f;
  sw_done j : (j < i)%nat -> (j < caches f)%nat ->
    cacheBoundaries g !! j = Some (order' !! (cache_blocks f j - 1)%nat);
  sw_todo j : (i <= j)%nat -> cacheBoundaries g !! j = cacheBoundaries f !! j;
  sw_blks m q x : order !! m = Some q -> blks f !! q = Some x ->
    exists y, blks g !! q = Some y /\ prev y = prev x /\ next y = next x /\
      forall j : nat, Z.testbit (inCache y) (Z.of_nat j) =
        Z.testbit (inCache x) (Z.of_nat j) &&
        negb (bool_decide (j < i /\ j < caches f /\ cache_blocks f j <= k /\ m = cache_blocks f j - 1))%nat
}.

Lemma swept_skip order order' k j f g g' :
  swept order order' k j f g -> (k < cache_blocks f j)%nat ->
  g' = g <| cacheBoundaries := cacheBoundaries g' |> -> length (cacheBoundaries g') = caches f ->
  (forall i, i <> j -> cacheBoundaries g' !! i = cacheBoundaries g !! i) ->
  cacheBoundaries g' !! j = Some (order' !! (cache_blocks f j - 1)%nat) ->
  swept order order' k (S j) f g'.
Proof.
  intros [Hr Hpub Hl Hd Ht Hb] Hk Hg Hlen Ho Hj. split.
  - rewrite Hg, Hr. by destruct f, g, g'.
  - by rewrite Hg.
  - done.
  - intros i Hi Hc. destruct (decide (i = j)) as [->|Hne]; [done|]. rewrite Ho by done. apply Hd; [lia|done].
  - intros i Hi. rewrite Ho by lia. apply Ht. lia.
  - intros m q x Hm Hx. destruct (Hb m q x Hm Hx) as (y & Hy & E1 & E2 & E5). exists y.
    split; [rewrite Hg; exact Hy|]. split_and!; try done. intros i. rewrite E5. f_equal. f_equal.
    apply bool_decide_ext. destruct (decide (i = j)) as [->|]; lia.
Qed.

Lemma swept_clear order order' k j f g q y :
  swept order order' k j f g -> NoDup order -> (j < caches f)%nat -> (cache_blocks f j <= k)%nat ->
  order !! (cache_blocks f j - 1)%nat = Some q -> blks g !! q = Some y ->
  prev y = order' !! (cache_blocks f j - 1)%nat ->
  swept order order' k (S j) f
    (g <| blks := <[q := y <| inCache ::= clear_bit j |>]> (blks g) |>
       <| cacheBoundaries := <[j := prev y]> (cacheBoundaries g) |>).
Proof.
  intros [Hr Hpub Hl Hd Ht Hb] Hn Hj Hk Hq Hy Hp. split.
  - cbn. rewrite Hr. by destruct f, g.
  - cbn. rewrite <- Hpub, list_fmap_insert. apply list_insert_id. by rewrite list_lookup_fmap, Hy.
  - cbn. by rewrite length_insert.
  - cbn. intros i Hi Hc. destruct (decide (i = j)) as [->|Hne].
    + by rewrite list_lookup_insert_eq, Hp by lia.
    + rewrite list_lookup_insert_ne by done. apply Hd; [lia|done].
  - cbn. intros i Hi. rewrite list_lookup_insert_ne by lia. apply Ht. lia.
  - cbn. intros m q' x Hm Hx. destruct (Hb m q' x Hm Hx) as (z & Hz & E1 & E2 & E5).
    destruct (decide (q' = q)) as [->|Hne].
    + rewrite Hz in Hy. injection Hy as ->. pose proof (NoDup_lookup _ _ _ _ Hn Hm Hq) as ->.
      eexists. split; [by rewrite list_lookup_insert_eq by (by eapply lookup_lt_Some)|].
      split_and!; try done. intros i. cbn. rewrite clear_bit_test, E5 by lia. rewrite <- andb_assoc. f_equal.
      rewrite <- negb_orb. f_equal. destruct (Z.eqb_spec (Z.of_nat i) (Z.of_nat j)) as [E|E].
      * apply Nat2Z.inj in E as ->. rewrite orb_true_r. symmetry. apply bool_decide_eq_true_2. lia.
      * rewrite orb_false_r. apply bool_decide_ext. lia.
    + exists z. split; [by rewrite list_lookup_insert_ne|]. split_and!; try done. intros i. rewrite E5.
      f_equal. f_equal. apply bool_decide_ext. destruct (decide (i = j)) as [->|]; [|lia].
      split; [lia|]. intros (_ & _ & _ & ->). congruence.
Qed.

Lemma sweep_ok p b s f x i :
  falru_ok (p ++ b :: s) f -> blks f !! b = Some x -> (i <= caches f)%nat ->
  exists g, for_from 0 i (boundary_step b (Z.lxor (inCache x) (cacheMask f))) f = Ok g /\
    swept (p ++ b :: s) (b :: p ++ s) (length p) i f g.
Proof.
  intros H Hx Hi. pose proof (order_NoDup _ _ H) as Hn. pose proof (fo_unit _ _ H) as Hu.
  assert (Hbk : (p ++ b :: s) !! length p = Some b) by (by apply list_lookup_middle).
  apply (for_from_inv (fun j g => swept (p ++ b :: s) (b :: p ++ s) (length p) j f g)).
  2: { split; [by destruct f|done|apply H|lia|done|]. intros m q y Hm Hy. exists y. split_and!; try done.
       intros j. rewrite bool_decide_eq_false_2 by lia. by rewrite andb_true_r. }
  intros j g Hj Hs. pose proof (cache_blocks_ge f j Hu) as H2.
  assert (Hjc : (j < caches f)%nat) by lia.
  pose proof (cache_blocks_mono f _ _ Hu Hjc) as Hmono. rewrite <- (fo_len _ _ H) in Hmono.
  destruct (lookup_lt_is_Some_2 (p ++ b :: s) (cache_blocks f j - 1)) as [q Hq]; [lia|].
  unfold boundary_step. rewrite (aget_ok _ _ (Some q)).
  2: { rewrite (sw_todo _ _ _ _ _ _ Hs j) by lia. rewrite (fo_bound _ _ H) by done. by rewrite Hq. }
  cbn [mbind outcome_bind].
  assert (Ebit : has_bit (Z.lxor (inCache x) (cacheMask f)) j = bool_decide (cache_blocks f j <= length p)%nat).
  { rewrite has_bit_test, Z.lxor_spec, (fo_flags _ _ H _ _ _ Hbk Hx), (fo_mask _ _ H).
    rewrite (bool_decide_eq_true_2 (_ /\ 0 < _)%nat) by lia. rewrite xorb_true_r, <- bool_decide_not.
    apply bool_decide_ext. lia. }
  rewrite Ebit. case_bool_decide as Hk.
  - cbn [deref mbind outcome_bind]. destruct (order_blk _ _ _ _ H Hq) as [xq Hxq].
    destruct (sw_blks _ _ _ _ _ _ Hs _ _ _ Hq Hxq) as (y & Hy & Ep & _ & _).
    rewrite (upd_blk_ok _ _ _ y) by done. cbn [mbind outcome_bind].
    erewrite get_blk_ok by (cbn; by rewrite list_lookup_insert_eq by (by eapply lookup_lt_Some)).
    cbn [mbind outcome_bind]. eexists. split; [done|].
    apply (swept_clear _ _ _ _ _ _ q y Hs Hn Hjc Hk Hq Hy).
    rewrite Ep. replace (cache_blocks f j - 1)%nat with (S (cache_blocks f j - 2)) in Hq |- * by lia.
    rewrite (prev_at _ _ _ _ _ H Hq Hxq), lookup_front, decide_False, decide_True by lia. f_equal. lia.
  - destruct (decide (Some q = Some b)) as [Eq|Eq].
    + injection Eq as ->. pose proof (NoDup_lookup _ _ _ _ Hn Hq Hbk) as Ek.
      destruct (sw_blks _ _ _ _ _ _ Hs _ _ _ Hbk Hx) as (y & Hy & Ep & _ & _).
      rewrite (get_blk_ok _ _ y) by done. cbn [mbind outcome_bind]. eexists. split; [done|].
      eapply swept_skip; [done|lia|by destruct g|cbn; rewrite length_insert; apply Hs| |].
      * intros i' Hi'. cbn. by rewrite list_lookup_insert_ne.
      * cbn. rewrite list_lookup_insert_eq by (rewrite (sw_len _ _ _ _ _ _ Hs); lia). f_equal. rewrite Ep.
        rewrite lookup_front, decide_False, decide_True by lia. rewrite <- Ek in Hbk.
        replace (cache_blocks f j - 1)%nat with (S (cache_blocks f j - 2)) in Hbk |- * by lia.
        rewrite (prev_at _ _ _ _ _ H Hbk Hx). f_equal. lia.
    + eexists. split; [done|]. eapply swept_skip; [done|lia|by destruct g|apply Hs|done|].
      rewrite (sw_todo _ _ _ _ _ _ Hs j) by lia. rewrite (fo_bound _ _ H) by done. f_equal.
      assert (Hne : (cache_blocks f j - 1)%nat <> length p).
      { intros E. rewrite E, Hbk in Hq. congruence. }
      by rewrite lookup_front, decide_False, decide_False by lia.
Qed.

(** Contents, hash index and statistics stay. *)
Record moved (f f' : FALRU) : Prop := {
  mv_rest : f' = f <| blks := blks f' |> <| cacheBoundaries := cacheBoundaries f' |>
                   <| fa_head := fa_head f' |> <| fa_tail := fa_tail f' |>;
  mv_public : public <$> blks f' = public <$> blks f
}.

Lemma core_public f f' : core <$> blks f' = core <$> blks f -> public <$> blks f' = public <$> blks f.
Proof.
  intros E. apply (f_equal (fmap fst)) in E. rewrite <- !list_fmap_compose in E. exact E.
Qed.

Lemma sizes_eq f f' : fa_blkSize f' = fa_blkSize f -> numCaches f' = numCaches f ->
  caches f' = caches f /\ (forall i, cache_blocks f' i = cache_blocks f i) /\
  (forall k m, flags_at f' k m <-> flags_at f k m).
Proof.
  intros Eb Ec. assert (E : caches f' = caches f) by (unfold caches; by rewrite Ec).
  assert (E' : forall i, cache_blocks f' i = cache_blocks f i) by (intros i; unfold cache_blocks, unit_blocks; by rewrite Eb).
  split_and!; [done..|]. intros k m. split; intros H i; rewrite (H i); by rewrite E, E'.
Qed.

Lemma moved_flags p b s f g m q x y :
  falru_ok (p ++ b :: s) f -> swept (p ++ b :: s) (b :: p ++ s) (length p) (caches f) f g ->
  m <> length p -> (p ++ b :: s) !! m = Some q -> blks f !! q = Some x -> blks g !! q = Some y ->
  flags_at f (if decide (m < length p)%nat then S m else m) (inCache y).
Proof.
  intros H Hs Hm Hq Hx Hy i. pose proof (fo_unit _ _ H) as Hu. pose proof (cache_blocks_ge f i Hu) as H2.
  destruct (sw_blks _ _ _ _ _ _ Hs _ _ _ Hq Hx) as (y' & Hy' & _ & _ & E). rewrite Hy in Hy'. injection Hy' as <-.
  rewrite E, (fo_flags _ _ H _ _ _ Hq Hx), <- bool_decide_not, <- bool_decide_and.
  apply bool_decide_ext. destruct (decide (m < length p)%nat); lia.
Qed.

Lemma moveToHead_ok p b s f :
  falru_ok (p ++ b :: s) f ->
  exists f', moveToHead b f = Ok f' /\ falru_ok (b :: p ++ s) f' /\ moved f f'.
Proof.
  intros H. pose proof (order_NoDup _ _ H) as Hn. pose proof (fo_unit _ _ H) as Hu.
  assert (Hbk : (p ++ b :: s) !! length p = Some b) by (by apply list_lookup_middle).
  destruct (order_blk _ _ _ _ H Hbk) as [x Hx].
  destruct (sweep_ok p b s f x (caches f) H Hx) as (g & Eg & Hs); [done|].
  destruct (sw_blks _ _ _ _ _ _ Hs _ _ _ Hbk Hx) as (y & Hy & Epv & Enx & _).
  set (f2 := g <| blks := <[b := y <| inCache := cacheMask f |>]> (blks g) |>).
  assert (Hf2 : forall q, q ∈ p ++ b :: s -> links (blks f2) q = links (blks f) q).
  { intros q [m Hm]%list_elem_of_lookup_1. destruct (order_blk _ _ _ _ H Hm) as [xq Hxq].
    destruct (sw_blks _ _ _ _ _ _ Hs _ _ _ Hm Hxq) as (yq & Hyq & E1 & E2 & _).
    unfold f2. cbn [blks set_field]. rewrite (links_upd _ b y) by done. unfold links.
    destruct (decide (q = b)) as [->|_]; [|rewrite Hyq, Hxq; cbn; congruence].
    rewrite Hx. cbn. congruence. }
  destruct (to_front_ok p b s f2) as (f3 & E3 & R3 & Hh3 & Hs3 & Hl3); [done| | | |].
  { eapply seg_ext; [exact Hf2|apply H]. }
  { unfold f2. cbn. rewrite (sw_rest _ _ _ _ _ _ Hs). apply H. }
  { unfold f2. cbn. rewrite (sw_rest _ _ _ _ _ _ Hs). apply H. }
  assert (Hrest : f3 = f <| blks := blks f3 |> <| cacheBoundaries := cacheBoundaries g |>
                         <| fa_head := fa_head f3 |> <| fa_tail := fa_tail f3 |>).
  { rewrite (rl_rest _ _ R3) at 1. unfold f2. cbn. f_equal; by rewrite (sw_rest _ _ _ _ _ _ Hs) at 1. }
  assert (Hcb : cacheBoundaries f3 = cacheBoundaries g) by (by rewrite Hrest).
  assert (Hpub : public <$> blks f3 = public <$> blks f).
  { rewrite (core_public _ _ (rl_core _ _ R3)), <- (sw_public _ _ _ _ _ _ Hs). unfold f2. cbn.
    rewrite list_fmap_insert. apply list_insert_id. by rewrite list_lookup_fmap, Hy. }
  exists f3. split; [|split; [|by split; [rewrite Hcb|]]].
  { unfold moveToHead. rewrite (get_blk_ok _ _ _ Hx). cbn [mbind outcome_bind]. rewrite Eg.
    cbn [mbind outcome_bind]. rewrite (upd_blk_ok _ _ _ y) by done. cbn [mbind outcome_bind].
    replace (cacheMask g) with (cacheMask f) by (by rewrite (sw_rest _ _ _ _ _ _ Hs)). exact E3. }
  destruct (sizes_eq f f3) as (Ec & Eb & Ef); [by rewrite Hrest..|].
  assert (Elen : length (blks f3) = length (blks f))
    by (apply (f_equal length) in Hpub; by rewrite !length_fmap in Hpub).
  split.
  - rewrite Elen, <- (fo_perm _ _ H). by rewrite Permutation_middle.
  - rewrite Eb, Ec, <- (fo_len _ _ H). rewrite <- Permutation_middle. done.
  - unfold unit_blocks. rewrite Hrest. apply H.
  - unfold unit_blocks. rewrite Hrest. apply H.
  - rewrite Hrest. apply H.
  - apply Ef. rewrite Hrest. apply H.
  - by rewrite Hh3.
  - done.
  - done.
  - rewrite Hcb, Ec. apply Hs.
  - intros i Hi. rewrite Ec in Hi. rewrite Hcb, Eb. by apply (sw_done _ _ _ _ _ _ Hs).
  - intros k q z Hk Hz. apply Ef.
    destruct (core_lookup f3 f2 q z (eq_sym (rl_core _ _ R3)) Hz) as (w & Hw & Ew).
    assert (Ei : inCache z = inCache w) by (unfold core in Ew; congruence). rewrite Ei.
    unfold f2 in Hw. cbn [blks set_field] in Hw. rewrite lookup_front in Hk.
    destruct (decide (k = 0%nat)) as [->|Hk0].
    { injection Hk as <-. rewrite list_lookup_insert_eq in Hw by (by eapply lookup_lt_Some).
      injection Hw as <-. apply (fo_mask _ _ H). }
    set (m := if decide (k <= length p)%nat then (k - 1)%nat else k).
    assert (Hm : (p ++ b :: s) !! m = Some q) by (unfold m; by destruct (decide _)).
    assert (Hmk : m <> length p) by (unfold m; destruct (decide _); lia).
    assert (q <> b) by (intros ->; by pose proof (NoDup_lookup _ _ _ _ Hn Hm Hbk)).
    rewrite list_lookup_insert_ne in Hw by done. destruct (order_blk _ _ _ _ H Hm) as [xq Hxq].
    replace k with (if decide (m < length p)%nat then S m else m); [by eapply moved_flags|].
    unfold m. destruct (decide (k <= length p)%nat); destruct (decide _); lia.
  - intros a q. rewrite Elen, Hrest. apply H.
  - rewrite Ec, Hrest. apply H.
Qed.

(** ** The check *)

Lemma cache_blocks_size order f i :
  falru_ok order f -> Z.of_nat (cache_blocks f i) * fa_blkSize f = 2 ^ (17 + Z.of_nat i).
Proof.
  intros H. unfold cache_blocks. rewrite Nat2Z.inj_mul, Nat2Z.inj_pow, Z.pow_add_r, <- (fo_size _ _ H) by lia. lia.
Qed.

Lemma tail_iff order f dn b rest :
  falru_ok order f -> order = dn ++ b :: rest ->
  bool_decide (b <> fa_tail f) = negb (bool_decide (rest = [])).
Proof.
  intros H Ho. pose proof (fo_tail _ _ H) as Ht. pose proof (order_NoDup _ _ H) as Hn. rewrite Ho in Ht, Hn.
  rewrite <- bool_decide_not. apply bool_decide_ext. rewrite last_app_cons, last_cons in Ht.
  destruct rest as [|c rest]; [cbn in Ht; split; congruence|].
  split; [done|]. intros _ ->. destruct (last (c :: rest)) as [z|] eqn:E; [|by apply last_None in E].
  injection Ht as ->. apply NoDup_app in Hn as (_ & _ & Hn). apply NoDup_cons in Hn as [Hn _].
  by apply Hn, last_Some_elem_of.
Qed.

(** The flags of the next place, past the boundary of cache [j] or not. *)
Lemma flags_past f k j m :
  (2 <= unit_blocks f)%nat -> flags_at f k m -> S k = cache_blocks f j ->
  (forall i, i < j -> cache_blocks f i <= k)%nat -> flags_at f (S k) (clear_bit j m).
Proof.
  intros Hu Hfl Ej Hge i. rewrite clear_bit_test, Hfl by lia.
  destruct (Z.eqb_spec (Z.of_nat i) (Z.of_nat j)) as [Eij|Eij]; cbn [negb].
  - rewrite andb_false_r. symmetry. apply bool_decide_eq_false_2. apply Nat2Z.inj in Eij as ->. lia.
  - rewrite andb_true_r. apply bool_decide_ext.
    destruct (Nat.lt_trichotomy i j) as [Hi|[->|Hi]]; [specialize (Hge i Hi); lia|lia|].
    pose proof (cache_blocks_mono f _ _ Hu Hi). lia.
Qed.
Lemma flags_within f k j m :
  (2 <= unit_blocks f)%nat -> flags_at f k m -> (S k < cache_blocks f j)%nat ->
  (forall i, i < j -> cache_blocks f i <= k)%nat -> flags_at f (S k) m.
Proof.
  intros Hu Hfl Hne Hge i. rewrite Hfl. apply bool_decide_ext.
  destruct (Nat.lt_trichotomy i j) as [Hi|[->|Hi]]; [specialize (Hge i Hi); lia|lia|].
  pose proof (cache_blocks_mono f _ _ Hu Hi). lia.
Qed.

Lemma double_boundary j : (j <= 12)%nat ->
  i32 (Z.shiftl (2 ^ (17 + Z.of_nat j)) 1) = 2 ^ (17 + Z.of_nat (S j)).
Proof.
  intros Hj. rewrite Z.shiftl_mul_pow2, <- Z.pow_add_r by lia.
  replace (17 + Z.of_nat j + 1) with (17 + Z.of_nat (S j)) by lia.
  apply swrap_small; [|done]. assert (2 ^ (17 + Z.of_nat (S j)) <= 2 ^ 30) by (apply Z.pow_le_mono_r; lia).
  pose proof (Z.pow_nonneg 2 (17 + Z.of_nat (S j))). change (2 ^ (32 - 1)) with (2 * 2 ^ 30). lia.
Qed.

Lemma check_from_ok order f rest : forall fuel done flags j,
  falru_ok order f -> (caches f <= 13)%nat -> order = done ++ rest -> (length rest <= fuel)%nat ->
  flags_at f (length done) flags -> (j <= caches f)%nat ->
  (length done < cache_blocks f j)%nat -> (forall i, i < j -> cache_blocks f i <= length done)%nat ->
  check_from fuel f (first_or None rest) (Z.of_nat (length done) * fa_blkSize f)
    (2 ^ (17 + Z.of_nat j)) flags j = Ok true.
Proof.
  induction rest as [|b rest IH]; intros fuel dn flags j H Hc Ho Hf Hfl Hj Hlt Hge; [by destruct fuel|].
  destruct fuel as [|fuel]; [simpl in Hf; lia|].
  pose proof (fo_unit _ _ H) as Hu. pose proof (fo_len _ _ H) as Hlen.
  assert (Hb : order !! length dn = Some b) by (rewrite Ho; by apply list_lookup_middle).
  assert (Hlen' : length order = (length dn + S (length rest))%nat) by (rewrite Ho, length_app; done).
  destruct (order_blk _ _ _ _ H Hb) as [x Hx].
  pose proof (cache_blocks_size order f j H) as Hsj. pose proof (cache_blocks_size order f (caches f) H) as Hsc.
  assert (Hbs : 0 < fa_blkSize f) by (pose proof (fo_size _ _ H); nia).
  assert (Hmax : 2 ^ (17 + Z.of_nat (caches f)) <= 2 ^ 30) by (apply Z.pow_le_mono_r; lia).
  cbn [check_from first_or]. rewrite (get_blk_ok _ _ _ Hx). cbn [mbind outcome_bind].
  rewrite (flags_at_eq _ _ _ _ (fo_flags _ _ H _ _ _ Hb Hx) Hfl), Z.eqb_refl. cbn [negb].
  pose proof (seg_lookup _ _ _ _ _ _ (fo_seg _ _ H) Hb) as El. unfold links in El. rewrite Hx in El.
  assert (En : next x = first_or None rest).
  { cbn in El. injection El as _ ->. by rewrite Ho, drop_app_ge, Nat.sub_succ_l, Nat.sub_diag by lia. }
  rewrite En, swrap_small by nia.
  replace (Z.of_nat (length dn) * fa_blkSize f + fa_blkSize f)
    with (Z.of_nat (length (dn ++ [b])) * fa_blkSize f) by (rewrite length_app; cbn [length]; lia).
  assert (Hl1 : length (dn ++ [b]) = S (length dn)) by (rewrite length_app; cbn [length]; lia).
  assert (Hend : forall t bd fl k, check_from fuel f (first_or None []) t bd fl k = Ok true) by (by destruct fuel).
  rewrite (tail_iff _ _ _ _ _ H Ho), Hl1. destruct (Z.eqb_spec (Z.of_nat (S (length dn)) * fa_blkSize f) (2 ^ (17 + Z.of_nat j))) as [E|E].
  - assert (Ej : S (length dn) = cache_blocks f j) by nia.
    destruct rest as [|c rest]; [apply Hend|]. cbn [bool_decide andb negb].
    assert (Hjc : (j < caches f)%nat).
    { destruct (Nat.eq_dec j (caches f)) as [->|]; [cbn [length] in Hlen'; lia|lia]. }
    rewrite (aget_ok _ _ _ (fo_bound _ _ H j Hjc)). cbn [mbind outcome_bind].
    rewrite <- Ej. replace (S (length dn) - 1)%nat with (length dn) by lia. rewrite decide_True by done.
    rewrite double_boundary, <- Hl1 by lia. apply IH; try done.
    + by rewrite <- app_assoc.
    + simpl in Hf |- *. lia.
    + rewrite Hl1. by apply flags_past.
    + rewrite Hl1, Ej. apply cache_blocks_mono; lia.
    + intros i Hi. rewrite Hl1, Ej. destruct (Nat.eq_dec i j) as [->|]; [done|].
      apply Nat.lt_le_incl, cache_blocks_mono; lia.
  - cbn [andb]. rewrite <- Hl1. apply IH; try done.
    + by rewrite <- app_assoc.
    + simpl in Hf |- *. lia.
    + rewrite Hl1. apply (flags_within _ _ j); [done|done|nia|done].
    + rewrite Hl1. assert (S (length dn) <> cache_blocks f j) by nia. lia.
    + intros i Hi. rewrite Hl1. specialize (Hge i Hi). lia.
Qed.

Lemma check_ok order f : falru_ok order f -> (caches f <= 13)%nat -> check f = Ok true.
Proof.
  intros H Hc. unfold check. pose proof (fo_head _ _ H) as Hh.
  replace (Some (fa_head f)) with (first_or None order) by (by destruct order).
  apply (check_from_ok order f order _ [] (cacheMask f) 0); [done..| |apply H|lia| |lia].
  - rewrite (fo_perm _ _ H), length_seq. lia.
  - pose proof (cache_blocks_ge f 0 (fo_unit _ _ H)). simpl. lia.
Qed.

(** ** Lookups *)

(** [fa_hits] and [fa_misses] as an access of the block at place [k] of the
    recency list leaves them; [None] is a miss. *)
Definition counted (f f' : FALRU) (k : option nat) : Prop :=
  forall i, (i <= caches f)%nat ->
    let hit := match k with Some k => bool_decide (k < cache_blocks f i)%nat | None => false end in
    fa_hits f' !! i = Z.add (b2Z hit) <$> fa_hits f !! i /\
    fa_misses f' !! i = Z.add (b2Z (negb hit)) <$> fa_misses f !! i.

Lemma incr_ok i v x : v !! i = Some x -> incr i v = Ok (<[i := x + 1]> v).
Proof.
  intros Hx. unfold incr. rewrite (aget_ok _ _ _ Hx). cbn [mbind outcome_bind]. unfold aset.
  by rewrite decide_True by (by eapply lookup_lt_Some).
Qed.

(** The counters after the rounds below [i]. *)
Record counting (f g : FALRU) (hit : nat -> bool) (i : nat) : Prop := {
  ct_rest : g = f <| fa_hits := fa_hits g |> <| fa_misses := fa_misses g |>;
  ct_hits j : fa_hits g !! j = Z.add (b2Z (bool_decide (j < i)%nat && hit j)) <$> fa_hits f !! j;
  ct_misses j : fa_misses g !! j = Z.add (b2Z (bool_decide (j < i)%nat && negb (hit j))) <$> fa_misses f !! j
}.

Lemma fmap_add_0 (o : option Z) : Z.add 0 <$> o = o.
Proof. by destruct o. Qed.

Lemma counting_start f hit : counting f f hit 0.
Proof. split; [by destruct f|intros j..]; by rewrite bool_decide_eq_false_2, fmap_add_0 by lia. Qed.

Lemma lookup_incr (v v0 : list Z) (h : nat -> bool) i x :
  v !! i = Some x ->
  (forall j, v !! j = Z.add (b2Z (bool_decide (j < i)%nat && h j)) <$> v0 !! j) ->
  h i = true ->
  forall j, <[i := x + 1]> v !! j = Z.add (b2Z (bool_decide (j < S i)%nat && h j)) <$> v0 !! j.
Proof.
  intros Hx Hv Hh j. destruct (decide (j = i)) as [->|Hne].
  - rewrite list_lookup_insert_eq by (by eapply lookup_lt_Some). rewrite Hv in Hx.
    rewrite bool_decide_eq_false_2 in Hx by lia. rewrite bool_decide_eq_true_2, Hh by lia.
    destruct (v0 !! i); [|done]. cbn in *. injection Hx as <-. f_equal. lia.
  - rewrite list_lookup_insert_ne, Hv by done. f_equal. f_equal. f_equal. f_equal. apply bool_decide_ext. lia.
Qed.
Lemma lookup_keep (v v0 : list Z) (h : nat -> bool) i :
  (forall j, v !! j = Z.add (b2Z (bool_decide (j < i)%nat && h j)) <$> v0 !! j) ->
  h i = false ->
  forall j, v !! j = Z.add (b2Z (bool_decide (j < S i)%nat && h j)) <$> v0 !! j.
Proof.
  intros Hv Hh j. rewrite Hv. destruct (decide (j = i)) as [->|Hne]; [by rewrite Hh, !andb_false_r|].
  f_equal. f_equal. f_equal. f_equal. apply bool_decide_ext. lia.
Qed.

Lemma counting_hit f g hit i x :
  counting f g hit i -> hit i = true -> fa_hits g !! i = Some x ->
  counting f (g <| fa_hits := <[i := x + 1]> (fa_hits g) |>) hit (S i).
Proof.
  intros [Hr Hh Hm] Hi Hx. split; cbn [fa_hits fa_misses set_field].
  - rewrite Hr. by destruct f, g.
  - by apply lookup_incr.
  - apply lookup_keep; [done|by rewrite Hi].
Qed.
Lemma counting_miss f g hit i x :
  counting f g hit i -> hit i = false -> fa_misses g !! i = Some x ->
  counting f (g <| fa_misses := <[i := x + 1]> (fa_misses g) |>) hit (S i).
Proof.
  intros [Hr Hh Hm] Hi Hx. split; cbn [fa_hits fa_misses set_field].
  - rewrite Hr. by destruct f, g.
  - by apply lookup_keep.
  - apply (lookup_incr _ _ (fun j => negb (hit j))); [done..|by rewrite Hi].
Qed.

Lemma counter_at (v v0 : list Z) (h : nat -> bool) i :
  (i < length v0)%nat -> (forall j, v !! j = Z.add (b2Z (h j)) <$> v0 !! j) -> exists x, v !! i = Some x.
Proof. intros Hi Hv. rewrite Hv. destruct (lookup_lt_is_Some_2 v0 i Hi) as [x ->]. by eexists. Qed.

Lemma count_caches_ok f m (hit : nat -> bool) :
  length (fa_hits f) = S (caches f) -> length (fa_misses f) = S (caches f) ->
  (forall i, (i < caches f)%nat -> hit i = has_bit m i) ->
  exists g, for_from 0 (caches f) (count_cache m) f = Ok g /\ counting f g hit (caches f).
Proof.
  intros Hlh Hlm Hb. apply (for_from_inv (fun i g => counting f g hit i)); [|apply counting_start].
  intros i g Hi Hc. unfold count_cache. rewrite <- Hb by lia. destruct (hit i) eqn:E.
  - destruct (counter_at _ (fa_hits f) _ i ltac:(lia) (ct_hits _ _ _ _ Hc)) as [x Hx].
    rewrite (incr_ok _ _ _ Hx). cbn [mbind outcome_bind]. eexists. split; [done|]. by apply counting_hit.
  - destruct (counter_at _ (fa_misses f) _ i ltac:(lia) (ct_misses _ _ _ _ Hc)) as [x Hx].
    rewrite (incr_ok _ _ _ Hx). cbn [mbind outcome_bind]. eexists. split; [done|]. by apply counting_miss.
Qed.

Lemma count_misses_ok f :
  length (fa_misses f) = S (caches f) ->
  exists g, for_from 0 (S (caches f)) (fun i f => m ← incr i (fa_misses f); Ok (f <| fa_misses := m |>)) f = Ok g /\
    counting f g (fun _ => false) (S (caches f)).
Proof.
  intros Hlm. apply (for_from_inv (fun i g => counting f g (fun _ => false) i)); [|apply counting_start].
  intros i g Hi Hc. destruct (counter_at _ (fa_misses f) _ i ltac:(lia) (ct_misses _ _ _ _ Hc)) as [x Hx].
  rewrite (incr_ok _ _ _ Hx). cbn [mbind outcome_bind]. eexists. split; [done|]. by apply counting_miss.
Qed.

(** The counters are not part of the list. *)
Lemma falru_ok_counters order f g hit i :
  counting f g hit i -> falru_ok order f -> falru_ok order g.
Proof.
  intros [Hr Hh Hm] H.
  assert (El : forall v v0 (h : nat -> bool), (forall j, v !! j = Z.add (b2Z (h j)) <$> v0 !! j) -> length v = length v0).
  { intros v v0 h E. apply Nat.le_antisymm; apply Nat.le_ngt; intros Hlt.
    - destruct (lookup_lt_is_Some_2 v _ Hlt) as [x Hx]. rewrite E, lookup_ge_None_2 in Hx by lia. done.
    - destruct (lookup_lt_is_Some_2 v0 _ Hlt) as [x Hx]. pose proof (E (length v)) as E'.
      rewrite Hx, lookup_ge_None_2 in E' by lia. done. }
  apply El in Hh, Hm. rewrite Hr. destruct H as [? ? ? ? ? ? ? ? ? ? ? ? ? [? ?]].
  split; try done. cbn. by rewrite Hh, Hm.
Qed.

(** An LRU cache of [n] blocks. *)
Definition lru_touch (n b : nat) (l : list nat) : list nat := take n (b :: without b l).

Lemma take_front n p b s :
  NoDup (p ++ b :: s) -> (0 < n)%nat ->
  take n (b :: p ++ s) = lru_touch n b (take n (p ++ b :: s)).
Proof.
  intros Hn Hpos. unfold lru_touch. destruct n as [|n]; [lia|]. cbn [take]. f_equal.
  apply NoDup_app in Hn as (_ & Hpb & Hbs). apply NoDup_cons in Hbs as [Hbs _].
  assert (Hbp : b ∉ p) by (intros Hb; apply (Hpb b Hb); set_solver).
  assert (Htk : forall m l, b ∉ l -> b ∉ take m l)
    by (intros m l Hl Hb; apply Hl; rewrite <- (take_drop m l); set_solver).
  destruct (decide (length p <= n)%nat) as [Hle|Hgt].
  - rewrite (take_app_ge p (b :: s)) by lia. replace (S n - length p)%nat with (S (n - length p)) by lia.
    cbn [take]. rewrite without_split; [|done|by apply Htk].
    rewrite !take_app_ge by lia. by rewrite take_take, Nat.min_id.
  - rewrite !take_app_le by lia. rewrite without_notin, take_take by (by apply Htk).
    f_equal. lia.
Qed.

Lemma falru_ok_accesses order f g : falru_ok order f -> falru_ok order (f <| accesses ::= g |>).
Proof. intros []. by split. Qed.

Lemma counting_counted f f0 g hit k :
  fa_hits f0 = fa_hits f -> fa_misses f0 = fa_misses f ->
  counting f0 g hit (S (caches f)) ->
  (forall i, (i <= caches f)%nat ->
     hit i = match k with Some k => bool_decide (k < cache_blocks f i)%nat | None => false end) ->
  counted f g k.
Proof.
  intros Eh Em [_ Hh Hm] Hk i Hi. rewrite Hh, Hm, Hk, Eh, Em by done.
  by rewrite bool_decide_eq_true_2 by lia.
Qed.

Lemma moved_counted f g h k : moved g h -> counted f g k -> counted f h k.
Proof. intros [Hr _] Hc i Hi. rewrite Hr. by apply Hc. Qed.

(** The first part of a hit: the counters. *)
Lemma access_hit_ok order f addr b x k :
  falru_ok order f -> tagHash f !! fa_blkAlign f addr = Some b -> blks f !! b = Some x ->
  isValid (fa_blk x) = true -> tag (fa_blk x) = fa_blkAlign f addr -> order !! k = Some b ->
  exists g, falru_ok order g /\ counted f g (Some k) /\ accesses g = accesses f + 1 /\
    fa_hitLatency g = fa_hitLatency f /\ fa_blkSize g = fa_blkSize f /\
    tagHash g = tagHash f /\ blks g = blks f /\
    accessBlock addr f =
      (f' ← (if decide (b = fa_head g) then Ok g else moveToHead b g);
       Ok (Some b, inCache x, fa_hitLatency f', f')).
Proof.
  intros H Hh Hx Hv Ht Hk. set (f0 := f <| accesses ::= Z.succ |>).
  assert (H0 : falru_ok order f0) by (by apply falru_ok_accesses).
  pose (hit := fun i => bool_decide (k < cache_blocks f i)%nat).
  destruct (count_caches_ok f0 (inCache x) hit) as (g & Eg & Hg); [apply H0..| |].
  { intros i Hi. rewrite has_bit_test, (fo_flags _ _ H _ _ _ Hk Hx). apply bool_decide_ext.
    change (caches f0) with (caches f) in Hi. lia. }
  destruct (counter_at _ (fa_hits f0) _ (caches f) ltac:(rewrite (proj1 (fo_stats _ _ H0)); exact (Nat.lt_succ_diag_r _)) (ct_hits _ _ _ _ Hg)) as [h Hhc].
  assert (Hlast : hit (caches f) = true).
  { apply bool_decide_eq_true_2. rewrite <- (fo_len _ _ H). by eapply lookup_lt_Some. }
  pose proof (counting_hit _ _ _ _ _ Hg Hlast Hhc) as Hg'.
  exists (g <| fa_hits := <[caches f := h + 1]> (fa_hits g) |>). split; [by eapply falru_ok_counters|].
  pose proof (ct_rest _ _ _ _ Hg) as Hr.
  split; [by eapply (counting_counted f f0)|].
  split; [cbn; rewrite Hr; cbn; lia|]. do 4 (split; [cbn; by rewrite Hr|]).
  unfold accessBlock. fold f0. unfold hashLookup. change (fa_blkAlign f0 addr) with (fa_blkAlign f addr).
  change (tagHash f0) with (tagHash f). rewrite Hh. cbv zeta. rewrite (get_blk_ok b f0 x Hx).
  cbn [mbind outcome_bind]. rewrite Hv, Ht, Z.eqb_refl, Eg. cbn [mbind outcome_bind].
  replace (caches g) with (caches f) by (unfold caches; by rewrite Hr).
  rewrite (incr_ok _ _ _ Hhc). done.
Qed.

Lemma moveToHead_without order b f :
  falru_ok order f -> b ∈ order ->
  exists f', moveToHead b f = Ok f' /\ falru_ok (b :: without b order) f' /\ moved f f'.
Proof.
  intros H (p & s & ->)%list_elem_of_split. pose proof (order_NoDup _ _ H) as Hn.
  apply NoDup_app in Hn as (_ & Hpb & Hbs). apply NoDup_cons in Hbs as [Hbs _].
  rewrite without_split; [by apply moveToHead_ok|intros Hb; apply (Hpb b Hb); set_solver|done].
Qed.

Lemma head_without order b f : falru_ok order f -> b = fa_head f -> b :: without b order = order.
Proof.
  intros H ->. pose proof (order_NoDup _ _ H) as Hn. pose proof (fo_head _ _ H) as Hh.
  destruct order as [|h order]; [done|]. injection Hh as ->. apply NoDup_cons in Hn as [Hn _].
  unfold without. rewrite filter_cons_False by (by intros []). f_equal. by apply without_notin.
Qed.

Lemma moved_refl f : moved f f.
Proof. split; [by destruct f|done]. Qed.

Lemma falru_miss_ok order f addr :
  falru_ok order f ->
  (forall b x, tagHash f !! fa_blkAlign f addr = Some b -> blks f !! b = Some x -> isValid (fa_blk x) = false) ->
  exists f', accessBlock addr f = Ok (None, 0, fa_hitLatency f, f') /\
    falru_ok order f' /\ counted f f' None /\ accesses f' = accesses f + 1 /\
    fa_blkSize f' = fa_blkSize f /\ tagHash f' = tagHash f /\ blks f' = blks f.
Proof.
  intros H Hno. set (f0 := f <| accesses ::= Z.succ |>).
  assert (H0 : falru_ok order f0) by (by apply falru_ok_accesses).
  destruct (count_misses_ok f0) as (g & Eg & Hg); [apply H0|]. pose proof (ct_rest _ _ _ _ Hg) as Hr.
  exists g. split; [|split; [by eapply falru_ok_counters|split; [by eapply (counting_counted f f0)|]]].
  - unfold accessBlock. fold f0. unfold hashLookup. change (fa_blkAlign f0 addr) with (fa_blkAlign f addr).
    change (tagHash f0) with (tagHash f). cbv zeta. rewrite Eg. cbn [mbind outcome_bind].
    replace (fa_hitLatency g) with (fa_hitLatency f) by (by rewrite Hr).
    destruct (tagHash f !! fa_blkAlign f addr) as [b|] eqn:E; [|done].
    destruct (lookup_lt_is_Some_2 (blks f) b (fo_hash _ _ H _ _ E)) as [x Hx].
    rewrite (get_blk_ok b f0 x Hx). cbn [mbind outcome_bind]. by rewrite (Hno b x).
  - split_and!; [rewrite Hr; cbn; lia|by rewrite Hr..].
Qed.

Lemma falru_hit_ok order f addr b x :
  falru_ok order f -> tagHash f !! fa_blkAlign f addr = Some b -> blks f !! b = Some x ->
  isValid (fa_blk x) = true -> tag (fa_blk x) = fa_blkAlign f addr ->
  exists k f', order !! k = Some b /\ accessBlock addr f = Ok (Some b, inCache x, fa_hitLatency f, f') /\
    falru_ok (b :: without b order) f' /\ counted f f' (Some k) /\ accesses f' = accesses f + 1 /\
    fa_blkSize f' = fa_blkSize f /\ tagHash f' = tagHash f /\ public <$> blks f' = public <$> blks f.
Proof.
  intros H Hh Hx Hv Et.
  assert (Hb : b ∈ order).
  { rewrite (fo_perm _ _ H). apply elem_of_seq. apply lookup_lt_Some in Hx. lia. }
  destruct (list_elem_of_lookup_1 _ _ Hb) as [k Hk].
  destruct (access_hit_ok _ _ _ _ _ _ H Hh Hx Hv Et Hk) as (g & Hg & Hc & Ha & Hl & Es & Ehash & Eb & E).
  assert (Hm : exists f', (if decide (b = fa_head g) then Ok g else moveToHead b g) = Ok f' /\
                falru_ok (b :: without b order) f' /\ moved g f').
  { destruct (decide (b = fa_head g)) as [Eh|Eh]; [|by apply moveToHead_without].
    exists g. rewrite (head_without _ _ _ Hg Eh). by split_and!; [| |apply moved_refl]. }
  destruct Hm as (f' & Em & Hf' & [Hr Hp]). exists k, f'. rewrite E, Em. cbn [mbind outcome_bind].
  split; [done|]. split; [rewrite Hr; cbn; by rewrite Hl|]. split; [done|].
  split; [by eapply moved_counted|]. do 3 (split; [by rewrite Hr|]). by rewrite Hp, Eb.
Qed.

Lemma falru_wrong_tag f addr b x :
  tagHash f !! fa_blkAlign f addr = Some b -> blks f !! b = Some x ->
  isValid (fa_blk x) = true -> tag (fa_blk x) <> fa_blkAlign f addr ->
  accessBlock addr f = Err AssertFail.
Proof.
  intros Hh Hx Hv Et. unfold accessBlock, hashLookup. set (f0 := f <| accesses ::= Z.succ |>). cbv zeta.
  change (fa_blkAlign f0 addr) with (fa_blkAlign f addr). change (tagHash f0) with (tagHash f).
  rewrite Hh, (get_blk_ok b f0 x Hx). cbn [mbind outcome_bind]. by rewrite Hv, (proj2 (Z.eqb_neq _ _)).
Qed.

(** The first [n] blocks of the list are an LRU cache of [n] blocks. *)
Lemma lru_inclusion n k b order :
  NoDup order -> (0 < n)%nat -> order !! k = Some b ->
  bool_decide (k < n)%nat = bool_decide (b ∈ take n order) /\
  take n (b :: without b order) = lru_touch n b (take n order).
Proof.
  intros Hnd Hn Hk. split.
  - apply bool_decide_ext. split.
    + intros Hkn. apply list_elem_of_lookup. exists k. by rewrite lookup_take_lt.
    + intros [k' Hk']%list_elem_of_lookup_1. apply lookup_take_Some in Hk' as [Hk' Hlt].
      by rewrite (NoDup_lookup _ _ _ _ Hnd Hk Hk').
  - destruct (list_elem_of_split order b) as (p & s & ->); [by eapply list_elem_of_lookup_2|].
    rewrite <- take_front by done.
    f_equal. f_equal. apply NoDup_app in Hnd as (_ & Hpb & Hbs). apply NoDup_cons in Hbs as [Hbs _].
    apply without_split; [intros Hbp; apply (Hpb b Hbp); set_solver|done].
Qed.

(** ** Replacement *)

Lemma falru_ok_blks order f bs :
  falru_ok order f -> length bs = length (blks f) ->
  (forall b x, blks f !! b = Some x ->
     exists y, bs !! b = Some y /\ prev y = prev x /\ next y = next x /\ inCache y = inCache x) ->
  falru_ok order (f <| blks := bs |>).
Proof.
  intros H Hl Hb.
  assert (Hq : forall k q y, order !! k = Some q -> bs !! q = Some y ->
    exists x, blks f !! q = Some x /\ prev y = prev x /\ next y = next x /\ inCache y = inCache x).
  { intros k q y Hk Hy. destruct (order_blk _ _ _ _ H Hk) as [x Hx]. exists x. split; [done|].
    destruct (Hb q x Hx) as (z & Hz & ?). rewrite Hy in Hz. by injection Hz as <-. }
  destruct H as [Hperm Hlen Hu Hs Hc Hm Hhd Htl Hseg Hcl Hcb Hfl Hh Hst].
  split; try done; cbn [blks set_field].
  - by rewrite Hl.
  - eapply seg_ext; [|exact Hseg]. intros q [k Hk]%list_elem_of_lookup_1. unfold links.
    assert (Hlt : (q < length bs)%nat).
    { rewrite Hl. assert (Hi : q ∈ seq 0 (length (blks f))) by (rewrite <- Hperm; by eapply list_elem_of_lookup_2).
      apply elem_of_seq in Hi. lia. }
    destruct (lookup_lt_is_Some_2 bs q Hlt) as [y Hy]. destruct (Hq _ _ _ Hk Hy) as (x & Hx & Ep & En & _).
    cbn [blks set_field]. rewrite Hx, Hy. cbn. congruence.
  - intros k q y Hk Hy. destruct (Hq _ _ _ Hk Hy) as (x & Hx & _ & _ & ->). by apply (Hfl k q x).
  - intros a b Ha. rewrite Hl. by apply (Hh a).
Qed.

Lemma falru_ok_set order f b x y :
  falru_ok order f -> blks f !! b = Some x -> prev y = prev x -> next y = next x -> inCache y = inCache x ->
  falru_ok order (f <| blks := <[b := y]> (blks f) |>).
Proof.
  intros H Hx Hp Hn Hi. apply falru_ok_blks; [done|apply length_insert|]. intros q z Hz.
  destruct (decide (q = b)) as [->|Hne].
  - exists y. rewrite list_lookup_insert_eq by (by eapply lookup_lt_Some). by simplify_eq.
  - exists z. by rewrite list_lookup_insert_ne.
Qed.

Lemma falru_ok_hash order f m :
  falru_ok order f -> (forall a b, m !! a = Some b -> (b < length (blks f))%nat) ->
  falru_ok order (f <| tagHash := m |>).
Proof. intros [] Hm. by split. Qed.

Lemma falru_ok_stats order f w c r t :
  falru_ok order f ->
  falru_ok order (f <| fa_warmedUp := w |> <| warmupCycle := c |> <| fa_replacements := r |> <| fa_tagsInUse := t |>).
Proof. intros []. by split. Qed.

Lemma last_flags order f b x :
  falru_ok order f -> last order = Some b -> blks f !! b = Some x -> inCache x = 0.
Proof.
  intros H Hl Hx. rewrite last_lookup in Hl. pose proof (fo_unit _ _ H) as Hu.
  apply (flags_at_eq f (pred (length order))); [by apply (fo_flags _ _ H _ _ _ Hl)|]. intros i.
  rewrite Z.testbit_0_l. symmetry. apply bool_decide_eq_false_2. intros [Hi Hk].
  pose proof (cache_blocks_mono f _ _ Hu Hi). rewrite (fo_len _ _ H) in Hk. lia.
Qed.

(** The end of [findVictim]: the counters. *)
Lemma victim_stats order g t b y :
  falru_ok order g -> blks g !! b = Some y ->
  exists f',
    (if isValid (fa_blk y) then Ok (b, g <| fa_replacements ::= Z.succ |>)
     else
       let f := g <| fa_tagsInUse ::= Z.succ |> in
       f ← upd_blk b (fun x => x <| fa_isTouched := true |>) f;
       if negb (fa_warmedUp f) && (fa_warmupBound f <=? fa_tagsInUse f)
       then Ok (b, f <| fa_warmedUp := true |> <| warmupCycle := t |>)
       else Ok (b, f)) = Ok (b, f') /\
    falru_ok order f' /\ fa_blk <$> blks f' = fa_blk <$> blks g /\ fa_blkSize f' = fa_blkSize g /\
    tagHash f' = tagHash g /\
    (if isValid (fa_blk y) then fa_replacements f' = fa_replacements g + 1 /\ fa_tagsInUse f' = fa_tagsInUse g
     else fa_replacements f' = fa_replacements g /\ fa_tagsInUse f' = fa_tagsInUse g + 1).
Proof.
  intros H Hy. destruct (isValid (fa_blk y)).
  { eexists. split; [done|]. split; [destruct H; by split|]. by split_and!. }
  cbv zeta. rewrite (upd_blk_ok _ _ _ y) by done. cbn [mbind outcome_bind].
  set (g2 := _ <| blks := _ |>).
  assert (H2 : falru_ok order g2) by (apply (falru_ok_set order _ b y); [destruct H; by split|done..]).
  assert (E2 : fa_blk <$> blks g2 = fa_blk <$> blks g).
  { unfold g2. cbn. rewrite list_fmap_insert. apply list_insert_id. by rewrite list_lookup_fmap, Hy. }
  destruct (_ && _); (eexists; split; [done|]); (split; [destruct H2; by split|]); by split_and!.
Qed.

(** [FALRU::findVictim] takes the last block of the list. *)
Lemma falru_findVictim_ok order f t addr :
  falru_ok order f ->
  exists p b x f', order = p ++ [b] /\ blks f !! b = Some x /\ findVictim t addr f = Ok (b, f') /\
    falru_ok (b :: p) f' /\ fa_blk <$> blks f' = fa_blk <$> blks f /\ fa_blkSize f' = fa_blkSize f /\
    tagHash f' = <[fa_blkAlign f addr := b]> (delete (tag (fa_blk x)) (tagHash f)) /\
    (if isValid (fa_blk x) then fa_replacements f' = fa_replacements f + 1 /\ fa_tagsInUse f' = fa_tagsInUse f
     else fa_replacements f' = fa_replacements f /\ fa_tagsInUse f' = fa_tagsInUse f + 1).
Proof.
  intros H. pose proof (fo_tail _ _ H) as Ht.
  apply last_Some in Ht as [p Hp]. set (b := fa_tail f) in *. subst order.
  assert (Hb : (p ++ [b]) !! length p = Some b) by (by apply list_lookup_middle).
  destruct (order_blk _ _ _ _ H Hb) as [x Hx].
  destruct (moveToHead_ok p b [] f H) as (g & Eg & Hg & [Hr Hpub]). rewrite app_nil_r in Hg.
  assert (Hy : exists y, blks g !! b = Some y /\ fa_blk y = fa_blk x).
  { apply (f_equal (fun l => l !! b)) in Hpub. rewrite !list_lookup_fmap, Hx in Hpub.
    destruct (blks g !! b) as [y|]; [|done]. exists y. split; [done|]. cbn in Hpub. by injection Hpub. }
  destruct Hy as (y & Hy & Ey).
  set (m := <[fa_blkAlign f addr := b]> (delete (tag (fa_blk x)) (tagHash f))).
  assert (Hm : falru_ok (b :: p) (g <| tagHash := m |>)).
  { apply falru_ok_hash; [done|]. intros a q Ha. apply lookup_insert_Some in Ha as [[_ <-]|[_ Ha]].
    - by eapply lookup_lt_Some.
    - apply lookup_delete_Some in Ha as [_ Ha]. apply (fo_hash _ _ Hg a). by rewrite Hr. }
  assert (Efb : fa_blk <$> blks g = fa_blk <$> blks f).
  { apply (f_equal (fmap fst)) in Hpub. rewrite <- !list_fmap_compose in Hpub. exact Hpub. }
  unfold findVictim. fold b. rewrite (get_blk_ok _ _ _ Hx). cbn [mbind outcome_bind].
  rewrite (last_flags _ _ _ _ H (fo_tail _ _ H) Hx), Z.eqb_refl, Eg. cbn [mbind outcome_bind].
  rewrite (get_blk_ok _ _ _ Hy). cbn [mbind outcome_bind]. rewrite Ey.
  match goal with |- context [fa_blkAlign ?g' addr] =>
    replace (fa_blkAlign g' addr) with (fa_blkAlign f addr) by (unfold fa_blkAlign; by rewrite Hr) end.
  assert (E1 : (g <| tagHash ::= delete (tag (fa_blk x)) |> <| tagHash ::= insert (fa_blkAlign f addr) b |>)
               = g <| tagHash := m |>) by (unfold m; by rewrite Hr).
  rewrite E1. destruct (victim_stats _ _ t b y Hm Hy) as (f' & Ef' & H' & E3 & E4 & E5 & E6).
  rewrite Ey in Ef', E6. exists p, b, x, f'. split_and!; try exact Ef'; try done.
  - by rewrite E3.
  - rewrite E4. by rewrite Hr.
  - replace (fa_replacements f) with (fa_replacements (g <| tagHash := m |>)) by (by rewrite Hr).
    replace (fa_tagsInUse f) with (fa_tagsInUse (g <| tagHash := m |>)) by (by rewrite Hr). done.
Qed.

(** ** Construction *)

(** The links of the block at place [q] of [n], in array order. *)
Definition row_links (n q : nat) : option nat * option nat :=
  (match q with O => None | S q => Some q end, if decide (q = pred n) then None else Some (S q)).

Lemma seg_row L n : forall a k pr,
  (a + k = n)%nat -> pr = match a with O => None | S a => Some a end ->
  (forall q, (a <= q < n)%nat -> L q = Some (row_links n q)) -> seg L pr (seq a k) None.
Proof.
  intros a k. revert a. induction k as [|k IH]; intros a pr Hn -> HL; [done|]. cbn [seq seg].
  split; [|apply IH; [lia|done|intros q Hq; apply HL; lia]].
  rewrite HL by lia. unfold row_links. f_equal. f_equal. destruct (decide (a = pred n)) as [E|E].
  - by replace k with 0%nat by lia.
  - destruct k; [lia|done].
Qed.

Section construct.
Context (f0 : FALRU) (n : nat).
Context (Hu : (2 <= unit_blocks f0)%nat) (Hn : n = cache_blocks f0 (caches f0)) (Hn32 : Z.of_nat n < 2 ^ 32).
Context (Hcb : length (cacheBoundaries f0) = caches f0) (Hlen : length (blks f0) = n).

(** After the rounds below [i]. *)
Record built (i : nat) (st : FALRU * Z * nat * Z) : Prop := {
  bu_rest : let f := st.1.1.1 in f = f0 <| blks := blks f |> <| cacheBoundaries := cacheBoundaries f |>;
  bu_len : length (blks st.1.1.1) = n /\ length (cacheBoundaries st.1.1.1) = caches f0;
  bu_blks q : (q < i)%nat \/ q = pred n -> exists x, blks st.1.1.1 !! q = Some x /\
    fa_blk x = CacheBlk_new /\ (prev x, next x) = row_links n q /\ flags_at f0 q (inCache x);
  bu_todo q : (q < n)%nat -> exists x, blks st.1.1.1 !! q = Some x /\ fa_blk x = CacheBlk_new;
  bu_flags : flags_at f0 i st.1.1.2;
  bu_index : (st.1.2 <= caches f0)%nat /\ st.2 = Z.of_nat (cache_blocks f0 st.1.2) /\
    (i < cache_blocks f0 st.1.2)%nat;
  bu_below j : (j < st.1.2)%nat -> (cache_blocks f0 j <= i)%nat /\
    cacheBoundaries st.1.1.1 !! j = Some (Some (cache_blocks f0 j - 1)%nat)
}.

Lemma blocks_le j : (j <= caches f0)%nat -> (cache_blocks f0 j <= n)%nat.
Proof.
  intros Hj. rewrite Hn. destruct (Nat.eq_dec j (caches f0)) as [->|]; [done|].
  apply Nat.lt_le_incl, cache_blocks_mono; lia.
Qed.

Lemma link_block_ok i st :
  (1 <= i < n - 1)%nat -> built i st -> exists st', link_block i st = Ok st' /\ built (S i) st'.
Proof.
  destruct st as [[[f flags] j] index]. intros Hi [Hr [Hl Hlc] Hb Ht Hf (Hj & Eidx & Hij) Hbe]. cbn [fst snd] in *.
  subst index.
  pose proof (blocks_le j Hj) as Hjn. pose proof (cache_blocks_ge f0 j Hu) as H2.
  destruct (Ht i ltac:(lia)) as (x & Hx & Hxb). unfold link_block.
  rewrite (upd_blk_ok _ _ _ x) by done. cbn [mbind outcome_bind].
  set (x1 := x <| inCache := flags |>). set (f1 := f <| blks := <[i := x1]> (blks f) |>).
  set (x2 := x1 <| prev := Some (i - 1)%nat |> <| next := Some (S i) |> <| fa_isTouched := false |>).
  assert (Hx1 : forall cb, blks (f1 <| cacheBoundaries := cb |>) !! i = Some x1).
  { intros cb. unfold f1. cbn. by rewrite list_lookup_insert_eq by (by eapply lookup_lt_Some). }
  assert (Hblks : forall q, (q < S i)%nat \/ q = pred n -> exists z, <[i := x2]> (blks f1) !! q = Some z /\
    fa_blk z = CacheBlk_new /\ (prev z, next z) = row_links n q /\ flags_at f0 q (inCache z)).
  { intros q Hq. unfold f1. cbn [blks set_field]. destruct (decide (q = i)) as [->|Hne].
    - exists x2. split; [by rewrite list_lookup_insert_eq by (rewrite length_insert; by eapply lookup_lt_Some)|].
      split; [done|]. split; [|done]. unfold row_links. rewrite decide_False by lia.
      destruct i as [|i]; [lia|]. cbn. by rewrite Nat.sub_0_r.
    - rewrite !list_lookup_insert_ne by done. apply Hb. lia. }
  assert (Htodo : forall q, (q < n)%nat -> exists z, <[i := x2]> (blks f1) !! q = Some z /\ fa_blk z = CacheBlk_new).
  { intros q Hq. unfold f1. cbn [blks set_field]. destruct (decide (q = i)) as [->|Hne].
    - exists x2. by rewrite list_lookup_insert_eq by (rewrite length_insert; by eapply lookup_lt_Some).
    - rewrite !list_lookup_insert_ne by done. by apply Ht. }
  assert (Hlen1 : length (<[i := x2]> (blks f1)) = n) by (unfold f1; cbn; by rewrite !length_insert).
  rewrite (wrap_small 32) by lia.
  destruct (Z.eqb_spec (Z.of_nat i) (Z.of_nat (cache_blocks f0 j) - 1)) as [E|E].
  - assert (Hjc : (j < caches f0)%nat).
    { destruct (Nat.eq_dec j (caches f0)) as [->|]; [rewrite <- Hn in E; lia|lia]. }
    unfold aset. change (cacheBoundaries f1) with (cacheBoundaries f). rewrite decide_True by lia.
    cbn [mbind outcome_bind]. rewrite (upd_blk_ok _ _ _ x1) by apply Hx1. cbn [mbind outcome_bind].
    assert (Edbl : u32 (Z.shiftl (Z.of_nat (cache_blocks f0 j)) 1) = Z.of_nat (cache_blocks f0 (S j))).
    { pose proof (blocks_le (S j) Hjc). rewrite Z.shiftl_mul_pow2 by lia.
      assert (Z.of_nat (cache_blocks f0 (S j)) = Z.of_nat (cache_blocks f0 j) * 2)
        by (unfold cache_blocks; rewrite Nat.pow_succ_r'; lia).
      rewrite wrap_small by lia. lia. }
    rewrite Edbl. eexists. split; [done|]. split; cbn [fst snd]; try done.
    + cbn. unfold f1. cbn. rewrite Hr. by destruct f0, f.
    + split; [done|]. cbn. by rewrite length_insert.
    + apply flags_past; [done..|lia|]. intros j' Hj'. by apply Hbe.
    + split; [done|]. split; [done|]. pose proof (cache_blocks_mono f0 j (S j) Hu). lia.
    + intros j' Hj'. cbn. destruct (decide (j' = j)) as [->|Hne].
      * rewrite list_lookup_insert_eq by lia. split; [lia|]. do 2 f_equal. lia.
      * rewrite list_lookup_insert_ne by done. destruct (Hbe j' ltac:(lia)). split; [lia|done].
  - cbn [mbind outcome_bind]. rewrite (upd_blk_ok _ _ _ x1).
    2: { unfold f1. cbn. by rewrite list_lookup_insert_eq by (by eapply lookup_lt_Some). }
    cbn [mbind outcome_bind]. eexists. split; [done|]. split; cbn [fst snd]; try done.
    + cbn. unfold f1. cbn. rewrite Hr. by destruct f0, f.
    + apply (flags_within _ _ j); [done|done|lia|]. intros j' Hj'. by apply Hbe.
    + split; [done|]. split; [done|]. lia.
    + intros j' Hj'. destruct (Hbe j' Hj') as [? ?]. split; [lia|done].
Qed.
End construct.

Lemma row_links_last n : (2 <= n)%nat -> row_links n (n - 1) = (Some (n - 2)%nat, None).
Proof.
  intros Hn. unfold row_links. rewrite decide_True by lia. by replace (n - 1)%nat with (S (n - 2)) by lia.
Qed.

Lemma built_ok f0 n f j flags index :
  built f0 n (n - 1) (f, flags, j, index) ->
  (2 <= unit_blocks f0)%nat -> n = cache_blocks f0 (caches f0) ->
  Z.of_nat (unit_blocks f0) * fa_blkSize f0 = 2 ^ 17 ->
  0 <= numCaches f0 < 31 -> flags_at f0 0 (cacheMask f0) -> fa_head f0 = 0%nat -> fa_tail f0 = (n - 1)%nat ->
  tagHash f0 = ∅ -> length (fa_hits f0) = S (caches f0) -> length (fa_misses f0) = S (caches f0) ->
  Z.of_nat j = numCaches f0 /\ index = Z.of_nat n /\ falru_ok (seq 0 n) f.
Proof.
  intros [Hr [Hl Hlc] Hb _ _ (Hj & Hidx & Hij) Hbe] Hu Hn Hs Hc Hm Hh Ht Hth Hhi Hmi. cbn [fst snd] in *.
  destruct (sizes_eq f0 f) as (Ec & Eb & Ef); [by rewrite Hr..|].
  pose proof (cache_blocks_ge f0 (caches f0) Hu) as H2.
  assert (Ej : j = caches f0).
  { destruct (Nat.eq_dec j (caches f0)); [done|]. assert (Hlt : (j < caches f0)%nat) by lia.
    pose proof (cache_blocks_mono f0 _ _ Hu Hlt). lia. }
  subst j. split; [unfold caches; lia|]. split; [by rewrite Hn|].
  assert (Hat : forall k q, seq 0 n !! k = Some q -> q = k /\ (k < n)%nat).
  { intros k q Hk. pose proof (lookup_lt_Some _ _ _ Hk) as Hlt. rewrite length_seq in Hlt.
    rewrite lookup_seq_lt in Hk by done. injection Hk as <-. lia. }
  split; try (rewrite Hr; done).
  - by rewrite Hl.
  - by rewrite length_seq, Eb, Ec.
  - replace (fa_head f) with 0%nat by (by rewrite Hr). by destruct n; [lia|].
  - rewrite last_lookup, length_seq. replace (fa_tail f) with (n - 1)%nat by (by rewrite Hr).
    rewrite lookup_seq_lt by lia. f_equal. lia.
  - apply (seg_row _ n); [lia|done|]. intros q Hq. destruct (Hb q ltac:(lia)) as (x & Hx & _ & <- & _).
    unfold links. by rewrite Hx.
  - intros i Hi. rewrite Ec in Hi. destruct (Hbe i Hi) as [Hle ->]. f_equal. symmetry. rewrite Eb.
    apply lookup_seq_lt. pose proof (cache_blocks_mono f0 _ _ Hu Hi). lia.
  - intros k q x [-> Hlt]%Hat Hx. apply Ef. destruct (Hb k ltac:(lia)) as (y & Hy & _ & _ & Hf). by simplify_eq.
  - intros a q Ha. rewrite Hr in Ha. cbn in Ha. by rewrite Hth in Ha.
Qed.

Lemma built_start n f mask x y :
  (2 <= n)%nat -> (2 <= unit_blocks f)%nat -> n = cache_blocks f (caches f) ->
  length (cacheBoundaries f) = caches f -> length (blks f) = n -> flags_at f 0 mask ->
  (forall q, (q < n)%nat -> exists z, blks f !! q = Some z /\ fa_blk z = CacheBlk_new) ->
  blks f !! 0%nat = Some x -> (prev x, next x) = row_links n 0 -> inCache x = mask ->
  blks f !! (n - 1)%nat = Some y -> (prev y, next y) = row_links n (n - 1) -> inCache y = 0 ->
  built f n 1 (f, mask, 0%nat, Z.of_nat (unit_blocks f)).
Proof.
  intros Hn2 Hu Hn Hcb Hl Hm Ht Hx Hxl Hxm Hy Hyl Hym.
  pose proof (cache_blocks_ge f 0 Hu) as H0.
  assert (E0 : cache_blocks f 0 = unit_blocks f) by (unfold cache_blocks; cbn; lia).
  split; cbn [fst snd]; [by destruct f|done| |done| | |lia].
  - intros q Hq. assert (Hq' : q = 0%nat \/ q = (n - 1)%nat) by lia.
    destruct (Ht q ltac:(lia)) as (z & Hz & Hzb). exists z. split; [done|]. split; [done|].
    destruct Hq' as [-> | ->]; simplify_eq; (split; [done|]); [done|].
    intros i. rewrite Hym, Z.testbit_0_l. symmetry. apply bool_decide_eq_false_2. intros [Hi Hlt].
    pose proof (cache_blocks_mono f _ _ Hu Hi). lia.
  - intros i. rewrite (Hm i). apply bool_decide_ext. pose proof (cache_blocks_ge f i Hu). lia.
  - split; [lia|]. by rewrite E0.
Qed.

(** A tag store of [2 ^ s] bytes in blocks of [2 ^ b]. *)
Lemma FALRU_new_ok s b hl touched :
  17 <= s <= 30 -> 0 <= b <= 16 -> 0 < hl ->
  exists f, FALRU_new (2 ^ s) (2 ^ b) hl touched = Ok f /\
    falru_ok (seq 0 (Z.to_nat (2 ^ (s - b)))) f /\ caches f = Z.to_nat (s - 17) /\
    fa_blkSize f = 2 ^ b /\ tagHash f = ∅ /\
    forall q, (q < Z.to_nat (2 ^ (s - b)))%nat -> exists x, blks f !! q = Some x /\ fa_blk x = CacheBlk_new.
Proof.
  intros Hs Hb Hhl.
  assert (Hp : forall k, 0 <= k <= 30 -> 0 < 2 ^ k < 2 ^ 32).
  { intros k Hk. split; [by apply Z.pow_pos_nonneg; lia|apply Z.pow_lt_mono_r; lia]. }
  assert (Hpow : forall k, 0 <= k <= 30 -> isPowerOf2 32 (2 ^ k) = true).
  { intros k Hk. apply isPowerOf2_spec; [lia|specialize (Hp k Hk); lia|]. exists k. split; [lia|done]. }
  unfold FALRU_new. rewrite !Hpow by lia. rewrite (proj2 (Z.ltb_lt 0 hl)) by done. cbn [negb].
  rewrite floorLog2_log2 by (apply Hp; lia). rewrite Z.log2_pow2 by lia. cbn [mbind outcome_bind].
  rewrite (wrap_small 32) by lia. rewrite (proj2 (Z.leb_gt 31 _)) by lia.
  rewrite <- Z.pow_sub_r by lia. set (n := Z.to_nat (2 ^ (s - b))).
  assert (Hn : (2 <= n)%nat).
  { unfold n. assert (2 ^ 1 <= 2 ^ (s - b)) by (apply Z.pow_le_mono_r; lia). lia. }
  rewrite (proj2 (Nat.ltb_ge n 2)) by done. cbv zeta.
  set (mask := if 0 <? s - 17 then Z.shiftl 1 (s - 17) - 1 else 0).
  set (B := MkFABlk CacheBlk_new None None touched 0).
  rewrite (upd_blk_ok 0 _ _ B) by (cbn [blks]; apply lookup_replicate_2; lia). cbn [mbind outcome_bind].
  rewrite (upd_blk_ok (n - 1) _ _ B).
  2: { cbn. rewrite list_lookup_insert_ne by lia. apply lookup_replicate_2. lia. }
  cbn [mbind outcome_bind]. set (f2 := _ <| blks := <[(n - 1)%nat := _]> _ |>).
  assert (Eu : Z.of_nat (unit_blocks f2) = 2 ^ 17 / 2 ^ b).
  { unfold unit_blocks. change (fa_blkSize f2) with (2 ^ b). rewrite Z2Nat.id; [done|]. apply Z.div_pos; [lia|apply Hp; lia]. }
  rewrite <- Eu. rewrite <- Z.pow_sub_r in Eu by lia.
  assert (Hu : (2 <= unit_blocks f2)%nat) by (assert (2 ^ 1 <= 2 ^ (17 - b)) by (apply Z.pow_le_mono_r; lia); lia).
  assert (Ec : caches f2 = Z.to_nat (s - 17)) by done.
  assert (Encb : n = cache_blocks f2 (caches f2)).
  { apply Nat2Z.inj. unfold cache_blocks. rewrite Nat2Z.inj_mul, Nat2Z.inj_pow, Eu, Ec. unfold n.
    rewrite !Z2Nat.id by (lia || apply Z.lt_le_incl, Hp; lia). rewrite <- Z.pow_add_r by lia. f_equal. lia. }
  assert (Hlb : length (blks f2) = n) by (unfold f2; cbn; by rewrite !length_insert, length_replicate).
  assert (Hmask : flags_at f2 0 mask).
  { intros i. pose proof (cache_blocks_ge f2 i Hu). unfold mask. rewrite Ec. destruct (Z.ltb_spec 0 (s - 17)).
    - rewrite mask_bit by lia. destruct (Z.ltb_spec (Z.of_nat i) (s - 17)); symmetry;
        [apply bool_decide_eq_true_2|apply bool_decide_eq_false_2]; lia.
    - rewrite Z.testbit_0_l. symmetry. apply bool_decide_eq_false_2. lia. }
  assert (Hcbl : length (cacheBoundaries f2) = caches f2) by (unfold f2; cbn; by rewrite length_replicate).
  pose (X := B <| prev := None |> <| next := Some 1%nat |> <| inCache := mask |>).
  pose (Y := B <| prev := Some (n - 2)%nat |> <| next := None |> <| inCache := 0 |>).
  assert (Eblk : blks f2 = <[(n - 1)%nat := Y]> (<[0%nat := X]> (replicate n B))) by done.
  assert (HX : blks f2 !! 0%nat = Some X).
  { rewrite Eblk, list_lookup_insert_ne, list_lookup_insert_eq by (rewrite ?length_replicate; lia). done. }
  assert (HY : blks f2 !! (n - 1)%nat = Some Y).
  { rewrite Eblk, list_lookup_insert_eq by (rewrite length_insert, length_replicate; lia). done. }
  assert (Hall : forall q, (q < n)%nat -> exists z, blks f2 !! q = Some z /\ fa_blk z = CacheBlk_new).
  { intros q Hq. rewrite Eblk. destruct (decide (q = (n - 1)%nat)) as [->|Hne]; [rewrite <- Eblk; by exists Y|].
    rewrite list_lookup_insert_ne by done. destruct (decide (q = 0%nat)) as [->|Hne0].
    - exists X. by rewrite list_lookup_insert_eq by (rewrite length_replicate; lia).
    - exists B. rewrite list_lookup_insert_ne by done. split; [by apply lookup_replicate_2|done]. }
  destruct (for_from_inv (built f2 n) 1 (n - 2) link_block (f2, mask, 0%nat, Z.of_nat (unit_blocks f2)))
    as ([[[f flags] j] index] & E & Hbuilt).
  { intros i st Hi. apply link_block_ok; try done; [|lia].
    unfold n. rewrite Z2Nat.id by (apply Z.lt_le_incl, Hp; lia). apply Hp. lia. }
  { apply (built_start n f2 mask X Y); try done; [|by rewrite row_links_last].
    unfold row_links. by rewrite decide_False by lia. }
  replace (1 + (n - 2))%nat with (n - 1)%nat in Hbuilt by lia. rewrite E. cbn [mbind outcome_bind].
  destruct (built_ok f2 n f j flags index Hbuilt Hu Encb) as (Ej & -> & Hok); try done.
  - rewrite Eu. change (fa_blkSize f2) with (2 ^ b). rewrite <- Z.pow_add_r by lia. f_equal. lia.
  - cbn. lia.
  - unfold f2. cbn. by rewrite length_replicate.
  - unfold f2. cbn. by rewrite length_replicate.
  - change (numCaches f2) with (s - 17) in Ej. rewrite Ej, !Z.eqb_refl. exists f. split; [done|].
    pose proof (bu_rest _ _ _ _ Hbuilt) as Hr. cbn [fst snd] in Hr.
    split; [done|]. split; [by rewrite Hr|]. split; [by rewrite Hr|]. split; [by rewrite Hr|].
    intros q Hq. by apply (bu_todo _ _ _ _ Hbuilt).
Qed.

(** ** Runs *)

(** What happens to the store: the cache looks up, replaces, invalidates, and
    writes the [CacheBlk] part of blocks as it likes. *)
Inductive falru_step (f : FALRU) : FALRU -> Prop :=
| step_access addr r m lat f' : accessBlock addr f = Ok (r, m, lat, f') -> falru_step f f'
| step_victim t addr b f' : findVictim t addr f = Ok (b, f') -> falru_step f f'
| step_invalidate b f' : invalidate (Some b) f = Ok f' -> falru_step f f'
| step_cache b x c : blks f !! b = Some x ->
    falru_step f (f <| blks := <[b := x <| fa_blk := c |>]> (blks f) |>)
| step_clear : falru_step f (clearLocks f).

Lemma caches_same o f o' f' :
  falru_ok o f -> falru_ok o' f' -> fa_blkSize f' = fa_blkSize f -> length o' = length o -> caches f' = caches f.
Proof.
  intros H H' Eb El. rewrite (fo_len _ _ H), (fo_len _ _ H') in El. unfold cache_blocks in El.
  assert (Eu : unit_blocks f' = unit_blocks f) by (unfold unit_blocks; by rewrite Eb).
  rewrite Eu in El. pose proof (fo_unit _ _ H). apply Nat.mul_cancel_l in El; [|lia].
  by apply (Nat.pow_inj_r 2) in El; [|lia].
Qed.

Lemma access_cases f addr order :
  falru_ok order f ->
  accessBlock addr f = Err AssertFail \/
  exists r m lat f' order', accessBlock addr f = Ok (r, m, lat, f') /\ falru_ok order' f' /\
    order' ≡ₚ order /\ fa_blkSize f' = fa_blkSize f.
Proof.
  intros H.
  assert (Hmiss : (forall b x, tagHash f !! fa_blkAlign f addr = Some b -> blks f !! b = Some x ->
                     isValid (fa_blk x) = false) ->
    exists r m lat f' order', accessBlock addr f = Ok (r, m, lat, f') /\ falru_ok order' f' /\
      order' ≡ₚ order /\ fa_blkSize f' = fa_blkSize f).
  { intros Hno. destruct (falru_miss_ok order f addr H Hno) as (f' & E & Hf' & _ & _ & Eb & _).
    by exists None, 0, (fa_hitLatency f), f', order. }
  destruct (tagHash f !! fa_blkAlign f addr) as [b|] eqn:Eh; [|right; apply Hmiss; by intros].
  destruct (lookup_lt_is_Some_2 (blks f) b (fo_hash _ _ H _ _ Eh)) as [x Hx].
  destruct (isValid (fa_blk x)) eqn:Ev; [|right; apply Hmiss; intros; by simplify_eq].
  destruct (decide (tag (fa_blk x) = fa_blkAlign f addr)) as [Et|Et];
    [right|left; by eapply falru_wrong_tag].
  destruct (falru_hit_ok _ _ _ _ _ H Eh Hx Ev Et) as (k & f' & Hk & E & Hf' & _ & _ & Eb & _).
  exists (Some b), (inCache x), (fa_hitLatency f), f', (b :: without b order).
  split; [done|]. split; [done|]. split; [|done].
  apply without_perm; [by apply (order_NoDup _ f)|by eapply list_elem_of_lookup_2].
Qed.

Lemma falru_step_ok order f f' :
  falru_ok order f -> falru_step f f' ->
  exists order', falru_ok order' f' /\ order' ≡ₚ order /\ fa_blkSize f' = fa_blkSize f.
Proof.
  intros H Hs. destruct Hs as [addr r m lat f' E|t addr b f' E|b f' E|b x c Hx|].
  - destruct (access_cases f addr order H) as [E'|(r' & m' & lat' & g & o & E' & Ho & Hp & Eb)]; [congruence|].
    rewrite E in E'. injection E' as -> -> -> ->. by exists o.
  - destruct (falru_findVictim_ok order f t addr H) as (p & b' & x & g & -> & _ & E' & Hg & _ & Eb & _).
    rewrite E in E'. injection E' as -> ->. exists (b' :: p). split; [done|]. split; [|done].
    apply Permutation_cons_append.
  - injection E as <-. exists order. split; [destruct H; by split|done].
  - exists order. split; [by apply (falru_ok_set order f b x)|done].
  - exists order. split; [|done]. apply falru_ok_blks; [done|by rewrite length_map|].
    intros b x Hx. eexists. split; [by rewrite list_lookup_fmap, Hx|done].
Qed.

(** C30. The fully associative store, for sizes of 128K to 1G and blocks of up
    to 64K: the constructor passes its assertions; in every state reached by
    lookups, replacements, invalidations and writes of the cache the blocks
    form one recency list, linked both ways, with the boundaries and flags of
    every tracked size where they belong: [check] confirms it; and a
    replacement never fails there and takes the last block. *)
Theorem falru_invariant (s b hit_latency : Z) (touched : bool) :
  17 <= s <= 30 -> 0 <= b <= 16 -> 0 < hit_latency ->
  exists f0, FALRU_new (2 ^ s) (2 ^ b) hit_latency touched = Ok f0 /\
    forall f, rtc falru_step f0 f ->
      exists order, falru_ok order f /\ check f = Ok true /\
        forall t addr, exists v f', findVictim t addr f = Ok (v, f') /\ last order = Some v.
Proof.
  intros Hs Hb Hl. destruct (FALRU_new_ok s b hit_latency touched Hs Hb Hl) as (f0 & E & H0 & Hc & _).
  exists f0. split; [done|]. intros f Hf.
  assert (H : exists order, falru_ok order f /\ caches f = caches f0).
  { revert H0. generalize (seq 0 (Z.to_nat (2 ^ (s - b)))). clear E Hc.
    induction Hf as [f|f f1 f2 Hst _ IH]; intros o Ho; [by exists o|].
    destruct (falru_step_ok _ _ _ Ho Hst) as (o' & Ho' & Hp & Eb).
    destruct (IH o' Ho') as (o2 & Ho2 & Ec). exists o2. split; [done|]. rewrite Ec.
    apply (caches_same _ _ _ _ Ho Ho' Eb). by rewrite Hp. }
  destruct H as (order & H & Ec). exists order. split; [done|].
  split; [apply (check_ok order); [done|rewrite Ec, Hc; lia]|]. intros t addr.
  destruct (falru_findVictim_ok order f t addr H) as (p & v & x & f' & -> & _ & Ev & _).
  exists v, f'. split; [done|]. apply last_snoc.
Qed.

(** [FALRU::accessBlock].  On a hit (the hash index leads to a valid block
    with the right tag) the block becomes the first of the recency list; the
    hit counter of each tracked size counts it exactly when an LRU cache of
    that size holds the block, and the miss counter otherwise; these LRU caches
    are the first blocks of the list, before and after.  The assertion fails
    when the tag is another one.  In all other cases every size counts a miss
    and the list stays. *)
Theorem falru_access (order : list nat) (f : FALRU) (addr : Z) :
  falru_ok order f ->
  let a := fa_blkAlign f addr in
  (forall b x, tagHash f !! a = Some b -> blks f !! b = Some x -> isValid (fa_blk x) = true ->
     if tag (fa_blk x) =? a then
       exists k f', accessBlock addr f = Ok (Some b, inCache x, fa_hitLatency f, f') /\
         falru_ok (b :: without b order) f' /\ counted f f' (Some k) /\ accesses f' = accesses f + 1 /\
         tagHash f' = tagHash f /\ public <$> blks f' = public <$> blks f /\
         forall i, (i <= caches f)%nat ->
           let n := cache_blocks f i in
           bool_decide (k < n)%nat = bool_decide (b ∈ take n order) /\
           take n (b :: without b order) = lru_touch n b (take n order)
     else accessBlock addr f = Err AssertFail) /\
  ((forall b x, tagHash f !! a = Some b -> blks f !! b = Some x -> isValid (fa_blk x) = false) ->
   exists f', accessBlock addr f = Ok (None, 0, fa_hitLatency f, f') /\
     falru_ok order f' /\ counted f f' None /\ accesses f' = accesses f + 1 /\
     tagHash f' = tagHash f /\ blks f' = blks f).
Proof.
  intros H a. split.
  - intros b x Hh Hx Hv. destruct (Z.eqb_spec (tag (fa_blk x)) a) as [Et|Et]; [|by eapply falru_wrong_tag].
    destruct (falru_hit_ok _ _ _ _ _ H Hh Hx Hv Et) as (k & f' & Hk & E & Hf' & Hc & Ha & _ & Eh & Ep).
    exists k, f'. do 6 (split; [done|]). intros i Hi n.
    apply lru_inclusion; [by apply (order_NoDup _ f)| |done].
    pose proof (cache_blocks_ge f i (fo_unit _ _ H)). unfold n. lia.
  - intros Hno. destruct (falru_miss_ok order f addr H Hno) as (f' & ? & ? & ? & ? & _ & ? & ?).
    by exists f'.
Qed.

(** Nothing gives a block of the fully associative store its tag:
    [findVictim] enters the block for [addr] in the hash index and leaves its
    tag as it was, [insertBlock] does nothing; so once the cache has validated
    the block, the next lookup of that address fails the assertion on the tag,
    unless the old tag happens to be the new address. *)
Theorem falru_tag_never_set (order : list nat) (f : FALRU) (t addr st : Z) (pkt : Packet) :
  falru_ok order f -> Z.testbit st 0 = true ->
  exists v x f1 y, findVictim t addr f = Ok (v, f1) /\ last order = Some v /\
    blks f !! v = Some x /\ blks f1 !! v = Some y /\ tag (fa_blk y) = tag (fa_blk x) /\
    (tag (fa_blk x) <> fa_blkAlign f addr ->
     accessBlock addr ((insertBlock pkt v f1)
       <| blks ::= insert v (y <| fa_blk ::= fun c => c <| status := st |> |>) |>) = Err AssertFail).
Proof.
  intros H Hst.
  destruct (falru_findVictim_ok order f t addr H) as (p & v & x & f1 & -> & Hx & E & Hf1 & Eb & Es & Eh & _).
  assert (Hy : exists y, blks f1 !! v = Some y /\ fa_blk y = fa_blk x).
  { apply (f_equal (fun l => l !! v)) in Eb. rewrite !list_lookup_fmap, Hx in Eb.
    destruct (blks f1 !! v) as [y|]; [|done]. exists y. split; [done|]. by injection Eb. }
  destruct Hy as (y & Hy & Ey). exists v, x, f1, y. split; [done|]. split; [apply last_snoc|].
  split; [done|]. split; [done|]. split; [by rewrite Ey|]. intros Ht. unfold insertBlock.
  set (y' := y <| fa_blk ::= fun c => c <| status := st |> |>).
  apply (falru_wrong_tag _ _ v y').
  - cbn. unfold fa_blkAlign. cbn. rewrite Es, Eh. apply lookup_insert_eq.
  - cbn. apply list_lookup_insert_eq. by eapply lookup_lt_Some.
  - unfold y'. rewrite isValid_bit. done.
  - unfold y', fa_blkAlign. cbn. rewrite Es, Ey. exact Ht.
Qed.

(** ** At concrete inputs: 512K in blocks of 64K *)

Lemma falru_invariant_witness :
  exists f0, FALRU_new (2 ^ 19) (2 ^ 16) 1 false = Ok f0 /\
    forall f, rtc falru_step f0 f ->
      exists order, falru_ok order f /\ check f = Ok true /\
        forall t addr, exists v f', findVictim t addr f = Ok (v, f') /\ last order = Some v.
Proof. apply (falru_invariant 19 16 1 false); lia. Defined.

Lemma new_store_ok : exists f, FALRU_new (2 ^ 19) (2 ^ 16) 1 false = Ok f /\ falru_ok (seq 0 8) f /\
  blks f !! 7%nat = Some (MkFABlk CacheBlk_new (Some 6%nat) None false 0) /\ fa_blkSize f = 2 ^ 16.
Proof.
  destruct (FALRU_new_ok 19 16 1 false) as (f & E & H & _); [lia..|]. exists f. split; [exact E|].
  split; [exact H|]. vm_compute in E. injection E as <-. by split.
Qed.

(** Address 0 is entered and validated; its tag happens to be right. *)
Definition entered_store : outcome FALRU :=
  f ← FALRU_new (2 ^ 19) (2 ^ 16) 1 false;
  '(b, f) ← findVictim 0 0 f;
  upd_blk b (fun x => x <| fa_blk ::= fun c => c <| status := 7 |> |>) f.

Lemma entered_store_ok : exists order f x, entered_store = Ok f /\ falru_ok order f /\
  tagHash f !! fa_blkAlign f 0 = Some 7%nat /\ blks f !! 7%nat = Some x /\ isValid (fa_blk x) = true /\
  tag (fa_blk x) =? fa_blkAlign f 0 = true /\ inCache x = 3 /\ fa_hitLatency f = 1.
Proof.
  destruct new_store_ok as (f & E & H & H7 & _). unfold entered_store. rewrite E. cbn [mbind outcome_bind].
  destruct (falru_findVictim_ok _ f 0 0 H) as (p & v & x & f1 & _ & Hx & Ev & H1 & _).
  rewrite Ev. cbn [mbind outcome_bind].
  destruct (order_blk _ f1 0 v H1 eq_refl) as [y Hy]. rewrite (upd_blk_ok _ _ _ y Hy).
  eexists (v :: p), _, _. split; [done|].
  split; [by apply (falru_ok_set _ f1 v y)|].
  vm_compute in E. injection E as <-. vm_compute in Ev. injection Ev as <- <-.
  vm_compute in Hy. injection Hy as <-. by vm_compute.
Qed.

Lemma falru_access_witness :
  exists f k f', entered_store = Ok f /\ accessBlock 0 f = Ok (Some 7%nat, 3, 1, f') /\ counted f f' (Some k).
Proof.
  destruct entered_store_ok as (order & f & x & E & H & Hh & Hx & Hv & Ht & Hi & Hl).
  pose proof (proj1 (falru_access order f 0 H) 7%nat x Hh Hx Hv) as Ha. cbv zeta in Ha. rewrite Ht in Ha.
  destruct Ha as (k & f' & Ea & _ & Hc & _). exists f, k, f'. rewrite Hi, Hl in Ea.
  exact (conj E (conj Ea Hc)).
Defined.

Lemma falru_tag_never_set_witness :
  exists f v f1 y, FALRU_new (2 ^ 19) (2 ^ 16) 1 false = Ok f /\ findVictim 0 (2 ^ 20) f = Ok (v, f1) /\
    accessBlock (2 ^ 20) (f1 <| blks ::= insert v (y <| fa_blk ::= fun c => c <| status := 7 |> |>) |>)
      = Err AssertFail.
Proof.
  destruct new_store_ok as (f & E & H & H7 & Es).
  destruct (falru_tag_never_set (seq 0 8) f 0 (2 ^ 20) 7
    (MkPacket ReadResp (2 ^ 20) false (MkRequest (2 ^ 20) 4 0 0 0 0)) H eq_refl)
    as (v & x & f1 & y & Ev & Hl & Hx & _ & _ & Ha).
  exists f, v, f1, y. split; [exact E|]. split; [exact Ev|]. apply Ha.
  injection Hl as <-. rewrite H7 in Hx. injection Hx as <-. unfold fa_blkAlign. rewrite Es.
  vm_compute. discriminate.
Defined.
