(* ===== verification/PacketQueue.v ===== *)
(** The queue of deferred packets of a port ([mem/packet_queue.hh],
    [mem/packet_queue.cc]): packets wait for their tick, are offered to the
    peer in the order of their ticks, and are offered again when the peer
    refuses and later asks for a retry. *)
From S2P Require Import Prelude Mshr.
From Stdlib Require Import Sorted.

#[local] Open Scope Z_scope.

(** ** Data *)

Record DeferredPacket (A : Type) := MkDeferred {
  dp_tick : Z;
  dp_pkt : A;
  sendAsSnoop : bool
}.
Arguments MkDeferred {A}. Arguments dp_tick {A}. Arguments dp_pkt {A}. Arguments sendAsSnoop {A}.

(** [sendEvent] is the tick the send event is scheduled for; [pq_draining]
    stands for a drain manager that waits, [pq_drained] for its signal. *)
Record PacketQueue (A : Type) := MkPacketQueue {
  transmitList : list (DeferredPacket A);
  sendEvent : option Z;
  waitingOnRetry : bool;
  pq_draining : bool;
  pq_drained : bool
}.
Arguments MkPacketQueue {A}. Arguments transmitList {A}. Arguments sendEvent {A}.
Arguments waitingOnRetry {A}. Arguments pq_draining {A}. Arguments pq_drained {A}.
#[export] Instance PacketQueue_settable {A} : Settable (PacketQueue A) := fun q =>
  MkPacketQueue (transmitList q) (sendEvent q) (waitingOnRetry q) (pq_draining q) (pq_drained q).

(** Which port the queue serves: the slave port of its owner sends responses,
    the master port requests and snoop responses. *)
Inductive PortSide := SlaveSide | MasterSide.

Section queue.
Context {A : Type}.
Implicit Types (q : PacketQueue A) (d : DeferredPacket A).

Definition PacketQueue_new : PacketQueue A := MkPacketQueue [] None false false false.

(** ** Events *)

(** [em.schedule(&sendEvent, when)] and [em.reschedule]: never in the past. *)
Definition set_event (now when : Z) q : outcome (PacketQueue A) :=
  assert! now <=? when; Ok (q <| sendEvent := Some when |>).

Definition deferredPacketReady (now : Z) q : bool :=
  match transmitList q with d :: _ => dp_tick d <=? now | [] => false end.
Definition deferredPacketReadyTime q : Z :=
  match transmitList q with d :: _ => dp_tick d | [] => MaxTick end.

Definition schedSendEvent (now when : Z) q : outcome (PacketQueue A) :=
  if waitingOnRetry q then assert! bool_decide (sendEvent q = None); Ok q
  else match sendEvent q with
       | None => set_event now when q
       | Some w => if when <? w then set_event now when q else Ok q
       end.

(** ** Adding a packet *)

(** The insertion loop: before the first packet that is due later. *)
Fixpoint insert_deferred (d : DeferredPacket A) (l : list (DeferredPacket A))
    : list (DeferredPacket A) :=
  match l with
  | [] => [d]
  | x :: l' => if dp_tick x <=? dp_tick d then x :: insert_deferred d l' else d :: l
  end.

(** [isExpressSnoop] is the flag of the packet. *)
Definition schedSendTiming (now : Z) (isExpressSnoop : bool) (pkt : A) (when : Z)
    (send_as_snoop : bool) q : outcome (PacketQueue A) :=
  assert! now <=? when;
  assert! negb isExpressSnoop;
  if (100 <? length (transmitList q))%nat then Err Fatal
  else
    let d := MkDeferred when pkt send_as_snoop in
    match transmitList q with
    | [] => schedSendEvent now when (q <| transmitList := [d] |>)
    | x :: l =>
        if when <? dp_tick x then
          schedSendEvent now when (q <| transmitList := d :: x :: l |>)
        else if dp_tick (default x (last l)) <=? when then
          Ok (q <| transmitList ::= fun l => l ++ [d] |>)
        else Ok (q <| transmitList := x :: insert_deferred d l |>)
    end.

(** ** Sending *)

(** [sendTiming] of the two subclasses; the boolean is the answer of the peer. *)
Definition sendTiming (side : PortSide) (accepted send_as_snoop : bool) : outcome bool :=
  match side with
  | SlaveSide => assert! negb send_as_snoop; Ok accepted
  | MasterSide => Ok accepted
  end.

(** The packet that left, if the peer took it. *)
Definition trySendTiming (now : Z) (side : PortSide) (accepted : bool) q
    : outcome (PacketQueue A * option (DeferredPacket A)) :=
  assert! deferredPacketReady now q;
  match transmitList q with
  | [] => Err OutOfBounds
  | d :: l =>
      ok ← sendTiming side accepted (sendAsSnoop d);
      let q := q <| waitingOnRetry := negb ok |> in
      if negb (waitingOnRetry q) then Ok (q <| transmitList := l |>, Some d) else Ok (q, None)
  end.

Definition scheduleSend (now time : Z) q : outcome (PacketQueue A) :=
  let nextReady := Z.max (Z.min (deferredPacketReadyTime q) time) (u64 (now + 1)) in
  if negb (nextReady =? MaxTick) then
    match sendEvent q with
    | None => set_event now nextReady q
    | Some w => if nextReady <? w then set_event now nextReady q else Ok q
    end
  else if pq_draining q && bool_decide (transmitList q = []) && bool_decide (sendEvent q = None)
  then Ok (q <| pq_drained := true |> <| pq_draining := false |>)
  else Ok q.

Definition sendDeferredPacket (now : Z) (side : PortSide) (accepted : bool) q
    : outcome (PacketQueue A * option (DeferredPacket A)) :=
  '(q, sent) ← trySendTiming now side accepted q;
  q ← (if negb (waitingOnRetry q) then scheduleSend now MaxTick q else Ok q);
  Ok (q, sent).

(** The event fires: it is no longer scheduled when its body runs. *)
Definition processSendEvent (now : Z) (side : PortSide) (accepted : bool) q
    : outcome (PacketQueue A * option (DeferredPacket A)) :=
  let q := q <| sendEvent := None |> in
  assert! negb (waitingOnRetry q);
  sendDeferredPacket now side accepted q.

Definition retry (now : Z) (side : PortSide) (accepted : bool) q
    : outcome (PacketQueue A * option (DeferredPacket A)) :=
  assert! waitingOnRetry q;
  sendDeferredPacket now side accepted q.

Definition pq_drain q : PacketQueue A * Z :=
  match transmitList q with [] => (q, 0) | _ => (q <| pq_draining := true |>, 1) end.
End queue.

(** ** A queue over time *)

(** The clock, the queue, and what was scheduled and what left so far. *)
Record Timeline (A : Type) := MkTimeline {
  tl_now : Z;
  tl_queue : PacketQueue A;
  scheduled : list (DeferredPacket A);
  sent : list (DeferredPacket A)
}.
Arguments MkTimeline {A}. Arguments tl_now {A}. Arguments tl_queue {A}.
Arguments scheduled {A}. Arguments sent {A}.

Definition Timeline_new {A} (now : Z) : Timeline A := MkTimeline now PacketQueue_new [] [].

(** A slave port queues no snoop responses. *)
Definition fits (side : PortSide) (snoop : bool) : Prop := side = SlaveSide -> snoop = false.

Inductive pq_step {A} (side : PortSide) : relation (Timeline A) :=
| pq_sched now q sch snt pkt when snoop q' :
    schedSendTiming now false pkt when snoop q = Ok q' -> when < MaxTick -> fits side snoop ->
    pq_step side (MkTimeline now q sch snt)
      (MkTimeline now q' (sch ++ [MkDeferred when pkt snoop]) snt)
| pq_event now q sch snt accepted q' o :
    sendEvent q = Some now -> processSendEvent now side accepted q = Ok (q', o) ->
    pq_step side (MkTimeline now q sch snt) (MkTimeline now q' sch (snt ++ option_list o))
| pq_retry now q sch snt accepted q' o :
    waitingOnRetry q = true -> retry now side accepted q = Ok (q', o) ->
    pq_step side (MkTimeline now q sch snt) (MkTimeline now q' sch (snt ++ option_list o))
| pq_drains now q sch snt :
    pq_step side (MkTimeline now q sch snt) (MkTimeline now (pq_drain q).1 sch snt)
| pq_wait now now' q sch snt :
    now <= now' < MaxTick - 1 -> (forall w, sendEvent q = Some w -> now' <= w) ->
    pq_step side (MkTimeline now q sch snt) (MkTimeline now' q sch snt).

Section delivery.
Context {A : Type} (side : PortSide).
Implicit Types (q : PacketQueue A) (d x : DeferredPacket A) (l : list (DeferredPacket A))
  (t : Timeline A).

Abbreviation by_tick := (StronglySorted (fun x y => dp_tick x <= dp_tick y)).

(** When the queue will next be woken up. *)
Definition wake_ok (now : Z) q : Prop :=
  if waitingOnRetry q then
    sendEvent q = None /\ exists x l, transmitList q = x :: l /\ dp_tick x <= now
  else
    match transmitList q with
    | [] => sendEvent q = None
    | x :: _ => exists w, sendEvent q = Some w /\ now <= w /\
                          dp_tick x <= w <= Z.max (dp_tick x) (now + 1)
    end.

Record timeline_ok t : Prop := {
  to_clock : 0 <= tl_now t < MaxTick - 1;
  to_past : Forall (fun d => dp_tick d <= tl_now t) (sent t);
  to_sorted : by_tick (sent t ++ transmitList (tl_queue t));
  to_stable : forall k, filter (fun d => dp_tick d = k) (sent t ++ transmitList (tl_queue t)) =
                        filter (fun d => dp_tick d = k) (scheduled t);
  to_fits : Forall (fun d => dp_tick d < MaxTick /\ fits side (sendAsSnoop d))
              (transmitList (tl_queue t));
  to_wake : wake_ok (tl_now t) (tl_queue t)
}.

(** *** The insertion *)

Lemma insert_deferred_split d l : by_tick l ->
  exists l1 l2, l = l1 ++ l2 /\ insert_deferred d l = l1 ++ d :: l2 /\
    Forall (fun x => dp_tick x <= dp_tick d) l1 /\ Forall (fun x => dp_tick d < dp_tick x) l2.
Proof.
  induction l as [|x l IH]; cbn [insert_deferred]; [by exists [], []|].
  intros [Hs Hx]%StronglySorted_inv. destruct (Z.leb_spec (dp_tick x) (dp_tick d)).
  - destruct (IH Hs) as (l1 & l2 & -> & -> & H1 & H2). exists (x :: l1), l2. by repeat constructor.
  - exists [], (x :: l). split_and!; [done..|]. constructor; [done|].
    eapply Forall_impl; [exact Hx|]. cbn. lia.
Qed.

Lemma sorted_insert d l1 l2 : by_tick (l1 ++ l2) ->
  Forall (fun x => dp_tick x <= dp_tick d) l1 -> Forall (fun x => dp_tick d < dp_tick x) l2 ->
  by_tick (l1 ++ d :: l2).
Proof.
  induction l1 as [|x l1 IH]; cbn [app]; intros Hs H1 H2.
  - constructor; [done|]. eapply Forall_impl; [exact H2|]. cbn. lia.
  - apply StronglySorted_inv in Hs as [Hs Hx]. apply Forall_cons in H1 as [Hd H1].
    constructor; [by apply IH|]. apply Forall_app in Hx as [Hx1 Hx2].
    apply Forall_app. split; [done|]. by constructor.
Qed.

Lemma filter_insert d l1 l2 k : Forall (fun x => dp_tick d < dp_tick x) l2 ->
  filter (fun x => dp_tick x = k) (l1 ++ d :: l2) =
  filter (fun x => dp_tick x = k) (l1 ++ l2) ++ filter (fun x => dp_tick x = k) [d].
Proof.
  intros H2. rewrite !filter_app, <- !app_assoc. f_equal.
  rewrite !filter_cons, filter_nil. case_decide as E; [|by rewrite app_nil_r].
  assert (filter (fun x => dp_tick x = k) l2 = []) as ->; [|done].
  clear -H2 E. induction H2 as [|y l2 Hy _ IH]; [done|]. rewrite filter_cons_False by lia. done.
Qed.

Lemma last_bound x l : by_tick (x :: l) ->
  Forall (fun y => dp_tick y <= dp_tick (default x (last l))) (x :: l).
Proof.
  revert x. induction l as [|y l IH]; intros x Hs; [by repeat constructor|].
  rewrite last_cons. apply StronglySorted_inv in Hs as [Hs Hx]. specialize (IH y Hs).
  replace (default x _) with (default y (last l)) by (by destruct (last l)).
  constructor; [|done]. apply Forall_cons in IH as [Hy _]. apply Forall_cons in Hx as [Hx _]. lia.
Qed.

Lemma schedSendEvent_list now when q q' : schedSendEvent now when q = Ok q' ->
  transmitList q' = transmitList q /\ waitingOnRetry q' = waitingOnRetry q.
Proof.
  unfold schedSendEvent, set_event. intros E.
  repeat (case_match; cbn [mbind outcome_bind] in E; try discriminate E); by injection E as <-.
Qed.

(** The three branches insert after every packet that is due no later. *)
Lemma schedSendTiming_list now ex pkt when sn q q' : by_tick (transmitList q) ->
  schedSendTiming now ex pkt when sn q = Ok q' ->
  now <= when /\
  exists l1 l2, transmitList q = l1 ++ l2 /\
    transmitList q' = l1 ++ MkDeferred when pkt sn :: l2 /\
    Forall (fun x => dp_tick x <= when) l1 /\ Forall (fun x => when < dp_tick x) l2 /\
    waitingOnRetry q' = waitingOnRetry q.
Proof.
  intros Hs. unfold schedSendTiming.
  destruct (Z.leb_spec now when) as [Hn|]; [|done]. cbn [mbind outcome_bind].
  destruct ex; [done|]. cbn [negb mbind outcome_bind]. case_match; [done|].
  destruct (transmitList q) as [|x l] eqn:El; cbn [mbind outcome_bind].
  { intros [E1 E2]%schedSendEvent_list. split; [done|]. by exists [], []. }
  destruct (Z.ltb_spec when (dp_tick x)) as [Hx|Hx].
  { intros [E1 E2]%schedSendEvent_list. split; [done|]. exists [], (x :: l). split_and!; try done.
    constructor; [done|]. apply StronglySorted_inv in Hs as [_ Hs].
    eapply Forall_impl; [exact Hs|]. cbn. lia. }
  destruct (Z.leb_spec (dp_tick (default x (last l))) when) as [Hl|_]; intros [= <-].
  - split; [done|]. exists (x :: l), []. rewrite app_nil_r. split_and!; try done.
    + cbn. by rewrite El.
    + eapply Forall_impl; [exact (last_bound x l Hs)|]. cbn. lia.
  - split; [done|]. apply StronglySorted_inv in Hs as [Hs _].
    destruct (insert_deferred_split (MkDeferred when pkt sn) l Hs) as (l1 & l2 & -> & E & H1 & H2).
    exists (x :: l1), l2. split_and!; try done; [cbn; by rewrite E|by constructor].
Qed.
(** *** Each operation succeeds and keeps the queue awake *)

Lemma sched_wake now q pkt when sn :
  wake_ok now q -> now <= when -> (length (transmitList q) <= 100)%nat ->
  exists q', schedSendTiming now false pkt when sn q = Ok q' /\ wake_ok now q'.
Proof.
  intros Hw Hn Hl. unfold schedSendTiming. rewrite (proj2 (Z.leb_le now when) Hn).
  cbn [negb mbind outcome_bind]. rewrite (proj2 (Nat.ltb_ge 100 _) Hl).
  unfold wake_ok, schedSendEvent, set_event in *. destruct q as [l ev wt dr dd].
  cbn [transmitList sendEvent waitingOnRetry] in *. destruct l as [|x l].
  - destruct wt; [by destruct Hw as (_ & x & l & [=] & _)|]. rewrite Hw.
    cbn. rewrite (proj2 (Z.leb_le now when) Hn). eexists. split; [done|].
    cbn. exists when. lia || (split_and!; lia || done).
  - destruct (Z.ltb_spec when (dp_tick x)) as [Hx|Hx].
    + destruct wt; [destruct Hw as (_ & ? & ? & [= -> ->] & ?); lia|].
      destruct Hw as (w & -> & Hw1 & Hw2). cbn.
      rewrite (proj2 (Z.ltb_lt when w)) by lia. cbn. rewrite (proj2 (Z.leb_le now when) Hn).
      eexists. split; [done|]. cbn. exists when. split_and!; lia || done.
    + assert (forall l', exists q', (Ok (MkPacketQueue (x :: l') ev wt dr dd) : outcome (PacketQueue A))
          = Ok q' /\ wake_ok now q') as Hgo.
      { intros l'. eexists. split; [done|]. unfold wake_ok. cbn. destruct wt; [|done].
        destruct Hw as (-> & y & l2 & [= <- <-] & Hy). split; [done|]. by exists x, l'. }
      destruct (_ <=? when); [exact (Hgo (l ++ _))|exact (Hgo _)].
Qed.

Lemma send_wake now accepted q x l :
  0 <= now < MaxTick - 1 -> transmitList q = x :: l -> dp_tick x <= now -> sendEvent q = None ->
  fits side (sendAsSnoop x) -> Forall (fun d => dp_tick d < MaxTick) l ->
  exists q', sendDeferredPacket now side accepted q = Ok (q', if accepted then Some x else None) /\
    transmitList q' = (if accepted then l else x :: l) /\ wake_ok now q'.
Proof.
  intros Hn Hl Hx He Hf Hm. unfold sendDeferredPacket, trySendTiming, deferredPacketReady.
  rewrite Hl, (proj2 (Z.leb_le _ now) Hx). cbn [mbind outcome_bind].
  assert (sendTiming side accepted (sendAsSnoop x) = Ok accepted) as ->.
  { unfold sendTiming. destruct side; [by rewrite Hf|done]. }
  destruct q as [l0 ev wt dr dd]. cbn [transmitList sendEvent] in *. subst l0 ev.
  unfold wake_ok. destruct accepted; cbn; [|eexists; split; [done|]; cbn; split; [done|]; split; [done|]; by exists x, l].
  unfold scheduleSend, deferredPacketReadyTime, set_event, MaxTick in *. cbn.
  rewrite (wrap_small 64) by lia. destruct l as [|y l].
  - rewrite Z.min_id, Z.max_l by lia. rewrite Z.eqb_refl. cbn.
    case_match; cbn; eexists; by split.
  - apply Forall_cons in Hm as [Hy _].
    destruct (Z.eqb_spec (Z.max (Z.min (dp_tick y) (2 ^ 64 - 1)) (now + 1)) (2 ^ 64 - 1)); [lia|].
    cbn. rewrite (proj2 (Z.leb_le now _)) by lia. eexists. split; [done|]. cbn. split; [done|].
    eexists. split; [done|]. lia.
Qed.

Lemma event_front now q : wake_ok now q -> sendEvent q = Some now ->
  waitingOnRetry q = false /\ exists x l, transmitList q = x :: l /\ dp_tick x <= now.
Proof.
  unfold wake_ok. destruct (waitingOnRetry q); [by intros [-> _]|]. destruct (transmitList q) as [|x l].
  - by intros ->.
  - intros (w & -> & _ & Hw) [= ->]. split; [done|]. exists x, l. split; [done|lia].
Qed.

Lemma process_wake now accepted q :
  0 <= now < MaxTick - 1 -> wake_ok now q -> sendEvent q = Some now ->
  Forall (fun d => dp_tick d < MaxTick /\ fits side (sendAsSnoop d)) (transmitList q) ->
  exists x l q', transmitList q = x :: l /\ dp_tick x <= now /\
    processSendEvent now side accepted q = Ok (q', if accepted then Some x else None) /\
    transmitList q' = (if accepted then l else x :: l) /\ wake_ok now q'.
Proof.
  intros Hn Hw He Hf. destruct (event_front now q Hw He) as (Hr & x & l & Hl & Hx).
  rewrite Hl in Hf. apply Forall_cons in Hf as [[_ Hfx] Hf].
  unfold processSendEvent. cbn [waitingOnRetry]. destruct q as [l0 ev wt dr dd].
  cbn [waitingOnRetry transmitList] in *. subst wt l0. cbn [negb mbind outcome_bind].
  destruct (send_wake now accepted (MkPacketQueue (x :: l) None false dr dd) x l) as (q' & E & Hl' & Hw');
    try done; [by eapply Forall_impl; [exact Hf|intros ? []]|].
  exists x, l, q'. by split_and!.
Qed.

Lemma retry_wake now accepted q :
  0 <= now < MaxTick - 1 -> wake_ok now q -> waitingOnRetry q = true ->
  Forall (fun d => dp_tick d < MaxTick /\ fits side (sendAsSnoop d)) (transmitList q) ->
  exists x l q', transmitList q = x :: l /\ dp_tick x <= now /\
    retry now side accepted q = Ok (q', if accepted then Some x else None) /\
    transmitList q' = (if accepted then l else x :: l) /\ wake_ok now q'.
Proof.
  intros Hn Hw Hr Hf. unfold wake_ok in Hw. rewrite Hr in Hw. destruct Hw as (He & x & l & Hl & Hx).
  rewrite Hl in Hf. apply Forall_cons in Hf as [[_ Hfx] Hf]. unfold retry. rewrite Hr.
  cbn [mbind outcome_bind].
  destruct (send_wake now accepted q x l) as (q' & E & Hl' & Hw'); try done;
    [by eapply Forall_impl; [exact Hf|intros ? []]|].
  exists x, l, q'. by split_and!.
Qed.
(** *** The invariant *)

Lemma Timeline_new_ok now : 0 <= now < MaxTick - 1 -> timeline_ok (Timeline_new now).
Proof. intros H. split; try done; constructor. Qed.

(** A packet leaves: what was at the front of the list moves to the end of the
    sent ones. *)
Lemma sent_ok now q q' sch snt x l (accepted : bool) :
  timeline_ok (MkTimeline now q sch snt) -> transmitList q = x :: l -> dp_tick x <= now ->
  transmitList q' = (if accepted then l else x :: l) -> wake_ok now q' ->
  timeline_ok (MkTimeline now q' sch (snt ++ option_list (if accepted then Some x else None))).
Proof.
  intros [Hc Hp Hs Hst Hf _] Hl Hx Hl' Hw. cbn [tl_now tl_queue scheduled sent] in *.
  rewrite Hl in Hs, Hst, Hf.
  destruct accepted; cbn [option_list]; split; cbn [tl_now tl_queue scheduled sent];
    rewrite ?app_nil_r, ?Hl', <- ?app_assoc; try done.
  - apply Forall_app. by split; [|constructor].
  - by apply Forall_cons in Hf as [_ Hf].
Qed.

Lemma pq_step_ok t t' : pq_step side t t' -> timeline_ok t -> timeline_ok t'.
Proof.
  intros [now q sch snt pkt when sn q' E Hm Hfit|now q sch snt b q' o He E|now q sch snt b q' o Hr E
         |now q sch snt|now now' q sch snt Hn He] Ht; pose proof Ht as [Hc Hp Hs Hst Hf Hw];
    cbn [tl_now tl_queue scheduled sent] in *.
  - assert (by_tick (transmitList q)) as Hq.
    { clear -Hs. induction snt as [|x snt IH]; [done|]. by apply StronglySorted_inv in Hs as [Hs _]; auto. }
    destruct (schedSendTiming_list _ _ _ _ _ _ _ Hq E) as (Hn & l1 & l2 & Hl & Hl' & H1 & H2 & _).
    destruct (sched_wake now q pkt when sn Hw Hn) as (q'' & E' & Hw').
    { unfold schedSendTiming in E. rewrite (proj2 (Z.leb_le now when) Hn) in E.
      cbn [negb mbind outcome_bind] in E.
      destruct (Nat.ltb_spec 100 (length (transmitList q))); [done|lia]. }
    rewrite E in E'. injection E' as <-. rewrite Hl in Hs, Hst, Hf. rewrite app_assoc in Hs.
    split; cbn [tl_now tl_queue scheduled sent]; try done; rewrite Hl'.
    + rewrite app_assoc. apply sorted_insert; [done| |done]. apply Forall_app. split; [|done].
      eapply Forall_impl; [exact Hp|]. cbn. lia.
    + intros k. rewrite app_assoc, filter_insert, <- app_assoc, Hst by done.
      by rewrite filter_app.
    + apply Forall_app in Hf as [Hf1 Hf2]. apply Forall_app. split; [done|]. by constructor.
  - destruct (process_wake now b q Hc Hw He Hf) as (x & l & q2 & Hl & Hx & E2 & Hl2 & Hw2).
    rewrite E in E2. injection E2 as -> ->. by eapply sent_ok.
  - destruct (retry_wake now b q Hc Hw Hr Hf) as (x & l & q2 & Hl & Hx & E2 & Hl2 & Hw2).
    rewrite E in E2. injection E2 as -> ->. by eapply sent_ok.
  - destruct q as [[|x l] ev wt dr dd]; [done|]. by split.
  - split; cbn [tl_now tl_queue scheduled sent]; try done.
    + lia.
    + eapply Forall_impl; [exact Hp|]. cbn. lia.
    + unfold wake_ok in *. destruct (waitingOnRetry q).
      * destruct Hw as (? & x & l & ? & ?). split; [done|]. exists x, l. split; [done|lia].
      * destruct (transmitList q); [done|]. destruct Hw as (w & ? & ? & ?). exists w.
        specialize (He w ltac:(done)). split_and!; lia || done.
Qed.

Lemma pq_reachable_ok (t0 : Z) t : 0 <= t0 < MaxTick - 1 -> rtc (pq_step side) (Timeline_new t0) t ->
  timeline_ok t.
Proof.
  intros H0 Hr. assert (timeline_ok (Timeline_new t0)) as H by by apply Timeline_new_ok.
  revert H. induction Hr as [|t1 t2 t3 Hst _ IH]; [done|]. intros H. by eapply IH, pq_step_ok.
Qed.
End delivery.

(** C23. The packet queue of a port, over any sequence of packets scheduled, send
    events, retries and passing time: the packets that left, followed by those
    still queued, are all the packets that were scheduled, sorted by tick and,
    for the same tick, in the order they were scheduled, so none is lost,
    duplicated or overtaken; no assertion on the way can fail (a packet may be
    scheduled unless a hundred are waiting, the send event never fires before
    its packet is due, a retry always finds one due); a packet that waits for a
    retry stays at the head; and as long as a packet is queued, the queue waits
    for a retry or its send event is scheduled, at the latest a tick after the
    packet is due. *)
Theorem packet_queue_delivers {A} (side : PortSide) (t0 : Z) (t : Timeline A) :
  0 <= t0 < MaxTick - 1 -> rtc (pq_step side) (Timeline_new t0) t ->
  let now := tl_now t in let q := tl_queue t in
  StronglySorted (fun x y => dp_tick x <= dp_tick y) (sent t ++ transmitList q) /\
  (forall k, filter (fun d => dp_tick d = k) (sent t ++ transmitList q) =
             filter (fun d => dp_tick d = k) (scheduled t)) /\
  (forall pkt when snoop, now <= when -> (length (transmitList q) <= 100)%nat ->
     exists q', schedSendTiming now false pkt when snoop q = Ok q' /\
       (waitingOnRetry q = true -> head (transmitList q') = head (transmitList q))) /\
  (forall accepted, sendEvent q = Some now ->
     exists r, processSendEvent now side accepted q = Ok r) /\
  (forall accepted, waitingOnRetry q = true -> exists r, retry now side accepted q = Ok r) /\
  (forall x l, transmitList q = x :: l -> waitingOnRetry q = true \/
     exists w, sendEvent q = Some w /\ dp_tick x <= w <= Z.max (dp_tick x) (now + 1)).
Proof.
  intros H0 Hr now q. destruct (pq_reachable_ok side t0 t H0 Hr) as [Hc _ Hs Hst Hf Hw].
  fold now in Hc, Hw. fold q in Hs, Hst, Hf, Hw. split_and!; [done|done| | | |].
  - intros pkt when sn Hn Hl. destruct (sched_wake now q pkt when sn Hw Hn Hl) as (q' & E & _).
    exists q'. split; [done|]. intros Hwt. unfold wake_ok in Hw. rewrite Hwt in Hw.
    destruct Hw as (_ & x & l & El & Hx). unfold schedSendTiming in E. rewrite El in E, Hl |- *.
    rewrite (proj2 (Z.leb_le now when) Hn) in E. cbn [negb mbind outcome_bind] in E.
    rewrite (proj2 (Nat.ltb_ge 100 _) Hl), (proj2 (Z.ltb_ge when (dp_tick x))) in E by lia.
    case_match; injection E as <-; cbn; by rewrite ?El.
  - intros b He. destruct (process_wake side now b q Hc Hw He Hf) as (x & l & q' & _ & _ & E & _).
    by eexists.
  - intros b He. destruct (retry_wake side now b q Hc Hw He Hf) as (x & l & q' & _ & _ & E & _).
    by eexists.
  - intros x l Hl. unfold wake_ok in Hw. destruct (waitingOnRetry q); [by left|].
    rewrite Hl in Hw. destruct Hw as (w & ? & ? & ?). right. by exists w.
Qed.

(** Two packets for the same tick; the first one is refused once. *)
Definition two_packets : Timeline nat :=
  MkTimeline 110 (MkPacketQueue [MkDeferred 110 2%nat false] (Some 111) false false false)
    [MkDeferred 110 1%nat false; MkDeferred 110 2%nat false] [MkDeferred 110 1%nat false].

Lemma two_packets_reached : rtc (pq_step SlaveSide) (Timeline_new 100) two_packets.
Proof.
  eapply rtc_l; [eapply (pq_sched _ 100 _ _ _ 1%nat 110 false); vm_compute; reflexivity || done|].
  eapply rtc_l; [eapply (pq_sched _ 100 _ _ _ 2%nat 110 false); vm_compute; reflexivity || done|].
  eapply rtc_l; [apply (pq_wait _ 100 110); [done|by intros w [= <-]]|].
  eapply rtc_l; [apply (pq_event _ 110 _ _ _ false); vm_compute; reflexivity|].
  eapply rtc_l; [apply (pq_retry _ 110 _ _ _ true); vm_compute; reflexivity|].
  apply rtc_refl.
Defined.

Lemma packet_queue_delivers_witness :
  let t := two_packets in let now := tl_now t in let q := tl_queue t in
  StronglySorted (fun x y => dp_tick x <= dp_tick y) (sent t ++ transmitList q) /\
  (forall k, filter (fun d => dp_tick d = k) (sent t ++ transmitList q) =
             filter (fun d => dp_tick d = k) (scheduled t)) /\
  (forall pkt when snoop, now <= when -> (length (transmitList q) <= 100)%nat ->
     exists q', schedSendTiming now false pkt when snoop q = Ok q' /\
       (waitingOnRetry q = true -> head (transmitList q') = head (transmitList q))) /\
  (forall accepted, sendEvent q = Some now ->
     exists r, processSendEvent now SlaveSide accepted q = Ok r) /\
  (forall accepted, waitingOnRetry q = true -> exists r, retry now SlaveSide accepted q = Ok r) /\
  (forall x l, transmitList q = x :: l -> waitingOnRetry q = true \/
     exists w, sendEvent q = Some w /\ dp_tick x <= w <= Z.max (dp_tick x) (now + 1)).
Proof.
  apply (packet_queue_delivers SlaveSide 100 two_packets); [done|exact two_packets_reached].
Defined.
