(* ===== verification/CacheBase.v ===== *)
(** The part of a cache that its timing protocol adds to the state of
    [Cache]: the write buffer, the reasons the cache is blocked for, the two
    ports with their queues, and the operations of [BaseCache] on them
    ([mem/cache/base.hh], [mem/cache/base.cc]). *)
From S2P Require Import Prelude IntMath MemTypes SetAssoc Policy Memory Mshr Cache PacketQueue.

#[local] Open Scope Z_scope.

(** ** Data *)

(** A packet in flight with the register of the cache above that waits for it
    ([pkt->senderState]). *)
Record TPkt := MkTPkt { tp_pkt : CPkt; tp_sender : option nat }.
#[export] Instance TPkt_settable : Settable TPkt := fun p => MkTPkt (tp_pkt p) (tp_sender p).

(** [MSHRQueueIndex], and the causes a cache may be blocked for. *)
Inductive MSHRQueueIndex := MSHRQueue_MSHRs | MSHRQueue_WriteBuffer.
#[export] Instance MSHRQueueIndex_eq_dec : EqDecision MSHRQueueIndex.
Proof. solve_decision. Defined.

Inductive BlockedCause :=
| Blocked_NoMSHRs | Blocked_NoWBBuffers | Blocked_NoTargets | Blocked_PendingWriteInvalidate
| NUM_BLOCKED_CAUSES.
#[export] Instance BlockedCause_eq_dec : EqDecision BlockedCause.
Proof. solve_decision. Defined.

Definition cause_number (c : BlockedCause) : Z :=
  match c with
  | Blocked_NoMSHRs => 0 | Blocked_NoWBBuffers => 1 | Blocked_NoTargets => 2
  | Blocked_PendingWriteInvalidate => 3 | NUM_BLOCKED_CAUSES => 4
  end.
(** [(BlockedCause)mq->index]. *)
Definition queue_cause (i : MSHRQueueIndex) : BlockedCause :=
  match i with MSHRQueue_MSHRs => Blocked_NoMSHRs | MSHRQueue_WriteBuffer => Blocked_NoWBBuffers end.

(** The port to the CPU side; [sendRetryEvent] is the tick it is scheduled for. *)
Record CacheSlavePort := MkSlavePort {
  port_blocked : bool;
  mustSendRetry : bool;
  sendRetryEvent : option Z
}.
#[export] Instance CacheSlavePort_settable : Settable CacheSlavePort := fun p =>
  MkSlavePort (port_blocked p) (mustSendRetry p) (sendRetryEvent p).

(** Counters of the timing mode, per cause or per command and master. *)
Record TimingStats := MkTimingStats {
  blocked_causes : BlockedCause -> Z;
  blocked_cycles : BlockedCause -> Z;
  mshr_hits : Command -> Z -> Z;
  mshr_misses : Command -> Z -> Z;
  mshr_miss_latency : Command -> Z -> Z;
  mshr_uncacheable_lat : Command -> Z -> Z;
  missLatency : Command -> Z -> Z
}.
#[export] Instance TimingStats_settable : Settable TimingStats := fun s =>
  MkTimingStats (blocked_causes s) (blocked_cycles s) (mshr_hits s) (mshr_misses s)
    (mshr_miss_latency s) (mshr_uncacheable_lat s) (missLatency s).

(** [AddrRange]. *)
Record AddrRange := MkAddrRange {
  ar_start : Z; ar_end : Z; intlvHighBit : Z; intlvBits : Z; intlvMatch : Z
}.
Definition contains (a : Z) (r : AddrRange) : bool :=
  (ar_start r <=? a) && (a <=? ar_end r) &&
  (negb (negb (intlvBits r =? 0)) ||
   (Z.land (Z.shiftr a (intlvHighBit r - intlvBits r + 1)) (Z.ones (intlvBits r)) =? intlvMatch r)).

(** The registers of both queues live in the heap [mshrs] of the cache: those
    from [wb_base] on are the ones of the write buffer.  [toMem] lists the
    packets handed to the memory side at once, without a queue. *)
Record TCache (T : Type) := MkTCache {
  tc : Cache T;
  writeBuffer : MSHRQueue;
  wb_base : nat;
  numTarget : Z;
  addrRanges : list AddrRange;
  blocked : Z;
  blockedCycle : Z;
  order : Z;
  noTargetMSHR : option nat;
  port : CacheSlavePort;
  cpuSide : PacketQueue TPkt;
  memSide : PacketQueue TPkt;
  toMem : list CPkt;
  t_stats : TimingStats
}.
Arguments MkTCache {T}. Arguments tc {T}. Arguments writeBuffer {T}. Arguments wb_base {T}.
Arguments numTarget {T}. Arguments addrRanges {T}. Arguments blocked {T}.
Arguments blockedCycle {T}. Arguments order {T}. Arguments noTargetMSHR {T}. Arguments port {T}.
Arguments cpuSide {T}. Arguments memSide {T}. Arguments toMem {T}. Arguments t_stats {T}.
#[export] Instance TCache_settable {T} : Settable (TCache T) := fun t =>
  MkTCache (tc t) (writeBuffer t) (wb_base t) (numTarget t) (addrRanges t) (blocked t)
    (blockedCycle t) (order t) (noTargetMSHR t) (port t) (cpuSide t) (memSide t) (toMem t)
    (t_stats t).

Definition TimingStats_new : TimingStats :=
  let z := fun (_ : Command) (_ : Z) => 0 in
  MkTimingStats (fun _ => 0) (fun _ => 0) z z z z z.

(** The constructor, around a cache built by [Cache_new]: the write buffer
    reserves as many entries as there are miss registers, and a thousand. *)
Definition TCache_new {T} (ch : Cache T) (entries write_buffers tgts_per_mshr : Z)
    (ranges : list AddrRange) : TCache T :=
  let base := length (mshrs ch) in
  let wb := MSHRQueue_new write_buffers (entries + 1000) base in
  {| tc := ch <| mshrs ::= fun h => h ++ replicate (Z.to_nat (numEntries wb)) MSHR_new |>;
     writeBuffer := wb; wb_base := base; numTarget := tgts_per_mshr; addrRanges := ranges;
     blocked := 0; blockedCycle := 0; order := 0; noTargetMSHR := None;
     port := MkSlavePort false false None; cpuSide := PacketQueue_new; memSide := PacketQueue_new;
     toMem := []; t_stats := TimingStats_new |}.

(** ** Time *)

(** [clockEdge(cycles)], and the cycle of the clock edge that is now or next. *)
Definition clockEdge_in (env : Env) (cycles : Z) : Z := clockEdge env + cycles * clockPeriod env.
Definition curCycle (env : Env) : Z := divCeil (curTick env) (clockPeriod env).

(** ** The port *)

Definition port_setBlocked (p : CacheSlavePort) : outcome CacheSlavePort :=
  assert! negb (port_blocked p);
  let p := p <| port_blocked := true |> in
  match sendRetryEvent p with
  | Some _ => Ok (p <| sendRetryEvent := None |> <| mustSendRetry := true |>)
  | None => Ok p
  end.

Definition port_clearBlocked (now : Z) (p : CacheSlavePort) : outcome CacheSlavePort :=
  assert! port_blocked p;
  let p := p <| port_blocked := false |> in
  if mustSendRetry p then
    assert! bool_decide (sendRetryEvent p = None);
    Ok (p <| sendRetryEvent := Some (now + 1) |>)
  else Ok p.

(** The event fires; [sendRetry] tells the peer. *)
Definition processSendRetry (p : CacheSlavePort) : CacheSlavePort :=
  p <| sendRetryEvent := None |> <| mustSendRetry := false |>.

Section base.
Context {T : Type}.
Implicit Types (t : TCache T) (i : MSHRQueueIndex).

(** ** Blocking *)

Definition bump_cause (c : BlockedCause) (d : Z) (f : BlockedCause -> Z) : BlockedCause -> Z :=
  fun c' => if decide (c = c') then f c' + d else f c'.
Definition add_stat (c : Command) (m d : Z) (f : Command -> Z -> Z) : Command -> Z -> Z :=
  fun c' m' => if decide (c = c') then if m =? m' then f c' m' + d else f c' m' else f c' m'.

Definition isBlocked t : bool := negb (blocked t =? 0).

Definition setBlocked (env : Env) (cause : BlockedCause) t : outcome (TCache T) :=
  let flag := u8 (Z.shiftl 1 (cause_number cause)) in
  t ← (if blocked t =? 0 then
         let t := t <| t_stats ::= set_field blocked_causes (bump_cause cause 1) |>
                    <| blockedCycle := curCycle env |> in
         p ← port_setBlocked (port t); Ok (t <| port := p |>)
       else Ok t);
  Ok (t <| blocked ::= fun b => Z.lor b flag |>).

Definition clearBlocked (env : Env) (cause : BlockedCause) t : outcome (TCache T) :=
  let flag := u8 (Z.shiftl 1 (cause_number cause)) in
  let t := t <| blocked ::= fun b => Z.land b (u8 (Z.lnot flag)) |> in
  if blocked t =? 0 then
    let t := t <| t_stats ::=
      set_field blocked_cycles (bump_cause cause (curCycle env - blockedCycle t)) |> in
    p ← port_clearBlocked (curTick env) (port t); Ok (t <| port := p |>)
  else Ok t.

(** ** Queues and buffers *)

Definition get_queue i t : MSHRQueue :=
  match i with MSHRQueue_MSHRs => mshrQueue (tc t) | MSHRQueue_WriteBuffer => writeBuffer t end.
Definition set_queue i (q : MSHRQueue) (h : Heap) t : TCache T :=
  let t := t <| tc ::= set_field mshrs (fun _ => h) |> in
  match i with
  | MSHRQueue_MSHRs => t <| tc ::= set_field mshrQueue (fun _ => q) |>
  | MSHRQueue_WriteBuffer => t <| writeBuffer := q |>
  end.
Definition regs t : Heap := mshrs (tc t).
Definition set_regs (h : Heap) t : TCache T := t <| tc ::= set_field mshrs (fun _ => h) |>.

(** [mshr->queue->index]. *)
Definition queue_of (m : nat) t : MSHRQueueIndex :=
  if (wb_base t <=? m)%nat then MSHRQueue_WriteBuffer else MSHRQueue_MSHRs.

Definition requestMemSideBus (env : Env) (time : Z) t : outcome (TCache T) :=
  q ← schedSendEvent (curTick env) time (memSide t); Ok (t <| memSide := q |>).

(** [order] is 64 bits wide. *)
Definition next_order t : TCache T := t <| order ::= fun o => u64 (o + 1) |>.

Definition allocateBufferInternal (env : Env) i (addr size : Z) (pkt : TPkt) (time : Z)
    (requestBus : bool) t : outcome (TCache T * nat) :=
  '(m, q, h) ← allocate_mshr (curTick env) addr size (tp_pkt pkt) (tp_sender pkt) time (order t)
                 (get_queue i t) (regs t);
  let t := next_order (set_queue i q h t) in
  t ← (if isFull (get_queue i t) then setBlocked env (queue_cause i) t else Ok t);
  t ← (if requestBus then requestMemSideBus env time t else Ok t);
  Ok (t, m).

(** [clearDownstreamPending] follows the registers of the caches above. *)
Definition hierarchy_depth t : nat := length (regs t).

Definition markInServiceInternal (env : Env) (m : nat) (pkt : option CPkt) t : outcome (TCache T) :=
  let i := queue_of m t in
  let wasFull := isFull (get_queue i t) in
  '(q, h) ← markInService (hierarchy_depth t) pkt m (get_queue i t) (regs t);
  let t := set_queue i q h t in
  if wasFull && negb (isFull (get_queue i t)) then clearBlocked env (queue_cause i) t else Ok t.

Definition blockAlign (addr : Z) t : Z :=
  Z.land addr (u64 (Z.lnot (u64 (c_blkSize (par (tc t)) - 1)))).

Definition allocateMissBuffer (env : Env) (pkt : TPkt) (time : Z) (requestBus : bool) t
    : outcome (TCache T * nat) :=
  assert! negb (isUncacheable (tp_pkt pkt));
  allocateBufferInternal env MSHRQueue_MSHRs (blockAlign (pk_addr (tp_pkt pkt)) t)
    (c_blkSize (par (tc t))) pkt time requestBus t.

Definition allocateWriteBuffer (env : Env) (pkt : TPkt) (time : Z) (requestBus : bool) t
    : outcome (TCache T * nat) :=
  assert! isWrite (pk_cmd (tp_pkt pkt)) && negb (isRead (pk_cmd (tp_pkt pkt)));
  allocateBufferInternal env MSHRQueue_WriteBuffer (pk_addr (tp_pkt pkt)) (pk_size (tp_pkt pkt))
    pkt time requestBus t.

Definition allocateUncachedReadBuffer (env : Env) (pkt : TPkt) (time : Z) (requestBus : bool) t
    : outcome (TCache T * nat) :=
  assert! isUncacheable (tp_pkt pkt);
  assert! isRead (pk_cmd (tp_pkt pkt));
  allocateBufferInternal env MSHRQueue_MSHRs (pk_addr (tp_pkt pkt)) (pk_size (tp_pkt pkt))
    pkt time requestBus t.

(** ** The queues of the ports *)

(** Responses are never express snoops: [makeResponse] clears the flag. *)
Definition schedTimingResp (env : Env) (pkt : TPkt) (when : Z) t : outcome (TCache T) :=
  q ← schedSendTiming (curTick env) false pkt when false (cpuSide t);
  Ok (t <| cpuSide := q |>).
Definition schedTimingSnoopResp (env : Env) (pkt : TPkt) (when : Z) t : outcome (TCache T) :=
  q ← schedSendTiming (curTick env) false pkt when true (memSide t);
  Ok (t <| memSide := q |>).

(** Write-backs enter the write buffer in order. *)
Definition allocate_writebacks (env : Env) (wbs : list CPkt) (time : Z) t : outcome (TCache T) :=
  foldO (fun wb t => '(t, _) ← allocateWriteBuffer env (MkTPkt wb None) time true t; Ok t) wbs t.

(** How many of the four queues still hold something, and have to tell when
    they are done. *)
Definition cache_drain t : TCache T * Z :=
  let '(m, a) := pq_drain (memSide t) in
  let '(c, b) := pq_drain (cpuSide t) in
  let '(q, n) := drain (mshrQueue (tc t)) in
  let '(w, k) := drain (writeBuffer t) in
  (t <| memSide := m |> <| cpuSide := c |> <| tc ::= set_field mshrQueue (fun _ => q) |>
     <| writeBuffer := w |>, a + b + n + k).
End base.
