(* ===== verification/Snoop.v ===== *)
(** The snoop side of a cache: requests other caches send, seen from the
    memory side ([mem/cache/cache_impl.hh], [doTimingSupplyResponse] to
    [recvAtomicSnoop]). *)
From S2P Require Import Prelude MemTypes Blk SetAssoc Policy Memory Mshr Cache PacketQueue.
From S2P Require Import CacheBase.

#[local] Open Scope Z_scope.

(** What is connected above the cache: how the caches there leave an express
    snoop, and a snoop in atomic mode. *)
Class CpuSide := {
  sendTimingSnoopReq : CPkt -> CPkt;
  sendAtomicSnoop : CPkt -> CPkt
}.

(** [new Packet(pkt)] keeps the coherence flags and, like any copy, has no
    payload of its own. *)
Definition clone_packet (p : CPkt) : CPkt :=
  p <| pk_data := [] |> <| prefetchSquashed := false |>.

Section snoop.
Context {T : Type} `{Policy T} `{CpuSide}.
Implicit Types (t : TCache T) (pkt : CPkt).

(** A change of the cache inside the timing state. *)
Definition on_cache (f : Cache T -> outcome (Cache T)) t : outcome (TCache T) :=
  ch ← f (tc t); Ok (t <| tc := ch |>).

Definition doTimingSupplyResponse (env : Env) (req_pkt : TPkt) (blk_data : list Z)
    (already_copied pending_inval : bool) t : outcome (TCache T) :=
  let rp := tp_pkt req_pkt in
  assert! isRequest (pk_cmd rp);
  let pkt := if already_copied then rp else clone_packet rp in
  assert! isInvalidate (pk_cmd rp) || sharedAsserted pkt;
  pkt ← makeResponse (allocate pkt);
  pkt ← (if isRead (pk_cmd pkt) then setDataFromBlock blk_data (c_blkSize (par (tc t))) pkt
         else Ok pkt);
  let pkt := if bool_decide (pk_cmd pkt = ReadResp) && pending_inval
             then set_cmd ReadRespWithInvalidate pkt else pkt in
  schedTimingSnoopResp env (req_pkt <| tp_pkt := pkt |>) (clockEdge_in env (c_hitLatency (par (tc t)))) t.

(** The snoop is passed on to the caches above. *)
Definition forward_snoop (is_timing : bool) pkt : outcome CPkt :=
  let alreadyResponded := memInhibitAsserted pkt in
  if is_timing then
    let snoopPkt := sendTimingSnoopReq (copy_packet pkt) in
    pkt ← (if memInhibitAsserted snoopPkt then
             assert! negb alreadyResponded; Ok (pkt <| memInhibitAsserted := true |>)
           else Ok pkt);
    let pkt := if sharedAsserted snoopPkt then pkt <| sharedAsserted := true |> else pkt in
    Ok (if prefetchSquashed snoopPkt then pkt <| prefetchSquashed := true |> else pkt)
  else
    let pkt := sendAtomicSnoop pkt in
    if negb alreadyResponded && memInhibitAsserted pkt
    then assert! isResponse (pk_cmd pkt); Ok pkt
    else Ok pkt.

(** The answer of a dirty block. *)
Definition snoop_respond (env : Env) (r : BRef) (sender : option nat)
    (have_exclusive is_timing is_deferred pending_inval : bool) pkt t
    : outcome (TCache T * CPkt) :=
  assert! negb (memInhibitAsserted pkt);
  let pkt := pkt <| memInhibitAsserted := true |> in
  let pkt := if have_exclusive then pkt <| isSupplyExclusive := true |> else pkt in
  d ← get_data r (tc t);
  if is_timing then
    t ← doTimingSupplyResponse env (MkTPkt pkt sender) d is_deferred pending_inval t;
    Ok (t, pkt)
  else
    pkt ← makeResponse pkt;
    pkt ← setDataFromBlock d (c_blkSize (par (tc t))) pkt;
    Ok (t, pkt).

(** The packet as the snoop leaves it is handed back with the state. *)
Definition handleSnoop (env : Env) pkt (sender : option nat) (or : option BRef)
    (is_timing is_deferred pending_inval : bool) t : outcome (TCache T * CPkt) :=
  assert! negb (is_deferred && negb is_timing);
  assert! negb (pending_inval && negb is_deferred);
  assert! isRequest (pk_cmd pkt);
  let invalidate := isInvalidate (pk_cmd pkt) in
  let needs_exclusive := needsExclusive (pk_cmd pkt) in
  pkt ← (if forwardSnoops (par (tc t)) then forward_snoop is_timing pkt else Ok pkt);
  match or with
  | None => Ok (t, pkt)
  | Some r =>
      blk ← get_ref r (tc t);
      if negb (isValid blk) then Ok (t, pkt)
      else
        let respond := isDirty blk && needsResponse (pk_cmd pkt)
                         && negb (bool_decide (pk_cmd pkt = WriteInvalidateReq)) in
        let have_exclusive := isWritable blk in
        if decide (pk_cmd pkt = HardPFReq) then Ok (t, pkt <| prefetchSquashed := true |>)
        else
          '(t, pkt) ←
            (if isRead (pk_cmd pkt) && negb invalidate then
               assert! negb needs_exclusive;
               t ← on_cache (clear_bits (Z.lor BlkWritable BlkCanGoExclusive) r) t;
               Ok (t, pkt <| sharedAsserted := true |>)
             else Ok (t, pkt));
          '(t, pkt) ←
            (if respond then
               snoop_respond env r sender have_exclusive is_timing is_deferred pending_inval pkt t
             else Ok (t, pkt));
          t ← (if invalidate then on_cache (invalidate_ref env r) t else Ok t);
          Ok (t, pkt)
  end.

(** A write-back that waits to be sent answers the snoop, and is dropped when
    the snoop invalidates. *)
Definition snoop_writeback (env : Env) (m : nat) (sender : option nat) pkt t
    : outcome (TCache T * CPkt) :=
  x ← aget (regs t) m;
  assert! negb (m_isUncacheable x);
  assert! (getNumTargets x =? 1)%nat;
  match tl_list (targets x) with
  | [] => Err AssertFail
  | tgt :: ts =>
      let wb_pkt := t_pkt tgt in
      assert! bool_decide (pk_cmd wb_pkt = Writeback);
      assert! negb (memInhibitAsserted pkt);
      let pkt := pkt <| memInhibitAsserted := true |> in
      '(pkt, wb_pkt) ←
        (if negb (needsExclusive (pk_cmd pkt)) then
           Ok (pkt <| sharedAsserted := true |>, wb_pkt <| isSupplyExclusive := false |>)
         else assert! isInvalidate (pk_cmd pkt); Ok (pkt, wb_pkt));
      let x := x <| targets ::= set_field tl_list (fun _ => tgt <| t_pkt := wb_pkt |> :: ts) |> in
      let t := set_regs (<[m := x]> (regs t)) t in
      t ← doTimingSupplyResponse env (MkTPkt pkt sender) (pk_data wb_pkt) false false t;
      t ← (if isInvalidate (pk_cmd pkt) then markInServiceInternal env m None t else Ok t);
      Ok (t, pkt)
  end.

Definition recvTimingSnoopReq (env : Env) (express : bool) pkt (sender : option nat) t
    : outcome (TCache T * CPkt) :=
  assert! negb (bypassCaches (par (tc t)));
  let in_range := existsb (contains (pk_addr pkt)) (addrRanges t) in
  if isUncacheable pkt || bool_decide (pk_cmd pkt = Writeback) || negb in_range then Ok (t, pkt)
  else
    let is_secure := pk_secure pkt in
    ob ← findBlock (store (tc t)) (pk_addr pkt) is_secure;
    let blk_addr := blockAlign (pk_addr pkt) t in
    mshr ← findMatch blk_addr is_secure (mshrQueue (tc t)) (regs t);
    if bool_decide (mshr <> None) && bool_decide (pk_cmd pkt = HardPFReq)
    then Ok (t, pkt <| prefetchSquashed := true |>)
    else
      '(taken, pkt, t) ←
        (match mshr with
         | Some m =>
             '(b, pkt, h) ← mshr_handleSnoop (curTick env) pkt sender express (order t) m (regs t);
             Ok (b : bool, pkt, next_order (set_regs h t))
         | None => Ok (false, pkt, t)
         end);
      if taken : bool then Ok (t, pkt)
      else
        '(found, writebacks) ← findMatches blk_addr is_secure (writeBuffer t) (regs t);
        '(t, pkt) ←
          (if found : bool then
             match writebacks with
             | [] => Ok (t, pkt)
             | [m] => snoop_writeback env m sender pkt t
             | _ => Err AssertFail
             end
           else Ok (t, pkt));
        handleSnoop env pkt sender (Way <$> ob) true false false t.

Definition recvAtomicSnoop (env : Env) pkt t : outcome (TCache T * CPkt * Z) :=
  assert! negb (bypassCaches (par (tc t)));
  if isUncacheable pkt || bool_decide (pk_cmd pkt = Writeback) then Ok (t, pkt, 0)
  else
    ob ← findBlock (store (tc t)) (pk_addr pkt) (pk_secure pkt);
    '(t, pkt) ← handleSnoop env pkt None (Way <$> ob) false false false t;
    Ok (t, pkt, c_hitLatency (par (tc t)) * clockPeriod env).
End snoop.
