(* ===== verification/Timing.v ===== *)
(** The timing protocol of the cache ([mem/cache/cache_impl.hh]): requests
    from the CPU side ([recvTimingReq]), the choice of the next request to
    send below and the packet for it ([getNextMSHR], [getTimingPacket],
    [sendDeferredPacket]), and responses from the memory side
    ([recvTimingResp]).  The cache has no prefetcher of its own; prefetches of
    other caches and of the processor are handled. *)
From S2P Require Import Prelude MemTypes Blk SetAssoc Policy Memory Mshr Cache CacheSide.
From S2P Require Import PacketQueue CacheBase Snoop.

#[local] Open Scope Z_scope.

Definition isSWPrefetch (c : Command) : bool := testCmdAttrib c IsSWPrefetch.

(** [memset(pkt->getPtr(), 0xFF, pkt->getSize())]. *)
Definition fill_ff (p : CPkt) : outcome CPkt :=
  d ← wr (pk_data p) 0 (replicate (Z.to_nat (pk_size p)) 255); Ok (p <| pk_data := d |>).

(** The copy of a software prefetch that the register keeps, with a request of
    its own. *)
Definition prefetch_copy (p : CPkt) : CPkt :=
  set_req {| paddr := paddr (pk_req p); req_size := req_size (pk_req p);
             masterId := masterId (pk_req p); contextId := 0; taskId := Unknown; extraData := 0 |}
    (clone_packet p).

Section timing.
Context {T M : Type} `{Policy T} `{MemSide M} `{CpuSide}.
Implicit Types (t : TCache T) (m : M) (pkt : CPkt).

(** ** Requests from the CPU side *)

(** Another cache answers: only an express snoop goes below. *)
Definition timing_inhibited pkt t : outcome (TCache T) :=
  assert! negb (isUncacheable pkt);
  if needsExclusive (pk_cmd pkt) && negb (isSupplyExclusive pkt) then
    Ok (t <| toMem ::= fun l => l ++ [(copy_packet pkt) <| memInhibitAsserted := true |>] |>)
  else Ok t.

Definition timing_uncacheable (env : Env) (funcMasterId time : Z) (pkt : TPkt) t m
    : outcome (TCache T * M * CPkt) :=
  let p := tp_pkt pkt in
  '(ch, m) ← uncacheableFlush env funcMasterId p (tc t) m;
  let t := t <| tc := ch |> in
  if isPrefetch (pk_cmd p) then
    p ← makeResponse p;
    p ← fill_ff p;
    t ← schedTimingResp env (pkt <| tp_pkt := p |>) (clockEdge_in env (c_hitLatency (par (tc t)))) t;
    Ok (t, m, p)
  else
    '(t, _) ← (if isWrite (pk_cmd p) && negb (isRead (pk_cmd p))
               then allocateWriteBuffer env pkt time true t
               else allocateUncachedReadBuffer env pkt time true t);
    assert! needsResponse (pk_cmd p);
    Ok (t, m, p).

Definition timing_hit (env : Env) (lat : Z) (pkt : TPkt) t : outcome (TCache T * CPkt) :=
  let p := tp_pkt pkt in
  if needsResponse (pk_cmd p) then
    p ← makeResponse p;
    t ← schedTimingResp env (pkt <| tp_pkt := p |>) (clockEdge_in env lat) t;
    Ok (t, p)
  else Ok (t, p).

(** At the top level a software prefetch is answered at once; the copy that is
    left, unless a register already fetches the line, misses in its place. *)
Definition answer_prefetch (env : Env) (lat : Z) (mshr : option nat) (pkt : TPkt) t
    : outcome (TCache T * option TPkt * CPkt) :=
  let p := tp_pkt pkt in
  if isSWPrefetch (pk_cmd p) && isTopLevel (par (tc t)) then
    assert! needsResponse (pk_cmd p);
    let pf := match mshr with
              | Some _ => None
              | None => Some (MkTPkt (prefetch_copy p) None)
              end in
    p ← makeResponse p;
    p ← fill_ff p;
    t ← schedTimingResp env (pkt <| tp_pkt := p |>) (clockEdge_in env lat) t;
    Ok (t, pf, p)
  else Ok (t, Some pkt, p).

Definition count_mshr (env : Env) (f : (Command -> Z -> Z) -> (Command -> Z -> Z))
    (hit : bool) pkt t : outcome (TCache T) :=
  assert! masterId (pk_req pkt) <? maxMasters env;
  Ok (if hit then t <| t_stats ::= set_field mshr_hits f |>
      else t <| t_stats ::= set_field mshr_misses f |>).

(** A register is already waiting for the line. *)
Definition coalesce (env : Env) (time : Z) (r : nat) (pkt : TPkt) t : outcome (TCache T) :=
  let p := tp_pkt pkt in
  t ← count_mshr env (bump_stat (pk_cmd p) (masterId (pk_req p))) true p t;
  h ← updM r (fun x => if negb (threadNum x =? 0) then x <| threadNum := -1 |> else x) (regs t);
  h ← allocateTarget (curTick env) p (tp_sender pkt) time (order t) r h;
  let t := next_order (set_regs h t) in
  x ← aget (regs t) r;
  if Z.of_nat (getNumTargets x) =? numTarget t then
    setBlocked env Blocked_NoTargets (t <| noTargetMSHR := Some r |>)
  else Ok t.

(** No register is: a new one is needed. *)
Definition new_miss (env : Env) (time : Z) (or : option BRef) (pkt : TPkt) t : outcome (TCache T) :=
  let p := tp_pkt pkt in
  t ← count_mshr env (bump_stat (pk_cmd p) (masterId (pk_req p))) false p t;
  if decide (pk_cmd p = Writeback) then
    '(t, _) ← allocateWriteBuffer env pkt time true t; Ok t
  else
    t ← (match or with
         | Some r =>
             blk ← get_ref r (tc t);
             if negb (bool_decide (pk_cmd p = WriteInvalidateReq)) && isValid blk then
               assert! needsExclusive (pk_cmd p);
               assert! negb (isWritable blk);
               on_cache (clear_bits BlkReadable r) t
             else Ok t
         | None => Ok t
         end);
    '(t, _) ← allocateMissBuffer env pkt time true t; Ok t.

(** A write to a block that a pending whole-line write may make exclusive has
    to wait for it. *)
Definition waits_for_exclusive (or : option BRef) pkt t : outcome bool :=
  match or with
  | Some r =>
      blk ← get_ref r (tc t);
      Ok (isValid blk && negb (Z.land (status blk) BlkCanGoExclusive =? 0)
            && isWrite (pk_cmd pkt) && negb (bool_decide (pk_cmd pkt = WriteInvalidateReq)))
  | None => Ok false
  end.

Definition timing_miss (env : Env) (time lat : Z) (or : option BRef) (pkt : TPkt) t
    : outcome (TCache T * bool * CPkt) :=
  let p := tp_pkt pkt in
  wait ← waits_for_exclusive or p t;
  if wait : bool then
    t ← setBlocked env Blocked_PendingWriteInvalidate t; Ok (t, false, p)
  else
    let blk_addr := blockAlign (pk_addr p) t in
    mshr ← findMatch blk_addr (pk_secure p) (mshrQueue (tc t)) (regs t);
    '(t, opkt, p) ← answer_prefetch env lat mshr pkt t;
    t ← (match mshr, opkt with
         | Some r, Some pkt => coalesce env time r pkt t
         | Some _, None => Ok t
         | None, Some pkt => new_miss env time or pkt t
         | None, None => Err OutOfBounds
         end);
    Ok (t, true, p).

(** Whether the request is taken; the packet comes back as the cache leaves it. *)
Definition recvTimingReq (env : Env) (funcMasterId : Z) (pkt : TPkt) t m
    : outcome (TCache T * M * bool * CPkt) :=
  let time := clockEdge_in env (c_hitLatency (par (tc t))) in
  assert! isRequest (pk_cmd (tp_pkt pkt));
  if bypassCaches (par (tc t)) then
    Ok (t <| toMem ::= fun l => l ++ [tp_pkt pkt] |>, m, true, tp_pkt pkt)
  else
    p ← promoteWholeLineWrites (tp_pkt pkt) (tc t);
    let pkt := pkt <| tp_pkt := p |> in
    if memInhibitAsserted p then
      t ← timing_inhibited p t; Ok (t, m, true, p)
    else if isUncacheable p then
      '(t, m, p) ← timing_uncacheable env funcMasterId time pkt t m; Ok (t, m, true, p)
    else
      a ← access env funcMasterId p [] (tc t) m;
      let t := t <| tc := a_ch a |> in
      let p := a_pkt a in
      let pkt := pkt <| tp_pkt := p |> in
      if bool_decide (pk_cmd p = WriteInvalidateReq) && negb (a_ok a) && isTopLevel (par (tc t))
      then
        t ← setBlocked env Blocked_PendingWriteInvalidate t; Ok (t, a_m a, false, p)
      else
        let satisfied := a_ok a && negb (bool_decide (pk_cmd p = WriteInvalidateReq)) in
        '(t, ok, p) ←
          (if satisfied then '(t, p) ← timing_hit env (a_lat a) pkt t; Ok (t, true, p)
           else timing_miss env time (a_lat a) (a_blk a) pkt t);
        if ok : bool then
          t ← allocate_writebacks env (a_wbs a) time t; Ok (t, a_m a, true, p)
        else Ok (t, a_m a, false, p).

(** The port: inhibited requests always go through. *)
Definition port_recvTimingReq (env : Env) (funcMasterId : Z) (pkt : TPkt) t m
    : outcome (TCache T * M * bool * CPkt) :=
  assert! negb (bypassCaches (par (tc t)));
  '(t, m, success, p) ←
    (if memInhibitAsserted (tp_pkt pkt) then
       '(t, m, ok, p) ← recvTimingReq env funcMasterId pkt t m;
       assert! ok; Ok (t, m, ok, p)
     else if port_blocked (port t) || mustSendRetry (port t) then Ok (t, m, false, tp_pkt pkt)
     else recvTimingReq env funcMasterId pkt t m);
  Ok (t <| port ::= fun q => q <| mustSendRetry := negb success |> |>, m, success, p).

(** ** The next request to send *)

Definition cache_getNextMSHR (env : Env) t : outcome (option nat) :=
  miss_mshr ← getNextMSHR (curTick env) (mshrQueue (tc t)) (regs t);
  write_mshr ← getNextMSHR (curTick env) (writeBuffer t) (regs t);
  match miss_mshr, write_mshr with
  | Some r, None => Ok (Some r)
  | None, Some w => Ok (Some w)
  | Some r, Some w =>
      x ← aget (regs t) r;
      y ← aget (regs t) w;
      if isFull (writeBuffer t) && (inServiceEntries (writeBuffer t) =? 0) then
        conflict ← findPending (m_addr y) (m_size y) (m_secure y) (mshrQueue (tc t)) (regs t);
        match conflict with
        | Some c => z ← aget (regs t) c; Ok (Some (if m_order z <? m_order y then c else w))
        | None => Ok (Some w)
        end
      else
        conflict ← findPending (m_addr x) (m_size x) (m_secure x) (writeBuffer t) (regs t);
        Ok (Some (default r conflict))
  | None, None => Ok None
  end.

Definition cache_nextMSHRReadyTime t : outcome Z :=
  a ← nextMSHRReadyTime (mshrQueue (tc t)) (regs t);
  b ← nextMSHRReadyTime (writeBuffer t) (regs t);
  Ok (Z.min a b).

(** [mshr->getTarget()]. *)
Definition getTarget (x : MSHR) : outcome Target :=
  match tl_list (targets x) with t :: _ => Ok t | [] => Err AssertFail end.

(** A prefetch asks the caches above first: [None] when it was squashed or is
    answered there. *)
Definition snoop_prefetch (env : Env) (r : nat) (tgt_pkt : CPkt) t
    : outcome (TCache T * bool) :=
  let snoop_pkt := sendTimingSnoopReq (copy_packet tgt_pkt) in
  if prefetchSquashed snoop_pkt then
    let i := queue_of r t in
    '(unblock, q, h) ← forceDeallocateTarget (curTick env) r (get_queue i t) (regs t);
    let t := set_queue i q h t in
    t ← (if unblock : bool then clearBlocked env (queue_cause i) t else Ok t);
    Ok (t, false)
  else if memInhibitAsserted snoop_pkt then
    t ← markInServiceInternal env r (Some snoop_pkt) t; Ok (t, false)
  else Ok (t, true).

(** The packet for the register and whether it is a forwarded request. *)
Definition bus_packet (r : nat) (ob : option nat) (tgt_pkt : CPkt) t : outcome (TCache T * CPkt) :=
  x ← aget (regs t) r;
  opkt ← getBusPacket tgt_pkt (Way <$> ob) (tl_needsExclusive (targets x)) (tc t);
  h ← updM r (fun x => x <| isForward := bool_decide (opkt = None) |>) (regs t);
  let t := set_regs h t in
  match opkt with
  | Some p => Ok (t, p)
  | None =>
      let p := allocate (clone_packet tgt_pkt) in
      p ← (if isWrite (pk_cmd p) then setData (pk_data tgt_pkt) 0 p else Ok p);
      Ok (t, p)
  end.

Definition getTimingPacket (env : Env) t : outcome (TCache T * option (CPkt * nat)) :=
  next ← cache_getNextMSHR env t;
  match next with
  | None => Ok (t, None)
  | Some r =>
      x ← aget (regs t) r;
      tgt ← getTarget x;
      let tgt_pkt := t_pkt tgt in
      fwd ← isForwardNoResponse x;
      ob ← findBlock (store (tc t)) (m_addr x) (m_secure x);
      if fwd : bool then
        assert! bool_decide (ob = None); Ok (t, Some (tgt_pkt, r))
      else
        '(t, go) ←
          (if decide (pk_cmd tgt_pkt = HardPFReq) then
             assert! bool_decide (ob = None); snoop_prefetch env r tgt_pkt t
           else Ok (t, true));
        if go : bool then
          '(t, p) ← bus_packet r ob tgt_pkt t; Ok (t, Some (p, r))
        else Ok (t, None)
  end.

(** [MemSidePacketQueue::sendDeferredPacket].  [peer] is what the port below
    does with a request: take it or not, and set its coherence flags; [snoop_ok]
    its answer to a snoop response.  What left is handed back. *)
Inductive Departure := NoPacket | SentRequest (p : CPkt) (r : nat) | SentSnoopResp (p : TPkt).

Definition cache_sendDeferredPacket (env : Env) (peer : CPkt -> bool * CPkt) (snoop_ok : bool) t
    : outcome (TCache T * Departure) :=
  '(t, dep) ←
    (if deferredPacketReady (curTick env) (memSide t) then
       '(q, o) ← trySendTiming (curTick env) MasterSide snoop_ok (memSide t);
       Ok (t <| memSide := q |>,
           match o with Some d => SentSnoopResp (dp_pkt d) | None => NoPacket end)
     else
       '(t, opkt) ← getTimingPacket env t;
       match opkt with
       | None => Ok (t <| memSide ::= set_field waitingOnRetry (fun _ => false) |>, NoPacket)
       | Some (p, r) =>
           let '(ok, p) := peer p in
           let t := t <| memSide ::= set_field waitingOnRetry (fun _ => negb ok) |> in
           if ok : bool then
             t ← markInServiceInternal env r (Some p) t; Ok (t, SentRequest p r)
           else Ok (t, NoPacket)
       end);
  if negb (waitingOnRetry (memSide t)) then
    time ← cache_nextMSHRReadyTime t;
    q ← scheduleSend (curTick env) time (memSide t);
    Ok (t <| memSide := q |>, dep)
  else Ok (t, dep).

(** The send event of the queue fires, or the peer asks for a retry. *)
Definition mem_processSendEvent (env : Env) (peer : CPkt -> bool * CPkt) (snoop_ok : bool) t
    : outcome (TCache T * Departure) :=
  let t := t <| memSide ::= set_field sendEvent (fun _ => None) |> in
  assert! negb (waitingOnRetry (memSide t));
  cache_sendDeferredPacket env peer snoop_ok t.
Definition mem_retry (env : Env) (peer : CPkt -> bool * CPkt) (snoop_ok : bool) t
    : outcome (TCache T * Departure) :=
  assert! waitingOnRetry (memSide t);
  cache_sendDeferredPacket env peer snoop_ok t.

(** ** Responses from the memory side *)

(** What the service of the targets of a response depends on: the response,
    its delays, the register, and the block. *)
Record Service := MkService {
  sv_pkt : CPkt;
  sv_first : Z;
  sv_last : Z;
  sv_reg : nat;
  sv_fill : bool;
  sv_blk : option BRef;
  sv_offset : Z
}.

(** The block of a whole-line write that was sent below. *)
Definition settle_write_invalidate (or : option BRef) t : outcome (TCache T) :=
  match or with
  | None => Ok t
  | Some r =>
      blk ← get_ref r (tc t);
      assert! isDirty blk && negb (isWritable blk);
      t ← (if negb (Z.land (status blk) BlkCanGoExclusive =? 0)
           then on_cache (set_bits BlkWritable r) t else Ok t);
      on_cache (clear_bits (Z.lor BlkDirty BlkCanGoExclusive) r) t
  end.

(** The arms for a target of the CPU side: the packet with its data, and the
    tick at which it can go up. *)
Definition complete_target (env : Env) (s : Service) (tgt : Target) t
    : outcome (TCache T * CPkt * Z) :=
  let p := t_pkt tgt in
  let pkt := sv_pkt s in
  let edge := clockEdge_in env (responseLatency (par (tc t))) in
  if sv_fill s then
    match sv_blk s with
    | None => Err AssertFail
    | Some r =>
        x ← aget (regs t) (sv_reg s);
        pdg ← hasPostDowngrade x;
        '(ch, p) ← satisfyCpuSideRequest env p r true pdg (tc t);
        let t := t <| tc := ch |> in
        let off := getOffset (c_blkSize (par (tc t))) p - sv_offset s in
        let transfer_offset := if off <? 0 then off + c_blkSize (par (tc t)) else off in
        let completion_time :=
          edge + (if negb (transfer_offset =? 0) then sv_last s else sv_first s) in
        assert! negb (isUncacheable p);
        assert! masterId (pk_req p) <? maxMasters env;
        Ok (t <| t_stats ::= set_field missLatency
                   (add_stat (pk_cmd p) (masterId (pk_req p)) (completion_time - t_recvTime tgt)) |>,
            p, completion_time)
    end
  else if decide (pk_cmd pkt = UpgradeFailResp) then
    assert! bool_decide (pk_cmd p = StoreCondReq) || bool_decide (pk_cmd p = StoreCondFailReq)
              || bool_decide (pk_cmd p = SCUpgradeFailReq);
    Ok (t, setExtraData 0 p, edge + sv_last s)
  else if decide (pk_cmd pkt = WriteInvalidateResp) then
    t ← settle_write_invalidate (sv_blk s) t;
    if isTopLevel (par (tc t)) then
      t ← (if isBlocked t then clearBlocked env Blocked_PendingWriteInvalidate t else Ok t);
      Ok (t, set_cmd WriteReq p, edge + sv_last s)
    else Ok (t, p, edge + sv_last s)
  else
    p ← (if isRead (pk_cmd pkt) && negb (isError (pk_cmd pkt)) then setData (pk_data pkt) 0 p
         else Ok p);
    Ok (t, p, edge + sv_last s).

Definition serve_cpu_target (env : Env) (s : Service) (tgt : Target) t : outcome (TCache T) :=
  if isSWPrefetch (pk_cmd (t_pkt tgt)) && isTopLevel (par (tc t)) then Ok t
  else
    '(t, p, completion_time) ← complete_target env s tgt t;
    p ← makeResponse p;
    p ← (if isError (pk_cmd (sv_pkt s)) then copyError (sv_pkt s) p else Ok p);
    p ← (if decide (pk_cmd p = ReadResp) then
           inv ← (if isInvalidate (pk_cmd (sv_pkt s)) then Ok true
                  else x ← aget (regs t) (sv_reg s); hasPostInvalidate x);
           Ok (if inv : bool then set_cmd ReadRespWithInvalidate p else p)
         else Ok p);
    schedTimingResp env (MkTPkt p (t_sender tgt)) completion_time t.

Definition serve_target (env : Env) (s : Service) (tgt : Target) t : outcome (TCache T) :=
  match t_source tgt with
  | FromCPU => serve_cpu_target env s tgt t
  | FromPrefetcher =>
      assert! bool_decide (pk_cmd (t_pkt tgt) = HardPFReq);
      match sv_blk s with
      | Some r => on_cache (set_bits BlkHWPrefetched r) t
      | None => Ok t
      end
  | FromSnoop =>
      assert! negb (isError (pk_cmd (sv_pkt s)));
      x ← aget (regs t) (sv_reg s);
      pinv ← hasPostInvalidate x;
      assert! negb (isInvalidate (pk_cmd (sv_pkt s)) && negb pinv);
      '(t, _) ← handleSnoop env (t_pkt tgt) (t_sender tgt) (sv_blk s) true true pinv t;
      Ok t
  end.

(** [while (mshr->hasTargets())], with as many rounds as there are targets. *)
Fixpoint serve_targets (n : nat) (env : Env) (s : Service) t : outcome (TCache T) :=
  x ← aget (regs t) (sv_reg s);
  match tl_list (targets x), n with
  | [], _ => Ok t
  | _ :: _, O => Err Diverge
  | tgt :: _, S n =>
      t ← serve_target env s tgt t;
      h ← pop_mshr (sv_reg s) (regs t);
      serve_targets n env s (set_regs h t)
  end.

(** The register that blocked the cache, if it is this one, has room again. *)
Definition unblock_targets (env : Env) (r : nat) t : outcome (TCache T) :=
  if decide (noTargetMSHR t = Some r) then
    t ← clearBlocked env Blocked_NoTargets t; Ok (t <| noTargetMSHR := None |>)
  else Ok t.

(** The response and the packet it answers, that of the first target, carry
    the same request object. *)
Definition share_request (pkt : CPkt) (r : nat) t : outcome (TCache T) :=
  h ← updM r (fun x => x <| targets ::= set_field tl_list (fun ts =>
        match ts with
        | tgt :: ts => tgt <| t_pkt ::= set_req (pk_req pkt) |> :: ts
        | [] => []
        end) |>) (regs t);
  Ok (set_regs h t).

Definition count_latency (env : Env) (pkt : CPkt) (initial_tgt : Target) t : outcome (TCache T) :=
  let m := masterId (pk_req pkt) in
  let f := add_stat (pk_cmd (t_pkt initial_tgt)) m (curTick env - t_recvTime initial_tgt) in
  assert! m <? maxMasters env;
  Ok (if isUncacheable pkt then t <| t_stats ::= set_field mshr_uncacheable_lat f |>
      else t <| t_stats ::= set_field mshr_miss_latency f |>).

(** The fill, if the response carries the line or the right to write it. *)
Definition timing_fill (env : Env) (lastWordDelay : Z) pkt (r : nat) (or : option BRef) t
    : outcome (TCache T * option BRef * list CPkt) :=
  h ← mshr_handleFill (hierarchy_depth t) pkt r (regs t);
  let t := set_regs h t in
  '(ch, b, wbs) ← handleFill env lastWordDelay pkt or [] (tc t);
  Ok (t <| tc := ch |>, Some b, wbs).

(** After the targets: the block loses what snoops have taken from it. *)
Definition post_actions (env : Env) pkt (r : nat) (or : option BRef) t : outcome (TCache T) :=
  match or with
  | None => Ok t
  | Some b =>
      blk ← get_ref b (tc t);
      if isValid blk then
        x ← aget (regs t) r;
        inv ← (if isInvalidate (pk_cmd pkt) then Ok true else hasPostInvalidate x);
        if inv : bool then
          assert! negb (bool_decide (b = Temp));
          on_cache (invalidate_ref env b) t
        else
          pdg ← hasPostDowngrade x;
          if pdg : bool then on_cache (clear_bits BlkWritable b) t else Ok t
      else Ok t
  end.

(** Deferred targets become the targets of a new request, or the register is
    released. *)
Definition retire_mshr (env : Env) (lastWordDelay : Z) (r : nat) (wasFull : bool)
    (or : option BRef) t : outcome (TCache T) :=
  let i := queue_of r t in
  x ← aget (regs t) r;
  '(promoted, x) ← promoteDeferredTargets (curTick env) x;
  let t := set_regs (<[r := x]> (regs t)) t in
  if promoted : bool then
    t ← (match or with Some b => on_cache (clear_bits BlkReadable b) t | None => Ok t end);
    '(q, h) ← markPending r (get_queue i t) (regs t);
    requestMemSideBus env (clockEdge env + lastWordDelay) (set_queue i q h t)
  else
    '(q, h) ← deallocateOne r (get_queue i t) (regs t);
    let t := set_queue i q h t in
    if wasFull && negb (isFull (get_queue i t)) then clearBlocked env (queue_cause i) t else Ok t.

Definition release_temp_block (env : Env) (time : Z) (or : option BRef) t : outcome (TCache T) :=
  if decide (or = Some Temp) then
    '(ch, wbs) ← release_temp env [] (tc t);
    allocate_writebacks env wbs time (t <| tc := ch |>)
  else Ok t.

Definition recvTimingResp (env : Env) (firstWordDelay lastWordDelay : Z) pkt (r : nat) t
    : outcome (TCache T) :=
  assert! isResponse (pk_cmd pkt);
  let time := clockEdge_in env (c_hitLatency (par (tc t))) in
  let wasFull := isFull (get_queue (queue_of r t) t) in
  t ← share_request pkt r t;
  t ← unblock_targets env r t;
  x ← aget (regs t) r;
  initial_tgt ← getTarget x;
  ob ← findBlock (store (tc t)) (pk_addr pkt) (pk_secure pkt);
  t ← count_latency env pkt initial_tgt t;
  let is_fill := negb (isForward x) &&
                 (isRead (pk_cmd pkt) || bool_decide (pk_cmd pkt = UpgradeResp)) in
  '(t, or, wbs) ←
    (if is_fill && negb (isError (pk_cmd pkt))
     then timing_fill env lastWordDelay pkt r (Way <$> ob) t
     else Ok (t, Way <$> ob, []));
  x ← aget (regs t) r;
  let s := MkService pkt firstWordDelay lastWordDelay r is_fill or
             (match tl_list (targets x) with
              | tgt :: _ => getOffset (c_blkSize (par (tc t))) (t_pkt tgt)
              | [] => 0
              end) in
  t ← serve_targets (length (tl_list (targets x))) env s t;
  t ← post_actions env pkt r or t;
  t ← retire_mshr env lastWordDelay r wasFull or t;
  t ← allocate_writebacks env wbs time t;
  release_temp_block env time or t.

(** A response from a cache above to a snoop of this cache, or to its own
    prefetch; [record] is the register of the snooping cache below it has to
    be routed to. *)
Definition recvTimingSnoopResp (env : Env) pkt (record : option (option nat)) (r : nat) t
    : outcome (TCache T) :=
  assert! isResponse (pk_cmd pkt);
  assert! negb (bypassCaches (par (tc t)));
  match record with
  | None => assert! bool_decide (pk_cmd pkt = HardPFResp); recvTimingResp env 0 0 pkt r t
  | Some s => schedTimingSnoopResp env (MkTPkt pkt s) (clockEdge_in env (c_hitLatency (par (tc t)))) t
  end.

(** [Cache::squash]. *)
Definition cache_squash (env : Env) (thread : Z) t : outcome (TCache T) :=
  '(t, unblock, cause) ←
    (match noTargetMSHR t with
     | Some r =>
         x ← aget (regs t) r;
         Ok (if threadNum x =? thread then (t <| noTargetMSHR := None |>, true, Blocked_NoTargets)
             else (t, false, NUM_BLOCKED_CAUSES))
     | None => Ok (t, false, NUM_BLOCKED_CAUSES)
     end);
  let unblock := if isFull (mshrQueue (tc t)) then true else unblock in
  let cause := if isFull (mshrQueue (tc t)) then Blocked_NoMSHRs else cause in
  '(q, h) ← squash thread (mshrQueue (tc t)) (regs t);
  let t := set_queue MSHRQueue_MSHRs q h t in
  if unblock && negb (isFull (mshrQueue (tc t))) then clearBlocked env cause t else Ok t.
End timing.
