(* ===== verification/Frames.v ===== *)
(** What the operations of the cache leave alone: the registers, their queue
    and the parameters of the cache, and the identity of the packets they
    serve.  The timing protocol keeps its own books on these. *)
From S2P Require Import Prelude MemTypes Blk CacheSet SetAssoc Policy Memory Mshr Cache CacheSide.

#[local] Open Scope Z_scope.

(** Opening every computation in the context that succeeded. *)
Ltac opens := repeat match goal with
  | E : Err _ = Ok _ |- _ => discriminate E
  | E : true = false |- _ => discriminate E
  | E : false = true |- _ => discriminate E
  | E : (let _ := _ in _) = Ok _ |- _ => cbv zeta in E
  | E : Ok _ = Ok _ |- _ => injection E as E; try subst
  | E : (?m ≫= _) = Ok _ |- _ =>
      let r := fresh "r" in let E' := fresh "E" in
      destruct m as [r|] eqn:E'; cbn [mbind outcome_bind] in E; [|discriminate E]
  | E : (match ?x with _ => _ end) = Ok _ |- _ => destruct x eqn:?
  end.

(** Who asked, for what: all of a packet that its service does not change. *)
Definition identity (p : CPkt) : Z * Z * bool * Request :=
  (pk_addr p, pk_size p, pk_secure p, (pk_req p) <| extraData := 0 |>).
Definition same_packet (p p' : CPkt) : Prop := pk_cmd p' = pk_cmd p /\ identity p' = identity p.

Lemma same_packet_refl p : same_packet p p.
Proof. done. Qed.
Lemma same_packet_trans p p' p'' : same_packet p p' -> same_packet p' p'' -> same_packet p p''.
Proof. intros [] []. split; congruence. Qed.

Section frames.
Context {T : Type} `{Policy T}.
Implicit Types (ch : Cache T) (p : CPkt) (r : BRef).

Definition books ch : Heap * MSHRQueue * CacheParams := (mshrs ch, mshrQueue ch, par ch).

(** An operation that keeps the books of [ch]; [out] picks the state from its
    result. *)
Class Keeps {B} (o : outcome B) ch (out : B -> Cache T) :=
  keeps : forall b, o = Ok b -> books (out b) = books ch.
End frames.

Ltac keeps_all := repeat match goal with
  | E : ?o = Ok ?b |- _ => let F := fresh "F" in pose proof (keeps (o := o) b E) as F; revert E
  end; intros; cbn [fst snd] in *; unfold books in *; cbn in *;
  try congruence; repeat case_match; cbn in *; try congruence.

Ltac prove_keeps := intros ? E; opens; keeps_all.

Section cache_frames.
Context {T : Type} `{Policy T}.
Implicit Types (ch : Cache T) (p : CPkt) (r : BRef).

#[export] Instance on_base_keeps f ch : Keeps (on_base f ch) ch id.
Proof. unfold on_base. prove_keeps. Qed.
#[export] Instance on_tags_keeps f ch : Keeps (on_tags f ch) ch id.
Proof. unfold on_tags. prove_keeps. Qed.
#[export] Instance upd_ref_keeps r f ch : Keeps (upd_ref r f ch) ch id.
Proof. unfold upd_ref. prove_keeps. Qed.
#[export] Instance set_data_keeps r d ch : Keeps (set_data r d ch) ch id.
Proof. unfold set_data. prove_keeps. Qed.
#[export] Instance set_bits_keeps n r ch : Keeps (set_bits n r ch) ch id.
Proof. unfold set_bits. prove_keeps. Qed.
#[export] Instance clear_bits_keeps n r ch : Keeps (clear_bits n r ch) ch id.
Proof. unfold clear_bits. prove_keeps. Qed.
#[export] Instance invalidate_ref_keeps env r ch : Keeps (invalidate_ref env r ch) ch id.
Proof. unfold invalidate_ref. prove_keeps. Qed.
#[export] Instance incMissCount_keeps env p ch : Keeps (incMissCount env p ch) ch id.
Proof. unfold incMissCount. prove_keeps. Qed.
#[export] Instance incHitCount_keeps env p ch : Keeps (incHitCount env p ch) ch id.
Proof. unfold incHitCount. prove_keeps. Qed.
#[export] Instance writebackBlk_keeps env r ch : Keeps (writebackBlk env r ch) ch fst.
Proof. unfold writebackBlk. prove_keeps. Qed.
#[export] Instance allocateBlock_keeps env a w ch :
  Keeps (allocateBlock env a w ch) ch (fun x => x.1.1).
Proof. unfold allocateBlock. prove_keeps. Qed.
#[export] Instance use_temp_keeps env a ch : Keeps (use_temp env a ch) ch id.
Proof. unfold use_temp. prove_keeps. Qed.
#[export] Instance fill_target_keeps env p o w ch :
  Keeps (fill_target env p o w ch) ch (fun x => x.1.1).
Proof. unfold fill_target. prove_keeps. Qed.
#[export] Instance handleFill_keeps env l p o w ch :
  Keeps (handleFill env l p o w ch) ch (fun x => x.1.1).
Proof. unfold handleFill. prove_keeps. Qed.
#[export] Instance release_temp_keeps env w ch : Keeps (release_temp env w ch) ch fst.
Proof. unfold release_temp. prove_keeps. Qed.
#[export] Instance cmpAndSwap_keeps r p ch : Keeps (cmpAndSwap r p ch) ch fst.
Proof. unfold cmpAndSwap. prove_keeps. Qed.
#[export] Instance satisfy_write_keeps r p ch : Keeps (satisfy_write r p ch) ch fst.
Proof. unfold satisfy_write. prove_keeps. Qed.
#[export] Instance satisfy_read_keeps env r d g p ch :
  Keeps (satisfy_read env r d g p ch) ch fst.
Proof. unfold satisfy_read. prove_keeps. Qed.
#[export] Instance satisfyCpuSideRequest_keeps env p r d g ch :
  Keeps (satisfyCpuSideRequest env p r d g ch) ch fst.
Proof. unfold satisfyCpuSideRequest. prove_keeps. Qed.
End cache_frames.

Section access_frames.
Context {T M : Type} `{Policy T} `{MemSide M}.
Implicit Types (ch : Cache T) (m : M) (p : CPkt).

#[export] Instance writebackVisitor_keeps f b ch m : Keeps (writebackVisitor f b ch m) ch fst.
Proof. unfold writebackVisitor. prove_keeps. Qed.
#[export] Instance invalidateVisitor_keeps env b ch : Keeps (invalidateVisitor env b ch) ch id.
Proof. unfold invalidateVisitor. prove_keeps. Qed.
#[export] Instance uncacheableFlush_keeps env f p ch m :
  Keeps (uncacheableFlush env f p ch m) ch fst.
Proof. unfold uncacheableFlush. prove_keeps. Qed.
#[export] Instance place_line_keeps env p o w ch :
  Keeps (place_line env p o w ch) ch (fun x => x.1.1).
Proof. unfold place_line. prove_keeps. Qed.
#[export] Instance write_line_keeps env p b ch : Keeps (write_line env p b ch) ch id.
Proof. unfold write_line. prove_keeps. Qed.
#[export] Instance access_whole_line_keeps env p o l w ch m :
  Keeps (access_whole_line env p o l w ch m) ch a_ch.
Proof. unfold access_whole_line. prove_keeps. Qed.
Lemma count_dirty_hit_keeps blk p ch : books (count_dirty_hit blk p ch) = books ch.
Proof. unfold count_dirty_hit. by repeat case_match. Qed.
#[export] Instance access_block_keeps env p o l w ch m :
  Keeps (access_block env p o l w ch m) ch a_ch.
Proof. unfold access_block, count_dirty_hit. prove_keeps. Qed.
#[export] Instance access_keeps env f p w ch m : Keeps (access env f p w ch m) ch a_ch.
Proof. unfold access. prove_keeps. Qed.
End access_frames.

(** *** The packet served *)

(** [out] picks the packet from the result of an operation on [p]. *)
Class Serves {B} (o : outcome B) (p : CPkt) (out : B -> CPkt) :=
  serves : forall b, o = Ok b -> same_packet p (out b).

Ltac served := try done; cbn [fst snd]; repeat case_match; match goal with
  | E : ?o = Ok ?b |- _ =>
      let F := fresh "F" in
      assert (F := serves (o := o) b E); cbn [fst snd id] in F; exact F
  end.

Lemma same_packet_req p r : r <| extraData := 0 |> = (pk_req p) <| extraData := 0 |> ->
  same_packet p (set_req r p).
Proof. intros E. split; [done|]. exact (f_equal (pair (pk_addr p, pk_size p, pk_secure p)) E). Qed.
Lemma same_packet_extra v p : same_packet p (setExtraData v p).
Proof. done. Qed.

#[export] Instance setData_serves buf off p : Serves (setData buf off p) p id.
Proof. unfold setData. intros ? E. opens. done. Qed.
#[export] Instance setDataFromBlock_serves d n p : Serves (setDataFromBlock d n p) p id.
Proof. unfold setDataFromBlock. intros ? E. served. Qed.
#[export] Instance swap_data_serves p buf off : Serves (swap_data p buf off) p (fun x => x.1.1).
Proof. unfold swap_data. intros ? E. opens; served. Qed.

Section packet_frames.
Context {T M : Type} `{Policy T} `{MemSide M}.
Implicit Types (ch : Cache T) (m : M) (p : CPkt).

#[export] Instance cmpAndSwap_serves r p ch : Serves (cmpAndSwap r p ch) p snd.
Proof. unfold cmpAndSwap. intros ? E. opens; served. Qed.
#[export] Instance satisfy_write_serves r p ch : Serves (satisfy_write r p ch) p snd.
Proof.
  unfold satisfy_write, checkWrite. intros ? E. opens; apply same_packet_req;
    destruct (isLLSC _); simplify_eq; done.
Qed.
#[export] Instance satisfy_read_serves env r d g p ch : Serves (satisfy_read env r d g p ch) p snd.
Proof. unfold satisfy_read. intros ? E. opens; served. Qed.
#[export] Instance satisfyCpuSideRequest_serves env p r d g ch :
  Serves (satisfyCpuSideRequest env p r d g ch) p snd.
Proof. unfold satisfyCpuSideRequest. intros ? E. opens; served. Qed.
#[export] Instance access_serves env f p w ch m : Serves (access env f p w ch m) p a_pkt.
Proof. unfold access, access_whole_line, access_block. intros ? E. opens; served. Qed.
End packet_frames.
