(* ===== verification/Ledger.v ===== *)
(** The targets a heap of miss registers holds, and how the operations on
    registers and queues move them: the ground for counting the requests a
    cache has yet to answer. *)
From S2P Require Import Prelude MemTypes Blk SetAssoc Memory Mshr Queue.
From S2P Require Import Frames.

#[local] Open Scope Z_scope.

(** ** What matters of a target *)

(** [v_hard]: a hardware prefetch; [v_soft]: a software prefetch. *)
Record TargetView := MkView {
  v_source : Source;
  v_sender : option nat;
  v_identity : Z * Z * bool * Request;
  v_needs : bool;
  v_soft : bool;
  v_hard : bool
}.

Definition view_packet (src : Source) (s : option nat) (p : CPkt)  : TargetView :=
  MkView src s (identity p) (needsResponse (pk_cmd p)) (testCmdAttrib (pk_cmd p) IsSWPrefetch)
    (bool_decide (pk_cmd p = HardPFReq)).
Definition view_target (t : Target)  : TargetView := view_packet (t_source t) (t_sender t) (t_pkt t).

Definition lists (x : MSHR) : list Target := tl_list (targets x) ++ tl_list (deferredTargets x).
Definition reg_pool (x : MSHR) : list TargetView := view_target <$> lists x.
Definition pool (h : Heap) : list TargetView := h ≫= reg_pool.

Lemma pool_nil h : (forall r x, h !! r = Some x -> lists x = []) -> pool h = [].
Proof.
  induction h as [|y h IH]; intros Hl; [done|]. unfold pool. rewrite bind_cons.
  fold (pool h). rewrite IH by (intros r x Hr; exact (Hl (S r) x Hr)).
  unfold reg_pool. by rewrite (Hl 0%nat y eq_refl).
Qed.

(** From [h] to [h'], the targets [gone] leave and the targets [new] arrive. *)
Definition moves (h h' : Heap) (gone new : list TargetView) : Prop :=
  pool h' ++ gone ≡ₚ pool h ++ new.

Lemma moves_refl h : moves h h [] [].
Proof. unfold moves. done. Qed.

Lemma moves_trans h1 h2 h3 g1 n1 g2 n2 :
  moves h1 h2 g1 n1 -> moves h2 h3 g2 n2 -> moves h1 h3 (g1 ++ g2) (n1 ++ n2).
Proof.
  unfold moves. intros E1 E2. apply (Permutation_app_inv_l (pool h2)).
  transitivity ((pool h3 ++ g2) ++ (pool h2 ++ g1)); [solve_Permutation|].
  rewrite E1, E2. solve_Permutation.
Qed.

Lemma moves_then h1 h2 h3 g n : moves h1 h2 [] [] -> moves h2 h3 g n -> moves h1 h3 g n.
Proof. intros H1 H2. exact (moves_trans _ _ _ _ _ _ _ H1 H2). Qed.

Lemma moves_after h1 h2 h3 g n : moves h1 h2 g n -> moves h2 h3 [] [] -> moves h1 h3 g n.
Proof.
  intros H1 H2. pose proof (moves_trans _ _ _ _ _ _ _ H1 H2) as H3. by rewrite !app_nil_r in H3.
Qed.

Lemma same_reg_pool x x' : same_reg x x' -> reg_pool x' = reg_pool x.
Proof. intros H. exact (same_reg_use reg_pool x x' (fun _ => eq_refl) H). Qed.

Lemma moves_eqv h h' : heap_eqv h h' -> moves h h' [] [].
Proof.
  intros He. unfold moves. rewrite !app_nil_r. unfold pool.
  induction He as [|x x' h h' Hx _ IH]; [done|]. cbn [mbind list_bind].
  by rewrite IH, (same_reg_pool x x' Hx).
Qed.

Lemma moves_insert h m x x' g n :
  h !! m = Some x -> reg_pool x' ++ g ≡ₚ reg_pool x ++ n -> moves h (<[m := x']> h) g n.
Proof.
  intros Hm Hp. unfold moves, pool. pose proof (lookup_lt_Some _ _ _ Hm) as Hl.
  rewrite insert_take_drop by done.
  transitivity (((take m h ++ x :: drop (S m) h) ≫= reg_pool) ++ n);
    [|by rewrite (take_drop_middle h m x Hm)].
  rewrite !bind_app, !bind_cons. set (A := take m h ≫= reg_pool).
  set (B := drop (S m) h ≫= reg_pool).
  transitivity ((A ++ B) ++ (reg_pool x' ++ g)); [solve_Permutation|]. rewrite Hp. solve_Permutation.
Qed.

Lemma moves_same h m x x' : h !! m = Some x -> lists x' = lists x -> moves h (<[m := x']> h) [] [].
Proof. intros Hm Hl. apply (moves_insert h m x x'); [done|]. unfold reg_pool. by rewrite Hl. Qed.

Lemma moves_updM m f h h' : updM m f h = Ok h' -> (forall x, lists (f x) = lists x) ->
  moves h h' [] [].
Proof. intros (x & Hm & ->)%updM_Ok Hf. eapply moves_same; [done|apply Hf]. Qed.

(** ** Operations on registers *)

Lemma tl_add_view now pkt s rt o src mark l h l' h' :
  tl_add now pkt s rt o src mark l h = Ok (l', h') ->
  moves h h' [] [] /\
  view_target <$> tl_list l' = (view_target <$> tl_list l) ++ [view_packet src s pkt].
Proof.
  intros (He & _ & El)%tl_add_Ok. split; [by apply moves_eqv|]. by rewrite El, fmap_app.
Qed.

Lemma replaceUpgrade_view src s p : view_packet src s (replaceUpgrade p) = view_packet src s p.
Proof.
  unfold replaceUpgrade, view_packet, identity, pk_cmd.
  repeat (case_decide; [match goal with H : _ = _ |- _ => by rewrite H end|]). done.
Qed.

Lemma replaceUpgrades_view l :
  view_target <$> tl_list (replaceUpgrades l) = view_target <$> tl_list l.
Proof.
  unfold replaceUpgrades. case_match; [|done]. cbn. rewrite <- list_fmap_compose.
  apply list_fmap_ext. intros i t _. apply (replaceUpgrade_view (t_source t) (t_sender t) (t_pkt t)).
Qed.

(** A register whose lists were extended through another heap. *)
Lemma moves_store h h1 m x y new (f : MSHR -> MSHR) h' :
  h !! m = Some x -> heap_eqv h h1 -> updM m f h1 = Ok h' ->
  (forall z, same_reg x z -> reg_pool (f z) ≡ₚ reg_pool x ++ new) -> y = x -> moves h h' [] new.
Proof.
  intros Hx He (z & Hz & ->)%updM_Ok Hp ->.
  destruct (heap_eqv_lookup _ _ _ _ He Hx) as (z' & Hz' & S). simplify_eq.
  eapply moves_then; [by apply moves_eqv|]. apply (moves_insert h1 m z); [done|].
  by rewrite app_nil_r, (Hp z S), (same_reg_pool x z S).
Qed.

Lemma mshr_allocate_moves now addr size pkt s wr o m h h' :
  mshr_allocate now addr size pkt s wr o m h = Ok h' ->
  moves h h' [] [view_packet (if decide (pk_cmd pkt = HardPFReq) then FromPrefetcher else FromCPU) s pkt].
Proof.
  unfold mshr_allocate. intros E. opens. apply aget_Ok in E0. rename r into x.
  destruct (set_request_fields addr size pkt wr o x) as (_ & Et & Ed & _).
  clear Heqb Heqb0. revert Et Ed E1. generalize (set_request addr size pkt wr o x).
  intros x0 Et Ed E1. apply tl_add_Ok in E1 as (He & _ & El).
  eapply moves_then; [by eapply (moves_same h m x x0); [|unfold lists; rewrite Et, Ed]|].
  eapply moves_store; [by eapply insert_lookup|exact He|exact E2| |done].
  intros z S. unfold reg_pool, lists. cbn.
  rewrite El, <- (same_reg_use deferredTargets x0 z (fun _ => eq_refl) S), Et, !fmap_app.
  cbn. solve_Permutation.
Qed.

Lemma allocateTarget_moves now pkt s wr o m h h' :
  allocateTarget now pkt s wr o m h = Ok h' ->
  pk_cmd pkt <> HardPFReq /\ moves h h' [] [view_packet FromCPU s pkt].
Proof.
  unfold allocateTarget. intros E. opens; apply aget_Ok in E0; rename r into x;
    (split; [by eapply bool_decide_eq_false_1, negb_true_iff|]);
    match goal with Ea : tl_add _ _ _ _ _ _ _ _ _ = Ok _ |- _ => apply tl_add_Ok in Ea as (He & _ & El) end;
    (eapply moves_store; [exact E0|exact He|exact E| |done]);
    intros z S; unfold reg_pool, lists; cbn; rewrite El, !fmap_app.
  - rewrite <- (same_reg_use targets x z (fun _ => eq_refl) S).
    match goal with |- context [view_target <$> [MkTarget _ _ _ ?q _ _ _]] =>
      change (view_target <$> [MkTarget now wr o q s FromCPU true]) with [view_packet FromCPU s q];
      replace (view_packet FromCPU s q) with (view_packet FromCPU s pkt)
        by (case_match; by rewrite ?replaceUpgrade_view) end.
    solve_Permutation.
  - rewrite <- (same_reg_use deferredTargets x z (fun _ => eq_refl) S). solve_Permutation.
Qed.

Lemma popTarget_pool x x' : popTarget x = Ok x' ->
  exists t ts, tl_list (targets x) = t :: ts /\ reg_pool x ≡ₚ view_target t :: reg_pool x'.
Proof.
  intros (t & ts & E & ->)%popTarget_Ok. exists t, ts. split; [done|].
  unfold reg_pool, lists. rewrite E. done.
Qed.

Lemma pop_moves m h h' : pop_mshr m h = Ok h' ->
  exists x t ts, h !! m = Some x /\ tl_list (targets x) = t :: ts /\ moves h h' [view_target t] [].
Proof.
  unfold pop_mshr. intros E. opens. apply aget_Ok in E0.
  destruct (popTarget_pool _ _ E1) as (t & ts & El & Hp). exists r, t, ts. split_and!; [done..|].
  apply (moves_insert _ _ r); [done|]. rewrite Hp, app_nil_r. solve_Permutation.
Qed.

(** A register that leaves the queue once sent held one request that expects
    no response. *)
Lemma mshr_markInService_moves fuel p m h b h' :
  mshr_markInService fuel p m h = Ok (b, h') ->
  exists gone, moves h h' gone [] /\ Forall (fun v => v_needs v = false) gone.
Proof.
  unfold mshr_markInService, isForwardNoResponse. intros E. opens; apply aget_Ok in E0.
  { destruct (popTarget_pool _ _ E2) as (t' & ts & El & Hp). rewrite Heql in El. injection El as -> ->.
    apply andb_true_iff in E1 as [_ Hn%negb_true_iff].
    exists [view_target t']. split; [|by repeat constructor].
    apply (moves_insert _ _ r); [done|]. rewrite Hp, app_nil_r. solve_Permutation. }
  all: exists []; split; [|done].
  all: try (by eapply moves_same).
  all: eapply moves_then;
    [|apply moves_eqv; eapply tl_clear_Ok; [apply clearDownstreamPending_Ok|eassumption]];
    by eapply moves_same.
Qed.

Lemma mshr_deallocate_lists x x' : mshr_deallocate x = Ok x' -> lists x' = lists x.
Proof. unfold mshr_deallocate. intros E. by opens. Qed.

Lemma promote_lists now x b x' : promoteDeferredTargets now x = Ok (b, x') -> lists x' = lists x.
Proof.
  unfold promoteDeferredTargets, hasTargets. intros E. opens; [done|]. unfold lists. cbn.
  apply negb_true_iff, negb_false_iff, bool_decide_eq_true_1 in Heqb0.
  by rewrite Heqb0, app_nil_r.
Qed.

(** The deferred copy of a snoop joins the targets. *)
Lemma snoop_defer_moves now pkt s o mark m x h ts h1 h2 :
  h !! m = Some x -> tl_add now pkt s now o FromSnoop mark (targets x) h = Ok (ts, h1) ->
  updM m (fun x => x <| targets := ts |>) h1 = Ok h2 ->
  moves h h2 [] [view_packet FromSnoop s pkt].
Proof.
  intros Hx (He & _ & El)%tl_add_Ok Hu. eapply moves_store; [exact Hx|exact He|exact Hu| |done].
  intros z S. unfold reg_pool, lists. cbn.
  rewrite El, <- (same_reg_use deferredTargets x z (fun _ => eq_refl) S), !fmap_app.
  cbn. solve_Permutation.
Qed.

Lemma snoop_moves now pkt s ex o m h b pkt' h' :
  mshr_handleSnoop now pkt s ex o m h = Ok (b, pkt', h') ->
  exists new, moves h h' [] new /\ Forall (fun v => v_source v = FromSnoop) new.
Proof.
  assert (Hr : forall x, reg_pool (x <| deferredTargets ::= replaceUpgrades |>) = reg_pool x).
  { intros x. unfold reg_pool, lists. cbn. by rewrite !fmap_app, replaceUpgrades_view. }
  assert (Ht : forall x, reg_pool (x <| targets ::= replaceUpgrades |>) = reg_pool x).
  { intros x. unfold reg_pool, lists. cbn. by rewrite !fmap_app, replaceUpgrades_view. }
  assert (Hi : forall x x', h !! m = Some x -> reg_pool x' = reg_pool x -> moves h (<[m := x']> h) [] []).
  { intros x x' Hx E. apply (moves_insert _ _ x); [done|]. by rewrite E. }
  unfold mshr_handleSnoop. intros E. run_in E. apply aget_Ok in E0. rename r into x.
  destruct (negb (inService x) || _).
  { run_in E. exists []. split; [|done]. apply (Hi x); [done|].
    case_match; [|done].
    exact (eq_trans (Hr (x <| targets ::= replaceUpgrades |>)) (Ht x)). }
  cbv zeta in E. set (x0 := if needsExclusive _ then _ else _) in *.
  assert (H0 : moves h (<[m := x0]> h) [] []).
  { apply (Hi x); [done|]. unfold x0. case_match; [by rewrite Hr|done]. }
  pose proof (insert_lookup m h x0 x E0) as Hx0. revert H0 Hx0 E. generalize (<[m := x0]> h).
  clearbody x0. clear Hi E0. intros h0 H0 Hx0 E.
  assert (Hu : forall f g h1 h2 n, updM m f h1 = Ok h2 -> (forall x, lists (f x) = lists x) ->
    moves h h1 g n -> moves h h2 g n).
  { intros f g h1 h2 n Hf Hl Hm. eapply moves_after; [exact Hm|]. by eapply moves_updM. }
  assert (Hd : forall mark ts h1 h2,
    tl_add now (copy_packet pkt) s now o FromSnoop mark (targets x0) h0 = Ok (ts, h1) ->
    updM m (fun x => x <| targets := ts |>) h1 = Ok h2 ->
    moves h h2 [] [view_packet FromSnoop s (copy_packet pkt)]).
  { intros mark ts h1 h2 E1 E2. eapply moves_then; [exact H0|]. by eapply snoop_defer_moves. }
  opens; try (by exists []).
  - exists [view_packet FromSnoop s (copy_packet pkt)]. split; [|by repeat constructor].
    eapply (Hu _ _ _ _ _ E4); [done|]. by eapply Hd.
  - exists [view_packet FromSnoop s (copy_packet pkt)]. split; [|by repeat constructor].
    eapply (Hu _ _ _ _ _ E3); [done|]. by eapply Hd.
  - exists []. split; [|done]. by eapply (Hu _ _ _ _ _ E3).
Qed.

Lemma handleFill_moves fuel pkt m h h' : mshr_handleFill fuel pkt m h = Ok h' -> moves h h' [] [].
Proof.
  unfold mshr_handleFill. intros E. run_in E. apply aget_Ok in E0. rename r into x.
  destruct (sharedAsserted pkt); [run_in E; apply moves_refl|].
  run_in E. destruct (negb r0 && _); [|run_in E; apply moves_refl]. run_in E.
  eapply moves_then; [by eapply (moves_same h m x (x <| targets ::= set_field tl_needsExclusive (fun _ => true) |>))|].
  eapply moves_then; [apply moves_eqv; eapply tl_clear_Ok; [apply clearDownstreamPending_Ok|eassumption]|].
  eapply moves_updM; [done|]. intros y. unfold lists. cbn. by rewrite app_nil_r.
Qed.

(** ** Operations on the queue *)

Lemma allocate_moves now addr size pkt s wr o q h m q' h' :
  allocate_mshr now addr size pkt s wr o q h = Ok (m, q', h') ->
  moves h h' [] [view_packet (if decide (pk_cmd pkt = HardPFReq) then FromPrefetcher else FromCPU) s pkt]
  /\ allocated q' = allocated q + 1 /\ numEntries q' = numEntries q /\ numReserve q' = numReserve q.
Proof.
  unfold allocate_mshr, addToReadyList. intros E. opens;
    (split; [by eapply mshr_allocate_moves|done]).
Qed.

Lemma deallocateOne_moves m q h q' h' : deallocateOne m q h = Ok (q', h') ->
  moves h h' [] [] /\ allocated q' = allocated q - 1 /\ numEntries q' = numEntries q /\
  numReserve q' = numReserve q.
Proof.
  unfold deallocateOne. intros E. opens;
    (split; [eapply moves_same; [by apply aget_Ok|by eapply mshr_deallocate_lists]|done]).
Qed.

Lemma markInService_moves fuel p m q h q' h' : markInService fuel p m q h = Ok (q', h') ->
  (exists gone, moves h h' gone [] /\ Forall (fun v => v_needs v = false) gone) /\
  allocated q' <= allocated q /\ numEntries q' = numEntries q /\ numReserve q' = numReserve q.
Proof.
  unfold markInService. intros E. opens; apply mshr_markInService_moves in E0 as (g & Hg & Hn).
  - apply deallocateOne_moves in E as (Hd & ? & ? & ?). split; [|lia].
    exists g. split; [by eapply moves_after|done].
  - split; [by exists g|cbn; lia].
Qed.

Lemma markPending_moves m q h q' h' : markPending m q h = Ok (q', h') ->
  moves h h' [] [] /\ allocated q' = allocated q /\ numEntries q' = numEntries q /\
  numReserve q' = numReserve q.
Proof.
  unfold markPending, addToReadyList. intros E. opens;
    (split; [eapply moves_same; [by apply aget_Ok|done]|done]).
Qed.

Lemma forceDeallocateTarget_moves now m q h b q' h' :
  forceDeallocateTarget now m q h = Ok (b, q', h') ->
  (exists x t ts, h !! m = Some x /\ tl_list (targets x) = t :: ts /\ moves h h' [view_target t] []) /\
  b = isFull q && negb (isFull q') /\
  allocated q' <= allocated q /\ numEntries q' = numEntries q /\ numReserve q' = numReserve q.
Proof.
  unfold forceDeallocateTarget. intros E. run_in E. apply aget_Ok in E0.
  destruct (popTarget_pool _ _ E2) as (t & ts & El & Hp).
  assert (Hl : lists m0 = lists r0).
  { destruct (hasTargets r0); [by run_in E3|]. by eapply promote_lists. }
  assert (Hm : moves h (<[m := m0]> h) [view_target t] []).
  { apply (moves_insert _ _ r); [done|]. unfold reg_pool at 1. rewrite Hl. fold (reg_pool r0).
    rewrite Hp, app_nil_r. solve_Permutation. }
  destruct b0; run_in E4.
  - split; [by exists r, t, ts|]. split_and!; done || lia.
  - apply deallocateOne_moves in E4 as (Hd & ? & ? & ?).
    split; [|split_and!; done || lia]. exists r, t, ts. split_and!; [done..|]. by eapply moves_after.
Qed.
