(* ===== verification/TimingLaws.v ===== *)
(** The books of a cache in timing mode, over any sequence of events: every
    request it takes is answered exactly once or still waits for its answer,
    and it is blocked exactly for the causes that hold. *)
From S2P Require Import Prelude MemTypes Blk SetAssoc Policy Memory Mshr Queue Cache CacheSide.
From S2P Require Import PacketQueue CacheBase Snoop Timing Frames Ledger.

#[local] Open Scope Z_scope.

(** ** Requests and answers *)

(** Who asked, for what, and the register of the cache above that waits. *)
Definition Token : Type := (Z * Z * bool * Request) * option nat.
Definition token_of (p : TPkt) : Token := (identity (tp_pkt p), tp_sender p).

(** A target that will be answered when its register is served: not that of a
    snoop, of a prefetch of the cache itself, or of a software prefetch, which
    the top level has answered already. *)
Definition expects (top : bool) (v : TargetView) : bool :=
  bool_decide (v_source v = FromCPU) && v_needs v && negb (v_soft v && top).
Definition owed (top : bool) (vs : list TargetView) : list Token :=
  (fun v => (v_identity v, v_sender v)) <$> filter (fun v => expects top v = true) vs.

Lemma owed_app top l1 l2 : owed top (l1 ++ l2) = owed top l1 ++ owed top l2.
Proof. unfold owed. by rewrite filter_app, fmap_app. Qed.
#[export] Instance owed_proper top : Proper (Permutation ==> Permutation) (owed top).
Proof. intros l1 l2 E. unfold owed. by rewrite E. Qed.
Lemma owed_none top l : Forall (fun v => expects top v = false) l -> owed top l = [].
Proof.
  unfold owed. induction 1 as [|v l Hv _ IH]; [done|].
  by rewrite filter_cons_False by (by rewrite Hv).
Qed.

(** ** Why a cache is blocked *)

Definition cause_holds {T} (t : TCache T) (c : BlockedCause) : bool :=
  match c with
  | Blocked_NoMSHRs => isFull (mshrQueue (tc t))
  | Blocked_NoWBBuffers => isFull (writeBuffer t)
  | Blocked_NoTargets => bool_decide (noTargetMSHR t <> None)
  | _ => Z.testbit (blocked t) (cause_number c)
  end.

(** The mask of causes says [f], and the port is closed when there is one. *)
Record blocked_for {T} (f : BlockedCause -> bool) (t : TCache T) : Prop := {
  bf_bits c : c <> NUM_BLOCKED_CAUSES -> Z.testbit (blocked t) (cause_number c) = f c;
  bf_range : 0 <= blocked t < 2 ^ 4;
  bf_port : port_blocked (port t) = isBlocked t;
  bf_event : port_blocked (port t) = true -> sendRetryEvent (port t) = None;
  bf_retry : mustSendRetry (port t) = true -> isBlocked t = true \/ sendRetryEvent (port t) <> None
}.

Definition backpressure {T} (t : TCache T) : Prop := blocked_for (cause_holds t) t.

(** ** One step of the books *)

(** A queue that will send again by itself. *)
Definition awake {A} (q : PacketQueue A) : Prop := waitingOnRetry q = true \/ sendEvent q <> None.

Definition top_level {T} (t : TCache T) : bool := isTopLevel (par (tc t)).

(** What is owed: the targets that wait, and the answers not yet taken. *)
Definition debt {T} (t : TCache T) : list Token :=
  owed (top_level t) (pool (regs t)) ++
  ((fun d => token_of (dp_pkt d)) <$> transmitList (cpuSide t)).

Definition soft_only (v : TargetView) : Prop := v_source v = FromCPU -> v_hard v = false.

(** From [t] to [t'], the tokens [gone] leave and the tokens [new] arrive. *)
Record moved {T} (gone new : list Token) (t t' : TCache T) : Prop := {
  mv_debt : debt t' ++ gone ≡ₚ debt t ++ new;
  mv_soft : Forall soft_only (pool (regs t)) -> Forall soft_only (pool (regs t'));
  mv_blocked : backpressure t -> backpressure t';
  mv_par : par (tc t') = par (tc t);
  mv_base : wb_base t' = wb_base t;
  mv_awake : awake (memSide t) -> awake (memSide t')
}.

(** The same, whatever becomes of the memory side. *)
Record passed {T} (gone new : list Token) (t t' : TCache T) : Prop := {
  ps_debt : debt t' ++ gone ≡ₚ debt t ++ new;
  ps_soft : Forall soft_only (pool (regs t)) -> Forall soft_only (pool (regs t'));
  ps_blocked : backpressure t -> backpressure t'
}.

Definition queues {T} (t : TCache T) : MSHRQueue * MSHRQueue := (mshrQueue (tc t), writeBuffer t).
Definition quiet {T} (gone new : list Token) (t t' : TCache T) : Prop :=
  moved gone new t t' /\ queues t' = queues t.
Definition calm {T} (gone new : list Token) (t t' : TCache T) : Prop :=
  quiet gone new t t' /\ regs t' = regs t.

Section laws.
Context {T : Type}.
Implicit Types (t : TCache T) (g n : list Token).

Lemma moved_nothing t : moved [] [] t t.
Proof. by split. Qed.

Lemma moved_trans t1 t2 t3 g1 n1 g2 n2 :
  moved g1 n1 t1 t2 -> moved g2 n2 t2 t3 -> moved (g1 ++ g2) (n1 ++ n2) t1 t3.
Proof.
  intros [D1 S1 B1 P1 W1 A1] [D2 S2 B2 P2 W2 A2].
  split; [|by auto|by auto|congruence|congruence|by auto].
  apply (Permutation_app_inv_l (debt t2)).
  transitivity ((debt t3 ++ g2) ++ (debt t2 ++ g1)); [solve_Permutation|].
  rewrite D1, D2. solve_Permutation.
Qed.

Lemma moved_then t1 t2 t3 g n : moved [] [] t1 t2 -> moved g n t2 t3 -> moved g n t1 t3.
Proof. intros H1 H2. exact (moved_trans _ _ _ _ _ _ _ H1 H2). Qed.
Lemma moved_after t1 t2 t3 g n : moved g n t1 t2 -> moved [] [] t2 t3 -> moved g n t1 t3.
Proof.
  intros H1 H2. pose proof (moved_trans _ _ _ _ _ _ _ H1 H2) as H3. by rewrite !app_nil_r in H3.
Qed.

Lemma quiet_refl t : quiet [] [] t t.
Proof. split; [apply moved_nothing|done]. Qed.
Lemma quiet_trans t1 t2 t3 g1 n1 g2 n2 :
  quiet g1 n1 t1 t2 -> quiet g2 n2 t2 t3 -> quiet (g1 ++ g2) (n1 ++ n2) t1 t3.
Proof. intros [M1 Q1] [M2 Q2]. split; [by eapply moved_trans|congruence]. Qed.
Lemma quiet_then t1 t2 t3 g n : quiet [] [] t1 t2 -> quiet g n t2 t3 -> quiet g n t1 t3.
Proof. intros H1 H2. exact (quiet_trans _ _ _ _ _ _ _ H1 H2). Qed.
Lemma quiet_after t1 t2 t3 g n : quiet g n t1 t2 -> quiet [] [] t2 t3 -> quiet g n t1 t3.
Proof.
  intros H1 H2. pose proof (quiet_trans _ _ _ _ _ _ _ H1 H2) as H3. by rewrite !app_nil_r in H3.
Qed.

Lemma calm_refl t : calm [] [] t t.
Proof. split; [apply quiet_refl|done]. Qed.
Lemma calm_then t1 t2 t3 g n : calm [] [] t1 t2 -> calm g n t2 t3 -> calm g n t1 t3.
Proof. intros [Q1 R1] [Q2 R2]. split; [by eapply quiet_then|congruence]. Qed.

(** A change of the registers, the blocking books being settled apart. *)
Lemma moved_regs t t' gone new :
  moves (regs t) (regs t') gone new -> Forall soft_only new ->
  cpuSide t' = cpuSide t -> par (tc t') = par (tc t) -> wb_base t' = wb_base t ->
  (backpressure t -> backpressure t') -> (awake (memSide t) -> awake (memSide t')) ->
  moved (owed (top_level t) gone) (owed (top_level t) new) t t'.
Proof.
  intros Hm Hn Hc Hp Hw Hb Ha. split; try done.
  - unfold debt, top_level in *. rewrite Hc, Hp. unfold moves in Hm.
    set (A := (fun d => token_of (dp_pkt d)) <$> transmitList (cpuSide t)).
    transitivity (owed (isTopLevel (par (tc t))) (pool (regs t') ++ gone) ++ A);
      [rewrite owed_app; solve_Permutation|].
    rewrite Hm, owed_app. solve_Permutation.
  - intros Hs. unfold moves in Hm.
    assert (Forall soft_only (pool (regs t') ++ gone)) as Hf.
    { rewrite Hm. by apply Forall_app. }
    by apply Forall_app in Hf as [? _].
Qed.

(** A change of the cache proper. *)
Lemma moved_cache t ch : books ch = books (tc t) -> calm [] [] t (t <| tc := ch |>).
Proof.
  unfold books. intros [= E1 E2 E3]. split; [|by unfold regs; cbn].
  split; [|by unfold queues; cbn; rewrite E2].
  apply (moved_regs t (t <| tc := ch |>) [] []); try done.
  - unfold regs. cbn. rewrite E1. apply moves_refl.
  - intros [Hb Hr Hp He]. split; try done. intros c Hc. etransitivity; [exact (Hb c Hc)|].
    destruct c; try done. cbn. by rewrite E2.
Qed.

Lemma moved_on_cache (f : Cache T -> outcome (Cache T)) t t' :
  (forall ch ch', f ch = Ok ch' -> books ch' = books ch) -> on_cache f t = Ok t' ->
  calm [] [] t t'.
Proof. unfold on_cache. intros Hf E. opens. apply moved_cache. by apply Hf. Qed.

(** *** The ports *)

Lemma schedSendTiming_perm {A} now ex (pkt : A) when sn q q' :
  schedSendTiming now ex pkt when sn q = Ok q' ->
  transmitList q' ≡ₚ transmitList q ++ [MkDeferred when pkt sn].
Proof.
  assert (Hi : forall (d : DeferredPacket A) l, insert_deferred d l ≡ₚ l ++ [d]).
  { intros d l. induction l as [|x l IH]; cbn [insert_deferred app]; [done|].
    case_match; [by rewrite IH|]. solve_Permutation. }
  unfold schedSendTiming. intros E. opens; try match goal with
    | E : schedSendEvent _ _ _ = Ok _ |- _ => apply schedSendEvent_list in E as [E _]; rewrite E end;
    cbn; try match goal with E : transmitList q = _ |- _ => rewrite E end; try done.
  - cbn. by rewrite Permutation_cons_append.
  - by rewrite Hi.
Qed.

Lemma schedSendEvent_awake {A} now when (q q' : PacketQueue A) :
  schedSendEvent now when q = Ok q' -> awake q'.
Proof.
  unfold schedSendEvent, set_event, awake. intros E. opens; cbn; try (by left); right; congruence.
Qed.
Lemma schedSendTiming_awake {A} now ex (pkt : A) when sn q q' :
  schedSendTiming now ex pkt when sn q = Ok q' -> awake q -> awake q'.
Proof. unfold schedSendTiming. intros E Ha. opens; try done; by eapply schedSendEvent_awake. Qed.

Lemma moved_respond env pkt when t t' : schedTimingResp env pkt when t = Ok t' ->
  calm [] [token_of pkt] t t'.
Proof.
  unfold schedTimingResp. intros E. opens. apply schedSendTiming_perm in E0.
  split; [|done]. split; [|done]. split; try done.
  - unfold debt. cbn. rewrite E0, fmap_app. unfold top_level. cbn. solve_Permutation.
  - by intros [].
Qed.

(** The queue of the memory side and the log of direct sends carry no debt. *)
Lemma moved_mem q t : (awake (memSide t) -> awake q) -> calm [] [] t (t <| memSide := q |>).
Proof. split; [|done]. split; [|done]. split; try done. by intros []. Qed.
Lemma moved_direct l t : calm [] [] t (t <| toMem := l |>).
Proof. split; [|done]. split; [|done]. split; try done. by intros []. Qed.

Lemma moved_snoop_resp env pkt when t t' : schedTimingSnoopResp env pkt when t = Ok t' ->
  calm [] [] t t'.
Proof.
  unfold schedTimingSnoopResp. intros E. opens. apply moved_mem. by eapply schedSendTiming_awake.
Qed.

Lemma requestMemSideBus_awake env time t t' : requestMemSideBus env time t = Ok t' -> awake (memSide t').
Proof. unfold requestMemSideBus. intros E. opens. by eapply schedSendEvent_awake. Qed.
Lemma moved_request env time t t' : requestMemSideBus env time t = Ok t' -> calm [] [] t t'.
Proof.
  intros E. pose proof (requestMemSideBus_awake _ _ _ _ E). unfold requestMemSideBus in E. opens.
  by apply moved_mem.
Qed.

Lemma moved_stats s t : calm [] [] t (t <| t_stats := s |>).
Proof. split; [|done]. split; [|done]. split; try done. by intros []. Qed.

(** *** Blocking *)

(** What [setBlocked] and [clearBlocked] leave alone. *)
Definition same_state t t' : Prop :=
  tc t' = tc t /\ writeBuffer t' = writeBuffer t /\ wb_base t' = wb_base t /\
  noTargetMSHR t' = noTargetMSHR t /\ cpuSide t' = cpuSide t /\ memSide t' = memSide t.

Definition with_cause (c : BlockedCause) (b : bool) (f : BlockedCause -> bool)
    : BlockedCause -> bool := fun c' => if decide (c = c') then b else f c'.

Lemma nibble_cases b : 0 <= b < 2 ^ 4 -> b ∈ seqZ 0 16.
Proof. intros. apply elem_of_seqZ. lia. Qed.

Lemma mask_set b c : 0 <= b < 2 ^ 4 -> c <> NUM_BLOCKED_CAUSES ->
  let b' := Z.lor b (u8 (Z.shiftl 1 (cause_number c))) in
  0 <= b' < 2 ^ 4 /\ b' <> 0 /\ forall c', c' <> NUM_BLOCKED_CAUSES ->
    Z.testbit b' (cause_number c') = with_cause c true (fun c' => Z.testbit b (cause_number c')) c'.
Proof.
  intros Hb%nibble_cases Hc. vm_compute in Hb.
  repeat (apply elem_of_cons in Hb as [->|Hb]; [destruct c; try done;
    (split; [vm_compute; split; congruence|split; [by vm_compute|]]); by intros []|]).
  by apply elem_of_nil in Hb.
Qed.

Lemma mask_clear b c : 0 <= b < 2 ^ 4 -> c <> NUM_BLOCKED_CAUSES ->
  let b' := Z.land b (u8 (Z.lnot (u8 (Z.shiftl 1 (cause_number c))))) in
  0 <= b' < 2 ^ 4 /\ (Z.testbit b (cause_number c) = true -> b <> 0) /\
  forall c', c' <> NUM_BLOCKED_CAUSES ->
    Z.testbit b' (cause_number c') = with_cause c false (fun c' => Z.testbit b (cause_number c')) c'.
Proof.
  intros Hb%nibble_cases Hc. vm_compute in Hb.
  repeat (apply elem_of_cons in Hb as [->|Hb]; [destruct c; try done;
    (split; [vm_compute; split; congruence|split; [by vm_compute|]]); by intros []|]).
  by apply elem_of_nil in Hb.
Qed.

Lemma setBlocked_Ok env c f t t' : c <> NUM_BLOCKED_CAUSES -> setBlocked env c t = Ok t' ->
  same_state t t' /\ (blocked_for f t -> blocked_for (with_cause c true f) t').
Proof.
  intros Hc E. unfold setBlocked, port_setBlocked in E.
  assert (S : same_state t t') by (opens; by repeat split). split; [exact S|].
  intros [Hb Hr Hp He Hm]. destruct (mask_set (blocked t) c Hr Hc) as (Hr' & Hn & Hb').
  assert (Hbl : blocked t' = Z.lor (blocked t) (u8 (Z.shiftl 1 (cause_number c)))) by (by opens).
  assert (Hbp : isBlocked t' = true) by (unfold isBlocked; rewrite Hbl; by apply negb_true_iff, Z.eqb_neq).
  split; try (by rewrite Hbl).
  - intros c' Hc'. rewrite Hbl, Hb' by done. unfold with_cause. case_decide; [done|by apply Hb].
  - rewrite Hbp. unfold isBlocked in Hp. clear -E Hp. opens; cbn; try done; by rewrite Hp, Heqb.
  - clear -E He. opens; cbn; try done.
  - by left.
Qed.

Lemma clearBlocked_Ok env c f t t' : c <> NUM_BLOCKED_CAUSES -> clearBlocked env c t = Ok t' ->
  same_state t t' /\ (blocked_for f t -> blocked_for (with_cause c false f) t').
Proof.
  intros Hc E. unfold clearBlocked, port_clearBlocked in E.
  assert (S : same_state t t') by (opens; by repeat split). split; [exact S|].
  intros [Hb Hr Hp He Hm]. destruct (mask_clear (blocked t) c Hr Hc) as (Hr' & _ & Hb').
  assert (Hbl : blocked t' = Z.land (blocked t) (u8 (Z.lnot (u8 (Z.shiftl 1 (cause_number c))))))
    by (by opens).
  split; try (by rewrite Hbl).
  - intros c' Hc'. rewrite Hbl, Hb' by done. unfold with_cause. case_decide; [done|by apply Hb].
  - unfold isBlocked in *. rewrite Hbl. destruct (Z.eqb_spec (blocked t) 0) as [E0|E0].
    + clear -E Hp E0. opens; cbn in *; rewrite ?E0 in *; cbn in *; try congruence; by destruct c.
    + clear -E Hp E0. cbn [negb] in Hp.
      opens; cbn in *; repeat match goal with E : (_ =? 0) = _ |- _ => rewrite E end; done.
  - clear -E He. opens; cbn in *; done.
  - clear -E Hm. unfold isBlocked in *. opens; cbn in *;
      repeat match goal with E : (_ =? 0) = _ |- _ => rewrite E end; try (by left); try congruence; by right.
Qed.

(** *** Operations that keep both books *)

Lemma blocked_ext f f' t : (forall c, c <> NUM_BLOCKED_CAUSES -> f c = f' c) ->
  blocked_for f t -> blocked_for f' t.
Proof. intros Hf [Hb ? ? ? ?]. split; try done. intros c Hc. by rewrite <- Hf, Hb. Qed.

(** A step that leaves the blocking state of the port alone. *)
Definition same_port t t' : Prop :=
  blocked t' = blocked t /\ port t' = port t.
Lemma blocked_same f t t' : same_port t t' -> blocked_for f t -> blocked_for f t'.
Proof. intros [E1 E2] []. unfold isBlocked in *. split; unfold isBlocked; rewrite ?E1, ?E2; done. Qed.

(** [backpressure] after a step, from the mask before and what has changed. *)
Lemma backpressure_of f t : blocked_for f t ->
  f Blocked_NoMSHRs = isFull (mshrQueue (tc t)) -> f Blocked_NoWBBuffers = isFull (writeBuffer t) ->
  f Blocked_NoTargets = bool_decide (noTargetMSHR t <> None) -> backpressure t.
Proof.
  intros Hf E0 E1 E2. apply (blocked_ext f); [|done]. intros [] Hc; try done.
  cbn. by rewrite <- (bf_bits f t Hf).
Qed.

Lemma moved_state t t' : same_state t t' -> (backpressure t -> backpressure t') -> calm [] [] t t'.
Proof.
  intros (E1 & E2 & E3 & E4 & E5 & E6) Hb. split; [|by unfold regs; rewrite E1]. split; [|by unfold queues; rewrite E1, E2].
  apply (moved_regs t t' [] []); unfold regs; rewrite ?E1, ?E6; try done. apply moves_refl.
Qed.

Lemma get_set_queue i q h t : get_queue i (set_queue i q h t) = q.
Proof. by destruct i. Qed.

Lemma queue_cause_named i : queue_cause i <> NUM_BLOCKED_CAUSES.
Proof. by destruct i. Qed.

Lemma set_queue_fields i q h t : regs (set_queue i q h t) = h /\ par (tc (set_queue i q h t)) = par (tc t) /\
  wb_base (set_queue i q h t) = wb_base t /\ cpuSide (set_queue i q h t) = cpuSide t /\
  noTargetMSHR (set_queue i q h t) = noTargetMSHR t /\ same_port t (set_queue i q h t) /\
  memSide (set_queue i q h t) = memSide t.
Proof. by destruct i. Qed.

(** A queue that changed, and the flag for it as its new state demands. *)
Lemma queue_backpressure i q h t t1 t2 (b : bool) :
  tc t1 = tc (set_queue i q h t) -> writeBuffer t1 = writeBuffer (set_queue i q h t) ->
  noTargetMSHR t1 = noTargetMSHR t -> same_state t1 t2 ->
  blocked_for (with_cause (queue_cause i) b (cause_holds t)) t2 -> b = isFull q -> backpressure t2.
Proof.
  intros E1 E2 E3 (S1 & S2 & S3 & S4 & S5 & S6) Hb ->. apply (backpressure_of _ _ Hb); rewrite ?S1, ?S2, ?S4, ?E1, ?E2, ?E3;
    by destruct i.
Qed.

Lemma with_cause_same f c t : blocked_for f t -> blocked_for (with_cause c (f c) f) t.
Proof. intros Hb. apply (blocked_ext f); [|done]. intros c' _. unfold with_cause. by case_decide; subst. Qed.

(** The source [MSHR::allocate] gives its target. *)
Definition source_of (p : CPkt) : Source :=
  if decide (pk_cmd p = HardPFReq) then FromPrefetcher else FromCPU.

Lemma source_of_soft s p : soft_only (view_packet (source_of p) s p).
Proof.
  unfold soft_only, view_packet, source_of. cbn. case_decide; [done|].
  intros _. by apply bool_decide_eq_false_2.
Qed.

Lemma allocate_moved env i addr size pkt time rq t t' m :
  allocateBufferInternal env i addr size pkt time rq t = Ok (t', m) ->
  moved [] (owed (top_level t) [view_packet (source_of (tp_pkt pkt)) (tp_sender pkt) (tp_pkt pkt)]) t t'.
Proof.
  unfold allocateBufferInternal. intros E. run_in E. rename m0 into q, l into h, r into t2.
  apply allocate_moves in E0 as (Hm & Ha & He & Hr). fold (source_of (tp_pkt pkt)) in Hm.
  set (t1 := next_order (set_queue i q h t)) in *.
  destruct (set_queue_fields i q h t) as (F1 & F2 & F3 & F4 & F5 & F6 & F7).
  assert (Hq1 : get_queue i t1 = q) by (by destruct i). rewrite Hq1 in E1.
  eapply (moved_after _ t2).
  2: { destruct rq; [by eapply moved_request|]. injection E2 as <-. apply moved_nothing. }
  assert (Hs : same_state t1 t2 /\ (backpressure t -> backpressure t2)).
  { destruct (isFull q) eqn:Ef.
    - destruct (setBlocked_Ok env (queue_cause i) (cause_holds t) t1 t2 (queue_cause_named i) E1) as [S Hb].
      split; [done|]. intros Hbp. eapply (queue_backpressure i q h t t1); try done.
      by apply Hb, (blocked_same _ t).
    - injection E1 as <-. split; [done|]. intros Hbp.
      eapply (queue_backpressure i q h t t1 t1 false); try done. apply (blocked_same _ t); [done|].
      pose proof (with_cause_same _ (queue_cause i) _ Hbp) as Hw.
      replace (cause_holds t (queue_cause i)) with false in Hw; [done|]. symmetry.
      unfold isFull in *. destruct i; cbn in *; unfold isFull; apply Z.ltb_ge; apply Z.ltb_ge in Ef; lia. }
  destruct Hs as [(S1 & S2 & S3 & S4 & S5 & S6) Hbp].
  apply (moved_regs t t2 []); unfold regs; rewrite ?S1, ?S3, ?S5, ?S6; try done.
  - change (moves (regs t) (regs (set_queue i q h t)) []
      [view_packet (source_of (tp_pkt pkt)) (tp_sender pkt) (tp_pkt pkt)]). by rewrite F1.
  - constructor; [apply source_of_soft|done].
  - change (memSide t1) with (memSide (set_queue i q h t)). by rewrite F7.
Qed.

(** A queue that shrank, and the flag that is lowered when it was full. *)
Lemma shrink_backpressure env i q h t t2 (wasFull : bool) :
  wasFull = isFull (get_queue i t) ->
  allocated q <= allocated (get_queue i t) -> numEntries q = numEntries (get_queue i t) ->
  numReserve q = numReserve (get_queue i t) ->
  (let t1 := set_queue i q h t in
   if wasFull && negb (isFull (get_queue i t1)) then clearBlocked env (queue_cause i) t1 else Ok t1)
  = Ok t2 ->
  same_state (set_queue i q h t) t2 /\ (backpressure t -> backpressure t2).
Proof.
  cbv zeta. intros -> Ha He Hr. rewrite get_set_queue.
  destruct (set_queue_fields i q h t) as (_ & _ & _ & _ & _ & F6 & _).
  assert (Hno : isFull (get_queue i t) = false -> isFull q = false).
  { unfold isFull. intros Hf. apply Z.ltb_ge. apply Z.ltb_ge in Hf. lia. }
  destruct (isFull (get_queue i t)) eqn:E0, (isFull q) eqn:E1; cbn [andb negb]; intros E;
    try by (specialize (Hno eq_refl)).
  2: { destruct (clearBlocked_Ok env (queue_cause i) (cause_holds t) _ t2 (queue_cause_named i) E)
         as [S Hb]. split; [done|]. intros Hbp.
       eapply (queue_backpressure i q h t (set_queue i q h t) t2 false);
         [done|done|by destruct i|exact S|by apply Hb, (blocked_same _ t)|done]. }
  all: injection E as <-; split; [done|]; intros Hbp;
    (eapply (queue_backpressure i q h t (set_queue i q h t) _ (isFull q)); [done|done|by destruct i|done| |done]);
    apply (blocked_same _ t); [done|]; pose proof (with_cause_same _ (queue_cause i) _ Hbp) as Hw;
    replace (cause_holds t (queue_cause i)) with (isFull q) in Hw by (destruct i; cbn in *; congruence);
    by rewrite ?E1 in Hw |- *.
Qed.

(** The registers of [t] went to [h], and the state is otherwise that of the
    queue that was put back. *)
Lemma moved_queue i q h t t2 gone new :
  moves (regs t) h gone new -> Forall soft_only new -> same_state (set_queue i q h t) t2 ->
  (backpressure t -> backpressure t2) ->
  moved (owed (top_level t) gone) (owed (top_level t) new) t t2.
Proof.
  intros Hm Hn (S1 & S2 & S3 & S4 & S5 & S6) Hb. destruct (set_queue_fields i q h t) as (F1 & F2 & F3 & F4 & F5 & F6 & F7).
  apply moved_regs; unfold regs in *; rewrite ?S1, ?S3, ?S5, ?S6, ?F1, ?F7; done.
Qed.

Lemma owed_silent top gone : Forall (fun v => v_needs v = false) gone -> owed top gone = [].
Proof.
  intros Hg. apply owed_none. eapply Forall_impl; [exact Hg|]. cbn. intros v Hv.
  unfold expects. by rewrite Hv, andb_false_r.
Qed.

Lemma markInService_moved env m p t t' : markInServiceInternal env m p t = Ok t' -> moved [] [] t t'.
Proof.
  unfold markInServiceInternal. intros E. run_in E.
  apply markInService_moves in E0 as ((gone & Hm & Hg) & Ha & He & Hr).
  destruct (shrink_backpressure env (queue_of m t) m0 l t t' _ eq_refl Ha He Hr E) as [S Hb].
  pose proof (moved_queue (queue_of m t) m0 l t t' gone [] Hm ltac:(done) S Hb) as M.
  by rewrite (owed_silent _ gone Hg) in M.
Qed.

Lemma allocateWriteBuffer_moved env pkt time rq t t' m :
  allocateWriteBuffer env pkt time rq t = Ok (t', m) ->
  moved [] (owed (top_level t) [view_packet (source_of (tp_pkt pkt)) (tp_sender pkt) (tp_pkt pkt)]) t t'.
Proof. unfold allocateWriteBuffer. intros E. opens. by eapply allocate_moved. Qed.

Lemma owed_writeback top s p : pk_cmd p = Writeback -> owed top [view_packet (source_of p) s p] = [].
Proof.
  intros Hc. apply owed_silent. constructor; [|done]. unfold view_packet. cbn. by rewrite Hc.
Qed.

Lemma allocate_wbs_moved env wbs time t t' :
  Forall (fun w => pk_cmd w = Writeback) wbs -> allocate_writebacks env wbs time t = Ok t' ->
  moved [] [] t t'.
Proof.
  unfold allocate_writebacks. intros Hw. revert t. induction Hw as [|w wbs Hc _ IH]; intros t E;
    cbn [foldO] in E; [injection E as <-; apply moved_nothing|].
  run_in E. run_in E0. eapply moved_then; [|by apply IH].
  match goal with E : allocateWriteBuffer _ _ _ _ _ = Ok _ |- _ =>
    apply allocateWriteBuffer_moved in E as M end.
  by rewrite owed_writeback in M.
Qed.
End laws.

(** ** Write-backs are write-backs *)

Section writebacks.
Context {T M : Type} `{Policy T} `{MemSide M}.
Implicit Types (ch : Cache T) (m : M) (p : CPkt).
Abbreviation all_writebacks := (Forall (fun w : CPkt => pk_cmd w = Writeback)).

Lemma writebackBlk_cmd env r ch ch' w : writebackBlk env r ch = Ok (ch', w) -> pk_cmd w = Writeback.
Proof. unfold writebackBlk. intros E. opens; by case_match. Qed.

Lemma allocateBlock_wbs env a wbs ch ch' o wbs' : allocateBlock env a wbs ch = Ok (ch', o, wbs') ->
  all_writebacks wbs -> all_writebacks wbs'.
Proof.
  unfold allocateBlock. intros E Hw. opens; try done.
  apply Forall_app. split; [done|]. constructor; [by eapply writebackBlk_cmd|done].
Qed.

Lemma handleFill_wbs env l p o wbs ch ch' b wbs' : handleFill env l p o wbs ch = Ok (ch', b, wbs') ->
  all_writebacks wbs -> all_writebacks wbs'.
Proof.
  unfold handleFill, fill_target. intros E Hw. opens; try done; by eapply allocateBlock_wbs.
Qed.

Lemma release_temp_wbs env wbs ch ch' wbs' : release_temp env wbs ch = Ok (ch', wbs') ->
  all_writebacks wbs -> all_writebacks wbs'.
Proof.
  unfold release_temp. intros E Hw. opens; try done.
  apply Forall_app. split; [done|]. constructor; [by eapply writebackBlk_cmd|done].
Qed.

Lemma access_wbs env f p wbs ch m a : access env f p wbs ch m = Ok a ->
  all_writebacks wbs -> all_writebacks (a_wbs a).
Proof.
  unfold access, access_whole_line, access_block, place_line. intros E Hw.
  opens; try done; by eapply allocateBlock_wbs.
Qed.
End writebacks.

(** ** The snoop side *)

Section snoops.
Context {T : Type} `{Policy T} `{CpuSide}.
Implicit Types (t : TCache T) (p : CPkt).

Lemma calm_on_cache (f : Cache T -> outcome (Cache T)) t t' :
  (forall ch, Keeps (f ch) ch id) -> on_cache f t = Ok t' -> calm [] [] t t'.
Proof. intros Hf. apply moved_on_cache. intros ch ch'. apply (Hf ch). Qed.

Lemma supply_calm env rp d ac pi t t' : doTimingSupplyResponse env rp d ac pi t = Ok t' -> calm [] [] t t'.
Proof. unfold doTimingSupplyResponse. intros E. opens; by eapply moved_snoop_resp. Qed.

Lemma respond_calm env r s he ti de pi p t t' p' :
  snoop_respond env r s he ti de pi p t = Ok (t', p') -> calm [] [] t t'.
Proof. unfold snoop_respond. intros E. opens; try apply calm_refl; by eapply supply_calm. Qed.

Lemma handleSnoop_calm env p s o ti de pi t t' p' :
  handleSnoop env p s o ti de pi t = Ok (t', p') -> calm [] [] t t'.
Proof.
  unfold handleSnoop. intros E. opens; try apply calm_refl;
  repeat match goal with
  | E : on_cache _ _ = Ok _ |- _ => apply calm_on_cache in E; [|intros; apply _]
  | E : snoop_respond _ _ _ _ _ _ _ _ _ = Ok _ |- _ => apply respond_calm in E
  end; try done; by repeat (eapply calm_then; [eassumption|]).
Qed.

(** Registers change in place. *)
Lemma moved_set_regs h t gone new : moves (regs t) h gone new -> Forall soft_only new ->
  quiet (owed (top_level t) gone) (owed (top_level t) new) t (set_regs h t).
Proof.
  intros Hm Hn. split; [|done]. apply moved_regs; try done. by intros [].
Qed.
Lemma quiet_set_regs h t : moves (regs t) h [] [] -> quiet [] [] t (set_regs h t).
Proof. intros Hm. by apply (moved_set_regs h t [] []). Qed.
Lemma quiet_order t : quiet [] [] t (next_order t).
Proof. split; [|done]. split; try done. by intros []. Qed.

Lemma snoop_writeback_moved env m s p t t' p' :
  snoop_writeback env m s p t = Ok (t', p') -> moved [] [] t t'.
Proof.
  unfold snoop_writeback. intros E. run_in E. apply aget_Ok in E0. rename r into x.
  destruct (tl_list (targets x)) as [|tgt ts] eqn:El; [done|]. run_in E. cbv zeta in *.
  match goal with E : doTimingSupplyResponse _ _ _ _ _ (set_regs ?h _) = Ok _ |- _ =>
    assert (Hq : quiet [] [] t (set_regs h t)) end.
  { apply quiet_set_regs, (moves_insert _ _ x); [done|]. unfold reg_pool, lists. cbn. rewrite El. cbn.
    apply reflexive_eq. f_equal. clear -E5. by opens. }
  apply supply_calm in E6. eapply moved_then; [exact (proj1 Hq)|].
  eapply moved_then; [exact (proj1 (proj1 E6))|].
  destruct (isInvalidate (pk_cmd p')); [by eapply markInService_moved|injection E7 as <-; apply moved_nothing].
Qed.

Lemma owed_snoop top l : Forall (fun v => v_source v = FromSnoop) l -> owed top l = [].
Proof.
  intros Hl. apply owed_none. eapply Forall_impl; [exact Hl|]. cbn. intros v Hv.
  unfold expects. by rewrite Hv.
Qed.

Lemma mshr_snoop_quiet now p s ex o m t b p' h :
  mshr_handleSnoop now p s ex o m (regs t) = Ok (b, p', h) ->
  quiet [] [] t (next_order (set_regs h t)).
Proof.
  intros (new & Hm & Hn)%snoop_moves. eapply quiet_then; [|apply quiet_order].
  pose proof (moved_set_regs h t [] new Hm) as Q. rewrite (owed_snoop _ new Hn) in Q. apply Q.
  eapply Forall_impl; [exact Hn|]. cbn. unfold soft_only. by intros v ->.
Qed.

Lemma recvTimingSnoopReq_moved env ex p s t t' p' :
  recvTimingSnoopReq env ex p s t = Ok (t', p') -> moved [] [] t t'.
Proof.
  unfold recvTimingSnoopReq. intros E. opens; try apply moved_nothing;
  repeat match goal with
  | E : mshr_handleSnoop _ _ _ _ _ _ _ = Ok _ |- _ => apply mshr_snoop_quiet, proj1 in E
  | E : handleSnoop _ _ _ _ _ _ _ _ = Ok _ |- _ => apply handleSnoop_calm, proj1, proj1 in E
  | E : snoop_writeback _ _ _ _ _ = Ok _ |- _ => apply snoop_writeback_moved in E
  end; try done; by repeat (eapply moved_then; [eassumption|]).
Qed.

Lemma recvAtomicSnoop_moved env p t t' p' l :
  recvAtomicSnoop env p t = Ok (t', p', l) -> moved [] [] t t'.
Proof.
  unfold recvAtomicSnoop. intros E. opens; try apply moved_nothing.
  match goal with E : handleSnoop _ _ _ _ _ _ _ _ = Ok _ |- _ => by apply handleSnoop_calm, proj1, proj1 in E end.
Qed.
End snoops.

(** ** Requests *)

(** The answer a request is due. *)
Definition due (p : CPkt) (s : option nat) : list Token :=
  if needsResponse (pk_cmd p) then [(identity p, s)] else [].

Lemma due_same p p' s : same_packet p p' -> due p' s = due p s.
Proof. intros [Ec Ei]. unfold due. by rewrite Ec, Ei. Qed.

Lemma owed_cpu top s p : testCmdAttrib (pk_cmd p) IsSWPrefetch && top = false ->
  owed top [view_packet FromCPU s p] = due p s.
Proof.
  intros Hs. unfold owed, due, expects, view_packet. cbn. rewrite Hs.
  by destruct (needsResponse _).
Qed.
Lemma source_of_cpu p : pk_cmd p <> HardPFReq -> source_of p = FromCPU.
Proof. intros Hc. unfold source_of. by case_decide. Qed.

Lemma makeResponse_due p p' s : makeResponse p = Ok p' -> due p s = [(identity p', s)].
Proof. unfold makeResponse, due. intros E. by opens. Qed.

Lemma fill_ff_identity p p' : fill_ff p = Ok p' -> identity p' = identity p.
Proof. unfold fill_ff. intros E. by opens. Qed.

Section requests.
Context {T M : Type} `{Policy T} `{MemSide M}.
Implicit Types (t : TCache T) (m : M) (p : CPkt).

Lemma blocked_wait env t t' : setBlocked env Blocked_PendingWriteInvalidate t = Ok t' -> moved [] [] t t'.
Proof.
  intros E. destruct (setBlocked_Ok env Blocked_PendingWriteInvalidate (cause_holds t) t t') as [S Hb]; [done..|].
  apply (fun Hb => proj1 (proj1 (moved_state t t' S Hb))). destruct S as (S1 & S2 & S3 & S4 & S5 & S6). intros Hbp.
  apply (backpressure_of _ _ (Hb Hbp)); by rewrite ?S1, ?S2, ?S4.
Qed.

Lemma answer_moved env p p' s when t t' :
  makeResponse p = Ok p' -> schedTimingResp env (MkTPkt p' s) when t = Ok t' ->
  calm [] (due p s) t t'.
Proof. intros Er Es. rewrite (makeResponse_due p p' s Er). by apply moved_respond in Es. Qed.

Lemma answer_ff_moved env p p1 p' s when t t' :
  makeResponse p = Ok p1 -> fill_ff p1 = Ok p' -> schedTimingResp env (MkTPkt p' s) when t = Ok t' ->
  calm [] (due p s) t t'.
Proof.
  intros Er Ef Es. rewrite (makeResponse_due p p1 s Er), <- (fill_ff_identity _ _ Ef).
  by apply moved_respond in Es.
Qed.

Lemma timing_hit_moved env lat p s t t' p' : timing_hit env lat (MkTPkt p s) t = Ok (t', p') ->
  moved [] (due p s) t t'.
Proof.
  unfold timing_hit. intros E. opens.
  - by apply (answer_moved env p p' s _ t t' E0) in E1 as [[? _] _].
  - unfold due. cbn in Heqb. rewrite Heqb. apply moved_nothing.
Qed.

Lemma moved_keeps {B} (o : outcome B) t out b `{K : !Keeps o (tc t) out} :
  o = Ok b -> calm [] [] t (t <| tc := out b |>).
Proof. intros E. by apply moved_cache, keeps. Qed.

Lemma uncacheable_moved env f time p s t m t' m' p' :
  pk_cmd p <> HardPFReq ->
  timing_uncacheable env f time (MkTPkt p s) t m = Ok (t', m', p') -> moved [] (due p s) t t'.
Proof.
  intros Hc. unfold timing_uncacheable. intros E. run_in E. cbn [tp_pkt] in *.
  pose proof (moved_keeps _ t _ _ E0) as [[Hq _] _]. cbn [fst] in Hq.
  eapply moved_then; [exact Hq|]. destruct (isPrefetch (pk_cmd p)) eqn:Ep.
  - clear Hq. opens. by eapply (answer_ff_moved env p); [..|eassumption].
  - assert (Hs : testCmdAttrib (pk_cmd p) IsSWPrefetch = false)
      by (by apply orb_false_iff in Ep as [? _]).
    clear Hq. opens; unfold allocateWriteBuffer, allocateUncachedReadBuffer in *; opens;
    match goal with E : allocateBufferInternal _ _ _ _ _ _ _ _ = Ok _ |- _ =>
      apply allocate_moved in E; cbn [tp_pkt tp_sender] in E;
      rewrite source_of_cpu, owed_cpu in E; try done end;
    by rewrite Hs.
Qed.

Definition soft_at_top t p : bool := isSWPrefetch (pk_cmd p) && top_level t.

Lemma count_calm env f b p t t' : count_mshr env f b p t = Ok t' -> calm [] [] t t'.
Proof. unfold count_mshr. intros E. destruct b; opens; apply moved_stats. Qed.

(** The cache is blocked for want of targets from now on. *)
Lemma no_target_moved env r t t' :
  setBlocked env Blocked_NoTargets (t <| noTargetMSHR := Some r |>) = Ok t' -> moved [] [] t t'.
Proof.
  intros E. destruct (setBlocked_Ok env Blocked_NoTargets (cause_holds t) _ t' ltac:(done) E) as [S Hb].
  destruct S as (S1 & S2 & S3 & S4 & S5 & S6). cbn in S1, S2, S3, S4, S5.
  apply (moved_regs t t' [] []); unfold regs; rewrite ?S1, ?S6; try done; [apply moves_refl|].
  intros Hbp. assert (Hbp' : blocked_for (cause_holds t) (t <| noTargetMSHR := Some r |>))
    by (apply (blocked_same _ t); done).
  apply (backpressure_of _ _ (Hb Hbp')); by rewrite ?S1, ?S2, ?S4.
Qed.

Lemma coalesce_moved env time r p s t t' : soft_at_top t p = false ->
  coalesce env time r (MkTPkt p s) t = Ok t' -> moved [] (due p s) t t'.
Proof.
  intros Hs. unfold coalesce. intros E. run_in E. cbn [tp_pkt tp_sender] in *.
  pose proof (count_calm _ _ _ _ _ _ E0) as [Q0 _]. rename r0 into t1. rename r1 into h1, r2 into h2.
  assert (Hm : quiet [] (due p s) t1 (set_regs h2 t1)).
  { apply allocateTarget_moves in E2 as [Hc Hm].
    assert (Et : top_level t1 = top_level t) by (unfold top_level; by rewrite (mv_par _ _ _ _ (proj1 Q0))).
    rewrite <- (owed_cpu (top_level t1)) by (by rewrite Et).
    apply (moved_set_regs h2 t1 [] [view_packet FromCPU s p]).
    - eapply moves_then; [|exact Hm]. eapply moves_updM; [exact E1|]. intros x. cbv beta. by destruct (threadNum x =? 0).
    - constructor; [|done]. intros _. by apply bool_decide_eq_false_2. }
  eapply moved_then; [exact (proj1 Q0)|]. eapply moved_after; [exact (proj1 Hm)|].
  eapply moved_then; [exact (proj1 (quiet_order _))|].
  destruct (_ =? _); [by eapply no_target_moved|]. injection E as <-. apply moved_nothing.
Qed.

Lemma new_miss_moved env time or p s t t' : pk_cmd p <> HardPFReq ->
  new_miss env time or (MkTPkt p s) t = Ok t' ->
  moved [] (owed (top_level t) [view_packet FromCPU s p]) t t'.
Proof.
  intros Hc. unfold new_miss, allocateMissBuffer. cbn [tp_pkt]. intros E. run_in E.
  pose proof (count_calm _ _ _ _ _ _ E0) as [Q0 _]. eapply moved_then; [exact (proj1 Q0)|].
  assert (Et : top_level t = top_level r) by (unfold top_level; by rewrite (mv_par _ _ _ _ (proj1 Q0))).
  rewrite Et. clear E0 Q0 Et. destruct (decide (pk_cmd p = Writeback)) as [Ew|_].
  - opens. match goal with E : allocateWriteBuffer _ _ _ _ _ = Ok _ |- _ =>
      apply allocateWriteBuffer_moved in E; cbn [tp_pkt tp_sender] in E;
      by rewrite source_of_cpu in E end.
  - run_in E. rename r0 into t1.
    assert (Q : quiet [] [] r t1).
    { clear E1. opens; try apply quiet_refl.
      eapply (fun Hk E => proj1 (calm_on_cache _ _ _ Hk E)); [|eassumption]. apply _. }
    eapply moved_then; [exact (proj1 Q)|]. unfold top_level. rewrite <- (mv_par _ _ _ _ (proj1 Q)).
    fold (top_level t1). clear E0. opens.
    match goal with E : allocateBufferInternal _ _ _ _ _ _ _ _ = Ok _ |- _ =>
      apply allocate_moved in E; cbn [tp_pkt tp_sender] in E; by rewrite source_of_cpu in E end.
Qed.

Lemma owed_soft top s p : testCmdAttrib (pk_cmd p) IsSWPrefetch && top = true ->
  owed top [view_packet FromCPU s p] = [].
Proof.
  intros Hs. apply owed_none. constructor; [|done]. unfold expects, view_packet. cbn.
  rewrite Hs. by rewrite andb_false_r.
Qed.

Lemma answer_prefetch_moved env lat mshr p s t t' o p' :
  answer_prefetch env lat mshr (MkTPkt p s) t = Ok (t', o, p') ->
  if soft_at_top t p then
    calm [] (due p s) t t' /\
    o = (if mshr then None else Some (MkTPkt (prefetch_copy p) None))
  else t' = t /\ o = Some (MkTPkt p s) /\ p' = p.
Proof.
  unfold answer_prefetch, soft_at_top, top_level. intros E. cbn [tp_pkt] in E.
  destruct (isSWPrefetch (pk_cmd p) && isTopLevel (par (tc t))) eqn:Es.
  - opens; (split; [by eapply (answer_ff_moved env p); [..|eassumption]|done]).
  - by opens.
Qed.

Lemma timing_miss_moved env time lat or p s t t' ok p' : pk_cmd p <> HardPFReq ->
  timing_miss env time lat or (MkTPkt p s) t = Ok (t', ok, p') ->
  moved [] (if ok then due p s else []) t t'.
Proof.
  intros Hc. unfold timing_miss. intros E. run_in E. cbn [tp_pkt] in *. rename r into wait.
  destruct wait; [run_in E; by eapply blocked_wait|]. run_in E.
  match goal with E : answer_prefetch _ _ _ _ _ = Ok _ |- _ => apply answer_prefetch_moved in E as Ha; clear E end.
  destruct (soft_at_top t p) eqn:Es.
  - destruct Ha as [Hq ->]. match goal with H : findMatch _ _ _ _ = Ok ?r |- _ => destruct r end;
      opens; [by destruct Hq as [[??] _]|].
    eapply moved_after; [exact (proj1 (proj1 Hq))|].
    match goal with E : new_miss _ _ _ _ _ = Ok _ |- _ => apply new_miss_moved in E as M1; [|done] end.
    rewrite owed_soft in M1; [done|]. unfold top_level. by rewrite (mv_par _ _ _ _ (proj1 (proj1 Hq))).
  - destruct Ha as (-> & -> & ->). match goal with H : findMatch _ _ _ _ = Ok ?r |- _ => destruct r end; opens.
    + by eapply coalesce_moved.
    + match goal with E : new_miss _ _ _ _ _ = Ok _ |- _ => apply new_miss_moved in E as M1; [|done] end.
      by rewrite owed_cpu in M1.
Qed.

(** Promotion to a whole-line write is invisible to the requester. *)
Lemma promote_same p (ch : Cache T) p' : promoteWholeLineWrites p ch = Ok p' ->
  identity p' = identity p /\ memInhibitAsserted p' = memInhibitAsserted p /\
  (pk_cmd p <> HardPFReq -> pk_cmd p' <> HardPFReq) /\ (forall s, due p' s = due p s).
Proof.
  unfold promoteWholeLineWrites. intros E. opens; split_and!; try done.
  intros s. unfold due. cbn.
  match goal with E : _ && _ = true |- _ => repeat apply andb_true_iff in E as [E ?] end.
  match goal with E : bool_decide (pk_cmd p = WriteReq) = true |- _ =>
    apply bool_decide_eq_true_1 in E; by rewrite E end.
Qed.

Lemma recvTimingReq_moved env f p s t m t' m' ok p' :
  pk_cmd p <> HardPFReq -> bypassCaches (par (tc t)) = false ->
  recvTimingReq env f (MkTPkt p s) t m = Ok (t', m', ok, p') ->
  moved [] (if ok && negb (memInhibitAsserted p) then due p s else []) t t'.
Proof.
  intros Hc Hb. unfold recvTimingReq. cbn [tp_pkt]. rewrite Hb. intros E. run_in E.
  rename r into p1. match goal with E : promoteWholeLineWrites _ _ = Ok _ |- _ =>
    apply promote_same in E as (Hi & Hm & Hh & Hd) end.
  specialize (Hh Hc). rewrite <- Hm. rewrite <- (Hd s).
  change ((MkTPkt p s) <| tp_pkt := p1 |>) with (MkTPkt p1 s) in E. clear Hd Hm Hi.
  destruct (memInhibitAsserted p1).
  { unfold timing_inhibited in E. opens; try apply moved_nothing. exact (proj1 (proj1 (moved_direct _ _))). }
  rewrite andb_true_r. destruct (isUncacheable p1).
  { run_in E. by eapply uncacheable_moved. }
  run_in E. rename r into a.
  match goal with E : access _ _ _ _ _ _ = Ok _ |- _ =>
    pose proof (moved_keeps _ t _ _ E) as [[Hq _] _];
    assert (Hs := serves (o := access env f p1 [] (tc t) m) a E); cbv beta in Hs;
    pose proof (access_wbs _ _ _ _ _ _ _ E ltac:(done)) as Hw end.
  rewrite <- (due_same _ _ s Hs). destruct Hs as [Hs _].
  assert (Hc' : pk_cmd (a_pkt a) <> HardPFReq) by congruence. clear Hs.
  eapply moved_then; [exact Hq|]. clear Hq. cbv zeta in E.
  destruct (bool_decide (pk_cmd (a_pkt a) = WriteInvalidateReq) && _ && _).
  { run_in E. by eapply blocked_wait. }
  run_in E. change ((MkTPkt p1 s) <| tp_pkt := a_pkt a |>) with (MkTPkt (a_pkt a) s) in *.
  match goal with E : (if _ then _ else timing_miss _ _ _ _ _ ?t1) = Ok (?t2, ?b, _) |- _ =>
    assert (Hmv : moved [] (if b then due (a_pkt a) s else []) t1 t2) end.
  { clear E. destruct (a_ok a && _); [|by eapply timing_miss_moved].
    opens. by eapply timing_hit_moved. }
  destruct b; run_in E; [|done]. eapply moved_after; [exact Hmv|]. by eapply allocate_wbs_moved.
Qed.

(** Only a blocked cache turns a request down. *)
Lemma setBlocked_blocks env c t t' : c <> NUM_BLOCKED_CAUSES -> setBlocked env c t = Ok t' ->
  isBlocked t' = true.
Proof.
  intros Hc E. unfold setBlocked, isBlocked in *. apply negb_true_iff, Z.eqb_neq.
  assert (exists b, blocked t' = Z.lor b (u8 (Z.shiftl 1 (cause_number c)))) as [b ->].
  { run_in E. by eexists. }
  intros [_ E0]%Z.lor_eq_0_iff. by destruct c.
Qed.

Lemma timing_miss_refused env time lat or q t t' p' :
  timing_miss env time lat or q t = Ok (t', false, p') -> isBlocked t' = true.
Proof.
  unfold timing_miss. intros E. run_in E. destruct r; run_in E; [|done].
  by match goal with E : setBlocked _ _ _ = Ok _ |- _ => apply setBlocked_blocks in E end.
Qed.

Lemma recvTimingReq_refused env f q t m t' m' p' :
  recvTimingReq env f q t m = Ok (t', m', false, p') -> isBlocked t' = true.
Proof.
  unfold recvTimingReq. intros E. run_in E. destruct (bypassCaches _); [done|]. run_in E.
  destruct (memInhibitAsserted _); [by run_in E|]. destruct (isUncacheable _); [by run_in E|].
  run_in E. cbv zeta in E. destruct (bool_decide _ && _ && _); run_in E.
  - by match goal with E : setBlocked _ _ _ = Ok _ |- _ => apply setBlocked_blocks in E end.
  - destruct (a_ok _ && _); opens; try done.
    all: by match goal with E : timing_miss _ _ _ _ _ _ = Ok _ |- _ => apply timing_miss_refused in E end.
Qed.

(** The port notes that a retry is owed, which closes nothing. *)
Lemma moved_port_retry b t :
  (backpressure t -> b = true -> isBlocked t = true \/ sendRetryEvent (port t) <> None) ->
  moved [] [] t (t <| port ::= fun q => q <| mustSendRetry := b |> |>).
Proof. intros Hb. split; try done. intros Hbp. pose proof (Hb Hbp). by destruct Hbp. Qed.

Lemma port_recvTimingReq_moved env f p s t m t' m' ok p' :
  pk_cmd p <> HardPFReq ->
  port_recvTimingReq env f (MkTPkt p s) t m = Ok (t', m', ok, p') ->
  moved [] (if ok && negb (memInhibitAsserted p) then due p s else []) t t'.
Proof.
  intros Hc. unfold port_recvTimingReq. cbn [tp_pkt]. intros E. run_in E.
  match goal with E : negb _ = true |- _ => apply negb_true_iff in E as Hb end.
  match goal with E : _ = Ok (?t1, _, _, _) |- _ =>
    assert (Hmv : moved [] (if ok && negb (memInhibitAsserted p) then due p s else []) t t1 /\
      (backpressure t1 -> ok = false -> isBlocked t1 = true \/ sendRetryEvent (port t1) <> None)) end.
  - destruct (memInhibitAsserted p) eqn:Em.
    + rewrite andb_false_r. opens. split; [|done].
      match goal with E : recvTimingReq _ _ _ _ _ = Ok _ |- _ => apply recvTimingReq_moved in E as Hmv; try done end.
      by rewrite Em, andb_false_r in Hmv.
    + rewrite andb_true_r. destruct (port_blocked (port t) || _) eqn:Ep.
      * opens. split; [apply moved_nothing|]. intros [_ _ Hp _ Hm] _.
        apply orb_true_iff in Ep as [Ep|Ep]; [left; by rewrite <- Hp|by apply Hm].
      * match goal with E : recvTimingReq _ _ _ _ _ = Ok _ |- _ =>
          apply recvTimingReq_moved in E as Hmv; try done; rewrite Em, andb_true_r in Hmv;
          split; [exact Hmv|]; intros _ ->; left; by apply recvTimingReq_refused in E end.
  - destruct Hmv as [Hmv Hr]. eapply moved_after; [exact Hmv|]. apply (moved_port_retry (negb ok)).
    intros Hbp Ho. apply Hr; [done|by destruct ok].
Qed.
End requests.

(** ** Requests to the memory side *)

Section sends.
Context {T : Type} `{Policy T} `{CpuSide}.
Implicit Types (t : TCache T) (p : CPkt).

Lemma moved_calm g n t t' : calm g n t t' -> moved g n t t'.
Proof. by intros [[? _] _]. Qed.

Lemma pool_elem h r x tgt : h !! r = Some x -> tgt ∈ lists x -> view_target tgt ∈ pool h.
Proof.
  intros Hr Ht. unfold pool. apply list_elem_of_bind. exists x. split.
  - unfold reg_pool. by apply list_elem_of_fmap_2.
  - by apply list_elem_of_lookup_2 with r.
Qed.

Lemma front_elem x tgt ts : tl_list (targets x) = tgt :: ts -> tgt ∈ lists x.
Proof. intros E. unfold lists. rewrite E. by apply elem_of_app; left; apply elem_of_cons; left. Qed.

(** A squashed prefetch is nobody's request. *)
Lemma owed_hard top t r x tgt ts : Forall soft_only (pool (regs t)) -> regs t !! r = Some x ->
  tl_list (targets x) = tgt :: ts -> pk_cmd (t_pkt tgt) = HardPFReq -> owed top [view_target tgt] = [].
Proof.
  intros Hs Hr El Hc. apply owed_none. constructor; [|done].
  rewrite Forall_forall in Hs. specialize (Hs (view_target tgt)).
  unfold expects. rewrite bool_decide_eq_false_2; [done|]. intros Hf.
  assert (v_hard (view_target tgt) = false) as Hv.
  { apply Hs; [|done]. eapply pool_elem; [done|]. by eapply front_elem. }
  cbn in Hv. by apply bool_decide_eq_false_1 in Hv.
Qed.

Lemma snoop_prefetch_moved env r x tgt ts t t' b : Forall soft_only (pool (regs t)) ->
  regs t !! r = Some x -> tl_list (targets x) = tgt :: ts -> pk_cmd (t_pkt tgt) = HardPFReq ->
  snoop_prefetch env r (t_pkt tgt) t = Ok (t', b) -> moved [] [] t t'.
Proof.
  intros Hs Hx El Hc. unfold snoop_prefetch. cbv zeta. intros E.
  destruct (prefetchSquashed _).
  - run_in E. match goal with E : forceDeallocateTarget _ _ _ _ = Ok _ |- _ =>
      apply forceDeallocateTarget_moves in E as
        ((x' & tgt' & ts' & Hx' & El' & Hm) & Hb & Ha & He & Hr) end.
    rewrite Hx in Hx'. injection Hx' as <-. rewrite El in El'. injection El' as <- <-. subst b0.
    match goal with E : (if _ then clearBlocked _ _ ?t1 else Ok ?t1) = Ok _ |- _ =>
      destruct (shrink_backpressure env (queue_of r t) m l t t' _ eq_refl Ha He Hr) as [S Hb];
      [by cbv zeta; rewrite get_set_queue|] end.
    pose proof (moved_queue (queue_of r t) m l t t' [view_target tgt] [] Hm ltac:(done) S Hb) as M.
    by rewrite (owed_hard _ t r x tgt ts) in M.
  - destruct (memInhibitAsserted _); run_in E; [by eapply markInService_moved|apply moved_nothing].
Qed.

Lemma bus_packet_moved r ob p t t' p' : bus_packet r ob p t = Ok (t', p') -> moved [] [] t t'.
Proof.
  unfold bus_packet. intros E. run_in E.
  match goal with E : updM r ?f (regs t) = Ok ?h |- _ =>
    assert (Hq : moved [] [] t (set_regs h t)) by
      (apply quiet_set_regs; eapply moves_updM; [exact E|done]) end.
  by opens.
Qed.

Lemma getTimingPacket_moved env t t' o : Forall soft_only (pool (regs t)) ->
  getTimingPacket env t = Ok (t', o) -> moved [] [] t t'.
Proof.
  intros Hs. unfold getTimingPacket, getTarget. intros E. run_in E.
  destruct r as [r|]; [|run_in E; apply moved_nothing]. run_in E.
  apply aget_Ok in E1. destruct (tl_list (targets r0)) as [|tgt ts] eqn:El; [done|].
  injection E2 as ->. destruct r2; [run_in E; apply moved_nothing|]. run_in E.
  match goal with E : (if decide _ then _ else _) = Ok (?t1, ?b) |- _ =>
    assert (Hm : moved [] [] t t1) end.
  { clear E. match goal with E : (if ?d then _ else _) = _ |- _ => destruct d as [Hc|_] end;
      [|opens; apply moved_nothing].
    opens. by eapply snoop_prefetch_moved. }
  eapply moved_then; [exact Hm|]. destruct b; run_in E; [by eapply bus_packet_moved|apply moved_nothing].
Qed.

Lemma moved_passed g n t t' : moved g n t t' -> passed g n t t'.
Proof. by intros []. Qed.
Lemma passed_then t1 t2 t3 g n : passed [] [] t1 t2 -> passed g n t2 t3 -> passed g n t1 t3.
Proof.
  intros [D1 S1 B1] [D2 S2 B2]. split; [|by auto|by auto]. rewrite !app_nil_r in D1. by rewrite D2, D1.
Qed.
Lemma passed_mem q t : passed [] [] t (t <| memSide := q |>).
Proof. split; [done|done|]. by intros []. Qed.

Lemma sendDeferred_passed env peer ok t t' dep : Forall soft_only (pool (regs t)) ->
  cache_sendDeferredPacket env peer ok t = Ok (t', dep) -> passed [] [] t t'.
Proof.
  intros Hs. unfold cache_sendDeferredPacket. intros E. run_in E.
  match goal with E : (if deferredPacketReady _ _ then _ else _) = Ok (?t1, ?d) |- _ =>
    assert (Hm : passed [] [] t t1) end.
  { clear E. opens; try exact (passed_mem _ _);
    match goal with E : getTimingPacket _ _ = Ok (?t1, _) |- _ =>
      apply getTimingPacket_moved, moved_passed in E as Hg; [|done] end;
    try match goal with E : markInServiceInternal _ _ _ _ = Ok _ |- _ =>
      apply markInService_moved, moved_passed in E as Hi; eapply passed_then; [exact Hg|];
      eapply passed_then; [|exact Hi] end;
    try (eapply passed_then; [exact Hg|]); exact (passed_mem _ _). }
  eapply passed_then; [exact Hm|].
  match goal with E : (if deferredPacketReady _ _ then _ else _) = _ |- _ => clear E end.
  destruct (negb _); opens; [exact (passed_mem _ _)|apply moved_passed, moved_nothing].
Qed.

Lemma mem_send_passed env peer ok t t' dep : Forall soft_only (pool (regs t)) ->
  mem_processSendEvent env peer ok t = Ok (t', dep) -> passed [] [] t t'.
Proof.
  intros Hs. unfold mem_processSendEvent. intros E. run_in E.
  eapply passed_then; [|eapply sendDeferred_passed; [|exact E]]; [|done].
  exact (passed_mem _ _).
Qed.

Lemma mem_retry_passed env peer ok t t' dep : Forall soft_only (pool (regs t)) ->
  mem_retry env peer ok t = Ok (t', dep) -> passed [] [] t t'.
Proof. intros Hs. unfold mem_retry. intros E. run_in E. by eapply sendDeferred_passed. Qed.
End sends.

(** ** Responses from the memory side *)

Section responses.
Context {T : Type} `{Policy T} `{CpuSide}.
Implicit Types (t : TCache T) (p : CPkt).

(** A response belongs to a register that is in service, and is meant for its
    first target: it carries its request.  A whole-line write that is acknowledged had been asked for by
    requests that need a response. *)
Definition answers (pkt : CPkt) (r : nat) t : Prop :=
  exists x, regs t !! r = Some x /\ inService x = true /\
    (forall tgt ts, tl_list (targets x) = tgt :: ts ->
       (pk_req pkt) <| extraData := 0 |> = (pk_req (t_pkt tgt)) <| extraData := 0 |>) /\
    (pk_cmd pkt = WriteInvalidateResp -> Forall (fun tgt => t_source tgt = FromCPU ->
       needsResponse (pk_cmd (t_pkt tgt)) = true) (lists x)).

Lemma calm_clear_wait env t t' :
  clearBlocked env Blocked_PendingWriteInvalidate t = Ok t' -> calm [] [] t t'.
Proof.
  intros E. destruct (clearBlocked_Ok env Blocked_PendingWriteInvalidate (cause_holds t) t t')
    as [S Hb]; [done..|].
  apply (moved_state t t' S). destruct S as (S1 & S2 & S3 & S4 & S5 & S6). intros Hbp.
  apply (backpressure_of _ _ (Hb Hbp)); by rewrite ?S1, ?S2, ?S4.
Qed.

Lemma settle_calm o t t' : settle_write_invalidate o t = Ok t' -> calm [] [] t t'.
Proof.
  unfold settle_write_invalidate. intros E. opens; try apply calm_refl;
  repeat match goal with
  | E : on_cache _ _ = Ok _ |- _ => apply calm_on_cache in E; [|intros; apply _]
  end; try done; by repeat (eapply calm_then; [eassumption|]).
Qed.

Lemma complete_calm env s tgt t t' p' when :
  (pk_cmd (sv_pkt s) = WriteInvalidateResp -> needsResponse (pk_cmd (t_pkt tgt)) = true) ->
  complete_target env s tgt t = Ok (t', p', when) ->
  calm [] [] t t' /\ identity p' = identity (t_pkt tgt) /\
  (needsResponse (pk_cmd p') = true -> needsResponse (pk_cmd (t_pkt tgt)) = true).
Proof.
  intros Hw. unfold complete_target. intros E. destruct (sv_fill s).
  - destruct (sv_blk s) as [b|]; [|done]. run_in E.
    match goal with E : satisfyCpuSideRequest _ _ _ _ _ _ = Ok (?ch, ?p) |- _ =>
      pose proof (moved_keeps _ t _ _ E) as Hc; cbn [fst] in Hc;
      assert (Hs := serves (o := satisfyCpuSideRequest env (t_pkt tgt) b true r0 (tc t)) (ch, p) E);
      cbn [snd] in Hs; destruct Hs as [Hs Hi] end.
    split_and!; [|done|by rewrite Hs]. eapply calm_then; [exact Hc|exact (moved_stats _ (t <| tc := c |>))].
  - destruct (decide (pk_cmd (sv_pkt s) = UpgradeFailResp)).
    { run_in E. by split; [apply calm_refl|]. }
    destruct (decide (pk_cmd (sv_pkt s) = WriteInvalidateResp)) as [Ec|_].
    { specialize (Hw Ec). run_in E.
      match goal with E : settle_write_invalidate _ _ = Ok _ |- _ => apply settle_calm in E as Hs end.
      opens; (split; [|by split]); try done.
      eapply calm_then; [exact Hs|]. by eapply calm_clear_wait. }
    opens; try (by split; [apply calm_refl|]).
    match goal with E : setData _ _ _ = Ok ?p |- _ =>
      destruct (serves (o := setData (pk_data (sv_pkt s)) 0 (t_pkt tgt)) p E) as [Hs Hi] end.
    cbn [id] in *. split; [apply calm_refl|]. by rewrite Hs, Hi.
Qed.

Lemma serve_cpu_calm env s tgt t t' : t_source tgt = FromCPU ->
  (pk_cmd (sv_pkt s) = WriteInvalidateResp -> needsResponse (pk_cmd (t_pkt tgt)) = true) ->
  serve_cpu_target env s tgt t = Ok t' -> calm [] (owed (top_level t) [view_target tgt]) t t'.
Proof.
  intros Hf Hw. unfold serve_cpu_target. unfold view_target. rewrite Hf. intros E.
  destruct (isSWPrefetch (pk_cmd (t_pkt tgt)) && isTopLevel (par (tc t))) eqn:Es.
  { run_in E. rewrite owed_soft by done. apply calm_refl. }
  rewrite owed_cpu by done. run_in E.
  match goal with E : complete_target _ _ _ _ = Ok (?t1, ?p1, _) |- _ =>
    destruct (complete_calm _ _ _ _ _ _ _ Hw E) as (Hc & Hi & Hn) end.
  match goal with E : makeResponse ?p = Ok ?p1 |- _ =>
    unfold makeResponse in E; destruct (needsResponse (pk_cmd p)) eqn:En; [|done];
    destruct (isRequest (pk_cmd p)); [|done]; injection E as E end.
  unfold due. rewrite (Hn eq_refl), <- Hi. eapply calm_then; [exact Hc|].
  match goal with E : schedTimingResp _ ?q _ _ = Ok _ |- calm _ [?tok] _ _ =>
    apply moved_respond in E as Hr; replace tok with (token_of q); [done|] end.
  unfold token_of. cbn [tp_pkt tp_sender]. f_equal.
  transitivity (identity r0); [clear -E3; opens; try done; by case_match|].
  transitivity (identity r); [clear -E2; unfold copyError in E2; by opens|by rewrite <- E1].
Qed.

Lemma serve_target_calm env s tgt t t' :
  (pk_cmd (sv_pkt s) = WriteInvalidateResp -> t_source tgt = FromCPU ->
     needsResponse (pk_cmd (t_pkt tgt)) = true) ->
  serve_target env s tgt t = Ok t' -> calm [] (owed (top_level t) [view_target tgt]) t t'.
Proof.
  intros Hw. unfold serve_target. intros E. destruct (t_source tgt) eqn:Hf.
  - by apply (serve_cpu_calm env s); [|auto|].
  - rewrite owed_snoop by (by repeat constructor). run_in E.
    match goal with E : handleSnoop _ _ _ _ _ _ _ _ = Ok _ |- _ => by apply handleSnoop_calm in E end.
  - rewrite owed_none.
    2: { constructor; [|done]. unfold expects, view_target. cbn. by rewrite Hf. }
    run_in E. destruct (sv_blk s); [|run_in E; apply calm_refl].
    eapply calm_on_cache; [|exact E]. intros ch. apply _.
Qed.

Lemma quiet_cancel l t t' : quiet l l t t' -> quiet [] [] t t'.
Proof.
  intros [[Hd Hs Hb Hp Hw] Hq]. split; [|done]. split; try done. rewrite !app_nil_r.
  by apply Permutation_app_inv_r in Hd.
Qed.

(** The targets a whole-line write is acknowledged to had asked for it. *)
Definition acknowledged (s : Service) t : Prop :=
  pk_cmd (sv_pkt s) = WriteInvalidateResp -> forall x, regs t !! sv_reg s = Some x ->
  Forall (fun tgt => t_source tgt = FromCPU -> needsResponse (pk_cmd (t_pkt tgt)) = true)
    (tl_list (targets x)).

(** One round of the loop. *)
Lemma serve_round env s tgt ts x t t1 h : acknowledged s t ->
  regs t !! sv_reg s = Some x -> tl_list (targets x) = tgt :: ts ->
  serve_target env s tgt t = Ok t1 -> pop_mshr (sv_reg s) (regs t1) = Ok h ->
  calm [] (owed (top_level t) [view_target tgt]) t t1 /\
  moves (regs t1) h [view_target tgt] [] /\
  h = <[sv_reg s := x <| targets := (targets x) <| tl_list := ts |> |>]> (regs t) /\
  acknowledged s (set_regs h t1).
Proof.
  intros Hw Hx El E Ep. apply serve_target_calm in E as [Hc Hr].
  2: { intros Ec Hf. specialize (Hw Ec x Hx). rewrite El in Hw. by apply Forall_cons in Hw as [Hw _]; auto. }
  pose proof (pop_moves _ _ _ Ep) as (y & tgt' & ts' & Hy & El' & Hm).
  rewrite Hr, Hx in Hy. injection Hy as <-. rewrite El in El'. injection El' as <- <-.
  unfold pop_mshr in Ep. rewrite Hr, (aget_ok _ _ _ Hx) in Ep. cbn [mbind outcome_bind] in Ep. run_in Ep.
  match goal with E : popTarget _ = Ok _ |- _ => apply popTarget_Ok in E as (t2 & ts2 & El2 & ->) end.
  rewrite El in El2. injection El2 as <- <-. split_and!; [done|done|done|].
  intros Ec y Hy. cbn in Hy. rewrite list_lookup_insert_eq in Hy by (by eapply lookup_lt_Some).
  injection Hy as <-. cbn. specialize (Hw Ec x Hx). rewrite El in Hw. by apply Forall_cons in Hw as [_ Hw].
Qed.

Lemma serve_targets_quiet n env s t t' : acknowledged s t ->
  serve_targets n env s t = Ok t' -> quiet [] [] t t'.
Proof.
  revert t. induction n as [|n IH]; intros t Hw E; cbn [serve_targets] in E; run_in E;
    match goal with E : aget _ _ = Ok ?x |- _ => apply aget_Ok in E as Hx end;
    destruct (tl_list (targets r)) as [|tgt ts] eqn:El; try done; try (run_in E; apply quiet_refl).
  run_in E. rename r0 into t1, r1 into h1.
  match goal with E : serve_target _ _ _ _ = Ok _, Ep : pop_mshr _ _ = Ok _ |- _ =>
    destruct (serve_round _ _ _ _ _ _ _ _ Hw Hx El E Ep) as (Hc & Hm & _ & Hw') end.
  assert (Et : top_level t1 = top_level t) by (unfold top_level; by rewrite (mv_par _ _ _ _ (proj1 (proj1 Hc)))).
  pose proof (moved_set_regs h1 t1 [view_target tgt] [] Hm ltac:(done)) as Hp.
  eapply quiet_then; [|by apply IH; [|exact E]].
  apply (quiet_cancel (owed (top_level t) [view_target tgt])).
  pose proof (quiet_trans _ _ _ _ _ _ _ (proj1 Hc) Hp) as Hq. rewrite Et in Hq. cbn [app] in Hq.
  by rewrite app_nil_r in Hq.
Qed.

Lemma share_request_quiet pkt r t t' : answers pkt r t -> share_request pkt r t = Ok t' ->
  quiet [] [] t t' /\ answers pkt r t'.
Proof.
  intros (x & Hx & Hsv & Hr & Hw) E. unfold share_request in E. run_in E.
  match goal with E : updM _ _ _ = Ok _ |- _ => apply updM_Ok in E as (y & Hy & ->) end.
  rewrite Hx in Hy. injection Hy as <-. destruct (tl_list (targets x)) as [|tgt ts] eqn:El.
  - split.
    + apply quiet_set_regs. eapply moves_same; [done|]. unfold lists. cbn. by rewrite El.
    + eexists. split; [cbn; apply list_lookup_insert_eq; by eapply lookup_lt_Some|]. cbn.
      rewrite El. split; [done|]. split; [done|]. intros Ec. specialize (Hw Ec). unfold lists in *. cbn. by rewrite El in *.
  - assert (Ev : view_target (tgt <| t_pkt ::= set_req (pk_req pkt) |>) = view_target tgt).
    { destruct (same_packet_req (t_pkt tgt) (pk_req pkt)) as [Ec Ei]; [by eapply Hr|].
      unfold view_target, view_packet. cbn. unfold set_field in Ei. by rewrite Ei. }
    split.
    + apply quiet_set_regs. apply (moves_insert _ _ x); [done|].
      unfold reg_pool, lists. cbn. rewrite El, !app_nil_r. cbn. apply reflexive_eq. f_equal. exact Ev.
    + eexists. split; [cbn; apply list_lookup_insert_eq; by eapply lookup_lt_Some|]. cbn. rewrite El.
      split; [done|]. split; [by intros ? ? [= <- <-]|]. intros Ec. specialize (Hw Ec). unfold lists in *. cbn.
      rewrite El in *. cbn in *. apply Forall_cons in Hw as [Hw1 Hw2]. by constructor.
Qed.

Lemma unblock_targets_calm env r t t' : unblock_targets env r t = Ok t' -> calm [] [] t t'.
Proof.
  unfold unblock_targets. intros E. destruct (decide _) as [Hr|_]; [|run_in E; apply calm_refl].
  run_in E. rename r0 into t1.
  match goal with E : clearBlocked _ _ _ = Ok _ |- _ =>
    destruct (clearBlocked_Ok env Blocked_NoTargets (cause_holds t) t t1 ltac:(done) E) as [S Hb] end.
  destruct S as (S1 & S2 & S3 & S4 & S5 & S6).
  split; [|unfold regs; cbn; by rewrite S1]. split; [|unfold queues; cbn; by rewrite S1, S2].
  apply (moved_regs t _ [] []); unfold regs; cbn; rewrite ?S1, ?S6; try done; [apply moves_refl|].
  intros Hbp. specialize (Hb Hbp).
  apply (backpressure_of (with_cause Blocked_NoTargets false (cause_holds t)));
    [by apply (blocked_same _ t1)|..]; cbn; by rewrite ?S1, ?S2.
Qed.

Lemma count_latency_calm env p tgt t t' : count_latency env p tgt t = Ok t' -> calm [] [] t t'.
Proof. unfold count_latency. intros E. destruct (isUncacheable p); opens; apply moved_stats. Qed.

Lemma timing_fill_quiet env l p r o t t' o' wbs : timing_fill env l p r o t = Ok (t', o', wbs) ->
  quiet [] [] t t' /\ Forall (fun w => pk_cmd w = Writeback) wbs.
Proof.
  unfold timing_fill. intros E. run_in E.
  match goal with E : mshr_handleFill _ _ _ _ = Ok _ |- _ => apply handleFill_moves in E as Hm end.
  match goal with E : handleFill _ _ _ _ _ (tc ?t1) = Ok _ |- _ =>
    pose proof (moved_keeps _ t1 _ _ E) as [Hc _]; pose proof (handleFill_wbs _ _ _ _ _ _ _ _ _ E ltac:(done)) as Hw end.
  split; [|done]. eapply quiet_then; [by apply quiet_set_regs|exact Hc].
Qed.

Lemma post_actions_calm env p r o t t' : post_actions env p r o t = Ok t' -> calm [] [] t t'.
Proof.
  unfold post_actions. intros E. opens; try apply calm_refl;
  match goal with E : on_cache _ _ = Ok _ |- _ => eapply calm_on_cache; [|exact E]; intros; apply _ end.
Qed.

Lemma retire_moved env l r wf o t t' : wf = isFull (get_queue (queue_of r t) t) ->
  retire_mshr env l r wf o t = Ok t' -> moved [] [] t t'.
Proof.
  intros Hwf. unfold retire_mshr. intros E. run_in E.
  match goal with E : aget _ _ = Ok _ |- _ => apply aget_Ok in E as Hx end.
  match goal with E : promoteDeferredTargets _ _ = Ok _ |- _ => apply promote_lists in E as Hl end.
  set (h := <[r := _]> (regs t)) in *.
  assert (Hq : quiet [] [] t (set_regs h t)) by (by apply quiet_set_regs, (moves_same _ _ r0)).
  set (i := queue_of r t) in *. eapply moved_then; [exact (proj1 Hq)|]. destruct b; run_in E.
  - rename r1 into t1. assert (Hc : calm [] [] (set_regs h t) t1).
    { match goal with E : match o with _ => _ end = _ |- _ => destruct o end;
        [eapply calm_on_cache; [|eassumption]; intros; apply _|opens; apply calm_refl]. }
    eapply moved_then; [exact (moved_calm _ _ _ _ Hc)|].
    match goal with E : markPending _ _ _ = Ok _ |- _ => apply markPending_moves in E as (Hm & Ha & He & Hr) end.
    eapply moved_after; [|exact (moved_calm _ _ _ _ (moved_request _ _ _ _ E))].
    assert (Hf : isFull m0 = isFull (get_queue i t1)) by (unfold isFull; by rewrite Ha, He, Hr).
    destruct (shrink_backpressure env i m0 l0 t1 (set_queue i m0 l0 t1) (isFull (get_queue i t1)))
      as [S Hb]; [done|lia|done|done|cbv zeta; by rewrite get_set_queue, Hf, andb_negb_r|].
    exact (moved_queue i m0 l0 t1 _ [] [] Hm ltac:(done) S Hb).
  - match goal with E : deallocateOne _ _ _ = Ok _ |- _ => apply deallocateOne_moves in E as (Hm & Ha & He & Hr) end.
    assert (Hi : get_queue i (set_regs h t) = get_queue i t) by (by destruct i).
    rewrite <- Hi in Hwf.
    destruct (shrink_backpressure env i m0 l0 (set_regs h t) t' wf Hwf) as [S Hb]; [lia|done|done|exact E|].
    exact (moved_queue i m0 l0 (set_regs h t) _ [] [] Hm ltac:(done) S Hb).
Qed.

Lemma release_temp_moved env time o t t' : release_temp_block env time o t = Ok t' -> moved [] [] t t'.
Proof.
  unfold release_temp_block. intros E. destruct (decide _); run_in E; [|apply moved_nothing].
  match goal with E : release_temp _ _ _ = Ok _ |- _ =>
    pose proof (moved_keeps _ t _ _ E) as Hc; cbn [fst] in Hc;
    pose proof (release_temp_wbs _ _ _ _ _ E ltac:(done)) as Hw end.
  eapply moved_then; [exact (moved_calm _ _ _ _ Hc)|]. by eapply allocate_wbs_moved.
Qed.

Lemma queue_of_quiet r t t' : quiet [] [] t t' ->
  get_queue (queue_of r t') t' = get_queue (queue_of r t) t.
Proof.
  intros [Hm Hq]. unfold queue_of. rewrite (mv_base _ _ _ _ Hm). unfold queues in Hq.
  injection Hq as E1 E2. by case_match.
Qed.

(** The fill a response brings, if any; none for a whole-line write. *)
Lemma response_fill_quiet env l pkt r o t (fwd : bool) t' o' wbs :
  (if fwd && (isRead (pk_cmd pkt) || bool_decide (pk_cmd pkt = UpgradeResp)) &&
      negb (isError (pk_cmd pkt))
   then timing_fill env l pkt r o t else Ok (t, o, [])) = Ok (t', o', wbs) ->
  quiet [] [] t t' /\ Forall (fun w => pk_cmd w = Writeback) wbs /\
  (pk_cmd pkt = WriteInvalidateResp -> regs t' = regs t).
Proof.
  intros E. destruct (_ && negb (isError _)) eqn:Ef in E.
  - apply timing_fill_quiet in E as [Q Hl]. split_and!; [done..|]. intros Ec. exfalso.
    rewrite Ec in Ef. cbn in Ef. by rewrite andb_false_r in Ef.
  - injection E as <- <- <-. split_and!; [apply quiet_refl|done|done].
Qed.

Lemma answers_acknowledged pkt r t t' s : answers pkt r t -> sv_pkt s = pkt -> sv_reg s = r ->
  (pk_cmd pkt = WriteInvalidateResp -> regs t' = regs t) -> acknowledged s t'.
Proof.
  intros (x & Hx & _ & _ & Hw) <- <- Hr Ec y Hy. rewrite (Hr Ec), Hx in Hy. injection Hy as <-.
  by apply Forall_app in Hw as [Hw _].
Qed.

Lemma recvTimingResp_moved env f l pkt r t t' : answers pkt r t ->
  recvTimingResp env f l pkt r t = Ok t' -> moved [] [] t t'.
Proof.
  intros Ha. unfold recvTimingResp. intros E. run_in E.
  destruct (share_request_quiet _ _ _ _ Ha E1) as [Q1 Ha1].
  apply unblock_targets_calm in E2 as [Q2 R2]. apply count_latency_calm in E6 as [Q6 R6].
  destruct (response_fill_quiet _ _ _ _ _ _ _ _ _ _ E7) as (Q7 & Hl & R7).
  apply serve_targets_quiet in E9 as Q9.
  2: { eapply answers_acknowledged; [exact Ha1|done|done|]. intros Ec. by rewrite (R7 Ec), R6, R2. }
  apply post_actions_calm in E10 as [Q10 _].
  assert (Q : quiet [] [] t r8) by (repeat (eapply quiet_then; [eassumption|]); apply quiet_refl).
  apply retire_moved in E11; [|by rewrite (queue_of_quiet r t r8 Q)].
  apply allocate_wbs_moved in E12; [|done]. apply release_temp_moved in E.
  eapply moved_then; [exact (proj1 Q)|]. eapply moved_then; [exact E11|]. by eapply moved_then.
Qed.

Lemma drain_moved t : moved [] [] t (cache_drain t).1.
Proof.
  unfold cache_drain, pq_drain, drain.
  destruct (transmitList (memSide t)) eqn:E1, (transmitList (cpuSide t)) eqn:E2,
    (allocated (mshrQueue (tc t)) =? 0), (allocated (writeBuffer t) =? 0); cbn [fst];
    (split; [unfold debt, regs, top_level; cbn; by rewrite ?E2|done| |done|done|done]);
    intros Hbp; apply (backpressure_of (cause_holds t)); try done; by apply (blocked_same _ t).
Qed.
End responses.

(** ** A cache over time *)

(** The cache, the memory below, the requests taken that are due an answer,
    and the answers that have left. *)
Record TRun (T M : Type) := MkTRun {
  run_cache : TCache T;
  run_mem : M;
  taken : list Token;
  answered : list Token
}.
Arguments MkTRun {T M}. Arguments run_cache {T M}. Arguments run_mem {T M}.
Arguments taken {T M}. Arguments answered {T M}.

(** One event: a request at the CPU side, whether or not it is taken; a send
    event or a retry at either port; a response; snoops and snoop responses;
    the retry event of the CPU side.  [C] is what the caches above do with
    snoops, [peer] what the port below does with a request. *)
Inductive tstep {T M : Type} `{Policy T} `{MemSide M} (funcMasterId : Z) : relation (TRun T M) :=
| step_request env p s t m t' m' ok p' tk an :
    pk_cmd p <> HardPFReq ->
    port_recvTimingReq env funcMasterId (MkTPkt p s) t m = Ok (t', m', ok, p') ->
    tstep funcMasterId (MkTRun t m tk an)
      (MkTRun t' m' (tk ++ if ok && negb (memInhibitAsserted p) then due p s else []) an)
| step_send (C : CpuSide) env peer snoop_ok t m t' dep tk an :
    0 <= curTick env < MaxTick - 1 ->
    mem_processSendEvent env peer snoop_ok t = Ok (t', dep) ->
    tstep funcMasterId (MkTRun t m tk an) (MkTRun t' m tk an)
| step_mem_retry (C : CpuSide) env peer snoop_ok t m t' dep tk an :
    0 <= curTick env < MaxTick - 1 ->
    mem_retry env peer snoop_ok t = Ok (t', dep) ->
    tstep funcMasterId (MkTRun t m tk an) (MkTRun t' m tk an)
| step_response (C : CpuSide) env first last pkt r t m t' tk an :
    answers pkt r t -> recvTimingResp env first last pkt r t = Ok t' ->
    tstep funcMasterId (MkTRun t m tk an) (MkTRun t' m tk an)
| step_snoop (C : CpuSide) env express p s t m t' p' tk an :
    recvTimingSnoopReq env express p s t = Ok (t', p') ->
    tstep funcMasterId (MkTRun t m tk an) (MkTRun t' m tk an)
| step_atomic_snoop (C : CpuSide) env p t m t' p' lat tk an :
    recvAtomicSnoop env p t = Ok (t', p', lat) ->
    tstep funcMasterId (MkTRun t m tk an) (MkTRun t' m tk an)
| step_snoop_response (C : CpuSide) env pkt s r t m t' tk an :
    recvTimingSnoopResp env pkt (Some s) r t = Ok t' ->
    tstep funcMasterId (MkTRun t m tk an) (MkTRun t' m tk an)
| step_answer env accepted t m q o tk an :
    processSendEvent (curTick env) SlaveSide accepted (cpuSide t) = Ok (q, o) ->
    tstep funcMasterId (MkTRun t m tk an)
      (MkTRun (t <| cpuSide := q |>) m tk
         (an ++ ((fun d => token_of (dp_pkt d)) <$> option_list o)))
| step_answer_retry env accepted t m q o tk an :
    retry (curTick env) SlaveSide accepted (cpuSide t) = Ok (q, o) ->
    tstep funcMasterId (MkTRun t m tk an)
      (MkTRun (t <| cpuSide := q |>) m tk
         (an ++ ((fun d => token_of (dp_pkt d)) <$> option_list o)))
| step_retry_event t m when tk an :
    sendRetryEvent (port t) = Some when ->
    tstep funcMasterId (MkTRun t m tk an)
      (MkTRun (t <| port ::= processSendRetry |>) m tk an)
| step_drain_cache t m tk an :
    tstep funcMasterId (MkTRun t m tk an) (MkTRun (cache_drain t).1 m tk an).

(** The answers still to leave, and the targets still to be served. *)
Definition waiting {T} (t : TCache T) : list Token :=
  (fun d => token_of (dp_pkt d)) <$> transmitList (cpuSide t).
Definition outstanding {T} (t : TCache T) : list Token := owed (top_level t) (pool (regs t)).

Section runs.
Context {T M : Type} `{Policy T} `{MemSide M} (funcMasterId : Z).
Implicit Types (s : TRun T M) (t : TCache T).

Record run_ok s : Prop := {
  ro_balance : taken s ≡ₚ answered s ++ waiting (run_cache s) ++ outstanding (run_cache s);
  ro_soft : Forall soft_only (pool (regs (run_cache s)));
  ro_blocked : backpressure (run_cache s)
}.

Lemma debt_split t : debt t ≡ₚ waiting t ++ outstanding t.
Proof. unfold debt. apply Permutation_app_comm. Qed.

Lemma run_passed t m t' m' tk an new : passed [] new t t' -> run_ok (MkTRun t m tk an) ->
  run_ok (MkTRun t' m' (tk ++ new) an).
Proof.
  intros [Hd Hs Hb] [Hbal Hso Hbl]. cbn [run_cache run_mem taken answered] in *.
  split; cbn [run_cache run_mem taken answered]; [|by auto..].
  rewrite app_nil_r in Hd. rewrite <- debt_split, Hd, Hbal, <- debt_split. solve_Permutation.
Qed.
Lemma run_passed_none t m t' m' tk an : passed [] [] t t' -> run_ok (MkTRun t m tk an) ->
  run_ok (MkTRun t' m' tk an).
Proof. intros Hm Ho. rewrite <- (app_nil_r tk). by eapply run_passed. Qed.

(** An answer leaves the queue of the port. *)
Lemma sendDeferred_list {A} now side accepted (q q' : PacketQueue A) o :
  PacketQueue.sendDeferredPacket now side accepted q = Ok (q', o) ->
  transmitList q = option_list o ++ transmitList q'.
Proof.
  unfold sendDeferredPacket, trySendTiming, scheduleSend, set_event. intros E.
  opens; cbn in *; try done; by rewrite ?Heql.
Qed.

Lemma answer_ok t m tk an q o : transmitList (cpuSide t) = option_list o ++ transmitList q ->
  run_ok (MkTRun t m tk an) ->
  run_ok (MkTRun (t <| cpuSide := q |>) m tk (an ++ ((fun d => token_of (dp_pkt d)) <$> option_list o))).
Proof.
  intros Hq [Hbal Hso Hbl]. cbn [run_cache run_mem taken answered] in *.
  split; cbn [run_cache run_mem taken answered]; [|done|by destruct Hbl].
  rewrite Hbal. unfold waiting. rewrite Hq, fmap_app. cbn [cpuSide set_field].
  change (outstanding (t <| cpuSide := q |>)) with (outstanding t). solve_Permutation.
Qed.

Lemma tstep_ok s s' : tstep funcMasterId s s' -> run_ok s -> run_ok s'.
Proof.
  intros Hst Ho. pose proof (ro_soft s Ho) as Hso. destruct Hst; cbn [run_cache] in Hso.
  - eapply run_passed; [|done]. apply moved_passed. by eapply port_recvTimingReq_moved.
  - eapply run_passed_none; [|done]. by eapply mem_send_passed.
  - eapply run_passed_none; [|done]. by eapply mem_retry_passed.
  - eapply run_passed_none, Ho. apply moved_passed. by eapply recvTimingResp_moved.
  - eapply run_passed_none, Ho. apply moved_passed. by eapply recvTimingSnoopReq_moved.
  - eapply run_passed_none, Ho. apply moved_passed. by eapply recvAtomicSnoop_moved.
  - eapply run_passed_none, Ho. apply moved_passed, moved_calm.
    match goal with E : recvTimingSnoopResp _ _ _ _ _ = Ok _ |- _ => unfold recvTimingSnoopResp in E; run_in E end.
    by eapply moved_snoop_resp.
  - apply answer_ok; [|done].
    match goal with E : processSendEvent _ _ _ _ = Ok _ |- _ => unfold processSendEvent in E; run_in E end.
    by match goal with E : sendDeferredPacket _ _ _ _ = Ok _ |- _ => apply sendDeferred_list in E end.
  - apply answer_ok; [|done].
    match goal with E : retry _ _ _ _ = Ok _ |- _ => unfold retry in E; run_in E end.
    by match goal with E : sendDeferredPacket _ _ _ _ = Ok _ |- _ => apply sendDeferred_list in E end.
  - destruct Ho as [Hbal Hs Hbl]. split; try done. destruct Hbl as [Hb Hr Hp He Hm]. by split.
  - eapply run_passed_none, Ho. apply moved_passed, drain_moved.
Qed.

(** The constructors leave an empty cache that is not blocked. *)
Lemma TCache_new_ok (p : CacheParams) (x : T) (bytes : list (list Z)) (temp : list Z)
    (entries maxMiss write_buffers tgts : Z) (ranges : list AddrRange) (m : M) :
  1 <= entries -> 1 <= write_buffers ->
  run_ok (MkTRun (TCache_new (Cache_new p x bytes temp entries maxMiss) entries write_buffers tgts ranges)
    m [] []).
Proof.
  intros He Hw.
  assert (Hp : forall n, pool (replicate n MSHR_new) = []) by (induction n; [done|]; by cbn).
  assert (Hreg : pool (regs (TCache_new (Cache_new p x bytes temp entries maxMiss) entries
      write_buffers tgts ranges)) = []).
  { unfold regs, TCache_new, Cache_new. cbn. unfold pool. rewrite bind_app.
    fold (pool (replicate (Z.to_nat (entries + 4 - 1)) MSHR_new)).
    by rewrite Hp, (Hp (Z.to_nat _)). }
  assert (Hf : forall n r b, 1 <= n -> isFull (MSHRQueue_new n r b) = false).
  { intros n r b Hn. unfold isFull, MSHRQueue_new. cbn. apply Z.ltb_ge. lia. }
  split; cbn [run_cache taken answered].
  - unfold outstanding. by rewrite Hreg.
  - by rewrite Hreg.
  - split; try done. intros [] Hc; try done; cbn; symmetry; by apply Hf.
Qed.

Lemma reachable_ok s0 s : run_ok s0 -> rtc (tstep funcMasterId) s0 s -> run_ok s.
Proof. intros Ho Hr. induction Hr as [|s1 s2 s3 Hst _ IH]; [done|]. by eapply IH, tstep_ok. Qed.
End runs.

Section totals.
Context {T : Type}.
Implicit Types (t : TCache T).

Lemma setBlocked_total env c t : backpressure t -> exists t', setBlocked env c t = Ok t'.
Proof.
  intros [_ _ Hp _ _]. unfold setBlocked, port_setBlocked. unfold isBlocked in Hp.
  destruct (blocked t =? 0) eqn:E; cbn [mbind outcome_bind]; [|by eexists].
  cbn. rewrite Hp. cbn. destruct (sendRetryEvent (port t)); by eexists.
Qed.

Lemma clearBlocked_total env c t : c <> NUM_BLOCKED_CAUSES -> backpressure t ->
  Z.testbit (blocked t) (cause_number c) = true -> exists t', clearBlocked env c t = Ok t'.
Proof.
  intros Hc [_ Hr Hp He _] Hb. destruct (mask_clear (blocked t) c Hr Hc) as (_ & Hn & _).
  specialize (Hn Hb). unfold isBlocked in Hp. rewrite (proj2 (Z.eqb_neq _ _) Hn) in Hp.
  unfold clearBlocked, port_clearBlocked. cbn. destruct (_ =? 0); [|by eexists].
  rewrite Hp. cbn. destruct (mustSendRetry (port t)); [|by eexists]. rewrite (He Hp). by eexists.
Qed.
End totals.
