(* ===== verification/Registers.v ===== *)
(** The registers of a cache in timing mode: over any sequence of events both
    of its queues keep their books, and while a request waits to be sent, the
    port to the memory side will try again. *)
From S2P Require Import Prelude MemTypes Blk SetAssoc Policy Memory Mshr Queue Cache CacheSide.
From S2P Require Import PacketQueue CacheBase Snoop Timing Frames Ledger TimingLaws.

#[local] Open Scope Z_scope.

(** ** One register at a time *)

(** The queues of other registers do not notice. *)
Lemma queue_ok_apart ids q m h h' :
  touches m h h' -> m ∉ ids -> queue_ok ids q h -> queue_ok ids q h'.
Proof.
  intros [Hl Ht] Hm Q. apply (queue_ok_others ids q h); [|done]. intros i Hi.
  destruct (qo_regs Q i Hi) as (x & Hx & _). destruct (Ht i x) as (x' & ? & ?); [by intros ->|done|].
  by exists x, x'.
Qed.

Lemma allocate_touches ids now addr size pkt s wr o q h m q' h' : queue_ok ids q h ->
  allocate_mshr now addr size pkt s wr o q h = Ok (m, q', h') -> m ∈ ids /\ touches m h h'.
Proof.
  intros Q. unfold allocate_mshr. destruct (freeList q) as [|m0 free] eqn:Ef; [done|]. intros E.
  assert (Hin : m0 ∈ freeList q) by (rewrite Ef; set_solver). run_in E. apply aget_Ok in E0.
  split; [apply (lo_in (qo_lists Q)); by right|].
  by destruct (allocate_reg _ _ _ _ _ _ _ _ _ _ E0 (qo_free Q _ _ Hin E0) E2).
Qed.

(** A step at register [m] that leaves the ready times alone, ... *)
Definition timeless (m : nat) (h h' : Heap) : Prop :=
  touches m h h' /\ forall i, ready_at h' i = ready_at h i.

Lemma timeless_trans m h1 h2 h3 : timeless m h1 h2 -> timeless m h2 h3 -> timeless m h1 h3.
Proof.
  intros [T1 R1] [T2 R2]. split; [by eapply touches_trans|]. intros i. by rewrite R2.
Qed.
Lemma timeless_insert m x y h : h !! m = Some x -> m_readyTime y = m_readyTime x ->
  timeless m h (<[m := y]> h).
Proof.
  intros Hx Hy. split; [apply touches_insert|]. intros i. unfold ready_at.
  destruct (decide (i = m)) as [->|Hne].
  - by rewrite (insert_lookup m h y x Hx), Hx.
  - by rewrite list_lookup_insert_ne by done.
Qed.
Lemma timeless_eqv m h h' : heap_eqv h h' -> timeless m h h'.
Proof.
  intros He. split; [by apply touches_eqv|]. intros i. unfold ready_at.
  destruct (h !! i) as [x|] eqn:Hx.
  - destruct (heap_eqv_lookup _ _ _ _ He Hx) as (x' & -> & S).
    exact (same_reg_use m_readyTime _ _ (fun _ => eq_refl) S).
  - rewrite lookup_ge_None_2; [done|]. apply lookup_ge_None in Hx.
    apply Forall2_length in He. lia.
Qed.
Lemma timeless_keeps ids m q h h' : queue_ok ids q h -> m ∈ allocatedList q -> Queue.keeps m h h' ->
  timeless m h h'.
Proof.
  intros Q Hm [T K]. split; [done|]. intros i. destruct (decide (i = m)) as [->|Hne].
  - destruct (qo_reg Q m Hm) as (x & Hx & Hok). destruct (K x Hx Hok) as (x' & Hx' & _ & _ & Hr).
    unfold ready_at. by rewrite Hx, Hx'.
  - by apply (touches_ready m).
Qed.

(** ... and brings no register to the ready list. *)
Definition quieter (m : nat) (q : MSHRQueue) (h : Heap) (q' : MSHRQueue) (h' : Heap) : Prop :=
  timeless m h h' /\ readyList q' ⊆ readyList q.

Lemma erase_subset m l l' : erase m l = Ok l' -> l' ⊆ l.
Proof.
  unfold erase, without. case_decide; [|done]. intros [= <-] i Hi. by apply list_elem_of_filter in Hi as [_ ?].
Qed.

Lemma deallocateOne_quieter m q h q' h' : deallocateOne m q h = Ok (q', h') -> quieter m q h q' h'.
Proof.
  unfold deallocateOne. intros E. run_in E. apply aget_Ok in E1.
  match goal with E : mshr_deallocate _ = Ok ?x |- _ =>
    assert (Hx : m_readyTime x = m_readyTime r0) by (clear -E; unfold mshr_deallocate in E; by opens) end.
  assert (Hr : readyList r1 ⊆ readyList q).
  { destruct (inService r0); run_in E2; [done|]. cbn in *. by eapply erase_subset. }
  destruct (draining r1 && _); run_in E; (split; [by eapply timeless_insert|done]).
Qed.

Lemma markInService_quieter fuel p m q h q' h' :
  markInService fuel p m q h = Ok (q', h') -> quieter m q h q' h'.
Proof.
  unfold markInService, mshr_markInService. intros E. opens;
    match goal with E : aget _ _ = Ok _ |- _ => apply aget_Ok in E as Hx end.
  - match goal with E : deallocateOne _ _ _ = Ok _ |- _ => apply deallocateOne_quieter in E as [Hd Hr] end.
    match goal with E : popTarget _ = Ok _ |- _ => apply popTarget_Ok in E as (? & ? & _ & ->) end.
    split; [|done]. eapply timeless_trans; [|exact Hd]. by eapply timeless_insert.
  - split; [|cbn; by eapply erase_subset].
    match goal with E : tl_clear _ _ (<[_ := ?y]> _) = Ok _ |- _ =>
      apply (timeless_trans m h (<[m := y]> h)); [by eapply timeless_insert|];
      apply timeless_eqv; eapply tl_clear_Ok; [|exact E] end.
    apply clearDownstreamPending_Ok.
  - split; [|cbn; by eapply erase_subset]. eapply timeless_insert; [exact Hx|done].
Qed.

Lemma forceDeallocateTarget_touches now m q h b q' h' :
  forceDeallocateTarget now m q h = Ok (b, q', h') -> touches m h h'.
Proof.
  unfold forceDeallocateTarget. intros E. opens;
    try match goal with E : deallocateOne _ _ _ = Ok _ |- _ => apply deallocateOne_quieter in E as [[Hd _] _] end;
    try (eapply touches_trans; [|exact Hd]); apply touches_insert.
Qed.

Lemma markPending_touches m q h q' h' : markPending m q h = Ok (q', h') -> touches m h h'.
Proof. unfold markPending. intros E. opens. apply touches_insert. Qed.

(** Searches find allocated registers, or waiting ones. *)
Lemma find_mshr_in p h l r : find_mshr p h l = Ok (Some r) -> r ∈ l.
Proof.
  induction l as [|m l IH]; cbn [find_mshr]; intros E; [done|]. run_in E.
  destruct (p r0); [injection E as <-|]; set_solver.
Qed.
Lemma find_mshrs_in p h l ms : find_mshrs p h l = Ok ms -> ms ⊆ l.
Proof.
  revert ms. induction l as [|m l IH]; cbn [find_mshrs]; intros ms E; run_in E; [done|].
  specialize (IH _ eq_refl). case_match; set_solver.
Qed.

(** ** The books of both queues *)

Definition other (i : MSHRQueueIndex) : MSHRQueueIndex :=
  match i with MSHRQueue_MSHRs => MSHRQueue_WriteBuffer | MSHRQueue_WriteBuffer => MSHRQueue_MSHRs end.

(** A register waits to be sent, and its time will come. *)
Definition pressing {T} (t : TCache T) : Prop :=
  exists i r, r ∈ readyList (get_queue i t) /\ ready_at (regs t) r < MaxTick.

Section books.
Context {T : Type} (base total : nat).
Implicit Types (t : TCache T) (i : MSHRQueueIndex).

(** The registers of each queue: those of the miss queue come first. *)
Definition own i : list nat :=
  match i with
  | MSHRQueue_MSHRs => seq 0 base
  | MSHRQueue_WriteBuffer => seq base (total - base)
  end.

(** The second half only holds when [w] is set: it lapses while the port is
    busy sending. *)
Record tidy (w : bool) t : Prop := {
  td_base : wb_base t = base;
  td_total : length (regs t) = total;
  td_queue i : queue_ok (own i) (get_queue i t) (regs t);
  td_wake : w = true -> pressing t -> awake (memSide t)
}.

Lemma own_other i m : m ∈ own i -> m ∉ own (other i).
Proof. destruct i; cbn; rewrite !elem_of_seq; lia. Qed.

Lemma own_side w t i m : tidy w t -> m ∈ own i -> queue_of m t = i.
Proof.
  intros [Hb _ _ _] Hm. unfold queue_of. rewrite Hb.
  destruct i; cbn in Hm; apply elem_of_seq in Hm; destruct (Nat.leb_spec base m); try done; lia.
Qed.

Lemma tidy_own w t m x : tidy w t -> regs t !! m = Some x -> m ∈ own (queue_of m t).
Proof.
  intros [Hb Ht _ _] Hx. apply lookup_lt_Some in Hx. unfold queue_of. rewrite Hb.
  destruct (Nat.leb_spec base m); cbn; rewrite elem_of_seq; lia.
Qed.

(** A register in service is allocated. *)
Lemma served_allocated w t m x : tidy w t -> regs t !! m = Some x -> inService x = true ->
  m ∈ allocatedList (get_queue (queue_of m t) t).
Proof.
  intros Ht Hx Hs. pose proof (td_queue _ _ Ht (queue_of m t)) as Q.
  pose proof (tidy_own _ _ _ _ Ht Hx) as Ho. apply (lo_in (qo_lists Q)) in Ho as [Ho|Ho]; [done|].
  destruct (qo_free Q _ _ Ho Hx) as [Hf _]. congruence.
Qed.

Lemma allocated_side w t i m : tidy w t -> m ∈ allocatedList (get_queue i t) -> queue_of m t = i.
Proof.
  intros Ht Hm. apply (own_side _ _ _ _ Ht). apply (lo_in (qo_lists (td_queue _ _ Ht i))). by left.
Qed.

Lemma get_queue_other i t t' :
  get_queue i t' = get_queue i t -> get_queue (other i) t' = get_queue (other i) t ->
  forall j, get_queue j t' = get_queue j t.
Proof. by intros ?? j; destruct i, j. Qed.

Lemma tidy_step w i m t t' : tidy w t -> m ∈ own i -> touches m (regs t) (regs t') ->
  wb_base t' = wb_base t -> get_queue (other i) t' = get_queue (other i) t ->
  queue_ok (own i) (get_queue i t') (regs t') ->
  (w = true -> (pressing t -> awake (memSide t)) -> pressing t' -> awake (memSide t')) ->
  tidy w t'.
Proof.
  intros [Hb Hl Hq Hw] Hm Ht Hb' Ho Q Hw'. split.
  - congruence.
  - by rewrite (proj1 Ht).
  - intros j. destruct (decide (j = i)) as [->|Hne]; [done|].
    assert (j = other i) as -> by (by destruct i, j). rewrite Ho.
    eapply queue_ok_apart; [exact Ht|by apply own_other|apply Hq].
  - intros -> Hp. apply Hw'; [done| |done]. by apply Hw.
Qed.

(** Nothing that matters changed, or only the place of the memory side. *)
Lemma tidy_same w t t' : regs t' = regs t -> (forall i, get_queue i t' = get_queue i t) ->
  wb_base t' = wb_base t -> (awake (memSide t) -> awake (memSide t')) -> tidy w t -> tidy w t'.
Proof.
  intros Er Eq Eb Ea [Hb Hl Hq Hw]. split; [congruence|congruence| |].
  - intros i. rewrite Er, Eq. apply Hq.
  - intros Hww (i & r & Hr & Ht). apply Ea, Hw; [done|]. exists i, r. by rewrite <- Eq, <- Er.
Qed.

Lemma calm_tidy w g n t t' : calm g n t t' -> tidy w t -> tidy w t'.
Proof.
  intros [[Hm Hq] Hr]. apply tidy_same; [done| |apply (mv_base _ _ _ _ Hm)|apply (mv_awake _ _ _ _ Hm)].
  unfold queues in Hq. injection Hq as E1 E2. by intros [].
Qed.

Lemma calm_queue g n t t' i : calm g n t t' -> get_queue i t' = get_queue i t.
Proof. intros [[_ Hq] _]. unfold queues in Hq. injection Hq as E1 E2. by destruct i. Qed.

Lemma allocated_own w t i m : tidy w t -> m ∈ allocatedList (get_queue i t) ->
  m ∈ allocatedList (get_queue (queue_of m t) t).
Proof. intros Ht Hm. by rewrite (allocated_side _ _ _ _ Ht Hm). Qed.

Lemma same_state_tidy w t t' : same_state t t' -> tidy w t -> tidy w t'.
Proof.
  intros (S1 & S2 & S3 & S4 & S5 & S6). apply tidy_same; [by unfold regs; rewrite S1| |done|by rewrite S6].
  intros []; cbn; by rewrite ?S1.
Qed.

(** A register changes in place. *)
Lemma keeps_tidy w i m h t : m ∈ allocatedList (get_queue i t) -> Queue.keeps m (regs t) h ->
  tidy w t -> tidy w (set_regs h t).
Proof.
  intros Hm K Ht. pose proof (td_queue _ _ Ht i) as Q.
  assert (Hg : forall j, get_queue j (set_regs h t) = get_queue j t) by (by intros []).
  apply (tidy_step w i m t); try done.
  - apply (lo_in (qo_lists Q)). by left.
  - apply K.
  - rewrite Hg. by eapply queue_ok_keeps.
  - intros _ Hw (j & r & Hr & Hlt). apply Hw. exists j, r. rewrite Hg in Hr. split; [done|].
    destruct (timeless_keeps _ _ _ _ _ Q Hm K) as [_ E]. by rewrite <- E.
Qed.

Lemma set_queue_tidy w i m q h t t' : m ∈ own i -> touches m (regs t) h -> queue_ok (own i) q h ->
  (w = true -> (pressing t -> awake (memSide t)) -> pressing t' -> awake (memSide t')) ->
  regs t' = h -> get_queue i t' = q -> get_queue (other i) t' = get_queue (other i) t ->
  wb_base t' = wb_base t -> tidy w t -> tidy w t'.
Proof. intros Hm HT Q Hw Er Ei Eo Eb Ht. apply (tidy_step w i m t); try done; by rewrite Er, ?Ei. Qed.

Lemma quieter_pressing i m q h t t' : quieter m (get_queue i t) (regs t) q h ->
  regs t' = h -> get_queue i t' = q -> get_queue (other i) t' = get_queue (other i) t ->
  memSide t' = memSide t -> (pressing t -> awake (memSide t)) -> pressing t' -> awake (memSide t').
Proof.
  intros [[_ Hr] Hs] Er Ei Eo Em Hw (j & r & Hj & Hlt). rewrite Em. apply Hw.
  exists j, r. rewrite Er, Hr in Hlt. split; [|done].
  destruct (decide (j = i)) as [->|Hne]; [rewrite Ei in Hj; by apply Hs|].
  assert (j = other i) as -> by (by destruct i, j). by rewrite <- Eo.
Qed.

Lemma other_set_queue i q h t : get_queue (other i) (set_queue i q h t) = get_queue (other i) t.
Proof. by destruct i. Qed.

Lemma request_fields env time t t' : requestMemSideBus env time t = Ok t' ->
  awake (memSide t') /\ regs t' = regs t /\ wb_base t' = wb_base t /\
  forall j, get_queue j t' = get_queue j t.
Proof.
  intros E. split; [by eapply requestMemSideBus_awake|].
  unfold requestMemSideBus in E. by opens.
Qed.

(** *** Allocation and service *)

Lemma allocate_tidy w env i addr size pkt time t t' m :
  allocateBufferInternal env i addr size pkt time true t = Ok (t', m) -> tidy w t -> tidy w t'.
Proof.
  unfold allocateBufferInternal. intros E Ht. run_in E. rename m0 into q, l into h, r into t2.
  pose proof (td_queue _ _ Ht i) as Q.
  destruct (allocate_touches _ _ _ _ _ _ _ _ _ _ _ _ _ Q E0) as [Hm HT].
  pose proof (allocate_step Q _ _ _ _ _ _ _ _ _ _ E0) as Q'.
  set (t1 := next_order (set_queue i q h t)) in *.
  destruct (set_queue_fields i q h t) as (F1 & F2 & F3 & F4 & F5 & F6 & F7).
  assert (S : same_state t1 t2).
  { destruct (isFull (get_queue i t1)); [|by injection E1 as <-].
    by destruct (setBlocked_Ok env (queue_cause i) (cause_holds t) t1 t2 (queue_cause_named i) E1). }
  destruct (request_fields _ _ _ _ E2) as (Ha & Er & Eb & Eg). destruct S as (S1 & S2 & S3 & S4 & S5 & S6).
  assert (Eg2 : forall j, get_queue j t2 = get_queue j t1) by (intros []; cbn; by rewrite ?S1, ?S2).
  apply (set_queue_tidy w i m q h t); try done.
  - rewrite Er. unfold regs. rewrite S1. exact F1.
  - rewrite Eg, Eg2. apply get_set_queue.
  - rewrite Eg, Eg2. apply other_set_queue.
  - rewrite Eb, S3. exact F3.
Qed.

Lemma markInService_tidy w env m p t t' : markInServiceInternal env m p t = Ok t' ->
  m ∈ allocatedList (get_queue (queue_of m t) t) -> tidy w t -> tidy w t'.
Proof.
  unfold markInServiceInternal. intros E Hm Ht. run_in E. rename m0 into q, l into h.
  set (i := queue_of m t) in *. pose proof (td_queue _ _ Ht i) as Q.
  pose proof (markInService_quieter _ _ _ _ _ _ _ E0) as Hq.
  apply (markInService_step Q) in E0; [|done].
  destruct (set_queue_fields i q h t) as (F1 & F2 & F3 & F4 & F5 & F6 & F7).
  apply (same_state_tidy w (set_queue i q h t)).
  { destruct (_ && _); [|by injection E as <-].
    by destruct (clearBlocked_Ok env (queue_cause i) (cause_holds t) _ t' (queue_cause_named i) E). }
  apply (set_queue_tidy w i m q h t); try done.
  - apply (lo_in (qo_lists Q)). by left.
  - apply Hq.
  - intros _. eapply (quieter_pressing i m); try done; [apply get_set_queue|apply other_set_queue].
  - apply get_set_queue.
  - apply other_set_queue.
Qed.
End books.

(** ** Requests and snoops *)

Section requests.
Context {T M : Type} `{Policy T} `{MemSide M} `{CpuSide} (base total : nat).
Implicit Types (t : TCache T) (m : M) (p : CPkt).
Abbreviation tidy := (tidy base total).

Lemma allocateWriteBuffer_tidy w env pkt time t t' r :
  allocateWriteBuffer env pkt time true t = Ok (t', r) -> tidy w t -> tidy w t'.
Proof. unfold allocateWriteBuffer. intros E. opens. by eapply allocate_tidy. Qed.

Lemma allocate_wbs_tidy w env wbs time t t' :
  allocate_writebacks env wbs time t = Ok t' -> tidy w t -> tidy w t'.
Proof.
  unfold allocate_writebacks. revert t. induction wbs as [|b wbs IH]; intros t E Ht;
    cbn [foldO] in E; opens; [done|]. eapply IH; [exact E|]. by eapply allocateWriteBuffer_tidy.
Qed.

Lemma uncacheable_tidy w env f time q t m t' m' p' :
  timing_uncacheable env f time q t m = Ok (t', m', p') -> tidy w t -> tidy w t'.
Proof.
  unfold timing_uncacheable. intros E Ht. run_in E.
  pose proof (moved_keeps _ t _ _ E0) as Hc. cbn [fst] in Hc. apply (calm_tidy _ _ w _ _ _ _ Hc) in Ht.
  opens; try (by eapply calm_tidy; [eapply moved_respond|]).
  - by eapply allocateWriteBuffer_tidy.
  - unfold allocateUncachedReadBuffer in *. opens. by eapply allocate_tidy.
Qed.

Lemma coalesce_tidy w env time r q t t' : coalesce env time r q t = Ok t' ->
  r ∈ allocatedList (mshrQueue (tc t)) -> tidy w t -> tidy w t'.
Proof.
  unfold coalesce. intros E Hr Ht. run_in E. rename r0 into t1.
  match goal with E : count_mshr _ _ _ _ _ = Ok _ |- _ => apply count_calm in E as Hc end.
  assert (Hr1 : r ∈ allocatedList (get_queue MSHRQueue_MSHRs t1)).
  { destruct Hc as [[_ Hq] _]. unfold queues in Hq. injection Hq as Hq _. cbn. by rewrite Hq. }
  apply (calm_tidy _ _ w _ _ _ _ Hc) in Ht.
  assert (K : Queue.keeps r (regs t1) r2).
  { eapply same_lists_trans; [eapply keeps_updM; [|exact E1]|by eapply allocateTarget_keeps].
    cbv beta. intros x Hx. by destruct (threadNum x =? 0). }
  apply (keeps_tidy _ _ w MSHRQueue_MSHRs r r2 t1 Hr1 K) in Ht.
  assert (Ht2 : tidy w (next_order (set_regs r2 t1))) by (by eapply tidy_same; [..|exact Ht]).
  destruct (_ =? _); [|by injection E as <-].
  destruct (setBlocked_Ok env Blocked_NoTargets (cause_holds t) _ t' ltac:(done) E) as [S _].
  eapply same_state_tidy; [exact S|]. by eapply tidy_same; [..|exact Ht2].
Qed.

Lemma new_miss_tidy w env time or q t t' : new_miss env time or q t = Ok t' -> tidy w t -> tidy w t'.
Proof.
  unfold new_miss, allocateMissBuffer. intros E Ht. run_in E.
  match goal with E : count_mshr _ _ _ _ _ = Ok _ |- _ => apply count_calm in E as Hc end.
  apply (calm_tidy _ _ w _ _ _ _ Hc) in Ht. destruct (decide _).
  - opens. by eapply allocateWriteBuffer_tidy.
  - opens; repeat match goal with E : on_cache _ _ = Ok _ |- _ =>
      apply calm_on_cache in E as Hc2; [|intros; apply _]; clear E;
      apply (calm_tidy _ _ w _ _ _ _ Hc2) in Ht end; by eapply allocate_tidy.
Qed.

Lemma blocked_tidy w env t t' : setBlocked env Blocked_PendingWriteInvalidate t = Ok t' ->
  tidy w t -> tidy w t'.
Proof.
  intros E. apply same_state_tidy.
  by destruct (setBlocked_Ok env Blocked_PendingWriteInvalidate (cause_holds t) t t' ltac:(done) E).
Qed.

Lemma answer_prefetch_calm env lat mshr q t t' o p' :
  answer_prefetch env lat mshr q t = Ok (t', o, p') -> exists n, calm [] n t t'.
Proof.
  unfold answer_prefetch. intros E. opens; [eexists; by eapply moved_respond..|exists []; apply calm_refl].
Qed.

Lemma timing_miss_tidy w env time lat or q t t' ok p' :
  timing_miss env time lat or q t = Ok (t', ok, p') -> tidy w t -> tidy w t'.
Proof.
  unfold timing_miss. intros E Ht. run_in E. destruct r; run_in E; [by eapply blocked_tidy|].
  match goal with E : answer_prefetch _ _ _ _ _ = Ok _ |- _ =>
    apply answer_prefetch_calm in E as [n Hc] end.
  pose proof (calm_tidy _ _ w _ _ _ _ Hc Ht) as Ht1.
  destruct r as [r|].
  - destruct o; [|by opens]. opens. eapply coalesce_tidy; [eassumption| |done].
    match goal with E : findMatch _ _ _ _ = Ok _ |- _ => apply find_mshr_in in E end.
    destruct Hc as [[_ Hq] _]. unfold queues in Hq. injection Hq as Hq _. by rewrite Hq.
  - opens. by eapply new_miss_tidy.
Qed.

Lemma recvTimingReq_tidy w env f q t m t' m' ok p' :
  recvTimingReq env f q t m = Ok (t', m', ok, p') -> tidy w t -> tidy w t'.
Proof.
  unfold recvTimingReq. intros E Ht. run_in E. destruct (bypassCaches _).
  { run_in E. eapply calm_tidy; [apply moved_direct|exact Ht]. }
  run_in E. destruct (memInhibitAsserted _).
  { unfold timing_inhibited in E. opens; try done. eapply calm_tidy; [apply moved_direct|exact Ht]. }
  destruct (isUncacheable _); [run_in E; by eapply uncacheable_tidy|].
  run_in E. cbv zeta in E.
  match goal with E : access _ _ _ _ _ _ = Ok _ |- _ => pose proof (moved_keeps _ t _ _ E) as Hc end.
  apply (calm_tidy _ _ w _ _ _ _ Hc) in Ht.
  destruct (bool_decide _ && _ && _); [run_in E; by eapply blocked_tidy|]. run_in E.
  match goal with E : (if _ then _ else timing_miss _ _ _ _ _ ?t1) = Ok (?t2, _, _) |- _ =>
    assert (Ht2 : tidy w t2) end.
  { clear E. destruct (a_ok _ && _); [|by eapply timing_miss_tidy]. opens. unfold timing_hit in *.
    opens; [|done]. by eapply calm_tidy; [eapply moved_respond|]. }
  destruct b; run_in E; [by eapply allocate_wbs_tidy|done].
Qed.

Lemma port_recvTimingReq_tidy w env f q t m t' m' ok p' :
  port_recvTimingReq env f q t m = Ok (t', m', ok, p') -> tidy w t -> tidy w t'.
Proof.
  unfold port_recvTimingReq. intros E Ht. run_in E.
  match goal with E : _ = Ok (?t1, _, _, _) |- _ => assert (Ht1 : tidy w t1) end.
  { opens; try done; by eapply recvTimingReq_tidy. }
  by eapply tidy_same; [..|exact Ht1].
Qed.

(** *** Snoops *)

Lemma snoop_writeback_tidy w env r s p t t' p' : r ∈ allocatedList (writeBuffer t) ->
  snoop_writeback env r s p t = Ok (t', p') -> tidy w t -> tidy w t'.
Proof.
  unfold snoop_writeback. intros Hr E Ht. run_in E.
  apply aget_Ok in E0 as Hx. rename r0 into x.
  destruct (tl_list (targets x)) as [|tgt ts] eqn:El; [done|]. run_in E. cbv zeta in *.
  match goal with E : doTimingSupplyResponse _ _ _ _ _ (set_regs ?h _) = Ok _ |- _ =>
    assert (K : Queue.keeps r (regs t) h) by (eapply (keeps_insert r (regs t) x); [done|by intros []]);
    apply (keeps_tidy _ _ w MSHRQueue_WriteBuffer r h t Hr K) in Ht; apply supply_calm in E as Hc end.
  pose proof (calm_tidy _ _ w _ _ _ _ Hc Ht) as Ht1.
  destruct (isInvalidate (pk_cmd p')); [|by run_in E7]. eapply markInService_tidy; [eassumption| |done].
  eapply (allocated_own _ _ w _ MSHRQueue_WriteBuffer); [exact Ht1|]. by rewrite (calm_queue _ _ _ _ _ Hc).
Qed.

Lemma recvTimingSnoopReq_tidy w env ex p s t t' p' :
  recvTimingSnoopReq env ex p s t = Ok (t', p') -> tidy w t -> tidy w t'.
Proof.
  unfold recvTimingSnoopReq. intros E Ht. run_in E. destruct (isUncacheable p || _ || _); run_in E; [done|].
  cbv zeta in E. run_in E. destruct (bool_decide (_ <> None) && _); run_in E; [done|].
  match goal with E : match ?o with Some _ => _ | None => _ end = Ok (_, _, ?t1) |- _ =>
    assert (Ht1 : tidy w t1) end.
  { clear E. opens; [|done].
    match goal with E : mshr_handleSnoop _ _ _ _ _ ?r _ = Ok (_, _, ?h), F : findMatch _ _ _ _ = Ok _ |- _ =>
      apply snoop_keeps in E; apply find_mshr_in in F;
      apply (keeps_tidy _ _ w MSHRQueue_MSHRs r h t F E) in Ht end.
    by eapply tidy_same; [..|exact Ht]. }
  destruct b; run_in E; [done|].
  match goal with E : (if ?b then _ else _) = Ok (?t2, _) |- _ => assert (Ht2 : tidy w t2) end.
  { clear E. opens; try done. all: eapply snoop_writeback_tidy; [|eassumption|done].
    all: unfold findMatches in *; opens; match goal with E : find_mshrs _ _ _ = Ok _ |- _ => apply find_mshrs_in in E end; set_solver. }
  by eapply calm_tidy; [eapply handleSnoop_calm|].
Qed.

Lemma recvAtomicSnoop_tidy w env p t t' p' l :
  recvAtomicSnoop env p t = Ok (t', p', l) -> tidy w t -> tidy w t'.
Proof.
  unfold recvAtomicSnoop. intros E Ht. opens; [done|]. by eapply calm_tidy; [eapply handleSnoop_calm|].
Qed.
End requests.

(** ** Sending *)

Section sends.
Context {T : Type} `{Policy T} `{CpuSide} (base total : nat).
Implicit Types (t : TCache T) (p : CPkt).
Abbreviation tidy := (tidy base total).

Lemma getNextMSHR_in now q h r : getNextMSHR now q h = Ok (Some r) -> r ∈ readyList q.
Proof.
  unfold getNextMSHR. destruct (readyList q) as [|m l]; [done|]. intros E. run_in E.
  destruct (now <? _); [done|]. injection E as <-. set_solver.
Qed.

Lemma cache_getNextMSHR_in env t r : cache_getNextMSHR env t = Ok (Some r) ->
  exists i, r ∈ readyList (get_queue i t).
Proof.
  unfold cache_getNextMSHR. intros E. run_in E.
  assert (Hw : forall i m, getNextMSHR (curTick env) (get_queue i t) (regs t) = Ok (Some m) ->
    m ∈ readyList (get_queue i t)) by (intros i m; apply getNextMSHR_in).
  pose proof (Hw MSHRQueue_MSHRs) as Hm. pose proof (Hw MSHRQueue_WriteBuffer) as Hb. cbn in Hm, Hb.
  destruct r0 as [m|], r1 as [k|]; try (injection E as <-); try done;
    [|exists MSHRQueue_MSHRs; cbn; auto|exists MSHRQueue_WriteBuffer; cbn; auto].
  run_in E. destruct (isFull _ && _); run_in E.
  - destruct r2 as [c|]; [|injection E as <-; exists MSHRQueue_WriteBuffer; cbn; auto]. run_in E.
    case_match; [exists MSHRQueue_MSHRs|exists MSHRQueue_WriteBuffer]; cbn; [|by auto].
    unfold findPending in *. by eapply find_mshr_in.
  - destruct r2 as [c|]; cbn [default]; [exists MSHRQueue_WriteBuffer|exists MSHRQueue_MSHRs]; cbn; [|by auto].
    unfold findPending in *. by eapply find_mshr_in.
Qed.

Lemma force_tidy env r b q h t t' : r ∈ readyList (get_queue (queue_of r t) t) ->
  forceDeallocateTarget (curTick env) r (get_queue (queue_of r t) t) (regs t) = Ok (b, q, h) ->
  same_state (set_queue (queue_of r t) q h t) t' -> tidy false t -> tidy false t'.
Proof.
  intros Hr E S Ht. set (i := queue_of r t) in *. pose proof (td_queue _ _ _ _ Ht i) as Q.
  assert (Ha : r ∈ allocatedList (get_queue i t)) by (by apply (lo_ready (qo_lists Q)) in Hr as [? _]).
  eapply same_state_tidy; [exact S|].
  destruct (set_queue_fields i q h t) as (F1 & F2 & F3 & F4 & F5 & F6 & F7).
  apply (set_queue_tidy _ _ false i r q h t); try done.
  - apply (lo_in (qo_lists Q)). by left.
  - by eapply forceDeallocateTarget_touches.
  - pose proof E as E'. unfold forceDeallocateTarget in E'. run_in E'.
    match goal with E : aget _ _ = Ok ?x, Hh : hasTargets ?x = true |- _ =>
      apply aget_Ok in E as Hx; destruct (force_ok Q (curTick env) r x Hr Hx) as (? & ? & ? & Ef & Q') end.
    + intros El. by match goal with Hh : hasTargets _ = true |- _ => unfold hasTargets in Hh; rewrite El in Hh end.
    + rewrite Ef in E. by injection E as _ <- <-.
  - apply get_set_queue.
  - apply other_set_queue.
Qed.

Lemma snoop_prefetch_tidy env r p t t' b : r ∈ readyList (get_queue (queue_of r t) t) ->
  snoop_prefetch env r p t = Ok (t', b) -> tidy false t ->
  tidy false t' /\ (b = true -> t' = t).
Proof.
  intros Hr. unfold snoop_prefetch. cbv zeta. intros E Ht. destruct (prefetchSquashed _).
  - run_in E. split; [|done].
    match goal with E : forceDeallocateTarget _ _ _ _ = Ok _ |- _ =>
      eapply force_tidy; [exact Hr|exact E| |exact Ht] end.
    destruct b0; [|by match goal with E : Ok _ = Ok _ |- _ => injection E as <- end].
    match goal with E : clearBlocked _ _ ?t1 = Ok _ |- _ =>
      by destruct (clearBlocked_Ok env _ (cause_holds t) t1 t' (queue_cause_named _) E) end.
  - destruct (memInhibitAsserted _); run_in E; [|done]. split; [|done].
    eapply markInService_tidy; [eassumption| |done].
    by apply (lo_ready (qo_lists (td_queue _ _ _ _ Ht _))) in Hr as [? _].
Qed.

Lemma bus_packet_tidy w r ob p t t' p' : r ∈ allocatedList (get_queue (queue_of r t) t) ->
  bus_packet r ob p t = Ok (t', p') -> tidy w t ->
  tidy w t' /\ r ∈ allocatedList (get_queue (queue_of r t') t').
Proof.
  unfold bus_packet. intros Hr E Ht. run_in E.
  match goal with E : updM r ?f (regs t) = Ok ?h |- _ =>
    assert (K : Queue.keeps r (regs t) h) by (eapply keeps_updM; [|exact E]; by intros ? []);
    apply (keeps_tidy _ _ w (queue_of r t) r h t Hr K) in Ht;
    assert (Hr' : r ∈ allocatedList (get_queue (queue_of r t) (set_regs h t)))
      by (destruct (queue_of r t); exact Hr) end.
  opens; (split; [done|]); by eapply allocated_own.
Qed.

Lemma getTimingPacket_tidy env t t' o : getTimingPacket env t = Ok (t', o) -> tidy false t ->
  tidy false t' /\ forall p r, o = Some (p, r) -> r ∈ allocatedList (get_queue (queue_of r t') t').
Proof.
  unfold getTimingPacket. intros E Ht. run_in E. destruct r as [r|]; [|run_in E; by split].
  match goal with E : cache_getNextMSHR _ _ = Ok _ |- _ => apply cache_getNextMSHR_in in E as [i Hr] end.
  assert (Ha : r ∈ allocatedList (get_queue i t))
    by (by apply (lo_ready (qo_lists (td_queue _ _ _ _ Ht i))) in Hr as [? _]).
  pose proof (allocated_side _ _ _ _ _ _ Ht Ha) as Hi. rewrite <- Hi in Hr, Ha.
  run_in E. destruct r2; run_in E; [split; [done|]; by intros ? ? [= _ <-]|].
  match goal with E : (if decide _ then _ else _) = Ok (?t1, ?b) |- _ =>
    assert (Hs : tidy false t1 /\ (b = true -> t1 = t)) end.
  { clear E. opens; [|by split]. by eapply snoop_prefetch_tidy. }
  destruct Hs as [Ht1 Hs]. destruct b; run_in E; [|by split]. rewrite (Hs eq_refl) in *.
  match goal with E : bus_packet _ _ _ _ = Ok _ |- _ => apply bus_packet_tidy with (w := false) in E as [? ?]; [|done..] end.
  split; [done|]. by intros ? ? [= _ <-].
Qed.

(** *** The port tries again *)

Lemma scheduleSend_awake {A} now time (q q' : PacketQueue A) : 0 <= now < MaxTick - 1 ->
  time < MaxTick -> scheduleSend now time q = Ok q' -> awake q'.
Proof.
  intros Hn Ht. unfold scheduleSend, set_event.
  rewrite (wrap_small 64 (now + 1)) by (unfold MaxTick in *; lia).
  destruct (Z.eqb_spec (Z.max (Z.min (deferredPacketReadyTime q) time) (now + 1)) MaxTick); [lia|].
  cbn [negb]. intros E. unfold awake. opens; cbn; right; congruence.
Qed.

Lemma nextMSHRReadyTime_le ids q h r n : queue_ok ids q h -> r ∈ readyList q ->
  nextMSHRReadyTime q h = Ok n -> n <= ready_at h r.
Proof.
  intros Q Hr E. unfold nextMSHRReadyTime in E. pose proof (qo_sorted Q) as Hs.
  destruct (readyList q) as [|m l]; [by apply not_elem_of_nil in Hr|]. run_in E. apply aget_Ok in E0.
  pose proof (sorted_head _ _ _ Hs r Hr) as Hle. unfold ready_at in Hle at 1. by rewrite E0 in Hle.
Qed.

Lemma cache_nextMSHRReadyTime_le t n : tidy false t -> cache_nextMSHRReadyTime t = Ok n ->
  pressing t -> n < MaxTick.
Proof.
  unfold cache_nextMSHRReadyTime. intros Ht E (i & r & Hr & Hlt). run_in E.
  pose proof (td_queue _ _ _ _ Ht i) as Q. destruct i; cbn in Q, Hr;
    eapply (nextMSHRReadyTime_le _ _ _ _ _ Q Hr) in E0 || eapply (nextMSHRReadyTime_le _ _ _ _ _ Q Hr) in E1; lia.
Qed.

Lemma tidy_awake t : tidy false t -> (pressing t -> awake (memSide t)) -> tidy true t.
Proof. by intros []. Qed.
Lemma tidy_false w t : tidy w t -> tidy false t.
Proof. by intros []. Qed.

Lemma tidy_mem q t : tidy false t -> tidy false (t <| memSide := q |>).
Proof. intros [Hb Hl Hq _]. by split; try done; intros []. Qed.

Lemma send_tidy env peer ok t t' dep : 0 <= curTick env < MaxTick - 1 ->
  cache_sendDeferredPacket env peer ok t = Ok (t', dep) -> tidy false t -> tidy true t'.
Proof.
  intros Hn. unfold cache_sendDeferredPacket. intros E Ht. run_in E.
  match goal with E : (if deferredPacketReady _ _ then _ else _) = Ok (?t1, ?d) |- _ =>
    assert (Ht1 : tidy false t1) end.
  { clear E. opens; try (by apply tidy_mem);
    match goal with E : getTimingPacket _ _ = Ok _ |- _ =>
      apply getTimingPacket_tidy in E as [Hg Hr]; [|done] end; try (by apply (tidy_mem _ _ Hg)).
    match goal with E : markInServiceInternal _ _ _ _ = Ok _ |- _ =>
      eapply markInService_tidy; [exact E|exact (Hr _ _ eq_refl)|by apply tidy_mem] end. }
  match goal with E : (if deferredPacketReady _ _ then _ else _) = _ |- _ => clear E end.
  apply tidy_awake.
  - opens; [by apply tidy_mem|done].
  - destruct (waitingOnRetry _) eqn:Ew; cbn [negb] in E; run_in E; [by left|].
    intros Hp. cbn. eapply scheduleSend_awake; [exact Hn| |eassumption].
    eapply cache_nextMSHRReadyTime_le; [exact Ht1|eassumption|]. exact Hp.
Qed.
End sends.

(** ** Responses *)

Section responses.
Context {T : Type} `{Policy T} `{CpuSide} (base total : nat).
Implicit Types (t : TCache T) (p : CPkt).
Abbreviation tidy := (tidy base total).

Definition serving (r : nat) t : Prop := exists x, regs t !! r = Some x /\ inService x = true.

Lemma calm_serving g n r t t' : calm g n t t' -> serving r t -> serving r t'.
Proof. intros [_ Er]. unfold serving. by rewrite Er. Qed.

Lemma serving_keeps w r h t : Queue.keeps r (regs t) h -> tidy w t -> serving r t ->
  tidy w (set_regs h t) /\ serving r (set_regs h t).
Proof.
  intros K Ht (x & Hx & Hs). pose proof (served_allocated _ _ _ _ _ _ Ht Hx Hs) as Ha.
  split; [by eapply keeps_tidy|].
  destruct (qo_reg (td_queue _ _ _ _ Ht _) r Ha) as (y & Hy & Hok). rewrite Hx in Hy. injection Hy as <-.
  destruct (proj2 K x Hx Hok) as (x' & Hx' & _ & Hs' & _). exists x'. split; [done|congruence].
Qed.

Lemma share_request_tidy w pkt r t t' : share_request pkt r t = Ok t' -> tidy w t -> serving r t ->
  tidy w t' /\ serving r t'.
Proof.
  unfold share_request. intros E. run_in E. apply serving_keeps.
  eapply keeps_updM; [|eassumption]. by intros ? [].
Qed.

Lemma timing_fill_tidy w env l pkt r o t t' o' wbs : timing_fill env l pkt r o t = Ok (t', o', wbs) ->
  tidy w t -> serving r t -> tidy w t' /\ serving r t'.
Proof.
  unfold timing_fill. intros E Ht Hs. run_in E.
  match goal with E : mshr_handleFill _ _ _ _ = Ok _ |- _ => apply fill_keeps in E as K end.
  destruct (serving_keeps w _ _ _ K Ht Hs) as [Ht1 Hs1].
  match goal with E : handleFill _ _ _ _ _ (tc ?t1) = Ok _ |- _ => pose proof (moved_keeps _ t1 _ _ E) as Hc end.
  cbn [fst] in Hc. split; [by eapply calm_tidy|by eapply calm_serving].
Qed.

Lemma serve_targets_tidy w n env s t t' : acknowledged s t -> serve_targets n env s t = Ok t' ->
  tidy w t -> serving (sv_reg s) t -> tidy w t' /\
  exists x, regs t' !! sv_reg s = Some x /\ inService x = true /\ tl_list (targets x) = [].
Proof.
  revert t. induction n as [|n IH]; intros t Hw E Ht (x & Hx & Hs); cbn [serve_targets] in E; run_in E;
    match goal with E : aget _ _ = Ok ?x |- _ => apply aget_Ok in E as Hy end;
    rewrite Hx in Hy; injection Hy as <-;
    destruct (tl_list (targets x)) as [|tgt ts] eqn:El; try done; try (run_in E; by eauto).
  run_in E. match goal with E : serve_target _ _ _ _ = Ok _, Ep : pop_mshr _ _ = Ok _ |- _ =>
    destruct (serve_round _ _ _ _ _ _ _ _ Hw Hx El E Ep) as (Hc & _ & _ & Hw');
    apply pop_keeps in Ep as K end.
  pose proof (calm_tidy _ _ w _ _ _ _ Hc Ht) as Ht1.
  assert (Hs1 : serving (sv_reg s) t) by (by exists x). apply (calm_serving _ _ _ _ _ Hc) in Hs1.
  destruct (serving_keeps w _ _ _ K Ht1 Hs1) as [Ht2 Hs2]. by eapply IH.
Qed.

Lemma retire_tidy w env l r wf o t t' x : regs t !! r = Some x -> inService x = true ->
  tl_list (targets x) = [] -> retire_mshr env l r wf o t = Ok t' -> tidy w t -> tidy w t'.
Proof.
  intros Hx Hs El E Ht. pose proof (served_allocated _ _ _ _ _ _ Ht Hx Hs) as Ha.
  unfold retire_mshr in E. set (i := queue_of r t) in *. pose proof (td_queue _ _ _ _ Ht i) as Q.
  destruct (finish_ok Q (curTick env) r x Ha Hx Hs El) as (q' & h' & Ef & Q').
  unfold finish_mshr in Ef. rewrite (aget_ok _ _ _ Hx) in E, Ef. cbn [mbind outcome_bind] in E, Ef.
  destruct (promoteDeferredTargets (curTick env) x) as [[b y]|] eqn:Ep; cbn [mbind outcome_bind] in E, Ef;
    [|discriminate E].
  set (h0 := <[r := y]> (regs t)) in *. assert (Hg : get_queue i (set_regs h0 t) = get_queue i t) by (by destruct i).
  assert (Ho : r ∈ own base total i) by (apply (lo_in (qo_lists Q)); by left).
  destruct b; run_in E.
  - rename r0 into t1.
    assert (Hc : calm [] [] (set_regs h0 t) t1).
    { destruct o; [|by injection E0 as <-; apply calm_refl]. eapply calm_on_cache; [|exact E0]. intros; apply _. }
    pose proof (calm_queue _ _ _ _ i Hc) as Eq. rewrite Hg in Eq. destruct Hc as [Hc Er].
    pose proof (calm_queue _ _ _ _ (other i) (conj Hc Er)) as Eo. change (regs (set_regs h0 t)) with h0 in Er.
    rewrite Er, Eq, Ef in E1. injection E1 as -> ->.
    destruct (request_fields _ _ _ _ E) as (Haw & Er' & Eb' & Eg').
    destruct (set_queue_fields i m l0 t1) as (F1 & F2 & F3 & _).
    apply (set_queue_tidy _ _ w i r m l0 t); try done.
    + eapply touches_trans; [apply (touches_insert r _ y)|by eapply markPending_touches].
    + by rewrite Er'.
    + rewrite Eg'. apply get_set_queue.
    + rewrite Eg', other_set_queue, Eo. by destruct i.
    + rewrite Eb', F3. exact (mv_base _ _ _ _ (proj1 Hc)).
  - rewrite Hg in E0. change (regs (set_regs h0 t)) with h0 in E0. rewrite Ef in E0. injection E0 as -> ->.
    assert (Hq : quieter r (get_queue i t) (regs t) m l0).
    { apply deallocateOne_quieter in Ef as [HT Hr]. split; [|done].
      eapply timeless_trans; [|exact HT]. apply (timeless_insert r x); [done|].
      clear -Ep. unfold promoteDeferredTargets in Ep. by opens. }
    apply (same_state_tidy _ _ w (set_queue i m l0 (set_regs h0 t))).
    { destruct (wf && _); [|by injection E as <-].
      by destruct (clearBlocked_Ok env (queue_cause i) (cause_holds t) _ t' (queue_cause_named i) E). }
    apply (set_queue_tidy _ _ w i r m l0 t); try done; try (by destruct i).
    + apply Hq.
    + intros _. apply (quieter_pressing i r m l0); try done; by destruct i.
Qed.

Lemma release_temp_tidy w env time o t t' : release_temp_block env time o t = Ok t' ->
  tidy w t -> tidy w t'.
Proof.
  unfold release_temp_block. intros E Ht. destruct (decide _); run_in E; [|done].
  match goal with E : release_temp _ _ _ = Ok _ |- _ => pose proof (moved_keeps _ t _ _ E) as Hc end.
  apply (calm_tidy _ _ w _ _ _ _ Hc) in Ht. by eapply allocate_wbs_tidy.
Qed.

Lemma recvTimingResp_tidy w env f l pkt r t t' : answers pkt r t ->
  recvTimingResp env f l pkt r t = Ok t' -> tidy w t -> tidy w t'.
Proof.
  intros Ha. unfold recvTimingResp. intros E Ht. run_in E.
  assert (Hs : serving r t) by (destruct Ha as (x & ? & ? & _); by exists x).
  destruct (share_request_quiet _ _ _ _ Ha E1) as [_ Ha1].
  destruct (share_request_tidy w _ _ _ _ E1 Ht Hs) as [Ht1 Hs1].
  apply unblock_targets_calm in E2. pose proof (calm_tidy _ _ w _ _ _ _ E2 Ht1) as Ht2.
  apply (calm_serving _ _ _ _ _ E2) in Hs1. apply count_latency_calm in E6.
  pose proof (calm_tidy _ _ w _ _ _ _ E6 Ht2) as Ht6. apply (calm_serving _ _ _ _ _ E6) in Hs1.
  destruct (response_fill_quiet _ _ _ _ _ _ _ _ _ _ E7) as (_ & _ & R7).
  assert (H7 : tidy w t0 /\ serving r t0).
  { destruct (_ && negb (isError _)) in E7; [by eapply timing_fill_tidy|by injection E7 as <- _ _]. }
  destruct H7 as [Ht7 Hs7].
  eapply serve_targets_tidy in E9 as [Ht9 (y & Hy & Hys & Hyl)]; [|..|exact Ht7|exact Hs7].
  2: { eapply answers_acknowledged; [exact Ha1|done|done|]. intros Ec.
       by rewrite (R7 Ec), (proj2 E6), (proj2 E2). }
  apply post_actions_calm in E10. pose proof (calm_tidy _ _ w _ _ _ _ E10 Ht9) as Ht10.
  cbn [sv_reg] in Hy. rewrite <- (proj2 E10) in Hy.
  eapply release_temp_tidy; [exact E|]. eapply allocate_wbs_tidy; [exact E12|]. by eapply retire_tidy.
Qed.
End responses.

(** ** Over time *)

Section runs.
Context {T M : Type} `{Policy T} `{MemSide M} (funcMasterId : Z) (base total : nat).
Implicit Types (s : TRun T M) (t : TCache T).
Abbreviation tidy := (tidy base total).

Lemma drain_fields (q : MSHRQueue) : readyList (drain q).1 = readyList q.
Proof. unfold drain. by case_match. Qed.

Lemma cache_drain_tidy w t : tidy w t -> tidy w (cache_drain t).1.
Proof.
  intros Ht. assert (Eg : forall i, get_queue i (cache_drain t).1 = (drain (get_queue i t)).1).
  { intros i. unfold cache_drain, pq_drain. destruct (transmitList (memSide t)), (transmitList (cpuSide t)),
      (drain (mshrQueue (tc t))) as [q1 n1] eqn:E1, (drain (writeBuffer t)) as [q2 n2] eqn:E2;
      destruct i; cbn; by rewrite ?E1, ?E2. }
  assert (Ef : regs (cache_drain t).1 = regs t /\ wb_base (cache_drain t).1 = wb_base t /\
    (awake (memSide t) -> awake (memSide (cache_drain t).1))).
  { unfold cache_drain, pq_drain. by destruct (transmitList (memSide t)), (transmitList (cpuSide t)),
      (drain (mshrQueue (tc t))), (drain (writeBuffer t)). }
  destruct Ef as (Er & Eb & Ea), Ht as [Hb Hl Hq Hw]. split; [congruence|congruence| |].
  - intros i. rewrite Eg, Er. by apply drain_ok.
  - intros Hww (i & r & Hr & Hlt). apply Ea, Hw; [done|]. exists i, r.
    by rewrite <- drain_fields, <- Eg, <- Er.
Qed.

Lemma tstep_tidy s s' : tstep funcMasterId s s' -> tidy true (run_cache s) -> tidy true (run_cache s').
Proof.
  intros Hst Ht. destruct Hst; cbn [run_cache] in *.
  - by eapply port_recvTimingReq_tidy.
  - unfold mem_processSendEvent in *. run_in H2. eapply send_tidy; [done|eassumption|].
    by apply tidy_mem, (tidy_false _ _ true).
  - unfold mem_retry in *. run_in H2. eapply send_tidy; [done|eassumption|]. by apply (tidy_false _ _ true).
  - by eapply recvTimingResp_tidy.
  - by eapply recvTimingSnoopReq_tidy.
  - by eapply recvAtomicSnoop_tidy.
  - match goal with E : recvTimingSnoopResp _ _ _ _ _ = Ok _ |- _ => unfold recvTimingSnoopResp in E; run_in E end.
    by eapply calm_tidy; [eapply moved_snoop_resp|].
  - by eapply tidy_same; [..|exact Ht].
  - by eapply tidy_same; [..|exact Ht].
  - by eapply tidy_same; [..|exact Ht].
  - by apply cache_drain_tidy.
Qed.
End runs.

(** The registers of the two queues of a new cache. *)
Definition miss_count (entries : Z) : nat := Z.to_nat (entries + 4 - 1).
Definition buffer_count (entries write_buffers : Z) : nat := Z.to_nat (write_buffers + (entries + 1000) - 1).

Lemma TCache_new_tidy {T} (p : CacheParams) (x : T) (bytes : list (list Z)) (temp : list Z)
    (entries maxMiss write_buffers tgts : Z) (ranges : list AddrRange) :
  1 <= entries -> 1 <= write_buffers ->
  tidy (miss_count entries) (miss_count entries + buffer_count entries write_buffers) true
    (TCache_new (Cache_new p x bytes temp entries maxMiss) entries write_buffers tgts ranges).
Proof.
  intros He Hw. set (n := miss_count entries). set (k := buffer_count entries write_buffers).
  assert (Eh : regs (TCache_new (Cache_new p x bytes temp entries maxMiss) entries write_buffers tgts ranges) =
    replicate (n + k) MSHR_new).
  { unfold regs, TCache_new, Cache_new. cbn. by rewrite replicate_add. }
  assert (El : length (replicate n MSHR_new) = n) by apply length_replicate.
  split; rewrite ?Eh; [by cbn; rewrite length_replicate|by rewrite length_replicate| |].
  - intros i. assert (Hr : forall m, m ∈ own n (n + k) i -> replicate (n + k) MSHR_new !! m = Some MSHR_new).
    { intros m Hm. apply lookup_replicate. split; [done|]. destruct i; cbn in Hm; apply elem_of_seq in Hm; lia. }
    destruct i; cbn [own get_queue] in *.
    + apply (MSHRQueue_new_ok entries 4 0 (replicate (n + k) MSHR_new)); [lia|lia|exact Hr].
    + replace (n + k - n)%nat with k in Hr |- * by lia.
      pose proof (MSHRQueue_new_ok write_buffers (entries + 1000) n (replicate (n + k) MSHR_new)) as Q.
      cbn. rewrite length_replicate. by apply Q; [lia|lia|].
  - intros _ (i & r & Hr & _). by destruct i; apply not_elem_of_nil in Hr.
Qed.

Lemma reachable_tidy {T M} `{Policy T} `{MemSide M} funcMasterId base total (s0 s : TRun T M) :
  tidy base total true (run_cache s0) -> rtc (tstep funcMasterId) s0 s ->
  tidy base total true (run_cache s).
Proof. intros Ht Hr. induction Hr as [|s1 s2 s3 Hst _ IH]; [done|]. by eapply IH, tstep_tidy. Qed.

Lemma new_reachable_tidy {T M} `{Policy T} `{MemSide M} (funcMasterId : Z)
    (p : CacheParams) (x : T) (bytes : list (list Z)) (temp : list Z)
    (entries maxMiss write_buffers tgts : Z) (ranges : list AddrRange) (m : M) (s : TRun T M) :
  1 <= entries -> 1 <= write_buffers ->
  rtc (tstep funcMasterId)
    (MkTRun (TCache_new (Cache_new p x bytes temp entries maxMiss) entries write_buffers tgts ranges)
       m [] []) s ->
  tidy (miss_count entries) (miss_count entries + buffer_count entries write_buffers) true (run_cache s).
Proof. intros He Hw. apply reachable_tidy. by apply TCache_new_tidy. Qed.

(** A free register has no targets; one with targets is in service or waits. *)
Lemma busy_register {T} base total w (t : TCache T) r x : tidy base total w t ->
  regs t !! r = Some x -> lists x <> [] ->
  r ∈ allocatedList (get_queue (queue_of r t) t) /\
  (inService x = true \/ r ∈ readyList (get_queue (queue_of r t) t)).
Proof.
  intros Ht Hx Hl. pose proof (td_queue _ _ _ _ Ht (queue_of r t)) as Q.
  pose proof (tidy_own _ _ _ _ _ _ Ht Hx) as Ho. apply (lo_in (qo_lists Q)) in Ho as [Ho|Ho].
  - split; [done|]. destruct (inService x) eqn:Es; [by left|]. right.
    apply (lo_ready (qo_lists Q)). by rewrite (serv_at x).
  - exfalso. apply Hl. destruct (qo_free Q _ _ Ho Hx) as (_ & E1 & E2 & _).
    unfold lists. by rewrite E1, E2.
Qed.

(** With nothing allocated no register has a target. *)
Lemma drained_pool {T} base total w (t : TCache T) : tidy base total w t ->
  (forall i, allocated (get_queue i t) = 0) -> pool (regs t) = [].
Proof.
  intros Ht Ha. apply pool_nil. intros r x Hx. destruct (lists x) eqn:El; [done|exfalso].
  destruct (busy_register _ _ _ _ r x Ht Hx) as [Hin _]; [by rewrite El|].
  pose proof (lo_count (qo_lists (td_queue _ _ _ _ Ht (queue_of r t)))) as Hc. rewrite Ha in Hc.
  destruct (allocatedList _); [by apply not_elem_of_nil in Hin|done].
Qed.

(** The four counts of [drain] are 0 or 1. *)
Lemma cache_drain_zero {T} (t : TCache T) : (cache_drain t).2 = 0 ->
  transmitList (memSide t) = [] /\ transmitList (cpuSide t) = [] /\
  forall i, allocated (get_queue i t) = 0.
Proof.
  unfold cache_drain, pq_drain, drain.
  destruct (transmitList (memSide t)), (transmitList (cpuSide t)),
    (Z.eqb_spec (allocated (mshrQueue (tc t))) 0), (Z.eqb_spec (allocated (writeBuffer t)) 0);
    cbn [fst snd]; intros Hz; try lia. split_and!; [done..|]. by intros [].
Qed.

(** ** The choice of the next request *)

(** [x] asks for bytes of [y]: the test of [findPending]. *)
Definition conflicts (x y : MSHR) : bool :=
  eqb (m_secure x) (m_secure y) &&
  (if m_addr x <? m_addr y then m_addr y <? u64 (m_addr x + m_size x)
   else m_addr x <? u64 (m_addr y + m_size y)).

Lemma conflicts_overlap x y : 0 <= m_addr x -> 0 <= m_addr y -> 0 < m_size x -> 0 < m_size y ->
  m_addr x + m_size x < 2 ^ 64 -> m_addr y + m_size y < 2 ^ 64 ->
  conflicts x y = true <-> m_secure x = m_secure y /\
    exists a, m_addr x <= a < m_addr x + m_size x /\ m_addr y <= a < m_addr y + m_size y.
Proof.
  intros Hx Hy Sx Sy Lx Ly. unfold conflicts.
  rewrite (wrap_small 64 (m_addr x + m_size x)), (wrap_small 64 (m_addr y + m_size y)) by lia.
  rewrite andb_true_iff, eqb_true_iff. apply and_iff_compat_l.
  destruct (Z.ltb_spec (m_addr x) (m_addr y)); rewrite Z.ltb_lt.
  - split; [intros ?; exists (m_addr y); lia|intros (a & ? & ?); lia].
  - split; [intros ?; exists (m_addr x); lia|intros (a & ? & ?); lia].
Qed.

Section choice.
Context {T : Type} (ids : MSHRQueueIndex -> list nat) (t : TCache T) (env : Env).
Hypothesis Q : forall i, queue_ok (ids i) (get_queue i t) (regs t).

Definition waits i (r : nat) (x : MSHR) : Prop :=
  r ∈ readyList (get_queue i t) /\ regs t !! r = Some x.

Definition is_due (x : MSHR) : Prop := m_readyTime x <= curTick env.
Definition due_now i : Prop := exists r x, waits i r x /\ is_due x.
(** [r] is due and no other of its queue was ready before. *)
Definition first_due i r x : Prop :=
  waits i r x /\ is_due x /\ forall k y, waits i k y -> m_readyTime x <= m_readyTime y.

(** The write buffer is full and nothing of it has been sent. *)
Definition jammed : Prop :=
  isFull (writeBuffer t) = true /\ inServiceEntries (writeBuffer t) = 0.

(** Which request goes next.  Normally a miss, after the waiting write-back
    that overlaps it, if there is one; when the write buffer is jammed a
    write-back, after an older miss that overlaps it. *)
Inductive chosen : option nat -> Prop :=
| chosen_none : ~ due_now MSHRQueue_MSHRs -> ~ due_now MSHRQueue_WriteBuffer -> chosen None
| chosen_only_miss r x :
    first_due MSHRQueue_MSHRs r x -> ~ due_now MSHRQueue_WriteBuffer -> chosen (Some r)
| chosen_only_write w y :
    first_due MSHRQueue_WriteBuffer w y -> ~ due_now MSHRQueue_MSHRs -> chosen (Some w)
| chosen_miss r x :
    first_due MSHRQueue_MSHRs r x -> ~ jammed ->
    (forall w y, waits MSHRQueue_WriteBuffer w y -> conflicts y x = false) -> chosen (Some r)
| chosen_conflict r x w y :
    first_due MSHRQueue_MSHRs r x -> ~ jammed ->
    waits MSHRQueue_WriteBuffer w y -> conflicts y x = true -> chosen (Some w)
| chosen_jammed_write w y :
    first_due MSHRQueue_WriteBuffer w y -> jammed ->
    (forall c z, waits MSHRQueue_MSHRs c z -> conflicts z y = false) \/
    (exists c z, waits MSHRQueue_MSHRs c z /\ conflicts z y = true /\ m_order y <= m_order z) ->
    chosen (Some w)
| chosen_jammed_miss w y c z :
    first_due MSHRQueue_WriteBuffer w y -> jammed ->
    waits MSHRQueue_MSHRs c z -> conflicts z y = true -> m_order z < m_order y -> chosen (Some c).

Lemma waits_in i r : r ∈ readyList (get_queue i t) -> exists x, waits i r x.
Proof.
  intros Hr. pose proof Hr as Ha. apply (lo_ready (qo_lists (Q i))) in Ha as [Ha _].
  destruct (qo_reg (Q i) r Ha) as (x & Hx & _). by exists x.
Qed.

Lemma find_mshr_spec p l : (forall r, r ∈ l -> is_Some (regs t !! r)) ->
  match find_mshr p (regs t) l with
  | Ok (Some r) => r ∈ l /\ exists x, regs t !! r = Some x /\ p x = true
  | Ok None => forall r x, r ∈ l -> regs t !! r = Some x -> p x = false
  | Err _ => False
  end.
Proof.
  induction l as [|m l IH]; intros Hl; cbn [find_mshr]; [by intros r x ?%not_elem_of_nil|].
  destruct (Hl m) as [y Hy]; [set_solver|]. rewrite (aget_ok _ _ _ Hy). cbn [mbind outcome_bind].
  destruct (p y) eqn:Ep; [split; [set_solver|by exists y]|].
  specialize (IH ltac:(set_solver)). destruct (find_mshr p (regs t) l) as [[r|]|]; [| |done].
  - destruct IH as [? ?]. split; [set_solver|done].
  - intros r x [->|Hr]%elem_of_cons Hx; [congruence|by eapply IH].
Qed.

Lemma findPending_spec i y : match findPending (m_addr y) (m_size y) (m_secure y) (get_queue i t) (regs t) with
  | Ok (Some r) => exists x, waits i r x /\ conflicts x y = true
  | Ok None => forall r x, waits i r x -> conflicts x y = false
  | Err _ => False
  end.
Proof.
  unfold findPending. match goal with |- context [find_mshr ?p _ ?l] =>
    pose proof (find_mshr_spec p l) as Hs end.
  specialize (Hs (fun r Hr => match waits_in i r Hr with ex_intro _ x (conj _ Hx) => ex_intro _ x Hx end)).
  destruct (find_mshr _ _ _) as [[r|]|]; [|by intros r x [Hr Hx]; apply (Hs r x)|done].
  destruct Hs as (Hr & x & Hx & Hp). by exists x.
Qed.

Lemma getNextMSHR_spec i : match getNextMSHR (curTick env) (get_queue i t) (regs t) with
  | Ok (Some r) => exists x, first_due i r x
  | Ok None => ~ due_now i
  | Err _ => False
  end.
Proof.
  unfold getNextMSHR. destruct (readyList (get_queue i t)) as [|m l] eqn:El.
  { intros (r & x & [Hr _] & _). rewrite El in Hr. by apply not_elem_of_nil in Hr. }
  assert (Hm : m ∈ readyList (get_queue i t)) by (rewrite El; set_solver).
  destruct (waits_in i m Hm) as (x & Hw). pose proof Hw as [_ Hx].
  rewrite (aget_ok _ _ _ Hx). cbn [mbind outcome_bind].
  assert (Hle : forall k y, waits i k y -> m_readyTime x <= m_readyTime y).
  { intros k y [Hk Hy]. pose proof (qo_sorted (Q i)) as Hs. rewrite El in Hs, Hk.
    pose proof (sorted_head _ _ _ Hs k Hk) as H. unfold ready_at in H. by rewrite Hx, Hy in H. }
  destruct (Z.ltb_spec (curTick env) (m_readyTime x)); [|by exists x].
  intros (k & y & Hk & Hd). unfold is_due in Hd. specialize (Hle k y Hk). lia.
Qed.
End choice.
