(* ===== verification/TimingRuns.v ===== *)
(** What the timing protocol of the cache guarantees over whole runs, with runs
    of a small cache that show it at work. *)
From S2P Require Import Prelude MemTypes Blk SetAssoc Policy Lru Memory Mshr Queue Cache CacheSide.
From S2P Require Import Correct PacketQueue CacheBase Snoop Timing Frames Ledger TimingLaws.
From S2P Require Import Registers.

#[local] Open Scope Z_scope.

(** C19. A cache in timing mode, from the state its constructor leaves and over
    any sequence of requests (any commands but hardware prefetches), send
    events, retries, responses and snoops, at any times and with whatever the
    neighbours do, answers each request once: counted with multiplicity, the
    requests it has taken that are due an answer are the answers that have left
    the port, the answers in the port's queue, and the targets the miss
    registers still hold for the CPU side.  When [drain] finds nothing left to
    wait for, every request has had its answer, and no other. *)
Theorem every_request_answered_once {T} `{Policy T} {M} `{MemSide M} (funcMasterId : Z)
    (p : CacheParams) (x : T) (bytes : list (list Z)) (temp : list Z)
    (entries maxMiss write_buffers tgts : Z) (ranges : list AddrRange) (m : M) (s : TRun T M) :
  1 <= entries -> 1 <= write_buffers ->
  rtc (tstep funcMasterId)
    (MkTRun (TCache_new (Cache_new p x bytes temp entries maxMiss) entries write_buffers tgts ranges)
       m [] []) s ->
  taken s ≡ₚ answered s ++ waiting (run_cache s) ++ outstanding (run_cache s) /\
  ((cache_drain (run_cache s)).2 = 0 -> taken s ≡ₚ answered s).
Proof.
  intros He Hw Hr.
  destruct (reachable_ok funcMasterId _ s (TCache_new_ok p x bytes temp entries maxMiss
    write_buffers tgts ranges m He Hw) Hr) as [Hbal _ _].
  split; [exact Hbal|]. intros (_ & Hq & Ha)%cache_drain_zero. rewrite Hbal.
  unfold waiting, outstanding. rewrite Hq, (drained_pool _ _ true _
    (new_reachable_tidy funcMasterId p x bytes temp entries maxMiss write_buffers tgts ranges m s He Hw Hr) Ha).
  by rewrite app_nil_r.
Qed.

(** C20. No request is stranded: over any sequence of events both queues keep
    their books (lists, counters, order of ready times, free registers), and a
    register that still holds a target is allocated and either in service, its
    request sent and a response to come, or waiting on the ready list; as long
    as a register waits for a time that will come, the port to the memory side
    awaits a retry or has its send event scheduled. *)
Theorem no_request_stranded {T} `{Policy T} {M} `{MemSide M} (funcMasterId : Z)
    (p : CacheParams) (x : T) (bytes : list (list Z)) (temp : list Z)
    (entries maxMiss write_buffers tgts : Z) (ranges : list AddrRange) (m : M) (s : TRun T M) :
  1 <= entries -> 1 <= write_buffers ->
  rtc (tstep funcMasterId)
    (MkTRun (TCache_new (Cache_new p x bytes temp entries maxMiss) entries write_buffers tgts ranges)
       m [] []) s ->
  let t := run_cache s in
  queue_ok (seq 0 (miss_count entries)) (mshrQueue (tc t)) (regs t) /\
  queue_ok (seq (miss_count entries) (buffer_count entries write_buffers)) (writeBuffer t) (regs t) /\
  forall r y, regs t !! r = Some y -> lists y <> [] ->
    let q := get_queue (queue_of r t) t in
    r ∈ allocatedList q /\
    (inService y = true \/
     r ∈ readyList q /\ (m_readyTime y < MaxTick ->
       waitingOnRetry (memSide t) = true \/ sendEvent (memSide t) <> None)).
Proof.
  intros He Hw Hr t.
  pose proof (new_reachable_tidy funcMasterId p x bytes temp entries maxMiss write_buffers tgts
    ranges m s He Hw Hr) as Ht.
  fold t in Ht. split_and!; [exact (td_queue _ _ _ _ Ht MSHRQueue_MSHRs)|..].
  - pose proof (td_queue _ _ _ _ Ht MSHRQueue_WriteBuffer) as Q. unfold own in Q.
    by rewrite Nat.add_comm, Nat.add_sub in Q.
  - intros r y Hy Hl q. destruct (busy_register _ _ _ _ r y Ht Hy Hl) as [Ha Hs]. split; [done|].
    destruct Hs as [Hs|Hs]; [by left|right]. split; [done|]. intros Hlt.
    apply (td_wake _ _ _ _ Ht eq_refl). exists (queue_of r t), r. split; [done|].
    unfold ready_at. by rewrite Hy.
Qed.



(** ** A small run *)

(** A load of two bytes misses at tick 1000; at tick 1010 the line is asked
    for, at 1100 it comes back, at 1110 the answer leaves. *)
Definition tick (t : Z) : Env := MkEnv t 10 16 512.
Definition no_caches_above : CpuSide := {| sendTimingSnoopReq := id; sendAtomicSnoop := id |}.
#[local] Existing Instance no_caches_above.
Definition whole_range : list AddrRange := [MkAddrRange 0 1023 0 0 0].

Definition timing_cache (entries : Z) : TCache Lru.LRU :=
  TCache_new (Cache_new small_par (Lru.MkLRU (init_tags small_cfg 16)) small_bytes [0; 0; 0; 0]
    entries 10) entries 4 8 whole_range.

Definition load (addr : Z) : CPkt := small_request ReadReq addr [0; 0].
Definition sent_packet (d : Departure) : CPkt :=
  match d with SentRequest p _ => p | _ => load 0 end.
(** What the memory answers to a request for a line. *)
Definition line_for (p : CPkt) (bytes : list Z) : CPkt := (set_cmd ReadResp p) <| pk_data := bytes |>.

Definition got {A} (d : A) (o : outcome A) : A := match o with Ok a => a | Err _ => d end.
Definition is_ok {A} (o : outcome A) : bool := match o with Ok _ => true | Err _ => false end.
Lemma got_ok {A} (d : A) o : is_ok o = true -> o = Ok (got d o).
Proof. by destruct o. Qed.

Definition take (now : Z) (q : CPkt) (t : TCache Lru.LRU) : TCache Lru.LRU * SimpleMemory * bool * CPkt :=
  got (t, small_mem, false, q) (port_recvTimingReq (tick now) 1 (MkTPkt q None) t small_mem).
Definition send (now : Z) (t : TCache Lru.LRU) : TCache Lru.LRU * Departure :=
  got (t, NoPacket) (mem_processSendEvent (tick now) (fun p => (true, p)) true t).
Definition fill (now : Z) (d : Departure) (t : TCache Lru.LRU) : TCache Lru.LRU :=
  got t (recvTimingResp (tick now) 0 0 (line_for (sent_packet d) [1; 2; 3; 4]) 0 t).
Definition answer (now : Z) (t : TCache Lru.LRU) : PacketQueue TPkt * option (DeferredPacket TPkt) :=
  got (cpuSide t, None) (processSendEvent now SlaveSide true (cpuSide t)).

Definition load_taken := take 1000 (load 66) (timing_cache 4).
Definition load_sent := send 1010 load_taken.1.1.1.
Definition load_filled := fill 1100 load_sent.2 load_sent.1.
Definition load_answered := answer 1110 load_filled.

(** A cache with one miss register loses a retry: the port refuses the second
    load and notes it, forgets the note when it takes a request that a cache
    above has answered, and schedules no retry when it opens again. *)
Definition inhibited : CPkt := (load 256) <| memInhibitAsserted := true |>.
Definition one_taken := take 1000 (load 66) (timing_cache 1).
Definition two_refused := take 1000 (load 128) one_taken.1.1.1.
Definition three_taken := take 1000 inhibited two_refused.1.1.1.
Definition one_sent := send 1010 three_taken.1.1.1.
Definition one_filled := fill 1100 one_sent.2 one_sent.1.

Example lost_retry :
  one_taken.1.2 = true /\ two_refused.1.2 = false /\
  mustSendRetry (port two_refused.1.1.1) = true /\ three_taken.1.2 = true /\
  port one_filled = MkSlavePort false false None.
Proof. by vm_compute. Qed.

(** The steps of such runs. *)
Lemma take_step now q t tk an :
  is_ok (port_recvTimingReq (tick now) 1 (MkTPkt q None) t small_mem) = true ->
  pk_cmd q <> HardPFReq ->
  let r := take now q t in
  tstep 1 (MkTRun t small_mem tk an)
    (MkTRun r.1.1.1 r.1.1.2 (tk ++ if r.1.2 && negb (memInhibitAsserted q) then due q None else []) an).
Proof.
  intros Ho Hq r. apply (step_request 1 (tick now) q None t small_mem r.1.1.1 r.1.1.2 r.1.2 r.2 tk an Hq).
  subst r. unfold take. by destruct (port_recvTimingReq _ _ _ _ _) as [[[[??]?]?]|].
Qed.

Lemma send_step now t m tk an : 0 <= now < MaxTick - 1 ->
  is_ok (mem_processSendEvent (tick now) (fun p => (true, p)) true t) = true ->
  tstep 1 (MkTRun t m tk an) (MkTRun (send now t).1 m tk an).
Proof.
  intros Hn Ho. apply (step_send 1 no_caches_above (tick now) (fun p => (true, p)) true _ _ _ (send now t).2); [exact Hn|].
  unfold send. by destruct (mem_processSendEvent _ _ _ _) as [[??]|].
Qed.

Lemma fill_step now d t m tk an :
  is_ok (recvTimingResp (tick now) 0 0 (line_for (sent_packet d) [1; 2; 3; 4]) 0 t) = true ->
  answers (line_for (sent_packet d) [1; 2; 3; 4]) 0 t ->
  tstep 1 (MkTRun t m tk an) (MkTRun (fill now d t) m tk an).
Proof.
  intros Ho Ha. eapply (step_response 1 no_caches_above (tick now)); [exact Ha|].
  exact (got_ok t _ Ho).
Qed.

Lemma answer_step now t m tk an :
  is_ok (processSendEvent now SlaveSide true (cpuSide t)) = true ->
  tstep 1 (MkTRun t m tk an)
    (MkTRun (t <| cpuSide := (answer now t).1 |>) m tk
       (an ++ ((fun d => token_of (dp_pkt d)) <$> option_list (answer now t).2))).
Proof.
  intros Ho. apply (step_answer 1 (tick now) true). unfold answer.
  by destruct (processSendEvent _ _ _ _) as [[??]|].
Qed.

Definition load_token : Token := token_of (MkTPkt (load 66) None).
Definition load_done : TCache Lru.LRU := load_filled <| cpuSide := load_answered.1 |>.

#[local] Opaque take send fill answer.

Lemma load_run :
  rtc (tstep 1) (MkTRun (timing_cache 4) small_mem [] [])
    (MkTRun load_done load_taken.1.1.2 [load_token] [load_token]).
Proof.
  eapply rtc_l; [apply (take_step 1000 (load 66)); [by vm_compute|done]|].
  change (take 1000 (load 66) (timing_cache 4)) with load_taken.
  replace ([] ++ _) with [load_token] by (by vm_compute).
  eapply rtc_l; [apply (send_step 1010 load_taken.1.1.1); [done|by vm_compute]|].
  change (send 1010 load_taken.1.1.1) with load_sent. eapply rtc_l; [apply (fill_step 1100 load_sent.2 load_sent.1); [by vm_compute|]|].
  { eexists. split; [by vm_compute|]. split; [by vm_compute|]. split; [|by vm_compute].
    intros tgt ts E. vm_compute in E. injection E as <- _. by vm_compute. }
  eapply rtc_l; [apply (answer_step 1110 load_filled); by vm_compute|].
  replace ([] ++ _) with [load_token] by (by vm_compute). apply rtc_refl.
Qed.

Lemma every_request_answered_once_witness :
  [load_token] ≡ₚ [load_token] ++ waiting load_done ++ outstanding load_done.
Proof.
  apply (proj1 (every_request_answered_once 1 small_par (Lru.MkLRU (init_tags small_cfg 16)) small_bytes
    [0; 0; 0; 0] 4 10 4 8 whole_range small_mem _ ltac:(done) ltac:(done) load_run)).
Defined.

(** With one register the port is closed after the first load, and turns the
    second down. *)
Lemma one_run :
  rtc (tstep 1) (MkTRun (timing_cache 1) small_mem [] [])
    (MkTRun one_taken.1.1.1 one_taken.1.1.2 [load_token] []).
Proof.
  eapply rtc_l; [apply (take_step 1000 (load 66)); [by vm_compute|done]|].
  change (take 1000 (load 66) (timing_cache 1)) with one_taken.
  replace ([] ++ _) with [load_token] by (by vm_compute). apply rtc_refl.
Qed.


Lemma no_request_stranded_witness :
  let t := one_taken.1.1.1 in let y := default MSHR_new (regs t !! 0%nat) in
  let q := get_queue (queue_of 0 t) t in
  0%nat ∈ allocatedList q /\
  (inService y = true \/
   0%nat ∈ readyList q /\ (m_readyTime y < MaxTick ->
     waitingOnRetry (memSide t) = true \/ sendEvent (memSide t) <> None)).
Proof.
  apply (proj2 (proj2 (no_request_stranded 1 small_par (Lru.MkLRU (init_tags small_cfg 16)) small_bytes
    [0; 0; 0; 0] 1 10 4 8 whole_range small_mem _ ltac:(done) ltac:(done) one_run)) 0%nat);
    [by vm_compute|by vm_compute].
Defined.

