(* ===== verification/Functional.v ===== *)
(** Functional accesses: [Packet::checkFunctional] ([mem/packet.cc]), the
    queues that answer through it ([mem/cache/mshr.cc],
    [mem/cache/mshr_queue.cc], [mem/packet_queue.cc], [mem/simple_mem.cc]), and
    [Cache::functionalAccess] ([mem/cache/cache_impl.hh]). *)
From S2P Require Import Prelude IntMath MemTypes Blk SetAssoc Tags Policy Lines Memory MemLaws.
From S2P Require Import Mshr Cache PacketQueue CacheBase CacheLaws View Atomic.

#[local] Open Scope Z_scope.

(** ** The packet *)

(** A functional packet, with the range of bytes found so far ([uint16_t]). *)
Record FPkt := MkFPkt {
  f_pkt : CPkt;
  bytesValidStart : Z;
  bytesValidEnd : Z
}.
#[export] Instance FPkt_settable : Settable FPkt := fun f =>
  MkFPkt (f_pkt f) (bytesValidStart f) (bytesValidEnd f).
Definition FPkt_new (p : CPkt) : FPkt := MkFPkt p 0 0.

Definition isPrint (c : Command) : bool := testCmdAttrib c IsPrint.

Definition func_start (f : FPkt) : Z := pk_addr (f_pkt f).
Definition func_end (f : FPkt) : Z := u64 (pk_addr (f_pkt f) + pk_size (f_pkt f) - 1).

(** [memcpy(getPtr() + func_offset, data + val_offset, n)]. *)
Definition copy_in (data : list Z) (val_offset func_offset n : Z) (f : FPkt) : outcome FPkt :=
  bs ← rd data val_offset n;
  d ← wr (pk_data (f_pkt f)) func_offset bs;
  Ok (f <| f_pkt ::= fun p => p <| pk_data := d |> |>).

(** A copy to make: from where, to where, how many bytes. *)
Record Piece := MkPiece { val_offset : Z; func_offset : Z; overlap_size : Z }.

(** The overlap of a read that is not inside the value; all are [int]s. *)
Definition partial_piece (fs fe vs ve size : Z) : outcome Piece :=
  let int a := i32 (u64 a) in
  if (vs <? fs) && (ve <=? fe) then Ok (MkPiece (int (fs - vs)) 0 (int (ve - fs)))
  else if (fs <=? vs) && (fe <? ve) then Ok (MkPiece 0 (int (vs - fs)) (int (fe - vs)))
  else if (fs <=? vs) && (ve <=? fe) then Ok (MkPiece 0 (int (vs - fs)) size)
  else Err Fatal.

(** What of the piece is still needed, given what has been found before. *)
Definition trim_piece (data : list Z) (k : Piece) (f : FPkt) : outcome (Piece * FPkt) :=
  let vo := val_offset k in let fo := func_offset k in let n := overlap_size k in
  let vs := bytesValidStart f in let ve := bytesValidEnd f in
  if (vs =? 0) && (ve =? 0) then
    Ok (k, f <| bytesValidStart := u16 fo |> <| bytesValidEnd := u16 (fo + n) |>)
  else
    let a := fo - vs in let b := (fo + n) - ve in
    let c := fo - ve in let d := (fo + n) - vs in
    if (0 <=? a) && (b <=? 0) then Ok (MkPiece vo fo 0, f)
    else if (a <? 0) && (0 <=? d) && (b <=? 0) then
      Ok (MkPiece vo fo (vs - fo), f <| bytesValidStart := u16 fo |>)
    else if (0 <? b) && (c <=? 0) && (0 <=? a) then
      let n := fo + n - ve in
      Ok (MkPiece (vo + (ve - fo)) ve n, f <| bytesValidEnd := u16 (ve + n) |>)
    else if (a <? 0) && (0 <? b) then
      f ← copy_in data vo fo (vs - fo) f;
      let n' := fo + n - ve in
      Ok (MkPiece (vo + (ve - fo)) ve n',
          f <| bytesValidStart := u16 fo |> <| bytesValidEnd := u16 (ve + n') |>)
    else if (0 <? c) && (0 <? b) || (a <? 0) && (d <? 0) then Err Fatal
    else Ok (k, f).

(** The arms of [checkFunctional] once the ranges are known to overlap. *)
Definition check_read (vs ve size : Z) (data : list Z) (f : FPkt) : outcome (bool * FPkt) :=
  let fs := func_start f in let fe := func_end f in
  let f := f <| f_pkt ::= allocate |> in
  if (vs <=? fs) && (fe <=? ve) then
    f ← copy_in data (i32 (u64 (fs - vs))) 0 (pk_size (f_pkt f)) f; Ok (true, f)
  else
    k ← partial_piece fs fe vs ve size;
    '(k, f) ← trim_piece data k f;
    assert! bytesValidEnd f <=? pk_size (f_pkt f);
    f ← copy_in data (val_offset k) (func_offset k) (overlap_size k) f;
    Ok ((bytesValidStart f =? 0) && (bytesValidEnd f =? pk_size (f_pkt f)), f).

Definition check_write (vs ve : Z) (data : list Z) (f : FPkt) : outcome (list Z) :=
  let fs := func_start f in let fe := func_end f in
  let offset := i32 (u64 (fs - vs)) in
  if 0 <=? offset then
    bs ← rd (pk_data (f_pkt f)) 0 (u64 (Z.min fe ve - fs + 1)); wr data offset bs
  else
    bs ← rd (pk_data (f_pkt f)) (- offset) (u64 (Z.min fe ve - vs + 1)); wr data 0 bs.

(** [checkFunctional(obj, addr, is_secure, size, data)]: whether the request
    is satisfied, the packet, and the buffer it was checked against. *)
Definition checkFunctional (addr : Z) (is_secure : bool) (size : Z) (data : option (list Z))
    (f : FPkt) : outcome (bool * FPkt * option (list Z)) :=
  let vs := addr in
  let ve := u64 (vs + size - 1) in
  if negb (eqb is_secure (pk_secure (f_pkt f))) || (ve <? func_start f) || (func_end f <? vs)
  then Ok (false, f, data)
  else if isPrint (pk_cmd (f_pkt f)) then Ok (false, f, data)
  else
    match data with
    | None => Ok (false, f, None)
    | Some d =>
        if isRead (pk_cmd (f_pkt f)) then
          '(r, f) ← check_read vs ve size d f; Ok (r, f, Some d)
        else if isWrite (pk_cmd (f_pkt f)) then
          d ← check_write vs ve d f; Ok (false, f, Some d)
        else Err Fatal
    end.

(** [checkFunctional(other)]: against the payload of another packet. *)
Definition check_packet (other : CPkt) (f : FPkt) : outcome (bool * FPkt * CPkt) :=
  '(r, f, d) ← checkFunctional (pk_addr other) (pk_secure other) (pk_size other)
     (if hasData (pk_cmd other) then Some (pk_data other) else None) f;
  Ok (r, f, match d with Some d => other <| pk_data := d |> | None => other end).

(** ** Queues *)

(** The loops over packets in flight stop at the first that satisfies. *)
Fixpoint check_list {A} (get : A -> CPkt) (put : CPkt -> A -> A) (l : list A) (f : FPkt)
    : outcome (bool * FPkt * list A) :=
  match l with
  | [] => Ok (false, f, [])
  | x :: l =>
      '(r, f, p) ← check_packet (get x) f;
      if r : bool then Ok (true, f, put p x :: l)
      else '(r, f, l) ← check_list get put l f; Ok (r, f, put p x :: l)
  end.

Definition targets_check (ts : TargetList) (f : FPkt) : outcome (bool * FPkt * TargetList) :=
  '(r, f, l) ← check_list t_pkt (fun p x => x <| t_pkt := p |>) (tl_list ts) f;
  Ok (r, f, ts <| tl_list := l |>).

(** [MSHR::checkFunctional]. *)
Definition mshr_check (x : MSHR) (f : FPkt) : outcome (bool * FPkt * MSHR) :=
  if isPrint (pk_cmd (f_pkt f)) then
    '(_, f, _) ← checkFunctional (m_addr x) (m_secure x) (m_size x) None f; Ok (false, f, x)
  else
    '(r, f, ts) ← targets_check (targets x) f;
    let x := x <| targets := ts |> in
    if r : bool then Ok (true, f, x)
    else '(r, f, ts) ← targets_check (deferredTargets x) f;
         Ok (r, f, x <| deferredTargets := ts |>).

(** [MSHRQueue::checkFunctional]: the registers of [l] for the block. *)
Fixpoint registers_check (blk_addr : Z) (l : list nat) (h : Heap) (f : FPkt)
    : outcome (bool * FPkt * Heap) :=
  match l with
  | [] => Ok (false, f, h)
  | i :: l =>
      x ← aget h i;
      '(r, f, h) ← (if m_addr x =? blk_addr then
                      '(r, f, x) ← mshr_check x f; Ok (r, f, <[i := x]> h)
                    else Ok (false, f, h));
      if r : bool then Ok (true, f, h) else registers_check blk_addr l h f
  end.
Definition queue_check (blk_addr : Z) (q : MSHRQueue) (h : Heap) (f : FPkt)
    : outcome (bool * FPkt * Heap) := registers_check blk_addr (allocatedList q) h f.

(** [PacketQueue::checkFunctional], for a queue of packets read by [get]. *)
Definition packets_check {A} (get : A -> CPkt) (put : CPkt -> A -> A) (q : PacketQueue A)
    (f : FPkt) : outcome (bool * FPkt * PacketQueue A) :=
  '(r, f, l) ← check_list (fun d => get (dp_pkt d))
     (fun p d => MkDeferred (dp_tick d) (put p (dp_pkt d)) (sendAsSnoop d)) (transmitList q) f;
  Ok (r, f, q <| transmitList := l |>).
Definition port_check (q : PacketQueue TPkt) (f : FPkt) : outcome (bool * FPkt * PacketQueue TPkt) :=
  packets_check tp_pkt (fun p x => x <| tp_pkt := p |>) q f.

(** ** What is around a cache *)

(** The memory side. *)
Class Below (W : Type) := below_functional : FPkt -> W -> outcome (W * FPkt).
(** The CPU side, for snoops. *)
Class Above (W : Type) := {
  above_snooping : W -> bool;
  above_functional : FPkt -> W -> outcome (W * FPkt)
}.

(** ** The cache *)

Section access.
Context {T W : Type} `{Policy T} `{Below W} `{Above W}.
Implicit Types (t : TCache T) (w : W) (f : FPkt).

(** The block: its bytes answer a read and take a write; [have_dirty] is true
    only if they are the newest there are. *)
Definition check_block f t : outcome (bool * FPkt * TCache T) :=
  let ch := tc t in
  let addr := pk_addr (f_pkt f) in
  let secure := pk_secure (f_pkt f) in
  let blk_addr := blkAlign (cfg (store ch)) addr in
  ob ← findBlock (store ch) addr secure;
  om ← findMatch blk_addr secure (mshrQueue ch) (mshrs ch);
  match ob with
  | None => Ok (false, f, t)
  | Some b =>
      blk ← get_ref (Way b) ch;
      if isValid blk then
        d ← get_data (Way b) ch;
        '(have_data, f, d) ← checkFunctional blk_addr secure (c_blkSize (par ch)) (Some d) f;
        ch ← (match d with Some d => set_data (Way b) d ch | None => Ok ch end);
        have_dirty ←
          (if have_data : bool then
             if isDirty blk then Ok true
             else match om with
                  | Some i => x ← aget (mshrs ch) i;
                              if inService x then isPendingDirty x else Ok false
                  | None => Ok false
                  end
           else Ok false);
        Ok (have_dirty, f, t <| tc := ch |>)
      else Ok (false, f, t)
  end.

(** The rest of the cache, in the order it is asked. *)
Definition check_cpu_port f t : outcome (bool * FPkt * TCache T) :=
  '(r, f, q) ← port_check (cpuSide t) f; Ok (r, f, t <| cpuSide := q |>).
Definition check_mem_port f t : outcome (bool * FPkt * TCache T) :=
  '(r, f, q) ← port_check (memSide t) f; Ok (r, f, t <| memSide := q |>).
Definition check_queue (blk_addr : Z) (q : TCache T -> MSHRQueue) f t
    : outcome (bool * FPkt * TCache T) :=
  '(r, f, h) ← queue_check blk_addr (q t) (mshrs (tc t)) f;
  Ok (r, f, t <| tc ::= fun ch => ch <| mshrs := h |> |>).

(** [a || b]. *)
Definition or_else (k : FPkt -> TCache T -> outcome (bool * FPkt * TCache T))
    (r : bool * FPkt * TCache T) : outcome (bool * FPkt * TCache T) :=
  let '(r, f, t) := r in if r : bool then Ok (true, f, t) else k f t.

Definition functional_lookup f t : outcome (bool * FPkt * TCache T) :=
  let blk_addr := blkAlign (cfg (store (tc t))) (pk_addr (f_pkt f)) in
  r ← check_block f t;
  r ← or_else check_cpu_port r;
  r ← or_else (check_queue blk_addr (fun t => mshrQueue (tc t))) r;
  r ← or_else (check_queue blk_addr writeBuffer) r;
  or_else check_mem_port r.

Definition functionalAccess (fromCpuSide : bool) f t w : outcome (TCache T * W * FPkt) :=
  if bypassCaches (par (tc t)) then
    assert! fromCpuSide;
    '(w, f) ← below_functional f w; Ok (t, w, f)
  else
    '(done, f, t) ← functional_lookup f t;
    if done : bool then
      p ← makeResponse (f_pkt f); Ok (t, w, f <| f_pkt := p |>)
    else if fromCpuSide then '(w, f) ← below_functional f w; Ok (t, w, f)
    else if forwardSnoops (par (tc t)) && above_snooping w then
      '(w, f) ← above_functional f w; Ok (t, w, f)
    else Ok (t, w, f).
End access.

(** [SimpleMemory::recvFunctional], with its queue of waiting responses. *)
Definition memory_recvFunctional (f : FPkt) (m : SimpleMemory) (q : list CPkt)
    : outcome (SimpleMemory * list CPkt * FPkt) :=
  '(a, p) ← mem_functionalAccess (f_pkt f) (sm_mem m);
  '(_, f, q) ← check_list (fun p => p) (fun p _ => p) q (f <| f_pkt := p |>);
  Ok (m <| sm_mem := a |>, q, f).

#[export] Instance memory_below : Below (SimpleMemory * list CPkt) := fun f w =>
  '(m, q, f) ← memory_recvFunctional f w.1 w.2; Ok ((m, q), f).
(** A memory has no caches above it to snoop. *)
#[export] Instance memory_above : Above (SimpleMemory * list CPkt) := {|
  above_snooping _ := false;
  above_functional f w := Ok (w, f)
|}.
