(* ===== verification/Migration.v ===== *)
(** The commands the simulator sends down the caches as functional packets
    ([Cache::printPMKI], [warmupCache], [record] and [pageInvalidate] and the
    dispatch of [CpuSidePort::recvFunctional] in [mem/cache/cache_impl.hh]):
    a message flushes a page out of every cache before the page migrates. *)
From S2P Require Import Prelude IntMath MemTypes Blk SetAssoc Policy Memory Mshr.
From S2P Require Import Lru Hybrid Rrip Eaf Bloom Brp Hap Cache CacheSide CacheBase Functional.

#[local] Open Scope Z_scope.

(** ** The tag stores *)

(** [BaseSetAssoc::PolicyFlag]. *)
Inductive PolicyFlag :=
| F_LRU | F_PIPP | F_HAP | F_FEAF | F_HEAF | F_RANDOM | F_HAPTEST | F_HYBLRU | F_HYBBF
| F_HYBDIP | F_IHYBDIP | F_LRUWB | F_HYBRRIP | F_BRP.
Definition flag_number (f : PolicyFlag) : Z :=
  match f with
  | F_LRU => 0 | F_PIPP => 1 | F_HAP => 2 | F_FEAF => 3 | F_HEAF => 4 | F_RANDOM => 5
  | F_HAPTEST => 6 | F_HYBLRU => 7 | F_HYBBF => 8 | F_HYBDIP => 9 | F_IHYBDIP => 10
  | F_LRUWB => 11 | F_HYBRRIP => 12 | F_BRP => 13
  end.

(** What a cache asks of its tag store besides the replacement policy. *)
Class TagCommands (T : Type) := {
  getFlag : T -> Z;
  tags_clearBloomFilter : Z -> T -> outcome T;
  tags_updateSomething : T -> outcome T;
  tags_setRecord : T -> outcome T
}.

(** Filters of a policy that keeps one per set. *)
Definition clearFilter (numSet : Z) (fs : list HSetBloomFilter.Filter)
    : outcome (list HSetBloomFilter.Filter) :=
  f ← aget fs (Z.to_nat numSet);
  Ok (<[Z.to_nat numSet := HSetBloomFilter.clearbloomfilter f]> fs).

(** The tag stores that inherit the three operations of [BaseSetAssoc]: no
    filter, a report that only prints, and nothing to record. *)
Definition base_commands {T} (flag : PolicyFlag) : TagCommands T := {|
  getFlag _ := flag_number flag;
  tags_clearBloomFilter _ x := Ok x;
  tags_updateSomething x := Ok x;
  tags_setRecord x := Ok x
|}.

#[export] Instance LRU_commands : TagCommands Lru.LRU := base_commands F_LRU.
#[export] Instance LRUWB_commands : TagCommands Lruwb.LRUWB := base_commands F_LRUWB.
#[export] Instance PIPP_commands : TagCommands Pipp.PIPP := base_commands F_PIPP.
#[export] Instance RandomRepl_commands : TagCommands RandomReplacement.RandomRepl := base_commands F_RANDOM.
#[export] Instance HYBLRU_commands : TagCommands Hyblru.HYBLRU := base_commands F_HYBLRU.
#[export] Instance FEAF_commands : TagCommands Feaf.FEAF := base_commands F_FEAF.
(** Their own [updateSomething] prints too. *)
#[export] Instance HYBDIP_commands : TagCommands Hybdip.HYBDIP := base_commands F_HYBDIP.
#[export] Instance IHYBDIP_commands : TagCommands Ihybdip.IHYBDIP := base_commands F_IHYBDIP.
#[export] Instance HYBRRIP_commands : TagCommands Hybrrip.HYBRRIP := base_commands F_HYBRRIP.

#[export] Instance HEAF_commands : TagCommands Heaf.HEAF := {|
  getFlag _ := flag_number F_HEAF;
  tags_clearBloomFilter i x :=
    fs ← clearFilter i (Heaf.setbloomfilter x); Ok (x <| Heaf.setbloomfilter := fs |>);
  tags_updateSomething x := Ok x;
  tags_setRecord x := Ok x
|}.
#[export] Instance HYBBF_commands : TagCommands Hybbf.HYBBF := {|
  getFlag _ := flag_number F_HYBBF;
  tags_clearBloomFilter i x :=
    fs ← clearFilter i (Hybbf.setbloomfilter x); Ok (x <| Hybbf.setbloomfilter := fs |>);
  tags_updateSomething x := Ok x;
  tags_setRecord x := Ok x
|}.
#[export] Instance BRP_commands : TagCommands Brp.BRP := {|
  getFlag _ := flag_number F_BRP;
  tags_clearBloomFilter _ x := Ok x;
  tags_updateSomething x := Ok x;
  tags_setRecord := Brp.setRecord
|}.
#[export] Instance HAPTEST_commands : TagCommands Haptest.HAPTEST := {|
  getFlag _ := flag_number F_HAPTEST;
  tags_clearBloomFilter _ x := Ok x;
  tags_updateSomething := Haptest.updateSomething;
  tags_setRecord x := Ok x
|}.
(** The constructor of [HAP] leaves [flag] as it finds it. *)
Definition HAP_commands (flag : Z) (uninit : nat -> SpecFloat.spec_float) : TagCommands Hap.HAP := {|
  getFlag _ := flag;
  tags_clearBloomFilter _ x := Ok x;
  tags_updateSomething := Hap.updateSomething uninit;
  tags_setRecord x := Ok x
|}.

(** ** The cache *)

(** Where the cache sits. *)
Record Level := MkLevel { isInstruction : bool; isLastLevel : bool }.

(** The system port, which may refuse a timing request. *)
Class SystemPort (W : Type) := system_timing : CPkt -> W -> outcome (W * bool).

Section migration.
Context {T W : Type} `{Policy T} `{TagCommands T} `{Below W} `{SystemPort W} `{Above W}.
Implicit Types (ch : Cache T) (w : W) (f : FPkt).

(** [pageStart + 64 * i]. *)
Definition page_addr (pageStart : Z) (i : nat) : Z := u64 (pageStart + 64 * Z.of_nat i).

(** One line of an instruction cache. *)
Definition drop_inst_line (env : Env) (addr : Z) ch : outcome (Cache T) :=
  ob ← findBlock (store ch) addr false;
  match ob with
  | Some b =>
      blk ← get_ref (Way b) ch;
      assert! negb (isDirty blk);
      invalidate_ref env (Way b) ch
  | None => Ok ch
  end.

(** One line of a data cache. *)
Definition flush_line (env : Env) (addr : Z) ch (wbs : list CPkt) : outcome (Cache T * list CPkt) :=
  ob ← findBlock (store ch) addr false;
  match ob with
  | Some b =>
      blk ← get_ref (Way b) ch;
      ch ← (if getFlag (tags ch) =? 4 then on_tags (tags_clearBloomFilter (blk_set blk)) ch
            else Ok ch);
      '(ch, wbs) ← (if isDirty blk && isReadable blk && isWritable blk then
                      '(ch, wb) ← writebackBlk env (Way b) ch; Ok (ch, wbs ++ [wb])
                    else Ok (ch, wbs));
      ch ← invalidate_ref env (Way b) ch;
      Ok (ch, wbs)
  | None => Ok (ch, wbs)
  end.

Definition drop_inst_page (env : Env) (pageStart : Z) ch : outcome (Cache T) :=
  for_from 0 64 (fun i ch => drop_inst_line env (page_addr pageStart i) ch) ch.
Definition flush_page (env : Env) (pageStart : Z) ch : outcome (Cache T * list CPkt) :=
  for_from 0 64 (fun i st => flush_line env (page_addr pageStart i) st.1 st.2) (ch, []).

(** The write-backs go out at once, and none may be refused. *)
Definition send_page (wbs : list CPkt) w : outcome W :=
  foldO (fun wb w => '(w, success) ← system_timing wb w; assert! success; Ok w) wbs w.

Definition pageInvalidate (lv : Level) (env : Env) f ch w : outcome (Cache T * W) :=
  let pageStart := pk_addr (f_pkt f) in
  if isInstruction lv then
    assert! isTopLevel (par ch);
    ch ← drop_inst_page env pageStart ch; Ok (ch, w)
  else
    '(ch, wbs) ← flush_page env pageStart ch;
    w ← send_page wbs w;
    if isLastLevel lv then Ok (ch, w)
    else '(w, _) ← below_functional f w; Ok (ch, w).

(** The other commands act on the last level only. *)
Definition at_last_level (lv : Level) (act : T -> outcome T) f ch w : outcome (Cache T * W) :=
  if isLastLevel lv then ch ← on_tags act ch; Ok (ch, w)
  else '(w, _) ← below_functional f w; Ok (ch, w).

Definition printPMKI (lv : Level) f ch w : outcome (Cache T * W) :=
  at_last_level lv tags_updateSomething f ch w.
Definition warmupCache (lv : Level) f ch w : outcome (Cache T * W) :=
  at_last_level lv (fun x => Ok (rebase (setWarmUp (base x)) x)) f ch w.
Definition record (lv : Level) f ch w : outcome (Cache T * W) :=
  at_last_level lv tags_setRecord f ch w.

(** [CpuSidePort::recvFunctional]. *)
Definition recvFunctional (lv : Level) (env : Env) f (t : TCache T) w
    : outcome (TCache T * W * FPkt) :=
  let command k := '(ch, w) ← k f (tc t) w; Ok (t <| tc := ch |>, w, f) in
  if decide (pk_cmd (f_pkt f) = PrintReq) then command (printPMKI lv)
  else if decide (pk_cmd (f_pkt f) = MessageReq) then command (pageInvalidate lv env)
  else if decide (pk_cmd (f_pkt f) = SwapReq) then command (warmupCache lv)
  else if decide (pk_cmd (f_pkt f) = RecordResp) then command (record lv)
  else functionalAccess true f t w.
End migration.

(** ** Caches over caches *)

(** A cache and what is below it is what a cache above has below. *)
Definition cache_below {T W} `{Policy T} `{TagCommands T} `{Below W} `{SystemPort W} `{Above W}
    (lv : Level) (env : Env) : Below (TCache T * W) := fun f tw =>
  '(t, w, f) ← recvFunctional lv env f tw.1 tw.2; Ok ((t, w), f).

(** The system port does not lead through the caches. *)
#[export] Instance cache_port {T W} `{SystemPort W} : SystemPort (TCache T * W) := fun p tw =>
  '(w, success) ← system_timing p tw.2; Ok ((tw.1, w), success).
