(* ===== verification/MigrationLaws.v ===== *)
(** What a page flush does: no line of the page is left, and the bytes that
    were newer than those below leave as write-backs, those of lines held
    exclusively; and what it does to a hierarchy of caches. *)
From S2P Require Import Prelude IntMath MemTypes Blk SetAssoc Tags Policy Lines Memory MemLaws.
From S2P Require Import Lru Hybrid Rrip Eaf Bloom Brp Hap Mshr Cache CacheSide CacheBase CacheLaws.
From S2P Require Import View Atomic Init Correct PacketQueue Snoop Functional Migration.

#[local] Open Scope Z_scope.

(** ** Tag stores *)

(** Clearing the filter of a set leaves the store itself alone. *)
Class TagCommandsLaws (T : Type) `{PolicyLaws T} `{TagCommands T} :=
  clear_law i x :
    pol_inv x -> tags_wf (base x) -> 0 <= i < Z.of_nat (numSets (cfg (base x))) ->
    exists x', tags_clearBloomFilter i x = Ok x' /\ base x' = base x /\ pol_inv x'.

Ltac no_filter := intros i x Hx _ _; by exists x.
#[export] Instance LRU_commands_ok : TagCommandsLaws Lru.LRU. Proof. no_filter. Qed.
#[export] Instance LRUWB_commands_ok : TagCommandsLaws Lruwb.LRUWB. Proof. no_filter. Qed.
#[export] Instance PIPP_commands_ok : TagCommandsLaws Pipp.PIPP. Proof. no_filter. Qed.
#[export] Instance RandomRepl_commands_ok : TagCommandsLaws RandomReplacement.RandomRepl.
Proof. no_filter. Qed.
#[export] Instance HYBLRU_commands_ok : TagCommandsLaws Hyblru.HYBLRU. Proof. no_filter. Qed.
#[export] Instance FEAF_commands_ok : TagCommandsLaws Feaf.FEAF. Proof. no_filter. Qed.
#[export] Instance HYBDIP_commands_ok : TagCommandsLaws Hybdip.HYBDIP. Proof. no_filter. Qed.
#[export] Instance IHYBDIP_commands_ok : TagCommandsLaws Ihybdip.IHYBDIP. Proof. no_filter. Qed.
#[export] Instance HYBRRIP_commands_ok : TagCommandsLaws Hybrrip.HYBRRIP. Proof. no_filter. Qed.
#[export] Instance BRP_commands_ok : TagCommandsLaws Brp.BRP. Proof. no_filter. Qed.
#[export] Instance HAPTEST_commands_ok : TagCommandsLaws Haptest.HAPTEST. Proof. no_filter. Qed.
Lemma HAP_commands_ok flag u : TagCommandsLaws (H1 := HAP_commands flag u) Hap.HAP.
Proof. no_filter. Qed.

Lemma clearFilter_ok t fs i :
  bloom_ok t fs -> 0 <= i < Z.of_nat (numSets (cfg t)) ->
  exists fs', clearFilter i fs = Ok fs' /\ bloom_ok t fs'.
Proof.
  intros [Hl Hf] Hi. destruct (lookup_lt_is_Some_2 fs (Z.to_nat i)) as [f E]; [lia|].
  unfold clearFilter. rewrite (aget_ok _ _ _ E). eexists. split; [done|].
  split; [by rewrite length_insert|]. apply Forall_insert; [done|].
  destruct (Forall_lookup_1 _ _ _ _ Hf E). split; cbn; [by rewrite length_replicate|done..].
Qed.
#[export] Instance HEAF_commands_ok : TagCommandsLaws Heaf.HEAF.
Proof.
  intros i x [Hw Hf] _ Hi. cbn. destruct (clearFilter_ok _ _ i Hf Hi) as (fs & -> & Hfs).
  by eexists.
Qed.
#[export] Instance HYBBF_commands_ok : TagCommandsLaws Hybbf.HYBBF.
Proof.
  intros i x [Hw Hf] _ Hi. cbn. destruct (clearFilter_ok _ _ i Hf Hi) as (fs & -> & Hfs).
  by eexists.
Qed.

(** ** Pages *)

(** The line the [i]-th address of the page falls in. *)
Definition page_line (c : TagConfig) (pageStart : Z) (i : nat) : Line :=
  line_at c (page_addr pageStart i) false.
Definition page_lines (c : TagConfig) (pageStart : Z) (n : nat) : list Line :=
  page_line c pageStart <$> seq 0 n.

Lemma page_lines_S c pg n : page_lines c pg (S n) = page_lines c pg n ++ [page_line c pg n].
Proof. unfold page_lines. by rewrite seq_S, fmap_app. Qed.

(** Blocks of at least 64 bytes leave no byte of an aligned page out. *)
Lemma page_covered c pg x :
  cfg_ok c -> 64 <= blkSize c -> 0 <= pg -> pg + 4096 <= 2 ^ 64 -> pg <= x < pg + 4096 ->
  (64 | pg) -> line_at c x false ∈ page_lines c pg 64.
Proof.
  intros Hc Hb H0 H1 Hx [k Hk]. apply list_elem_of_fmap. exists (Z.to_nat ((x - pg) / 64)).
  assert (0 <= (x - pg) / 64 < 64) by (split; [apply Z.div_pos; lia|apply Z.div_lt_upper_bound; lia]).
  split; [|apply elem_of_seq; lia]. unfold page_line, page_addr. rewrite Z2Nat.id by lia.
  pose proof (Z.div_mod (x - pg) 64 ltac:(lia)) as E. pose proof (Z.mod_pos_bound (x - pg) 64 ltac:(lia)).
  rewrite wrap_small by lia. set (y := pg + 64 * ((x - pg) / 64)) in *.
  assert (Hx' : is_addr x) by (unfold is_addr; lia). symmetry.
  apply (line_at_near c Hc); [done|]. pose proof (blkAlign_range c Hc x Hx') as [_ Hr].
  assert (exists j, blkAlign c x = 64 * j) as [j Ej].
  { destruct Hc. rewrite ok_blkSize in Hb. assert (6 <= setShift c).
    { apply (Z.pow_le_mono_r_iff 2); [lia..|]. exact Hb. }
    exists (2 ^ (setShift c - 6) * (x / blkSize c)). change 64 with (2 ^ 6).
    rewrite Z.mul_assoc, <- Z.pow_add_r by lia. replace (6 + (setShift c - 6)) with (setShift c) by lia.
    rewrite <- ok_blkSize. rewrite blkAlign_sub by done.
    pose proof (Z.div_mod x (blkSize c)). pose proof (Z.pow_pos_nonneg 2 (setShift c)). lia. }
  subst pg. lia.
Qed.

(** ** One line *)

Section flush.
Context {T : Type} `{TagCommandsLaws T}.
Context (env : Env).
Implicit Types (ch : Cache T) (l : Line) (st : LineState).

(** The bytes of the line leave with it. *)
Definition carried st : bool := ls_dirty st && ls_readable st && ls_writable st.

Definition write_back_of (c : TagConfig) l st (wb : CPkt) : Prop :=
  pk_cmd wb = Writeback /\ pk_addr wb = line_base c l /\ pk_data wb = ls_data st /\
  pk_size wb = blkSize c.

Lemma clear_ok ch b blk :
  cache_ok env ch -> mem (store ch) !! b = Some blk ->
  exists ch', (if getFlag (tags ch) =? 4 then on_tags (tags_clearBloomFilter (blk_set blk)) ch
               else Ok ch) = Ok ch' /\
    cache_ok env ch' /\ kin ch ch' /\ store ch' = store ch /\ datas ch' = datas ch.
Proof.
  intros Hok Hb. destruct (_ =? 4); [|by exists ch].
  pose proof (ok_wf _ _ (co_tags _ _ Hok)) as Hwf.
  destruct (blk_set_lt _ _ _ Hwf Hb) as (i & Ei & Hi).
  destruct (clear_law (blk_set blk) (tags ch) (co_pol _ _ Hok) Hwf) as (x & E & Eb & Hx).
  { change (base (tags ch)) with (store ch). lia. }
  unfold on_tags. rewrite E. cbn [mbind outcome_bind].
  destruct (reorder_ok env ch x Hok) as (Hok' & Hk & _); [|done|].
  { unfold store. by rewrite Eb. }
  eexists. split; [done|]. by split_and!.
Qed.

(** A line that is not held costs nothing; one that is held is gone, and its
    bytes, if they are newer than those below and exclusive, are written back. *)
Lemma flush_line_ok addr ch wbs :
  cache_ok env ch ->
  let l := line_at (cfg (store ch)) addr false in
  exists ch' w, flush_line env addr ch wbs = Ok (ch', wbs ++ w) /\
    cache_ok env ch' /\ kin ch ch' /\ cached ch' = delete l (cached ch) /\
    match cached ch !! l with
    | Some st => if carried st then exists wb, w = [wb] /\ write_back_of (cfg (store ch)) l st wb
                 else w = []
    | None => w = []
    end.
Proof.
  intros Hok l. unfold flush_line.
  destruct (findBlock_spec (store ch) addr false (ok_wf _ _ (co_tags _ _ Hok)))
    as [(b & blk & -> & Hb & Hl)|[-> Hn]]; cbn [mbind outcome_bind].
  2: { apply (cached_None env) in Hn; [|done]. fold l in Hn. exists ch, []. rewrite app_nil_r, Hn.
       split_and!; try done. by rewrite delete_id. }
  destruct (data_of env ch b blk Hok Hb) as (d & Hd & Hlen).
  assert (Hst : cached ch !! l = Some (line_state blk d)) by (by apply (cached_held env ch l b)).
  assert (Hv : isValid blk = true) by (unfold line_of in Hl; by destruct (isValid blk)).
  assert (El : (blk_set blk, tag blk, isSecure blk) = l)
    by (unfold line_of in Hl; rewrite Hv in Hl; by apply (inj Some) in Hl).
  unfold get_ref. rewrite (getBlk_ok _ _ _ Hb), Hst. cbn [mbind outcome_bind].
  destruct (clear_ok ch b blk Hok Hb) as (ch1 & -> & Hok1 & Hk1 & Es1 & Ed1).
  cbn [mbind outcome_bind]. unfold carried. cbn [line_state ls_dirty ls_readable ls_writable].
  assert (Ec1 : cached ch1 = cached ch) by (unfold cached; by rewrite Es1, Ed1).
  rewrite <- Es1 in Hb. rewrite <- Ed1 in Hd. rewrite <- Ec1.
  destruct (isDirty blk && isReadable blk && isWritable blk) eqn:Hc.
  - apply andb_true_iff in Hc as [[Hdirty _]%andb_true_iff _].
    destruct (writebackBlk_ok env ch1 b blk d Hok1) as
      (ch2 & blk' & -> & Hok2 & Hk2 & _ & _ & Em2 & Hkeep & _ & Hc2); [by rewrite El|done|].
    cbn [mbind outcome_bind]. assert (Hb2 : mem (store ch2) !! b = Some blk')
      by (rewrite Em2; apply list_lookup_insert_eq; by eapply lookup_lt_Some).
    pose proof (keeps_line _ _ Hkeep) as Hl'. unfold line_of in Hl'. rewrite Hv in Hl'.
    destruct (isValid blk') eqn:Hv'; [|done]. apply (inj Some) in Hl'.
    destruct (invalidate_ref_ok env ch2 b blk' Hok2 Hb2 Hv') as (ch3 & blk3 & -> & Hok3 & Hk3 & _ & _ & _ & Hc3).
    cbn [mbind outcome_bind]. eexists ch3, [_]. split; [reflexivity|]. split; [done|].
    split; [by eapply kin_trans, kin_trans|]. split.
    + by rewrite Hc3, Hc2, Hl', El, delete_insert_eq.
    + eexists. split; [reflexivity|]. rewrite (kin_cfg _ _ Hk1), <- El. by split_and!.
  - cbn [mbind outcome_bind].
    destruct (invalidate_ref_ok env ch1 b blk Hok1 Hb Hv) as (ch3 & blk3 & -> & Hok3 & Hk3 & _ & _ & _ & Hc3).
    cbn [mbind outcome_bind]. exists ch3, []. rewrite app_nil_r. split_and!; try done.
    + by eapply kin_trans.
    + by rewrite Hc3, El.
Qed.

(** ** A page *)

(** Lines are whole, and inside the range. *)
Definition placed (c : TagConfig) (lo hi : Z) (a : gmap Line LineState) : Prop :=
  forall l st, a !! l = Some st -> line_ok c lo hi l /\ Z.of_nat (length (ls_data st)) = blkSize c.

Lemma coherent_placed c lo hi a f : coherent c lo hi a f -> placed c lo hi a.
Proof. intros Hco l st Hst. destruct (Hco l st Hst) as (? & ? & _). by split. Qed.

Section page.
Context (ch0 : Cache T) (f : Bytes) (lo hi pg : Z).
#[local] Abbreviation c := (cfg (store ch0)).
#[local] Abbreviation a := (cached ch0).
Context (Hok : cache_ok env ch0) (Hpl : placed c lo hi a).

(** The memory below once the write-backs of the first [n] lines arrive. *)
Definition written_back (n : nat) (x : Z) : Z :=
  let l := line_at c x false in
  match a !! l with
  | Some st => if bool_decide (l ∈ page_lines c pg n) && carried st
               then at_base (line_base c l) (ls_data st) x else f x
  | None => f x
  end.

Record flushed_lines (n : nat) (st : Cache T * list CPkt) : Prop := {
  fl_ok : cache_ok env st.1;
  fl_kin : kin ch0 st.1;
  fl_cached : forall l, cached st.1 !! l = if decide (l ∈ page_lines c pg n) then None else a !! l;
  fl_wbs : Forall (fun wb => pk_cmd wb = Writeback /\ pk_size wb = blkSize c) st.2;
  fl_pend : forall x, is_addr x -> pend f st.2 x = written_back n x
}.

Lemma flushed_step n ch wbs :
  flushed_lines n (ch, wbs) ->
  exists r, flush_line env (page_addr pg n) ch wbs = Ok r /\ flushed_lines (S n) r.
Proof.
  intros [Hok1 Hk1 Hl1 Hw1 Hp1]. cbn [fst snd] in *.
  destruct (flush_line_ok (page_addr pg n) ch wbs Hok1) as (ch' & w & E & Hok' & Hk' & Ec' & Hw).
  rewrite (kin_cfg _ _ Hk1) in Ec', Hw. fold (page_line c pg n) in Ec', Hw.
  set (l := page_line c pg n) in *. exists (ch', wbs ++ w). split; [done|]. split; cbn [fst snd].
  - done.
  - by eapply kin_trans.
  - intros l'. rewrite Ec', page_lines_S. destruct (decide (l' = l)) as [->|Hne].
    + rewrite lookup_delete_eq, decide_True by set_solver. done.
    + rewrite lookup_delete_ne, Hl1 by done. apply decide_ext. set_solver.
  - apply Forall_app. split; [done|]. destruct (cached ch !! l) as [st|]; [|by subst].
    destruct (carried st); [|by subst]. destruct Hw as (wb & -> & ? & _ & _ & ?). by apply Forall_singleton.
  - intros x Hx. unfold pend. rewrite foldl_app. fold (pend f wbs). unfold written_back.
    rewrite page_lines_S. specialize (Hp1 x Hx). unfold written_back in Hp1.
    specialize (Hl1 l). destruct (decide (line_at c x false = l)) as [El|Hne].
    + rewrite El in *. rewrite (bool_decide_eq_true_2 (l ∈ page_lines c pg n ++ [l])) by set_solver.
      cbn [andb]. destruct (decide (l ∈ page_lines c pg n)) as [Hin|Hin].
      * rewrite (bool_decide_eq_true_2 _ Hin) in Hp1. rewrite Hl1 in Hw. subst w. exact Hp1.
      * rewrite (bool_decide_eq_false_2 _ Hin) in Hp1. rewrite Hl1 in Hw. cbn [andb] in Hp1.
        destruct (a !! l) as [st|] eqn:Est; [|by subst w].
        destruct (carried st); [|by subst w]. destruct Hw as (wb & -> & _ & Ea & Ed & _).
        destruct (Hpl _ _ Est) as (Hlo & Hlen). cbn [foldl]. rewrite Ea, Ed.
        pose proof (proj1 (in_line c (t_cfg _ (ok_wf _ _ (co_tags _ _ Hok))) lo hi l x Hlo Hx) El).
        rewrite fwrite_in by lia. unfold at_base. destruct (Z.ltb_spec x (line_base c l)); [lia|done].
    + assert (Hw' : foldl (fun f wb => fwrite f (pk_addr wb) (pk_data wb)) (pend f wbs) w x = pend f wbs x).
      { destruct (cached ch !! l) as [st|] eqn:Est; [|by subst w].
        destruct (carried st); [|by subst w]. destruct Hw as (wb & -> & _ & Ea & Ed & _).
        destruct (decide (l ∈ page_lines c pg n)); [done|]. symmetry in Hl1.
        destruct (Hpl _ _ Hl1) as (Hlo & Hlen). cbn [foldl]. rewrite Ea, Ed. apply fwrite_out. rewrite Hlen.
        destruct (Z_lt_le_dec x (line_base c l)); [by left|]. right.
        destruct (Z_le_gt_dec (line_base c l + blkSize c) x); [done|]. exfalso. apply Hne.
        apply (in_line c (t_cfg _ (ok_wf _ _ (co_tags _ _ Hok))) lo hi l x Hlo Hx). lia. }
      rewrite Hw', Hp1. destruct (a !! line_at c x false); [|done].
      rewrite (bool_decide_ext (line_at c x false ∈ page_lines c pg n ++ [l]) (line_at c x false ∈ page_lines c pg n)) by set_solver.
      done.
Qed.

Lemma flush_page_ok n :
  exists r, for_from 0 n (fun i r => flush_line env (page_addr pg i) r.1 r.2) (ch0, []) = Ok r /\
    flushed_lines n r.
Proof.
  apply (for_from_inv flushed_lines); [intros j [ch wbs] _; apply flushed_step|].
  split; try done. intros x _. unfold written_back. by destruct (a !! line_at c x false).
Qed.

(** A line of the page that is newer than the memory below, but not held
    exclusively. *)
Definition lost (x : Z) : bool :=
  match a !! line_at c x false with
  | Some st => bool_decide (line_at c x false ∈ page_lines c pg 64) && ls_dirty st
                 && negb (ls_writable st)
  | None => false
  end.

Lemma flushed_view n ch wbs :
  coherent c lo hi a f -> flushed_lines n (ch, wbs) -> n = 64%nat ->
  coherent c lo hi (cached ch) (pend f wbs) /\
  forall x, is_addr x -> view c (cached ch) (pend f wbs) x = if lost x then f x else view c a f x.
Proof.
  intros Hco [_ _ Hl _ Hp] ->. cbn [fst snd] in *.
  pose proof (t_cfg _ (ok_wf _ _ (co_tags _ _ Hok))) as Hc.
  assert (Hin : forall x, is_addr x -> cached ch !! line_at c x false = a !! line_at c x false ->
    cached ch !! line_at c x false <> None -> pend f wbs x = f x).
  { intros x Hx E Hn. rewrite (Hp x Hx). unfold written_back. specialize (Hl (line_at c x false)).
    case_decide as D; [congruence|]. rewrite (bool_decide_eq_false_2 _ D). by case_match. }
  split.
  - apply (coherent_ext _ _ _ _ f).
    + intros l st E. rewrite Hl in E. case_decide; [done|]. by apply Hco.
    + intros l st x E _ Hx. pose proof E as E'. rewrite Hl in E'. case_decide; [done|].
      destruct (Hco _ _ E') as (Hlo & _). pose proof (line_top c Hc _ _ l Hlo).
      pose proof (lo_addr _ _ _ _ Hlo) as Ha. unfold is_addr in Ha.
      assert (Hx' : is_addr x) by (unfold is_addr; lia).
      assert (El : line_at c x false = l) by (by apply (in_line c Hc lo hi)).
      apply Hin; [done|congruence..].
  - intros x Hx. unfold lost. specialize (Hl (line_at c x false)). case_decide as D.
    + rewrite (view_free _ _ _ _ Hl), (Hp x Hx). unfold written_back.
      destruct (a !! line_at c x false) as [st|] eqn:Est; [|symmetry; by apply view_free].
      rewrite (bool_decide_eq_true_2 _ D). cbn [andb]. unfold carried.
      destruct (Hco _ _ Est) as (Hlo & Hlen & Hr & Hcl). rewrite Hr, andb_true_r.
      rewrite (view_held c Hc lo hi a f x _ st Hco Hx eq_refl Est).
      destruct (ls_dirty st), (ls_writable st); cbn [andb negb]; try done.
      all: specialize (Hcl eq_refl); rewrite Hcl;
        pose proof (proj1 (in_line c Hc lo hi _ x Hlo Hx) eq_refl) as Hi; unfold at_base;
        destruct (Z.ltb_spec x (line_base c (line_at c x false))); [lia|];
        rewrite fread_lookup by lia; simpl; f_equal; lia.
    + rewrite (bool_decide_eq_false_2 _ D). cbn [andb].
      unfold view. rewrite Hl. destruct (a !! line_at c x false) as [st|] eqn:Est; [done|].
      rewrite (Hp x Hx). unfold written_back. by rewrite Est.
Qed.
End page.
End flush.

(** ** Instruction caches *)

Section instructions.
Context {T : Type} `{PolicyLaws T}.
Context (env : Env).
Implicit Types (ch : Cache T).

Lemma drop_inst_line_ok addr ch :
  let l := line_at (cfg (store ch)) addr false in
  cache_ok env ch -> (forall st, cached ch !! l = Some st -> ls_dirty st = false) ->
  exists ch', drop_inst_line env addr ch = Ok ch' /\ cache_ok env ch' /\ kin ch ch' /\
    cached ch' = delete l (cached ch).
Proof.
  intros l Hok Hcl. unfold drop_inst_line.
  destruct (findBlock_spec (store ch) addr false (ok_wf _ _ (co_tags _ _ Hok)))
    as [(b & blk & -> & Hb & Hl)|[-> Hn]]; cbn [mbind outcome_bind].
  2: { apply (cached_None env) in Hn; [|done]. exists ch. split_and!; try done. by rewrite delete_id. }
  destruct (data_of env ch b blk Hok Hb) as (d & Hd & _).
  assert (Hst : cached ch !! l = Some (line_state blk d)) by (by apply (cached_held env ch l b)).
  assert (Hv : isValid blk = true) by (unfold line_of in Hl; by destruct (isValid blk)).
  unfold get_ref. rewrite (getBlk_ok _ _ _ Hb). cbn [mbind outcome_bind].
  rewrite (Hcl _ Hst : isDirty blk = false). cbn [negb].
  destruct (invalidate_ref_ok env ch b blk Hok Hb Hv) as (ch' & blk' & -> & Hok' & Hk' & _ & _ & _ & Hc').
  exists ch'. split_and!; try done. rewrite Hc'.
  unfold line_of in Hl. rewrite Hv in Hl. apply (inj Some) in Hl. by rewrite Hl.
Qed.

(** An instruction cache with no dirty line of the page drops the page. *)
Lemma drop_inst_page_ok pg ch :
  let c := cfg (store ch) in
  cache_ok env ch ->
  (forall l st, l ∈ page_lines c pg 64 -> cached ch !! l = Some st -> ls_dirty st = false) ->
  exists ch', drop_inst_page env pg ch = Ok ch' /\ cache_ok env ch' /\ kin ch ch' /\
    forall l, cached ch' !! l = if decide (l ∈ page_lines c pg 64) then None else cached ch !! l.
Proof.
  intros c Hok Hcl. unfold drop_inst_page.
  destruct (for_from_inv (fun n ch' => cache_ok env ch' /\ kin ch ch' /\
      forall l, cached ch' !! l = if decide (l ∈ page_lines c pg n) then None else cached ch !! l)
    0 64 (fun i ch => drop_inst_line env (page_addr pg i) ch) ch) as (ch' & E & Hok' & Hk' & Hl').
  - intros n ch1 Hn (Hok1 & Hk1 & Hl1).
    destruct (drop_inst_line_ok (page_addr pg n) ch1 Hok1) as (ch2 & E & Hok2 & Hk2 & Hc2).
    { rewrite (kin_cfg _ _ Hk1). fold c. fold (page_line c pg n). intros st. rewrite Hl1.
      case_decide; [done|]. apply Hcl. apply list_elem_of_fmap. exists n. split; [done|].
      apply elem_of_seq. lia. }
    exists ch2. split; [done|]. split_and!; [done|by eapply kin_trans|]. intros l.
    rewrite Hc2, (kin_cfg _ _ Hk1), page_lines_S. fold c. fold (page_line c pg n).
    destruct (decide (l = page_line c pg n)) as [->|Hne].
    + rewrite lookup_delete_eq, decide_True by set_solver. done.
    + rewrite lookup_delete_ne, Hl1 by done. apply decide_ext. set_solver.
  - split_and!; try done.
  - by exists ch'.
Qed.
End instructions.


(** ** A small system *)

Definition idle_tcache : TCache Lru.LRU :=
  TCache_new (small_cache (Lru.MkLRU (init_tags small_cfg 16))) 4 4 8 [].

Lemma idle_tcache_ok : cache_ok small_env (tc idle_tcache).
Proof.
  apply (counters_ok _ (small_cache (Lru.MkLRU (init_tags small_cfg 16)))); [done..|].
  apply (Cache_new_ok small_env small_par (Lru.MkLRU (init_tags small_cfg 16)) small_bytes [0; 0; 0; 0] 4 10
    small_cfg small_cfg_ok); try done; by repeat constructor.
Qed.

Lemma idle_tcache_empty : cached (tc idle_tcache) = ∅.
Proof.
  change (cached (tc idle_tcache)) with (cached (small_cache (Lru.MkLRU (init_tags small_cfg 16)))).
  apply (Cache_new_empty small_env small_par (Lru.MkLRU (init_tags small_cfg 16)) small_bytes [0; 0; 0; 0] 4 10
    small_cfg small_cfg_ok); try done; by repeat constructor.
Qed.

(** A port that keeps what it is given. *)
#[export] Instance log_port : SystemPort (list CPkt) := fun p log => Ok (log ++ [p], true).
#[export] Instance log_below : Below (list CPkt) := fun f log => Ok (log, f).

Definition page_message (pg : Z) : FPkt := FPkt_new (small_request MessageReq pg (replicate 64 0)).


(** A store puts the line of address 64 in the cache, dirty and exclusive; the
    flush of page 0 writes it back. *)
Definition after_store : outcome (Cache Lru.LRU) :=
  '(ch, _, _, _) ← recvAtomic small_env 0 (small_request WriteReq 64 [170; 187]) (tc idle_tcache) small_mem;
  Ok ch.
Definition flushed_packets (o : outcome (Cache Lru.LRU)) : outcome (list (Z * list Z)) :=
  ch ← o; st ← flush_page small_env 0 ch;
  Ok ((fun p : CPkt => (pk_addr p, pk_data p)) <$> (st.2 : list CPkt)).

Example store_written_back :
  flushed_packets after_store = Ok [(64, [170; 187; 66; 67])].
Proof. by vm_compute. Qed.

(** After another cache has read the line it is dirty and shared: the flush
    drops it, and the bytes stored are nowhere any more. *)
Definition after_snoop : outcome (Cache Lru.LRU) :=
  ch ← after_store;
  '(t, _, _) ← recvAtomicSnoop (H0 := {| sendTimingSnoopReq := id; sendAtomicSnoop := id |})
     small_env (small_request ReadReq 64 [0; 0; 0; 0]) (idle_tcache <| tc := ch |>);
  Ok (tc t).
Definition line_of_64 (o : outcome (Cache Lru.LRU)) : outcome (option LineState) :=
  ch ← o; Ok (cached ch !! line_at small_cfg 64 false).

Example owned_line_lost :
  line_of_64 after_snoop = Ok (Some (MkLine true false true [170; 187; 66; 67])) /\
  flushed_packets after_snoop = Ok [].
Proof. by vm_compute. Qed.
