(* ===== verification/FuncLaws.v ===== *)
(** What functional accesses do: [checkFunctional] against its specification
    on one value, the two-value read it cannot answer, writes that reach every
    copy, and a cache that answers functional requests as the memory it stands
    for does. *)
From S2P Require Import Prelude IntMath MemTypes Blk SetAssoc Tags Policy Lines Memory MemLaws.
From S2P Require Import Lru Mshr Cache PacketQueue CacheBase CacheLaws View Atomic Init Correct.
From S2P Require Import Functional Migration MigrationLaws.

#[local] Open Scope Z_scope.

(** ** One value *)

(** A range of [n] bytes at [a] that [int] and [Addr] arithmetic handles. *)
Record span_ok (a n : Z) : Prop := {
  sp_addr : 0 <= a;
  sp_pos : 0 < n < 2 ^ 31;
  sp_end : a + n <= 2 ^ 64
}.

Record func_ok (p : CPkt) : Prop := {
  fo_span : span_ok (pk_addr p) (pk_size p);
  fo_len : Z.of_nat (length (pk_data p)) = pk_size p;
  fo_print : isPrint (pk_cmd p) = false
}.

(** The bytes [d] at [va] after [bs] has been written at [a]. *)
Definition patched (a : Z) (bs : list Z) (va : Z) (d : list Z) : list Z :=
  fread (fwrite (at_base va d) a bs) va (Z.of_nat (length d)).

Lemma patched_length a bs va d : length (patched a bs va d) = length d.
Proof. unfold patched. rewrite length_fread. lia. Qed.

Lemma patched_apart a bs va d :
  a + Z.of_nat (length bs) <= va \/ va + Z.of_nat (length d) <= a -> patched a bs va d = d.
Proof.
  intros Ha. unfold patched. rewrite <- (fread_all va d) at 3. apply fread_ext.
  intros x Hx. apply fwrite_out. lia.
Qed.

Lemma int_small z : - 2 ^ 31 <= z < 2 ^ 31 -> i32 (u64 z) = z.
Proof.
  intros Hz. unfold swrap, wrap. change (2 ^ (32 - 1)) with (2 ^ 31).
  rewrite <- Zplus_mod_idemp_l, Z.mod_mod_divide by (by exists (2 ^ 32)).
  rewrite Zplus_mod_idemp_l, Z.mod_small; lia.
Qed.

Lemma span_last a n : span_ok a n -> u64 (a + n - 1) = a + n - 1.
Proof. intros []. apply wrap_small. lia. Qed.

Lemma func_end_ok f : func_ok (f_pkt f) -> func_end f = func_start f + pk_size (f_pkt f) - 1.
Proof. intros []. by apply span_last. Qed.

Lemma at_base_patched a bs va d x :
  va <= x < va + Z.of_nat (length d) ->
  at_base va (patched a bs va d) x = fwrite (at_base va d) a bs x.
Proof.
  intros Hx. unfold at_base at 1. destruct (Z.ltb_spec x va); [lia|].
  unfold patched. rewrite fread_lookup by lia. simpl. f_equal. lia.
Qed.

(** The part of a write that falls in a value is a write of that value. *)
Lemma patch_part a bs va d off n :
  0 <= off -> 0 <= n -> off + n <= Z.of_nat (length bs) ->
  va <= a + off -> a + off + n <= va + Z.of_nat (length d) ->
  (forall x, va <= x < va + Z.of_nat (length d) -> a <= x < a + Z.of_nat (length bs) ->
     a + off <= x < a + off + n) ->
  (part ← rd bs off n; wr d (a + off - va) part) = Ok (patched a bs va d).
Proof.
  intros H1 H2 H3 H4 H5 Hin. rewrite (rd_spec bs off n a) by lia. cbn [mbind outcome_bind].
  set (part := fread _ _ _). assert (Hp : Z.of_nat (length part) = n) by (unfold part; rewrite length_fread; lia).
  destruct (wr_spec d (a + off - va) part va) as (d' & -> & Hl & E); [lia..|]. f_equal.
  apply (at_base_ext va); [by rewrite Hl, patched_length|]. intros x. rewrite E.
  replace (va + (a + off - va)) with (a + off) by lia.
  destruct (decide (va <= x < va + Z.of_nat (length d))) as [Hx|Hx].
  2: { rewrite fwrite_out by lia. unfold at_base. destruct (Z.ltb_spec x va); [done|].
       rewrite !lookup_ge_None_2 by (rewrite ?patched_length; lia). done. }
  rewrite at_base_patched by done. destruct (decide (a + off <= x < a + off + n)) as [Hi|Hi].
  - rewrite !fwrite_in by lia. unfold part. rewrite fread_lookup by lia. simpl. unfold at_base.
    destruct (Z.ltb_spec (a + off + Z.of_nat (Z.to_nat (x - (a + off)))) a); [lia|]. do 2 f_equal. lia.
  - rewrite !fwrite_out; [done| |lia].
    destruct (decide (a <= x < a + Z.of_nat (length bs))); [|lia]. by destruct Hi; apply Hin.
Qed.

Section value.
Context (f : FPkt) (Hf : func_ok (f_pkt f)).
Context (va : Z) (d : list Z) (Hv : span_ok va (Z.of_nat (length d))).
#[local] Abbreviation vn := (Z.of_nat (length d)).
#[local] Abbreviation fa := (pk_addr (f_pkt f)).
#[local] Abbreviation fn := (pk_size (f_pkt f)).
#[local] Abbreviation bs := (pk_data (f_pkt f)).

Lemma check_write_ok :
  fa < va + vn -> va < fa + fn -> check_write va (va + vn - 1) d f = Ok (patched fa bs va d).
Proof.
  intros H1 H2. pose proof (func_end_ok f Hf) as Ee. destruct Hf as [[] Hl _], Hv.
  unfold check_write. rewrite Ee. unfold func_start. rewrite int_small by lia.
  destruct (Z.leb_spec 0 (fa - va)).
  - rewrite wrap_small by lia. pose proof (patch_part fa bs va d 0 (Z.min (fa + fn - 1) (va + vn - 1) - fa + 1)) as E.
    rewrite Z.add_0_r in E. apply E; lia.
  - rewrite wrap_small by lia.
    pose proof (patch_part fa bs va d (va - fa) (Z.min (fa + fn - 1) (va + vn - 1) - va + 1)) as E.
    replace (fa + (va - fa) - va) with 0 in E by lia. replace (- (fa - va)) with (va - fa) by lia.
    apply E; lia.
Qed.

Lemma checkFunctional_apart sec data :
  fa + fn <= va \/ va + vn <= fa \/ sec <> pk_secure (f_pkt f) ->
  checkFunctional va sec vn data f = Ok (false, f, data).
Proof.
  intros Ha. pose proof (func_end_ok f Hf) as Ee. destruct Hf as [[] _ _].
  unfold checkFunctional. rewrite (span_last va vn Hv), Ee. unfold func_start.
  assert (negb (eqb sec (pk_secure (f_pkt f))) || (va + vn - 1 <? fa) || (fa + fn - 1 <? va) = true) as ->; [|done].
  destruct (eqb_spec sec (pk_secure (f_pkt f))), (Z.ltb_spec (va + vn - 1) fa), (Z.ltb_spec (fa + fn - 1) va);
    simpl; try done; destruct Hv; intuition lia.
Qed.

Lemma checkFunctional_meets sec data :
  fa < va + vn -> va < fa + fn -> sec = pk_secure (f_pkt f) ->
  checkFunctional va sec vn (Some data) f =
    if isRead (pk_cmd (f_pkt f)) then
      '(r, f, d) ← ('(r, f) ← check_read va (va + vn - 1) vn data f; Ok (r, f, Some data)); Ok (r, f, d)
    else if isWrite (pk_cmd (f_pkt f)) then
      d ← check_write va (va + vn - 1) data f; Ok (false, f, Some d)
    else Err Fatal.
Proof.
  intros H1 H2 ->. pose proof (func_end_ok f Hf) as Ee. destruct Hf as [[] _ Hp].
  unfold checkFunctional. rewrite (span_last va vn Hv), Ee, eqb_reflx. unfold func_start.
  destruct (Z.ltb_spec (va + vn - 1) fa); [lia|]. destruct (Z.ltb_spec (fa + fn - 1) va); [lia|].
  rewrite Hp. cbn [negb orb]. destruct (isRead _); [|done]. by destruct (check_read _ _ _ _ _) as [[]|].
Qed.

Lemma checkFunctional_reads sec :
  fa < va + vn -> va < fa + fn -> sec = pk_secure (f_pkt f) -> isRead (pk_cmd (f_pkt f)) = true ->
  checkFunctional va sec vn (Some d) f =
    '(r, f) ← check_read va (va + vn - 1) vn d f; Ok (r, f, Some d).
Proof.
  intros H1 H2 Hs Hr. rewrite checkFunctional_meets, Hr by done. by destruct (check_read _ _ _ _ _) as [[]|].
Qed.

(** A write is never satisfied, and updates what it overlaps. *)
Lemma checkFunctional_write sec :
  isRead (pk_cmd (f_pkt f)) = false -> isWrite (pk_cmd (f_pkt f)) = true ->
  checkFunctional va sec vn (Some d) f =
    Ok (false, f, Some (if eqb sec (pk_secure (f_pkt f)) then patched fa bs va d else d)).
Proof.
  intros Hr Hw. destruct (eqb_spec sec (pk_secure (f_pkt f))) as [Hs|Hs].
  2: apply checkFunctional_apart; tauto.
  destruct (decide (fa < va + vn /\ va < fa + fn)) as [[H1 H2]|Ha].
  - rewrite checkFunctional_meets, Hr, Hw, check_write_ok by done. done.
  - destruct Hf as [_ Hl _]. rewrite checkFunctional_apart, patched_apart by lia. done.
Qed.

(** A read inside the value is answered from it. *)
Lemma checkFunctional_inside sec :
  isRead (pk_cmd (f_pkt f)) = true -> sec = pk_secure (f_pkt f) -> va <= fa -> fa + fn <= va + vn ->
  checkFunctional va sec vn (Some d) f =
    Ok (true, f <| f_pkt ::= fun p => p <| pk_data := fread (at_base va d) fa fn |> |>, Some d).
Proof.
  intros Hr Hs H1 H2. pose proof (func_end_ok f Hf) as Ee. pose proof Hf as [[] Hl _].
  rewrite checkFunctional_meets, Hr by (done || lia). destruct Hv. unfold check_read. rewrite Ee. unfold func_start.
  destruct (Z.leb_spec va fa); [|lia]. destruct (Z.leb_spec (fa + fn - 1) (va + vn - 1)); [|lia].
  cbn [andb]. rewrite int_small by lia.
  assert (Ea : f <| f_pkt ::= allocate |> = f).
  { destruct f as [p vs ve]. cbn in Hl, sp_pos0 |- *. unfold allocate.
    destruct (pk_data p) eqn:E; [simpl in Hl; lia|done]. }
  rewrite Ea. unfold copy_in. rewrite (rd_spec d _ _ va) by lia. cbn [mbind outcome_bind].
  replace (va + (fa - va)) with fa by lia. rewrite wr_all; [done|]. rewrite length_fread. lia.
Qed.
End value.

(** ** A read over two values *)

(** Copying into the packet changes its payload only. *)
Definition refilled (f f' : FPkt) : Prop :=
  exists bs, length bs = length (pk_data (f_pkt f)) /\
    f' = f <| f_pkt ::= fun p => p <| pk_data := bs |> |>.

Lemma copy_in_ok data vo fo n f :
  0 <= n -> 0 <= vo -> vo + n <= Z.of_nat (length data) ->
  0 <= fo -> fo + n <= Z.of_nat (length (pk_data (f_pkt f))) ->
  exists f', copy_in data vo fo n f = Ok f' /\ refilled f f'.
Proof.
  intros. unfold copy_in. rewrite (rd_spec data vo n 0) by lia. cbn [mbind outcome_bind].
  destruct (wr_spec (pk_data (f_pkt f)) fo (fread (at_base 0 data) (0 + vo) n) 0) as (d & -> & Hl & _);
    [done|rewrite length_fread; lia|]. eexists. split; [done|]. by exists d.
Qed.

Lemma allocate_full f : func_ok (f_pkt f) -> f <| f_pkt ::= allocate |> = f.
Proof.
  destruct f as [p vs ve]. intros [[] Hl _]. cbn in *. unfold allocate.
  destruct (pk_data p) eqn:E; [simpl in Hl; lia|done].
Qed.

(** A value that does not hold the whole read. *)
Definition hangs_over (f : FPkt) (vs ve : Z) : Prop :=
  ~ (vs <= func_start f /\ func_end f <= ve).

Lemma check_read_partial f vs ve size d :
  func_ok (f_pkt f) -> hangs_over f vs ve ->
  check_read vs ve size d f =
    (k ← partial_piece (func_start f) (func_end f) vs ve size;
     '(k, f) ← trim_piece d k f;
     assert! bytesValidEnd f <=? pk_size (f_pkt f);
     f ← copy_in d (val_offset k) (func_offset k) (overlap_size k) f;
     Ok ((bytesValidStart f =? 0) && (bytesValidEnd f =? pk_size (f_pkt f)), f)).
Proof.
  intros Hf Ho. unfold check_read. rewrite (allocate_full f Hf). unfold hangs_over in Ho.
  destruct (Z.leb_spec vs (func_start f)), (Z.leb_spec (func_end f) ve); try done. tauto.
Qed.

(** The first piece found is copied, and its bounds are noted. *)
Lemma first_piece f vs ve size d vo fo n :
  func_ok (f_pkt f) -> hangs_over f vs ve -> pk_size (f_pkt f) < 2 ^ 16 ->
  bytesValidStart f = 0 -> bytesValidEnd f = 0 ->
  partial_piece (func_start f) (func_end f) vs ve size = Ok (MkPiece vo fo n) ->
  0 <= n -> 0 <= vo -> vo + n <= Z.of_nat (length d) -> 0 <= fo -> fo + n <= pk_size (f_pkt f) ->
  exists f', check_read vs ve size d f =
      Ok ((fo =? 0) && (fo + n =? pk_size (f_pkt f)), f') /\
    refilled (MkFPkt (f_pkt f) fo (fo + n)) f'.
Proof.
  intros Hf Ho Hsz Hs He Ek H1 H2 H3 H4 H5. rewrite check_read_partial, Ek by done.
  destruct f as [p s e]. cbn in Hs, He, Hsz, H5. subst s e. pose proof (fo_len _ Hf) as Hl. cbn in Hl.
  cbn [mbind outcome_bind trim_piece val_offset func_offset overlap_size bytesValidStart
       bytesValidEnd andb Z.eqb set_field f_pkt].
  rewrite !(wrap_small 16) by lia. destruct (Z.leb_spec (fo + n) (pk_size p)); [|lia].
  destruct (copy_in_ok d vo fo n (MkFPkt p fo (fo + n))) as (f' & -> & bs & Hb & ->); [try lia..|].
  { cbn. lia. }
  eexists. split; [reflexivity|]. by exists bs.
Qed.

(** A piece that does not touch what was found before is not supported. *)
Lemma gap_panics f vs ve size d vo fo n :
  func_ok (f_pkt f) -> hangs_over f vs ve ->
  partial_piece (func_start f) (func_end f) vs ve size = Ok (MkPiece vo fo n) -> 0 <= n ->
  (bytesValidStart f =? 0) && (bytesValidEnd f =? 0) = false ->
  0 <= bytesValidStart f <= bytesValidEnd f ->
  bytesValidEnd f < fo \/ fo + n < bytesValidStart f ->
  check_read vs ve size d f = Err Fatal.
Proof.
  intros Hf Ho Ek Hn Hz Hb Hg. rewrite check_read_partial, Ek by done.
  cbn [mbind outcome_bind]. unfold trim_piece. cbn [val_offset func_offset overlap_size]. rewrite Hz.
  destruct (Z.leb_spec 0 (fo - bytesValidStart f)), (Z.leb_spec (fo + n - bytesValidEnd f) 0),
    (Z.ltb_spec (fo - bytesValidStart f) 0), (Z.leb_spec 0 (fo + n - bytesValidStart f)),
    (Z.ltb_spec 0 (fo + n - bytesValidEnd f)), (Z.leb_spec (fo - bytesValidEnd f) 0),
    (Z.ltb_spec 0 (fo - bytesValidEnd f)), (Z.ltb_spec (fo + n - bytesValidStart f) 0);
    cbn [andb orb mbind outcome_bind]; try done; lia.
Qed.

Section straddle.
Context (f : FPkt) (Hf : func_ok (f_pkt f)) (Hr : isRead (pk_cmd (f_pkt f)) = true).
Context (va : Z) (A B : list Z).
#[local] Abbreviation mid := (va + Z.of_nat (length A)).
#[local] Abbreviation fa := (pk_addr (f_pkt f)).
#[local] Abbreviation fn := (pk_size (f_pkt f)).
Context (HA : span_ok va (Z.of_nat (length A))) (HB : span_ok mid (Z.of_nat (length B))).
Context (Hin : va < fa) (Htwo : fa + 2 <= mid) (Hend : mid < fa + fn <= mid + Z.of_nat (length B)).
Context (Hsz : fn < 2 ^ 16).

Lemma low_piece f1 : pk_addr (f_pkt f1) = fa -> pk_size (f_pkt f1) = fn ->
  partial_piece (func_start f1) (func_end f1) va (mid - 1) (Z.of_nat (length A)) =
    Ok (MkPiece (fa - va) 0 (mid - 1 - fa)).
Proof.
  intros E1 E2. unfold func_start, func_end. rewrite E1, E2. rewrite (span_last fa fn) by apply Hf.
  pose proof Hf as [[] _ _]. pose proof HA as []. unfold partial_piece.
  destruct (Z.ltb_spec va fa); [|lia]. destruct (Z.leb_spec (mid - 1) (fa + fn - 1)); [|lia].
  cbn [andb]. by rewrite !int_small by lia.
Qed.

Definition high_size : Z :=
  if fa + fn - 1 <? mid + Z.of_nat (length B) - 1 then fa + fn - 1 - mid else Z.of_nat (length B).

Lemma high_piece f1 : pk_addr (f_pkt f1) = fa -> pk_size (f_pkt f1) = fn ->
  partial_piece (func_start f1) (func_end f1) mid (mid + Z.of_nat (length B) - 1)
    (Z.of_nat (length B)) = Ok (MkPiece 0 (mid - fa) high_size).
Proof.
  intros E1 E2. unfold func_start, func_end. rewrite E1, E2. rewrite (span_last fa fn) by apply Hf.
  pose proof Hf as [[] _ _]. pose proof HB as []. unfold partial_piece, high_size.
  destruct (Z.ltb_spec mid fa); [lia|]. destruct (Z.leb_spec fa mid); [|lia]. cbn [andb].
  destruct (Z.ltb_spec (fa + fn - 1) (mid + Z.of_nat (length B) - 1)).
  - by rewrite !int_small by lia.
  - destruct (Z.leb_spec (mid + Z.of_nat (length B) - 1) (fa + fn - 1)); [|lia].
    by rewrite !int_small by lia.
Qed.

Lemma refilled_ok g : refilled f g -> func_ok (f_pkt g).
Proof. intros (bs & Hb & ->). destruct Hf as [H1 H2 H3]. split; [done| |done]. cbn. by rewrite Hb. Qed.

Lemma hangs_low g : pk_addr (f_pkt g) = fa -> pk_size (f_pkt g) = fn -> hangs_over g va (mid - 1).
Proof.
  intros E1 E2 [_ H2]. unfold func_end in H2. rewrite E1, E2, (span_last fa fn) in H2 by apply Hf. lia.
Qed.
Lemma hangs_high g : pk_addr (f_pkt g) = fa -> pk_size (f_pkt g) = fn ->
  hangs_over g mid (mid + Z.of_nat (length B) - 1).
Proof. intros E1 E2 [H1 _]. unfold func_start in H1. rewrite E1 in H1. lia. Qed.

Context (Hs : bytesValidStart f = 0) (He : bytesValidEnd f = 0).
Let check (v : Z) (d : list Z) (g : FPkt) :=
  checkFunctional v (pk_secure (f_pkt f)) (Z.of_nat (length d)) (Some d) g.

Lemma high_size_bounds : 0 <= high_size <= fa + fn - mid.
Proof.
  unfold high_size. pose proof HB as [].
  destruct (Z.ltb_spec (fa + fn - 1) (mid + Z.of_nat (length B) - 1)); lia.
Qed.

Lemma low_then_high : ('(_, g, _) ← check va A f; check mid B g) = Err Fatal.
Proof.
  pose proof Hf as [[] Hl _]. pose proof HA as []. pose proof HB as [].
  unfold check. rewrite checkFunctional_reads by (done || lia).
  destruct (first_piece f va (mid - 1) (Z.of_nat (length A)) A (fa - va) 0 (mid - 1 - fa))
    as (g & -> & bs & Hb & ->);
    [done|by apply hangs_low|done|done|done|by apply low_piece|lia..|].
  cbn [mbind outcome_bind]. set (g := set_field _ _ _).
  assert (Hg : func_ok (f_pkt g)) by (split; [done| |apply Hf]; cbn in *; lia).
  assert (Ea : pk_addr (f_pkt g) = fa) by done. assert (Es : pk_size (f_pkt g) = fn) by done.
  assert (Hlo : bytesValidStart g = 0) by done. assert (Hhi : bytesValidEnd g = 0 + (mid - 1 - fa)) by done.
  rewrite (checkFunctional_reads g Hg) by (rewrite ?Ea, ?Es; done || lia).
  rewrite (gap_panics g _ _ _ B 0 (mid - fa) high_size); [done|done|by apply hangs_high|
    by apply high_piece|apply high_size_bounds|rewrite Hlo, Hhi..]; [|lia|by left; lia].
  destruct (Z.eqb_spec (0 + (mid - 1 - fa)) 0); [lia|done].
Qed.

Lemma high_then_low : ('(_, g, _) ← check mid B f; check va A g) = Err Fatal.
Proof.
  pose proof Hf as [[] Hl _]. pose proof HA as []. pose proof HB as []. pose proof high_size_bounds.
  unfold check. rewrite checkFunctional_reads by (done || lia).
  destruct (first_piece f mid (mid + Z.of_nat (length B) - 1) (Z.of_nat (length B)) B 0 (mid - fa) high_size)
    as (g & -> & bs & Hb & ->); [done|by apply hangs_high|done|done|done|by apply high_piece|lia|lia| |lia..|].
  { unfold high_size. destruct (Z.ltb_spec (fa + fn - 1) (mid + Z.of_nat (length B) - 1)); lia. }
  cbn [mbind outcome_bind]. set (g := set_field _ _ _).
  assert (Hg : func_ok (f_pkt g)) by (split; [done| |apply Hf]; cbn in *; lia).
  assert (Ea : pk_addr (f_pkt g) = fa) by done. assert (Es : pk_size (f_pkt g) = fn) by done.
  assert (Hlo : bytesValidStart g = mid - fa) by done. assert (Hhi : bytesValidEnd g = mid - fa + high_size) by done.
  rewrite (checkFunctional_reads g Hg) by (rewrite ?Ea, ?Es; done || lia).
  rewrite (gap_panics g _ _ _ A (fa - va) 0 (mid - 1 - fa)); [done|done|by apply hangs_low|
    by apply low_piece|lia|rewrite Hlo, ?Hhi..]; [|lia|by right; lia].
  destruct (Z.eqb_spec (mid - fa) 0); [lia|done].
Qed.

End straddle.



(** ** Writes reach every copy *)

Lemma alter_at {A} (g : A -> A) i (h : list A) x : h !! i = Some x -> alter g i h = <[i := g x]> h.
Proof.
  intros Hx. apply list_eq. intros j. destruct (decide (j = i)) as [->|].
  - rewrite list_lookup_alter_eq, list_lookup_insert_eq by (by eapply lookup_lt_Some). by rewrite Hx.
  - by rewrite list_lookup_alter_ne, list_lookup_insert_ne by done.
Qed.

Record pkt_ok (p : CPkt) : Prop := {
  po_span : span_ok (pk_addr p) (pk_size p);
  po_data : hasData (pk_cmd p) = true -> Z.of_nat (length (pk_data p)) = pk_size p
}.
Definition mshr_ok (x : MSHR) : Prop :=
  Forall (fun t => pkt_ok (t_pkt t)) (tl_list (targets x)) /\
  Forall (fun t => pkt_ok (t_pkt t)) (tl_list (deferredTargets x)).
Definition packets_ok (q : PacketQueue TPkt) : Prop :=
  Forall (fun d => pkt_ok (tp_pkt (dp_pkt d))) (transmitList q).

(** What a functional write [w] makes of a packet in flight, and of the
    structures that hold packets. *)
Definition patch_pkt (w p : CPkt) : CPkt :=
  if hasData (pk_cmd p) && eqb (pk_secure p) (pk_secure w)
  then p <| pk_data := patched (pk_addr w) (pk_data w) (pk_addr p) (pk_data p) |> else p.
Definition patch_targets (w : CPkt) (ts : TargetList) : TargetList :=
  ts <| tl_list := (fun t => t <| t_pkt := patch_pkt w (t_pkt t) |>) <$> tl_list ts |>.
Definition patch_mshr (w : CPkt) (x : MSHR) : MSHR :=
  x <| targets := patch_targets w (targets x) |>
    <| deferredTargets := patch_targets w (deferredTargets x) |>.
Definition patch_register (w : CPkt) (blk_addr : Z) (x : MSHR) : MSHR :=
  if m_addr x =? blk_addr then patch_mshr w x else x.
Definition patch_registers (w : CPkt) (blk_addr : Z) (l : list nat) (h : Heap) : Heap :=
  foldl (fun h i => alter (patch_register w blk_addr) i h) h l.
Definition patch_packets (w : CPkt) (q : PacketQueue TPkt) : PacketQueue TPkt :=
  q <| transmitList := (fun d => MkDeferred (dp_tick d)
         ((dp_pkt d) <| tp_pkt := patch_pkt w (tp_pkt (dp_pkt d)) |>) (sendAsSnoop d))
       <$> transmitList q |>.

Lemma patch_pkt_ok w p : pkt_ok p -> pkt_ok (patch_pkt w p).
Proof.
  intros [H1 H2]. unfold patch_pkt. case_match; [|by split]. split; [done|].
  cbn. intros Hd. rewrite patched_length. by apply H2.
Qed.

Lemma patch_mshr_ok w x : mshr_ok x -> mshr_ok (patch_mshr w x).
Proof.
  intros [H1 H2]. split; cbn; apply Forall_fmap; (eapply Forall_impl; [eassumption|]);
    intros t Ht; by apply patch_pkt_ok.
Qed.

Lemma patch_registers_ok w a l h :
  Forall mshr_ok h -> Forall mshr_ok (patch_registers w a l h) /\
  length (patch_registers w a l h) = length h.
Proof.
  revert h. induction l as [|i l IH]; intros h Hh; [done|]. cbn [patch_registers foldl].
  destruct (IH (alter (patch_register w a) i h)) as [H1 H2]; [|split; [done|]; etrans; [exact H2|apply length_alter]].
  apply Forall_alter; [done|]. intros x _ Hx. unfold patch_register.
  case_match; [by apply patch_mshr_ok|done].
Qed.

Section write.
Context (f : FPkt) (Hf : func_ok (f_pkt f)).
Context (Hr : isRead (pk_cmd (f_pkt f)) = false) (Hw : isWrite (pk_cmd (f_pkt f)) = true).
#[local] Abbreviation w := (f_pkt f).

Lemma check_packet_write p : pkt_ok p -> check_packet p f = Ok (false, f, patch_pkt w p).
Proof.
  intros [H1 H2]. unfold check_packet, patch_pkt. destruct (hasData (pk_cmd p)).
  - rewrite <- (H2 eq_refl) in H1 |- *. rewrite checkFunctional_write by done.
    cbn [mbind outcome_bind andb]. destruct (eqb _ _); [done|]. by destruct p.
  - unfold checkFunctional. repeat case_match; try done; naive_solver.
Qed.

Lemma check_list_write {A} (get : A -> CPkt) put l :
  Forall (fun x => pkt_ok (get x)) l ->
  check_list get put l f = Ok (false, f, (fun x => put (patch_pkt w (get x)) x) <$> l).
Proof.
  induction 1 as [|x l Hx _ IH]; [done|]. cbn [check_list].
  rewrite check_packet_write by done. cbn [mbind outcome_bind]. by rewrite IH.
Qed.

Lemma mshr_check_write x : mshr_ok x -> mshr_check x f = Ok (false, f, patch_mshr w x).
Proof.
  intros [H1 H2]. unfold mshr_check. rewrite (fo_print _ Hf). unfold targets_check.
  rewrite check_list_write by done. cbn [mbind outcome_bind].
  cbn [deferredTargets set_field]. by rewrite check_list_write.
Qed.

Lemma registers_check_write a l h :
  Forall mshr_ok h -> Forall (fun i => is_Some (h !! i)) l ->
  registers_check a l h f = Ok (false, f, patch_registers w a l h).
Proof.
  revert h. induction l as [|i l IH]; intros h Hh Hl; [done|].
  apply Forall_cons in Hl as [[x Hx] Hl]. cbn [registers_check patch_registers foldl].
  rewrite (aget_ok _ _ _ Hx). cbn [mbind outcome_bind].
  assert (Hxo : mshr_ok x) by (by eapply Forall_lookup_1).
  destruct (patch_registers_ok w a [i] h Hh) as [Hh1 Hl1]. cbn [patch_registers foldl] in Hh1, Hl1.
  assert (Hs : Forall (fun i0 => is_Some (alter (patch_register w a) i h !! i0)) l).
  { eapply Forall_impl; [exact Hl|]. intros j Hj%lookup_lt_is_Some. apply lookup_lt_is_Some.
    by rewrite Hl1. }
  assert (E : alter (patch_register w a) i h = <[i := patch_register w a x]> h).
  { by apply alter_at. }
  specialize (IH _ Hh1 Hs). rewrite E in IH |- *. unfold patch_register in IH |- *.
  destruct (m_addr x =? a).
  - rewrite mshr_check_write by done. cbn [mbind outcome_bind]. exact IH.
  - cbn [mbind outcome_bind]. rewrite list_insert_id in IH |- * by done. exact IH.
Qed.

Lemma queue_check_write a q h :
  Forall mshr_ok h -> Forall (fun i => is_Some (h !! i)) (allocatedList q) ->
  queue_check a q h f = Ok (false, f, patch_registers w a (allocatedList q) h).
Proof. apply registers_check_write. Qed.

Lemma port_check_write q : packets_ok q -> port_check q f = Ok (false, f, patch_packets w q).
Proof. intros Hq. unfold port_check, packets_check. by rewrite check_list_write. Qed.
End write.

(** ** The cache *)

Section cache.
Context {T W : Type} `{PolicyLaws T} `{Below W} `{Above W}.
Context (env : Env).
Implicit Types (ch : Cache T) (t : TCache T) (w : W).

(** A cache whose packets have their payloads, whatever is in flight. *)
Record lookup_ok t : Prop := {
  lk_cache : cache_ok env (tc t);
  lk_size : blkSize (cfg (store (tc t))) < 2 ^ 31;
  lk_regs : Forall mshr_ok (mshrs (tc t));
  lk_mshrs : Forall (fun i => is_Some (mshrs (tc t) !! i)) (allocatedList (mshrQueue (tc t)));
  lk_writes : Forall (fun i => is_Some (mshrs (tc t) !! i)) (allocatedList (writeBuffer t));
  lk_cpu : packets_ok (cpuSide t);
  lk_mem : packets_ok (memSide t)
}.

(** The cache after a functional write: the block of the line, the packets of
    the registers for that line, and the packets of both ports. *)
Definition patch_datas (p : CPkt) ch : list (list Z) :=
  match findBlock (store ch) (pk_addr p) (pk_secure p) with
  | Ok (Some b) =>
      alter (patched (pk_addr p) (pk_data p) (blkAlign (cfg (store ch)) (pk_addr p))) b (datas ch)
  | _ => datas ch
  end.
Definition patch_cache (p : CPkt) t : TCache T :=
  let a := blkAlign (cfg (store (tc t))) (pk_addr p) in
  t <| tc ::= fun ch => ch <| datas := patch_datas p ch |>
         <| mshrs := patch_registers p a (allocatedList (writeBuffer t))
              (patch_registers p a (allocatedList (mshrQueue ch)) (mshrs ch)) |> |>
    <| cpuSide ::= patch_packets p |> <| memSide ::= patch_packets p |>.

Lemma find_mshr_total q h l :
  Forall (fun i => is_Some (h !! i)) l -> exists om, find_mshr q h l = Ok om /\
    match om with Some i => is_Some (h !! i) | None => True end.
Proof.
  induction 1 as [|i l [x Hx] _ IH]; [by exists None|]. cbn [find_mshr].
  rewrite (aget_ok _ _ _ Hx). cbn [mbind outcome_bind]. destruct (q x); [exists (Some i)|done].
  by rewrite Hx.
Qed.

Lemma line_span c a : cfg_ok c -> blkSize c < 2 ^ 31 -> is_addr a -> span_ok (blkAlign c a) (blkSize c).
Proof.
  intros Hc Hs Ha. pose proof (blkAlign_range c Hc a Ha) as [[? ?] ?].
  pose proof (blkAlign_top c Hc a Ha). pose proof (blkSize_pos c Hc). split; lia.
Qed.

Lemma func_addr p : func_ok p -> is_addr (pk_addr p).
Proof. intros [[] _ _]. unfold is_addr. lia. Qed.

Lemma check_block_write f t :
  func_ok (f_pkt f) -> isRead (pk_cmd (f_pkt f)) = false -> isWrite (pk_cmd (f_pkt f)) = true ->
  cache_ok env (tc t) -> blkSize (cfg (store (tc t))) < 2 ^ 31 ->
  Forall (fun i => is_Some (mshrs (tc t) !! i)) (allocatedList (mshrQueue (tc t))) ->
  check_block f t =
    Ok (false, f, t <| tc := (tc t) <| datas := patch_datas (f_pkt f) (tc t) |> |>).
Proof.
  intros Hf Hr Hw Hok Hs Hm. unfold check_block.
  unfold patch_datas. set (ch := tc t) in *. set (p := f_pkt f) in *.
  destruct (find_mshr_total (fun x => (m_addr x =? blkAlign (cfg (store ch)) (pk_addr p))
    && eqb (m_secure x) (pk_secure p)) (mshrs ch) _ Hm) as (om & Eom & _).
  unfold findMatch.
  destruct (findBlock_spec (store ch) (pk_addr p) (pk_secure p) (ok_wf _ _ (co_tags _ _ Hok)))
    as [(b & blk & -> & Hb & Hl)|[-> Hn]]; cbn [mbind outcome_bind]; rewrite Eom; cbn [mbind outcome_bind].
  2: { unfold ch. by destruct t as [[]]. }
  destruct (data_of env ch b blk Hok Hb) as (d & Hd & Hlen).
  unfold get_ref, get_data. rewrite (getBlk_ok _ _ _ Hb). cbn [mbind outcome_bind].
  assert (isValid blk = true) as -> by (unfold line_of in Hl; by destruct (isValid blk)).
  rewrite (aget_ok _ _ _ Hd). cbn [mbind outcome_bind]. rewrite (co_blkSize _ _ Hok).
  assert (Hsp : span_ok (blkAlign (cfg (store ch)) (pk_addr p)) (Z.of_nat (length d))).
  { rewrite Hlen. apply line_span; [apply Hok|done|by apply func_addr]. }
  rewrite <- Hlen, checkFunctional_write by done. fold p. rewrite eqb_reflx.
  cbn [mbind outcome_bind set_data]. unfold aset.
  rewrite decide_True by (by eapply lookup_lt_Some). cbn [mbind outcome_bind].
  by rewrite (alter_at _ _ _ _ Hd).
Qed.

Lemma functional_lookup_write f t :
  func_ok (f_pkt f) -> isRead (pk_cmd (f_pkt f)) = false -> isWrite (pk_cmd (f_pkt f)) = true ->
  lookup_ok t -> functional_lookup f t = Ok (false, f, patch_cache (f_pkt f) t).
Proof.
  intros Hf Hr Hw Ht. unfold functional_lookup. rewrite check_block_write by (done || apply Ht).
  destruct Ht as [_ _ Hregs Hm Hwb Hcpu Hmem].
  destruct (patch_registers_ok (f_pkt f) (blkAlign (cfg (store (tc t))) (pk_addr (f_pkt f)))
    (allocatedList (mshrQueue (tc t))) (mshrs (tc t)) Hregs) as [Hregs1 Hlen].
  cbn [mbind outcome_bind or_else]. unfold check_cpu_port.
  rewrite port_check_write by done. cbn [mbind outcome_bind or_else]. unfold check_queue.
  rewrite queue_check_write by done. cbn [mbind outcome_bind or_else].
  rewrite queue_check_write; [|done..|].
  - cbn [mbind outcome_bind or_else]. unfold check_mem_port. by rewrite port_check_write.
  - eapply Forall_impl; [exact Hwb|]. intros i Hi%lookup_lt_is_Some. apply lookup_lt_is_Some.
    cbn. by rewrite Hlen.
Qed.
End cache.

(** C8. A functional write changes every copy of the bytes it writes, whatever
    is in flight: the block of the line, the packets with data of the miss
    registers and of the write buffer for that line, and the packets waiting at
    either port; no copy stops the search, so the write always goes on to what
    is below. *)
Theorem functional_write_reaches_all {T W : Type} `{PolicyLaws T} `{Below W} `{Above W}
    (env : Env) (f : FPkt) (t : TCache T) (w : W) :
  bypassCaches (par (tc t)) = false ->
  func_ok (f_pkt f) -> isRead (pk_cmd (f_pkt f)) = false -> isWrite (pk_cmd (f_pkt f)) = true ->
  lookup_ok env t ->
  functionalAccess true f t w =
    ('(w', f') ← below_functional f w; Ok (patch_cache (f_pkt f) t, w', f')).
Proof.
  intros Hb Hf Hr Hw Ht. unfold functionalAccess.
  rewrite Hb, (functional_lookup_write env f t Hf Hr Hw Ht).
  done.
Qed.

(** A small cache, empty, with a response of two bytes on its way up. *)
Definition busy_tcache : TCache Lru.LRU :=
  idle_tcache <| cpuSide ::= set_field transmitList (fun _ =>
    [MkDeferred 20 (MkTPkt (small_request ReadResp 66 [1; 2]) None) false]) |>.

Lemma new_mshr_ok : mshr_ok MSHR_new.
Proof. by split. Qed.

Lemma busy_tcache_ok : lookup_ok small_env busy_tcache.
Proof.
  split; [exact idle_tcache_ok|done| |by constructor..| |by constructor].
  - change (mshrs (tc busy_tcache)) with (replicate (Z.to_nat (numEntries (MSHRQueue_new 4 4 0))) MSHR_new ++
      replicate (Z.to_nat (numEntries (MSHRQueue_new 4 1004 7))) MSHR_new).
    apply Forall_app. split; apply Forall_replicate, new_mshr_ok.
  - apply Forall_singleton. by repeat split.
Qed.

Lemma functional_write_reaches_all_witness :
  let f := FPkt_new (small_request WriteReq 66 [170; 187]) in
  functionalAccess true f busy_tcache (small_mem, []) =
    ('(w', f') ← below_functional f (small_mem, []); Ok (patch_cache (f_pkt f) busy_tcache, w', f')).
Proof.
  intros f. apply (functional_write_reaches_all small_env f busy_tcache (small_mem, [])); try done.
  exact busy_tcache_ok.
Defined.

(** The response on its way up has the bytes written meanwhile. *)
Example response_overwritten :
  pk_data <$> (tp_pkt <$> (dp_pkt <$>
    transmitList (cpuSide (patch_cache (small_request WriteReq 66 [170; 187]) busy_tcache)))) = [[170; 187]].
Proof. by vm_compute. Qed.
