(* ===== verification/FuncCache.v ===== *)
(** A cache with nothing in flight answers functional requests as the memory it
    stands for does, and so does a chain of caches over a memory. *)
From S2P Require Import Prelude IntMath MemTypes Blk SetAssoc Tags Policy Lines Memory MemLaws.
From S2P Require Import Mshr Cache PacketQueue CacheBase CacheLaws View Atomic Init Correct.
From S2P Require Import Lru Functional Migration MigrationLaws FuncLaws.

#[local] Open Scope Z_scope.

(** ** The reference *)

(** A functional request of the kinds a processor and the loader make. *)
Record func_request (lo hi : Z) (p : CPkt) : Prop := {
  fr_cmd : pk_cmd p = ReadReq \/ pk_cmd p = WriteReq;
  fr_ok : func_ok p;
  fr_secure : pk_secure p = false;
  fr_range : lo <= pk_addr p /\ pk_addr p + pk_size p <= hi
}.

Definition func_effect (g : Bytes) (p : CPkt) : Bytes :=
  if isWrite (pk_cmd p) then fwrite g (pk_addr p) (pk_data p) else g.
Definition func_answer (g : Bytes) (p : CPkt) : CPkt :=
  set_cmd (responseCommand (pk_cmd p))
    (if isRead (pk_cmd p) then p <| pk_data := fread g (pk_addr p) (pk_size p) |> else p).

(** What is below answers functional requests in its range, those that fit. *)
Class FunctionalLaws (W : Type) `{Below W} := {
  fw_inv : W -> Prop;
  fw_bytes : W -> Bytes;
  fw_lo : W -> Z;
  fw_hi : W -> Z;
  fw_fits : W -> Z -> Z -> Prop;
  functional_request_law f w :
    fw_inv w -> func_request (fw_lo w) (fw_hi w) (f_pkt f) -> fw_fits w (pk_addr (f_pkt f)) (pk_size (f_pkt f)) ->
    exists w' f', below_functional f w = Ok (w', f') /\ fw_inv w' /\
      fw_lo w' = fw_lo w /\ fw_hi w' = fw_hi w /\ (forall a n, fw_fits w a n -> fw_fits w' a n) /\
      f_pkt f' = func_answer (fw_bytes w) (f_pkt f) /\
      same_mem (fw_bytes w') (func_effect (fw_bytes w) (f_pkt f))
}.

(** ** Writes through a line *)

Section view.
Context (c : TagConfig) (Hc : cfg_ok c) (lo hi : Z).
Implicit Types (a : gmap Line LineState) (f : Bytes) (l : Line) (st : LineState).

Lemma coherent_same a f g : same_mem f g -> coherent c lo hi a f -> coherent c lo hi a g.
Proof.
  intros E Ha. apply (coherent_ext _ _ _ _ f); [done|]. intros l st x Hst _ Hx.
  destruct (Ha l st Hst) as (Hl & _). pose proof (line_top c Hc lo hi l Hl). pose proof (lo_addr _ _ _ _ Hl) as Hb.
  unfold is_addr in Hb. symmetry. apply E. unfold is_addr. lia.
Qed.

(** A write inside line [l] leaves the other lines of the memory alone. *)
Lemma apart_line l l' addr bs f x :
  line_ok c lo hi l -> line_ok c lo hi l' -> l <> l' ->
  line_base c l <= addr -> addr + Z.of_nat (length bs) <= line_base c l + blkSize c ->
  line_base c l' <= x < line_base c l' + blkSize c -> fwrite f addr bs x = f x.
Proof.
  intros Hl Hl' Hne H1 H2 Hx. apply fwrite_out.
  pose proof (line_top c Hc _ _ l' Hl'). pose proof (lo_addr _ _ _ _ Hl') as Hb. unfold is_addr in Hb.
  assert (Ha : is_addr x) by (unfold is_addr; lia).
  destruct (Z_lt_le_dec x addr); [by left|]. right.
  destruct (Z_le_gt_dec (addr + Z.of_nat (length bs)) x); [done|]. exfalso. apply Hne.
  rewrite <- (proj2 (in_line c Hc lo hi l x Hl Ha)) by lia. by rewrite <- (proj2 (in_line c Hc lo hi l' x Hl' Ha)).
Qed.

Lemma delete_write a f l addr bs :
  coherent c lo hi a f -> line_ok c lo hi l ->
  line_base c l <= addr -> addr + Z.of_nat (length bs) <= line_base c l + blkSize c ->
  coherent c lo hi (delete l a) (fwrite f addr bs).
Proof.
  intros Ha Hl H1 H2. apply (coherent_ext _ _ _ _ f).
  - intros l' st' [_ Hst']%lookup_delete_Some. by apply Ha.
  - intros l' st' x [Hne Hst']%lookup_delete_Some _ Hx. apply (apart_line l l'); try done.
    apply (Ha l' st' Hst').
Qed.

(** A write of the memory inside a line that is not held. *)
Lemma write_free a f l addr bs :
  coherent c lo hi a f -> a !! l = None -> line_ok c lo hi l ->
  line_base c l <= addr -> addr + Z.of_nat (length bs) <= line_base c l + blkSize c ->
  coherent c lo hi a (fwrite f addr bs) /\
  same_mem (view c a (fwrite f addr bs)) (fwrite (view c a f) addr bs).
Proof.
  intros Ha Hn Hl H1 H2. split; [rewrite <- (delete_id a l Hn); by apply delete_write|].
  intros x Hx. unfold view, fwrite. destruct (a !! line_at c x false) eqn:E; [|done].
  assert (Hne : line_at c x false <> l) by congruence.
  destruct (Z.leb_spec addr x), (Z.ltb_spec x (addr + Z.of_nat (length bs))); try done.
  destruct Hne. apply (in_line c Hc lo hi l x Hl Hx). lia.
Qed.

(** A write of both the line and the memory. *)
Lemma write_both a f l st st' addr bs :
  coherent c lo hi a f -> a !! l = Some st ->
  ls_readable st' = true -> ls_dirty st' = ls_dirty st ->
  ls_data st' = patched addr bs (line_base c l) (ls_data st) ->
  line_base c l <= addr -> addr + Z.of_nat (length bs) <= line_base c l + blkSize c ->
  coherent c lo hi (<[l := st']> a) (fwrite f addr bs) /\
  same_mem (view c (<[l := st']> a) (fwrite f addr bs)) (fwrite (view c a f) addr bs).
Proof.
  intros Ha Hst Hr Hd Ep H1 H2. destruct (Ha l st Hst) as (Hl & Hlen & _ & Hcl).
  pose proof (delete_write a f l addr bs Ha Hl H1 H2) as Hdel.
  destruct (put_view c Hc lo hi (delete l a) (fwrite f addr bs) l st' Hdel Hl) as [Hco Hv];
    [by rewrite Ep, patched_length|done| |].
  { rewrite Hd, Ep. intros Hclean. unfold patched. rewrite Hlen. apply fread_ext. intros x Hx.
    unfold fwrite. destruct (_ && _); [done|]. rewrite (Hcl Hclean).
    unfold at_base. destruct (Z.ltb_spec x (line_base c l)); [lia|]. rewrite fread_lookup by lia.
    simpl. f_equal. lia. }
  rewrite insert_delete_eq in Hco, Hv. split; [done|]. intros x Hx. rewrite (Hv x Hx).
  case_decide as E.
  - pose proof (proj1 (in_line c Hc lo hi l x Hl Hx) E).
    rewrite Ep, at_base_patched by lia. unfold fwrite. destruct (_ && _); [done|].
    symmetry. by apply (view_held c Hc lo hi).
  - assert (Hout : x < line_base c l \/ line_base c l + blkSize c <= x).
    { destruct (Z_lt_le_dec x (line_base c l)); [by left|]. right.
      destruct (Z_le_gt_dec (line_base c l + blkSize c) x); [done|]. exfalso. apply E.
      apply (in_line c Hc lo hi); [done|done|lia]. }
    rewrite fwrite_out by lia. unfold view. rewrite lookup_delete_ne by done.
    destruct (a !! line_at c x false); [done|]. apply fwrite_out. lia.
Qed.
End view.

(** ** The cache *)

Section cache.
Context {T W : Type} `{PolicyLaws T} `{FunctionalLaws W} `{Above W}.
Context (env : Env).
Implicit Types (ch : Cache T) (t : TCache T) (w : W) (f : FPkt) (p : CPkt).

(** Nothing in flight. *)
Record quiet t : Prop := {
  qt_mshrs : allocatedList (mshrQueue (tc t)) = [];
  qt_writes : allocatedList (writeBuffer t) = [];
  qt_cpu : transmitList (cpuSide t) = [];
  qt_mem : transmitList (memSide t) = []
}.

(** A lawful cache, coherent with what is below. *)
Record sound t w : Prop := {
  so_cache : cache_ok env (tc t);
  so_size : blkSize (cfg (store (tc t))) < 2 ^ 31;
  so_coherent : coherent (cfg (store (tc t))) (fw_lo w) (fw_hi w) (cached (tc t)) (fw_bytes w);
  so_quiet : quiet t;
  so_below : fw_inv w;
  so_bypass : bypassCaches (par (tc t)) = false
}.

(** The memory the cache stands for. *)
Definition stands_for t w : Bytes := view (cfg (store (tc t))) (cached (tc t)) (fw_bytes w).

(** Requests inside one line, the line being in the range below. *)
Definition fits_line t w p : Prop :=
  let c := cfg (store (tc t)) in
  let a := blkAlign c (pk_addr p) in
  pk_addr p + pk_size p <= a + blkSize c /\ fw_lo w <= a /\ a + blkSize c <= fw_hi w /\
  fw_fits w (pk_addr p) (pk_size p).

Lemma lookup_quiet f t r f1 t1 :
  check_block f t = Ok (r, f1, t1) -> quiet t1 -> functional_lookup f t = Ok (r, f1, t1).
Proof.
  intros E [Q1 Q2 Q3 Q4]. unfold functional_lookup. rewrite E. cbn [mbind outcome_bind].
  destruct r; [done|]. cbn [or_else]. unfold check_cpu_port, port_check, packets_check. rewrite Q3.
  cbn [check_list mbind outcome_bind].
  assert (t1 <| cpuSide := (cpuSide t1) <| transmitList := [] |> |> = t1) as ->
    by (destruct t1 as [? ? ? ? ? ? ? ? ? ? [] ? ? ?]; cbn in *; by subst).
  cbn [or_else]. unfold check_queue, queue_check. rewrite Q1. cbn [registers_check mbind outcome_bind].
  assert (t1 <| tc ::= fun ch => ch <| mshrs := mshrs (tc t1) |> |> = t1) as -> by (by destruct t1 as [[]]).
  cbn [or_else]. rewrite Q2. cbn [registers_check mbind outcome_bind].
  assert (t1 <| tc ::= fun ch => ch <| mshrs := mshrs (tc t1) |> |> = t1) as -> by (by destruct t1 as [[]]).
  cbn [or_else]. unfold check_mem_port, port_check, packets_check. rewrite Q4.
  cbn [check_list mbind outcome_bind].
  by destruct t1 as [? ? ? ? ? ? ? ? ? ? ? [] ? ?]; cbn in *; subst.
Qed.

(** The line of a request, and the block that holds it. *)
Lemma block_of t w p :
  sound t w -> func_request (fw_lo w) (fw_hi w) p -> fits_line t w p ->
  let ch := tc t in let c := cfg (store ch) in let l := line_at c (pk_addr p) false in
  line_ok c (fw_lo w) (fw_hi w) l /\ line_base c l = blkAlign c (pk_addr p) /\
  span_ok (line_base c l) (blkSize c) /\ line_base c l <= pk_addr p /\
  pk_addr p + pk_size p <= line_base c l + blkSize c /\
  ((findBlock (store ch) (pk_addr p) false = Ok None /\ cached ch !! l = None) \/
   exists b blk d, findBlock (store ch) (pk_addr p) false = Ok (Some b) /\
     held (mem (store ch)) (datas ch) l b blk d /\ isValid blk = true /\
     l = (blk_set blk, tag blk, isSecure blk) /\ cached ch !! l = Some (line_state blk d) /\
     Z.of_nat (length d) = blkSize c).
Proof.
  intros [Hok Hs Hco _ _ _] [_ Hp _ _] (F1 & F2 & F3 & _) ch c l.
  assert (Hc : cfg_ok c) by apply Hok. pose proof (func_addr p Hp) as Ha.
  assert (El : line_base c l = blkAlign c (pk_addr p)) by (by apply line_at_base).
  pose proof (blkAlign_range c Hc (pk_addr p) Ha) as [_ Hr].
  split_and!; [by apply line_at_ok|done|rewrite El; by apply line_span|lia|fold ch c in F1; lia|].
  destruct (findBlock_spec (store ch) (pk_addr p) false (ok_wf _ _ (co_tags _ _ Hok)))
    as [(b & blk & E & Hb & Hl)|[E Hn]]; [right|left; split; [done|by apply (cached_None env)]].
  destruct (data_of env ch b blk Hok Hb) as (d & Hd & Hlen). exists b, blk, d.
  assert (Hh : held (mem (store ch)) (datas ch) l b blk d) by done.
  unfold line_of in Hl. destruct (isValid blk) eqn:Hv; [|done].
  apply (inj Some) in Hl. split; [exact E|]. split; [exact Hh|]. split; [done|]. split; [by rewrite Hl|].
  split; [by apply (cached_held env ch l b)|exact Hlen].
Qed.

(** Looking a read up leaves the cache alone, fills the packet if the line is
    held, and stops only at bytes newer than those below. *)
Lemma check_block_read f t w :
  sound t w -> func_request (fw_lo w) (fw_hi w) (f_pkt f) -> fits_line t w (f_pkt f) ->
  pk_cmd (f_pkt f) = ReadReq ->
  let p := f_pkt f in let d := fread (stands_for t w) (pk_addr p) (pk_size p) in
  exists r f1, check_block f t = Ok (r, f1, t) /\
    (f_pkt f1 = p /\ r = false \/ f_pkt f1 = p <| pk_data := d |>) /\
    (r = false -> fread (fw_bytes w) (pk_addr p) (pk_size p) = d).
Proof.
  intros Hs Hreq Hfit Hcmd p d. pose proof Hs as [Hok Hsz Hco Hq Hb Hby].
  pose proof Hreq as [_ Hf Hsec _].
  destruct (block_of t w (f_pkt f) Hs Hreq Hfit) as (Hl & El & Hsp & Hlo & Hhi & Hblk).
  unfold check_block. fold p in Hsec, Hf, Hl, El, Hsp, Hlo, Hhi, Hblk, Hcmd |- *.
  set (ch := tc t) in *. set (c := cfg (store ch)) in *.
  set (l := line_at c (pk_addr p) false) in *. assert (Hc : cfg_ok c) by apply Hok.
  assert (Hx : forall x, pk_addr p <= x < pk_addr p + pk_size p -> is_addr x /\ line_at c x false = l).
  { intros x Hx. pose proof (line_top c Hc _ _ l Hl). pose proof (lo_addr _ _ _ _ Hl) as Ha. unfold is_addr in *.
    split; [lia|]. apply (in_line c Hc _ _ l x Hl); unfold is_addr; lia. }
  rewrite Hsec. unfold findMatch. rewrite (qt_mshrs _ Hq : allocatedList (mshrQueue ch) = []).
  destruct Hblk as [[-> Hn]|(b & blk & d0 & -> & Hh & Hv & Eline & Hst & Hlen)];
    cbn [find_mshr mbind outcome_bind].
  - exists false, f. split; [done|]. split; [by left|]. intros _. apply fread_ext. intros x Hr.
    destruct (Hx x Hr) as [_ E]. unfold stands_for. symmetry. apply view_free. fold ch c. by rewrite E.
  - pose proof Hh as (Hbm & Hd & _). unfold get_ref, get_data. rewrite (getBlk_ok _ _ _ Hbm).
    cbn [mbind outcome_bind]. rewrite Hv, (aget_ok _ _ _ Hd). cbn [mbind outcome_bind].
    rewrite (co_blkSize _ _ Hok). fold ch c. rewrite <- El, <- Hlen.
    assert (Ed : fread (at_base (line_base c l) d0) (pk_addr p) (pk_size p) = d).
    { apply fread_ext. intros x Hr. destruct (Hx x Hr) as [Ha E]. symmetry.
      exact (view_held c Hc _ _ _ _ x l (line_state blk d0) Hco Ha E Hst). }
    rewrite checkFunctional_inside; fold p; rewrite ?Hlen, ?Hcmd, ?Hsec; try done.
    cbn [mbind outcome_bind set_data]. unfold aset. rewrite decide_True by (by eapply lookup_lt_Some).
    cbn [mbind outcome_bind]. rewrite Ed, list_insert_id by done.
    assert (Et : t <| tc := ch <| datas := datas ch |> |> = t) by (unfold ch; by destruct t as [[]]).
    rewrite Et. destruct (isDirty blk) eqn:Hdirty; cbn [mbind outcome_bind].
    + eexists true, _. split; [reflexivity|]. split; [by right|done].
    + eexists false, _. split; [reflexivity|]. split; [by right|]. intros _. rewrite <- Ed.
      apply fread_ext. intros x Hr. destruct (Hco _ _ Hst) as (_ & _ & _ & Hcl).
      specialize (Hcl Hdirty). cbn in Hcl. rewrite Hcl.
      unfold at_base. destruct (Z.ltb_spec x (line_base c l)); [lia|]. rewrite fread_lookup by lia.
      simpl. f_equal. lia.
Qed.

(** A read: answered by the cache when it owns the bytes, else from below. *)
Lemma read_ok f t w :
  sound t w -> func_request (fw_lo w) (fw_hi w) (f_pkt f) -> fits_line t w (f_pkt f) ->
  pk_cmd (f_pkt f) = ReadReq ->
  exists w' f', functionalAccess true f t w = Ok (t, w', f') /\ sound t w' /\
    fw_lo w' = fw_lo w /\ fw_hi w' = fw_hi w /\ (forall a n, fw_fits w a n -> fw_fits w' a n) /\
    f_pkt f' = func_answer (stands_for t w) (f_pkt f) /\
    same_mem (stands_for t w') (stands_for t w).
Proof.
  intros Hs Hreq Hfit Hcmd. destruct (check_block_read f t w Hs Hreq Hfit Hcmd) as (r & f1 & E & Hf1 & Hr).
  unfold functionalAccess. rewrite (so_bypass _ _ Hs), (lookup_quiet _ _ _ _ _ E (so_quiet _ _ Hs)).
  cbn [mbind outcome_bind]. destruct r.
  - destruct Hf1 as [[_ ?]|Ef]; [done|]. unfold makeResponse. rewrite Ef.
    change (pk_cmd (_ <| pk_data := _ |>)) with (pk_cmd (f_pkt f)). rewrite Hcmd.
    exists w. eexists. split; [reflexivity|]. split_and!; try done.
    unfold func_answer. by rewrite Hcmd.
  - assert (Hp : pk_cmd (f_pkt f1) = ReadReq /\ pk_addr (f_pkt f1) = pk_addr (f_pkt f) /\
      pk_size (f_pkt f1) = pk_size (f_pkt f) /\ func_request (fw_lo w) (fw_hi w) (f_pkt f1) /\
      forall bs, (f_pkt f1) <| pk_data := bs |> = (f_pkt f) <| pk_data := bs |>).
    { destruct Hf1 as [[-> _]| ->]; [by split_and!|]. split_and!; try done.
      destruct Hreq as [? [G1 G2 G3] ? ?]. split; try done. split; try done. cbn.
      rewrite length_fread. destruct G1. cbn in *. lia. }
    destruct Hp as (Ec & Ea & En & Hreq1 & Edata). destruct Hfit as (_ & _ & _ & Hfit).
    destruct (functional_request_law f1 w (so_below _ _ Hs) Hreq1) as
      (w' & f' & -> & Hw' & Hlo & Hhi & Hft & Ef & Hm); [by rewrite Ea, En|].
    cbn [mbind outcome_bind]. unfold func_effect in Hm. rewrite Ec in Hm.
    change (isWrite ReadReq) with false in Hm. cbn iota in Hm. destruct Hs as [Hok Hsz Hco Hq Hb Hby].
    exists w', f'. split; [done|]. split_and!; try done.
    + split; try done. rewrite Hlo, Hhi. eapply coherent_same; [apply Hok|by symmetry|done].
    + rewrite Ef. unfold func_answer. rewrite Ec, Ea, En, Hcmd.
      change (isRead ReadReq) with true. cbn iota. by rewrite Edata, (Hr eq_refl).
    + intros x Hx. unfold stands_for. apply view_ext. intros _. by apply Hm.
Qed.

Lemma patch_datas_free p ch :
  findBlock (store ch) (pk_addr p) (pk_secure p) = Ok None -> ch <| datas := patch_datas p ch |> = ch.
Proof. intros E. unfold patch_datas. rewrite E. by destruct ch. Qed.
Lemma patch_datas_held p ch b d :
  findBlock (store ch) (pk_addr p) (pk_secure p) = Ok (Some b) -> datas ch !! b = Some d ->
  patch_datas p ch =
    <[b := patched (pk_addr p) (pk_data p) (blkAlign (cfg (store ch)) (pk_addr p)) d]> (datas ch).
Proof. intros E Hd. unfold patch_datas. rewrite E. by apply alter_at. Qed.

(** A write: in the line if it is held, and always below. *)
Lemma write_ok f t w :
  sound t w -> func_request (fw_lo w) (fw_hi w) (f_pkt f) -> fits_line t w (f_pkt f) ->
  pk_cmd (f_pkt f) = WriteReq ->
  let t' := t <| tc := (tc t) <| datas := patch_datas (f_pkt f) (tc t) |> |> in
  exists w' f', functionalAccess true f t w = Ok (t', w', f') /\ sound t' w' /\
    fw_lo w' = fw_lo w /\ fw_hi w' = fw_hi w /\ (forall a n, fw_fits w a n -> fw_fits w' a n) /\
    f_pkt f' = func_answer (stands_for t w) (f_pkt f) /\
    same_mem (stands_for t' w') (func_effect (stands_for t w) (f_pkt f)).
Proof.
  intros Hs Hreq Hfit Hcmd t'. pose proof Hs as [Hok Hsz Hco Hq Hb Hby].
  pose proof Hreq as [_ Hf Hsec _].
  destruct (block_of t w (f_pkt f) Hs Hreq Hfit) as (Hl & El & Hsp & Hlo & Hhi & Hblk).
  assert (Hr : isRead (pk_cmd (f_pkt f)) = false) by (by rewrite Hcmd).
  assert (Hw : isWrite (pk_cmd (f_pkt f)) = true) by (by rewrite Hcmd).
  assert (E : check_block f t = Ok (false, f, t')).
  { apply (check_block_write env); try done. by rewrite (qt_mshrs _ Hq). }
  assert (Hq' : quiet t') by (by destruct Hq).
  unfold functionalAccess. rewrite Hby, (lookup_quiet _ _ _ _ _ E Hq'). cbn [mbind outcome_bind].
  destruct (functional_request_law f w Hb Hreq) as
    (w' & f' & -> & Hw' & Elo & Ehi & Hft & Ef & Hm); [apply Hfit|].
  cbn [mbind outcome_bind]. exists w', f'. split; [done|]. unfold func_effect in Hm |- *. rewrite Hw in Hm |- *.
  assert (Hfin : cache_ok env (tc t') /\
    coherent (cfg (store (tc t))) (fw_lo w) (fw_hi w) (cached (tc t'))
      (fwrite (fw_bytes w) (pk_addr (f_pkt f)) (pk_data (f_pkt f))) /\
    same_mem (view (cfg (store (tc t))) (cached (tc t'))
                (fwrite (fw_bytes w) (pk_addr (f_pkt f)) (pk_data (f_pkt f))))
      (fwrite (stands_for t w) (pk_addr (f_pkt f)) (pk_data (f_pkt f)))).
  { change (tc t') with ((tc t) <| datas := patch_datas (f_pkt f) (tc t) |>).
    set (ch := tc t) in *. set (c := cfg (store ch)) in *. set (p := f_pkt f) in *.
    set (l := line_at c (pk_addr p) false) in *. pose proof (fo_len _ Hf) as Hlen. assert (Hcfg : cfg_ok c) by apply Hok.
    destruct Hblk as [[Eb Hn]|(b & blk & d0 & Eb & Hh & Hv & Eline & Hst & Hld)].
    - rewrite patch_datas_free by (by rewrite Hsec). split; [done|].
      apply (write_free c Hcfg _ _ _ _ l); try done. lia.
    - pose proof Hh as (Hbm & Hd & _). rewrite (patch_datas_held p ch b d0) by (by rewrite ?Hsec). fold c. rewrite <- El.
      destruct (set_data_ok env ch b blk d0 (patched (pk_addr p) (pk_data p) (line_base c l) d0) Hok Hbm Hd)
        as (ch' & Ech & Hok' & _ & _ & _ & Hc'); [apply patched_length|].
      unfold set_data, aset in Ech. rewrite decide_True in Ech by (by eapply lookup_lt_Some).
      assert (ch <| datas := <[b := patched (pk_addr p) (pk_data p) (line_base c l) d0]> (datas ch) |> = ch')
        as -> by (by injection Ech).
      split; [done|]. rewrite (Hc' Hv), <- Eline.
      apply (write_both c Hcfg _ _ _ _ l (line_state blk d0)); try done; [|lia].
      by destruct (Hco _ _ Hst) as (_ & _ & Hrd & _). }
  destruct Hfin as (Hok' & Hco' & Hv'). split_and!; try done.
  - split; try done. rewrite Elo, Ehi. eapply coherent_same; [apply Hok| |exact Hco'].
    symmetry. exact Hm.
  - rewrite Ef. unfold func_answer. by rewrite Hr.
  - intros x Hx. etrans; [|exact (Hv' x Hx)]. apply view_ext. intros _. by apply Hm.
Qed.

Lemma functional_ok f t w :
  sound t w -> func_request (fw_lo w) (fw_hi w) (f_pkt f) -> fits_line t w (f_pkt f) ->
  exists t' w' f', functionalAccess true f t w = Ok (t', w', f') /\ sound t' w' /\
    cfg (store (tc t')) = cfg (store (tc t)) /\
    fw_lo w' = fw_lo w /\ fw_hi w' = fw_hi w /\ (forall a n, fw_fits w a n -> fw_fits w' a n) /\
    f_pkt f' = func_answer (stands_for t w) (f_pkt f) /\
    same_mem (stands_for t' w') (func_effect (stands_for t w) (f_pkt f)).
Proof.
  intros Hs Hreq Hfit. destruct (fr_cmd _ _ _ Hreq) as [Hc|Hc].
  - destruct (read_ok f t w Hs Hreq Hfit Hc) as (w' & f' & E & Hs' & Hlo & Hhi & Hf & Ef & Hm).
    exists t, w', f'. unfold func_effect. by rewrite Hc.
  - destruct (write_ok f t w Hs Hreq Hfit Hc) as (w' & f' & E & Hs' & Hlo & Hhi & Hf & Ef & Hm).
    by eexists _, w', f'.
Qed.
End cache.

(** C5. A cache with nothing in flight, of any level and with any replacement
    policy, is transparent to functional requests: a read or a write inside one
    line is answered as by the memory the cache stands for (its lines over the
    bytes below), which a write changes as it would change that memory, whether
    the line is held dirty, held clean or not at all; lines stay coherent with
    what is below. *)
Theorem functional_access_transparent {T W : Type} `{PolicyLaws T} `{FunctionalLaws W} `{Above W}
    (env : Env) (f : FPkt) (t : TCache T) (w : W) :
  sound env t w -> func_request (fw_lo w) (fw_hi w) (f_pkt f) -> fits_line t w (f_pkt f) ->
  exists t' w' f', functionalAccess true f t w = Ok (t', w', f') /\ sound env t' w' /\
    f_pkt f' = func_answer (stands_for t w) (f_pkt f) /\
    same_mem (stands_for t' w') (func_effect (stands_for t w) (f_pkt f)).
Proof.
  intros Hs Hreq Hfit. destruct (functional_ok env f t w Hs Hreq Hfit)
    as (t' & w' & f' & E & Hs' & _ & _ & _ & _ & Ef & Hm). by exists t', w', f'.
Qed.

(** ** The memory at the bottom *)

Lemma mem_functional_ok (masters : Z) (m : SimpleMemory) (p : CPkt) :
  simple_inv masters m ->
  func_request (range_start (sm_mem m)) (range_end (sm_mem m) + 1) p ->
  exists a, mem_functionalAccess p (sm_mem m) = Ok (a, func_answer (simple_bytes m) p) /\
    simple_inv masters (m <| sm_mem := a |>) /\
    range_start a = range_start (sm_mem m) /\ range_end a = range_end (sm_mem m) /\
    forall x, simple_bytes (m <| sm_mem := a |>) x = func_effect (simple_bytes m) p x.
Proof.
  intros [(bytes & Hb & Hl) Hs He Hcnt] [Hc Hf Hsec Hr]. pose proof (func_addr p Hf) as Ha.
  pose proof Hf as [[] Hlen _]. unfold is_addr in Ha.
  unfold mem_functionalAccess, in_range, func_answer, func_effect.
  rewrite (wrap_small 64) by lia. rewrite !(proj2 (Z.leb_le _ _)) by lia. rewrite Hb. cbn [andb].
  destruct Hc as [Hc|Hc]; rewrite Hc.
  - change (isRead ReadReq) with true. change (isWrite ReadReq) with false. cbn iota.
    rewrite (setData_ok bytes (pk_addr p - range_start (sm_mem m)) p (range_start (sm_mem m))) by lia.
    replace (range_start (sm_mem m) + (pk_addr p - range_start (sm_mem m))) with (pk_addr p) by lia.
    cbn [mbind outcome_bind]. unfold makeResponse.
    change (pk_cmd (p <| pk_data := _ |>)) with (pk_cmd p). rewrite Hc.
    assert (Em : m <| sm_mem := sm_mem m |> = m) by (by destruct m).
    exists (sm_mem m). rewrite Em. split; [by unfold simple_bytes; rewrite Hb|].
    split_and!; try done. split; try done. by exists bytes.
  - change (isRead WriteReq) with false. change (isWrite WriteReq) with true. cbn iota.
    destruct (writeData_ok p bytes (pk_addr p - range_start (sm_mem m)) (range_start (sm_mem m)))
      as (b' & -> & Hl' & E); [lia..|].
    replace (range_start (sm_mem m) + (pk_addr p - range_start (sm_mem m))) with (pk_addr p) in E by lia.
    cbn [mbind outcome_bind]. unfold makeResponse. rewrite Hc.
    eexists. split; [reflexivity|]. split_and!; [|done|done|].
    + split; [|done..]. exists b'. split; [done|]. cbn. by rewrite Hl'.
    + intros x. unfold simple_bytes at 1. cbn. rewrite E. unfold simple_bytes. by rewrite Hb.
Qed.

#[export] Instance memory_functional (masters : Z) : FunctionalLaws (SimpleMemory * list CPkt).
Proof.
  refine {| fw_inv w := simple_inv masters w.1 /\ w.2 = []; fw_bytes w := simple_bytes w.1;
            fw_lo w := range_start (sm_mem w.1); fw_hi w := range_end (sm_mem w.1) + 1;
            fw_fits _ _ _ := True |}.
  intros f [m q] [Hi Hq] Hreq _. cbn in Hi, Hq, Hreq. subst q.
  destruct (mem_functional_ok masters m (f_pkt f) Hi Hreq) as (a & E & Hi' & Hlo & Hhi & Hb).
  unfold below_functional, memory_below, memory_recvFunctional. cbn [fst snd]. rewrite E.
  eexists _, _. split; [reflexivity|]. split_and!; try done; cbn; [by rewrite Hhi|]. intros x _. apply Hb.
Defined.

(** ** A small system *)

Lemma idle_sound : sound (H2 := memory_functional 16) small_env idle_tcache (small_mem, []).
Proof.
  split; try done; [exact idle_tcache_ok|]. split; [exact small_mem_ok|done].
Qed.

Lemma functional_access_transparent_witness :
  let f := FPkt_new (small_request WriteReq 66 [170; 187]) in
  exists t' w' f', functionalAccess true f idle_tcache (small_mem, []) = Ok (t', w', f') /\
    sound (H2 := memory_functional 16) small_env t' w' /\
    f_pkt f' = func_answer (stands_for (H2 := memory_functional 16) idle_tcache (small_mem, [])) (f_pkt f) /\
    same_mem (stands_for (H2 := memory_functional 16) t' w')
      (func_effect (stands_for (H2 := memory_functional 16) idle_tcache (small_mem, [])) (f_pkt f)).
Proof.
  intros f. apply (functional_access_transparent (H2 := memory_functional 16) small_env f).
  - exact idle_sound.
  - split; [by right|split; [split; vm_compute; split_and?; congruence|done|done]|done|split; vm_compute; congruence].
  - split_and!; try done; vm_compute; congruence.
Defined.
