(* ===== verification/Hierarchy.v ===== *)
(** A page flushed out of a hierarchy of caches: the message goes from level to
    level, the write-backs of every level go to the memory through the system
    port.  Each level promises the one above what [PageLaws] states. *)
From S2P Require Import Prelude IntMath MemTypes Blk SetAssoc Tags Policy Lines Memory MemLaws.
From S2P Require Import Mshr Cache CacheSide CacheBase CacheLaws View Atomic.
From S2P Require Import Lru Correct Functional Migration MigrationLaws.

#[local] Open Scope Z_scope.

(** ** Interfaces *)

(** A system port that takes every write-back; [port_mem] is the memory once
    they have arrived. *)
Class PortLaws (P : Type) `{SystemPort P} := {
  port_inv : P -> Prop;
  port_mem : P -> Bytes;
  port_law p w :
    port_inv w -> pk_cmd p = Writeback ->
    exists w', system_timing p w = Ok (w', true) /\ port_inv w' /\
      forall x, port_mem w' x = fwrite (port_mem w) (pk_addr p) (pk_data p) x
}.

(** What a level and all below it do with a message for page [pg]: [pg_last]
    is the byte the last of their write-backs carries for an address. *)
Class PageLaws (W : Type) `{Below W} `{PortLaws W} := {
  pg_last : W -> Z -> Z -> option Z;
  pg_free : W -> Z -> Prop;
  pg_port p w w' ok pg x : system_timing p w = Ok (w', ok) -> pg_last w' pg x = pg_last w pg x;
  pg_message f w :
    port_inv w -> pk_cmd (f_pkt f) = MessageReq ->
    exists w' f', below_functional f w = Ok (w', f') /\ port_inv w' /\
      pg_free w' (pk_addr (f_pkt f)) /\
      forall x, is_addr x ->
        port_mem w' x = default (port_mem w x) (pg_last w (pk_addr (f_pkt f)) x)
}.

(** ** A level *)

(** No line of the page. *)
Definition free_of {T} `{Policy T} (pg : Z) (ch : Cache T) : Prop :=
  forall l, l ∈ page_lines (cfg (store ch)) pg 64 -> cached ch !! l = None.

(** The byte a flush writes back for address [x]. *)
Definition carried_byte {T} `{Policy T} (pg : Z) (ch : Cache T) (x : Z) : option Z :=
  let c := cfg (store ch) in
  st ← cached ch !! line_at c x false;
  if bool_decide (line_at c x false ∈ page_lines c pg 64) && carried st
  then Some (at_base (line_base c (line_at c x false)) (ls_data st) x) else None.

Definition well_placed {T} `{PolicyLaws T} (env : Env) (ch : Cache T) : Prop :=
  cache_ok env ch /\ exists lo hi, placed (cfg (store ch)) lo hi (cached ch).

Section level.
Context {T W : Type} `{TagCommandsLaws T} `{Below W} `{PortLaws W} `{Above W}.
Context (env : Env) (lv : Level) (Hdata : isInstruction lv = false).
Implicit Types (ch : Cache T) (w : W) (t : TCache T).

Lemma send_page_ok wbs w :
  port_inv w -> Forall (fun wb => pk_cmd wb = Writeback) wbs ->
  exists w', send_page wbs w = Ok w' /\ port_inv w' /\
    (forall x, port_mem w' x = pend (port_mem w) wbs x).
Proof.
  unfold send_page. intros Hw Hwbs. revert w Hw. induction Hwbs as [|wb wbs Hc _ IH]; intros w Hw; [by exists w|].
  cbn [foldO]. destruct (port_law wb w Hw Hc) as (w1 & -> & Hw1 & Hm1). cbn [mbind outcome_bind].
  destruct (IH w1 Hw1) as (w2 & -> & Hw2 & Hm2). exists w2. split_and!; try done.
  intros x. rewrite Hm2. change (pend (port_mem w) (wb :: wbs)) with
    (pend (fwrite (port_mem w) (pk_addr wb) (pk_data wb)) wbs). by apply pend_ext.
Qed.

(** The cache's own part of the flush. *)
Lemma level_flush f ch w :
  well_placed env ch -> port_inv w ->
  exists ch' wbs w', send_page wbs w = Ok w' /\
    pageInvalidate lv env f ch w =
      (if isLastLevel lv then Ok (ch', w') else '(w, _) ← below_functional f w'; Ok (ch', w)) /\
    well_placed env ch' /\ free_of (pk_addr (f_pkt f)) ch' /\ port_inv w' /\
    forall x, is_addr x ->
      port_mem w' x = default (port_mem w x) (carried_byte (pk_addr (f_pkt f)) ch x).
Proof.
  intros [Hok (lo & hi & Hpl)] Hw. set (pg := pk_addr (f_pkt f)).
  destruct (flush_page_ok env ch (port_mem w) lo hi pg Hok Hpl 64) as ([ch' wbs] & E & [Hok' Hk Hl Hwb Hp]).
  cbn [fst snd] in *.
  destruct (send_page_ok wbs w Hw) as (w' & Es & Hw' & Hm).
  { eapply Forall_impl; [exact Hwb|]. by intros p [? _]. }
  exists ch', wbs, w'. split; [done|]. split_and!; try done.
  - unfold pageInvalidate, flush_page. rewrite Hdata. fold pg. rewrite E. cbn [mbind outcome_bind].
    by rewrite Es.
  - split; [done|]. exists lo, hi. rewrite (kin_cfg _ _ Hk). intros l st Hst. rewrite Hl in Hst.
    case_decide; [done|]. by apply Hpl.
  - intros l. rewrite (kin_cfg _ _ Hk). intros Hin. rewrite Hl. by rewrite decide_True.
  - intros x Hx. rewrite Hm, (Hp x Hx). unfold written_back, carried_byte.
    destruct (cached ch !! _); [|done]. cbn. by destruct (_ && _).
Qed.

Lemma message_dispatch f t w :
  pk_cmd (f_pkt f) = MessageReq ->
  recvFunctional lv env f t w =
    ('(ch, w) ← pageInvalidate lv env f (tc t) w; Ok (t <| tc := ch |>, w, f)).
Proof. intros Hc. unfold recvFunctional. by rewrite decide_False, decide_True by congruence. Qed.
End level.

(** ** Levels over levels *)

#[export] Instance cache_port_laws {T P} `{PolicyLaws T} `{PortLaws P} (env : Env) :
  PortLaws (TCache T * P).
Proof.
  refine {| port_inv tw := well_placed env (tc tw.1) /\ port_inv tw.2; port_mem tw := port_mem tw.2 |}.
  intros p [t w] [Ht Hw] Hc. cbn in *. destruct (port_law p w Hw Hc) as (w' & E & Hw' & Hm).
  exists (t, w'). unfold system_timing, cache_port. cbn. rewrite E. by split_and!.
Defined.

Section chain.
Context {T W : Type} `{TagCommandsLaws T} `{Below W} `{Above W}.
Context (lv : Level) (env : Env) (Hdata : isInstruction lv = false).
#[local] Existing Instance cache_port_laws | 0.

(** The last level: a memory port below. *)
Definition last_level `{PortLaws W} (Hl : isLastLevel lv = true) :
  @PageLaws (TCache T * W) (cache_below lv env) _ (cache_port_laws env).
Proof.
  refine {| pg_last tw pg x := carried_byte pg (tc tw.1) x; pg_free tw pg := free_of pg (tc tw.1) |}.
  - intros p [t w] [t' w'] ok pg x. unfold system_timing, cache_port. cbn.
    destruct (system_timing p w) as [[]|]; [|done]. by intros [= <- _ _].
  - intros f [t w] [Ht Hw] Hc. cbn [fst snd] in *.
    destruct (level_flush env lv Hdata f (tc t) w Ht Hw) as (ch' & wbs & w' & _ & E & Ht' & Hfree & Hw' & Hm).
    exists (t <| tc := ch' |>, w'), f. unfold below_functional, cache_below. cbn [fst snd].
    rewrite message_dispatch, E, Hl by done. by split_and!.
Defined.

Lemma send_page_last `{PageLaws W} wbs w w' pg x :
  send_page wbs w = Ok w' -> pg_last w' pg x = pg_last w pg x.
Proof.
  unfold send_page. revert w. induction wbs as [|wb wbs IH]; intros w E; [by injection E as <-|].
  cbn [foldO] in E. destruct (system_timing wb w) as [[w1 ok]|] eqn:Et; [|done].
  destruct ok; [|done]. cbn [mbind outcome_bind] in E. rewrite (IH w1 E). by eapply pg_port.
Qed.

(** A level above others: the deepest copy is the last to arrive. *)
Definition inner_level `{PageLaws W} (Hl : isLastLevel lv = false) :
  @PageLaws (TCache T * W) (cache_below lv env) _ (cache_port_laws env).
Proof.
  refine {| pg_last tw pg x := match pg_last tw.2 pg x with
                               | Some b => Some b
                               | None => carried_byte pg (tc tw.1) x
                               end;
            pg_free tw pg := free_of pg (tc tw.1) /\ pg_free tw.2 pg |}.
  - intros p [t w] [t' w'] ok pg x. unfold system_timing, cache_port. cbn.
    destruct (system_timing p w) as [[w1 ok1]|] eqn:E; [|done]. intros [= <- <- _].
    by rewrite (pg_port _ _ _ _ _ _ E).
  - intros f [t w] [Ht Hw] Hc. cbn [fst snd] in *.
    destruct (level_flush env lv Hdata f (tc t) w Ht Hw) as (ch' & wbs & w' & Es & E & Ht' & Hfree & Hw' & Hm).
    destruct (pg_message f w' Hw' Hc) as (w2 & f2 & E2 & Hw2 & Hfree2 & Hm2).
    exists (t <| tc := ch' |>, w2), f. unfold below_functional in E2 |- *. unfold cache_below. cbn [fst snd].
    rewrite message_dispatch, E, Hl by done. unfold below_functional. rewrite E2. split_and!; try done.
    intros x Hx. cbn. rewrite (Hm2 x Hx), (send_page_last _ _ _ _ _ Es).
    destruct (pg_last w _ x); [done|]. by apply Hm.
Defined.
End chain.


(** ** A small hierarchy *)

(** The log as a port: the memory once its packets have arrived. *)
#[export] Instance log_port_laws : PortLaws (list CPkt).
Proof.
  refine {| port_inv _ := True; port_mem log := pend (fun _ => 0) log |}.
  intros p log _ _. exists (log ++ [p]). split_and!; try done. intros x. unfold pend. by rewrite foldl_app.
Defined.

Definition no_snoops (W : Type) : Above W :=
  {| above_snooping _ := false; above_functional f w := Ok (w, f) |}.

Lemma idle_well_placed : well_placed small_env (tc idle_tcache).
Proof. split; [exact idle_tcache_ok|]. exists 0, 1024. intros l st. by rewrite idle_tcache_empty. Qed.

