(* ===== verification/Translator.v ===== *)
(** Address translation of the NVMain memory simulator
    (nvmain-test/src/TranslationMethod.cpp, AddressTranslator.cpp,
    include/NVMHelpers.cpp): a physical address is cut into row, column, bank,
    rank, channel and sub-array by the field order a mapping scheme gives. *)
From S2P Require Import Prelude.
From Stdlib Require Import Ascii.
From stdpp Require Import finite strings.

#[local] Open Scope Z_scope.

(** ** Data *)

(** [MEM_UNKNOWN] is the absence of a partition. *)
Inductive MemoryPartition :=
| MEM_ROW | MEM_COL | MEM_BANK | MEM_RANK | MEM_CHANNEL | MEM_SUBARRAY.
#[export] Instance MemoryPartition_eq_dec : EqDecision MemoryPartition.
Proof. solve_decision. Defined.

(** An array indexed by the six partitions. *)
Record Fields := MkFields {
  row : Z; col : Z; bank : Z; rank : Z; channel : Z; subarray : Z
}.
Definition get (p : MemoryPartition) (f : Fields) : Z :=
  match p with
  | MEM_ROW => row f | MEM_COL => col f | MEM_BANK => bank f
  | MEM_RANK => rank f | MEM_CHANNEL => channel f | MEM_SUBARRAY => subarray f
  end.
Definition put (p : MemoryPartition) (v : Z) (f : Fields) : Fields :=
  match p with
  | MEM_ROW => MkFields v (col f) (bank f) (rank f) (channel f) (subarray f)
  | MEM_COL => MkFields (row f) v (bank f) (rank f) (channel f) (subarray f)
  | MEM_BANK => MkFields (row f) (col f) v (rank f) (channel f) (subarray f)
  | MEM_RANK => MkFields (row f) (col f) (bank f) v (channel f) (subarray f)
  | MEM_CHANNEL => MkFields (row f) (col f) (bank f) (rank f) v (subarray f)
  | MEM_SUBARRAY => MkFields (row f) (col f) (bank f) (rank f) (channel f) v
  end.

Record TranslationMethod := MkMethod { bitWidths : Fields; count : Fields; order : Fields }.
#[export] Instance TranslationMethod_settable : Settable TranslationMethod := fun m =>
  MkMethod (bitWidths m) (count m) (order m).

Inductive TranslationField :=
| NO_FIELD | ROW_FIELD | COL_FIELD | BANK_FIELD | RANK_FIELD | CHANNEL_FIELD | SUBARRAY_FIELD.

(** The member [lowColBits] is overwritten by every call that reads it. *)
Record AddressTranslator := MkTranslator {
  method : option TranslationMethod;
  defaultField : TranslationField;
  busWidth : Z;
  burstLength : Z
}.
Definition AddressTranslator_new : AddressTranslator := MkTranslator None NO_FIELD 64 8.

(** ** The translation method *)

(** Orders count from 1 in the interface and from 0 inside. *)
Definition SetOrder (o : Fields) (m : TranslationMethod) : TranslationMethod :=
  m <| order := MkFields (row o - 1) (col o - 1) (bank o - 1) (rank o - 1) (channel o - 1)
                         (subarray o - 1) |>.
Definition SetBitWidths (w : Fields) (m : TranslationMethod) : TranslationMethod :=
  m <| bitWidths := w |>.
Definition SetCount (c : Fields) (m : TranslationMethod) : TranslationMethod :=
  m <| count := c |>.

(** The constructor; [uninit] is what [count] holds before [SetCount]. *)
Definition TranslationMethod_new (uninit : Fields) : TranslationMethod :=
  SetOrder (MkFields 4 1 3 5 6 2)
    (SetBitWidths (MkFields 10 8 3 1 1 6) (MkMethod uninit uninit uninit)).

Definition FindOrder (m : TranslationMethod) (o : Z) : option MemoryPartition :=
  if row (order m) =? o then Some MEM_ROW
  else if col (order m) =? o then Some MEM_COL
  else if bank (order m) =? o then Some MEM_BANK
  else if rank (order m) =? o then Some MEM_RANK
  else if channel (order m) =? o then Some MEM_CHANNEL
  else if subarray (order m) =? o then Some MEM_SUBARRAY
  else None.

(** [strtok_r] with the separator [":"]: the non-empty pieces. *)
Definition colon : Ascii.ascii := ":"%char.
Fixpoint tokens (cur : string) (s : string) : list string :=
  match s with
  | EmptyString => if decide (cur = "") then [] else [cur]
  | String c s =>
      if decide (c = colon)
      then if decide (cur = "") then tokens "" s else cur :: tokens "" s
      else tokens (cur +:+ String c "") s
  end.

Definition partition_name (t : string) : option MemoryPartition :=
  if decide (t = "R") then Some MEM_ROW
  else if decide (t = "C") then Some MEM_COL
  else if decide (t = "BK") then Some MEM_BANK
  else if decide (t = "RK") then Some MEM_RANK
  else if decide (t = "CH") then Some MEM_CHANNEL
  else if decide (t = "SA") then Some MEM_SUBARRAY
  else None.

(** A token takes the next order down; an unknown one only prints. *)
Definition take_token (st : Fields * Z) (t : string) : Fields * Z :=
  let '(o, currentOrder) := st in
  (match partition_name t with Some p => put p currentOrder o | None => o end, currentOrder - 1).

(** The fields no token set, in the order of the six [if]s. *)
Definition take_unset (st : Fields * Z) (p : MemoryPartition) : Fields * Z :=
  let '(o, currentOrder) := st in
  if get p o =? 0 then (put p currentOrder o, currentOrder - 1) else st.
Definition unset_order : list MemoryPartition :=
  [MEM_SUBARRAY; MEM_CHANNEL; MEM_RANK; MEM_BANK; MEM_ROW; MEM_COL].

(** The scheme is copied into a buffer of 16 characters. *)
Definition SetAddressMappingScheme (scheme : string) (m : TranslationMethod)
    : outcome TranslationMethod :=
  if (16 <=? String.length scheme)%nat then Err OutOfBounds
  else
    let st := foldl take_token (MkFields 0 0 0 0 0 0, 6) (tokens "" scheme) in
    let '(o, _) := foldl take_unset st unset_order in
    Ok (SetOrder o m).

(** ** The translator *)

(** [mlog2]: the loop halves an [int] of 32 bits, so 32 rounds reach 0. *)
Fixpoint mlog2_loop (fuel : nat) (retVal newNum : Z) : Z :=
  match fuel with
  | O => retVal
  | S fuel => if newNum =? 0 then retVal else mlog2_loop fuel (retVal + 1) (Z.shiftr newNum 1)
  end.
Definition mlog2 (num : Z) : Z := if num <? 2 then 0 else mlog2_loop 32 (-1) num.

Definition busOffsetBits (a : AddressTranslator) : Z := mlog2 (Z.quot (busWidth a) 8).
Definition lowColBits (a : AddressTranslator) : Z :=
  mlog2 (Z.quot (busWidth a * burstLength a) 8) - busOffsetBits a.

(** A shift of a [uint64_t] is defined for these amounts only. *)
Definition shift_ok (n : Z) : bool := (0 <=? n) && (n <? 64).

Definition Divide (m : TranslationMethod) (partSize : Z) (p : MemoryPartition) : Z :=
  Z.shiftr partSize (get p (bitWidths m)).
Definition Modulo (m : TranslationMethod) (partialAddr : Z) (p : MemoryPartition) : outcome Z :=
  if shift_ok (get p (bitWidths m))
  then Ok (partialAddr mod u64 (Z.shiftl 1 (get p (bitWidths m))))
  else Err BadShift.

(** [*partitions[part] = ...] for an unknown partition writes outside the
    array. *)
Definition translate_step (m : TranslationMethod) (i : nat) (st : Z * Fields)
    : outcome (Z * Fields) :=
  let '(refAddress, out) := st in
  match FindOrder m (Z.of_nat i) with
  | None => Err OutOfBounds
  | Some p =>
      v ← Modulo m refAddress p;
      Ok (Divide m refAddress p, put p v out)
  end.

(** [out] is what the six result variables hold before the call. *)
Definition Translate (a : AddressTranslator) (address : Z) (out : Fields) : outcome Fields :=
  match method a with
  | None => Ok out
  | Some m =>
      if shift_ok (lowColBits a) then
        let refAddress := Z.shiftr (Z.shiftr address (busOffsetBits a)) (lowColBits a) in
        '(_, out) ← for_from 0 6 (translate_step m) (refAddress, out);
        Ok out
      else Err BadShift
  end.

Definition default_value (a : AddressTranslator) (f : Fields) : Z :=
  match defaultField a with
  | ROW_FIELD => row f | COL_FIELD => col f | BANK_FIELD => bank f | RANK_FIELD => rank f
  | CHANNEL_FIELD => channel f | SUBARRAY_FIELD => subarray f | NO_FIELD => 0
  end.
Definition Translate_default (a : AddressTranslator) (address : Z) (uninit : Fields) : outcome Z :=
  f ← Translate a address uninit; Ok (default_value a f).

(** An unknown partition only prints here. *)
Definition reverse_step (m : TranslationMethod) (f : Fields) (i : nat) (st : Z * Z)
    : outcome (Z * Z) :=
  let '(unitAddr, phyAddr) := st in
  match FindOrder m (Z.of_nat i) with
  | None => Ok st
  | Some p =>
      if shift_ok (get p (bitWidths m))
      then Ok (u64 (Z.shiftl unitAddr (get p (bitWidths m))),
               u64 (phyAddr + u64 (get p f * unitAddr)))
      else Err BadShift
  end.
Definition ReverseTranslate (a : AddressTranslator) (f : Fields) : outcome Z :=
  match method a with
  | None => Err Fatal
  | Some m =>
      if shift_ok (lowColBits a) then
        let unitAddr := u64 (Z.shiftl (u64 (Z.shiftl 1 (busOffsetBits a))) (lowColBits a)) in
        '(_, phyAddr) ← for_from 0 6 (reverse_step m f) (unitAddr, 0);
        Ok phyAddr
      else Err BadShift
  end.

(** [NVMAddress], as far as [Translate( NVMainRequest * )] reads it. *)
Record NVMAddress := MkAddress { translated : bool; physicalAddress : Z; fields : Fields }.
Definition Translate_request (a : AddressTranslator) (address : NVMAddress) (uninit : Fields)
    : outcome Z :=
  if translated address then Ok (default_value a (fields address))
  else Translate_default a (physicalAddress address) uninit.

Example scheme_example :
  order <$> SetAddressMappingScheme "R:RK:BK:CH:C" (TranslationMethod_new (MkFields 0 0 0 0 0 0)) =
    Ok (MkFields 5 1 3 4 2 0).
Proof. reflexivity. Qed.

(** ** Logarithms *)

Lemma mlog2_loop_log2 fuel r n :
  0 <= n < 2 ^ Z.of_nat fuel -> mlog2_loop fuel r n = r + (if n =? 0 then 0 else Z.log2 n + 1).
Proof.
  revert r n. induction fuel as [|fuel IH]; intros r n Hn.
  - assert (n = 0) as -> by (simpl in Hn; lia). simpl. lia.
  - cbn [mlog2_loop]. destruct (Z.eqb_spec n 0) as [->|Hne]; [lia|].
    rewrite Nat2Z.inj_succ, Z.pow_succ_r in Hn by lia.
    rewrite Z.shiftr_div_pow2, Z.pow_1_r by lia.
    assert (Hd : 0 <= n / 2 < 2 ^ Z.of_nat fuel) by (split; [apply Z.div_pos; lia|apply Z.div_lt_upper_bound; lia]).
    rewrite IH by done. destruct (Z.eqb_spec (n / 2) 0) as [E|E].
    + assert (n = 1) as -> by (pose proof (Z.div_mod n 2); pose proof (Z.mod_pos_bound n 2); lia).
      simpl. lia.
    + assert (Z.log2 n = Z.succ (Z.log2 (n / 2))); [|lia].
      rewrite <- Z.div2_div in *. pose proof (Z.div2_odd n) as Ho. rewrite Ho at 1.
      destruct (Z.odd n); simpl Z.b2z.
      * rewrite Z.log2_succ_double; lia.
      * rewrite Z.add_0_r, Z.log2_double; lia.
Qed.

Lemma mlog2_log2 n : n < 2 ^ 32 -> mlog2 n = Z.log2 n.
Proof.
  intros Hn. unfold mlog2. destruct (Z.ltb_spec n 2) as [Hl|Hl].
  - destruct (Z.leb_spec n 0); [symmetry; apply Z.log2_nonpos; lia|].
    assert (n = 1) as -> by lia. done.
  - rewrite mlog2_loop_log2 by (change (2 ^ Z.of_nat 32) with (2 ^ 32); lia).
    destruct (Z.eqb_spec n 0); lia.
Qed.

(** ** Mixed-radix numbers *)

Lemma get_put p q v f : get p (put q v f) = if decide (p = q) then v else get p f.
Proof. by destruct p, q. Qed.

Lemma fields_ext f g : (forall p, get p f = get p g) -> f = g.
Proof.
  intros H. destruct f, g.
  f_equal; [apply (H MEM_ROW)|apply (H MEM_COL)|apply (H MEM_BANK)|apply (H MEM_RANK)|
    apply (H MEM_CHANNEL)|apply (H MEM_SUBARRAY)].
Qed.

Section radix.
Context (w : MemoryPartition -> Z) (Hw : forall p, 0 <= w p).
Implicit Types (ps : list MemoryPartition) (f out : Fields).

Fixpoint total ps : Z := match ps with [] => 0 | p :: ps => w p + total ps end.
Fixpoint enc ps f : Z :=
  match ps with [] => 0 | p :: ps => get p f + 2 ^ w p * enc ps f end.
Fixpoint dec ps (ref : Z) out : Fields :=
  match ps with
  | [] => out
  | p :: ps => dec ps (ref / 2 ^ w p) (put p (ref mod 2 ^ w p) out)
  end.
Definition in_widths f : Prop := forall p, 0 <= get p f < 2 ^ w p.

Lemma total_nonneg ps : 0 <= total ps.
Proof. induction ps as [|p ps IH]; simpl; [lia|]. pose proof (Hw p). lia. Qed.

Lemma enc_range ps f : in_widths f -> 0 <= enc ps f < 2 ^ total ps.
Proof.
  intros Hf. induction ps as [|p ps IH]; simpl; [lia|].
  pose proof (Hf p). pose proof (Hw p). rewrite Z.pow_add_r by (done || apply total_nonneg). nia.
Qed.

Lemma enc_step p ps f :
  in_widths f -> enc (p :: ps) f mod 2 ^ w p = get p f /\ enc (p :: ps) f / 2 ^ w p = enc ps f.
Proof.
  intros Hf. specialize (Hf p). cbn [enc]. pose proof (Z.pow_pos_nonneg 2 (w p) ltac:(lia) (Hw p)).
  rewrite Z.add_comm, (Z.mul_comm (2 ^ w p)). split.
  - rewrite Z.add_comm, Z.mod_add, Z.mod_small by lia. done.
  - rewrite Z.div_add_l, Z.div_small by lia. lia.
Qed.

Lemma dec_other p ps ref out : p ∉ ps -> get p (dec ps ref out) = get p out.
Proof.
  revert ref out. induction ps as [|q ps IH]; intros ref out Hp; [done|]. cbn [dec].
  rewrite IH by set_solver. rewrite get_put, decide_False; [done|]. set_solver.
Qed.

Lemma dec_enc ps f out p :
  NoDup ps -> in_widths f -> p ∈ ps -> get p (dec ps (enc ps f) out) = get p f.
Proof.
  intros Hn Hf Hp. revert out. induction ps as [|q ps IH]; intros out; [by apply not_elem_of_nil in Hp|].
  apply NoDup_cons in Hn as [Hq Hn]. destruct (enc_step q ps f Hf) as [Em Ed]. cbn [dec].
  rewrite Em, Ed. apply elem_of_cons in Hp as [->|Hp]; [|by apply IH].
  rewrite dec_other by done. by rewrite get_put, decide_True.
Qed.

Lemma enc_ext ps f g : (forall p, p ∈ ps -> get p f = get p g) -> enc ps f = enc ps g.
Proof.
  induction ps as [|p ps IH]; intros H; [done|]. cbn [enc]. rewrite (H p), IH; [done| |set_solver].
  intros q Hq. apply H. set_solver.
Qed.

Lemma enc_dec ps ref out : NoDup ps -> 0 <= ref -> enc ps (dec ps ref out) = ref mod 2 ^ total ps.
Proof.
  revert ref out. induction ps as [|p ps IH]; intros ref out Hn Hr; [simpl; by rewrite Z.mod_1_r|].
  apply NoDup_cons in Hn as [Hp Hn]. cbn [enc dec total].
  pose proof (Z.pow_pos_nonneg 2 (w p) ltac:(lia) (Hw p)).
  rewrite dec_other, get_put, decide_True by done. rewrite IH by (done || by apply Z.div_pos; lia).
  rewrite Z.pow_add_r by (done || apply total_nonneg).
  pose proof (Z.pow_pos_nonneg 2 (total ps) ltac:(lia) (total_nonneg ps)).
  by rewrite Z.rem_mul_r by lia.
Qed.

Lemma dec_range ps ref out p :
  NoDup ps -> 0 <= ref -> p ∈ ps -> 0 <= get p (dec ps ref out) < 2 ^ w p.
Proof.
  revert ref out. induction ps as [|q ps IH]; intros ref out Hn Hr Hp; [by apply not_elem_of_nil in Hp|].
  apply NoDup_cons in Hn as [Hq Hn]. cbn [dec].
  pose proof (Z.pow_pos_nonneg 2 (w q) ltac:(lia) (Hw q)).
  destruct (decide (p = q)) as [->|Hne].
  - rewrite dec_other, get_put, decide_True by done. by apply Z.mod_pos_bound.
  - apply IH; [done|by apply Z.div_pos; lia|set_solver].
Qed.
End radix.

(** ** The loops *)

Section loops.
Context (m : TranslationMethod).
Notation w := (fun p => get p (bitWidths m)).
Context (Hw : forall p, 0 <= w p < 64).

Definition ordered (i : nat) (ps : list MemoryPartition) : Prop :=
  forall k p, ps !! k = Some p -> FindOrder m (Z.of_nat (i + k)) = Some p.

Lemma ordered_tail i p ps :
  ordered i (p :: ps) -> FindOrder m (Z.of_nat i) = Some p /\ ordered (S i) ps.
Proof.
  intros H. split; [rewrite <- (Nat.add_0_r i); by apply (H 0%nat)|].
  intros k q Hk. rewrite Nat.add_succ_comm. by apply H.
Qed.

Lemma width_pow p : 0 < 2 ^ w p < 2 ^ 64.
Proof.
  pose proof (Hw p) as Hwp. simpl in Hwp. split; [apply Z.pow_pos_nonneg; lia|].
  apply Z.pow_lt_mono_r; lia.
Qed.

Lemma shift_ok_true n : 0 <= n < 64 -> shift_ok n = true.
Proof. intros Hn. unfold shift_ok. apply andb_true_iff. lia. Qed.

Lemma translate_step_eq i p ref out :
  FindOrder m (Z.of_nat i) = Some p ->
  translate_step m i (ref, out) = Ok (ref / 2 ^ w p, put p (ref mod 2 ^ w p) out).
Proof.
  intros Hi. unfold translate_step, Modulo, Divide. rewrite Hi.
  pose proof (width_pow p) as Hp. pose proof (Hw p) as Hwp. simpl in Hwp, Hp.
  rewrite shift_ok_true, Z.shiftl_1_l, (wrap_small 64) by lia.
  cbn [mbind outcome_bind]. by rewrite Z.shiftr_div_pow2 by lia.
Qed.

Lemma translate_loop ps : forall i ref out,
  ordered i ps ->
  for_from i (length ps) (translate_step m) (ref, out) = Ok (ref / 2 ^ total w ps, dec w ps ref out).
Proof.
  induction ps as [|p ps IH]; intros i ref out Ho; [simpl; by rewrite Z.div_1_r|].
  apply ordered_tail in Ho as [Hi Ho]. cbn [length for_from].
  rewrite (translate_step_eq i p) by done. cbn [mbind outcome_bind]. rewrite IH by done.
  cbn [total dec]. pose proof (total_nonneg w (fun q => proj1 (Hw q)) ps). pose proof (Hw p) as Hwp. simpl in Hwp.
  pose proof (width_pow p) as Hp. simpl in Hp.
  rewrite Z.pow_add_r, Z.div_div by (lia || apply Z.pow_pos_nonneg; lia). done.
Qed.

(** The accumulator and the weight of the next field; a weight of [2 ^ 64] has
    become 0, but then no field of a positive width is left. *)
Lemma reverse_step_eq f i p k a :
  FindOrder m (Z.of_nat i) = Some p -> in_widths w f -> 0 <= k -> k + w p <= 64 ->
  0 <= a < 2 ^ k ->
  reverse_step m f i (u64 (2 ^ k), a) = Ok (u64 (2 ^ (k + w p)), a + 2 ^ k * get p f) /\
  0 <= a + 2 ^ k * get p f < 2 ^ (k + w p).
Proof.
  intros Hi Hf Hk Hs Ha. unfold reverse_step. rewrite Hi.
  pose proof (Hf p) as Hfp. pose proof (Hw p) as Hwp. simpl in Hfp, Hwp. simpl in Hs.
  assert (Hr : 0 <= a + 2 ^ k * get p f < 2 ^ (k + get p (bitWidths m))).
  { rewrite Z.pow_add_r by lia. nia. }
  assert (Hle : 2 ^ (k + get p (bitWidths m)) <= 2 ^ 64) by (apply Z.pow_le_mono_r; lia).
  split; [|done]. rewrite (shift_ok_true _ Hwp). f_equal. f_equal.
  - rewrite Z.shiftl_mul_pow2 by lia. unfold wrap. rewrite Z.mul_mod_idemp_l by lia.
    by rewrite <- Z.pow_add_r by lia.
  - assert (E : u64 (get p f * u64 (2 ^ k)) = 2 ^ k * get p f).
    { destruct (decide (k = 64)) as [->|].
      - assert (get p f = 0) as -> by (assert (get p (bitWidths m) = 0) as E by lia; rewrite E in Hfp; lia). done.
      - assert (2 ^ k < 2 ^ 64) by (apply Z.pow_lt_mono_r; lia).
        rewrite (wrap_small 64 (2 ^ k)), wrap_small by nia. lia. }
    rewrite E. apply wrap_small. lia.
Qed.

Lemma reverse_loop f ps : forall i k a,
  in_widths w f -> ordered i ps -> 0 <= k -> k + total w ps <= 64 -> 0 <= a < 2 ^ k ->
  for_from i (length ps) (reverse_step m f) (u64 (2 ^ k), a) =
    Ok (u64 (2 ^ (k + total w ps)), a + 2 ^ k * enc w ps f).
Proof.
  induction ps as [|p ps IH]; intros i k a Hf Ho Hk Hs Ha.
  { cbn [length for_from total enc]. by rewrite Z.add_0_r, Z.mul_0_r, Z.add_0_r. }
  apply ordered_tail in Ho as [Hi Ho]. cbn [length for_from total enc] in *.
  pose proof (total_nonneg w (fun q => proj1 (Hw q)) ps) as Ht. pose proof (Hw p) as Hwp. simpl in Hwp.
  destruct (reverse_step_eq f i p k a Hi Hf Hk) as [-> Hr]; [simpl; lia|done|].
  cbn [mbind outcome_bind]. rewrite IH by (done || lia).
  f_equal. f_equal; [by rewrite Z.add_assoc|]. rewrite Z.pow_add_r by lia. ring.
Qed.
End loops.

(** ** Round trips *)

Definition all_partitions : list MemoryPartition :=
  [MEM_ROW; MEM_COL; MEM_BANK; MEM_RANK; MEM_CHANNEL; MEM_SUBARRAY].
Lemma all_partitions_in p : p ∈ all_partitions.
Proof. by apply (bool_decide_eq_true_1 _); destruct p. Qed.

Lemma NoDup_all_partitions ps :
  NoDup ps -> length ps = 6%nat -> ps ≡ₚ all_partitions.
Proof.
  intros Hn Hl. apply submseteq_length_Permutation; [|by rewrite Hl].
  apply NoDup_submseteq; [done|]. intros p _. apply all_partitions_in.
Qed.

Lemma FindOrder_get m o p : FindOrder m o = Some p -> get p (order m) = o.
Proof.
  unfold FindOrder. repeat (case_match; [intros [= <-]; by apply Z.eqb_eq|]). done.
Qed.

(** Every order is taken by some partition, so by exactly one. *)
Definition orders_unique (m : TranslationMethod) : Prop :=
  forall i, (i < 6)%nat -> exists p, get p (order m) = Z.of_nat i.

Lemma FindOrder_some m i : orders_unique m -> (i < 6)%nat -> exists p, FindOrder m (Z.of_nat i) = Some p.
Proof.
  intros Ho Hi. destruct (Ho i Hi) as (p & Hp). unfold FindOrder.
  repeat (case_match; [eauto|]). exfalso.
  repeat match goal with H : (_ =? _) = false |- _ => apply Z.eqb_neq in H end.
  destruct p; simpl in Hp; lia.
Qed.

Lemma orders_list m :
  orders_unique m -> exists ps, ordered m 0 ps /\ NoDup ps /\ length ps = 6%nat.
Proof.
  intros Ho.
  assert (H : forall n, (n <= 6)%nat -> exists ps, length ps = n /\ ordered m 0 ps).
  { induction n as [|n IH]; intros Hn; [exists []; by split|].
    destruct IH as (ps & Hl & Hps); [lia|]. destruct (FindOrder_some m n Ho ltac:(lia)) as (p & Hp).
    exists (ps ++ [p]). rewrite length_app, Hl. split; [simpl; lia|]. intros k q Hk.
    apply lookup_app_Some in Hk as [Hk|[Hk1 Hk]]; [by apply Hps|].
    apply list_lookup_singleton_Some in Hk as [Hk <-]. by replace (0 + k)%nat with n by lia. }
  destruct (H 6%nat) as (ps & Hl & Hps); [lia|]. exists ps. split; [done|]. split; [|done].
  apply NoDup_alt. intros i j p Hi Hj. apply Hps, FindOrder_get in Hi, Hj. lia.
Qed.

Definition burst_bits (a : AddressTranslator) : Z := busOffsetBits a + lowColBits a.

(** A bus of at least a byte, widths of a 64-bit address, distinct orders. *)
Record translator_ok (a : AddressTranslator) (m : TranslationMethod) : Prop := {
  tr_method : method a = Some m;
  tr_bus : 8 <= busWidth a;
  tr_burst : 1 <= burstLength a;
  tr_int : busWidth a * burstLength a < 2 ^ 31;
  tr_width : forall p, 0 <= get p (bitWidths m) < 64;
  tr_order : orders_unique m;
  tr_total : total (fun p => get p (bitWidths m)) all_partitions + burst_bits a <= 64
}.

Lemma bus_bits a m :
  translator_ok a m -> 0 <= busOffsetBits a /\ 0 <= lowColBits a < 64 /\
    burst_bits a = Z.log2 (busWidth a * burstLength a / 8).
Proof.
  intros []. unfold burst_bits, lowColBits, busOffsetBits.
  assert (Hd : busWidth a / 8 <= busWidth a * burstLength a / 8) by (apply Z.div_le_mono; nia).
  assert (Hl : busWidth a * burstLength a / 8 < 2 ^ 31) by (apply Z.div_lt_upper_bound; nia).
  rewrite !Z.quot_div_nonneg by nia.
  change (2 ^ 31) with 2147483648 in *.
  rewrite !mlog2_log2 by (change (2 ^ 32) with 4294967296; lia).
  pose proof (Z.log2_nonneg (busWidth a / 8)). pose proof (Z.log2_le_mono _ _ Hd).
  pose proof (Z.log2_le_mono _ _ (Z.lt_le_incl _ _ Hl)) as Hm. change (Z.log2 2147483648) with 31 in Hm. lia.
Qed.

Lemma total_perm w ps qs : ps ≡ₚ qs -> total w ps = total w qs.
Proof. induction 1; simpl; lia. Qed.

Section translate.
Context (a : AddressTranslator) (m : TranslationMethod) (H : translator_ok a m).
Notation w := (fun p => get p (bitWidths m)).
Context (ps : list MemoryPartition) (Hps : ordered m 0 ps) (Hn : NoDup ps) (Hl : length ps = 6%nat).

Lemma Translate_eq address out :
  Translate a address out = Ok (dec w ps (address / 2 ^ burst_bits a) out).
Proof.
  unfold Translate. rewrite (tr_method _ _ H). destruct (bus_bits a m H) as (Ho & Hlo & _).
  rewrite shift_ok_true by done. rewrite !Z.shiftr_div_pow2, Z.div_div, <- Z.pow_add_r
    by (done || lia || apply Z.pow_pos_nonneg; lia || apply Z.pow_nonzero; lia).
  fold (burst_bits a). rewrite <- Hl at 1. rewrite (translate_loop m (tr_width _ _ H) ps) by done. done.
Qed.

Lemma Reverse_eq f :
  in_widths w f -> ReverseTranslate a f = Ok (2 ^ burst_bits a * enc w ps f).
Proof.
  intros Hf. unfold ReverseTranslate. rewrite (tr_method _ _ H).
  destruct (bus_bits a m H) as (Ho & Hlo & _). pose proof (tr_total _ _ H) as Ht.
  rewrite <- (total_perm w ps) in Ht by (by apply NoDup_all_partitions).
  pose proof (total_nonneg w (fun p => proj1 (tr_width _ _ H p)) ps) as Htp.
  assert (Eu : u64 (Z.shiftl (u64 (Z.shiftl 1 (busOffsetBits a))) (lowColBits a)) = u64 (2 ^ burst_bits a)).
  { rewrite Z.shiftl_1_l, Z.shiftl_mul_pow2 by lia. unfold wrap. rewrite Z.mul_mod_idemp_l by lia.
    unfold burst_bits. by rewrite Z.pow_add_r by lia. }
  rewrite shift_ok_true by done. rewrite Eu, <- Hl.
  rewrite (reverse_loop m (tr_width _ _ H) f ps 0 (burst_bits a) 0) by
    (done || lia || (split; [lia|apply Z.pow_pos_nonneg; unfold burst_bits; lia]) || (unfold burst_bits in *; lia)).
  done.
Qed.
End translate.

(** C27. Address translation loses nothing.  With distinct field orders, widths
    that fit 64 bits and a bus of at least a byte, [ReverseTranslate] of fields
    within their widths gives a 64-bit address that [Translate] cuts into the
    same fields, whatever the result variables held; and [Translate] cuts every
    address within the widths into fields within theirs, which
    [ReverseTranslate] puts together again but for the bits below a burst. *)
Theorem address_translation_round_trip (a : AddressTranslator) (m : TranslationMethod) (out : Fields) :
  translator_ok a m ->
  let w := fun p => get p (bitWidths m) in
  (forall f, in_widths w f ->
     exists address, ReverseTranslate a f = Ok address /\ 0 <= address < 2 ^ 64 /\
       Translate a address out = Ok f) /\
  (forall address, 0 <= address < 2 ^ (burst_bits a + total w all_partitions) ->
     exists f, Translate a address out = Ok f /\ in_widths w f /\
       ReverseTranslate a f = Ok (address - address mod 2 ^ burst_bits a)).
Proof.
  intros H w. destruct (orders_list m (tr_order _ _ H)) as (ps & Hps & Hn & Hl).
  pose proof (NoDup_all_partitions ps Hn Hl) as Hall. pose proof (total_perm w _ _ Hall) as Etot.
  assert (Hin : forall p, p ∈ ps) by (intros p; rewrite Hall; apply all_partitions_in).
  assert (Hw : forall p, 0 <= w p) by (intros p; apply (tr_width _ _ H)).
  assert (Hb : 0 <= burst_bits a) by (destruct (bus_bits a m H) as (? & ? & _); unfold burst_bits; lia).
  pose proof (tr_total _ _ H) as Ht. fold w in Ht. rewrite <- Etot in Ht.
  pose proof (Z.pow_pos_nonneg 2 (burst_bits a) ltac:(lia) Hb) as Hpb. split.
  - intros f Hf. pose proof (enc_range w Hw ps f Hf) as Hr. pose proof (total_nonneg w Hw ps) as Htn.
    eexists. split; [by apply (Reverse_eq a m H ps)|].
    assert (Hle : 2 ^ (burst_bits a + total w ps) <= 2 ^ 64) by (apply Z.pow_le_mono_r; lia).
    rewrite Z.pow_add_r in Hle by done. fold w. split; [nia|].
    rewrite (Translate_eq a m H ps), Z.mul_comm, Z.div_mul by (done || lia). f_equal.
    apply fields_ext. intros p. by apply (dec_enc w Hw).
  - intros address Ha. set (r := address / 2 ^ burst_bits a).
    assert (Hr : 0 <= r < 2 ^ total w ps).
    { split; [apply Z.div_pos; lia|]. apply Z.div_lt_upper_bound; [lia|].
      rewrite <- Z.pow_add_r by (done || by apply (total_nonneg w Hw)). rewrite Etot. apply Ha. }
    exists (dec w ps r out). split; [by apply Translate_eq|].
    assert (Hf : in_widths w (dec w ps r out)) by (intros p; apply (dec_range w Hw); [done|lia|done]).
    split; [done|]. rewrite (Reverse_eq a m H ps) by done. rewrite (enc_dec w Hw) by (done || lia).
    rewrite Z.mod_small by done. f_equal. unfold r.
    pose proof (Z.div_mod address (2 ^ burst_bits a)). lia.
Qed.

(** ** Mapping schemes *)

Definition name (p : MemoryPartition) : string :=
  match p with
  | MEM_ROW => "R" | MEM_COL => "C" | MEM_BANK => "BK" | MEM_RANK => "RK"
  | MEM_CHANNEL => "CH" | MEM_SUBARRAY => "SA"
  end.

(** A scheme as the configuration files write it. *)
Fixpoint scheme_of (ps : list MemoryPartition) : string :=
  match ps with
  | [] => ""
  | [p] => name p
  | p :: ps => name p +:+ ":" +:+ scheme_of ps
  end.

Lemma tokens_scheme ps : tokens "" (scheme_of ps) = name <$> ps.
Proof.
  induction ps as [|p [|q ps] IH]; [done|by destruct p|].
  change (scheme_of (p :: q :: ps)) with (name p +:+ ":" +:+ scheme_of (q :: ps)).
  rewrite fmap_cons, <- IH. by destruct p.
Qed.

Lemma partition_name_name p : partition_name (name p) = Some p.
Proof. by destruct p. Qed.

(** Orders given so far: the partitions of [ps] have [6], [5], ... and the
    others are unset. *)
Definition given (ps : list MemoryPartition) (st : Fields * Z) : Prop :=
  st.2 = 6 - Z.of_nat (length ps) /\
  forall p, get p st.1 = match index_of p ps with Some i => 6 - Z.of_nat i | None => 0 end.

Lemma index_of_snoc (p q : MemoryPartition) ps :
  index_of p (ps ++ [q]) =
    match index_of p ps with Some i => Some i | None => if decide (q = p) then Some (length ps) else None end.
Proof.
  induction ps as [|x ps IH]; cbn [app index_of]; [done|].
  destruct (decide (x = p)); [done|]. rewrite IH.
  destruct (index_of p ps); [done|]. by destruct (decide (q = p)).
Qed.

Lemma given_put ps q st :
  given ps st -> q ∉ ps -> given (ps ++ [q]) (put q st.2 st.1, st.2 - 1).
Proof.
  intros [E Hg] Hq. split; [simpl; rewrite E, length_app; simpl; lia|]. intros p. cbn [fst].
  rewrite get_put, index_of_snoc, Hg. apply index_of_None in Hq.
  destruct (decide (p = q)) as [->|Hne].
  - by rewrite Hq, decide_True.
  - rewrite decide_False by done. by destruct (index_of p ps).
Qed.

Lemma given_tokens ts : forall ps st,
  given ps st -> NoDup (ps ++ ts) -> given (ps ++ ts) (foldl take_token st (name <$> ts)).
Proof.
  induction ts as [|t ts IH]; intros ps st Hg Hn; [by rewrite app_nil_r|].
  rewrite fmap_cons. cbn [foldl]. rewrite cons_middle, app_assoc in *. apply IH; [|done].
  destruct st as [o cur]. unfold take_token. rewrite partition_name_name.
  apply (given_put ps t (o, cur)); [done|].
  apply NoDup_app in Hn as [Hn _]. apply NoDup_app in Hn as (_ & Hd & _).
  intros Ht. apply (Hd t Ht). set_solver.
Qed.

Lemma NoDup_partitions (ps : list MemoryPartition) : NoDup ps -> (length ps <= 6)%nat.
Proof.
  intros Hn. change 6%nat with (length all_partitions). apply submseteq_length, NoDup_submseteq; [done|].
  intros p _. apply all_partitions_in.
Qed.

(** A given order is not 0, so the fields still 0 are the unset ones. *)
Lemma given_zero ps st p : given ps st -> NoDup ps -> (get p st.1 =? 0) = bool_decide (p ∉ ps).
Proof.
  intros [_ Hg] Hn. rewrite Hg. pose proof (NoDup_partitions ps Hn) as Hl.
  destruct (index_of p ps) as [i|] eqn:E.
  - pose proof (index_of_lt p ps i E). rewrite bool_decide_false; [apply Z.eqb_neq; lia|].
    intros Hp. apply index_of_None in Hp. congruence.
  - apply index_of_None in E. by rewrite bool_decide_true.
Qed.

Lemma given_unset us : forall ps st,
  given ps st -> NoDup ps ->
  exists rest, given (ps ++ rest) (foldl take_unset st us) /\ NoDup (ps ++ rest) /\
    forall p, p ∈ us -> p ∈ ps ++ rest.
Proof.
  induction us as [|u us IH]; intros ps st Hg Hn.
  { exists []. rewrite app_nil_r. split; [done|]. split; [done|]. by intros p ?%not_elem_of_nil. }
  cbn [foldl]. pose proof (given_zero ps st u Hg Hn) as Ez. destruct st as [o cur]. cbn [fst] in Ez.
  unfold take_unset at 2. rewrite Ez. destruct (decide (u ∈ ps)) as [Hu|Hu].
  - rewrite bool_decide_false by (intros H; by apply H).
    destruct (IH ps (o, cur) Hg Hn) as (rest & Hg' & Hn' & Hin). exists rest. split; [done|].
    split; [done|]. intros p [->|Hp]%elem_of_cons; [|by apply Hin]. set_solver.
  - rewrite bool_decide_true by done.
    pose proof (given_put ps u (o, cur) Hg Hu) as Hg1. cbn [fst snd] in Hg1.
    assert (Hn1 : NoDup (ps ++ [u])) by (apply NoDup_app; split; [done|]; split; [set_solver|apply NoDup_singleton]).
    destruct (IH _ _ Hg1 Hn1) as (rest & Hg' & Hn' & Hin). exists (u :: rest).
    rewrite cons_middle, app_assoc. split; [done|]. split; [done|].
    intros p [->|Hp]%elem_of_cons; [set_solver|by apply Hin].
Qed.

Definition name_space (ps : list MemoryPartition) : nat :=
  foldr (fun p n => String.length (name p) + 1 + n)%nat 0%nat ps.
Lemma name_space_submseteq ps qs : ps ⊆+ qs -> (name_space ps <= name_space qs)%nat.
Proof. induction 1; simpl in *; lia. Qed.

Lemma scheme_short ps : NoDup ps -> (String.length (scheme_of ps) < 16)%nat.
Proof.
  revert ps. assert (H : forall k ps, (length ps <= k)%nat -> NoDup ps ->
    (String.length (scheme_of ps) + 1 <=
       name_space ps \/ ps = [])%nat).
  { induction k as [|k IH]; intros ps Hl Hn; [destruct ps; [by right|simpl in Hl; lia]|].
    destruct ps as [|p [|q ps]]; [by right|left; simpl; lia|left].
    destruct (IH (q :: ps)) as [Hq|]; [simpl in *; lia|by apply NoDup_cons in Hn as [_ ?]| |done].
    change (scheme_of (p :: q :: ps)) with (name p +:+ ":" +:+ scheme_of (q :: ps)).
    assert (El : forall s, String.length (name p +:+ ":" +:+ s) = (String.length (name p) + 1 + String.length s)%nat)
      by (by destruct p).
    rewrite El. simpl in *. lia. }
  intros ps Hn. destruct (H (length ps) ps ltac:(lia) Hn) as [Hle| ->]; [|simpl; lia].
  assert (Hs : (name_space ps <= name_space all_partitions)%nat).
  { apply name_space_submseteq, NoDup_submseteq; [done|]. intros; apply all_partitions_in. }
  change (name_space all_partitions) with 16%nat in Hs. lia.
Qed.

(** A mapping scheme means what it says.  For every list of distinct
    partitions, all six or fewer, the scheme that names them from the most
    significant field down is accepted: its buffer of 16 characters is not
    overrun, the first named gets the highest order and so on, the partitions
    not named come below, and the orders are those of a lawful method. *)
Theorem scheme_orders_fields (ps : list MemoryPartition) (m : TranslationMethod) :
  NoDup ps ->
  exists m', SetAddressMappingScheme (scheme_of ps) m = Ok m' /\
    bitWidths m' = bitWidths m /\ count m' = count m /\ orders_unique m' /\
    forall i p, ps !! i = Some p -> get p (order m') = 5 - Z.of_nat i.
Proof.
  intros Hn. pose proof (scheme_short ps Hn) as Hlen.
  unfold SetAddressMappingScheme. rewrite (proj2 (Nat.leb_gt _ _)) by done. rewrite tokens_scheme.
  assert (H0 : given [] (MkFields 0 0 0 0 0 0, 6)) by (split; [done|by intros []]).
  pose proof (given_tokens ps [] _ H0 Hn) as H1. cbn [app] in H1.
  destruct (given_unset unset_order ps _ H1 Hn) as (rest & H2 & Hn2 & Hin).
  destruct (foldl take_unset _ _) as [o cur]. eexists. split; [done|]. do 2 (split; [done|]).
  assert (Ho : forall p i, index_of p (ps ++ rest) = Some i ->
    get p (order (SetOrder o m)) = 5 - Z.of_nat i).
  { intros p i Hi. destruct H2 as [_ Hg]. specialize (Hg p). rewrite Hi in Hg. cbn [fst] in Hg.
    destruct p; cbn in *; lia. }
  assert (Hl : length (ps ++ rest) = 6%nat).
  { apply Nat.le_antisymm; [by apply NoDup_partitions|]. change 6%nat with (length unset_order).
    apply submseteq_length, NoDup_submseteq; [by apply (bool_decide_eq_true_1 _)|done]. }
  split.
  - intros i Hi. destruct (lookup_lt_is_Some_2 (ps ++ rest) (5 - i)%nat) as [p Hp]; [lia|].
    exists p. rewrite (Ho p (5 - i)%nat) by (by apply lookup_index_of). lia.
  - intros i p Hp. apply Ho, lookup_index_of; [done|]. by apply lookup_app_l_Some.
Qed.

(** ** Witnesses *)

(** Two channels, eight banks and 1024 rows of 256 columns. *)
Definition demo_method : TranslationMethod :=
  MkMethod (MkFields 10 8 3 0 1 0) (MkFields 1024 256 8 1 2 1) (MkFields 5 1 3 4 2 0).
Definition demo : AddressTranslator := MkTranslator (Some demo_method) CHANNEL_FIELD 64 8.

Lemma demo_ok : translator_ok demo demo_method.
Proof.
  split; try reflexivity; try (vm_compute; congruence).
  - intros []; vm_compute; split; congruence || reflexivity.
  - intros i Hi. destruct i as [|[|[|[|[|[|i]]]]]]; [exists MEM_SUBARRAY|exists MEM_COL|exists MEM_CHANNEL|
      exists MEM_BANK|exists MEM_RANK|exists MEM_ROW|lia]; reflexivity.
Qed.

Lemma address_translation_round_trip_witness :
  exists f, Translate demo 0x2345678 (MkFields 7 7 7 7 7 7) = Ok f /\
    ReverseTranslate demo f = Ok (0x2345678 - 0x2345678 mod 2 ^ burst_bits demo).
Proof.
  destruct (proj2 (address_translation_round_trip demo demo_method (MkFields 7 7 7 7 7 7) demo_ok)
    0x2345678 ltac:(vm_compute; split; congruence || reflexivity)) as (f & E & _ & R).
  exists f. split; [exact E|exact R].
Defined.

Lemma scheme_orders_fields_witness :
  exists m', SetAddressMappingScheme "R:RK:BK:CH:C" demo_method = Ok m' /\ get MEM_ROW (order m') = 5.
Proof.
  destruct (scheme_orders_fields [MEM_ROW; MEM_RANK; MEM_BANK; MEM_CHANNEL; MEM_COL] demo_method)
    as (m' & E & _ & _ & _ & Ho); [by apply (bool_decide_eq_true_1 _)|].
  exists m'. split; [exact E|]. exact (Ho 0%nat MEM_ROW eq_refl).
Defined.
