(* ===== verification/Events.v ===== *)
(** The event queue of NVMain (nvmain-test/src/EventQueue.h, EventQueue.cpp):
    events by cycle, within a cycle by priority, and the two loops that run
    them.  Finding the hook of an [NVMObject] among the children of its parent
    is left out: recipients are hooks. *)
From S2P Require Import Prelude.
From Stdlib Require Import Sorted.
From stdpp Require Import gmap.

#[local] Open Scope Z_scope.

(** ** Data *)

Inductive EventType :=
| EventUnknown | EventCycle | EventIdle | EventRequest | EventResponse | EventCallback.
#[export] Instance EventType_eq_dec : EqDecision EventType.
Proof. solve_decision. Defined.

(** [ev_id] is the address of the event; recipients, requests, data and methods
    are addresses too. *)
Record Event := MkEvent {
  ev_id : nat;
  ev_type : EventType;
  ev_recipient : nat;
  ev_request : option nat;
  ev_data : option nat;
  ev_cycle : Z;
  ev_priority : Z;
  ev_method : option nat
}.
#[export] Instance Event_settable : Settable Event := fun e =>
  MkEvent (ev_id e) (ev_type e) (ev_recipient e) (ev_request e) (ev_data e) (ev_cycle e)
    (ev_priority e) (ev_method e).
#[export] Instance Event_eq_dec : EqDecision Event.
Proof. solve_decision. Defined.

Definition max_cycle : Z := 2 ^ 64 - 1.

Record EventQueue := MkEventQueue {
  nextEventCycle : Z;
  lastEventCycle : Z;
  currentCycle : Z;
  eventMap : gmap Z (list Event)
}.
#[export] Instance EventQueue_settable : Settable EventQueue := fun q =>
  MkEventQueue (nextEventCycle q) (lastEventCycle q) (currentCycle q) (eventMap q).

Definition EventQueue_new : EventQueue := MkEventQueue max_cycle 0 0 ∅.

(** [eventMap.begin()->first]. *)
Definition least_key {A} (m : gmap Z A) : option Z :=
  foldr (fun k r => Some (match r with Some j => Z.min k j | None => k end)) None
    ((map_to_list m).*1).
Definition first_cycle (m : gmap Z (list Event)) : Z := default max_cycle (least_key m).

(** ** Insertion and removal *)

(** Before the first event of a greater priority value. *)
Fixpoint insert_by (priority : Z) (e : Event) (l : list Event) : list Event :=
  match l with
  | [] => [e]
  | x :: l' => if priority <? ev_priority x then e :: l else x :: insert_by priority e l'
  end.

Definition InsertEvent (e : Event) (when priority : Z) (q : EventQueue) : EventQueue :=
  let e := e <| ev_cycle := when |> in
  let q := if when <? nextEventCycle q then q <| nextEventCycle := when |> else q in
  match eventMap q !! when with
  | None => q <| eventMap ::= insert when [e] |>
  | Some l => q <| eventMap ::= insert when (insert_by priority e l) |>
  end.

(** The other [InsertEvent] makes the event itself; its priority stays the 0 of
    the constructor. *)
Definition InsertNewEvent (id : nat) (type : EventType) (recipient : nat) (req : option nat)
    (when : Z) (data : option nat) (priority : Z) (q : EventQueue) : EventQueue :=
  InsertEvent (MkEvent id type recipient req data when 0 None) when priority q.

Definition InsertCallback (id : nat) (recipient method : nat) (when : Z) (data : option nat)
    (priority : Z) (q : EventQueue) : EventQueue :=
  InsertEvent (MkEvent id EventCallback recipient None data when priority (Some method))
    when priority q.

(** The list without the first event at that address. *)
Fixpoint remove_id (id : nat) (l : list Event) : option (list Event) :=
  match l with
  | [] => None
  | x :: l => if decide (ev_id x = id) then Some l else cons x <$> remove_id id l
  end.

Definition RemoveEvent (id : nat) (when : Z) (q : EventQueue) : bool * EventQueue :=
  match eventMap q !! when with
  | None => (false, q)
  | Some l =>
      let '(rv, m) := match remove_id id l with
                      | Some [] => (true, delete when (eventMap q))
                      | Some l' => (true, <[when := l']> (eventMap q))
                      | None => (false, eventMap q)
                      end in
      (rv, q <| eventMap := m |> <| nextEventCycle := first_cycle m |>)
  end.

(** [FindEvent] has no [break]: the last match wins. *)
Definition FindEvent (type : EventType) (recipient : nat) (req : option nat) (when : Z)
    (q : EventQueue) : option Event :=
  match eventMap q !! when with
  | None => None
  | Some l =>
      last (filter (fun e => ev_type e = type /\ ev_recipient e = recipient /\ ev_request e = req) l)
  end.
Definition FindCallback (recipient method : nat) (when : Z) (data : option nat) (priority : Z)
    (q : EventQueue) : option Event :=
  match eventMap q !! when with
  | None => None
  | Some l =>
      head (filter (fun e => ev_recipient e = recipient /\ ev_method e = Some method /\
                             ev_data e = data /\ ev_priority e = priority) l)
  end.

(** ** Running events *)

(** What a recipient may do to the queue it is called from. *)
Inductive Action :=
| Insert (e : Event) (when priority : Z)
| Remove (id : nat) (when : Z).
Definition act (q : EventQueue) (a : Action) : EventQueue :=
  match a with
  | Insert e when priority => InsertEvent e when priority q
  | Remove id when => (RemoveEvent id when q).2
  end.

Section run.
Context {W : Type}.
(** The recipients: [Cycle( steps )], [RequestComplete( request )] or the
    callback of an event, on the state [W] of all objects. *)
Context (call : Event -> Z -> W -> W * list Action).

Definition dispatch (e : Event) (steps : Z) (w : W) : W * list Action :=
  match ev_type e with
  | EventCycle | EventResponse | EventCallback => call e steps w
  | EventIdle | EventRequest | EventUnknown => (w, [])
  end.

(** The events after the one at address [id]: where the iterator goes. *)
Fixpoint after (id : nat) (l : list Event) : option (list Event) :=
  match l with
  | [] => None
  | x :: l => if decide (ev_id x = id) then Some l else after id l
  end.

(** The [for] over the list of cycle [now], which the calls may change; an
    iterator to an erased element is not valid. *)
Fixpoint process_from (fuel : nat) (now : Z) (e : Event) (q : EventQueue) (w : W)
    : outcome (EventQueue * W) :=
  match fuel with
  | O => Err Diverge
  | S fuel =>
      let '(w, acts) := dispatch e (u64 (nextEventCycle q - lastEventCycle q)) w in
      let q := foldl act q acts in
      match after (ev_id e) (default [] (eventMap q !! now)) with
      | None => Err OutOfBounds
      | Some [] => Ok (q, w)
      | Some (e' :: _) => process_from fuel now e' q w
      end
  end.

Definition Process (fuel : nat) (q : EventQueue) (w : W) : outcome (EventQueue * W) :=
  match eventMap q !! nextEventCycle q with
  | None => Err AssertFail
  | Some l =>
      '(q, w) ← (match l with
                 | [] => Ok (q, w)
                 | e :: _ => process_from fuel (nextEventCycle q) e q w
                 end);
      let q := q <| eventMap ::= delete (nextEventCycle q) |> in
      let q := q <| lastEventCycle := nextEventCycle q |> in
      Ok (q <| nextEventCycle := first_cycle (eventMap q) |>, w)
  end.

(** [Loop( )]: one cycle. *)
Definition Loop1 (fuel : nat) (q : EventQueue) (w : W) : outcome (EventQueue * W) :=
  '(q, w) ← (if nextEventCycle q =? currentCycle q then Process fuel q w else Ok (q, w));
  Ok (q <| currentCycle ::= fun c => u64 (c + 1) |>, w).

(** [Loop( steps )]. *)
Fixpoint loop_steps (fuel : nat) (stepCycles : Z) (q : EventQueue) (w : W)
    : outcome (EventQueue * W) :=
  match fuel with
  | O => Err Diverge
  | S fuel' =>
      if stepCycles <=? 0 then Ok (q, w)
      else if u64 (currentCycle q + stepCycles) <? nextEventCycle q
      then Ok (q <| currentCycle ::= fun c => u64 (c + stepCycles) |>, w)
      else
        let currentSteps := u64 (nextEventCycle q - currentCycle q) in
        let q := q <| currentCycle ::= fun c => u64 (c + currentSteps) |> in
        '(q, w) ← Process fuel q w;
        loop_steps fuel' (u64 (stepCycles - currentSteps)) q w
  end.
Definition Loop (fuel : nat) (steps : Z) (q : EventQueue) (w : W) : outcome (EventQueue * W) :=
  if (steps =? 0) && (nextEventCycle q =? currentCycle q) then Process fuel q w
  else loop_steps fuel steps q w.
End run.

(** ** Keys and lists *)

Lemma u64_small x : 0 <= x < 2 ^ 64 -> u64 x = x.
Proof. apply Z.mod_small. Qed.

Lemma least_key_spec {A} (m : gmap Z A) :
  match least_key m with
  | Some k => is_Some (m !! k) /\ forall j, is_Some (m !! j) -> k <= j
  | None => m = ∅
  end.
Proof.
  unfold least_key.
  assert (Hin : forall k, k ∈ (map_to_list m).*1 <-> is_Some (m !! k)).
  { intros k. rewrite list_elem_of_fmap. split.
    - intros ([k' a] & -> & Hk%elem_of_map_to_list). by exists a.
    - intros [a Ha]. exists (k, a). split; [done|]. by apply elem_of_map_to_list. }
  assert (Hl : forall l : list Z,
    match foldr (fun k r => Some (match r with Some j => Z.min k j | None => k end)) None l with
    | Some k => k ∈ l /\ forall j, j ∈ l -> k <= j
    | None => l = []
    end).
  { induction l as [|a l IH]; [done|]. cbn [foldr]. destruct (foldr _ None l) as [k|].
    - destruct IH as [Hk Hle]. split; [destruct (Z.min_spec a k) as [[_ ->]|[_ ->]]; set_solver|].
      intros j [->|Hj]%elem_of_cons; [lia|]. specialize (Hle j Hj). lia.
    - subst l. split; [set_solver|]. intros j ->%list_elem_of_singleton. lia. }
  specialize (Hl ((map_to_list m).*1)). destruct (foldr _ None _) as [k|].
  - destruct Hl as [Hk Hle]. split; [by apply Hin|]. intros j Hj. by apply Hle, Hin.
  - apply fmap_nil_inv in Hl. by apply map_to_list_empty_iff.
Qed.

Lemma first_cycle_le m k l : m !! k = Some l -> first_cycle m <= k.
Proof.
  intros Hk. unfold first_cycle. pose proof (least_key_spec m) as H. destruct (least_key m) as [j|]; simpl.
  - apply H. by exists l.
  - by rewrite H, lookup_empty in Hk.
Qed.

Lemma first_cycle_unique m k :
  is_Some (m !! k) -> (forall j, is_Some (m !! j) -> k <= j) -> first_cycle m = k.
Proof.
  intros Hk Hle. unfold first_cycle. pose proof (least_key_spec m) as H.
  destruct (least_key m) as [j|]; simpl.
  - destruct H as [Hj Hl]. apply Z.le_antisymm; auto.
  - rewrite H, lookup_empty in Hk. by destruct Hk.
Qed.

(** All the events of the queue. *)
Definition pending (q : EventQueue) : list Event := mjoin ((map_to_list (eventMap q)).*2).
Definition pending_map (m : gmap Z (list Event)) : list Event := mjoin ((map_to_list m).*2).

Lemma pending_fresh m k l : m !! k = None -> pending_map (<[k := l]> m) ≡ₚ l ++ pending_map m.
Proof. intros Hk. unfold pending_map. by rewrite map_to_list_insert. Qed.

Lemma pending_split m k l : m !! k = Some l -> pending_map m ≡ₚ l ++ pending_map (delete k m).
Proof.
  intros Hk. rewrite <- (insert_delete_id m k l) at 1 by done.
  apply pending_fresh, lookup_delete_eq.
Qed.

Lemma pending_update m k l l' :
  m !! k = Some l -> pending_map (<[k := l']> m) ≡ₚ l' ++ pending_map (delete k m).
Proof. intros Hk. rewrite <- insert_delete_eq. apply pending_fresh, lookup_delete_eq. Qed.

Lemma insert_by_perm p e l : insert_by p e l ≡ₚ e :: l.
Proof.
  induction l as [|x l IH]; [done|]. cbn. case_match; [done|]. rewrite IH. apply Permutation_swap.
Qed.

Lemma elem_of_pending m e : e ∈ pending_map m <-> exists k l, m !! k = Some l /\ e ∈ l.
Proof.
  unfold pending_map. rewrite list_elem_of_join. split.
  - intros (l & He & ([k l'] & -> & Hk%elem_of_map_to_list)%list_elem_of_fmap). eauto.
  - intros (k & l & Hk & He). exists l. split; [done|]. apply list_elem_of_fmap. exists (k, l).
    split; [done|]. by apply elem_of_map_to_list.
Qed.

(** ** The invariant *)

Record queue_ok (q : EventQueue) : Prop := {
  eq_next : nextEventCycle q = first_cycle (eventMap q);
  eq_lists k l : eventMap q !! k = Some l ->
    l <> [] /\ currentCycle q <= k < max_cycle /\ forall e, e ∈ l -> ev_cycle e = k;
  eq_now : 0 <= currentCycle q < max_cycle
}.

Lemma InsertEvent_map e when p q :
  eventMap (InsertEvent e when p q) =
    <[when := insert_by p (e <| ev_cycle := when |>) (default [] (eventMap q !! when))]> (eventMap q).
Proof.
  unfold InsertEvent. cbv zeta.
  destruct (when <? nextEventCycle q); cbn; by destruct (eventMap q !! when).
Qed.

Lemma InsertEvent_next e when p q :
  nextEventCycle (InsertEvent e when p q) = Z.min (nextEventCycle q) when /\
  currentCycle (InsertEvent e when p q) = currentCycle q /\
  lastEventCycle (InsertEvent e when p q) = lastEventCycle q.
Proof.
  unfold InsertEvent. cbv zeta. destruct (Z.ltb_spec when (nextEventCycle q)); cbn;
    destruct (eventMap q !! when); cbn; split_and!; (done || lia).
Qed.

Lemma InsertEvent_pending e when p q :
  pending (InsertEvent e when p q) ≡ₚ e <| ev_cycle := when |> :: pending q.
Proof.
  change (pending (InsertEvent e when p q)) with (pending_map (eventMap (InsertEvent e when p q))).
  rewrite InsertEvent_map. change (pending q) with (pending_map (eventMap q)).
  destruct (eventMap q !! when) as [l|] eqn:E; cbn [default].
  - rewrite (pending_update _ _ l), (pending_split (eventMap q) when l) by done.
    by rewrite insert_by_perm.
  - by rewrite pending_fresh.
Qed.

Lemma InsertEvent_ok e when p q :
  queue_ok q -> currentCycle q <= when < max_cycle -> queue_ok (InsertEvent e when p q).
Proof.
  intros [Hn Hl Hc] Hw. destruct (InsertEvent_next e when p q) as (En & Ec & _).
  split; rewrite ?Ec; [|intros k l; rewrite InsertEvent_map; destruct (decide (k = when)) as [->|Hne]|done].
  - rewrite En, InsertEvent_map, Hn. symmetry. apply first_cycle_unique.
    + destruct (Z.min_spec (first_cycle (eventMap q)) when) as [[Hlt ->]|[_ ->]]; [|by rewrite lookup_insert_eq].
      rewrite lookup_insert_ne by lia. pose proof (least_key_spec (eventMap q)) as H.
      unfold first_cycle in *. destruct (least_key (eventMap q)); [apply H|simpl in *; lia].
    + intros j [l Hj]. destruct (decide (j = when)) as [->|]; [lia|].
      rewrite lookup_insert_ne in Hj by done. apply first_cycle_le in Hj. lia.
  - rewrite lookup_insert_eq. intros [= <-]. split.
    + intros E. apply (f_equal length) in E. rewrite insert_by_perm in E. done.
    + split; [lia|]. intros x. rewrite insert_by_perm. intros [->|Hx]%elem_of_cons; [done|].
      destruct (eventMap q !! when) as [l|] eqn:E; [by apply (Hl when l)|by apply not_elem_of_nil in Hx].
  - rewrite lookup_insert_ne by done. apply Hl.
Qed.

(** ** Runs of well-behaved recipients *)

(** The types [Process] acts on; the others are marked TODO there. *)
Definition runnable (e : Event) : Prop :=
  ev_type e = EventCycle \/ ev_type e = EventResponse \/ ev_type e = EventCallback.

Definition inserted (acts : list Action) : list Event :=
  omap (fun a => match a with Insert e when _ => Some (e <| ev_cycle := when |>) | Remove _ _ => None end) acts.

Section runs.
Context {W : Type} (call : Event -> Z -> W -> W * list Action).
(** An address no event of the past has. *)
Context (next_id : W -> nat).

(** Recipients insert new events, for later cycles. *)
Record well_behaved : Prop := {
  wb_later e s w a : runnable e -> a ∈ (call e s w).2 ->
    exists x when p, a = Insert x when p /\ ev_cycle e < when < max_cycle /\ runnable x;
  wb_ids e s w : runnable e ->
    (next_id w <= next_id (call e s w).1)%nat /\ NoDup (ev_id <$> inserted (call e s w).2) /\
    forall x, x ∈ inserted (call e s w).2 -> (next_id w <= ev_id x < next_id (call e s w).1)%nat
}.
Context (Hwb : well_behaved).

(** The state with a log: the events run, in order, and the events inserted. *)
Definition traced (e : Event) (s : Z) (st : W * list Event * list Event)
    : (W * list Event * list Event) * list Action :=
  let '(w, tr, ins) := st in
  (((call e s w).1, tr ++ [e], ins ++ inserted (call e s w).2), (call e s w).2).

Record ids_ok (q : EventQueue) (w : W) : Prop := {
  io_nodup : NoDup (ev_id <$> pending q);
  io_event e : e ∈ pending q -> (ev_id e < next_id w)%nat /\ runnable e
}.

Lemma acts_ok now l acts : forall q,
  queue_ok q -> nextEventCycle q = now -> eventMap q !! now = Some l ->
  (forall a, a ∈ acts -> exists x when p, a = Insert x when p /\ now < when < max_cycle /\ runnable x) ->
  let q' := foldl act q acts in
  queue_ok q' /\ nextEventCycle q' = now /\ eventMap q' !! now = Some l /\
  currentCycle q' = currentCycle q /\ pending q' ≡ₚ inserted acts ++ pending q.
Proof.
  induction acts as [|a acts IH]; intros q Hq Hn Hl Ha; [by split_and!|].
  destruct (Ha a ltac:(set_solver)) as (x & when & p & -> & Hw & _). cbn [foldl act].
  destruct (eq_lists _ Hq now l Hl) as (_ & Hc & _).
  destruct (InsertEvent_next x when p q) as (En & Ec & _).
  destruct (IH (InsertEvent x when p q)) as (Hq' & Hn' & Hl' & Hc' & Hp').
  - apply InsertEvent_ok; [done|lia].
  - rewrite En, Hn. lia.
  - rewrite InsertEvent_map, lookup_insert_ne by lia. done.
  - intros b Hb. apply Ha. set_solver.
  - split; [done|]. split; [done|]. split; [done|]. split; [congruence|].
    rewrite Hp', InsertEvent_pending. symmetry. apply Permutation_middle.
Qed.

Lemma after_split p e s :
  NoDup (ev_id <$> p ++ e :: s) -> after (ev_id e) (p ++ e :: s) = Some s.
Proof.
  induction p as [|x p IH]; cbn [app after]; intros Hn; [by rewrite decide_True|].
  rewrite fmap_cons in Hn. apply NoDup_cons in Hn as [Hx Hn]. rewrite decide_False; [by apply IH|].
  intros E. apply Hx. rewrite E. apply list_elem_of_fmap_2. set_solver.
Qed.

Lemma dispatch_traced e s st : runnable e -> dispatch traced e s st = traced e s st.
Proof. intros H. unfold dispatch. by destruct H as [-> |[-> | ->]]. Qed.

Lemma ids_list q w k l :
  ids_ok q w -> eventMap q !! k = Some l -> NoDup (ev_id <$> l) /\ forall e, e ∈ l -> runnable e.
Proof.
  intros [Hn He] Hl. pose proof (pending_split _ _ _ Hl) as Hp.
  change (pending_map (eventMap q)) with (pending q) in Hp. split.
  - rewrite Hp, fmap_app in Hn. by apply NoDup_app in Hn as [? _].
  - intros e Hin. apply He. rewrite Hp. set_solver.
Qed.

Lemma ids_step q q' w e s :
  ids_ok q w -> runnable e -> pending q' ≡ₚ inserted (call e s w).2 ++ pending q ->
  (forall x, x ∈ inserted (call e s w).2 -> runnable x) -> ids_ok q' (call e s w).1.
Proof.
  intros [Hn He] Hr Hp Hx. destruct (wb_ids Hwb e s w Hr) as (Hle & Hnd & Hfresh). split.
  - rewrite Hp, fmap_app. apply NoDup_app. split; [done|]. split; [|done].
    intros i (x & -> & Hxi)%list_elem_of_fmap (y & Ey & Hy)%list_elem_of_fmap.
    apply Hfresh in Hxi. apply He in Hy as [Hy _]. lia.
  - intros x. rewrite Hp, elem_of_app. intros [Hxi|Hxp].
    + split; [by apply Hfresh|by apply Hx].
    + destruct (He x Hxp). split; [lia|done].
Qed.

(** Events inserted for cycle [now] or before none, the list of [now] stays. *)
Lemma process_from_ok now s : forall p e q w tr ins,
  queue_ok q -> ids_ok q w -> nextEventCycle q = now -> eventMap q !! now = Some (p ++ e :: s) ->
  exists q' w' ins',
    (forall fuel, (length s < fuel)%nat ->
      process_from traced fuel now e q (w, tr, ins) = Ok (q', (w', tr ++ e :: s, ins ++ ins'))) /\
    queue_ok q' /\ ids_ok q' w' /\ nextEventCycle q' = now /\
    eventMap q' !! now = Some (p ++ e :: s) /\ currentCycle q' = currentCycle q /\
    pending q' ≡ₚ ins' ++ pending q.
Proof.
  induction s as [|e2 s IH]; intros p e q w tr ins Hq Hi Hn Hl;
    destruct (ids_list _ _ _ _ Hi Hl) as [Hnd Hrun]; pose proof (Hrun e ltac:(set_solver)) as Hr;
    pose (st := u64 (nextEventCycle q - lastEventCycle q));
    assert (Hev : ev_cycle e = now) by (apply (eq_lists _ Hq now _ Hl); set_solver);
    destruct (acts_ok now _ (call e st w).2 q Hq Hn Hl) as (Hq1 & Hn1 & Hl1 & Hc1 & Hp1);
    [intros a Ha; rewrite <- Hev; by apply (wb_later Hwb e st w)| |
     intros a Ha; rewrite <- Hev; by apply (wb_later Hwb e st w)|];
    assert (Hi1 : ids_ok (foldl act q (call e st w).2) (call e st w).1)
      by (eapply ids_step; [done..|]; intros x (a & Ha & Hxa)%list_elem_of_omap;
          destruct (wb_later Hwb e st w a Hr Ha) as (y & when & pr & -> & _ & Hy); by simplify_eq).
  - eexists _, _, _. split.
    + intros [|fuel] Hf; [simpl in Hf; lia|]. cbn [process_from]. fold st.
      rewrite (dispatch_traced _ _ _ Hr). cbn [traced]. rewrite Hl1. cbn [default from_option id].
      rewrite (after_split p e _ Hnd). done.
    + by split_and!.
  - destruct (IH (p ++ [e]) e2 (foldl act q (call e st w).2) (call e st w).1 (tr ++ [e])
      (ins ++ inserted (call e st w).2)) as (q' & w' & ins' & E & Hq' & Hi' & Hn' & Hl' & Hc' & Hp');
      [done..|by rewrite <- app_assoc|].
    exists q', w', (inserted (call e st w).2 ++ ins'). split.
    + intros [|fuel] Hf; [simpl in Hf; lia|]. cbn [process_from]. fold st.
      rewrite (dispatch_traced _ _ _ Hr). cbn [traced]. rewrite Hl1. cbn [default from_option id].
      rewrite (after_split p e _ Hnd). rewrite E by (simpl in Hf; lia). by rewrite <- !app_assoc.
    + split_and!; try done; [by rewrite Hl', <- app_assoc|congruence|].
      rewrite Hp', Hp1. by rewrite !app_assoc, (Permutation_app_comm ins').
Qed.

(** The events of one cycle run; those of later cycles wait. *)
Lemma Process_ok q w tr ins l :
  queue_ok q -> ids_ok q w -> eventMap q !! nextEventCycle q = Some l ->
  exists q' w' ins',
    (forall fuel, (length l <= fuel)%nat ->
      Process traced fuel q (w, tr, ins) = Ok (q', (w', tr ++ l, ins ++ ins'))) /\
    queue_ok q' /\ ids_ok q' w' /\ currentCycle q' = currentCycle q /\
    nextEventCycle q < nextEventCycle q' /\ l ++ pending q' ≡ₚ pending q ++ ins'.
Proof.
  intros Hq Hi Hl. destruct l as [|e s]; [by destruct (eq_lists _ Hq _ _ Hl)|].
  destruct (process_from_ok _ s [] e q w tr ins Hq Hi eq_refl Hl)
    as (q1 & w1 & ins' & E & Hq1 & Hi1 & Hn1 & Hl1 & Hc1 & Hp1).
  pose proof (pending_split _ _ (e :: s) Hl1 : pending q1 ≡ₚ _) as Hps.
  assert (Hsub : forall k l, delete (nextEventCycle q) (eventMap q1) !! k = Some l ->
    k <> nextEventCycle q /\ eventMap q1 !! k = Some l).
  { intros k l [? ?]%lookup_delete_Some. by split. }
  exists (MkEventQueue (first_cycle (delete (nextEventCycle q) (eventMap q1))) (nextEventCycle q)
    (currentCycle q1) (delete (nextEventCycle q) (eventMap q1))), w1, ins'.
  split_and!; [| | |done| |].
  - intros fuel Hf. unfold Process. rewrite Hl. rewrite E by (simpl in Hf; lia). cbn [mbind outcome_bind].
    cbn. by rewrite Hn1.
  - destruct Hq1 as [Hn Hls Hc]. split; cbn; [done| |done]. intros k l [_ Hk]%Hsub. by apply Hls.
  - destruct Hi1 as [Hn He].
    assert (Hin : pending_map (delete (nextEventCycle q) (eventMap q1)) ⊆+ pending q1)
      by (rewrite Hps; by apply (submseteq_inserts_l (e :: s))).
    split; [|intros x Hx; apply He; by eapply elem_of_submseteq].
    cbn. rewrite Hps, fmap_app in Hn. by apply NoDup_app in Hn as (_ & _ & ?).
  - cbn. unfold first_cycle. pose proof (least_key_spec (delete (nextEventCycle q) (eventMap q1))) as H.
    destruct (least_key _) as [k|]; cbn [default from_option id].
    + destruct H as [[l' Hl'] _]. apply Hsub in Hl' as [Hne Hk]. apply first_cycle_le in Hk as Hk'.
      rewrite <- (eq_next _ Hq1) in Hk'. rewrite Hn1 in Hk'. lia.
    + destruct (eq_lists _ Hq _ _ Hl) as (_ & ? & _). lia.
  - change (pending (MkEventQueue _ _ _ (delete (nextEventCycle q) (eventMap q1))))
      with (pending_map (delete (nextEventCycle q) (eventMap q1))).
    rewrite <- (Permutation_app_comm ins'), <- Hp1, Hps. done.
Qed.

Lemma next_above q k : queue_ok q -> k < nextEventCycle q ->
  forall e, e ∈ pending q -> k < ev_cycle e.
Proof.
  intros Hq Hk e (j & l & Hj & He)%elem_of_pending. destruct (eq_lists _ Hq _ _ Hj) as (_ & _ & Hc).
  rewrite (Hc e He). apply first_cycle_le in Hj. rewrite (eq_next _ Hq) in Hk. lia.
Qed.

Lemma next_cases q : queue_ok q ->
  currentCycle q <= nextEventCycle q <= max_cycle /\
  (nextEventCycle q < max_cycle -> exists l, eventMap q !! nextEventCycle q = Some l).
Proof.
  intros Hq. rewrite (eq_next _ Hq). unfold first_cycle.
  pose proof (least_key_spec (eventMap q)) as H. destruct (least_key (eventMap q)) as [k|]; simpl.
  - destruct H as [[l Hl] _]. destruct (eq_lists _ Hq _ _ Hl) as (_ & Hk & _). split; [lia|eauto].
  - destruct (eq_now _ Hq). split; lia.
Qed.

(** Time moves, no event before [k] waits. *)
Lemma advance_ok q w k :
  queue_ok q -> ids_ok q w -> currentCycle q <= k <= nextEventCycle q -> k < max_cycle ->
  queue_ok (q <| currentCycle := k |>) /\ ids_ok (q <| currentCycle := k |>) w.
Proof.
  intros [Hn Hl Hc] [? ?] Hk Hm. split; [split; cbn; [done| |lia]|by split].
  intros j l Hj. destruct (Hl j l Hj) as (? & ? & ?). apply first_cycle_le in Hj.
  split; [done|]. split; [lia|done].
Qed.

Lemma sorted_app l t k :
  (forall e, e ∈ l -> ev_cycle e = k) -> (forall e, e ∈ t -> k <= ev_cycle e) ->
  StronglySorted (fun a b => ev_cycle a <= ev_cycle b) t ->
  StronglySorted (fun a b => ev_cycle a <= ev_cycle b) (l ++ t).
Proof.
  intros Hl Ht Hs. induction l as [|e l IH]; [done|]. cbn [app].
  constructor; [apply IH; set_solver|]. apply Forall_forall. intros x Hx.
  rewrite (Hl e) by set_solver.
  apply elem_of_app in Hx as [Hx|Hx]; [rewrite (Hl x) by set_solver; lia|by apply Ht].
Qed.

(** What a run of [steps] cycles from [q] to [q'] is: [tr] ran, [ins] came in. *)
Definition ran (steps : Z) (q : EventQueue) (q' : EventQueue) (w' : W) (tr ins : list Event) : Prop :=
  queue_ok q' /\ ids_ok q' w' /\ currentCycle q' = currentCycle q + steps /\
  tr ++ pending q' ≡ₚ pending q ++ ins /\
  StronglySorted (fun a b => ev_cycle a <= ev_cycle b) tr /\
  (forall e, e ∈ tr -> currentCycle q <= ev_cycle e <= currentCycle q') /\
  (forall e, e ∈ pending q' -> currentCycle q' < ev_cycle e).

Lemma process_ran q w tr ins l :
  queue_ok q -> ids_ok q w -> nextEventCycle q = currentCycle q ->
  eventMap q !! nextEventCycle q = Some l ->
  exists q' w' ins', ran 0 q q' w' l ins' /\ currentCycle q' < nextEventCycle q' /\
    forall fuel, (length l <= fuel)%nat ->
      Process traced fuel q (w, tr, ins) = Ok (q', (w', tr ++ l, ins ++ ins')).
Proof.
  intros Hq Hi Hn Hl.
  destruct (Process_ok q w tr ins l Hq Hi Hl) as (q' & w' & ins' & E & Hq' & Hi' & Hc & Hlt & Hp).
  destruct (eq_lists _ Hq _ _ Hl) as (_ & _ & Hcy).
  exists q', w', ins'. split; [|split; [lia|done]]. split_and!; try done; [lia| | |].
  - rewrite <- (app_nil_r l). apply (sorted_app _ _ (nextEventCycle q)); [done|set_solver|constructor].
  - intros e He. rewrite (Hcy e He). lia.
  - intros e He. apply (next_above q'); [done|lia|done].
Qed.

Lemma ran_then s1 s2 q q1 w1 q2 w2 tr1 tr2 ins1 ins2 :
  0 <= s2 -> ran s1 q q1 w1 tr1 ins1 -> ran s2 q1 q2 w2 tr2 ins2 ->
  (forall e, e ∈ tr1 -> ev_cycle e = currentCycle q1) -> 0 <= s1 ->
  ran (s1 + s2) q q2 w2 (tr1 ++ tr2) (ins1 ++ ins2).
Proof.
  intros H2 (Hq1 & Hi1 & Hc1 & Hp1 & Hs1 & Hb1 & Ha1) (Hq2 & Hi2 & Hc2 & Hp2 & Hs2 & Hb2 & Ha2) Hk H1.
  split_and!; try done; [lia| | |].
  - rewrite <- app_assoc, Hp2, !app_assoc, Hp1. done.
  - apply (sorted_app _ _ (currentCycle q1)); [done| |done]. intros e He. by apply Hb2.
  - intros e [He|He]%elem_of_app; [specialize (Hb1 e He)|specialize (Hb2 e He)]; lia.
Qed.

Lemma ran_from k s q q' w tr ins :
  currentCycle q <= k -> ran s (q <| currentCycle := k |>) q' w tr ins ->
  ran (k - currentCycle q + s) q q' w tr ins.
Proof.
  intros Hk (? & ? & Hc & ? & ? & Hb & ?). cbn in Hc. split_and!; try done; [lia|].
  intros e He. specialize (Hb e He). cbn in Hb. lia.
Qed.

Lemma idle_ran s q w :
  queue_ok q -> ids_ok q w -> 0 <= s -> currentCycle q + s < nextEventCycle q ->
  currentCycle q + s < max_cycle ->
  ran s q (q <| currentCycle := currentCycle q + s |>) w [] [].
Proof.
  intros Hq Hi Hs Hn Hm. destruct (advance_ok q w (currentCycle q + s)) as [Hq' Hi']; [done..|lia|done|].
  split_and!; [done|done|done|by rewrite app_nil_r|constructor|set_solver|].
  apply next_above; [done|cbn; lia].
Qed.

Lemma loop_steps_ok (n : nat) : forall steps q w tr ins,
  0 <= steps -> 2 * steps + (if nextEventCycle q =? currentCycle q then 1 else 0) < Z.of_nat n ->
  queue_ok q -> ids_ok q w -> currentCycle q + steps < max_cycle ->
  0 < steps \/ currentCycle q < nextEventCycle q ->
  exists N q' w' tr' ins', ran steps q q' w' tr' ins' /\
    forall fuel, (N <= fuel)%nat ->
      loop_steps traced fuel steps q (w, tr, ins) = Ok (q', (w', tr ++ tr', ins ++ ins')).
Proof.
  induction n as [|n IH]; intros steps q w tr ins Hs Hn Hq Hi Hm Hp.
  { destruct (_ =? _) in Hn; lia. }
  destruct (next_cases q Hq) as [Hle Hlk]. destruct (eq_now _ Hq) as [Hc0 _].
  assert (Hmax : max_cycle < 2 ^ 64) by done.
  destruct (Z.eq_dec steps 0) as [->|Hs0]; [|destruct (Z.lt_ge_cases (currentCycle q + steps) (nextEventCycle q)) as [Hlt|Hge]].
  - exists 1%nat, q, w, [], []. split.
    + replace q with (q <| currentCycle := currentCycle q + 0 |>) at 2; [apply idle_ran; (done || lia)|].
      destruct q. cbn. f_equal. lia.
    + intros [|fuel] Hf; [lia|]. by rewrite !app_nil_r.
  - exists 1%nat, (q <| currentCycle := currentCycle q + steps |>), w, [], [].
    split; [by apply idle_ran|]. intros [|fuel] Hf; [lia|]. cbn [loop_steps].
    rewrite (u64_small (currentCycle q + steps)) by lia.
    rewrite (proj2 (Z.leb_gt _ _)) by lia. rewrite (proj2 (Z.ltb_lt _ _)) by lia.
    rewrite !app_nil_r. cbn. by rewrite u64_small by lia.
  - destruct (advance_ok q w (nextEventCycle q) Hq Hi) as [Hq1 Hi1]; [lia..|].
    destruct Hlk as [l Hl]; [lia|].
    destruct (process_ran (q <| currentCycle := nextEventCycle q |>) w tr ins l Hq1 Hi1 eq_refl Hl)
      as (q2 & w2 & ins2 & Hr2 & Hlt2 & E2).
    assert (Hc2 : currentCycle q2 = nextEventCycle q)
      by (destruct Hr2 as (_ & _ & Hc2 & _); cbn in Hc2; lia).
    pose proof (ran_from _ _ _ _ _ _ _ (proj1 Hle) Hr2) as Hr1.
    destruct (IH (steps - (nextEventCycle q - currentCycle q)) q2 w2 (tr ++ l) (ins ++ ins2))
      as (N & q3 & w3 & tr3 & ins3 & Hr3 & E3); [lia| |apply Hr2|apply Hr2|lia|lia|].
    { rewrite (proj2 (Z.eqb_neq (nextEventCycle q2) _)) by lia.
      destruct (Z.eqb_spec (nextEventCycle q) (currentCycle q)); lia. }
    exists (S (N `max` length l)), q3, w3, (l ++ tr3), (ins2 ++ ins3). split.
    + replace steps with ((nextEventCycle q - currentCycle q + 0) + (steps - (nextEventCycle q - currentCycle q))) by lia.
      apply (ran_then _ _ _ q2 w2); [lia|done|done| |lia].
      intros e He. rewrite Hc2. by apply (eq_lists _ Hq _ _ Hl).
    + intros [|fuel] Hf; [lia|]. cbn [loop_steps].
      rewrite (u64_small (currentCycle q + steps)) by lia.
      rewrite (proj2 (Z.leb_gt _ _)) by lia. rewrite (proj2 (Z.ltb_ge _ _)) by lia.
      rewrite (u64_small (nextEventCycle q - currentCycle q)) by lia.
      change (q <| currentCycle ::= _ |>)
        with (q <| currentCycle := u64 (currentCycle q + (nextEventCycle q - currentCycle q)) |>).
      replace (currentCycle q + (nextEventCycle q - currentCycle q)) with (nextEventCycle q) by lia.
      rewrite (u64_small (nextEventCycle q)) by lia. rewrite E2 by lia. cbn [mbind outcome_bind].
      rewrite u64_small by lia. rewrite E3 by lia. by rewrite <- !app_assoc.
Qed.
End runs.

(** ** The log changes nothing *)

Section log.
Context {W : Type} (call : Event -> Z -> W -> W * list Action).

Definition forget (r : EventQueue * (W * list Event * list Event)) : EventQueue * W := (r.1, r.2.1.1).

Lemma dispatch_forget e s w tr ins : exists tr' ins',
  dispatch (traced call) e s (w, tr, ins) =
    (((dispatch call e s w).1, tr', ins'), (dispatch call e s w).2).
Proof. unfold dispatch. destruct (ev_type e); cbn; eauto. Qed.

Lemma process_from_forget fuel now : forall e q w tr ins,
  forget <$> process_from (traced call) fuel now e q (w, tr, ins) = process_from call fuel now e q w.
Proof.
  induction fuel as [|fuel IH]; intros e q w tr ins; [done|]. cbn [process_from].
  destruct (dispatch_forget e (u64 (nextEventCycle q - lastEventCycle q)) w tr ins) as (tr' & ins' & ->).
  destruct (dispatch call e _ w) as [w' acts]. cbn [fst snd].
  destruct (after _ _) as [[|e' l]|]; [done|apply IH|done].
Qed.

Lemma Process_forget fuel q w tr ins :
  forget <$> Process (traced call) fuel q (w, tr, ins) = Process call fuel q w.
Proof.
  unfold Process. destruct (eventMap q !! nextEventCycle q) as [[|e l]|]; [done| |done].
  rewrite <- (process_from_forget fuel (nextEventCycle q) e q w tr ins).
  by destruct (process_from (traced call) _ _ _ _ _) as [[q' [[w' ?] ?]]|].
Qed.

Lemma loop_steps_forget fuel : forall s q w tr ins,
  forget <$> loop_steps (traced call) fuel s q (w, tr, ins) = loop_steps call fuel s q w.
Proof.
  induction fuel as [|fuel IH]; intros s q w tr ins; [done|]. cbn [loop_steps].
  destruct (s <=? 0); [done|]. destruct (_ <? nextEventCycle q); [done|]. cbv zeta.
  match goal with |- context [Process call (S fuel) ?q1 w] =>
    rewrite <- (Process_forget (S fuel) q1 w tr ins) end.
  destruct (Process (traced call) _ _ _) as [[q' [[w' ?] ?]]|]; [apply IH|done].
Qed.

Lemma Loop_forget fuel s q w tr ins :
  forget <$> Loop (traced call) fuel s q (w, tr, ins) = Loop call fuel s q w.
Proof.
  unfold Loop. destruct (_ && _); [apply Process_forget|apply loop_steps_forget].
Qed.
End log.

(** ** What runs *)


(** ** Priorities *)

Definition by_priority : list Event -> Prop := StronglySorted (fun a b => ev_priority a <= ev_priority b).

Lemma filter_of_all {A} (P : A -> Prop) `{!forall x, Decision (P x)} (l : list A) :
  (forall x, x ∈ l -> P x) -> filter P l = l.
Proof.
  induction l as [|x l IH]; intros Hp; [done|]. rewrite filter_cons_True by (apply Hp; set_solver).
  f_equal. apply IH. set_solver.
Qed.
Lemma filter_of_none {A} (P : A -> Prop) `{!forall x, Decision (P x)} (l : list A) :
  (forall x, x ∈ l -> ~ P x) -> filter P l = [].
Proof.
  induction l as [|x l IH]; intros Hp; [done|]. rewrite filter_cons_False by (apply Hp; set_solver).
  apply IH. set_solver.
Qed.

Lemma insert_by_sorted e l : by_priority l ->
  insert_by (ev_priority e) e l =
    filter (fun x => ev_priority x <= ev_priority e) l ++ e :: filter (fun x => ev_priority e < ev_priority x) l /\
  by_priority (insert_by (ev_priority e) e l).
Proof.
  induction l as [|x l IH]; intros Hs; [by repeat constructor|].
  apply StronglySorted_inv in Hs as [Hs Hx]. cbn [insert_by]. rewrite Forall_forall in Hx.
  destruct (Z.ltb_spec (ev_priority e) (ev_priority x)) as [Hlt|Hge].
  - rewrite filter_cons_False, filter_cons_True by lia. split.
    + rewrite filter_of_none, filter_of_all; [done|intros y Hy; specialize (Hx y Hy); lia..].
    + constructor; [constructor; [done|by apply Forall_forall]|]. apply Forall_forall.
      intros y [->|Hy]%elem_of_cons; [lia|]. specialize (Hx y Hy). lia.
  - rewrite filter_cons_True, filter_cons_False by lia. destruct (IH Hs) as [E1 E2].
    split; [by rewrite E1|]. constructor; [done|]. apply Forall_forall. intros y.
    rewrite insert_by_perm. intros [->|Hy]%elem_of_cons; [lia|by apply Hx].
Qed.

Lemma remove_insert_by p e l :
  (forall x, x ∈ l -> ev_id x <> ev_id e) -> remove_id (ev_id e) (insert_by p e l) = Some l.
Proof.
  induction l as [|x l IH]; intros Hx; cbn [insert_by remove_id]; [by rewrite decide_True|].
  destruct (p <? ev_priority x); cbn [remove_id]; [by rewrite decide_True|].
  rewrite decide_False by (apply Hx; set_solver). by rewrite IH by set_solver.
Qed.

Lemma filter_insert_by (P : Event -> Prop) `{!forall x, Decision (P x)} p e l :
  P e -> head (filter P l) = None -> filter P (insert_by p e l) = [e].
Proof.
  intros He Hn. apply Permutation_singleton_r. rewrite insert_by_perm, filter_cons_True by done.
  by destruct (filter P l).
Qed.

Lemma RemoveEvent_insert e when p q :
  queue_ok q -> (forall x, x ∈ pending q -> ev_id x <> ev_id e) ->
  RemoveEvent (ev_id e) when (InsertEvent e when p q) = (true, q).
Proof.
  intros Hq Hid. unfold RemoveEvent. rewrite InsertEvent_map, lookup_insert_eq.
  change (ev_id e) with (ev_id (e <| ev_cycle := when |>)).
  rewrite remove_insert_by.
  2: { intros x Hx. apply Hid. destruct (eventMap q !! when) as [l0|] eqn:E;
         [|by apply not_elem_of_nil in Hx]. apply elem_of_pending. eauto. }
  destruct (InsertEvent_next e when p q) as (_ & Ec & El).
  assert (Hm : forall m, m = eventMap q ->
    (true, (InsertEvent e when p q) <| eventMap := m |> <| nextEventCycle := first_cycle m |>) = (true, q)).
  { intros m ->. f_equal.
    transitivity (MkEventQueue (first_cycle (eventMap q)) (lastEventCycle (InsertEvent e when p q))
      (currentCycle (InsertEvent e when p q)) (eventMap q)); [done|].
    rewrite Ec, El, <- (eq_next _ Hq).
    by destruct q. }
  destruct (eventMap q !! when) as [[|x l]|] eqn:E; cbn [default from_option id]; apply Hm.
  - by destruct (eq_lists _ Hq _ _ E).
  - by rewrite insert_insert_eq, insert_id.
  - by rewrite delete_insert_id.
Qed.

Lemma InsertCallback_eq id r m when d p q :
  InsertCallback id r m when d p q =
    InsertEvent (MkEvent id EventCallback r None d when p (Some m)) when p q.
Proof. done. Qed.

(** A callback is placed after those of its cycle with a priority value no
    greater, the earlier ones first, and before the others; the lists stay in
    the order of priorities; the callback is found by what it was inserted
    with, and removing it brings the queue back. *)
Theorem callback_in_order (q : EventQueue) (id r m : nat) (when : Z) (d : option nat) (p : Z) :
  queue_ok q -> 0 <= when < max_cycle ->
  (forall k l, eventMap q !! k = Some l -> by_priority l) ->
  (forall x, x ∈ pending q -> ev_id x <> id) ->
  let e := MkEvent id EventCallback r None d when p (Some m) in
  let l := default [] (eventMap q !! when) in
  let q' := InsertCallback id r m when d p q in
  eventMap q' = <[when := filter (fun x => ev_priority x <= p) l ++ e ::
                          filter (fun x => p < ev_priority x) l]> (eventMap q) /\
  (forall k l, eventMap q' !! k = Some l -> by_priority l) /\
  (FindCallback r m when d p q = None -> FindCallback r m when d p q' = Some e) /\
  RemoveEvent id when q' = (true, q).
Proof.
  intros Hq Hw Hs Hid e l q'.
  assert (Hl : by_priority l).
  { unfold l. destruct (eventMap q !! when) as [l0|] eqn:E; [by apply (Hs when)|constructor]. }
  assert (Hlid : forall x, x ∈ l -> ev_id x <> ev_id e).
  { intros x Hx. apply Hid. unfold l in Hx. destruct (eventMap q !! when) as [l0|] eqn:E;
      [|by apply not_elem_of_nil in Hx]. apply elem_of_pending. eauto. }
  destruct (insert_by_sorted e l Hl) as [Ei Hi]. change (ev_priority e) with p in Ei, Hi.
  assert (Em : eventMap q' = <[when := insert_by p e l]> (eventMap q))
    by (unfold q'; rewrite InsertCallback_eq; apply InsertEvent_map).
  split_and!.
  - by rewrite Em, Ei.
  - intros k l'. rewrite Em. destruct (decide (k = when)) as [->|Hne];
      [rewrite lookup_insert_eq; by intros [= <-]|rewrite lookup_insert_ne by done; apply Hs].
  - unfold FindCallback. rewrite Em, lookup_insert_eq. intros Hn.
    rewrite filter_insert_by; [done|by split_and!|]. unfold l. by destruct (eventMap q !! when).
  - by apply (RemoveEvent_insert e).
Qed.

(** [InsertEvent( type, recipient, req, when, data, priority )] places its
    event by [priority], but the event itself keeps priority 0: a callback of
    priority 0 or more inserted later for the same cycle runs after it, even
    when its priority value is the smaller one. *)
Theorem priority_is_lost (q : EventQueue) (id1 id2 r1 r2 m : nat) (t : EventType)
    (req d1 d2 : option nat) (when p1 p2 : Z) :
  eventMap q !! when = None -> 0 <= p2 < p1 ->
  exists e1 e2,
    eventMap (InsertCallback id2 r2 m when d2 p2 (InsertNewEvent id1 t r1 req when d1 p1 q)) !! when =
      Some [e1; e2] /\
    ev_id e1 = id1 /\ ev_id e2 = id2 /\ ev_priority e1 = 0 /\
    eventMap (InsertCallback id2 r2 m when d2 p2 (InsertCallback id1 r1 m when d1 p1 q)) !! when =
      Some [e2; MkEvent id1 EventCallback r1 None d1 when p1 (Some m)].
Proof.
  intros Hn Hp. unfold InsertNewEvent. rewrite !InsertCallback_eq.
  eexists _, _. rewrite !InsertEvent_map, !lookup_insert_eq, Hn.
  cbn.
  rewrite (proj2 (Z.ltb_ge p2 0)), (proj2 (Z.ltb_lt p2 p1)) by lia.
  by split_and!.
Qed.

(** ** At concrete inputs *)

(** A recipient that runs every five cycles up to cycle 100; the state is the
    next address. *)
Definition ticker (e : Event) (steps : Z) (w : nat) : nat * list Action :=
  if ev_cycle e <? 100
  then (S w, [Insert (MkEvent w EventCycle 0 None None 0 0 None) (ev_cycle e + 5) 0])
  else (w, []).
Definition ticker_queue : EventQueue := InsertCallback 0 0 7 3 None 0 EventQueue_new.

Lemma ticker_well_behaved : well_behaved ticker id.
Proof.
  split; unfold ticker.
  - intros e s w a _ Ha. destruct (Z.ltb_spec (ev_cycle e) 100) as [Hlt|_]; cbn in Ha; [|by apply not_elem_of_nil in Ha].
    apply list_elem_of_singleton in Ha as ->. eexists _, _, _. split; [done|].
    split; [|by left]. unfold max_cycle. lia.
  - intros e s w _. destruct (ev_cycle e <? 100); cbn; (split; [lia|]).
    + split; [apply NoDup_singleton|]. intros x ->%list_elem_of_singleton. cbn. lia.
    + split; [apply NoDup_nil_2|]. intros x Hx. by apply not_elem_of_nil in Hx.
Qed.

Lemma EventQueue_new_ok : queue_ok EventQueue_new.
Proof. split; [done| |done]. intros k l Hk. by apply (lookup_empty_Some k l) in Hk. Qed.

Lemma ticker_queue_ok : queue_ok ticker_queue /\ ids_ok id ticker_queue 1%nat.
Proof.
  split; [apply InsertEvent_ok; [apply EventQueue_new_ok|done]|].
  assert (E : pending ticker_queue = [MkEvent 0 EventCallback 0 None None 3 0 (Some 7%nat)])
    by (vm_compute; reflexivity).
  split; rewrite E; [repeat constructor; set_solver|].
  intros e ->%list_elem_of_singleton. cbn. split; [lia|]. right. by right.
Qed.


Lemma callback_in_order_witness :
  RemoveEvent 1 3 (InsertCallback 1 0 8 3 None (-1) ticker_queue) = (true, ticker_queue) /\
  map ev_id <$> eventMap (InsertCallback 1 0 8 3 None (-1) ticker_queue) !! 3 =
    Some [1%nat; 0%nat].
Proof.
  split; [|vm_compute; reflexivity].
  refine (proj2 (proj2 (proj2 (callback_in_order ticker_queue 1 0 8 3 None (-1)
    (proj1 ticker_queue_ok) _ _ _)))); [done| |].
  - intros k l. unfold ticker_queue, InsertCallback. rewrite InsertEvent_map.
    intros [[<- <-]|[_ Hl]]%lookup_insert_Some; [by repeat constructor|].
    by apply (lookup_empty_Some k l) in Hl.
  - intros x Hx. apply (io_event _ _ _ (proj2 ticker_queue_ok)) in Hx as [Hx _]. cbn in Hx. lia.
Defined.

(** The priorities of the memory controller: transactions 30, refreshes 20. *)
Lemma priority_is_lost_witness :
  exists e1 e2,
    eventMap (InsertCallback 1 0 8 3 None 20 (InsertNewEvent 0 EventCycle 0 None 3 None 30 EventQueue_new)) !! 3 =
      Some [e1; e2] /\
    ev_id e1 = 0%nat /\ ev_id e2 = 1%nat /\ ev_priority e1 = 0 /\
    eventMap (InsertCallback 1 0 8 3 None 20 (InsertCallback 0 0 8 3 None 30 EventQueue_new)) !! 3 =
      Some [e2; MkEvent 0 EventCallback 0 None None 3 30 (Some 8%nat)].
Proof.
  apply (priority_is_lost EventQueue_new 0 1 0 0 8 EventCycle None None None 3 30 20);
    [reflexivity|lia].
Defined.
