(* ===== verification/Pages.v ===== *)
(** The physical pages of the hybrid memory ([sim/system.hh], [sim/system.cc]):
    one [page_info] per frame of PCM and of DRAM, the allocation of frames to
    processes, and the two lists of pages that take no part in the ranking. *)
From S2P Require Import Prelude Linked.

#[local] Open Scope Z_scope.

(** ** Data *)

(** Bit fields of 20, 4, 1 and 1 bits, then 16 and 64 bits. *)
Record page_info := MkPage {
  page_number : Z;
  queue_number : Z;
  flag : bool;
  valid : bool;
  access_counter : Z;
  last_access_time : Z;
  pre : option nat;
  next : option nat
}.
#[export] Instance page_info_settable : Settable page_info := fun p =>
  MkPage (page_number p) (queue_number p) (flag p) (valid p) (access_counter p)
    (last_access_time p) (pre p) (next p).

(** The part of [System] about memory.  A pointer to a [page_info] is its index
    in [pages]: [pcmPagePtr[i]] points to number [i] and [dramPagePtr[i]] to
    number [numPcmPages + i]. *)
Record System := MkSystem {
  pcmLocation : Z;
  dramLocation : Z;
  numPcmPages : Z;
  numDramPages : Z;
  lockedDramNumber : Z;
  lockedPcmNumber : Z;
  acrossTwoCpu : bool;
  both : bool;
  migrating : bool;
  pages : list page_info;
  DRAM_victim_list : option nat;
  DRAM_victim_tail : option nat;
  PCM_unranked_list : option nat;
  PCM_unranked_tail : option nat;
  pcmPages : Z;
  dramPages : Z;
  pcmSize : Z
}.
#[export] Instance System_settable : Settable System := fun s =>
  MkSystem (pcmLocation s) (dramLocation s) (numPcmPages s) (numDramPages s)
    (lockedDramNumber s) (lockedPcmNumber s) (acrossTwoCpu s) (both s) (migrating s) (pages s)
    (DRAM_victim_list s) (DRAM_victim_tail s) (PCM_unranked_list s) (PCM_unranked_tail s)
    (pcmPages s) (dramPages s) (pcmSize s).

Definition PageShift : Z := 12.
(** [PageMask] of 4 KB pages, [mask(12)]. *)
Definition page_offset (addr : Z) : Z := Z.land addr (Z.ones PageShift).

Definition get_page (p : nat) (s : System) : outcome page_info := aget (pages s) p.
Definition upd_page (p : nat) (g : page_info -> page_info) (s : System) : outcome System :=
  x ← get_page p s; Ok (s <| pages ::= insert p (g x) |>).
(** A null pointer is not followed. *)
Definition deref (p : option nat) : outcome nat :=
  match p with Some b => Ok b | None => Err OutOfBounds end.

Definition num_pages (isPcm : bool) (s : System) : Z :=
  if isPcm then numPcmPages s else numDramPages s.
Definition first_page (isPcm : bool) (s : System) : Z := if isPcm then 0 else numPcmPages s.
Definition pagePtr (isPcm : bool) (i : Z) (s : System) : outcome nat :=
  if (0 <=? i) && (i <? num_pages isPcm s) then Ok (Z.to_nat (first_page isPcm s + i))
  else Err OutOfBounds.

(** ** Construction *)

(** The constructor; [u] is what [malloc] finds. *)
Definition System_new (pcmsize dramsize : Z) (u : page_info) : System :=
  let np := i32 (Z.shiftr pcmsize PageShift) in
  let nd := i32 (Z.shiftr dramsize PageShift) in
  MkSystem 0 0 np nd 0 0 false false false (replicate (Z.to_nat np + Z.to_nat nd) u)
    None None None None 0 0 pcmsize.

(** One round of a loop of [init]: the page [i], and [page_info_pre]. *)
Definition init_page (isPcm : bool) (i : nat) (st : System * option nat)
    : outcome (System * option nat) :=
  let '(s, page_info_pre) := st in
  p ← pagePtr isPcm (Z.of_nat i) s;
  s ← upd_page p (fun x => x <| page_number := wrap 20 (first_page isPcm s + Z.of_nat i) |>
                             <| access_counter := 0 |> <| queue_number := 0 |>
                             <| pre := page_info_pre |> <| next := None |>) s;
  s ← match page_info_pre with
      | Some q => upd_page q (fun x => x <| next := Some p |>) s
      | None => Ok s
      end;
  s ← upd_page p (fun x => x <| flag := false |> <| valid := false |>) s;
  Ok (s, Some p).
Definition init_pages (isPcm : bool) (s : System) : outcome (System * nat * nat) :=
  '(s, _) ← for_from 0 (Z.to_nat (num_pages isPcm s)) (init_page isPcm) (s, None);
  h ← pagePtr isPcm 0 s;
  s ← upd_page h (fun x => x <| pre := None |>) s;
  t ← pagePtr isPcm (num_pages isPcm s - 1) s;
  Ok (s, h, t).

Definition init (s : System) : outcome System :=
  '(s, h, t) ← init_pages false s;
  let s := s <| DRAM_victim_list := Some h |> <| DRAM_victim_tail := Some t |> in
  '(s, h, t) ← init_pages true s;
  Ok (s <| PCM_unranked_list := Some h |> <| PCM_unranked_tail := Some t |>).

(** ** Allocation *)

(** [allocTextPhysPages] and [allocPhysPages] search the same way, one the PCM
    from [pcmLocation] on, the other the DRAM from [dramLocation] on. *)
Definition location (isPcm : bool) (s : System) : Z :=
  if isPcm then pcmLocation s else dramLocation s.
Definition set_location (isPcm : bool) (l : Z) (s : System) : System :=
  if isPcm then s <| pcmLocation := l |> else s <| dramLocation := l |>.

Definition page_valid (isPcm : bool) (i : Z) (s : System) : outcome bool :=
  p ← pagePtr isPcm i s; x ← get_page p s; Ok (valid x).

(** The inner loop: are the [k] pages after [loc + i] free; [i] at the end. *)
Fixpoint run_from (isPcm : bool) (k : nat) (i loc : Z) (s : System) : outcome (bool * Z) :=
  match k with
  | O => Ok (true, i)
  | S k =>
      let i := i + 1 in
      v ← page_valid isPcm (u64 (loc + i)) s;
      if v : bool then Ok (false, i) else run_from isPcm k i loc s
  end.

(** [for (j = loc; j <= loc + i; j++) pagePtr[j]->valid = 1]. *)
Definition mark_pages (isPcm : bool) (loc i : Z) (s : System) : outcome System :=
  for_from 0 (Z.to_nat (i + 1)) (fun j s =>
    p ← pagePtr isPcm (loc + Z.of_nat j) s; upd_page p (fun x => x <| valid := true |>) s) s.

(** One round of the outer loop: whether it ends with a [break] because the
    pages are found. *)
Definition try_location (isPcm : bool) (npages : Z) (s : System) : outcome (bool * System) :=
  let loc := location isPcm s in
  v ← page_valid isPcm loc s;
  if negb v then
    '(is_found, i) ← run_from isPcm (Z.to_nat (npages - 1)) 0 loc s;
    if is_found : bool then
      s ← mark_pages isPcm loc i s; Ok (true, set_location isPcm (u64 (loc + (i + 1))) s)
    else Ok (false, set_location isPcm (u64 (loc + (i + 1))) s)
  else Ok (false, set_location isPcm (u64 (loc + 1)) s).

Fixpoint search (fuel : nat) (isPcm : bool) (npages : Z) (is_firstAround : bool) (s : System)
    : outcome (bool * System) :=
  let inside := location isPcm s <? num_pages isPcm s in
  if (inside && is_firstAround) || (negb is_firstAround && inside) then
    match fuel with
    | O => Err Diverge
    | S fuel =>
        '(is_have, s) ← try_location isPcm npages s;
        if is_have : bool then Ok (true, s)
        else if num_pages isPcm s <? u64 (location isPcm s + npages) then
          let s := set_location isPcm 0 s in
          if is_firstAround then search fuel isPcm npages false s else Ok (false, s)
        else search fuel isPcm npages is_firstAround s
    end
  else Ok (false, s).

Definition find_pages (isPcm : bool) (npages : Z) (s : System) : outcome (bool * System) :=
  let fuel := Z.to_nat (2 * num_pages isPcm s + 2) in
  if num_pages isPcm s <? u64 (location isPcm s + npages)
  then search fuel isPcm npages false (set_location isPcm 0 s)
  else search fuel isPcm npages true s.

Definition allocTextPhysPages (npages : Z) (s : System) : outcome (Z * System) :=
  '(is_have, s) ← find_pages true npages s;
  if is_have : bool then
    let s := s <| pcmPages := i32 (pcmPages s + npages) |> in
    Ok (u64 (Z.shiftl (u64 (pcmLocation s - npages)) PageShift), s)
  else Err Fatal.

Definition allocPhysPages (npages : Z) (s : System) : outcome (Z * System) :=
  '(is_have, s) ← find_pages false npages s;
  if is_have : bool then
    let s := s <| dramPages := i32 (dramPages s + npages) |> in
    Ok (u64 (pcmSize s + u64 (Z.shiftl (u64 (dramLocation s - npages)) PageShift)), s)
  else allocTextPhysPages npages s.

Definition clearPhysPages (isPcm : bool) (index : Z) (s : System) : outcome System :=
  assert! isPcm;
  if isPcm then
    p ← pagePtr true index s;
    upd_page p (fun x => x <| valid := false |>) (s <| pcmPages := i32 (pcmPages s - 1) |>)
  else
    p ← pagePtr false index s;
    upd_page p (fun x => x <| valid := false |>) (s <| dramPages := i32 (dramPages s - 1) |>).

Definition setPhysPages (isPcm : bool) (index : Z) (s : System) : outcome System :=
  p ← pagePtr isPcm index s;
  let s := if isPcm then s <| pcmPages := i32 (pcmPages s + 1) |>
           else s <| dramPages := i32 (dramPages s + 1) |> in
  upd_page p (fun x => x <| valid := true |>) s.

Definition freeMemSize (totalSize : Z) (s : System) : Z :=
  u64 (totalSize - u64 (Z.shiftl (pcmLocation s) PageShift) -
       u64 (Z.shiftl (dramLocation s) PageShift)).

(** ** Moving a page within its list *)

(** [if (q) q->next = v], and the same for [pre]. *)
Definition set_next (q v : option nat) (s : System) : outcome System :=
  match q with Some q => upd_page q (fun x => x <| next := v |>) s | None => Ok s end.
Definition set_pre (q v : option nat) (s : System) : outcome System :=
  match q with Some q => upd_page q (fun x => x <| pre := v |>) s | None => Ok s end.

Definition changePcmUnranked (p : nat) (head : bool) (s : System) : outcome System :=
  x ← get_page p s;
  assert! access_counter x =? 0;
  if head then
    if decide (Some p = PCM_unranked_list s) then Ok s
    else
      s ← set_next (pre x) (next x) s;
      s ← match next x with
          | Some q => upd_page q (fun y => y <| pre := pre x |>) s
          | None => Ok (s <| PCM_unranked_tail := pre x |>)
          end;
      Ok (s <| PCM_unranked_list := Some p |>)
  else
    if decide (PCM_unranked_tail s = Some p) then Ok s
    else
      s ← set_pre (next x) (pre x) s;
      s ← match pre x with
          | Some q => upd_page q (fun y => y <| next := next x |>) s
          | None => Ok (s <| PCM_unranked_list := next x |>)
          end;
      Ok (s <| PCM_unranked_tail := Some p |>).

Definition changeDramVictim (p : nat) (head : bool) (s : System) : outcome System :=
  x ← get_page p s;
  if access_counter x =? 0 then
    if head then
      if decide (Some p = DRAM_victim_list s) then Ok s
      else
        s ← set_next (pre x) (next x) s;
        s ← match next x with
            | Some q => upd_page q (fun y => y <| pre := pre x |>) s
            | None => Ok (s <| DRAM_victim_tail := pre x |>)
            end;
        s ← upd_page p (fun y => y <| pre := None |>) s;
        Ok (s <| DRAM_victim_list := Some p |>)
    else
      if decide (DRAM_victim_tail s = Some p) then Ok s
      else
        s ← set_pre (next x) (pre x) s;
        s ← match pre x with
            | Some q => upd_page q (fun y => y <| next := next x |>) s
            | None => Ok (s <| DRAM_victim_list := next x |>)
            end;
        s ← upd_page p (fun y => y <| next := None |>) s;
        Ok (s <| DRAM_victim_tail := Some p |>)
  else Ok s.

(** ** Trying it out *)

Definition blank_page : page_info := MkPage 0 0 false false 0 0 None None.
(** Four pages of PCM, two of DRAM. *)
Definition small_system : outcome System := init (System_new (4 * 4096) (2 * 4096) blank_page).

Example alloc_dram_then_pcm :
  (s ← small_system; '(a, s) ← allocPhysPages 2 s; '(b, s) ← allocPhysPages 3 s; Ok (a, b))
  = Ok (4 * 4096, 0).
Proof. vm_compute. reflexivity. Qed.

(** The run of free pages is followed past the end of the array. *)
Example huge_request : (s ← small_system; allocPhysPages 3 s) = Err OutOfBounds.
Proof. vm_compute. reflexivity. Qed.

(** A page moved to the front no longer leads to the pages before it. *)
Definition walk_pages (s : System) : nat -> option nat -> list nat :=
  fix go fuel p := match fuel, p with
  | S fuel, Some b => b :: go fuel (pages s !! b ≫= next)
  | _, _ => []
  end.
Example change_loses_pages :
  (s ← small_system; s ← changePcmUnranked 2 true s; Ok (walk_pages s 9 (PCM_unranked_list s)))
  = Ok [2; 3]%nat.
Proof. vm_compute. reflexivity. Qed.
