(* ===== verification/PageAlloc.v ===== *)
(** The allocation of physical pages ([Pages]): the searches end, give exactly a
    run of free pages when there is one, and fail when there is none. *)
From S2P Require Import Prelude Linked Pages.

#[local] Open Scope Z_scope.

Implicit Types (s : System).

(** ** Frames *)

(** A frame is the number of a page in the whole memory. *)
Definition free_frame s (f : Z) : Prop :=
  exists x, pages s !! Z.to_nat f = Some x /\ valid x = false.

(** A memory as the constructor and [init] build it, at any later time. *)
Record pages_ok s : Prop := {
  po_pcm : 0 < numPcmPages s;
  po_dram : 0 < numDramPages s;
  po_int : numPcmPages s + numDramPages s < 2 ^ 31;
  po_length : Z.of_nat (length (pages s)) = numPcmPages s + numDramPages s;
  po_size : pcmSize s = numPcmPages s * 2 ^ PageShift;
  po_location isPcm : 0 <= location isPcm s <= num_pages isPcm s
}.

(** The pages [a .. a + n) of one kind, all free. *)
Definition free_run (isPcm : bool) s (n a : Z) : Prop :=
  0 <= a /\ a + n <= num_pages isPcm s /\
  forall j, a <= j < a + n -> free_frame s (first_page isPcm s + j).

(** [s'] is [s] with the frames [a .. a + n) in use. *)
Definition taken s s' (a n : Z) : Prop := forall f, 0 <= f ->
  pages s' !! Z.to_nat f =
    (if (a <=? f) && (f <? a + n) then set_field valid (fun _ => true) else id) <$> pages s !! Z.to_nat f.

Section laws.
Context (isPcm : bool).

Lemma num_range s : pages_ok s -> 0 < num_pages isPcm s < 2 ^ 31.
Proof. intros [Hp Hd Hi _ _ _]. destruct isPcm; cbn; lia. Qed.

Lemma page_at s i :
  pages_ok s -> 0 <= i < num_pages isPcm s ->
  pagePtr isPcm i s = Ok (Z.to_nat (first_page isPcm s + i)) /\
  exists x, pages s !! Z.to_nat (first_page isPcm s + i) = Some x.
Proof.
  intros [Hp Hd Hn Hl _ _] Hi. unfold pagePtr.
  rewrite (proj2 (Z.leb_le _ _)), (proj2 (Z.ltb_lt _ _)) by lia. split; [done|].
  apply lookup_lt_is_Some. destruct isPcm; cbn in *; lia.
Qed.

Lemma page_valid_ok s i :
  pages_ok s -> 0 <= i < num_pages isPcm s ->
  exists v, page_valid isPcm i s = Ok v /\ (v = false <-> free_frame s (first_page isPcm s + i)).
Proof.
  intros Hs Hi. destruct (page_at s i Hs Hi) as [Hp [x Hx]]. exists (valid x).
  unfold page_valid, get_page. rewrite Hp. cbn [mbind outcome_bind]. rewrite (aget_ok _ _ _ Hx).
  split; [done|]. unfold free_frame. rewrite Hx. naive_solver.
Qed.

Lemma run_from_ok s k : forall i loc,
  pages_ok s -> 0 <= i -> 0 <= loc -> loc + i + Z.of_nat k < num_pages isPcm s ->
  exists found i', run_from isPcm k i loc s = Ok (found, i') /\ i <= i' <= i + Z.of_nat k /\
    if found : bool then i' = i + Z.of_nat k /\
      forall j, i < j <= i' -> free_frame s (first_page isPcm s + (loc + j))
    else i < i' /\ ~ free_frame s (first_page isPcm s + (loc + i')).
Proof.
  induction k as [|k IH]; intros i loc Hs Hi Hloc Hk; cbn [run_from].
  - exists true, i. split_and!; [done|lia..|]. intros j Hj. lia.
  - pose proof (num_range s Hs) as Hn. rewrite (wrap_small 64) by lia.
    destruct (page_valid_ok s (loc + (i + 1)) Hs) as (v & -> & Hv); [lia|]. cbn [mbind outcome_bind].
    destruct v.
    + exists false, (i + 1). split_and!; [done|lia..|]. intros Hf%Hv. done.
    + destruct (IH (i + 1) loc Hs) as (found & i' & -> & Hi' & Hr); [lia..|].
      exists found, i'. split; [done|]. split; [lia|]. destruct found.
      * destruct Hr as [-> Hr]. split; [lia|]. intros j Hj.
        destruct (Z.eq_dec j (i + 1)) as [->|]; [by apply Hv|]. apply Hr. lia.
      * destruct Hr. split; [lia|done].
Qed.

Lemma mark_pages_ok s loc i :
  pages_ok s -> 0 <= loc -> 0 <= i -> loc + i < num_pages isPcm s ->
  exists ps, mark_pages isPcm loc i s = Ok (s <| pages := ps |>) /\
    length ps = length (pages s) /\ taken s (s <| pages := ps |>) (first_page isPcm s + loc) (i + 1).
Proof.
  intros Hs Hloc Hi Hn. unfold mark_pages.
  assert (Hb : 0 <= first_page isPcm s) by (destruct isPcm; cbn; [lia|apply Z.lt_le_incl, (po_pcm s Hs)]).
  destruct (for_from_inv (fun j st => exists ps, st = s <| pages := ps |> /\ length ps = length (pages s) /\
      taken s (s <| pages := ps |>) (first_page isPcm s + loc) (Z.of_nat j))
    0 (Z.to_nat (i + 1)) (fun j s => p ← pagePtr isPcm (loc + Z.of_nat j) s;
       upd_page p (fun x => x <| valid := true |>) s) s) as (st & E & ps & -> & Hl & Ht).
  - intros j st Hj (ps & -> & Hl & Ht).
    assert (Hs' : pages_ok (s <| pages := ps |>)).
    { destruct Hs as [P D I L Z0 Lc]. split; cbn; [done..| |done|]; [by rewrite Hl|exact Lc]. }
    destruct (page_at (s <| pages := ps |>) (loc + Z.of_nat j) Hs') as [Hp [x Hx]]; [by destruct isPcm; cbn in *; lia|].
    rewrite Hp. cbn [mbind outcome_bind]. unfold upd_page, get_page. rewrite (aget_ok _ _ _ Hx).
    eexists. split; [done|]. eexists. split; [done|]. split; [cbn; by rewrite length_insert|].
    assert (Hfp : first_page isPcm (s <| pages := ps |>) = first_page isPcm s) by by destruct isPcm.
    rewrite Hfp in *. intros f Hf. cbn [pages set_field]. specialize (Ht f Hf). cbn [pages set_field] in Ht, Hx.
    destruct (Z.eq_dec f (first_page isPcm s + (loc + Z.of_nat j))) as [->|Hne].
    + rewrite list_lookup_insert_eq by (by eapply lookup_lt_Some).
      rewrite (proj2 (Z.leb_le _ _)), (proj2 (Z.ltb_lt _ _)) by lia. cbn [andb].
      rewrite Hx in Ht. rewrite (proj2 (Z.ltb_ge _ (first_page isPcm s + loc + Z.of_nat j))), andb_false_r in Ht by lia.
      destruct (pages s !! _) as [y|] eqn:Ey; [|done]. cbn in Ht |- *. by injection Ht as ->.
    + rewrite list_lookup_insert_ne by lia. rewrite Ht. do 2 f_equal.
      destruct (Z.leb_spec (first_page isPcm s + loc) f), (Z.ltb_spec f (first_page isPcm s + loc + Z.of_nat j)),
        (Z.ltb_spec f (first_page isPcm s + loc + Z.of_nat (S j))); cbn; done || lia.
  - exists (pages s). split; [by destruct s|]. split; [done|]. intros f Hf. cbn [pages set_field].
    replace ((first_page isPcm s + loc <=? f) && (f <? first_page isPcm s + loc + Z.of_nat 0)) with false
      by (symmetry; apply andb_false_iff; rewrite Z.leb_gt, Z.ltb_ge; lia).
    by rewrite option_fmap_id.
  - exists ps. split; [done|]. split; [done|]. rewrite Nat.add_0_l in Ht. by replace (Z.of_nat (Z.to_nat (i + 1))) with (i + 1) in Ht by lia.
Qed.
End laws.

(** ** The searches *)

Section search.
Context (isPcm : bool).

Lemma location_set l s : location isPcm (set_location isPcm l s) = l.
Proof. by destruct isPcm. Qed.
Lemma num_pages_set l s : num_pages isPcm (set_location isPcm l s) = num_pages isPcm s.
Proof. by destruct isPcm. Qed.
Lemma set_location_twice l l' s : set_location isPcm l (set_location isPcm l' s) = set_location isPcm l s.
Proof. by destruct isPcm. Qed.
Lemma free_run_set l s n a : free_run isPcm (set_location isPcm l s) n a <-> free_run isPcm s n a.
Proof. by destruct isPcm. Qed.
Lemma pages_ok_set l s : pages_ok s -> 0 <= l <= num_pages isPcm s -> pages_ok (set_location isPcm l s).
Proof.
  intros [P D I L Z0 Lc] Hl. destruct isPcm; split; try done; intros b;
    specialize (Lc b); by destruct b.
Qed.

Lemma try_location_ok s n :
  pages_ok s -> 1 <= n -> location isPcm s + n <= num_pages isPcm s ->
  let loc := location isPcm s in
  exists b s', try_location isPcm n s = Ok (b, s') /\
    if b : bool then free_run isPcm s n loc /\
      exists ps, s' = set_location isPcm (loc + n) (s <| pages := ps |>) /\
        length ps = length (pages s) /\ taken s (s <| pages := ps |>) (first_page isPcm s + loc) n
    else exists l, loc < l <= loc + n /\ s' = set_location isPcm l s /\
      forall a, loc <= a < l -> ~ free_run isPcm s n a.
Proof.
  intros Hs Hn Hloc loc. unfold try_location. fold loc. fold loc in Hloc.
  pose proof (num_range isPcm s Hs) as Hm. pose proof (po_location s Hs isPcm) as Hl. fold loc in Hl.
  destruct (page_valid_ok isPcm s loc Hs) as (v & -> & Hv); [lia|]. cbn [mbind outcome_bind].
  destruct v; cbn [negb].
  - exists false. eexists. split; [done|]. exists (loc + 1). rewrite (wrap_small 64) by lia.
    split; [lia|]. split; [done|]. intros a Ha (_ & _ & Hf).
    assert (free_frame s (first_page isPcm s + loc)) as Hc%Hv by (apply Hf; lia). done.
  - destruct (run_from_ok isPcm s (Z.to_nat (n - 1)) 0 loc Hs) as (found & i & -> & Hi & Hr); [lia..|].
    cbn [mbind outcome_bind]. rewrite (wrap_small 64) by lia. destruct found.
    + destruct Hr as [-> Hr]. replace (0 + Z.of_nat (Z.to_nat (n - 1))) with (n - 1) in * by lia.
      destruct (mark_pages_ok isPcm s loc (n - 1) Hs) as (ps & -> & Hlen & Ht); [lia..|].
      cbn [mbind outcome_bind]. exists true. eexists. split; [done|].
      replace (n - 1 + 1) with n in * by lia. split; [|by exists ps].
      split; [lia|]. split; [lia|]. intros j Hj. destruct (Z.eq_dec j loc) as [->|]; [by apply Hv|].
      replace j with (loc + (j - loc)) by lia. apply Hr. lia.
    + destruct Hr as [Hi0 Hr]. exists false. eexists. split; [done|]. exists (loc + (i + 1)).
      split; [lia|]. split; [done|]. intros a Ha (_ & _ & Hf). apply Hr, Hf. lia.
Qed.

(** What a search from [s] comes to. *)
Definition searched s n (r : outcome (bool * System)) : Prop :=
  exists b s', r = Ok (b, s') /\
    if b : bool then exists a ps, free_run isPcm s n a /\
      s' = set_location isPcm (a + n) (s <| pages := ps |>) /\
      length ps = length (pages s) /\ taken s (s <| pages := ps |>) (first_page isPcm s + a) n
    else (forall a, ~ free_run isPcm s n a) /\ exists l, s' = set_location isPcm l s /\ 0 <= l <= num_pages isPcm s.

Lemma searched_set l s n r : searched (set_location isPcm l s) n r -> searched s n r.
Proof.
  intros (b & s' & -> & H). exists b, s'. split; [done|]. destruct b.
  - destruct H as (a & ps & H1 & -> & H). exists a, ps. split; [by apply (free_run_set l)|].
    split; [by destruct isPcm|]. by destruct isPcm.
  - destruct H as (Hno & l' & -> & Hl). split; [intros a Ha; by apply (Hno a), free_run_set|].
    exists l'. split; [apply set_location_twice|]. by rewrite num_pages_set in Hl.
Qed.

Lemma search_ok n fuel : forall first s,
  pages_ok s -> 1 <= n -> location isPcm s + n <= num_pages isPcm s ->
  (first = false -> forall a, a < location isPcm s -> ~ free_run isPcm s n a) ->
  (if first : bool then num_pages isPcm s + 1 else 0) + (num_pages isPcm s - location isPcm s) < Z.of_nat fuel ->
  searched s n (search fuel isPcm n first s).
Proof.
  induction fuel as [|fuel IH]; intros first s Hs Hn Hloc Hno Hfuel; cbn [search];
    pose proof (po_location s Hs isPcm) as Hl; pose proof (num_range isPcm s Hs) as Hm;
    [destruct first; lia|].
  rewrite (proj2 (Z.ltb_lt _ (num_pages isPcm s))) by lia. cbn [andb].
  rewrite andb_true_r, orb_negb_r.
  destruct (try_location_ok s n Hs Hn Hloc) as ([] & s' & -> & Hr); cbn [mbind outcome_bind].
  - destruct Hr as [Hrun (ps & -> & Hlen & Ht)]. exists true. eexists. split; [done|]. by exists (location isPcm s), ps.
  - destruct Hr as (l & Hl' & -> & Hnone). rewrite location_set, num_pages_set, set_location_twice.
    rewrite (wrap_small 64) by lia.
    assert (Hpast : first = false -> forall a, a < l -> ~ free_run isPcm s n a).
    { intros Hf a Ha. destruct (Z.lt_ge_cases a (location isPcm s)); [by apply Hno|apply Hnone; lia]. }
    destruct (Z.ltb_spec (num_pages isPcm s) (l + n)) as [Hlt|Hge].
    + destruct first.
      * apply (searched_set 0). apply IH; rewrite ?location_set, ?num_pages_set; try lia.
        -- by apply pages_ok_set; [|lia].
        -- intros _ a Ha (? & _). lia.
      * exists false. eexists. split; [done|]. split; [|exists 0; split; [done|lia]].
        intros a Ha. destruct (Z.lt_ge_cases a l); [by apply (Hpast eq_refl a)|].
        destruct Ha as (_ & ? & _). lia.
    + apply (searched_set l). apply IH; rewrite ?location_set, ?num_pages_set; try lia.
      * by apply pages_ok_set; [|lia].
      * intros Hf a Ha Hr. apply (Hpast Hf a); [lia|]. by apply (free_run_set l).
Qed.

Lemma find_pages_ok s n :
  pages_ok s -> 1 <= n <= num_pages isPcm s -> searched s n (find_pages isPcm n s).
Proof.
  intros Hs Hn. pose proof (po_location s Hs isPcm) as Hl. pose proof (num_range isPcm s Hs) as Hm.
  unfold find_pages. rewrite (wrap_small 64) by lia.
  destruct (Z.ltb_spec (num_pages isPcm s) (location isPcm s + n)).
  - apply (searched_set 0). apply search_ok; rewrite ?location_set, ?num_pages_set; try lia.
    + by apply pages_ok_set; [|lia].
    + intros _ a Ha (? & _). lia.
  - apply search_ok; try done; lia.
Qed.
End search.

(** ** Allocation *)

Lemma pages_ok_pages s ps :
  pages_ok s -> length ps = length (pages s) -> pages_ok (s <| pages := ps |>).
Proof. intros [P D I L Z0 Lc] Hl. split; cbn; try done. by rewrite Hl. Qed.

(** The frames an allocation gave out. *)
Record allocated s (n : Z) (addr : Z) s' (isPcm : bool) (a : Z) : Prop := {
  al_run : free_run isPcm s n a;
  al_addr : addr = (first_page isPcm s + a) * 2 ^ PageShift;
  al_taken : taken s s' (first_page isPcm s + a) n;
  al_ok : pages_ok s';
  al_pcm : numPcmPages s' = numPcmPages s;
  al_dram : numDramPages s' = numDramPages s;
  al_victims : DRAM_victim_list s' = DRAM_victim_list s /\ DRAM_victim_tail s' = DRAM_victim_tail s;
  al_unranked : PCM_unranked_list s' = PCM_unranked_list s /\ PCM_unranked_tail s' = PCM_unranked_tail s
}.

Lemma allocTextPhysPages_ok s n :
  pages_ok s -> 1 <= n <= numPcmPages s ->
  match allocTextPhysPages n s with
  | Ok (addr, s') => exists a, allocated s n addr s' true a
  | Err e => e = Fatal /\ forall a, ~ free_run true s n a
  end.
Proof.
  intros Hs Hn. unfold allocTextPhysPages.
  destruct (find_pages_ok true s n Hs Hn) as ([] & s' & -> & Hr); cbn [mbind outcome_bind]; [|by destruct Hr].
  destruct Hr as (a & ps & Hrun & -> & Hlen & Ht). exists a. pose proof Hrun as (Ha & Ha' & _).
  pose proof (num_range true s Hs) as Hm. cbn in Hm, Ha'.
  assert (Hs' : pages_ok (set_location true (a + n) (s <| pages := ps |>))).
  { apply pages_ok_set; [by apply pages_ok_pages|]. cbn. lia. }
  split; try done; [|by destruct Hs'].
  cbn [pcmLocation set_location set_field]. unfold PageShift. cbn [first_page].
  rewrite Z.shiftl_mul_pow2 by done. replace (a + n - n) with a by lia.
  rewrite !(wrap_small 64) by (rewrite ?(wrap_small 64) by lia; lia). lia.
Qed.

Lemma alloc_phys_pages_ok (s : System) (n : Z) :
  pages_ok s -> 1 <= n <= numDramPages s -> n <= numPcmPages s ->
  match allocPhysPages n s with
  | Ok (addr, s') => exists isPcm a, allocated s n addr s' isPcm a /\
      (isPcm = true -> forall d, ~ free_run false s n d)
  | Err e => e = Fatal /\ forall isPcm a, ~ free_run isPcm s n a
  end.
Proof.
  intros Hs Hn Hn'. unfold allocPhysPages.
  destruct (find_pages_ok false s n Hs Hn) as ([] & s' & -> & Hr); cbn [mbind outcome_bind].
  - destruct Hr as (a & ps & Hrun & -> & Hlen & Ht). exists false, a. split; [|done].
    pose proof Hrun as (Ha & Ha' & _). pose proof (num_range false s Hs) as Hm. pose proof (po_int s Hs). cbn in Hm, Ha'.
    pose proof (po_pcm s Hs).
    assert (Hs' : pages_ok (set_location false (a + n) (s <| pages := ps |>))).
    { apply pages_ok_set; [by apply pages_ok_pages|]. cbn. lia. }
    split; try done; [|by destruct Hs'].
    cbn [dramLocation pcmSize set_location set_field]. rewrite (po_size s Hs). unfold PageShift. cbn [first_page].
    rewrite Z.shiftl_mul_pow2 by done. replace (a + n - n) with a by lia.
    rewrite (wrap_small 64 a) by lia. rewrite (wrap_small 64 (a * _)) by lia. rewrite (wrap_small 64) by lia. lia.
  - destruct Hr as (Hno & l & -> & Hl).
    pose proof (allocTextPhysPages_ok (set_location false l s) n (pages_ok_set false l s Hs Hl) ltac:(cbn; lia)) as Ht.
    destruct (allocTextPhysPages _ _) as [[addr s']|e].
    + destruct Ht as (a & [R A T O P D V U]). exists true, a. by split.
    + destruct Ht as [-> Ht]. split; [done|]. intros [] a; [apply (Ht a)|apply Hno].
Qed.


(** A memory just built. *)
Definition fresh_system : System := Eval vm_compute in
  match small_system with Ok s => s | Err _ => System_new 0 0 blank_page end.
Lemma fresh_pages_ok : small_system = Ok fresh_system /\ pages_ok fresh_system.
Proof. split; [by vm_compute|]. split; try done. by intros []. Qed.

