(* ===== verification/PageTable.v ===== *)
(** The page tables of the processes ([mem/page_table.hh], [mem/page_table.cc],
    [arch/arm/pagetable.hh]) and what [sim/process.cc] does with them: mapping,
    translation, the move of a page from PCM to DRAM at its first write, and the
    exchange of the frames of two pages. *)
From S2P Require Import Prelude IntMath Linked Pages.

#[local] Open Scope Z_scope.

(** ** Entries *)

(** The fields the page tables use; the other fields of [TlbEntry] keep the
    constants of its constructors. *)
Record TlbEntry := MkTlb {
  pfn : Z;
  te_size : Z;
  vpn : Z;
  asid : Z;
  te_valid : bool;
  isFirstAccess : bool
}.
#[export] Instance TlbEntry_settable : Settable TlbEntry := fun e =>
  MkTlb (pfn e) (te_size e) (vpn e) (asid e) (te_valid e) (isFirstAccess e).

Definition PageBytes : Z := 2 ^ PageShift.
Definition TlbEntry_default : TlbEntry := MkTlb 0 0 0 0 true true.
Definition TlbEntry_new (asn vaddr paddr : Z) : TlbEntry :=
  MkTlb (Z.shiftr paddr PageShift) (PageBytes - 1) (Z.shiftr vaddr PageShift) (u16 asn) true true.
Definition updateVaddr (new_vaddr : Z) (e : TlbEntry) : TlbEntry :=
  e <| vpn := Z.shiftr new_vaddr PageShift |>.
Definition updatePfn (new_pfn : Z) (e : TlbEntry) : TlbEntry := e <| pfn := new_pfn |>.
Definition pageNumber (e : TlbEntry) : Z := pfn e.
Definition pageStart (e : TlbEntry) : Z := u64 (Z.shiftl (pfn e) PageShift).

(** ** Processes *)

(** A process with its page table. *)
Record Process := MkProcess {
  M5_pid : Z;
  pageSize : Z;
  pTable : gmap Z TlbEntry;
  numOfptod : Z;
  brk_point : Z;
  brk_point_end : Z;
  stack_base : Z;
  stack_min : Z;
  max_stack_size : Z;
  mmap_start : Z;
  mmap_end : Z
}.
#[export] Instance Process_settable : Settable Process := fun p =>
  MkProcess (M5_pid p) (pageSize p) (pTable p) (numOfptod p) (brk_point p) (brk_point_end p)
    (stack_base p) (stack_min p) (max_stack_size p) (mmap_start p) (mmap_end p).

(** The order in which an iterator goes through the entries of the hash map:
    every key once, in an order the container chooses. *)
Class HashOrder := visit : gmap Z TlbEntry -> list Z.
Class HashOrderLaws `{HashOrder} : Prop := visit_keys m : visit m ≡ₚ (map_to_list m).*1.

Module FuncPageTable.

(** [mask(floorLog2(pageSize))]: the constructor asserts a power of two. *)
Definition offsetMask (p : Process) : Z := u64 (pageSize p - 1).
Definition pageAlign (p : Process) (a : Z) : Z := Z.land a (u64 (Z.lnot (offsetMask p))).
Definition pageOffset (p : Process) (a : Z) : Z := Z.land a (offsetMask p).

(** The rounds of [for (; size > 0; size -= pageSize)]. *)
Definition rounds (size : Z) (p : Process) : nat := Z.to_nat ((size + pageSize p - 1) / pageSize p).
(** The address [from] in round [i]. *)
Definition advance (from : Z) (i : nat) (p : Process) : Z := u64 (from + Z.of_nat i * pageSize p).

Definition map_page (vaddr paddr : Z) (clobber : bool) (p : Process) : outcome Process :=
  let mapped := match pTable p !! vaddr with Some e => te_valid e | None => false end in
  if negb clobber && mapped then Err Fatal
  else Ok (p <| pTable ::= insert vaddr (TlbEntry_new (M5_pid p) vaddr paddr) |>).
Definition map (vaddr paddr size : Z) (clobber : bool) (p : Process) : outcome Process :=
  assert! pageOffset p vaddr =? 0;
  for_from 0 (rounds size p) (fun i p =>
    map_page (advance vaddr i p) (advance paddr i p) clobber p) p.

(** [pTable[new] = pTable[old]; pTable.erase(old); pTable[new].updateVaddr(new)];
    the indexing at the end makes an entry if the erased one was [new]. *)
Definition remap_page (vaddr new_vaddr : Z) (p : Process) : outcome Process :=
  match pTable p !! vaddr with
  | Some e =>
      let t := delete vaddr (<[new_vaddr := e]> (pTable p)) in
      let e := default TlbEntry_default (t !! new_vaddr) in
      Ok (p <| pTable := <[new_vaddr := updateVaddr new_vaddr e]> t |>)
  | None => Err AssertFail
  end.
Definition remap (vaddr size new_vaddr : Z) (p : Process) : outcome Process :=
  assert! pageOffset p vaddr =? 0;
  assert! pageOffset p new_vaddr =? 0;
  for_from 0 (rounds size p) (fun i p =>
    remap_page (advance vaddr i p) (advance new_vaddr i p) p) p.

Definition unmap_page (vaddr : Z) (p : Process) : outcome Process :=
  match pTable p !! vaddr with
  | Some _ => Ok (p <| pTable ::= delete vaddr |>)
  | None => Err AssertFail
  end.
Definition unmap (vaddr size : Z) (p : Process) : outcome Process :=
  assert! pageOffset p vaddr =? 0;
  for_from 0 (rounds size p) (fun i p => unmap_page (advance vaddr i p) p) p.

Definition isUnmapped (vaddr size : Z) (p : Process) : outcome bool :=
  assert! pageOffset p vaddr =? 0;
  Ok (forallb (fun i => match pTable p !! advance vaddr i p with Some _ => false | None => true end)
        (seq 0 (rounds size p))).

(** ** Frames of the entries *)

Section frames.
Context `{HashOrder}.

Definition findPhyNumber (dramPageNumber : Z) (p : Process) : bool :=
  existsb (fun v => match pTable p !! v with
                    | Some e => pageNumber e =? dramPageNumber
                    | None => false
                    end) (visit (pTable p)).

(** The entry at [v]: from [a] to [b], one off the count. *)
Definition change_entry (v a b : Z) (st : Z * gmap Z TlbEntry) : outcome (Z * gmap Z TlbEntry) :=
  let '(flag, t) := st in
  match t !! v with
  | Some e => Ok (if pageNumber e =? a then (u8 (flag - 1), <[v := updatePfn b e]> t) else st)
  | None => Err OutOfBounds
  end.

(** The loop of [changePhyNumber]; it ends with the table or with [flag] at 0. *)
Fixpoint change_from (pcm_paddr dram_paddr : Z) (exchange : bool) (vs : list Z)
    (st : Z * gmap Z TlbEntry) : outcome (Z * gmap Z TlbEntry) :=
  match vs with
  | [] => Ok st
  | v :: vs =>
      st ← change_entry v pcm_paddr dram_paddr st;
      if st.1 =? 0 then Ok st
      else
        st ← (if exchange then change_entry v dram_paddr pcm_paddr st else Ok st);
        if st.1 =? 0 then Ok st else change_from pcm_paddr dram_paddr exchange vs st
  end.

Definition changePhyNumber (pcm_paddr dram_paddr : Z) (exchange : bool) (p : Process)
    : outcome Process :=
  '(flag, t) ← change_from pcm_paddr dram_paddr exchange (visit (pTable p))
                 (if exchange then 2 else 1, pTable p);
  assert! flag =? 0;
  Ok (p <| pTable := t |>).
End frames.
End FuncPageTable.

(** ** The machine *)

(** The memory, the processes, the variable [flag] of page_table.cc and the
    static [PhysicalMemory::watershed]. *)
Record Machine := MkMachine {
  sys : System;
  procs : list Process;
  move_flag : Z;
  watershed : Z
}.
#[export] Instance Machine_settable : Settable Machine := fun m =>
  MkMachine (sys m) (procs m) (move_flag m) (watershed m).

Definition get_proc (i : nat) (m : Machine) : outcome Process := aget (procs m) i.
Definition upd_proc (i : nat) (f : Process -> outcome Process) (m : Machine) : outcome Machine :=
  p ← get_proc i m; p ← f p; Ok (m <| procs ::= insert i p |>).

Definition allocateMem (i : nat) (vaddr size : Z) (clobber : bool) (m : Machine) : outcome Machine :=
  let npages := i32 (divCeil size PageBytes) in
  '(paddr, s) ← allocPhysPages npages (sys m);
  upd_proc i (FuncPageTable.map vaddr paddr size clobber) (m <| sys := s |>).
Definition allocateTextMem (i : nat) (vaddr size : Z) (clobber : bool) (m : Machine) : outcome Machine :=
  let npages := i32 (divCeil size PageBytes) in
  '(paddr, s) ← allocTextPhysPages npages (sys m);
  upd_proc i (FuncPageTable.map vaddr paddr size clobber) (m <| sys := s |>).

(** [while (vaddr < stack_min)]. *)
Fixpoint grow_stack (fuel : nat) (i : nat) (vaddr : Z) (m : Machine) : outcome Machine :=
  p ← get_proc i m;
  if vaddr <? stack_min p then
    match fuel with
    | O => Err Diverge
    | S fuel =>
        let p := p <| stack_min := u64 (stack_min p - PageBytes) |> in
        let m := m <| procs ::= insert i p |> in
        if max_stack_size p <? u64 (stack_base p - stack_min p) then Err Fatal
        else m ← allocateTextMem i (stack_min p) PageBytes false m; grow_stack fuel i vaddr m
    end
  else Ok m.
Definition fixupStackFault (i : nat) (vaddr : Z) (m : Machine) : outcome (bool * Machine) :=
  p ← get_proc i m;
  if (stack_min p <=? vaddr) && (vaddr <? stack_base p) then
    m ← allocateTextMem i (roundDown 64 vaddr PageBytes) PageBytes false m; Ok (true, m)
  else if (vaddr <? stack_min p) && (u64 (stack_base p - max_stack_size p) <=? vaddr) then
    m ← grow_stack (Z.to_nat ((stack_min p - vaddr) / PageBytes + 1)) i vaddr m; Ok (true, m)
  else Ok (false, m).

(** ** Translation *)

(** The data segment, the memory maps and the stack of a process. *)
Definition in_moved_region (vaddr : Z) (p : Process) : bool :=
  (brk_point p <=? vaddr) && (vaddr <=? brk_point_end p) ||
  (mmap_start p <=? vaddr) && (vaddr <=? mmap_end p) ||
  (vaddr <=? mmap_start p) && (mmap_end p <=? vaddr) ||
  (stack_min p <=? vaddr) && (vaddr <=? stack_base p).

(** [pTable[v]]: an entry that is not there is made. *)
Definition entry_at (v : Z) (p : Process) : TlbEntry := default TlbEntry_default (pTable p !! v).
Definition upd_entry (v : Z) (f : TlbEntry -> TlbEntry) (p : Process) : Process :=
  p <| pTable ::= insert v (f (entry_at v p)) |>.
Definition on_entry (i : nat) (v : Z) (f : TlbEntry -> TlbEntry) (m : Machine) : outcome Machine :=
  upd_proc i (fun p => Ok (upd_entry v f p)) m.

(** Giving up the frame of the page and mapping another: what a move does. *)
Definition move_page (i : nat) (vaddr : Z) (m : Machine) : outcome Machine :=
  p ← get_proc i m;
  m ← on_entry i vaddr id (m <| procs ::= insert i (p <| numOfptod ::= Z.succ |>) |>);
  p ← get_proc i m;
  let start := pageStart (entry_at vaddr p) in
  l ← floorLog2_64 (pageSize p);
  s ← (if watershed m <=? start
       then clearPhysPages false (i32 (Z.shiftr (u64 (start - watershed m)) l)) (sys m)
       else clearPhysPages true (i32 (Z.shiftr start l)) (sys m));
  m ← on_entry i vaddr (fun e => e <| te_valid := false |>) (m <| sys := s |>);
  allocateMem i vaddr (pageSize p) false m.

(** Twelve of twenty-seven candidates are moved. *)
Definition transFromPtoD (i : nat) (vaddr : Z) (m : Machine) : outcome Machine :=
  p ← get_proc i m;
  if in_moved_region vaddr p then
    m ← (if 11 <? move_flag m then
           let f := move_flag m + 1 in
           Ok (m <| move_flag := if 26 <? f then 0 else f |>)
         else move_page i vaddr (m <| move_flag ::= Z.succ |>));
    on_entry i vaddr (fun e => e <| isFirstAccess := false |>) m
  else Ok m.

(** The entry found, and the machine: a first access is noted, and a first write
    may move the page. *)
Definition lookup (i : nat) (vaddr : Z) (is_check is_write : bool) (m : Machine)
    : outcome (option TlbEntry * Machine) :=
  p ← get_proc i m;
  let page_addr := FuncPageTable.pageAlign p vaddr in
  match pTable p !! page_addr with
  | None => Ok (None, m)
  | Some e =>
      m ← (if is_check then Ok m
           else if isFirstAccess e then
             m ← on_entry i page_addr (fun e => e <| isFirstAccess := false |>) m;
             if is_write then
               m ← on_entry i vaddr id m;
               p ← get_proc i m;
               if pageStart (entry_at vaddr p) <? watershed m then transFromPtoD i page_addr m else Ok m
             else Ok m
           else Ok m);
      p ← get_proc i m;
      Ok (Some (entry_at page_addr p), m <| procs ::= insert i (upd_entry page_addr id p) |>)
  end.

Definition translate (i : nat) (vaddr : Z) (is_check is_write : bool) (m : Machine)
    : outcome (option Z * Machine) :=
  '(e, m) ← lookup i vaddr is_check is_write m;
  p ← get_proc i m;
  let paddr e := u64 (FuncPageTable.pageOffset p vaddr + pageStart e) in
  Ok (option_map paddr e, m).

(** [translate(RequestPtr req, bool is_write)]: [None] is a page fault. *)
Definition translate_request (i : nat) (vaddr size : Z) (is_write : bool) (m : Machine)
    : outcome (option Z * Machine) :=
  p ← get_proc i m;
  assert! FuncPageTable.pageAlign p (u64 (u64 (vaddr + size) - 1)) =? FuncPageTable.pageAlign p vaddr;
  '(paddr, m) ← translate i vaddr false is_write m;
  match paddr with
  | None => Ok (None, m)
  | Some paddr =>
      if pageSize p <? u64 (Z.land paddr (u64 (pageSize p - 1)) + size) then Err Fatal
      else Ok (Some paddr, m)
  end.

(** ** Trying it out *)

(** One process with a heap, on four pages of PCM and two of DRAM. *)
Definition small_process : Process :=
  MkProcess 100 PageBytes ∅ 0 0x10000 0x20000 0x80000 0x7f000 0x4000 0x40000 0x40000.
Definition small_machine : outcome Machine :=
  s ← small_system; Ok (MkMachine s [small_process] 0 (4 * PageBytes)).

(** A page of the heap, written at its first word or read first. *)
Example first_write_moves :
  (m ← small_machine; m ← allocateTextMem 0 0x10000 PageBytes false m;
   '(a, m) ← translate 0 0x10008 true true m; '(b, m) ← translate 0 0x10000 false true m; Ok (a, b))
  = Ok (Some 8, Some (4 * PageBytes)).
Proof. vm_compute. reflexivity. Qed.

(** A first write inside a page of DRAM stops the simulation. *)
Example first_write_in_dram :
  (m ← small_machine; m ← allocateMem 0 0x10000 PageBytes false m; translate 0 0x10008 false true m)
  = Err AssertFail.
Proof. vm_compute. reflexivity. Qed.
