(* ===== verification/PageTableLaws.v ===== *)
(** What the page tables guarantee ([PageTable]): no two pages share a frame,
    a region mapped translates to the frames it was given, and what an exchange
    of frames comes to. *)
From S2P Require Import Prelude IntMath Linked Pages PageAlloc PageTable.
Import FuncPageTable.

#[local] Open Scope Z_scope.

Implicit Types (m : Machine) (p q : Process) (s : System) (i j : nat) (v w f : Z).

(** ** Addresses *)

Definition page_aligned v : Prop := v mod PageBytes = 0.
#[export] Instance page_aligned_dec v : Decision (page_aligned v).
Proof. unfold page_aligned. apply _. Defined.

Lemma offsetMask_4k p : pageSize p = PageBytes -> offsetMask p = Z.ones PageShift.
Proof. unfold offsetMask. by intros ->. Qed.

Lemma pageOffset_mod p v : pageSize p = PageBytes -> pageOffset p v = v mod PageBytes.
Proof. intros Hp. unfold pageOffset. by rewrite offsetMask_4k, Z.land_ones by done. Qed.

Lemma pageAlign_mod p v :
  pageSize p = PageBytes -> 0 <= v < 2 ^ 64 -> pageAlign p v = v - v mod PageBytes.
Proof.
  intros Hp Hv. unfold pageAlign. rewrite offsetMask_4k by done.
  assert (E : Z.land v (u64 (Z.lnot (Z.ones PageShift))) = Z.ldiff v (Z.ones PageShift)).
  { unfold wrap. rewrite <- Z.land_ones by lia. rewrite (Z.land_comm (Z.lnot _)), Z.land_assoc.
    rewrite (Z.land_ones v) by lia. rewrite Z.mod_small by lia. by rewrite <- Z.ldiff_land. }
  rewrite E, Z.ldiff_ones_r by done. rewrite Z.shiftr_div_pow2, Z.shiftl_mul_pow2 by done.
  pose proof (Z.div_mod v (2 ^ PageShift) ltac:(done)) as H. unfold PageBytes. lia.
Qed.

Lemma aligned_page v : page_aligned (v - v mod PageBytes).
Proof.
  unfold page_aligned. pose proof (Z.div_mod v PageBytes ltac:(done)) as H.
  replace (v - v mod PageBytes) with (v / PageBytes * PageBytes) by lia.
  by apply Z_mod_mult.
Qed.

Lemma aligned_advance v i p : pageSize p = PageBytes -> page_aligned v -> page_aligned (advance v i p).
Proof.
  unfold page_aligned, advance. intros -> Hv. unfold wrap.
  rewrite Z.mod_mod_divide by (exists (2 ^ 52); done). by rewrite Z_mod_plus_full.
Qed.

Lemma rounds_4k size p : pageSize p = PageBytes -> rounds size p = Z.to_nat (divCeil size PageBytes).
Proof. unfold rounds, divCeil. by intros ->. Qed.

(** ** The frames of the pages *)

(** A page that starts at [v] is mapped to the frame [f]; a page in a [hole] does
    not count. *)
Definition maps (hole : option (nat * Z)) m i v f : Prop :=
  exists p e, procs m !! i = Some p /\ pTable p !! v = Some e /\ page_aligned v /\
    pfn e = f /\ hole <> Some (i, v).

Definition in_use s f : Prop := exists x, pages s !! Z.to_nat f = Some x /\ valid x = true.

Record frames_ok (hole : option (nat * Z)) m : Prop := {
  fo_pages : pages_ok (sys m);
  fo_shed : watershed m = pcmSize (sys m);
  fo_size i p : procs m !! i = Some p -> pageSize p = PageBytes;
  fo_used i v f : maps hole m i v f ->
    0 <= f < numPcmPages (sys m) + numDramPages (sys m) /\ in_use (sys m) f;
  fo_alone i j v w f : maps hole m i v f -> maps hole m j w f -> i = j /\ v = w
}.

(** Every frame a process has in [m'] it had in [m], at the same page. *)
Lemma frames_ok_fewer hole hole' m m' :
  frames_ok hole m -> sys m' = sys m -> watershed m' = watershed m ->
  (forall i p, procs m' !! i = Some p -> pageSize p = PageBytes) ->
  (forall i v f, maps hole' m' i v f -> maps hole m i v f) -> frames_ok hole' m'.
Proof.
  intros [P W S U A] Es Ew Hs Hm. split; rewrite ?Es, ?Ew; try done.
  - intros i v f H. by apply (U i v), Hm.
  - intros i j v w f H1 H2. by apply (A i j v w f); apply Hm.
Qed.

Lemma maps_insert hole m i p j v f :
  maps hole (m <| procs ::= insert i p |>) j v f ->
  (j = i /\ exists e, pTable p !! v = Some e /\ page_aligned v /\ pfn e = f /\ hole <> Some (i, v)) \/
  (j <> i /\ maps hole m j v f).
Proof.
  intros (q & e & Hq & He & Hv & Hf & Hh). cbn in Hq. destruct (decide (j = i)) as [->|Hne].
  - left. apply list_lookup_insert_Some in Hq as [(_ & <- & _)|[? _]]; [|done]. eauto 10.
  - right. split; [done|]. rewrite list_lookup_insert_ne in Hq by done. by exists q, e.
Qed.

Lemma procs_insert_size m i p :
  (forall i p, procs m !! i = Some p -> pageSize p = PageBytes) -> pageSize p = PageBytes ->
  forall j q, procs (m <| procs ::= insert i p |>) !! j = Some q -> pageSize q = PageBytes.
Proof.
  intros H Hp j q Hq. cbn in Hq. apply list_lookup_insert_Some in Hq as [(_ & <- & _)|[_ Hq]]; [done|].
  by apply (H j).
Qed.

(** A process whose aligned entries keep their frames. *)
Lemma frames_ok_proc hole m i p q :
  frames_ok hole m -> procs m !! i = Some p -> pageSize q = PageBytes ->
  (forall v e, page_aligned v -> hole <> Some (i, v) -> pTable q !! v = Some e ->
     exists e0, pTable p !! v = Some e0 /\ pfn e0 = pfn e) ->
  frames_ok hole (m <| procs ::= insert i q |>).
Proof.
  intros Hm Hp Hq He. apply (frames_ok_fewer hole hole m); try done.
  - apply procs_insert_size; [apply (fo_size _ _ Hm)|done].
  - intros j v f [(-> & e & Hv & Ha & Hf & Hh)|[_ H]]%maps_insert; [|done].
    destruct (He v e Ha Hh Hv) as (e0 & H0 & Hf0). exists p, e0. split_and!; try done. congruence.
Qed.

(** ** Mapping fresh frames *)

(** No page is mapped to [f]. *)
Definition unheld (hole : option (nat * Z)) m f : Prop := forall i v, ~ maps hole m i v f.

Lemma insert_fresh hole m i p v e :
  frames_ok hole m -> procs m !! i = Some p -> page_aligned v ->
  0 <= pfn e < numPcmPages (sys m) + numDramPages (sys m) -> in_use (sys m) (pfn e) ->
  unheld hole m (pfn e) ->
  let m' := m <| procs ::= insert i (p <| pTable ::= insert v e |>) |> in
  frames_ok (if decide (hole = Some (i, v)) then None else hole) m' /\
  forall f, f <> pfn e -> unheld hole m f ->
    unheld (if decide (hole = Some (i, v)) then None else hole) m' f.
Proof.
  intros Hm Hp Hv Hr Hu Hfree m'.
  assert (Hh : forall x, (if decide (hole = Some (i, v)) then None else hole) <> Some x -> x <> (i, v) -> hole <> Some x).
  { intros x. destruct (decide (hole = Some (i, v))) as [->|]; [|done]. intros _ Hx [= <-]. by apply Hx. }
  assert (Hmaps : forall j w f, maps (if decide (hole = Some (i, v)) then None else hole) m' j w f ->
     (j = i /\ w = v /\ f = pfn e) \/ maps hole m j w f).
  { intros j w f [(-> & d & Hd & Ha & Hf & Hh')|(Hne & q & d & Hq & Hd & Ha & Hf & Hh')]%maps_insert.
    - cbn in Hd. destruct (decide (w = v)) as [->|Hw].
      + rewrite lookup_insert_eq in Hd. left. by injection Hd as <-.
      + rewrite lookup_insert_ne in Hd by done. right. exists p, d. split_and!; try done.
        apply Hh; [done|congruence].
    - right. exists q, d. split_and!; try done. apply Hh; [done|congruence]. }
  split; [split; try apply Hm|].
  - apply procs_insert_size; [apply (fo_size _ _ Hm)|]. apply (fo_size _ _ Hm _ _ Hp).
  - intros j w f [(-> & -> & ->)|H]%Hmaps; [done|]. by apply (fo_used _ _ Hm j w).
  - intros j k w x f [(-> & -> & ->)|H1]%Hmaps [(-> & -> & Hf)|H2]%Hmaps; [done| |subst f|].
    + by destruct (Hfree k x).
    + by destruct (Hfree j w).
    + by apply (fo_alone _ _ Hm j k w x f).
  - intros f Hf Hun j w [(-> & -> & ->)|H]%Hmaps; [done|]. by apply (Hun j w).
Qed.

Lemma insert_proc_twice m i p q :
  m <| procs ::= insert i p |> <| procs ::= insert i q |> = m <| procs ::= insert i q |>.
Proof. cbn. by rewrite list_insert_insert_eq. Qed.

Lemma insert_proc_id m i p : procs m !! i = Some p -> m <| procs ::= insert i p |> = m.
Proof. intros Hp. cbn. rewrite list_insert_id by done. by destruct m. Qed.

Lemma insert_proc_lookup m i p q : procs m !! i = Some p -> procs (m <| procs ::= insert i q |>) !! i = Some q.
Proof. intros Hp. cbn. by rewrite list_lookup_insert_eq by (by eapply lookup_lt_Some). Qed.

Lemma new_frame asn v b k p :
  pageSize p = PageBytes -> 0 <= b -> b + Z.of_nat k < 2 ^ 31 ->
  pfn (TlbEntry_new asn v (advance (b * PageBytes) k p)) = b + Z.of_nat k.
Proof.
  intros Hp Hb Hk. cbn [pfn TlbEntry_new]. unfold advance. rewrite Hp, <- Z.mul_add_distr_r.
  unfold PageBytes, PageShift in *. rewrite wrap_small by lia.
  rewrite Z.shiftr_div_pow2 by done. by rewrite Z.div_mul.
Qed.

Lemma advance_0 v p : 0 <= v < 2 ^ 64 -> advance v 0 p = v.
Proof. intros. unfold advance. rewrite Z.mul_0_l, Z.add_0_r. by apply wrap_small. Qed.

Lemma map_fresh hole m i p v size clobber b n p' :
  frames_ok hole m -> procs m !! i = Some p -> 0 <= v < 2 ^ 64 ->
  (hole = None \/ hole = Some (i, v)) -> divCeil size PageBytes = n -> 1 <= n ->
  0 <= b -> b + n <= numPcmPages (sys m) + numDramPages (sys m) ->
  (forall f, b <= f < b + n -> in_use (sys m) f /\ unheld hole m f) ->
  map v (b * PageBytes) size clobber p = Ok p' ->
  frames_ok None (m <| procs ::= insert i p' |>).
Proof.
  intros Hm Hp Hv Hh Hn Hn1 Hb Hbn Hf E. pose proof (fo_size _ _ Hm _ _ Hp) as Hps.
  unfold map in E. destruct (pageOffset p v =? 0) eqn:Ea; [|done].
  rewrite Z.eqb_eq, pageOffset_mod in Ea by done. fold (page_aligned v) in Ea.
  pose proof (po_int _ (fo_pages _ _ Hm)) as Hint.
  rewrite (rounds_4k size p Hps), Hn in E.
  set (hole' k := if decide (k = 0%nat) then hole else None).
  set (J k q := pageSize q = PageBytes /\ frames_ok (hole' k) (m <| procs ::= insert i q |>) /\
      forall f, b + Z.of_nat k <= f < b + n -> unheld (hole' k) (m <| procs ::= insert i q |>) f).
  assert (H : J (0 + Z.to_nat n)%nat p').
  { refine (for_from_Ok J _ _ _ _ _ _ _ E).
    - intros k q q' Hk (Hq & Hok & Hun) Eq. unfold map_page in Eq. destruct (negb clobber && _); [done|].
      injection Eq as <-.
      split; [done|]. pose proof (aligned_advance v k q Hq Ea) as Hav.
      destruct (insert_fresh (hole' k) (m <| procs ::= insert i q |>) i q (advance v k q)
        (TlbEntry_new (M5_pid q) (advance v k q) (advance (b * PageBytes) k q))) as [Hok' Hun'];
        try done; rewrite ?(new_frame _ _ b k q Hq) by lia; cbn [sys set_field].
      + by eapply insert_proc_lookup.
      + lia.
      + apply Hf. lia.
      + apply Hun. lia.
      + rewrite insert_proc_twice in *.
        assert (Hstep : (if decide (hole' k = Some (i, advance v k q)) then None else hole' k) = hole' (S k)).
        { unfold hole'. destruct (decide (S k = 0%nat)); [done|]. destruct (decide (k = 0%nat)) as [->|].
          - rewrite advance_0 by done. destruct Hh as [->| ->].
            + by destruct (decide (None = Some (i, v))).
            + by rewrite decide_True.
          - by destruct (decide (None = Some (i, advance v k q))). }
        rewrite Hstep in *. split; [done|]. intros f Hfk. apply Hun'; [rewrite (new_frame _ _ b k q Hq) by lia; lia|].
        apply Hun. lia.
    - split; [done|]. rewrite insert_proc_id by done. split; [done|]. intros f Hfk. apply Hf. lia. }
  destruct H as (_ & H & _). unfold hole' in H. by destruct (decide ((0 + Z.to_nat n)%nat = 0%nat)); [lia|].
Qed.

(** ** Allocation for a process *)

Lemma in_use_taken s s' a n f :
  taken s s' a n -> 0 <= f -> in_use s f -> in_use s' f.
Proof.
  intros Ht Hf (x & Hx & Hv). unfold in_use. rewrite (Ht f Hf), Hx.
  destruct (_ && _); eexists; (split; [done|]); done.
Qed.

Lemma run_in_use s s' k n a f :
  pages_ok s -> free_run k s n a -> taken s s' (first_page k s + a) n ->
  first_page k s + a <= f < first_page k s + a + n -> in_use s' f.
Proof.
  intros Hs (Ha & Hn & Hrun) Ht Hf.
  assert (0 <= first_page k s) by (destruct k; cbn; [lia|apply Z.lt_le_incl, (po_pcm s Hs)]).
  destruct (Hrun (f - first_page k s)) as (x & Hx & _); [lia|].
  replace (first_page k s + (f - first_page k s)) with f in Hx by lia.
  unfold in_use. rewrite (Ht f) by lia. rewrite Hx, (proj2 (Z.leb_le _ _)), (proj2 (Z.ltb_lt _ _)) by lia.
  by eexists.
Qed.

Lemma free_not_used s f : free_frame s f -> in_use s f -> False.
Proof. intros (x & Hx & H1) (y & Hy & H2). rewrite Hx in Hy. injection Hy as ->. congruence. Qed.

(** A system with more frames in use. *)
Lemma frames_ok_taken hole m addr s' k n a :
  frames_ok hole m -> allocated (sys m) n addr s' k a -> 0 <= n ->
  frames_ok hole (m <| sys := s' |>) /\
  forall f, first_page k (sys m) + a <= f < first_page k (sys m) + a + n ->
    0 <= f < numPcmPages s' + numDramPages s' /\ in_use s' f /\ unheld hole (m <| sys := s' |>) f.
Proof.
  intros Hm Hal Hn. pose proof (fo_pages _ _ Hm) as Hs. pose proof (al_run _ _ _ _ _ _ Hal) as Hrun.
  assert (Hmaps : forall i v f, maps hole (m <| sys := s' |>) i v f <-> maps hole m i v f) by done.
  split; [split|].
  - apply Hal.
  - cbn. rewrite (po_size _ (al_ok _ _ _ _ _ _ Hal)), (al_pcm _ _ _ _ _ _ Hal), (fo_shed _ _ Hm). apply (po_size _ Hs).
  - apply (fo_size _ _ Hm).
  - intros i v f H. destruct (fo_used _ _ Hm i v f H) as [Hr Hu]. cbn.
    rewrite (al_pcm _ _ _ _ _ _ Hal), (al_dram _ _ _ _ _ _ Hal). split; [done|].
    eapply in_use_taken; [apply Hal|lia|done].
  - apply (fo_alone _ _ Hm).
  - intros f Hf. split; [|split].
    + rewrite (al_pcm _ _ _ _ _ _ Hal), (al_dram _ _ _ _ _ _ Hal).
      destruct Hrun as (H1 & H2 & _). pose proof (po_pcm _ Hs). pose proof (po_dram _ Hs). destruct k; cbn in *; lia.
    + eapply run_in_use; [exact Hs|exact Hrun|apply Hal|done].
    + intros i v H. destruct (fo_used _ _ Hm i v f H) as [_ Hu]. destruct Hrun as (H1 & H2 & H3).
      apply (free_not_used (sys m) f); [|done]. replace f with (first_page k (sys m) + (f - first_page k (sys m))) by lia.
      apply H3. lia.
Qed.

(** Giving the frames to a region of a process. *)
Lemma give_frames hole m addr s' k n a i v size clobber m' :
  frames_ok hole m -> allocated (sys m) n addr s' k a -> divCeil size PageBytes = n -> 1 <= n ->
  0 <= v < 2 ^ 64 -> (hole = None \/ hole = Some (i, v)) ->
  upd_proc i (map v addr size clobber) (m <| sys := s' |>) = Ok m' -> frames_ok None m'.
Proof.
  intros Hm Hal Hn Hn1 Hv Hh E. destruct (frames_ok_taken hole m addr s' k n a Hm Hal) as [Hm' Hf]; [lia|].
  unfold upd_proc, get_proc in E. run_in E. apply aget_Ok in E0.
  rewrite (al_addr _ _ _ _ _ _ Hal) in E1. fold PageBytes in E1.
  pose proof (al_run _ _ _ _ _ _ Hal) as (H1 & H2 & _). pose proof (fo_pages _ _ Hm) as Hs.
  pose proof (po_pcm _ Hs). pose proof (po_dram _ Hs).
  change (frames_ok None (m <| sys := s' |> <| procs ::= insert i r0 |>)).
  eapply (map_fresh hole (m <| sys := s' |>) i _ v size clobber (first_page k (sys m) + a) (divCeil size PageBytes)); try done; cbn [sys set_field].
  - destruct k; cbn; lia.
  - rewrite (al_pcm _ _ _ _ _ _ Hal), (al_dram _ _ _ _ _ _ Hal). destruct k; cbn in *; lia.
  - intros f Hfr. by apply Hf.
Qed.

(** No more pages than either memory has. *)
Definition fits (size : Z) m : Prop :=
  0 < size /\ divCeil size PageBytes <= numPcmPages (sys m) /\ divCeil size PageBytes <= numDramPages (sys m).

Lemma divCeil_pos size : 0 < size -> 1 <= divCeil size PageBytes.
Proof. intros. unfold divCeil. apply Z.div_le_lower_bound; [done|]. lia. Qed.

Lemma npages_int hole m size : frames_ok hole m -> fits size m -> i32 (divCeil size PageBytes) = divCeil size PageBytes.
Proof.
  intros Hm (H0 & H1 & _). pose proof (divCeil_pos size H0). pose proof (po_int _ (fo_pages _ _ Hm)).
  pose proof (po_dram _ (fo_pages _ _ Hm)). apply swrap_small; lia.
Qed.

Lemma allocateMem_ok hole m i v size clobber m' :
  frames_ok hole m -> fits size m -> 0 <= v < 2 ^ 64 -> (hole = None \/ hole = Some (i, v)) ->
  allocateMem i v size clobber m = Ok m' -> frames_ok None m'.
Proof.
  intros Hm Hfit Hv Hh E. unfold allocateMem in E. rewrite (npages_int hole m size Hm Hfit) in E.
  destruct Hfit as (H0 & H1 & H2). pose proof (divCeil_pos size H0) as Hn.
  pose proof (alloc_phys_pages_ok (sys m) (divCeil size PageBytes) (fo_pages _ _ Hm) (conj Hn H2) H1) as Ha.
  destruct (allocPhysPages _ _) as [[addr s']|]; cbn [mbind outcome_bind] in E; [|done].
  destruct Ha as (k & a & Hal & _). by eapply give_frames.
Qed.

Lemma allocateTextMem_ok hole m i v size clobber m' :
  frames_ok hole m -> fits size m -> 0 <= v < 2 ^ 64 -> (hole = None \/ hole = Some (i, v)) ->
  allocateTextMem i v size clobber m = Ok m' -> frames_ok None m'.
Proof.
  intros Hm Hfit Hv Hh E. unfold allocateTextMem in E. rewrite (npages_int hole m size Hm Hfit) in E.
  destruct Hfit as (H0 & H1 & H2). pose proof (divCeil_pos size H0) as Hn.
  pose proof (allocTextPhysPages_ok (sys m) (divCeil size PageBytes) (fo_pages _ _ Hm) (conj Hn H1)) as Ha.
  destruct (allocTextPhysPages _ _) as [[addr s']|]; cbn [mbind outcome_bind] in E; [|done].
  destruct Ha as (a & Hal). by eapply give_frames.
Qed.

(** ** Changing entries *)

Lemma upd_proc_Ok i g m m' :
  upd_proc i g m = Ok m' ->
  exists p q, procs m !! i = Some p /\ g p = Ok q /\ m' = m <| procs ::= insert i q |>.
Proof.
  unfold upd_proc, get_proc. intros E. run_in E. apply aget_Ok in E0. eauto.
Qed.

Lemma on_entry_ok hole m i v g m' :
  frames_ok hole m -> (forall e, pfn (g e) = pfn e) ->
  (page_aligned v -> forall p, procs m !! i = Some p -> is_Some (pTable p !! v)) ->
  on_entry i v g m = Ok m' ->
  frames_ok hole m' /\ exists p, procs m !! i = Some p /\ m' = m <| procs ::= insert i (upd_entry v g p) |>.
Proof.
  intros Hm Hg Hv (p & q & Hp & [= <-] & ->)%upd_proc_Ok. split; [|eauto].
  apply (frames_ok_proc hole m i p); try done; [apply (fo_size _ _ Hm _ _ Hp)|].
  intros w e Ha Hh He. cbn in He. destruct (decide (w = v)) as [->|].
  - rewrite lookup_insert_eq in He. injection He as <-. destruct (Hv Ha p Hp) as [e0 He0].
    exists e0. unfold entry_at. by rewrite He0, Hg.
  - rewrite lookup_insert_ne in He by done. by exists e.
Qed.

Lemma unmap_ok hole m i v size p p' :
  frames_ok hole m -> procs m !! i = Some p -> unmap v size p = Ok p' ->
  frames_ok hole (m <| procs ::= insert i p' |>).
Proof.
  intros Hm Hp E. unfold unmap in E. run_in E.
  set (J (k : nat) q := pageSize q = PageBytes /\ frames_ok hole (m <| procs ::= insert i q |>)).
  refine (proj2 (for_from_Ok J _ _ _ _ _ _ _ E)).
  - intros k q q' Hk [Hq Hok] Eq. unfold unmap_page in Eq. destruct (pTable q !! _); [|done].
    injection Eq as <-. split; [done|]. rewrite <- (insert_proc_twice m i q).
    apply (frames_ok_proc hole _ i q); try done; [by eapply insert_proc_lookup|].
    intros w e _ _ He. cbn in He. apply lookup_delete_Some in He as [_ He]. by exists e.
  - split; [apply (fo_size _ _ Hm _ _ Hp)|by rewrite insert_proc_id].
Qed.

(** A page moved to another address. *)
Lemma move_entry_ok m i p v w e e' t :
  frames_ok None m -> procs m !! i = Some p -> pTable p !! v = Some e -> v <> w ->
  page_aligned v -> pfn e' = pfn e ->
  (forall x, x <> w -> t !! x = if decide (x = v) then None else pTable p !! x) -> t !! w = Some e' ->
  frames_ok None (m <| procs ::= insert i (p <| pTable := t |>) |>).
Proof.
  intros Hm Hp He Hvw Hv He' Ht Hw.
  assert (Hmaps : forall j x f, maps None (m <| procs ::= insert i (p <| pTable := t |>) |>) j x f ->
     (j = i /\ x = w /\ maps None m i v f) \/ ((j, x) <> (i, w) /\ (j, x) <> (i, v) /\ maps None m j x f)).
  { intros j x f [(-> & d & Hd & Ha & Hf & _)|[Hne H]]%maps_insert.
    - cbn in Hd. destruct (decide (x = w)) as [->|Hx].
      + left. rewrite Hw in Hd. injection Hd as <-. split_and!; try done. exists p, e. split_and!; try done. congruence.
      + rewrite (Ht x Hx) in Hd. case_decide; [done|]. right. split_and!; [congruence..|]. by exists p, d.
    - right. split_and!; [congruence..|done]. }
  split; try apply Hm.
  - apply procs_insert_size; [apply (fo_size _ _ Hm)|]. apply (fo_size _ _ Hm _ _ Hp).
  - intros j x f [(_ & _ & H)|(_ & _ & H)]%Hmaps; by eapply (fo_used _ _ Hm).
  - intros j k x y f [(-> & -> & H1)|(Ha & Hb & H1)]%Hmaps [(-> & -> & H2)|(Hc & Hd & H2)]%Hmaps; [done| | |].
    + destruct (fo_alone _ _ Hm _ _ _ _ _ H1 H2) as [-> ->]. by destruct Hd.
    + destruct (fo_alone _ _ Hm _ _ _ _ _ H1 H2) as [-> ->]. by destruct Hb.
    + by apply (fo_alone _ _ Hm _ _ _ _ _ H1 H2).
Qed.

Lemma advance_inj v w k p q :
  pageSize p = PageBytes -> pageSize q = PageBytes -> 0 <= v < 2 ^ 64 -> 0 <= w < 2 ^ 64 ->
  advance v k p = advance w k q -> v = w.
Proof.
  unfold advance. intros -> -> Hv Hw. unfold wrap. intros H.
  assert (E : (v - w) mod 2 ^ 64 = 0).
  { replace (v - w) with ((v + Z.of_nat k * PageBytes) - (w + Z.of_nat k * PageBytes)) by lia.
    by rewrite Zminus_mod, H, Z.sub_diag. }
  apply Z.mod_divide in E as [c Hc]; [|done]. nia.
Qed.

Lemma remap_ok m i v size w p p' :
  frames_ok None m -> procs m !! i = Some p -> 0 <= v < 2 ^ 64 -> 0 <= w < 2 ^ 64 -> v <> w ->
  remap v size w p = Ok p' -> frames_ok None (m <| procs ::= insert i p' |>).
Proof.
  intros Hm Hp Hv Hw Hvw E. pose proof (fo_size _ _ Hm _ _ Hp) as Hps. unfold remap in E.
  destruct (pageOffset p v =? 0) eqn:Ea; [|done]. destruct (pageOffset p w =? 0) eqn:Eb; [|done].
  rewrite Z.eqb_eq, pageOffset_mod in Ea, Eb by done. fold (page_aligned v) in Ea. fold (page_aligned w) in Eb.
  set (J (k : nat) q := pageSize q = PageBytes /\ frames_ok None (m <| procs ::= insert i q |>)).
  refine (proj2 (for_from_Ok J _ _ _ _ _ _ _ E)).
  - intros k q q' Hk [Hq Hok] Eq. unfold remap_page in Eq.
    destruct (pTable q !! advance v k q) as [e|] eqn:Ee; [|done]. injection Eq as <-.
    split; [done|]. rewrite <- (insert_proc_twice m i q).
    assert (Hne : advance v k q <> advance w k q) by (intros H; by apply advance_inj in H).
    eapply (move_entry_ok _ i q (advance v k q) (advance w k q) e (updateVaddr (advance w k q) e)); try done.
    + by eapply insert_proc_lookup.
    + by apply aligned_advance.
    + intros x Hx. rewrite lookup_insert_ne by done. destruct (decide (x = advance v k q)) as [->|].
      * by rewrite lookup_delete_eq.
      * by rewrite lookup_delete_ne, lookup_insert_ne.
    + rewrite lookup_insert_eq. by rewrite lookup_delete_ne, lookup_insert_eq.
  - split; [done|by rewrite insert_proc_id].
Qed.

(** ** Moving a page *)

Lemma clear_frame m i v f s' :
  frames_ok None m -> maps None m i v f -> clearPhysPages true f (sys m) = Ok s' ->
  frames_ok (Some (i, v)) (m <| sys := s' |>) /\
  numPcmPages s' = numPcmPages (sys m) /\ numDramPages s' = numDramPages (sys m).
Proof.
  intros Hm Hf E. cbn [clearPhysPages] in E. unfold pagePtr in E.
  destruct ((0 <=? f) && (f <? num_pages true (sys m))) eqn:Er; [|done]. cbn [mbind outcome_bind first_page] in E.
  rewrite Z.add_0_l in E. unfold upd_page, get_page in E. run_in E. apply aget_Ok in E0. cbn in E0.
  destruct (fo_pages _ _ Hm) as [P D I L Z0 Lc]. split; [|done]. split; cbn.
  - split; cbn; by rewrite ?length_insert.
  - by rewrite (fo_shed _ _ Hm).
  - apply (fo_size _ _ Hm).
  - intros j w g (p & e & Hp & He & Ha & Hg & Hh). cbn in Hp.
    assert (Hmg : maps None m j w g) by (by exists p, e).
    destruct (fo_used _ _ Hm j w g Hmg) as [Hr (x & Hx & Hv)]. split; [done|].
    exists x. cbn. split; [|done]. rewrite list_lookup_insert_ne; [done|]. intros Heq.
    assert (g = f) as -> by lia. destruct (fo_alone _ _ Hm _ _ _ _ _ Hmg Hf) as [-> ->]. by destruct Hh.
  - intros j k w x g (p & e & Hp & He & Ha & Hg & _) (q & d & Hq & Hd & Hb & Hg' & _).
    apply (fo_alone _ _ Hm j k w x g); [by exists p, e|by exists q, d].
Qed.

Lemma fits_page hole m : frames_ok hole m -> fits PageBytes m.
Proof.
  intros Hm. pose proof (po_pcm _ (fo_pages _ _ Hm)). pose proof (po_dram _ (fo_pages _ _ Hm)).
  change (divCeil PageBytes PageBytes) with 1. split; [done|]. change (divCeil PageBytes PageBytes) with 1. lia.
Qed.

(** The page [v] of process [i] is mapped. *)
Definition mapped m i v : Prop := forall p, procs m !! i = Some p -> is_Some (pTable p !! v).

Lemma mapped_insert m i p v : is_Some (pTable p !! v) -> mapped (m <| procs ::= insert i p |>) i v.
Proof.
  intros Hv q Hq. cbn in Hq. apply list_lookup_insert_Some in Hq as [(_ & <- & _)|[? _]]; done.
Qed.

Lemma mapped_upd_entry m i p v w g :
  (exists e, pTable p !! v = Some e) -> mapped (m <| procs ::= insert i (upd_entry w g p) |>) i v.
Proof.
  intros [e He]. apply mapped_insert. cbn. destruct (decide (w = v)) as [->|].
  - by rewrite lookup_insert_eq.
  - by rewrite lookup_insert_ne, He.
Qed.

Lemma move_page_ok m i v m' :
  frames_ok None m -> page_aligned v -> 0 <= v < 2 ^ 64 -> mapped m i v ->
  move_page i v m = Ok m' -> frames_ok None m'.
Proof.
  intros Hm Ha Hr Hv E. unfold move_page, get_proc in E.
  destruct (aget (procs m) i) as [p|] eqn:Ep; [|done]. apply aget_Ok in Ep. cbn [mbind outcome_bind] in E.
  set (p0 := p <| numOfptod ::= Z.succ |>) in E.
  assert (H0 : frames_ok None (m <| procs ::= insert i p0 |>)).
  { apply (frames_ok_proc None m i p); try done; [apply (fo_size _ _ Hm _ _ Ep)|]. intros w e _ _ He. by exists e. }
  destruct (on_entry i v id _) as [m1|] eqn:E1; [|done]. cbn [mbind outcome_bind] in E.
  destruct (on_entry_ok None _ i v id m1 H0 ltac:(done)) as [H1 (q & Hq & Em1)]; [|done|].
  { intros _. apply mapped_insert. apply (Hv p Ep). }
  cbn in Hq. rewrite list_lookup_insert_eq in Hq by (by eapply lookup_lt_Some). injection Hq as <-.
  destruct (Hv p Ep) as [e He].
  set (p1 := upd_entry v id p0) in Em1. rewrite insert_proc_twice in Em1.
  assert (Hp1 : procs m1 !! i = Some p1) by (rewrite Em1; by eapply insert_proc_lookup).
  rewrite (aget_ok _ _ _ Hp1) in E. cbn [mbind outcome_bind] in E.
  assert (He1 : pTable p1 !! v = Some e).
  { cbn. rewrite lookup_insert_eq. unfold entry_at. cbn. by rewrite He. }
  unfold entry_at in E. rewrite He1 in E. cbn [default from_option] in E.
  change (id e) with e in E.
  assert (Hf : maps None m1 i v (pfn e)) by (by exists p1, e).
  destruct (fo_used _ _ H1 i v (pfn e) Hf) as [Hrange _].
  pose proof (po_int _ (fo_pages _ _ H1)) as Hint. pose proof (po_pcm _ (fo_pages _ _ H1)) as Hpcm.
  assert (Hstart : pageStart e = pfn e * PageBytes).
  { unfold pageStart. rewrite Z.shiftl_mul_pow2 by done. unfold PageBytes, PageShift. apply wrap_small. lia. }
  rewrite (fo_size _ _ H1 _ _ Hp1) in E. change (floorLog2_64 PageBytes) with (Ok 12 : outcome Z) in E.
  cbn [mbind outcome_bind] in E. rewrite (fo_shed _ _ H1), (po_size _ (fo_pages _ _ H1)), Hstart in E.
  destruct (Z.leb_spec (numPcmPages (sys m1) * 2 ^ PageShift) (pfn e * PageBytes)) as [|Hlt]; [done|].
  rewrite Z.shiftr_div_pow2, (Z.div_mul (pfn e)) in E by done. rewrite (swrap_small 32) in E by lia.
  destruct (clearPhysPages true (pfn e) (sys m1)) as [s'|] eqn:Ec; [|done]. cbn [mbind outcome_bind] in E.
  destruct (clear_frame m1 i v (pfn e) s' H1 Hf Ec) as [H2 _].
  destruct (on_entry i v _ (m1 <| sys := s' |>)) as [m2|] eqn:E2; [|done]. cbn [mbind outcome_bind] in E.
  destruct (on_entry_ok (Some (i, v)) _ i v (fun e => e <| te_valid := false |>) m2 H2 ltac:(done)) as [H3 _]; [|done|].
  { intros _ q' Hq'. cbn in Hq'. rewrite Hp1 in Hq'. injection Hq' as <-. by rewrite He1. }
  eapply (allocateMem_ok (Some (i, v))); [exact H3|by eapply fits_page|exact Hr|by right|exact E].
Qed.

(** The page stays mapped by everything that does not unmap it. *)
Lemma upd_proc_mapped i g m m' v :
  upd_proc i g m = Ok m' -> (forall p q, procs m !! i = Some p -> g p = Ok q -> is_Some (pTable q !! v)) ->
  mapped m' i v.
Proof. intros (p & q & Hp & Hq & ->)%upd_proc_Ok H. apply mapped_insert. by apply (H p q). Qed.

Lemma map_keeps v paddr size clobber p p' w :
  map v paddr size clobber p = Ok p' -> is_Some (pTable p !! w) -> is_Some (pTable p' !! w).
Proof.
  intros E Hw. unfold map in E. run_in E.
  refine (for_from_Ok (fun _ q => is_Some (pTable q !! w)) _ _ _ _ _ _ Hw E).
  intros k q q' _ Hq Eq. unfold map_page in Eq. destruct (negb clobber && _); [done|]. injection Eq as <-.
  cbn. destruct (decide (advance v k q = w)) as [->|]; [by rewrite lookup_insert_eq|by rewrite lookup_insert_ne].
Qed.

Lemma allocateMem_mapped i v size clobber m m' w :
  allocateMem i v size clobber m = Ok m' -> mapped m i w -> mapped m' i w.
Proof.
  unfold allocateMem. intros E Hw. destruct (allocPhysPages _ _) as [[addr s']|]; [|done].
  cbn [mbind outcome_bind] in E. eapply upd_proc_mapped; [exact E|]. intros p q Hp Hq.
  eapply map_keeps; [exact Hq|]. by apply Hw.
Qed.

Lemma on_entry_mapped i v g m m' w :
  on_entry i v g m = Ok m' -> mapped m i w \/ w = v -> mapped m' i w.
Proof.
  intros E Hw. eapply upd_proc_mapped; [exact E|]. intros p q Hp [= <-]. cbn.
  destruct (decide (v = w)) as [->|Hne]; [by rewrite lookup_insert_eq|]. rewrite lookup_insert_ne by done.
  destruct Hw as [Hw| ->]; [by apply Hw|done].
Qed.

Lemma move_page_mapped i v m m' : move_page i v m = Ok m' -> mapped m' i v.
Proof.
  unfold move_page. intros E. run_in E. eapply allocateMem_mapped; [exact E|].
  eapply on_entry_mapped; [eassumption|by right].
Qed.

Lemma transFromPtoD_ok m i v m' :
  frames_ok None m -> page_aligned v -> 0 <= v < 2 ^ 64 -> mapped m i v ->
  transFromPtoD i v m = Ok m' -> frames_ok None m'.
Proof.
  intros Hm Ha Hr Hv E. unfold transFromPtoD, get_proc in E.
  destruct (aget (procs m) i) as [p|] eqn:Ep; [|done]. cbn [mbind outcome_bind] in E.
  destruct (in_moved_region v p); [|by injection E as <-].
  destruct (11 <? move_flag m); cbn [mbind outcome_bind] in E.
  - apply on_entry_ok with (hole := None) in E as [H _]; try done.
    by apply (frames_ok_fewer None None m); try done; apply (fo_size _ _ Hm).
  - destruct (move_page i v _) as [m1|] eqn:E1; [|done]. cbn [mbind outcome_bind] in E.
    apply on_entry_ok with (hole := None) in E as [H _]; try done.
    + eapply move_page_ok; [|exact Ha|exact Hr| |exact E1]; [|exact Hv].
      by apply (frames_ok_fewer None None m); try done; apply (fo_size _ _ Hm).
    + intros _. by eapply move_page_mapped.
Qed.

Lemma transFromPtoD_mapped i v m m' : mapped m i v -> transFromPtoD i v m = Ok m' -> mapped m' i v.
Proof.
  intros Hv E. unfold transFromPtoD in E. destruct (get_proc i m); [|done]. cbn [mbind outcome_bind] in E.
  destruct (in_moved_region _ _); [|by injection E as <-].
  destruct (if 11 <? move_flag m then _ else _); [|done]. cbn [mbind outcome_bind] in E.
  eapply on_entry_mapped; [exact E|by right].
Qed.

(** ** Translation and the stack *)

Lemma pageAlign_range p v : pageSize p = PageBytes -> 0 <= v < 2 ^ 64 ->
  page_aligned (pageAlign p v) /\ 0 <= pageAlign p v < 2 ^ 64.
Proof.
  intros Hp Hv. rewrite pageAlign_mod by done. split; [apply aligned_page|].
  pose proof (Z.mod_pos_bound v PageBytes ltac:(done)). pose proof (Z.mod_le v PageBytes ltac:(lia) ltac:(done)). lia.
Qed.

Lemma first_write_ok m i v w m' :
  frames_ok None m -> 0 <= v < 2 ^ 64 -> page_aligned w -> 0 <= w < 2 ^ 64 -> mapped m i w ->
  (page_aligned v -> v = w) ->
  (m ← on_entry i v id m;
   p ← get_proc i m;
   if pageStart (entry_at v p) <? watershed m then transFromPtoD i w m else Ok m) = Ok m' ->
  frames_ok None m' /\ mapped m' i w.
Proof.
  intros Hm Hv Ha Hw Hmap Hvw E. destruct (on_entry i v id m) as [m1|] eqn:E1; [|done]. cbn [mbind outcome_bind] in E.
  assert (Hmap1 : mapped m1 i w) by (eapply on_entry_mapped; [exact E1|by left]).
  apply on_entry_ok with (hole := None) in E1 as [H1 _]; [|done|done|].
  2: { intros Hva. by rewrite (Hvw Hva). }
  destruct (get_proc i m1); [|done]. cbn [mbind outcome_bind] in E.
  destruct (_ <? _); [|by injection E as <-]. split.
  - by eapply transFromPtoD_ok.
  - by eapply transFromPtoD_mapped.
Qed.

Lemma lookup_ok_frames m i v check write o m' :
  frames_ok None m -> 0 <= v < 2 ^ 64 -> lookup i v check write m = Ok (o, m') -> frames_ok None m'.
Proof.
  intros Hm Hv E. unfold lookup in E.
  destruct (get_proc i m) as [p|] eqn:Ep; [|done]. apply aget_Ok in Ep. cbn [mbind outcome_bind] in E.
  destruct (pageAlign_range p v (fo_size _ _ Hm _ _ Ep) Hv) as [Ha Hr].
  set (w := pageAlign p v) in *. destruct (pTable p !! w) as [e|] eqn:Ee; [|by injection E as _ <-].
  assert (Hmap : mapped m i w) by (intros q Hq; rewrite Ep in Hq; injection Hq as <-; by rewrite Ee).
  assert (Hvw : page_aligned v -> v = w).
  { intros Hva. unfold w. rewrite pageAlign_mod by (done || apply (fo_size _ _ Hm _ _ Ep)). rewrite Hva. lia. }
  destruct (if check then Ok m else _) as [m1|] eqn:E1; [|done]. cbn [mbind outcome_bind] in E.
  assert (H1 : frames_ok None m1 /\ mapped m1 i w).
  { destruct check; [by injection E1 as <-|].
    destruct (isFirstAccess e); [|by injection E1 as <-].
    destruct (on_entry i w _ m) as [m2|] eqn:E2; [|done]. cbn [mbind outcome_bind] in E1.
    assert (Hmap2 : mapped m2 i w) by (eapply on_entry_mapped; [exact E2|by left]).
    apply on_entry_ok with (hole := None) in E2 as [H2 _]; [|done|done|by intros _].
    destruct write; [|by injection E1 as <-]. exact (first_write_ok m2 i v w m1 H2 Hv Ha Hr Hmap2 Hvw E1). }
  destruct H1 as [H1 Hmap1]. destruct (get_proc i m1) as [q|] eqn:Eq; [|done].
  apply aget_Ok in Eq. cbn [mbind outcome_bind] in E. injection E as _ <-.
  destruct (on_entry_ok None m1 i w id (m1 <| procs ::= insert i (upd_entry w id q) |>) H1) as [H _]; [done|done| |exact H].
  unfold on_entry, upd_proc, get_proc. by rewrite (aget_ok _ _ _ Eq).
Qed.

Lemma translate_ok_frames m i v check write a m' :
  frames_ok None m -> 0 <= v < 2 ^ 64 -> translate i v check write m = Ok (a, m') -> frames_ok None m'.
Proof.
  intros Hm Hv E. unfold translate in E. destruct (lookup i v check write m) as [[o m1]|] eqn:E1; [|done].
  cbn [mbind outcome_bind] in E. destruct (get_proc i m1); [|done]. cbn [mbind outcome_bind] in E.
  injection E as _ <-. by eapply lookup_ok_frames.
Qed.

Lemma grow_stack_ok fuel : forall m i v m',
  frames_ok None m -> grow_stack fuel i v m = Ok m' -> frames_ok None m'.
Proof.
  induction fuel as [|fuel IH]; intros m i v m' Hm E; cbn [grow_stack] in E; unfold get_proc in E;
    (destruct (aget (procs m) i) as [p|] eqn:Ep; [|done]); apply aget_Ok in Ep; cbn [mbind outcome_bind] in E;
    (destruct (v <? stack_min p); [|by injection E as <-]); [done|].
  destruct (_ <? _); [done|]. destruct (allocateTextMem i _ _ _ _) as [m1|] eqn:E1; [|done].
  cbn [mbind outcome_bind] in E. apply (IH m1 i v m'); [|done].
  assert (H0 : frames_ok None (m <| procs ::= insert i (p <| stack_min := u64 (stack_min p - PageBytes) |>) |>)).
  { apply (frames_ok_proc None m i p); try done; [apply (fo_size _ _ Hm _ _ Ep)|]. intros w e _ _ He. by exists e. }
  eapply (allocateTextMem_ok None); [exact H0|by eapply fits_page| |by left|exact E1]. by apply wrap_range.
Qed.

Lemma fixupStackFault_ok m i v b m' :
  frames_ok None m -> 0 <= v < 2 ^ 64 -> fixupStackFault i v m = Ok (b, m') -> frames_ok None m'.
Proof.
  intros Hm Hv E. unfold fixupStackFault in E. destruct (get_proc i m) as [p|]; [|done]. cbn [mbind outcome_bind] in E.
  destruct (_ && _).
  - destruct (allocateTextMem _ _ _ _ _) as [m1|] eqn:E1; [|done]. injection E as _ <-.
    eapply (allocateTextMem_ok None); [exact Hm|by eapply fits_page| |by left|exact E1].
    unfold roundDown. split; [apply Z.land_nonneg; left; lia|].
    destruct (Z.eq_dec (Z.land v (wrap 64 (Z.lnot (wrap 64 (PageBytes - 1))))) 0) as [->|]; [lia|].
    apply Z.log2_lt_cancel. change (Z.log2 (2 ^ 64)) with 64.
    eapply Z.le_lt_trans; [apply Z.log2_land|]; [lia|by apply wrap_range|].
    apply Z.min_lt_iff. left. destruct (Z.eq_dec v 0) as [->|]; [done|]. apply Z.log2_lt_pow2; lia.
  - destruct (_ && _).
    + destruct (grow_stack _ _ _ _) as [m1|] eqn:E1; [|done]. injection E as _ <-. by eapply grow_stack_ok.
    + by injection E as _ <-.
Qed.

(** ** Runs *)

(** What the simulated system does with its memory: regions are mapped from the
    DRAM or from the PCM, unmapped, moved to another address, the stack grows,
    and addresses are translated. *)
Inductive os_step m : Machine -> Prop :=
| os_allocate i v size clobber m' :
    0 <= v < 2 ^ 64 -> fits size m -> allocateMem i v size clobber m = Ok m' -> os_step m m'
| os_allocate_text i v size clobber m' :
    0 <= v < 2 ^ 64 -> fits size m -> allocateTextMem i v size clobber m = Ok m' -> os_step m m'
| os_unmap i v size m' : upd_proc i (unmap v size) m = Ok m' -> os_step m m'
| os_remap i v size w m' :
    0 <= v < 2 ^ 64 -> 0 <= w < 2 ^ 64 -> v <> w -> upd_proc i (remap v size w) m = Ok m' -> os_step m m'
| os_stack i v b m' : 0 <= v < 2 ^ 64 -> fixupStackFault i v m = Ok (b, m') -> os_step m m'
| os_translate i v check write a m' :
    0 <= v < 2 ^ 64 -> translate i v check write m = Ok (a, m') -> os_step m m'.

Lemma os_step_ok m m' : frames_ok None m -> os_step m m' -> frames_ok None m'.
Proof.
  intros Hm [i v size c n Hv Hf E|i v size c n Hv Hf E|i v size n E|i v size w n Hv Hw Hne E|i v b n Hv E|i v c w a n Hv E].
  - eapply allocateMem_ok; [exact Hm|exact Hf|exact Hv|by left|exact E].
  - eapply allocateTextMem_ok; [exact Hm|exact Hf|exact Hv|by left|exact E].
  - apply upd_proc_Ok in E as (p & q & Hp & Hq & ->). by eapply unmap_ok.
  - apply upd_proc_Ok in E as (p & q & Hp & Hq & ->). exact (remap_ok _ _ _ _ _ _ _ Hm Hp Hv Hw Hne Hq).
  - by eapply fixupStackFault_ok.
  - by eapply translate_ok_frames.
Qed.

(** A machine whose processes have nothing mapped. *)
Lemma fresh_frames_ok m :
  pages_ok (sys m) -> watershed m = pcmSize (sys m) ->
  (forall p, p ∈ procs m -> pageSize p = PageBytes /\ pTable p = ∅) -> frames_ok None m.
Proof.
  intros Hs Hw Hp. split; try done.
  - intros i p Hi. by apply Hp, (list_elem_of_lookup_2 _ i).
  - intros i v f (p & e & Hi & He & _). apply list_elem_of_lookup_2, Hp in Hi as [_ Hi]. by rewrite Hi in He.
  - intros i j v w f (p & e & Hi & He & _). apply list_elem_of_lookup_2, Hp in Hi as [_ Hi]. by rewrite Hi in He.
Qed.


(** A small machine, and what its process does: maps a page, writes to it. *)
Definition fresh_machine : Machine := MkMachine fresh_system [small_process] 0 (4 * PageBytes).
Definition mapped_machine : Machine := Eval vm_compute in
  match allocateTextMem 0 0x10000 PageBytes false fresh_machine with Ok m => m | Err _ => fresh_machine end.
Definition written_machine : Machine := Eval vm_compute in
  match translate 0 0x10000 false true mapped_machine with Ok (_, m) => m | Err _ => fresh_machine end.

Lemma fresh_machine_ok : frames_ok None fresh_machine.
Proof.
  apply fresh_frames_ok; [apply fresh_pages_ok|done|]. intros p Hp%list_elem_of_singleton. by subst.
Qed.


(** ** Translations of a region *)

(** The addresses of the pages of a region of [n] pages. *)
Definition in_region v n w : Prop := v <= w < v + n * PageBytes /\ page_aligned w.
#[export] Instance in_region_dec v n w : Decision (in_region v n w).
Proof. unfold in_region. apply _. Defined.

Lemma map_table v paddr size clobber p p' n :
  pageSize p = PageBytes -> divCeil size PageBytes = n -> 0 <= n -> 0 <= v -> v + n * PageBytes <= 2 ^ 64 ->
  0 <= paddr -> paddr + n * PageBytes <= 2 ^ 64 ->
  map v paddr size clobber p = Ok p' ->
  page_aligned v /\ pageSize p' = PageBytes /\
  forall w, pTable p' !! w = if decide (in_region v n w)
    then Some (TlbEntry_new (M5_pid p) w (paddr + (w - v))) else pTable p !! w.
Proof.
  intros Hp Hn Hn0 Hv Hvn Hpa Hpn E. unfold map in E.
  destruct (pageOffset p v =? 0) eqn:Ea; [|done]. rewrite Z.eqb_eq, pageOffset_mod in Ea by done.
  fold (page_aligned v) in Ea. split; [done|]. rewrite (rounds_4k size p Hp), Hn in E.
  set (J (k : nat) q := pageSize q = PageBytes /\ M5_pid q = M5_pid p /\
    forall w, pTable q !! w = if decide (in_region v (Z.of_nat k) w)
      then Some (TlbEntry_new (M5_pid p) w (paddr + (w - v))) else pTable p !! w).
  assert (H : J (0 + Z.to_nat n)%nat p').
  { refine (for_from_Ok J _ _ _ _ _ _ _ E).
    - intros k q q' Hk (Hq & Hid & Ht) Eq. unfold map_page in Eq. destruct (negb clobber && _); [done|].
      injection Eq as <-. split; [done|]. split; [done|]. intros w. cbn [pTable set_field].
      assert (Hav : advance v k q = v + Z.of_nat k * PageBytes).
      { unfold advance. rewrite Hq. unfold PageBytes, PageShift in *. apply wrap_small. lia. }
      assert (Hap : advance paddr k q = paddr + Z.of_nat k * PageBytes).
      { unfold advance. rewrite Hq. unfold PageBytes, PageShift in *. apply wrap_small. lia. }
      rewrite Hav, Hap, Hid. destruct (decide (w = v + Z.of_nat k * PageBytes)) as [->|Hw].
      + rewrite lookup_insert_eq, decide_True; [do 3 f_equal; lia|].
        unfold in_region, page_aligned. rewrite Z_mod_plus_full. unfold PageBytes, PageShift in *. split; [lia|done].
      + rewrite lookup_insert_ne, Ht by done. apply decide_ext. unfold in_region.
        split; intros [Hr Haw]; (split; [|done]); unfold PageBytes, PageShift in *; [lia|].
        assert (w < v + Z.of_nat k * 2 ^ 12 \/ v + Z.of_nat k * 2 ^ 12 < w) as [|Hlt] by lia; [lia|exfalso].
        unfold page_aligned, PageBytes, PageShift in *.
        apply Z.mod_divide in Haw as [c ->]; [|done]. apply Z.mod_divide in Ea as [d ->]; [|done]. lia.
    - split; [done|]. split; [done|]. intros w. rewrite decide_False; [done|]. unfold in_region. lia. }
  destruct H as (H1 & _ & Ht). split; [done|]. intros w. rewrite Ht. rewrite Nat.add_0_l, Z2Nat.id by lia. done.
Qed.

Lemma upd_entry_id v p e : pTable p !! v = Some e -> upd_entry v id p = p.
Proof.
  intros He. unfold upd_entry, entry_at. cbn. rewrite He. cbn. rewrite insert_id by done. by destruct p.
Qed.

(** A translation that only looks. *)
Lemma check_translates m i p v write :
  procs m !! i = Some p -> pageSize p = PageBytes -> 0 <= v < 2 ^ 64 ->
  translate i v true write m =
    Ok (match pTable p !! (v - v mod PageBytes) with
        | Some e => Some (u64 (v mod PageBytes + pageStart e)) | None => None end, m).
Proof.
  intros Hp Hs Hv. unfold translate, lookup, get_proc. rewrite (aget_ok _ _ _ Hp). cbn [mbind outcome_bind].
  rewrite pageAlign_mod by done. destruct (pTable p !! _) as [e|] eqn:Ee; cbn [mbind outcome_bind].
  - rewrite (aget_ok _ _ _ Hp). cbn [mbind outcome_bind].
    rewrite (upd_entry_id _ _ _ Ee), insert_proc_id by done. rewrite (aget_ok _ _ _ Hp).
    cbn [mbind outcome_bind]. unfold entry_at. rewrite Ee. cbn. by rewrite pageOffset_mod.
  - rewrite (aget_ok _ _ _ Hp). done.
Qed.

Lemma page_of_region v n x : page_aligned v -> 0 <= v -> v <= x < v + n * PageBytes ->
  in_region v n (x - x mod PageBytes).
Proof.
  intros Ha Hv Hx. split; [|apply aligned_page]. unfold page_aligned, PageBytes, PageShift in *.
  apply Z.mod_divide in Ha as [c ->]; [|done].
  pose proof (Z.mod_pos_bound x (2 ^ 12) ltac:(done)). pose proof (Z.div_mod x (2 ^ 12) ltac:(done)). lia.
Qed.



(** ** Exchanging frames *)

Section exchange.
Context `{HashOrder}.
Implicit Types (t : gmap Z TlbEntry) (vs : list Z) (a b : Z).

Lemma change_hit a b t v e flag : t !! v = Some e -> pfn e = a ->
  change_entry v a b (flag, t) = Ok (u8 (flag - 1), <[v := updatePfn b e]> t).
Proof. intros He Ha. unfold change_entry, pageNumber. by rewrite He, Ha, Z.eqb_refl. Qed.
Lemma change_pass a b t v e flag : t !! v = Some e -> pfn e <> a ->
  change_entry v a b (flag, t) = Ok (flag, t).
Proof. intros He Ha. unfold change_entry, pageNumber. by rewrite He, (proj2 (Z.eqb_neq _ _) Ha). Qed.

(** Entries that hold neither frame are passed over. *)
Lemma change_from_skip a b exchange vs rest flag t :
  flag <> 0 ->
  (forall v, v ∈ vs -> exists e, t !! v = Some e /\ pfn e <> a /\ (exchange = true -> pfn e <> b)) ->
  change_from a b exchange (vs ++ rest) (flag, t) = change_from a b exchange rest (flag, t).
Proof.
  intros Hf. induction vs as [|v vs IH]; intros Hvs; [done|]. cbn [app change_from].
  destruct (Hvs v) as (e & He & Ha & Hb); [set_solver|]. rewrite (change_pass a b t v e) by done.
  cbn [mbind outcome_bind fst]. rewrite (proj2 (Z.eqb_neq _ _) Hf). destruct exchange.
  - rewrite (change_pass b a t v e) by auto. cbn [mbind outcome_bind fst].
    rewrite (proj2 (Z.eqb_neq _ _) Hf). apply IH. set_solver.
  - cbn [mbind outcome_bind fst]. rewrite (proj2 (Z.eqb_neq _ _) Hf). apply IH. set_solver.
Qed.

(** The entry with the frame [a]. *)
Definition only_holder t a v e : Prop := t !! v = Some e /\ pfn e = a /\
  forall w d, t !! w = Some d -> pfn d = a -> w = v.

Lemma updatePfn_id a e : pfn e = a -> updatePfn a e = e.
Proof. intros <-. by destruct e. Qed.

(** The entry of [a] comes first: it is changed twice. *)
Lemma exchange_undone a b t v e vs : t !! v = Some e -> pfn e = a ->
  change_from a b true (v :: vs) (2, t) = Ok (0, t).
Proof.
  intros He Ha. cbn [change_from]. rewrite (change_hit a b t v e) by done. cbn [mbind outcome_bind fst].
  change (u8 (2 - 1)) with 1. cbn [Z.eqb].
  rewrite (change_hit b a _ v (updatePfn b e)) by (done || apply lookup_insert_eq). cbn [mbind outcome_bind fst].
  change (u8 (1 - 1)) with 0. cbn [Z.eqb]. rewrite insert_insert_eq. do 2 f_equal.
  apply insert_id. by rewrite He, <- Ha; destruct e.
Qed.

(** The entry of [b] comes first. *)
Lemma exchange_done a b t v w e d vs ws : a <> b -> v <> w ->
  t !! v = Some e -> pfn e = a -> t !! w = Some d -> pfn d = b -> v ∉ vs ->
  (forall x, x ∈ vs -> exists c, t !! x = Some c /\ pfn c <> a /\ pfn c <> b) ->
  change_from a b true (w :: vs ++ v :: ws) (2, t) =
    Ok (0, <[v := updatePfn b e]> (<[w := updatePfn a d]> t)).
Proof.
  intros Hab Hvw He Ha Hd Hb Hv Hvs. cbn [change_from].
  rewrite (change_pass a b t w d) by congruence. cbn [mbind outcome_bind fst]. cbn [Z.eqb].
  rewrite (change_hit b a t w d) by done. cbn [mbind outcome_bind fst]. change (u8 (2 - 1)) with 1. cbn [Z.eqb].
  rewrite change_from_skip; [|done|].
  - cbn [change_from]. rewrite (change_hit a b _ v e) by (done || by rewrite lookup_insert_ne).
    cbn [mbind outcome_bind fst]. by change (u8 (1 - 1)) with 0.
  - intros x Hx. destruct (Hvs x Hx) as (c & Hc & Hca & Hcb). exists c.
    rewrite lookup_insert_ne; [done|]. intros ->. congruence.
Qed.
End exchange.

Lemma visit_spec `{HashOrderLaws} (t : gmap Z TlbEntry) :
  NoDup (visit t) /\ forall v, v ∈ visit t <-> is_Some (t !! v).
Proof.
  pose proof (visit_keys t) as Hp. split; [rewrite Hp; apply NoDup_fst_map_to_list|].
  intros v. rewrite Hp, list_elem_of_fmap. split.
  - intros ([w e] & -> & He%elem_of_map_to_list). by eexists.
  - intros [e He]. exists (v, e). split; [done|]. by apply elem_of_map_to_list.
Qed.

(** [v] before [w]. *)
Definition comes_before (v w : Z) (vs : list Z) : bool :=
  match index_of v vs, index_of w vs with Some i, Some j => (i <? j)%nat | _, _ => false end.

(** C17. [changePhyNumber] with one page table entry for each frame.  Asked to
    put [b] for [a] it does exactly that.  Asked to exchange the two it succeeds
    in any case, but it exchanges them only if the iterator meets the page of [b]
    first: if it meets the page of [a] first, the entry just changed to [b] is
    taken for the page of [b] and changed back, and nothing happens. *)
Theorem exchange_depends_on_order `{HashOrderLaws} (p : Process) (a b v w : Z) (e d : TlbEntry) :
  a <> b -> only_holder (pTable p) a v e -> only_holder (pTable p) b w d ->
  changePhyNumber a b false p = Ok (p <| pTable ::= insert v (updatePfn b e) |>) /\
  changePhyNumber a b true p =
    Ok (p <| pTable := if comes_before w v (visit (pTable p))
                       then <[v := updatePfn b e]> (<[w := updatePfn a d]> (pTable p)) else pTable p |>).
Proof.
  intros Hab (He & Ha & Hae) (Hd & Hb & Hbd). set (t := pTable p) in *.
  destruct (visit_spec t) as [Hnd Hin]. assert (Hvw : v <> w) by congruence.
  assert (Hother : forall x, is_Some (t !! x) -> x <> v -> exists c, t !! x = Some c /\ pfn c <> a /\ (x <> w -> pfn c <> b)).
  { intros x [c Hc] Hx. exists c. split; [done|]. split; [by intros Hca; apply Hx, (Hae x c)|].
    intros Hw Hcb. by apply Hw, (Hbd x c). }
  split.
  - assert (v ∈ visit t) as (vs & ws & Ev)%list_elem_of_split by (apply Hin; by exists e).
    rewrite Ev in Hnd. apply NoDup_app in Hnd as (_ & Hdis & _).
    unfold changePhyNumber. fold t. rewrite Ev. rewrite change_from_skip; [|done|].
    + cbn [change_from]. rewrite (change_hit a b t v e) by done. done.
    + intros x Hx. destruct (Hother x) as (c & Hc & Hca & _).
      * apply Hin. rewrite Ev. set_solver.
      * intros ->. apply (Hdis v Hx). set_solver.
      * by exists c.
  - assert (Hv : exists i, index_of v (visit t) = Some i) by (apply index_of_elem, Hin; by exists e).
    assert (Hw : exists j, index_of w (visit t) = Some j) by (apply index_of_elem, Hin; by exists d).
    destruct Hv as [i Hi], Hw as [j Hj]. unfold comes_before. rewrite Hi, Hj.
    assert (Hskip : forall vs : list Z, (forall x, x ∈ vs -> x ∈ visit t) -> v ∉ vs -> w ∉ vs ->
      forall x, x ∈ vs -> exists c, t !! x = Some c /\ pfn c <> a /\ pfn c <> b).
    { intros vs Hvs Hv Hw x Hx. destruct (Hother x) as (c & Hc & Hca & Hcb); [by apply Hin, Hvs|set_solver|].
      exists c. split_and!; [done..|]. apply Hcb. set_solver. }
    unfold changePhyNumber. fold t.
    destruct (Nat.ltb_spec j i) as [Hlt|Hge].
    + destruct (index_of_split v _ j i Hi) as (vs & us & ws & Ev & Hl & _ & Hv1 & Hv2); [lia|].
      pose proof (index_of_lookup _ _ _ Hj) as Hjw. rewrite Ev in Hjw. rewrite lookup_app_r in Hjw by lia.
      rewrite Hl, Nat.sub_diag in Hjw. destruct us as [|w' us]; [cbn in Hjw; congruence|].
      cbn in Hjw. injection Hjw as ->. rewrite Ev. rewrite Ev in Hnd.
      apply NoDup_app in Hnd as (_ & Hdis & Hnd). cbn [app] in Hnd. apply NoDup_cons in Hnd as [Hw2 _].
      assert (Hwvs : w ∉ vs) by (intros Hx; apply (Hdis w Hx); set_unfold; auto).
      assert (Hvu : v ∉ us) by (intros Hx; apply Hv2; by constructor).
      assert (Hwu : w ∉ us) by (intros Hx; apply Hw2, elem_of_app; auto).
      rewrite change_from_skip; [|done|].
      * cbn [app]. rewrite (exchange_done a b t v w e d us ws Hab Hvw He Ha Hd Hb Hvu); [done|].
        apply Hskip; [|done..]. intros x Hx. rewrite Ev. set_unfold. auto.
      * intros x Hx. destruct (Hskip vs) with (x := x) as (c & Hc & Hca & Hcb); [|done..|by exists c].
        intros y Hy. rewrite Ev. set_unfold. auto.
    + assert (Hne : i <> j).
      { intros ->. apply index_of_lookup in Hi, Hj. congruence. }
      destruct (index_of_split w _ i j Hj) as (vs & us & ws & Ev & Hl & _ & Hw1 & _); [lia|].
      pose proof (index_of_lookup _ _ _ Hi) as Hiv. rewrite Ev in Hiv. rewrite lookup_app_r in Hiv by lia.
      rewrite Hl, Nat.sub_diag in Hiv. destruct us as [|v' us]; [cbn in Hiv; congruence|].
      cbn in Hiv. injection Hiv as ->. rewrite Ev. rewrite Ev in Hnd.
      apply NoDup_app in Hnd as (_ & Hdis & _).
      rewrite change_from_skip; [|done|].
      * cbn [app]. by rewrite (exchange_undone a b t v e).
      * intros x Hx. destruct (Hskip vs) with (x := x) as (c & Hc & Hca & Hcb); [| |done..|by exists c].
        -- intros y Hy. rewrite Ev. set_unfold. auto.
        -- intros Hv. apply (Hdis v Hv). set_unfold. auto.
Qed.

(** Two orders a container may have. *)
Definition key_order : HashOrder := fun t => (map_to_list t).*1.
Definition reverse_order : HashOrder := fun t => reverse (map_to_list t).*1.
Lemma key_order_laws : @HashOrderLaws key_order.
Proof. by intros t. Qed.
Lemma reverse_order_laws : @HashOrderLaws reverse_order.
Proof. intros t. unfold visit, reverse_order. apply reverse_Permutation. Qed.

Definition two_pages : Process := small_process <| pTable :=
  {[ 0x10000 := TlbEntry_new 100 0x10000 0x1000; 0x11000 := TlbEntry_new 100 0x11000 0x5000 ]} |>.
Definition frames_of (p : Process) : option (Z * Z) :=
  e ← pTable p !! 0x10000; d ← pTable p !! 0x11000; Some (pfn e, pfn d).

(** The same table is exchanged under one order and not under the other. *)
Example exchange_or_not :
  (frames_of <$> @changePhyNumber key_order 1 5 true two_pages,
   frames_of <$> @changePhyNumber reverse_order 1 5 true two_pages)
  = (Ok (Some (5, 1)), Ok (Some (1, 5))).
Proof. vm_compute. reflexivity. Qed.

Lemma two_pages_holders :
  only_holder (pTable two_pages) 1 0x10000 (TlbEntry_new 100 0x10000 0x1000) /\
  only_holder (pTable two_pages) 5 0x11000 (TlbEntry_new 100 0x11000 0x5000).
Proof.
  split; (split; [done|split; [done|]]); intros x d Hd Hp; cbn [two_pages pTable set_field] in Hd;
    apply lookup_insert_Some in Hd as [[<- <-]|[_ Hd]]; try done;
    apply lookup_singleton_Some in Hd as [<- <-]; try done.
Qed.

Lemma exchange_depends_on_order_witness :
  @changePhyNumber key_order 1 5 true two_pages =
    Ok (two_pages <| pTable := if comes_before 0x11000 0x10000 (@visit key_order (pTable two_pages))
      then <[0x10000 := updatePfn 5 (TlbEntry_new 100 0x10000 0x1000)]>
             (<[0x11000 := updatePfn 1 (TlbEntry_new 100 0x11000 0x5000)]> (pTable two_pages))
      else pTable two_pages |>).
Proof.
  apply (@exchange_depends_on_order key_order key_order_laws two_pages 1 5 0x10000 0x11000); [done|apply two_pages_holders..].
Defined.

(** ** The first write to a page *)

Lemma on_entry_run m i p v g : procs m !! i = Some p ->
  on_entry i v g m = Ok (m <| procs ::= insert i (upd_entry v g p) |>).
Proof. intros Hp. unfold on_entry, upd_proc, get_proc. by rewrite (aget_ok _ _ _ Hp). Qed.
Lemma get_proc_run m i p : procs m !! i = Some p -> get_proc i m = Ok p.
Proof. apply aget_ok. Qed.

Lemma map_one v paddr p : pageSize p = PageBytes -> page_aligned v -> 0 <= v < 2 ^ 64 -> 0 <= paddr < 2 ^ 64 ->
  (forall e, pTable p !! v = Some e -> te_valid e = false) ->
  map v paddr PageBytes false p = Ok (p <| pTable ::= insert v (TlbEntry_new (M5_pid p) v paddr) |>).
Proof.
  intros Hp Ha Hv Hpa He. unfold map. rewrite pageOffset_mod by done. unfold page_aligned in Ha. rewrite Ha. cbn [Z.eqb].
  rewrite rounds_4k by done. change (Z.to_nat (divCeil PageBytes PageBytes)) with 1%nat. cbn [for_from].
  unfold map_page. rewrite !advance_0 by done. destruct (pTable p !! v) as [e|] eqn:E; [rewrite (He e eq_refl)|]; done.
Qed.

Lemma pageStart_ok e : 0 <= pfn e < 2 ^ 31 -> pageStart e = pfn e * PageBytes.
Proof.
  intros H. unfold pageStart. rewrite Z.shiftl_mul_pow2 by done. unfold PageBytes, PageShift.
  apply wrap_small. lia.
Qed.

(** What [move_page] comes to for a page in PCM. *)
Lemma move_page_run m i p v e s1 addr s2 :
  procs m !! i = Some p -> pTable p !! v = Some e -> pageSize p = PageBytes ->
  page_aligned v -> 0 <= v < 2 ^ 64 -> 0 <= pfn e < 2 ^ 31 -> pageStart e < watershed m -> 0 <= addr < 2 ^ 64 ->
  clearPhysPages true (pfn e) (sys m) = Ok s1 -> allocPhysPages 1 s1 = Ok (addr, s2) ->
  move_page i v m = Ok (m <| sys := s2 |> <| procs ::= insert i
    (p <| numOfptod ::= Z.succ |> <| pTable ::= insert v (TlbEntry_new (M5_pid p) v addr) |>) |>).
Proof.
  intros Hp He Hs Ha Hv Hf Hw Haddr Hc Hal. unfold move_page. rewrite (get_proc_run _ _ _ Hp). cbn [mbind outcome_bind].
  set (p0 := p <| numOfptod ::= Z.succ |>).
  assert (Hp0 : procs (m <| procs ::= insert i p0 |>) !! i = Some p0) by (by eapply insert_proc_lookup).
  rewrite (on_entry_run _ _ _ _ _ Hp0). cbn [mbind outcome_bind]. rewrite insert_proc_twice.
  rewrite (upd_entry_id v p0 e) by done. rewrite (get_proc_run _ _ _ Hp0). cbn [mbind outcome_bind].
  change (pageSize p0) with (pageSize p). rewrite Hs. change (floorLog2_64 PageBytes) with (Ok 12 : outcome Z).
  cbn [mbind outcome_bind]. replace (entry_at v p0) with e by (unfold entry_at; cbn; by rewrite He).
  cbn [watershed set_field sys]. rewrite (proj2 (Z.leb_gt _ _) Hw).
  rewrite pageStart_ok by done. rewrite Z.shiftr_div_pow2, (Z.div_mul (pfn e)) by done.
  rewrite swrap_small by lia. rewrite Hc. cbn [mbind outcome_bind].
  rewrite (on_entry_run _ i p0) by (by eapply insert_proc_lookup). cbn [mbind outcome_bind].
  unfold allocateMem. change (i32 (divCeil PageBytes PageBytes)) with 1. cbn [sys set_field].
  rewrite Hal. cbn [mbind outcome_bind]. unfold upd_proc, get_proc. cbn [procs set_field].
  rewrite list_insert_insert_eq. erewrite aget_ok by (apply list_lookup_insert_eq; by eapply lookup_lt_Some).
  cbn [mbind outcome_bind]. rewrite map_one; [|done..|].
  - cbn [mbind outcome_bind]. unfold set_field. rewrite list_insert_insert_eq. unfold upd_entry. cbn.
    by rewrite insert_insert_eq.
  - intros d. cbn. rewrite lookup_insert_eq. by intros [= <-].
Qed.
