(* ===== verification/PageMove.v ===== *)
(** The first write to a page ([PageTable]): a page in PCM moves to a fresh frame,
    and a page that already is in DRAM stops the simulation when the write is not
    to its first byte. *)
From S2P Require Import Prelude IntMath Linked Pages PageAlloc PageTable PageTableLaws.
Import FuncPageTable.

#[local] Open Scope Z_scope.

Implicit Types (m : Machine) (p q : Process) (s : System) (i : nat) (v w x : Z) (e : TlbEntry).

(** The page [w] of process [i] awaits its first access. *)
Record untouched m i p w e : Prop := {
  un_proc : procs m !! i = Some p;
  un_entry : pTable p !! w = Some e;
  un_aligned : page_aligned w;
  un_addr : 0 <= w < 2 ^ 64 - PageBytes;
  un_first : isFirstAccess e = true;
  un_region : in_moved_region w p = true
}.

(** What a write to [x] leaves in the table before the page is moved: the access
    noted, and an entry for [x] itself. *)
Definition touched p w x e : Process :=
  upd_entry x id (upd_entry w (fun e => e <| isFirstAccess := false |>) p).

Lemma page_base p w x :
  pageSize p = PageBytes -> page_aligned w -> 0 <= w < 2 ^ 64 - PageBytes -> w <= x < w + PageBytes ->
  pageAlign p x = w /\ x mod PageBytes = x - w.
Proof.
  intros Hp Ha Hw Hx. unfold page_aligned in Ha.
  assert (E : x mod PageBytes = x - w).
  { replace x with (w + (x - w)) at 1 by lia. rewrite Zplus_mod, Ha, Z.add_0_l, Z.mod_mod by done.
    apply Z.mod_small. lia. }
  split; [|done]. rewrite pageAlign_mod by (done || lia). lia.
Qed.

(** The entry [pTable[x]] is the page's own or one made up. *)
Definition own_or_absent p w x : Prop := x = w \/ pTable p !! x = None.

Section first_write.
Context (m : Machine) (i : nat) (p : Process) (w x : Z) (e : TlbEntry).
Context (Hm : frames_ok None m) (Hu : untouched m i p w e).
Context (Hx : w <= x < w + PageBytes) (Hown : own_or_absent p w x).

Let e1 : TlbEntry := e <| isFirstAccess := false |>.
Let p2 : Process := touched p w x e.

Lemma touched_page : pTable p2 !! w = Some e1.
Proof.
  unfold p2, touched, upd_entry, entry_at. cbn. rewrite (un_entry _ _ _ _ _ Hu). cbn.
  destruct (decide (x = w)) as [->|]; [by rewrite !lookup_insert_eq|].
  by rewrite lookup_insert_ne, lookup_insert_eq.
Qed.
Lemma touched_word : entry_at x p2 = if decide (x = w) then e1 else TlbEntry_default.
Proof.
  unfold entry_at at 1. destruct (decide (x = w)) as [E|Hne].
  - assert (H : pTable p2 !! x = Some e1) by (rewrite <- touched_page; f_equal; exact E). by rewrite H.
  - unfold p2, touched, upd_entry. cbn. rewrite lookup_insert_eq. unfold entry_at. cbn.
    rewrite lookup_insert_ne by done. destruct Hown as [E|E]; [done|]. by rewrite E.
Qed.

Lemma size_4k : pageSize p = PageBytes.
Proof. apply (fo_size _ _ Hm _ _ (un_proc _ _ _ _ _ Hu)). Qed.

Lemma frame_range : 0 <= pfn e < 2 ^ 31.
Proof.
  destruct (fo_used _ _ Hm i w (pfn e)) as [Hr _].
  - exists p, e. split_and!; try done; apply Hu.
  - pose proof (po_int _ (fo_pages _ _ Hm)). lia.
Qed.

(** A write that comes first, up to the move. *)
Lemma lookup_first :
  (x = w -> pageStart e < watershed m) ->
  lookup i x false true m =
    (m ← transFromPtoD i w (m <| procs ::= insert i p2 |>);
     q ← get_proc i m;
     Ok (Some (entry_at w q), m <| procs ::= insert i (upd_entry w id q) |>)).
Proof.
  intros Hw. unfold lookup. rewrite (get_proc_run _ _ _ (un_proc _ _ _ _ _ Hu)). cbn [mbind outcome_bind].
  destruct (page_base p w x size_4k (un_aligned _ _ _ _ _ Hu) (un_addr _ _ _ _ _ Hu) Hx) as [-> _].
  rewrite (un_entry _ _ _ _ _ Hu), (un_first _ _ _ _ _ Hu).
  rewrite (on_entry_run _ _ _ _ _ (un_proc _ _ _ _ _ Hu)). cbn [mbind outcome_bind].
  erewrite on_entry_run by (eapply insert_proc_lookup, Hu). cbn [mbind outcome_bind].
  rewrite insert_proc_twice. fold (touched p w x e). fold p2.
  erewrite get_proc_run by (eapply insert_proc_lookup, Hu). cbn [mbind outcome_bind].
  rewrite touched_word. cbn [watershed set_field].
  destruct (decide (x = w)) as [E|].
  - change (pageStart e1) with (pageStart e). by rewrite (proj2 (Z.ltb_lt _ _) (Hw E)).
  - replace (pageStart TlbEntry_default <? watershed m) with true; [done|]. symmetry. apply Z.ltb_lt.
    change (pageStart TlbEntry_default) with 0. rewrite (fo_shed _ _ Hm), (po_size _ (fo_pages _ _ Hm)).
    pose proof (po_pcm _ (fo_pages _ _ Hm)). unfold PageShift. lia.
Qed.

Lemma region_touched : in_moved_region w p2 = true.
Proof. apply Hu. Qed.

(** The page is not moved: it is in DRAM. *)
Lemma trans_in_dram :
  watershed m <= pageStart e -> move_flag m <= 11 ->
  transFromPtoD i w (m <| procs ::= insert i p2 |>) = Err AssertFail.
Proof.
  intros Hd Hf. unfold transFromPtoD. erewrite get_proc_run by (eapply insert_proc_lookup, Hu).
  cbn [mbind outcome_bind]. rewrite region_touched. cbn [move_flag set_field].
  rewrite (proj2 (Z.ltb_ge _ _) Hf). unfold move_page.
  erewrite get_proc_run by (eapply insert_proc_lookup, Hu). cbn [mbind outcome_bind].
  set (p3 := p2 <| numOfptod ::= Z.succ |>).
  assert (Hp3 : forall mm, procs mm = procs m -> procs (mm <| procs ::= insert i p3 |>) !! i = Some p3).
  { intros mm Hmm. cbn. rewrite Hmm, list_lookup_insert_eq; [done|]. eapply lookup_lt_Some, Hu. }
  match goal with |- context [on_entry i w id ?M] =>
    replace M with ((m <| move_flag ::= Z.succ |>) <| procs ::= insert i p3 |>)
      by (cbn; by rewrite list_insert_insert_eq) end.
  erewrite on_entry_run by (by apply Hp3). cbn [mbind outcome_bind]. rewrite insert_proc_twice.
  rewrite (upd_entry_id w p3 e1) by (exact touched_page).
  erewrite get_proc_run by (by apply Hp3). cbn [mbind outcome_bind].
  replace (entry_at w p3) with e1 by (unfold entry_at; cbn [p3 pTable set_field]; by rewrite touched_page).
  change (pageSize p3) with (pageSize p). rewrite size_4k. change (floorLog2_64 PageBytes) with (Ok 12 : outcome Z).
  cbn [mbind outcome_bind watershed set_field sys]. change (pageStart e1) with (pageStart e).
  by rewrite (proj2 (Z.leb_le _ _) Hd).
Qed.
End first_write.

(** One frame can always be given right after one was given up. *)
Lemma one_frame m i v f s1 :
  frames_ok None m -> maps None m i v f -> clearPhysPages true f (sys m) = Ok s1 ->
  exists addr s2, allocPhysPages 1 s1 = Ok (addr, s2) /\ 0 <= addr < 2 ^ 44 /\ addr mod PageBytes = 0.
Proof.
  intros Hm Hf Hc. destruct (clear_frame m i v f s1 Hm Hf Hc) as [H1 _].
  pose proof (fo_pages _ _ H1) as Hs. cbn [sys set_field] in Hs.
  pose proof (po_pcm _ Hs) as Hp. pose proof (po_dram _ Hs) as Hd. pose proof (po_int _ Hs) as Hi.
  pose proof (alloc_phys_pages_ok s1 1 Hs ltac:(lia) ltac:(lia)) as Hal.
  destruct (allocPhysPages 1 s1) as [[addr s2]|].
  - destruct Hal as (k & a & Ha & _). exists addr, s2. split; [done|].
    rewrite (al_addr _ _ _ _ _ _ Ha). pose proof (al_run _ _ _ _ _ _ Ha) as (Hr1 & Hr2 & _).
    fold PageBytes. split; [|by apply Z_mod_mult].
    unfold PageBytes, PageShift. destruct k; cbn [first_page num_pages] in *; lia.
  - exfalso. destruct Hal as [_ Hno]. apply (Hno true f).
    cbn [clearPhysPages] in Hc. unfold pagePtr in Hc.
    destruct ((0 <=? f) && (f <? num_pages true (sys m))) eqn:Er; [|done].
    apply andb_true_iff in Er as [Hf0 Hf1]. rewrite Z.leb_le in Hf0. rewrite Z.ltb_lt in Hf1.
    cbn [mbind outcome_bind first_page] in Hc. rewrite Z.add_0_l in Hc. unfold upd_page, get_page in Hc. run_in Hc.
    apply aget_Ok in E. cbn in E. split; [done|]. split; [cbn in *; lia|].
    intros j Hj. replace (first_page true _ + j) with f by (cbn; lia). unfold free_frame. cbn.
    rewrite list_lookup_insert_eq by (by eapply lookup_lt_Some). by eexists.
Qed.

Lemma clear_succeeds m i v f :
  frames_ok None m -> maps None m i v f -> f < numPcmPages (sys m) ->
  exists s1, clearPhysPages true f (sys m) = Ok s1.
Proof.
  intros Hm Hf Hlt. destruct (fo_used _ _ Hm i v f Hf) as [Hr (x & Hx & _)].
  cbn [clearPhysPages]. unfold pagePtr. cbn [num_pages first_page].
  rewrite (proj2 (Z.leb_le 0 f)), (proj2 (Z.ltb_lt f _)) by lia. cbn [andb mbind outcome_bind].
  rewrite Z.add_0_l. unfold upd_page, get_page. cbn. rewrite (aget_ok _ _ _ Hx). by eexists.
Qed.

(** A page that has been accessed translates without more ado. *)
Lemma accessed_translates m i q w x d write :
  procs m !! i = Some q -> pageSize q = PageBytes -> pTable q !! w = Some d -> isFirstAccess d = false ->
  page_aligned w -> 0 <= w < 2 ^ 64 - PageBytes -> w <= x < w + PageBytes ->
  translate i x false write m = Ok (Some (u64 (x - w + pageStart d)), m).
Proof.
  intros Hq Hs Hd Hf Ha Hw Hx. unfold translate, lookup. rewrite (get_proc_run _ _ _ Hq). cbn [mbind outcome_bind].
  destruct (page_base q w x Hs Ha Hw Hx) as [Hb Hmod]. rewrite Hb, Hd, Hf. cbn [mbind outcome_bind].
  rewrite (get_proc_run _ _ _ Hq). cbn [mbind outcome_bind].
  rewrite (upd_entry_id _ _ _ Hd), insert_proc_id by done. rewrite (get_proc_run _ _ _ Hq). cbn [mbind outcome_bind].
  unfold entry_at. rewrite Hd. cbn. by rewrite pageOffset_mod, Hmod.
Qed.

Lemma new_pageStart asn w addr : 0 <= addr < 2 ^ 44 -> addr mod PageBytes = 0 ->
  pageStart (TlbEntry_new asn w addr) = addr.
Proof.
  intros Ha Hm. unfold pageStart. cbn [pfn TlbEntry_new].
  rewrite Z.shiftr_div_pow2, Z.shiftl_mul_pow2 by done. fold PageBytes.
  pose proof (Z.div_mod addr PageBytes ltac:(done)) as H. replace (addr / PageBytes * PageBytes) with addr by lia.
  apply wrap_small. lia.
Qed.


Definition heap_process : Process := small_process <| pTable := {[ 0x10000 := TlbEntry_new 100 0x10000 0 ]} |>.

Lemma mapped_machine_ok : frames_ok None mapped_machine.
Proof.
  eapply (allocateTextMem_ok None fresh_machine 0 0x10000 PageBytes false);
    [apply fresh_machine_ok|by split|done|by left|by vm_compute].
Qed.

Lemma heap_untouched : untouched mapped_machine 0 heap_process 0x10000 (TlbEntry_new 100 0x10000 0).
Proof. by split; vm_compute. Qed.



(** A page of the heap allocated in DRAM. *)
Definition dram_process : Process := small_process <| pTable := {[ 0x10000 := TlbEntry_new 100 0x10000 0x4000 ]} |>.
Definition dram_machine : Machine := Eval vm_compute in
  match allocateMem 0 0x10000 PageBytes false fresh_machine with Ok m => m | Err _ => fresh_machine end.

Lemma dram_machine_ok : frames_ok None dram_machine.
Proof.
  eapply (allocateMem_ok None fresh_machine 0 0x10000 PageBytes false);
    [apply fresh_machine_ok|by split|done|by left|by vm_compute].
Qed.

