(* ===== verification/PageRank.v ===== *)
(** The ranking of pages by the controller of the hybrid memory
    ([mem/xbar_control.hh], [mem/xbar_control.cc]): fifteen queues of pages by
    number of accesses, linked through the pages, the promotion and demotion of
    pages, and the choice of the PCM pages to migrate. *)
From S2P Require Import Prelude Linked Pages.

#[local] Open Scope Z_scope.

(** The members of [XBarControl] the ranking uses, with the system's pages. *)
Record Ranking := MkRanking {
  rsys : System;
  MQ_head : list (option nat);
  MQ_tail : list (option nat);
  migratingPage : list (Z * Z)
}.
#[export] Instance Ranking_settable : Settable Ranking := fun r =>
  MkRanking (rsys r) (MQ_head r) (MQ_tail r) (migratingPage r).

Definition num_queues : nat := 15.
Definition Ranking_new (s : System) : Ranking :=
  MkRanking s (replicate num_queues None) (replicate num_queues None) [].

(** Pages and queues of a ranking. *)
Definition page_of (p : nat) (r : Ranking) : outcome page_info := get_page p (rsys r).
Definition on_sys (f : System -> outcome System) (r : Ranking) : outcome Ranking :=
  s ← f (rsys r); Ok (r <| rsys := s |>).
Definition upd (p : nat) (g : page_info -> page_info) : Ranking -> outcome Ranking :=
  on_sys (upd_page p g).
Definition set_queue_head (i : nat) (v : option nat) (r : Ranking) : outcome Ranking :=
  l ← aset (MQ_head r) i v; Ok (r <| MQ_head := l |>).
Definition set_queue_tail (i : nat) (v : option nat) (r : Ranking) : outcome Ranking :=
  l ← aset (MQ_tail r) i v; Ok (r <| MQ_tail := l |>).

(** ** Addresses *)

(** True for PCM. *)
Definition PcmOrDram (watershed addr : Z) : bool := negb (watershed <=? addr).

Definition addr_to_pageinfo (addr : Z) (s : System) : outcome nat :=
  let index := i32 (Z.shiftr addr PageShift) in
  if numPcmPages s <=? index then pagePtr false (index - numPcmPages s) s else pagePtr true index s.

(** ** Links *)

Definition insert_into_MQ (p i : nat) (r : Ranking) : outcome Ranking :=
  r ← upd p (fun x => x <| queue_number := wrap 4 (Z.of_nat i) |>) r;
  t ← aget (MQ_tail r) i;
  match t with
  | None =>
      r ← set_queue_tail i (Some p) r;
      r ← set_queue_head i (Some p) r;
      upd p (fun x => x <| next := None |> <| pre := None |>) r
  | Some _ =>
      h ← aget (MQ_head r) i;
      c ← deref h;
      r ← upd c (fun x => x <| pre := Some p |>) r;
      r ← upd p (fun x => x <| next := h |> <| pre := None |>) r;
      set_queue_head i (Some p) r
  end.

Definition change_queue (p : nat) (r : Ranking) : outcome Ranking :=
  x ← page_of p r;
  let i := Z.to_nat (queue_number x) in
  h ← aget (MQ_head r) i;
  if decide (Some p = h) then Ok r
  else
    r ← on_sys (set_next (pre x) (next x)) r;
    x ← page_of p r;
    r ← match next x with
        | Some q => upd q (fun y => y <| pre := pre x |>) r
        | None => set_queue_tail i (pre x) r
        end;
    r ← upd p (fun y => y <| pre := None |> <| next := h |>) r;
    c ← deref h;
    r ← upd c (fun y => y <| pre := Some p |>) r;
    set_queue_head i (Some p) r.

(** The two lists of pages that are not ranked: the PCM pages without recent
    accesses, and the DRAM pages that may be given up. *)
Definition free_list (isPcm : bool) (s : System) : option nat :=
  if isPcm then PCM_unranked_list s else DRAM_victim_list s.
Definition free_tail (isPcm : bool) (s : System) : option nat :=
  if isPcm then PCM_unranked_tail s else DRAM_victim_tail s.
Definition set_free_list (isPcm : bool) (v : option nat) (s : System) : System :=
  if isPcm then s <| PCM_unranked_list := v |> else s <| DRAM_victim_list := v |>.
Definition set_free_tail (isPcm : bool) (v : option nat) (s : System) : System :=
  if isPcm then s <| PCM_unranked_tail := v |> else s <| DRAM_victim_tail := v |>.

Definition insert_into_free (isPcm : bool) (p : nat) (s : System) : outcome System :=
  match free_tail isPcm s with
  | Some t =>
      s ← upd_page t (fun x => x <| next := Some p |>) s;
      s ← upd_page p (fun x => x <| pre := Some t |> <| next := None |>) s;
      Ok (set_free_tail isPcm (Some p) s)
  | None =>
      s ← upd_page p (fun x => x <| pre := None |> <| next := None |>) s;
      Ok (set_free_tail isPcm (Some p) (set_free_list isPcm (Some p) s))
  end.
Definition insert_into_victim (p : nat) : Ranking -> outcome Ranking := on_sys (insert_into_free false p).
Definition insert_into_unranked (p : nat) : Ranking -> outcome Ranking := on_sys (insert_into_free true p).

(** ** Demotion and promotion *)

Definition is_pcm_page (x : page_info) (s : System) : bool := page_number x <? numPcmPages s.

(** Taking the last page off its queue. *)
Definition cut_tail (p i : nat) (r : Ranking) : outcome Ranking :=
  h ← aget (MQ_head r) i;
  if decide (Some p = h) then
    r ← set_queue_tail i None r; set_queue_head i None r
  else
    x ← page_of p r;
    q ← deref (pre x);
    r ← upd q (fun y => y <| next := None |>) r;
    x ← page_of p r;
    set_queue_tail i (pre x) r.

Definition move_to_low (p : nat) (r : Ranking) : outcome Ranking :=
  x ← page_of p r;
  let i := Z.to_nat (queue_number x) in
  let isPcm := is_pcm_page x (rsys r) in
  r ← cut_tail p i r;
  if (i =? 0)%nat || (negb isPcm && flag x) then
    r ← (if isPcm then insert_into_unranked p r else insert_into_victim p r);
    upd p (fun x => x <| flag := false |> <| access_counter := 0 |>) r
  else
    r ← insert_into_MQ p (i - 1) r;
    upd p (fun x => x <| flag := true |>) r.

(** Taking the first page off its queue. *)
Definition cut_head (p i : nat) (r : Ranking) : outcome Ranking :=
  t ← aget (MQ_tail r) i;
  if decide (Some p = t) then
    r ← set_queue_tail i None r; set_queue_head i None r
  else
    x ← page_of p r;
    q ← deref (next x);
    r ← upd q (fun y => y <| pre := None |>) r;
    x ← page_of p r;
    set_queue_head i (next x) r.

Definition move_to_up (p : nat) (r : Ranking) : outcome Ranking :=
  x ← page_of p r;
  let i := Z.to_nat (queue_number x) in
  r ← cut_head p i r;
  insert_into_MQ p (i + 1) r.

(** One round of [MQ_expiration]: the last page of queue [i] if it has not been
    accessed for long. *)
Definition expire_queue (now : Z) (i : nat) (r : Ranking) : outcome Ranking :=
  t ← aget (MQ_tail r) i;
  match t with
  | None => Ok r
  | Some p =>
      x ← page_of p r;
      if 100000000 <? u64 (now - last_access_time x) then
        r ← (if 2 ^ Z.of_nat i <? access_counter x
             then upd p (fun x => x <| access_counter := u16 (2 ^ Z.of_nat i - 1) |>) r else Ok r);
        r ← upd p (fun x => x <| last_access_time := now |>) r;
        move_to_low p r
      else Ok r
  end.
Definition MQ_expiration (now : Z) (r : Ranking) : outcome Ranking :=
  for_from 0 15 (expire_queue now) r.

(** A PCM page with enough accesses: off the fifth queue, to the end of the
    unranked pages, and noted for migration with the thread of the request. *)
Definition select_page (masterId : Z) (p : nat) (r : Ranking) : outcome Ranking :=
  t ← aget (MQ_tail r) 4;
  r ← (if decide (Some p = t) then r ← set_queue_tail 4 None r; set_queue_head 4 None r
       else x ← page_of p r; set_queue_head 4 (next x) r);
  r ← upd p (fun x => x <| access_counter := 0 |>) r;
  r ← match PCM_unranked_tail (rsys r) with
      | None => Ok (r <| rsys ::= fun s => s <| PCM_unranked_list := Some p |> <| PCM_unranked_tail := Some p |> |>)
      | Some t =>
          r ← upd t (fun x => x <| next := Some p |>) r;
          r ← upd p (fun x => x <| pre := Some t |> <| next := None |>) r;
          Ok (r <| rsys ::= fun s => s <| PCM_unranked_tail := Some p |> |>)
      end;
  x ← page_of p r;
  Ok (r <| migratingPage ::= fun l => l ++ [(Z.quot (masterId - 7) 6, page_number x)] |>).

(** One round of [MQ_upgrade]: the first page of queue [i] if it has been
    accessed often enough for the next. *)
Definition upgrade_queue (masterId : Z) (i : nat) (r : Ranking) : outcome Ranking :=
  h ← aget (MQ_head r) i;
  match h with
  | None => Ok r
  | Some p =>
      x ← page_of p r;
      if 2 ^ (Z.of_nat i + 1) <=? access_counter x then
        if (i =? 4)%nat && is_pcm_page x (rsys r) then select_page masterId p r else move_to_up p r
      else Ok r
  end.
Definition MQ_upgrade (masterId : Z) (r : Ranking) : outcome Ranking :=
  for_from 0 14 (upgrade_queue masterId) r.

(** Taking a page off the list of pages that are not ranked. *)
Definition leave_free (isPcm : bool) (p : nat) (s : System) : outcome System :=
  x ← get_page p s;
  s ← match next x with
      | Some q => upd_page q (fun y => y <| pre := pre x |>) s
      | None => Ok (set_free_tail isPcm (pre x) s)
      end;
  x ← get_page p s;
  match pre x with
  | Some q => upd_page q (fun y => y <| next := next x |>) s
  | None => Ok (set_free_list isPcm (next x) s)
  end.

Definition access_page (watershed now masterId addr : Z) (r : Ranking) : outcome Ranking :=
  p ← addr_to_pageinfo addr (rsys r);
  let isPcm := PcmOrDram watershed addr in
  if isPcm && existsb (fun m => m.2 =? Z.shiftr addr PageShift) (migratingPage r) then Ok r
  else
    r ← upd p (fun x => x <| last_access_time := now |>) r;
    x ← page_of p r;
    r ← (if access_counter x =? 0 then
           r ← on_sys (leave_free isPcm p) r; insert_into_MQ p 0 r
         else change_queue p r);
    r ← upd p (fun x => x <| access_counter := u16 (access_counter x + 1) |>) r;
    r ← MQ_upgrade masterId r;
    MQ_expiration now r.

(** ** Trying it out *)

(** [n] accesses to one page, ten ticks apart. *)
Fixpoint accesses (n : nat) (now addr : Z) (r : Ranking) : outcome Ranking :=
  match n with
  | O => Ok r
  | S n => r ← access_page (4 * 4096) now 7 addr r; accesses n (now + 10) addr r
  end.
Definition ranking_summary (r : Ranking) : list (option nat) * list (Z * Z) * list nat :=
  (take 6 (MQ_head r), migratingPage r, walk_pages (rsys r) 9 (PCM_unranked_list (rsys r))).

Example thirty_one_accesses :
  (s ← small_system; r ← accesses 31 0 0x1000 (Ranking_new s); Ok (ranking_summary r))
  = Ok ([None; None; None; None; Some 1%nat; None], [], [0; 2; 3]%nat).
Proof. vm_compute. reflexivity. Qed.
(** The next one selects the page. *)
Example thirty_two_accesses :
  (s ← small_system; r ← accesses 32 0 0x1000 (Ranking_new s); Ok (ranking_summary r))
  = Ok ([None; None; None; None; None; None], [(0, 1)], [0; 2; 3; 1]%nat).
Proof. vm_compute. reflexivity. Qed.

(** With no page unranked, a selected page keeps its links to the queue: page 0
    is then in queue 4 and unranked. *)
Example selected_keeps_links :
  (s ← small_system; r ← accesses 1 0 0x2000 (Ranking_new s); r ← accesses 1 10 0x3000 r;
   r ← accesses 16 20 0x0000 r; r ← accesses 32 200 0x1000 r; Ok (ranking_summary r))
  = Ok ([Some 3%nat; None; None; None; Some 0%nat; None], [(0, 1)], [1; 0]%nat).
Proof. vm_compute. reflexivity. Qed.
