(* ===== verification/PageLists.v ===== *)
(** The lists of pages of the ranking: each queue, the unranked PCM pages and
    the DRAM victims are doubly linked lists that share no page, and every
    operation of [PageRank] on the links does on them what it says. *)
From stdpp Require Import functions.
From S2P Require Import Prelude Linked Pages PageRank.

#[local] Open Scope Z_scope.

(** ** Lists *)

(** A list of pages: queue [i], or the pages of a memory without accesses. *)
Inductive Key := InMQ (i : nat) | Free (isPcm : bool).
#[export] Instance Key_eq_dec : EqDecision Key.
Proof. solve_decision. Defined.

Definition has_key (k : Key) : Prop := match k with InMQ i => (i < num_queues)%nat | Free _ => True end.
Definition first_of (k : Key) (r : Ranking) : option (option nat) :=
  match k with InMQ i => MQ_head r !! i | Free b => Some (free_list b (rsys r)) end.
Definition last_of (k : Key) (r : Ranking) : option (option nat) :=
  match k with InMQ i => MQ_tail r !! i | Free b => Some (free_tail b (rsys r)) end.
Definition page_at (r : Ranking) (p : nat) : option page_info := pages (rsys r) !! p.
Definition links (r : Ranking) (p : nat) : option (option nat * option nat) :=
  (fun x => (pre x, next x)) <$> page_at r p.

(** The first page of a queue may have a predecessor left from before. *)
Definition chained (k : Key) (r : Ranking) (l : list nat) : Prop :=
  match k with
  | InMQ _ => exists pr, seg (links r) pr l None
  | Free _ => seg (links r) None l None
  end.

Record linked (r : Ranking) (L : Key -> list nat) : Prop := {
  lk_key k : ~ has_key k -> L k = [];
  lk_page k p : p ∈ L k -> (p < length (pages (rsys r)))%nat;
  lk_one k k' p : p ∈ L k -> p ∈ L k' -> k = k';
  lk_nodup k : NoDup (L k);
  lk_first k : has_key k -> first_of k r = Some (head (L k));
  lk_last k : has_key k -> last_of k r = Some (last (L k));
  lk_chain k : chained k r (L k)
}.

(** ** Everything but the links *)

Definition bare_page (x : page_info) : page_info := x <| pre := None |> <| next := None |>.
Definition bare (r : Ranking) : list page_info * Z * Z * list (Z * Z) :=
  (bare_page <$> pages (rsys r), numPcmPages (rsys r), numDramPages (rsys r), migratingPage r).

Definition put (p : nat) (x : page_info) (r : Ranking) : Ranking :=
  r <| rsys ::= fun s => s <| pages ::= insert p x |> |>.

Lemma upd_ok p g r x : page_at r p = Some x -> upd p g r = Ok (put p (g x) r).
Proof. intros H. unfold upd, on_sys, upd_page, get_page. by rewrite (aget_ok _ _ _ H). Qed.
Lemma page_of_ok p r x : page_at r p = Some x -> page_of p r = Ok x.
Proof. apply aget_ok. Qed.
Lemma upd_page_ok p g s x : pages s !! p = Some x -> upd_page p g s = Ok (s <| pages ::= insert p (g x) |>).
Proof. intros H. unfold upd_page, get_page. by rewrite (aget_ok _ _ _ H). Qed.

Lemma page_put p x r c :
  (p < length (pages (rsys r)))%nat ->
  page_at (put p x r) c = if decide (c = p) then Some x else page_at r c.
Proof.
  intros Hp. unfold page_at. cbn. destruct (decide (c = p)) as [->|H].
  - by apply list_lookup_insert_eq.
  - by apply list_lookup_insert_ne.
Qed.
Lemma links_put p x r c :
  (p < length (pages (rsys r)))%nat ->
  links (put p x r) c = if decide (c = p) then Some (pre x, next x) else links r c.
Proof. intros Hp. unfold links. rewrite page_put by done. by destruct (decide _). Qed.
Lemma length_put p x r : length (pages (rsys (put p x r))) = length (pages (rsys r)).
Proof. apply length_insert. Qed.
Lemma page_links r p x : page_at r p = Some x -> links r p = Some (pre x, next x).
Proof. unfold links. by intros ->. Qed.
Lemma links_page r p a b : links r p = Some (a, b) -> exists x, page_at r p = Some x /\ pre x = a /\ next x = b.
Proof. unfold links. destruct (page_at r p) as [x|]; intros [= <- <-]. by exists x. Qed.
Lemma page_lt r p x : page_at r p = Some x -> (p < length (pages (rsys r)))%nat.
Proof. apply lookup_lt_Some. Qed.
Lemma lt_page r p : (p < length (pages (rsys r)))%nat -> exists x, page_at r p = Some x.
Proof. apply lookup_lt_is_Some_2. Qed.

Lemma bare_put p x y r : page_at r p = Some x -> bare_page y = bare_page x -> bare (put p y r) = bare r.
Proof.
  intros Hx E. unfold bare. change (pages (rsys (put p y r))) with (<[p := y]> (pages (rsys r))).
  rewrite list_fmap_insert, E, list_insert_id; [done|].
  rewrite list_lookup_fmap. unfold page_at in Hx. by rewrite Hx.
Qed.
Lemma bare_page_at r r' p x :
  bare r' = bare r -> page_at r p = Some x -> exists y, page_at r' p = Some y /\ bare_page y = bare_page x.
Proof.
  intros E Hx. apply (f_equal (fun b => b.1.1.1 !! p)) in E. unfold bare in E. cbn in E.
  rewrite !list_lookup_fmap in E. unfold page_at in *. rewrite Hx in E.
  destruct (pages (rsys r') !! p) as [y|]; [|done]. exists y. split; [done|]. by apply (inj Some).
Qed.
Lemma bare_length r r' : bare r' = bare r -> length (pages (rsys r')) = length (pages (rsys r)).
Proof. intros E. apply (f_equal (fun b => length b.1.1.1)) in E. cbn in E. by rewrite !length_fmap in E. Qed.

(** ** Heads and tails *)

Definition with_first (k : Key) (v : option nat) (r : Ranking) : Ranking :=
  match k with
  | InMQ i => r <| MQ_head := <[i := v]> (MQ_head r) |>
  | Free b => r <| rsys ::= set_free_list b v |>
  end.
Definition with_last (k : Key) (v : option nat) (r : Ranking) : Ranking :=
  match k with
  | InMQ i => r <| MQ_tail := <[i := v]> (MQ_tail r) |>
  | Free b => r <| rsys ::= set_free_tail b v |>
  end.

Lemma page_first k v r p : page_at (with_first k v r) p = page_at r p.
Proof. by destruct k as [|[]]. Qed.
Lemma page_last k v r p : page_at (with_last k v r) p = page_at r p.
Proof. by destruct k as [|[]]. Qed.
Lemma links_first k v r p : links (with_first k v r) p = links r p.
Proof. unfold links. by rewrite page_first. Qed.
Lemma links_last k v r p : links (with_last k v r) p = links r p.
Proof. unfold links. by rewrite page_last. Qed.
Lemma length_first k v r : length (pages (rsys (with_first k v r))) = length (pages (rsys r)).
Proof. by destruct k as [|[]]. Qed.
Lemma length_last k v r : length (pages (rsys (with_last k v r))) = length (pages (rsys r)).
Proof. by destruct k as [|[]]. Qed.
Lemma bare_first k v r : bare (with_first k v r) = bare r.
Proof. by destruct k as [|[]]. Qed.
Lemma bare_last k v r : bare (with_last k v r) = bare r.
Proof. by destruct k as [|[]]. Qed.
Lemma first_put k p x r : first_of k (put p x r) = first_of k r.
Proof. by destruct k as [|[]]. Qed.
Lemma last_put k p x r : last_of k (put p x r) = last_of k r.
Proof. by destruct k as [|[]]. Qed.
Lemma first_last k k' v r : first_of k' (with_last k v r) = first_of k' r.
Proof. by destruct k as [|[]], k' as [|[]]. Qed.
Lemma last_first k k' v r : last_of k' (with_first k v r) = last_of k' r.
Proof. by destruct k as [|[]], k' as [|[]]. Qed.
Lemma first_first k k' v r :
  is_Some (first_of k r) ->
  first_of k' (with_first k v r) = if decide (k' = k) then Some v else first_of k' r.
Proof.
  intros Hk. destruct (decide (k' = k)) as [->|Hne].
  - destruct k as [i|[]]; [|done..]. cbn in *. apply list_lookup_insert_eq. by apply lookup_lt_is_Some_1.
  - destruct k as [i|[]], k' as [j|[]]; try done. cbn. apply list_lookup_insert_ne. congruence.
Qed.
Lemma last_last k k' v r :
  is_Some (last_of k r) ->
  last_of k' (with_last k v r) = if decide (k' = k) then Some v else last_of k' r.
Proof.
  intros Hk. destruct (decide (k' = k)) as [->|Hne].
  - destruct k as [i|[]]; [|done..]. cbn in *. apply list_lookup_insert_eq. by apply lookup_lt_is_Some_1.
  - destruct k as [i|[]], k' as [j|[]]; try done. cbn. apply list_lookup_insert_ne. congruence.
Qed.

#[export] Hint Rewrite page_first page_last links_first links_last length_first length_last length_put
  bare_first bare_last first_put last_put first_last last_first : ranking.

Lemma set_queue_head_ok i v r : is_Some (first_of (InMQ i) r) -> set_queue_head i v r = Ok (with_first (InMQ i) v r).
Proof. intros H%lookup_lt_is_Some_1. unfold set_queue_head, aset. by rewrite decide_True. Qed.
Lemma set_queue_tail_ok i v r : is_Some (last_of (InMQ i) r) -> set_queue_tail i v r = Ok (with_last (InMQ i) v r).
Proof. intros H%lookup_lt_is_Some_1. unfold set_queue_tail, aset. by rewrite decide_True. Qed.

Lemma chained_ext k r r' l : (forall b, b ∈ l -> links r' b = links r b) -> chained k r l -> chained k r' l.
Proof.
  intros He. destruct k; cbn; [intros [pr H]; exists pr|intros H]; by apply (seg_ext (links r)).
Qed.

(** A change of one list and of the pages [ps]. *)
Record within (k : Key) (ps : list nat) (r r' : Ranking) : Prop := {
  wi_length : length (pages (rsys r')) = length (pages (rsys r));
  wi_ends k' : k' <> k -> first_of k' r' = first_of k' r /\ last_of k' r' = last_of k' r;
  wi_some : is_Some (first_of k r) /\ is_Some (last_of k r) ->
            is_Some (first_of k r') /\ is_Some (last_of k r');
  wi_links b : b ∉ ps -> links r' b = links r b
}.

Lemma within_refl k ps r : within k ps r r.
Proof. by split. Qed.
Lemma within_put k ps r r' p x :
  within k ps r r' -> p ∈ ps -> (p < length (pages (rsys r)))%nat -> within k ps r (put p x r').
Proof.
  intros [Hl He Hs Hk] Hp Hlt. split.
  - by rewrite length_put.
  - intros k' Hne. rewrite first_put, last_put. by apply He.
  - by rewrite first_put, last_put.
  - intros b Hb. rewrite links_put, decide_False; [by apply Hk|by intros ->|by rewrite Hl].
Qed.
Lemma within_first k ps r r' v :
  within k ps r r' -> is_Some (first_of k r) -> is_Some (last_of k r) ->
  within k ps r (with_first k v r').
Proof.
  intros [Hl He Hs Hk] Hf Ht. destruct Hs as [Hf' Ht']; [done|]. split.
  - by rewrite length_first.
  - intros k' Hne. rewrite first_first, last_first, decide_False by done. by apply He.
  - intros _. rewrite first_first, decide_True, last_first by done. by split; [eexists|].
  - intros b Hb. rewrite links_first. by apply Hk.
Qed.
Lemma within_last k ps r r' v :
  within k ps r r' -> is_Some (first_of k r) -> is_Some (last_of k r) ->
  within k ps r (with_last k v r').
Proof.
  intros [Hl He Hs Hk] Hf Ht. destruct Hs as [Hf' Ht']; [done|]. split.
  - by rewrite length_last.
  - intros k' Hne. rewrite last_last, first_last, decide_False by done. by apply He.
  - intros _. rewrite last_last, decide_True, first_last by done. by split; [|eexists].
  - intros b Hb. rewrite links_last. by apply Hk.
Qed.

(** ** The operations *)

Section lists.
Context (r0 : Ranking) (L : Key -> list nat) (HL : linked r0 L).

Lemma first_some k : has_key k -> is_Some (first_of k r0).
Proof using HL. intros Hk. rewrite (lk_first _ _ HL k Hk). by eexists. Qed.
Lemma last_some k : has_key k -> is_Some (last_of k r0).
Proof using HL. intros Hk. rewrite (lk_last _ _ HL k Hk). by eexists. Qed.
Lemma member_page k p : p ∈ L k -> exists x, page_at r0 p = Some x.
Proof using HL. intros Hp. by apply lt_page, (lk_page _ _ HL k). Qed.
Lemma member_lt k p : p ∈ L k -> (p < length (pages (rsys r0)))%nat.
Proof using HL. apply (lk_page _ _ HL k). Qed.
Lemma member_key k p : p ∈ L k -> has_key k.
Proof using HL.
  intros Hp. destruct k as [i|b]; [|done]. destruct (decide (i < num_queues)%nat) as [Hi|Hi]; [done|].
  rewrite (lk_key _ _ HL (InMQ i) Hi) in Hp. by apply elem_of_nil in Hp.
Qed.

(** The list [k] becomes [l], made of its pages and of [p]. *)
Lemma linked_set r k p l :
  has_key k -> within k (p :: L k) r0 r -> (p < length (pages (rsys r0)))%nat ->
  (forall k', k' <> k -> p ∉ L k') -> NoDup l -> (forall b, b ∈ l -> b = p \/ b ∈ L k) ->
  first_of k r = Some (head l) -> last_of k r = Some (last l) -> chained k r l ->
  linked r (<[k := l]> L).
Proof using HL.
  intros Hk [Hlen Hends _ Hlinks] Hpl Hp Hn Hl Hf Ht Hc.
  assert (Hcase : forall k', k' = k /\ <[k := l]> L k' = l \/ k' <> k /\ <[k := l]> L k' = L k').
  { intros k'. destruct (decide (k' = k)) as [->|Hne]; [left; by rewrite fn_lookup_insert|].
    right. by rewrite fn_lookup_insert_ne. }
  assert (Hown : forall b k', k' <> k -> b ∈ p :: L k -> b ∉ L k').
  { intros b k' Hne [->|Hb]%elem_of_cons; [by apply Hp|].
    intros Hb'. by apply Hne, (lk_one _ _ HL _ _ b). }
  assert (Hin : forall b, b ∈ l -> b ∈ p :: L k) by (intros b [->|Hb]%Hl; [left|by right]).
  split.
  - intros k' Hk'. destruct (Hcase k') as [[-> _]|[_ ->]]; [done|by apply (lk_key _ _ HL)].
  - intros k' b. rewrite Hlen. destruct (Hcase k') as [[-> ->]|[_ ->]]; [|apply (lk_page _ _ HL)].
    by intros [->|Hb%member_lt]%Hl.
  - intros k1 k2 b. destruct (Hcase k1) as [[-> ->]|[H1 ->]], (Hcase k2) as [[-> ->]|[H2 ->]]; [done| | |].
    + by intros Hb%Hin ?%(Hown b k2).
    + by intros Hb1 Hb%Hin%(Hown b k1).
    + apply (lk_one _ _ HL).
  - intros k'. destruct (Hcase k') as [[-> ->]|[_ ->]]; [done|apply (lk_nodup _ _ HL)].
  - intros k' Hk'. destruct (Hcase k') as [[-> ->]|[Hne ->]]; [done|].
    rewrite (proj1 (Hends k' Hne)). by apply (lk_first _ _ HL).
  - intros k' Hk'. destruct (Hcase k') as [[-> ->]|[Hne ->]]; [done|].
    rewrite (proj2 (Hends k' Hne)). by apply (lk_last _ _ HL).
  - intros k'. destruct (Hcase k') as [[-> ->]|[Hne ->]]; [done|].
    apply (chained_ext _ r0); [|apply (lk_chain _ _ HL)]. intros b Hb. apply Hlinks. intros H.
    by apply (Hown b k').
Qed.

(** The links of a list with [p] in front. *)
Lemma chained_cons k p r l :
  NoDup l -> (exists pr, seg (links r0) pr l None) ->
  (forall b, b ∈ l -> Some b <> head l -> links r b = links r0 b) ->
  (forall c y, head l = Some c -> page_at r0 c = Some y -> links r c = Some (Some p, next y)) ->
  links r p = Some (None, head l) ->
  chained k r (p :: l).
Proof using.
  intros Hl [pr Hs] Ho Hc Hlp.
  assert (Hs' : seg (links r) None (p :: l) None).
  { split; [by rewrite first_or_None|]. apply (seg_set_prev (links r0) _ pr); try done.
    intros c [a b] Hh Hlc. apply links_page in Hlc as (y & Hy & <- & <-). by apply Hc. }
  destruct k; cbn; [by exists None|done].
Qed.
Lemma chain_seg k : exists pr, seg (links r0) pr (L k) None.
Proof using HL. pose proof (lk_chain _ _ HL k) as Hk. destruct k; [done|by exists None]. Qed.
End lists.
#[export] Hint Resolve within_refl within_put within_first within_last first_some last_some
  member_lt page_lt list_elem_of_here list_elem_of_further : ranking.


(** Values after some updates, and one step of an operation. *)
Ltac lt_tac := autorewrite with ranking; eauto 3 with ranking.
Ltac same_page := first [rewrite decide_True by done | rewrite decide_False by congruence].
Ltac compute_links :=
  repeat first [rewrite links_first | rewrite links_last | rewrite links_put by lt_tac; same_page].
Ltac compute_page :=
  repeat first [rewrite page_first | rewrite page_last | rewrite page_put by lt_tac; same_page];
  first [eassumption | reflexivity].
Ltac compute_ends :=
  repeat first
    [ rewrite first_put | rewrite last_put | rewrite first_last | rewrite last_first
    | rewrite first_first by (autorewrite with ranking; eauto with ranking); same_page
    | rewrite last_last by (autorewrite with ranking; eauto with ranking); same_page ].
Ltac run_page :=
  first
  [ erewrite upd_ok by compute_page | erewrite page_of_ok by compute_page
  | rewrite set_queue_head_ok by (autorewrite with ranking; eauto with ranking)
  | rewrite set_queue_tail_ok by (autorewrite with ranking; eauto with ranking) ];
  cbn [mbind outcome_bind].

(** The predecessor gets another successor, or the list another first page; the
    successor another predecessor, or the list another last page. *)
Definition link_next (k : Key) (q v : option nat) (r : Ranking) : Ranking :=
  match q with
  | Some q => match page_at r q with Some y => put q (y <| next := v |>) r | None => r end
  | None => with_first k v r
  end.
Definition link_prev (k : Key) (q v : option nat) (r : Ranking) : Ranking :=
  match q with
  | Some q => match page_at r q with Some y => put q (y <| pre := v |>) r | None => r end
  | None => with_last k v r
  end.

Lemma links_link_next k q v r b :
  links (link_next k q v r) b =
  if decide (q = Some b) then (fun l => (l.1, v)) <$> links r b else links r b.
Proof.
  destruct q as [q|]; cbn [link_next]; [|by rewrite links_first].
  destruct (page_at r q) as [y|] eqn:Hy.
  - rewrite links_put by lt_tac. destruct (decide (b = q)) as [->|Hne].
    + rewrite decide_True by done. by rewrite (page_links _ _ _ Hy).
    + by rewrite decide_False by congruence.
  - destruct (decide (Some q = Some b)) as [[= ->]|]; [|done]. unfold links. by rewrite Hy.
Qed.
Lemma links_link_prev k q v r b :
  links (link_prev k q v r) b =
  if decide (q = Some b) then (fun l => (v, l.2)) <$> links r b else links r b.
Proof.
  destruct q as [q|]; cbn [link_prev]; [|by rewrite links_last].
  destruct (page_at r q) as [y|] eqn:Hy.
  - rewrite links_put by lt_tac. destruct (decide (b = q)) as [->|Hne].
    + rewrite decide_True by done. by rewrite (page_links _ _ _ Hy).
    + by rewrite decide_False by congruence.
  - destruct (decide (Some q = Some b)) as [[= ->]|]; [|done]. unfold links. by rewrite Hy.
Qed.
Lemma page_link_next k q v r p : q <> Some p -> page_at (link_next k q v r) p = page_at r p.
Proof.
  intros Hq. destruct q as [q|]; cbn [link_next]; [|by rewrite page_first].
  destruct (page_at r q) as [y|] eqn:Hy; [|done]. rewrite page_put by lt_tac. by rewrite decide_False by congruence.
Qed.
Lemma page_link_prev k q v r p : q <> Some p -> page_at (link_prev k q v r) p = page_at r p.
Proof.
  intros Hq. destruct q as [q|]; cbn [link_prev]; [|by rewrite page_last].
  destruct (page_at r q) as [y|] eqn:Hy; [|done]. rewrite page_put by lt_tac. by rewrite decide_False by congruence.
Qed.
Lemma bare_link_next k q v r : bare (link_next k q v r) = bare r.
Proof.
  destruct q as [q|]; cbn [link_next]; [|by rewrite bare_first].
  destruct (page_at r q) as [y|] eqn:Hy; [|done]. by rewrite (bare_put _ y).
Qed.
Lemma bare_link_prev k q v r : bare (link_prev k q v r) = bare r.
Proof.
  destruct q as [q|]; cbn [link_prev]; [|by rewrite bare_last].
  destruct (page_at r q) as [y|] eqn:Hy; [|done]. by rewrite (bare_put _ y).
Qed.
Lemma within_link_next k ps r r' q v :
  within k ps r r' -> is_Some (first_of k r) -> is_Some (last_of k r) -> (forall a, q = Some a -> a ∈ ps) ->
  within k ps r (link_next k q v r').
Proof.
  intros Hw Hf Ht Hq. destruct q as [q|]; cbn [link_next]; [|by apply within_first].
  destruct (page_at r' q) as [y|] eqn:Hy; [|done]. apply within_put; [done|by apply Hq|].
  rewrite <- (wi_length _ _ _ _ Hw). lt_tac.
Qed.
Lemma within_link_prev k ps r r' q v :
  within k ps r r' -> is_Some (first_of k r) -> is_Some (last_of k r) -> (forall a, q = Some a -> a ∈ ps) ->
  within k ps r (link_prev k q v r').
Proof.
  intros Hw Hf Ht Hq. destruct q as [q|]; cbn [link_prev]; [|by apply within_last].
  destruct (page_at r' q) as [y|] eqn:Hy; [|done]. apply within_put; [done|by apply Hq|].
  rewrite <- (wi_length _ _ _ _ Hw). lt_tac.
Qed.
Lemma first_link_next k q v r :
  is_Some (first_of k r) ->
  first_of k (link_next k q v r) = match q with None => Some v | Some _ => first_of k r end.
Proof.
  intros Hf. destruct q as [q|]; cbn [link_next]; [|by rewrite first_first, decide_True].
  by destruct (page_at r q); rewrite ?first_put.
Qed.
Lemma last_link_next k q v r : last_of k (link_next k q v r) = last_of k r.
Proof.
  destruct q as [q|]; cbn [link_next]; [|by rewrite last_first].
  by destruct (page_at r q); rewrite ?last_put.
Qed.
Lemma last_link_prev k q v r :
  is_Some (last_of k r) ->
  last_of k (link_prev k q v r) = match q with None => Some v | Some _ => last_of k r end.
Proof.
  intros Hf. destruct q as [q|]; cbn [link_prev]; [|by rewrite last_last, decide_True].
  by destruct (page_at r q); rewrite ?last_put.
Qed.
Lemma first_link_prev k q v r : first_of k (link_prev k q v r) = first_of k r.
Proof.
  destruct q as [q|]; cbn [link_prev]; [|by rewrite first_last].
  by destruct (page_at r q); rewrite ?first_put.
Qed.

Section operations.
Context (r0 : Ranking) (L : Key -> list nat) (HL : linked r0 L).

(** A page in no list becomes the first of one. *)
Lemma push_linked k p r :
  has_key k -> (p < length (pages (rsys r0)))%nat -> (forall k', p ∉ L k') -> within k (p :: L k) r0 r ->
  (forall b, b ∈ L k -> Some b <> head (L k) -> links r b = links r0 b) ->
  (forall c y, head (L k) = Some c -> page_at r0 c = Some y -> links r c = Some (Some p, next y)) ->
  links r p = Some (None, head (L k)) ->
  first_of k r = Some (Some p) -> last_of k r = Some (last (p :: L k)) ->
  linked r (<[k := p :: L k]> L).
Proof using HL.
  intros Hk Hpl Hp Hw Ho Hc Hlp Hf Ht.
  apply (linked_set _ _ HL _ _ p); eauto.
  - constructor; [done|apply (lk_nodup _ _ HL)].
  - by intros b [->|Hb]%elem_of_cons; [left|right].
  - apply (chained_cons r0); [apply (lk_nodup _ _ HL)|apply (chain_seg _ _ HL)|done..].
Qed.

Lemma insert_into_MQ_ok (p i : nat) (x : page_info) :
  page_at r0 p = Some x -> (forall k, p ∉ L k) -> (i < num_queues)%nat ->
  exists r', insert_into_MQ p i r0 = Ok r' /\ linked r' (<[InMQ i := p :: L (InMQ i)]> L) /\
    bare r' = bare (put p (x <| queue_number := Z.of_nat i |>) r0).
Proof using HL.
  intros Hx Hp Hi. assert (Hk : has_key (InMQ i)) by done.
  assert (Hw : wrap 4 (Z.of_nat i) = Z.of_nat i).
  { apply wrap_small. unfold num_queues in Hi. change (2 ^ 4) with 16. lia. }
  pose proof (lk_first _ _ HL _ Hk) as Hf. pose proof (lk_last _ _ HL _ Hk) as Ht.
  unfold insert_into_MQ. run_page. rewrite Hw. set (x1 := x <| queue_number := _ |>).
  rewrite (aget_ok (MQ_tail (put p x1 r0)) i _ Ht). cbn [mbind outcome_bind].
  destruct (last (L (InMQ i))) as [t|] eqn:El.
  - destruct (L (InMQ i)) as [|c l] eqn:E; [done|]. cbn [head] in Hf.
    rewrite (aget_ok (MQ_head (put p x1 r0)) i (Some c) Hf). cbn [mbind outcome_bind deref].
    assert (Hck : c ∈ L (InMQ i)) by (rewrite E; by left). destruct (member_page _ _ HL _ _ Hck) as [y Hy].
    assert (Hcp : c <> p) by (intros ->; by apply (Hp (InMQ i))).
    run_page. run_page. run_page. eexists. split; [done|]. rewrite <- E. split.
    + apply push_linked; eauto 9 with ranking; rewrite ?E.
      * intros b Hb Hne. assert (b <> p) by (intros ->; apply (Hp (InMQ i)); by rewrite E).
        cbn [head] in Hne. by compute_links.
      * intros ? y' [= <-] Hy'. rewrite Hy in Hy'. injection Hy' as <-. by compute_links.
      * by compute_links.
      * by compute_ends.
      * compute_ends. rewrite Ht. by rewrite last_cons, El.
    + rewrite bare_first, (bare_put _ x1), (bare_put _ y); (done || compute_page).
  - apply last_None in El. run_page. run_page. run_page. eexists. split; [done|]. split.
    + apply push_linked; eauto 9 with ranking; rewrite ?El.
      * by intros b ?%elem_of_nil.
      * done.
      * by compute_links.
      * by compute_ends.
      * by compute_ends.
    + rewrite (bare_put _ x1) by (done || compute_page). by autorewrite with ranking.
Qed.

Lemma insert_into_free_ok b (p : nat) (x : page_info) :
  page_at r0 p = Some x -> (forall k, p ∉ L k) ->
  exists r', on_sys (insert_into_free b p) r0 = Ok r' /\ linked r' (<[Free b := L (Free b) ++ [p]]> L) /\
    bare r' = bare r0.
Proof using HL.
  intros Hx Hp. assert (Hk : has_key (Free b)) by done.
  assert (Hnd : NoDup (L (Free b) ++ [p])).
  { apply NoDup_app. split; [apply (lk_nodup _ _ HL)|]. split; [|apply NoDup_singleton].
    intros c Hc ->%list_elem_of_singleton. by apply (Hp (Free b)). }
  pose proof (lk_first _ _ HL _ Hk) as Hf. pose proof (lk_last _ _ HL _ Hk) as Ht.
  pose proof (lk_chain _ _ HL (Free b)) as Hc. cbn [chained] in Hc.
  unfold on_sys, insert_into_free. injection Ht as Ht. rewrite Ht.
  destruct (last (L (Free b))) as [t|] eqn:El.
  - apply last_Some in El as [l El]. assert (Htk : t ∈ L (Free b)) by (rewrite El; set_solver).
    destruct (member_page _ _ HL _ _ Htk) as [y Hy]. assert (t <> p) by (intros ->; by apply (Hp (Free b))).
    rewrite (upd_page_ok t _ _ y Hy). cbn [mbind outcome_bind].
    assert (Hx1 : page_at (put t (y <| next := Some p |>) r0) p = Some x) by compute_page.
    rewrite (upd_page_ok p _ _ x Hx1). cbn [mbind outcome_bind]. eexists. split; [done|].
    match goal with |- linked ?r _ /\ _ =>
      assert (exists r', r' = r /\ r' = with_last (Free b) (Some p)
        (put p (x <| pre := Some t |> <| next := None |>) (put t (y <| next := Some p |>) r0)))
        as (r' & <- & ->) by (eexists; split; [done|]; by destruct b) end.
    split.
    + apply (linked_set _ _ HL _ _ p); eauto 9 with ranking; [by intros c [Hb| ->%list_elem_of_singleton]%elem_of_app; [right|left]|..].
      * compute_ends. rewrite Hf, El. by destruct l.
      * compute_ends. by rewrite last_snoc.
      * unfold chained. apply seg_app. split.
        -- eapply (seg_set_next (links r0)); [apply (lk_nodup _ _ HL)| | |exact Hc].
           ++ intros c Hck Hne. rewrite El, last_snoc in Hne.
              assert (c <> p) by (intros ->; by apply (Hp (Free b))). by compute_links.
           ++ intros a z. rewrite El, last_snoc. intros [= <-] Hz. rewrite (page_links _ _ _ Hy) in Hz.
              injection Hz as <-. by compute_links.
        -- split; [|done]. rewrite last_or_None, El, last_snoc. by compute_links.
    + rewrite bare_last, (bare_put _ x), (bare_put _ y); (done || compute_page).
  - apply last_None in El. rewrite (upd_page_ok p _ _ x Hx). cbn [mbind outcome_bind]. eexists. split; [done|].
    match goal with |- linked ?r _ /\ _ =>
      assert (exists r', r' = r /\ r' = with_last (Free b) (Some p) (with_first (Free b) (Some p)
        (put p (x <| pre := None |> <| next := None |>) r0)))
        as (r' & <- & ->) by (eexists; split; [done|]; by destruct b) end.
    rewrite El in *. split.
    + apply (linked_set _ _ HL _ _ p); rewrite ?El; eauto 9 with ranking; [by intros c ->%list_elem_of_singleton; left|..].
      * by compute_ends.
      * by compute_ends.
      * split; [|done]. by compute_links.
    + rewrite bare_last, bare_first. by rewrite (bare_put _ x).
Qed.

(** ** Taking a page off a list *)

Lemma others_not k p : p ∈ L k -> forall k', k' <> k -> p ∉ L k'.
Proof using HL. intros Hp k' Hne Hp'. by apply Hne, (lk_one _ _ HL _ _ p). Qed.

Lemma cut_tail_ok p i l :
  L (InMQ i) = l ++ [p] ->
  exists r', cut_tail p i r0 = Ok r' /\ linked r' (<[InMQ i := l]> L) /\ bare r' = bare r0.
Proof using HL.
  intros El. assert (Hpk : p ∈ L (InMQ i)) by (rewrite El; set_solver).
  pose proof (member_key _ _ HL _ _ Hpk) as Hk. pose proof (others_not _ _ Hpk) as Hother.
  pose proof (lk_first _ _ HL _ Hk) as Hf. pose proof (lk_nodup _ _ HL (InMQ i)) as Hnd.
  destruct (chain_seg _ _ HL (InMQ i)) as [pr Hs]. rewrite El in Hf, Hnd, Hs.
  apply NoDup_app in Hnd as (Hnd & Hlp & _).
  assert (Hpl : p ∉ l) by (intros H; apply (Hlp p H); set_solver).
  destruct (member_page _ _ HL _ _ Hpk) as [x Hx].
  unfold cut_tail. rewrite (aget_ok (MQ_head r0) i _ Hf). cbn [mbind outcome_bind].
  destruct l as [|q l' _] using rev_ind.
  - rewrite decide_True by done. run_page. run_page. eexists. split; [done|]. split; [|by autorewrite with ranking].
    apply (linked_set _ _ HL _ _ p); eauto 9 with ranking; [by intros b ?%elem_of_nil|by compute_ends|by compute_ends|by exists None].
  - rewrite decide_False by (intros E; destruct l' as [|h l']; injection E as ->; apply Hpl; set_solver).
    rewrite <- app_assoc in Hs. pose proof (seg_at _ _ (l' ++ [q]) p [] None ltac:(by rewrite <- app_assoc)) as Hlx.
    rewrite last_or_snoc, (page_links _ _ _ Hx) in Hlx. injection Hlx as Hpre Hnext.
    assert (Hqk : q ∈ L (InMQ i)) by (rewrite El; set_solver).
    destruct (member_page _ _ HL _ _ Hqk) as [y Hy].
    assert (p <> q) by (intros ->; apply Hpl; set_solver).
    rewrite (page_of_ok _ _ _ Hx). cbn [mbind outcome_bind]. rewrite Hpre. cbn [deref mbind outcome_bind].
    run_page. run_page. rewrite Hpre. run_page. eexists. split; [done|]. split.
    + apply (linked_set _ _ HL _ _ p); eauto 9 with ranking.
      * intros b Hb. right. rewrite El. by apply elem_of_app; left.
      * compute_ends. rewrite Hf. by destruct l'.
      * compute_ends. by rewrite last_snoc.
      * exists pr. apply seg_app in Hs as [H1 [H2 _]]. eapply (seg_set_next (links r0) _ _ _ (Some p)); [done|..].
        -- intros b Hb Hne. rewrite last_snoc in Hne. by compute_links.
        -- intros a z. rewrite last_snoc. intros [= <-] Hz. rewrite (page_links _ _ _ Hy) in Hz.
           injection Hz as <-. by compute_links.
        -- apply seg_app. by split.
    + rewrite bare_last. by rewrite (bare_put _ y).
Qed.

(** The first page of a queue: what is left is a list whatever its links to it
    become. *)
Lemma pop_ok p i l r' :
  L (InMQ i) = p :: l -> within (InMQ i) (p :: L (InMQ i)) r0 r' ->
  (forall b, b ∈ l -> Some b <> head l -> links r' b = links r0 b) ->
  (forall c y, head l = Some c -> page_at r0 c = Some y -> exists pr, links r' c = Some (pr, next y)) ->
  first_of (InMQ i) r' = Some (head l) -> last_of (InMQ i) r' = Some (last l) ->
  linked r' (<[InMQ i := l]> L).
Proof using HL.
  intros El Hw Ho Hc Hf Ht. assert (Hpk : p ∈ L (InMQ i)) by (rewrite El; set_solver).
  pose proof (lk_nodup _ _ HL (InMQ i)) as Hnd. rewrite El in Hnd. apply NoDup_cons in Hnd as [Hpl Hnd].
  destruct (chain_seg _ _ HL (InMQ i)) as [pr Hs]. rewrite El in Hs. destruct Hs as [_ Hs].
  apply (linked_set _ _ HL _ _ p); eauto using member_key, member_lt, others_not.
  - intros b Hb. right. rewrite El. by right.
  - cbn. destruct l as [|c l]; [by exists None|]. pose proof Hs as [Hlc _].
    apply links_page in Hlc as (y & Hy & _ & _). destruct (Hc c y eq_refl Hy) as [pr' Hc'].
    exists pr'. apply (seg_set_prev (links r0) _ (Some p)); [done..| |done].
    intros c' z [= <-] Hz. rewrite (page_links _ _ _ Hy) in Hz. injection Hz as <-. done.
Qed.

Lemma queue_front p i l x :
  L (InMQ i) = p :: l -> page_at r0 p = Some x ->
  next x = head l /\ (Some p = last (p :: l) <-> l = []) /\ p ∉ l.
Proof using HL.
  intros El Hx. destruct (chain_seg _ _ HL (InMQ i)) as [pr Hs]. rewrite El in Hs.
  destruct Hs as [Hl _]. rewrite (page_links _ _ _ Hx), first_or_None in Hl. injection Hl as _ Hn.
  pose proof (lk_nodup _ _ HL (InMQ i)) as Hnd. rewrite El in Hnd. apply NoDup_cons in Hnd as [Hpl _].
  split; [done|]. split; [|done]. split; [|by intros ->]. rewrite last_cons.
  destruct (last l) as [t|] eqn:Et; [|by intros _; apply last_None in Et].
  intros [= ->]. destruct Hpl. by apply last_Some_elem_of.
Qed.

Lemma cut_head_ok p i l :
  L (InMQ i) = p :: l ->
  exists r', cut_head p i r0 = Ok r' /\ linked r' (<[InMQ i := l]> L) /\ bare r' = bare r0.
Proof using HL.
  intros El. assert (Hpk : p ∈ L (InMQ i)) by (rewrite El; set_solver).
  pose proof (member_key _ _ HL _ _ Hpk) as Hk. destruct (member_page _ _ HL _ _ Hpk) as [x Hx].
  destruct (queue_front _ _ _ _ El Hx) as (Hnext & Hlast & Hpl).
  pose proof (lk_last _ _ HL _ Hk) as Ht. rewrite El in Ht.
  unfold cut_head. rewrite (aget_ok (MQ_tail r0) i _ Ht). cbn [mbind outcome_bind].
  destruct l as [|q l].
  - rewrite decide_True by by apply Hlast. run_page. run_page. eexists. split; [done|].
    split; [|by autorewrite with ranking].
    apply (pop_ok p); eauto 9 with ranking; [done|by compute_ends|by compute_ends].
  - rewrite decide_False by by rewrite Hlast. rewrite (page_of_ok _ _ _ Hx). cbn [mbind outcome_bind].
    rewrite Hnext. cbn [head deref mbind outcome_bind].
    assert (Hqk : q ∈ L (InMQ i)) by (rewrite El; set_solver).
    destruct (member_page _ _ HL _ _ Hqk) as [y Hy]. assert (p <> q) by set_solver.
    run_page. run_page. rewrite Hnext. run_page. eexists. split; [done|]. split.
    + apply (pop_ok p); rewrite <- ?El; eauto 9 with ranking.
      * intros b Hb Hne. cbn [head] in Hne. by compute_links.
      * intros c z [= <-] Hz. rewrite Hy in Hz. injection Hz as <-. exists None. by compute_links.
      * by compute_ends.
    + rewrite bare_first. by rewrite (bare_put _ y).
Qed.

Lemma drop_head_ok p i l :
  L (InMQ i) = p :: l ->
  exists r', (t ← aget (MQ_tail r0) i;
    if decide (Some p = t) then r ← set_queue_tail i None r0; set_queue_head i None r
    else x ← page_of p r0; set_queue_head i (next x) r0) = Ok r' /\
    linked r' (<[InMQ i := l]> L) /\ bare r' = bare r0.
Proof using HL.
  intros El. assert (Hpk : p ∈ L (InMQ i)) by (rewrite El; set_solver).
  pose proof (member_key _ _ HL _ _ Hpk) as Hk. destruct (member_page _ _ HL _ _ Hpk) as [x Hx].
  destruct (queue_front _ _ _ _ El Hx) as (Hnext & Hlast & Hpl).
  pose proof (lk_last _ _ HL _ Hk) as Ht. rewrite El in Ht.
  rewrite (aget_ok (MQ_tail r0) i _ Ht). cbn [mbind outcome_bind].
  destruct l as [|q l].
  - rewrite decide_True by by apply Hlast. run_page. run_page. eexists. split; [done|].
    split; [|by autorewrite with ranking].
    apply (pop_ok p); eauto 9 with ranking; [done|by compute_ends|by compute_ends].
  - rewrite decide_False by by rewrite Hlast. run_page. rewrite Hnext. run_page.
    eexists. split; [done|]. split; [|by autorewrite with ranking].
    apply (pop_ok p); rewrite <- ?El; eauto 9 with ranking.
    + intros c z _ Hz. exists (pre z). compute_links. by apply page_links.
    + by compute_ends.
Qed.

(** A page anywhere in a list. *)
Lemma middle_page k p l1 l2 :
  L k = l1 ++ p :: l2 ->
  exists x, page_at r0 p = Some x /\ next x = head l2 /\
    (l1 <> [] \/ (exists b, k = Free b) -> pre x = last l1) /\
    p ∉ l1 ++ l2 /\ NoDup (l1 ++ l2) /\ (forall a c, a ∈ l1 -> c ∈ l2 -> a <> c).
Proof using HL.
  intros El. assert (Hpk : p ∈ L k) by (rewrite El; set_solver).
  destruct (member_page _ _ HL _ _ Hpk) as [x Hx]. exists x. split; [done|].
  pose proof (lk_nodup _ _ HL k) as Hnd. rewrite El in Hnd.
  apply NoDup_app in Hnd as (Hn1 & Hd & [Hp2 Hn2]%NoDup_cons).
  assert (Hl : forall pr, seg (links r0) pr (L k) None -> last_or pr l1 = pre x /\ next x = head l2).
  { intros pr Hs. rewrite El in Hs. apply seg_at in Hs. rewrite (page_links _ _ _ Hx), first_or_None in Hs.
    injection Hs as -> ->. done. }
  split_and!.
  - destruct (chain_seg _ _ HL k) as [pr Hs]. by apply (Hl pr).
  - intros [Hne|[b ->]].
    + destruct (chain_seg _ _ HL k) as [pr Hs]. destruct (Hl pr Hs) as [<- _]. by apply last_or_some.
    + pose proof (lk_chain _ _ HL (Free b)) as Hs. cbn in Hs. destruct (Hl None Hs) as [<- _].
      by apply last_or_None.
  - intros [H|H]%elem_of_app; [|done]. apply (Hd p H). left.
  - apply NoDup_app. split; [done|]. split; [|done]. intros a Ha Ha2. apply (Hd a Ha). by right.
  - intros a c Ha Hc ->. apply (Hd c Ha). by right.
Qed.

(** The list without [p], whose neighbours are linked to each other. *)
Definition bypassed (l1 l2 : list nat) (r : Ranking) : Prop := forall b, b ∈ l1 ++ l2 ->
  links r b =
  (if decide (head l2 = Some b) then fun l => (last l1, l.2) else id) ∘
  (if decide (last l1 = Some b) then fun l => (l.1, head l2) else id) <$> links r0 b.

Lemma bypass_seg k p l1 l2 pr r :
  L k = l1 ++ p :: l2 -> last_or pr l1 = last l1 -> bypassed l1 l2 r ->
  seg (links r0) pr (L k) None -> seg (links r) pr (l1 ++ l2) None.
Proof using HL.
  intros El Hlo Hl. destruct (middle_page _ _ _ _ El) as (x & Hx & _ & _ & Hpl & Hnd & Hd).
  pose proof (lk_nodup _ _ HL k) as Hall. rewrite El in Hall |- *.
  apply (seg_bypass (links r0)); [done|..].
  - intros b Hb Hn1 Hn2. rewrite Hl, !decide_False by congruence. by destruct (links r0 b).
  - intros a z Ha Hz. assert (Ha1 : a ∈ l1) by by apply last_Some_elem_of.
    rewrite Hl by (apply elem_of_app; by left). destruct (decide (last l1 = Some a)); [|done].
    rewrite Hz, first_or_None, decide_False; [done|]. intros Hh. destruct l2 as [|c l2]; [done|].
    injection Hh as ->. apply (Hd a a); [done|left|done].
  - intros c z Hc Hz. assert (Hc2 : c ∈ l2) by (destruct l2; [done|]; injection Hc as ->; left).
    rewrite Hl by (apply elem_of_app; by right). destruct (decide (head l2 = Some c)); [|done].
    rewrite Hz, Hlo, decide_False; [done|]. intros Ha.
    apply (Hd c c); [by apply last_Some_elem_of|done..].
Qed.

Lemma bypass_linked k p l1 l2 r :
  L k = l1 ++ p :: l2 -> (l1 <> [] \/ exists b, k = Free b) ->
  within k (p :: L k) r0 r -> bypassed l1 l2 r ->
  first_of k r = (if decide (last l1 = None) then Some (head l2) else first_of k r0) ->
  last_of k r = (if decide (head l2 = None) then Some (last l1) else last_of k r0) ->
  linked r (<[k := l1 ++ l2]> L).
Proof using HL.
  intros El Hl1 Hw Hl Hf Ht. assert (Hpk : p ∈ L k) by (rewrite El; set_solver).
  pose proof (member_key _ _ HL _ _ Hpk) as Hk.
  destruct (middle_page _ _ _ _ El) as (x & _ & _ & _ & _ & Hnd & _).
  rewrite (lk_first _ _ HL _ Hk), El in Hf. rewrite (lk_last _ _ HL _ Hk), El in Ht.
  apply (linked_set _ _ HL _ _ p); eauto 2 using member_lt, others_not.
  - intros c Hc. right. rewrite El. set_solver.
  - rewrite Hf. by destruct l1 as [|a l1 _] using rev_ind; [|rewrite last_snoc; destruct l1].
  - rewrite Ht, last_app_cons, last_app. destruct l2 as [|c l2]; [by destruct (last l1)|]. cbn [head].
    rewrite last_cons_cons. destruct (last (c :: l2)) eqn:E; [done|by apply last_None in E].
  - pose proof (lk_chain _ _ HL k) as Hc. destruct Hl1 as [Hl1|[b ->]].
    + assert (Hs : forall pr, seg (links r0) pr (L k) None -> seg (links r) pr (l1 ++ l2) None).
      { intros pr. apply (bypass_seg k p); [done|by apply last_or_some|done]. }
      destruct k; cbn in *; [destruct Hc as [pr Hc]; exists pr|]; by apply Hs.
    + cbn in *. apply (bypass_seg (Free b) p); [done|apply last_or_None|done..].
Qed.

Lemma neighbours k p l1 l2 :
  L k = l1 ++ p :: l2 ->
  (forall a, last l1 = Some a -> a ∈ p :: L k) /\ (forall c, head l2 = Some c -> c ∈ p :: L k).
Proof using HL.
  intros El. rewrite El. split.
  - intros a Ha%last_Some_elem_of. set_solver.
  - intros c Hc. destruct l2; [done|]. injection Hc as ->. set_solver.
Qed.

Lemma head_elem (l : list nat) c : head l = Some c -> c ∈ l.
Proof using. destruct l; [done|]. intros [= ->]. left. Qed.

(** The two assignments that link the neighbours, in either order. *)
Lemma link_both k p l1 l2 :
  L k = l1 ++ p :: l2 ->
  bypassed l1 l2 (link_next k (last l1) (head l2) (link_prev k (head l2) (last l1) r0)) /\
  bypassed l1 l2 (link_prev k (head l2) (last l1) (link_next k (last l1) (head l2) r0)) /\
  within k (p :: L k) r0 (link_next k (last l1) (head l2) (link_prev k (head l2) (last l1) r0)) /\
  within k (p :: L k) r0 (link_prev k (head l2) (last l1) (link_next k (last l1) (head l2) r0)).
Proof using HL.
  intros El. assert (Hpk : p ∈ L k) by (rewrite El; set_solver).
  pose proof (member_key _ _ HL _ _ Hpk) as Hk. destruct (neighbours _ _ _ _ El) as [Hna Hnc].
  split_and!.
  - intros b _. rewrite links_link_next, links_link_prev.
    destruct (decide (last l1 = Some b)), (decide (head l2 = Some b)); by destruct (links r0 b).
  - intros b _. rewrite links_link_prev, links_link_next.
    destruct (decide (last l1 = Some b)), (decide (head l2 = Some b)); by destruct (links r0 b).
  - apply within_link_next; [apply within_link_prev; [apply within_refl|..]|..]; eauto with ranking.
  - apply within_link_prev; [apply within_link_next; [apply within_refl|..]|..]; eauto with ranking.
Qed.

(** What the code does is these assignments. *)
Lemma set_prev_runs b q v r :
  (forall a, q = Some a -> is_Some (page_at r a)) ->
  match q with
  | Some q => upd_page q (fun y => y <| pre := v |>) (rsys r)
  | None => Ok (set_free_tail b v (rsys r))
  end = Ok (rsys (link_prev (Free b) q v r)).
Proof using.
  intros Hq. destruct q as [q|]; [|done]. destruct (Hq q eq_refl) as [y Hy].
  unfold link_prev. rewrite Hy. by apply upd_page_ok.
Qed.
Lemma set_next_runs b q v r :
  (forall a, q = Some a -> is_Some (page_at r a)) ->
  match q with
  | Some q => upd_page q (fun y => y <| next := v |>) (rsys r)
  | None => Ok (set_free_list b v (rsys r))
  end = Ok (rsys (link_next (Free b) q v r)).
Proof using.
  intros Hq. destruct q as [q|]; [|done]. destruct (Hq q eq_refl) as [y Hy].
  unfold link_next. rewrite Hy. by apply upd_page_ok.
Qed.

Lemma leave_free_ok p b l1 l2 :
  L (Free b) = l1 ++ p :: l2 ->
  exists r', on_sys (leave_free b p) r0 = Ok r' /\ linked r' (<[Free b := l1 ++ l2]> L) /\ bare r' = bare r0.
Proof using HL.
  intros El. destruct (middle_page _ _ _ _ El) as (x & Hx & Hnext & Hpre & Hpl & Hnd & Hd).
  specialize (Hpre ltac:(right; by exists b)). destruct (link_both _ _ _ _ El) as (Hb & _ & Hw & _).
  set (r1 := link_prev (Free b) (head l2) (last l1) r0) in *.
  set (r2 := link_next (Free b) (last l1) (head l2) r1) in *.
  assert (Hx1 : page_at r1 p = Some x).
  { unfold r1. rewrite page_link_prev; [done|]. intros Hc%head_elem. set_solver. }
  assert (Hne : forall a, last l1 = Some a -> a ∈ l1) by (intros a; apply last_Some_elem_of).
  exists r2. unfold on_sys, leave_free, get_page. rewrite (aget_ok _ _ _ Hx). cbn [mbind outcome_bind].
  rewrite Hnext, Hpre, set_prev_runs.
  2: { intros c Hc%head_elem. apply (member_page _ _ HL (Free b)). rewrite El. set_solver. }
  cbn [mbind outcome_bind]. fold r1. rewrite (aget_ok _ _ _ Hx1). cbn [mbind outcome_bind].
  rewrite Hnext, Hpre, set_next_runs.
  2: { intros a Ha. unfold r1. rewrite page_link_prev.
       - apply (member_page _ _ HL (Free b)). rewrite El. set_solver.
       - intros Hc%head_elem. by apply (Hd a a); [apply Hne|..]. }
  cbn [mbind outcome_bind]. fold r2. split; [|split].
  - f_equal. unfold r2, r1. destruct (last l1), (head l2); cbn [link_next link_prev with_first with_last];
      repeat (destruct (page_at _ _)); by destruct r0.
  - apply (bypass_linked _ p); [done|right; by exists b|done..| |].
    + unfold r2, r1. rewrite first_link_next, first_link_prev by (by eexists). by destruct (last l1).
    + unfold r2, r1. rewrite last_link_next, last_link_prev by (by eexists). by destruct (head l2).
  - unfold r2, r1. by rewrite bare_link_next, bare_link_prev.
Qed.
End operations.

Lemma linked_ext r L L' : (forall k, L' k = L k) -> linked r L -> linked r L'.
Proof.
  intros E [H1 H2 H3 H4 H5 H6 H7]. split; intros k; intros; rewrite ?E in *; eauto.
Qed.

(** The first part of [change_queue]. *)
Lemma leave_queue_ok r L p i x l1 l2 :
  linked r L -> L (InMQ i) = l1 ++ p :: l2 -> page_at r p = Some x -> l1 <> [] ->
  exists r1 r2, on_sys (set_next (pre x) (next x)) r = Ok r1 /\ page_at r1 p = Some x /\
    match next x with
    | Some q => upd q (fun y => y <| pre := pre x |>) r1
    | None => set_queue_tail i (pre x) r1
    end = Ok r2 /\
    linked r2 (<[InMQ i := l1 ++ l2]> L) /\ bare r2 = bare r /\ page_at r2 p = Some x.
Proof.
  intros HL El Hx Hl1. assert (Hpk : p ∈ L (InMQ i)) by (rewrite El; set_solver).
  pose proof (member_key _ _ HL _ _ Hpk) as Hk.
  destruct (middle_page _ _ HL _ _ _ _ El) as (x' & Hx' & Hnext & Hpre & Hpl & Hnd & Hd).
  assert (x' = x) as -> by congruence. specialize (Hpre ltac:(by left)).
  destruct (link_both _ _ HL _ _ _ _ El) as (_ & Hb & _ & Hw).
  set (r1 := link_next (InMQ i) (last l1) (head l2) r) in *.
  set (r2 := link_prev (InMQ i) (head l2) (last l1) r1) in *.
  assert (Hp1 : last l1 <> Some p) by (intros ?%last_Some_elem_of; set_solver).
  assert (Hp2 : head l2 <> Some p) by (intros ?%head_elem; set_solver).
  assert (Hx1 : page_at r1 p = Some x) by (unfold r1; by rewrite page_link_next).
  exists r1, r2. split_and!.
  - unfold r1. rewrite Hpre, Hnext. destruct (last l1) as [a|] eqn:Ea; [|by apply last_None in Ea].
    apply last_Some_elem_of in Ea. destruct (member_page _ _ HL (InMQ i) a) as [y Hy]; [rewrite El; set_solver|].
    unfold link_next. rewrite Hy. by apply upd_ok.
  - done.
  - unfold r2. rewrite Hpre, Hnext. destruct (head l2) as [a|] eqn:Ea; cbn [link_prev].
    + apply head_elem in Ea. destruct (page_at r1 a) as [y|] eqn:Hy; [by apply upd_ok|].
      unfold r1 in Hy. destruct (member_page _ _ HL (InMQ i) a) as [y Hy']; [rewrite El; set_solver|].
      rewrite page_link_next in Hy; [congruence|]. intros Ha%last_Some_elem_of. by apply (Hd a a).
    + apply set_queue_tail_ok. unfold r1. rewrite last_link_next. by apply (last_some _ _ HL).
  - apply (bypass_linked _ _ HL _ p); [done|by left|done..| |].
    + unfold r2. rewrite first_link_prev. unfold r1. rewrite first_link_next by by apply (first_some _ _ HL).
      by destruct (last l1).
    + unfold r2. rewrite last_link_prev; unfold r1; rewrite last_link_next; [|by apply (last_some _ _ HL)].
      by destruct (head l2).
  - unfold r2, r1. by rewrite bare_link_prev, bare_link_next.
  - unfold r2. by rewrite page_link_prev.
Qed.

Lemma change_queue_ok r L p i x l1 l2 :
  linked r L -> L (InMQ i) = l1 ++ p :: l2 -> page_at r p = Some x -> queue_number x = Z.of_nat i ->
  exists r', change_queue p r = Ok r' /\ linked r' (<[InMQ i := p :: l1 ++ l2]> L) /\ bare r' = bare r.
Proof.
  intros HL El Hx Hq. assert (Hpk : p ∈ L (InMQ i)) by (rewrite El; set_solver).
  pose proof (member_key _ _ HL _ _ Hpk) as Hk. pose proof (lk_first _ _ HL _ Hk) as Hf. rewrite El in Hf.
  destruct (middle_page _ _ HL _ _ _ _ El) as (_ & _ & _ & _ & Hpl & _).
  unfold change_queue. rewrite (page_of_ok _ _ _ Hx). cbn [mbind outcome_bind]. rewrite Hq, Nat2Z.id.
  rewrite (aget_ok (MQ_head r) i _ Hf). cbn [mbind outcome_bind].
  destruct (decide (l1 = [])) as [->|Hl1].
  { rewrite decide_True by done. exists r. split; [done|]. split; [|done].
    apply (linked_ext _ L); [|done]. intros k. destruct (decide (k = InMQ i)) as [->|Hne].
    - by rewrite fn_lookup_insert, El.
    - by rewrite fn_lookup_insert_ne. }
  rewrite decide_False by (destruct l1; [done|]; intros [= ->]; apply Hpl; left).
  destruct (leave_queue_ok _ _ _ _ _ _ _ HL El Hx Hl1) as (r1 & r2 & -> & Hx1 & E2 & H2 & Hbare & Hx2).
  cbn [mbind outcome_bind]. rewrite (page_of_ok _ _ _ Hx1). cbn [mbind outcome_bind].
  rewrite E2. cbn [mbind outcome_bind].
  set (L2 := <[InMQ i := l1 ++ l2]> L) in *. assert (Hl2 : L2 (InMQ i) = l1 ++ l2) by apply fn_lookup_insert.
  assert (Hp2 : forall k', p ∉ L2 k').
  { intros k'. unfold L2. destruct (decide (k' = InMQ i)) as [->|Hne]; [by rewrite fn_lookup_insert|].
    rewrite fn_lookup_insert_ne by done. by apply (others_not _ _ HL (InMQ i)). }
  destruct l1 as [|c l1]; [done|]. cbn [app head] in *.
  destruct (member_page _ _ H2 (InMQ i) c) as [y Hy]; [rewrite Hl2; left|].
  assert (Hpc : p <> c) by (intros ->; apply Hpl; left).
  run_page. cbn [deref mbind outcome_bind]. erewrite (upd_ok c) by compute_page. cbn [mbind outcome_bind].
  rewrite set_queue_head_ok by (autorewrite with ranking; by apply (first_some _ _ H2)).
  eexists. split; [done|]. split.
  - apply (linked_ext _ (<[InMQ i := p :: L2 (InMQ i)]> L2)).
    { intros k. rewrite Hl2. unfold L2. destruct (decide (k = InMQ i)) as [->|Hne].
      - by rewrite !fn_lookup_insert.
      - by rewrite !fn_lookup_insert_ne. }
    assert (Hcl : c ∈ L2 (InMQ i)) by (rewrite Hl2; left).
    apply (push_linked _ _ H2); eauto 9 with ranking; rewrite ?Hl2.
    + intros b Hb Hne. assert (b <> p) by (intros ->; apply (Hp2 (InMQ i)); by rewrite Hl2).
      cbn [head] in Hne. by compute_links.
    + intros ? y' [= <-] Hy'. rewrite Hy in Hy'. injection Hy' as <-. by compute_links.
    + by compute_links.
    + rewrite first_first, decide_True; [done..|]. autorewrite with ranking. by apply (first_some _ _ H2).
    + compute_ends. rewrite (lk_last _ _ H2 _ Hk), Hl2. by rewrite last_cons_cons.
  - rewrite bare_first. erewrite (bare_put c); [|compute_page|done]. by rewrite (bare_put _ x).
Qed.
