(* ===== verification/PageRankLaws.v ===== *)
(** The ranking of pages stays whole: whatever is accessed, every page is in
    exactly one list, the lists are linked both ways, a page of PCM is never
    ranked above the queue pages are selected from, and none is selected
    twice. *)
From stdpp Require Import functions.
From S2P Require Import Prelude Linked Pages PageRank PageLists.

#[local] Open Scope Z_scope.

(** ** The invariant *)

(** What the fields of page [p] say in list [k]. *)
Definition home_ok (np : Z) (k : Key) (p : nat) (x : page_info) : Prop :=
  page_number x = Z.of_nat p /\ 0 <= access_counter x < 2 ^ 16 /\
  match k with
  | InMQ i => queue_number x = Z.of_nat i /\ access_counter x <> 0 /\ (Z.of_nat p < np -> (i <= 4)%nat)
  | Free b => access_counter x = 0 /\ b = (Z.of_nat p <? np)
  end.

(** The lists are those of [L]; of the page [out], if there is one, nothing is
    said. *)
Record ranked_but (out : option nat) (r : Ranking) (L : Key -> list nat) : Prop := {
  rk_linked : linked r L;
  rk_home k p x : Some p <> out -> p ∈ L k -> page_at r p = Some x -> home_ok (numPcmPages (rsys r)) k p x;
  rk_cover p : Some p <> out -> (p < length (pages (rsys r)))%nat -> exists k, p ∈ L k;
  rk_size : 0 < numPcmPages (rsys r) /\ 0 < numDramPages (rsys r) /\
    Z.of_nat (length (pages (rsys r))) = numPcmPages (rsys r) + numDramPages (rsys r) /\
    numPcmPages (rsys r) + numDramPages (rsys r) <= 2 ^ 20;
  rk_selected t n : (t, n) ∈ migratingPage r ->
    0 <= n /\ Z.to_nat n ∈ L (Free true) /\ Some (Z.to_nat n) <> out;
  rk_once : NoDup (migratingPage r).*2
}.
Definition ranked (r : Ranking) : Prop := exists L, ranked_but None r L.

Lemma bare_home np k p x y : bare_page y = bare_page x -> home_ok np k p x -> home_ok np k p y.
Proof.
  intros E. unfold home_ok, bare_page in *. injection E as E1 E2 _ _ E3 _. by rewrite E1, E2, E3.
Qed.
Lemma bare_rest r r' : bare r' = bare r ->
  numPcmPages (rsys r') = numPcmPages (rsys r) /\ numDramPages (rsys r') = numDramPages (rsys r) /\
  migratingPage r' = migratingPage r.
Proof. intros E. unfold bare in E. by injection E as _ -> -> ->. Qed.

(** Leaving a page out, and taking it back in. *)
Lemma ranked_except p r L k :
  ranked_but None r L -> p ∈ L k -> k <> Free true -> ranked_but (Some p) r L.
Proof.
  intros [Hl Hh Hc Hs Hm Ho] Hp Hk. split; eauto.
  intros t n (H1 & H2 & _)%Hm. split_and!; [done..|]. intros [= <-]. by apply Hk, (lk_one _ _ Hl _ _ _ Hp H2).
Qed.
Lemma ranked_except_free p r L :
  ranked_but None r L -> (forall t, (t, Z.of_nat p) ∉ migratingPage r) -> ranked_but (Some p) r L.
Proof.
  intros [Hl Hh Hc Hs Hm Ho] Hp. split; eauto.
  intros t n H. destruct (Hm t n H) as (H1 & H2 & _). split_and!; [done..|].
  intros [= <-]. apply (Hp t). by rewrite Z2Nat.id.
Qed.
Lemma ranked_back p r L k x :
  ranked_but (Some p) r L -> p ∈ L k -> page_at r p = Some x ->
  home_ok (numPcmPages (rsys r)) k p x -> ranked_but None r L.
Proof.
  intros [Hl Hh Hc Hs Hm Ho] Hp Hx Hk. split; try done.
  - intros k' q y _ Hq Hy. destruct (decide (q = p)) as [->|Hne]; [|by apply Hh; [congruence|..]].
    rewrite (lk_one _ _ Hl _ _ _ Hq Hp). by replace y with x by congruence.
  - intros q _ Hq. destruct (decide (q = p)) as [->|Hne]; [by exists k|]. apply Hc; [congruence|done].
  - intros t n (H1 & H2 & _)%Hm. by split_and!.
Qed.

(** Moving the page that is left out. *)
Lemma ranked_move p r r' L L' x :
  ranked_but (Some p) r L -> linked r' L' -> bare r' = bare (put p x r) -> (p < length (pages (rsys r)))%nat ->
  (forall k q, q <> p -> q ∈ L' k <-> q ∈ L k) -> ranked_but (Some p) r' L'.
Proof.
  intros [Hl Hh Hc Hs Hm Ho] Hl' E Hp Hq. destruct (bare_rest _ _ E) as (En & Ed & Em).
  pose proof (bare_length _ _ E) as El. rewrite length_put in El.
  change (numPcmPages (rsys (put p x r))) with (numPcmPages (rsys r)) in En.
  change (numDramPages (rsys (put p x r))) with (numDramPages (rsys r)) in Ed.
  change (migratingPage (put p x r)) with (migratingPage r) in Em.
  split; rewrite ?En, ?Ed, ?Em, ?El; try done.
  - intros k q y Hne Hk Hy. destruct (bare_page_at r' (put p x r) q y) as (z & Hz & Ez); [done..|].
    rewrite page_put, decide_False in Hz by (done || congruence).
    apply (bare_home _ _ _ z); [done|]. apply Hh; [done| |done]. apply Hq; [congruence|done].
  - intros q Hne Hlt. destruct (Hc q Hne Hlt) as [k Hk]. exists k. apply Hq; [congruence|done].
  - intros t n Hn. destruct (Hm t n Hn) as (H1 & H2 & H3). split_and!; [done| |done].
    apply Hq; [congruence|done].
Qed.
Lemma ranked_upd p r L x y :
  ranked_but (Some p) r L -> page_at r p = Some x -> pre y = pre x -> next y = next x ->
  ranked_but (Some p) (put p y r) L.
Proof.
  intros H Hx E1 E2. pose proof (page_lt _ _ _ Hx) as Hp. eapply (ranked_move p r _ L L y); [done| |done..].
  pose proof (rk_linked _ _ _ H) as [H1 H2 H3 H4 H5 H6 H7]. split.
  - done.
  - intros k q. rewrite length_put. apply H2.
  - done.
  - done.
  - intros k Hk. rewrite first_put. by apply H5.
  - intros k Hk. rewrite last_put. by apply H6.
  - intros k. apply (chained_ext _ r); [|done]. intros b _. rewrite links_put by done.
    destruct (decide (b = p)) as [->|]; [|done]. by rewrite (page_links _ _ _ Hx), E1, E2.
Qed.

Lemma page_put_eq p x r : (p < length (pages (rsys r)))%nat -> page_at (put p x r) p = Some x.
Proof. intros Hp. rewrite page_put by done. by rewrite decide_True. Qed.
Lemma bare_put_same p x r : page_at r p = Some x -> bare r = bare (put p x r).
Proof. intros Hx. by rewrite (bare_put _ x). Qed.

(** Membership after a change of one list. *)
Lemma member_set L k l k' (q : nat) : q ∈ (<[k := l]> L : Key -> list nat) k' <-> (k' = k /\ q ∈ l) \/ (k' <> k /\ q ∈ L k').
Proof.
  destruct (decide (k' = k)) as [->|Hne]; [rewrite fn_lookup_insert|rewrite fn_lookup_insert_ne by done]; naive_solver.
Qed.

(** ** Moves of one page *)

Section moves.
Context (r0 : Ranking) (L : Key -> list nat) (p : nat) (x : page_info).
Context (H : ranked_but (Some p) r0 L) (Hx : page_at r0 p = Some x).

Lemma put_in_MQ j :
  (forall k, p ∉ L k) -> (j < num_queues)%nat ->
  exists r' x' L', insert_into_MQ p j r0 = Ok r' /\ ranked_but (Some p) r' L' /\ p ∈ L' (InMQ j) /\
    (forall q, q ∈ L' (Free true) <-> q ∈ L (Free true)) /\
    page_at r' p = Some x' /\ bare_page x' = bare_page (x <| queue_number := Z.of_nat j |>) /\
    bare r' = bare (put p (x <| queue_number := Z.of_nat j |>) r0).
Proof using H Hx.
  intros Hp Hj. destruct (insert_into_MQ_ok _ _ (rk_linked _ _ _ H) p j x Hx Hp Hj) as (r' & E & HL & Hb).
  destruct (bare_page_at _ _ p _ Hb (page_put_eq _ _ _ (page_lt _ _ _ Hx))) as (x' & Hx' & Eb).
  exists r', x', (<[InMQ j := p :: L (InMQ j)]> L). split_and!; try done.
  - eapply ranked_move; [exact H|done|exact Hb|by eapply page_lt|]. intros k q Hq. rewrite member_set.
    destruct (decide (k = InMQ j)) as [->|Hne]; [|naive_solver]. rewrite elem_of_cons. naive_solver.
  - rewrite fn_lookup_insert. left.
Qed.

Lemma put_in_free b :
  (forall k, p ∉ L k) ->
  exists r' x' L', on_sys (insert_into_free b p) r0 = Ok r' /\ ranked_but (Some p) r' L' /\ p ∈ L' (Free b) /\
    (forall q, q ∈ L (Free true) -> q ∈ L' (Free true)) /\
    page_at r' p = Some x' /\ bare_page x' = bare_page x /\ bare r' = bare r0.
Proof using H Hx.
  intros Hp. destruct (insert_into_free_ok _ _ (rk_linked _ _ _ H) b p x Hx Hp) as (r' & E & HL & Hb).
  destruct (bare_page_at _ _ p _ Hb Hx) as (x' & Hx' & Eb).
  exists r', x', (<[Free b := L (Free b) ++ [p]]> L). split_and!; try done.
  - eapply (ranked_move p r0 _ L _ x); [exact H|done| |by eapply page_lt|].
    + by rewrite <- bare_put_same.
    + intros k q Hq. rewrite member_set.
      destruct (decide (k = Free b)) as [->|Hne]; [|naive_solver]. rewrite elem_of_app, list_elem_of_singleton.
      naive_solver.
  - rewrite fn_lookup_insert. apply elem_of_app. right. apply list_elem_of_singleton. done.
  - intros q Hq. apply member_set. destruct b; [left|right; done]. split; [done|]. apply elem_of_app. by left.
Qed.

(** Taking the page off list [k], by an operation that does so. *)
Lemma take_off k l (op : Ranking -> outcome Ranking) :
  p ∈ L k -> (forall q, q ∈ l <-> q ∈ L k /\ q <> p) ->
  (exists r', op r0 = Ok r' /\ linked r' (<[k := l]> L) /\ bare r' = bare r0) ->
  exists r' x' L', op r0 = Ok r' /\ ranked_but (Some p) r' L' /\ (forall k', p ∉ L' k') /\
    (forall k' q, q <> p -> q ∈ L' k' <-> q ∈ L k') /\
    page_at r' p = Some x' /\ bare_page x' = bare_page x /\ bare r' = bare r0.
Proof using H Hx.
  intros Hp Hl (r' & E & HL & Hb). destruct (bare_page_at _ _ p _ Hb Hx) as (x' & Hx' & Eb).
  assert (Hq : forall k' q, q <> p -> q ∈ (<[k := l]> L : Key -> list nat) k' <-> q ∈ L k').
  { intros k' q Hq. rewrite member_set. destruct (decide (k' = k)) as [->|Hne]; [rewrite Hl|]; naive_solver. }
  exists r', x', (<[k := l]> L). split_and!; try done.
  - eapply (ranked_move p r0 _ L _ x); [exact H|done| |by eapply page_lt|done]. by rewrite <- bare_put_same.
  - intros k'. rewrite member_set, Hl. intros [[_ [_ ?]]|[Hne Hp']]; [done|].
    by apply Hne, (lk_one _ _ (rk_linked _ _ _ H) _ _ p).
Qed.

(** The last, or the first, of a list without duplicates. *)
Lemma snoc_without k l : L k = l ++ [p] -> forall q, q ∈ l <-> q ∈ L k /\ q <> p.
Proof using H.
  intros El q. pose proof (lk_nodup _ _ (rk_linked _ _ _ H) k) as Hn. rewrite El in *.
  apply NoDup_app in Hn as (_ & Hn & _). rewrite elem_of_app, list_elem_of_singleton.
  split; [|naive_solver]. intros Hq. split; [by left|]. intros ->. apply (Hn p Hq), list_elem_of_singleton. done.
Qed.
Lemma cons_without k l : L k = p :: l -> forall q, q ∈ l <-> q ∈ L k /\ q <> p.
Proof using H.
  intros El q. pose proof (lk_nodup _ _ (rk_linked _ _ _ H) k) as Hn. rewrite El in *.
  apply NoDup_cons in Hn as [Hn _]. rewrite elem_of_cons. naive_solver.
Qed.
Lemma middle_without k l1 l2 : L k = l1 ++ p :: l2 -> forall q, q ∈ l1 ++ l2 <-> q ∈ L k /\ q <> p.
Proof using H.
  intros El q. pose proof (lk_nodup _ _ (rk_linked _ _ _ H) k) as Hn. rewrite El in *.
  apply NoDup_app in Hn as (_ & Hn & [Hp _]%NoDup_cons). rewrite !elem_of_app, elem_of_cons.
  specialize (Hn p). rewrite elem_of_cons in Hn.
  destruct (decide (q = p)) as [->|]; naive_solver.
Qed.
End moves.

(** ** Demotion and promotion *)

(** What a page that is put in queue [j] must satisfy. *)
Definition rankable (np : Z) (j : nat) (p : nat) (x : page_info) : Prop :=
  page_number x = Z.of_nat p /\ 0 <= access_counter x < 2 ^ 16 /\ access_counter x <> 0 /\
  (Z.of_nat p < np -> (j <= 4)%nat).

Lemma rankable_home np j p x y :
  bare_page y = bare_page (x <| queue_number := Z.of_nat j |>) -> rankable np j p x -> home_ok np (InMQ j) p y.
Proof.
  intros E (H1 & H2 & H3 & H4). apply (bare_home _ _ _ (x <| queue_number := Z.of_nat j |>)); [done|].
  split; [done|]. split; [done|]. by split_and!.
Qed.

Lemma is_pcm_page_ok np p x s :
  page_number x = Z.of_nat p -> numPcmPages s = np -> is_pcm_page x s = (Z.of_nat p <? np).
Proof. intros E <-. unfold is_pcm_page. by rewrite E. Qed.

(** The page leaves the end of queue [i]: to the queue below, or to the pages
    without rank. *)
Lemma move_to_low_ok r L p x i l :
  ranked_but (Some p) r L -> L (InMQ i) = l ++ [p] -> page_at r p = Some x -> (i < num_queues)%nat ->
  queue_number x = Z.of_nat i -> page_number x = Z.of_nat p -> 0 <= access_counter x < 2 ^ 16 ->
  (i <> 0%nat -> access_counter x <> 0) -> (Z.of_nat p < numPcmPages (rsys r) -> (i <= 4)%nat) ->
  exists r', move_to_low p r = Ok r' /\ ranked r' /\ migratingPage r' = migratingPage r.
Proof.
  intros H El Hx Hi Hq Hn Hc H0 Hpcm. assert (Hp : p ∈ L (InMQ i)) by (rewrite El; set_solver).
  unfold move_to_low. rewrite (page_of_ok _ _ _ Hx). cbn [mbind outcome_bind]. rewrite Hq, Nat2Z.id.
  rewrite (is_pcm_page_ok _ _ _ _ Hn eq_refl). set (np := numPcmPages (rsys r)) in *.
  destruct (take_off _ _ _ _ H Hx (InMQ i) l (cut_tail p i) Hp) as (r1 & x1 & L1 & -> & H1 & Hp1 & HL1 & Hx1 & E1 & Hb1).
  { by eapply snoc_without. } { by apply (cut_tail_ok _ _ (rk_linked _ _ _ H)). }
  cbn [mbind outcome_bind]. destruct (bare_rest _ _ Hb1) as (En1 & _ & Em1). fold np in En1.
  destruct (_ || _) eqn:Ec.
  - assert (Ei : forall b, (if b : bool then insert_into_unranked p r1 else insert_into_victim p r1) =
                  on_sys (insert_into_free b p) r1) by by intros [].
    rewrite Ei. clear Ei.
    destruct (put_in_free _ _ _ _ H1 Hx1 (Z.of_nat p <? np) Hp1) as (r2 & x2 & L2 & -> & H2 & Hp2 & _ & Hx2 & E2 & Hb2).
    destruct (bare_rest _ _ Hb2) as (En2 & _ & Em2). cbn [mbind outcome_bind].
    rewrite (upd_ok _ _ _ _ Hx2). eexists. split; [done|]. split; [|by cbn; rewrite Em2].
    exists L2. eapply ranked_back; [by eapply ranked_upd|exact Hp2|by apply page_put_eq; eapply page_lt|].
    change (numPcmPages (rsys (put p _ r2))) with (numPcmPages (rsys r2)). rewrite En2, En1.
    assert (En : page_number x2 = page_number x).
    { apply (f_equal page_number) in E1, E2. cbn in E1, E2. congruence. }
    split_and!; cbn; [by rewrite En|lia..|done|done].
  - apply orb_false_iff in Ec as [Ec _]. apply Nat.eqb_neq in Ec.
    destruct (put_in_MQ _ _ _ _ H1 Hx1 (i - 1) Hp1) as (r2 & x2 & L2 & -> & H2 & Hp2 & _ & Hx2 & E2 & Hb2); [lia|].
    destruct (bare_rest _ _ Hb2) as (En2 & _ & Em2). cbn [mbind outcome_bind].
    rewrite (upd_ok _ _ _ _ Hx2). eexists. split; [done|]. split; [|by cbn; rewrite Em2].
    exists L2. eapply ranked_back; [by eapply ranked_upd|exact Hp2|by apply page_put_eq; eapply page_lt|].
    change (numPcmPages (rsys (put p _ r2))) with (numPcmPages (rsys r2)).
    rewrite En2. change (numPcmPages (rsys (put p _ r1))) with (numPcmPages (rsys r1)). rewrite En1.
    assert (Hh : home_ok np (InMQ (i - 1)) p x2).
    { eapply (rankable_home _ _ _ x1); [done|]. unfold rankable.
      assert (page_number x1 = page_number x /\ access_counter x1 = access_counter x) as [-> ->].
      { split; [by apply (f_equal page_number) in E1|by apply (f_equal access_counter) in E1]. }
      split_and!; [done|lia..|by apply H0|]. intros ?%Hpcm. lia. }
    exact Hh.
Qed.

(** The counters of the pages. *)
Definition counts (r : Ranking) : list Z := access_counter <$> pages (rsys r).
Lemma counts_bare r r' : bare r' = bare r -> counts r' = counts r.
Proof.
  intros E. apply (f_equal (fun b => access_counter <$> b.1.1.1)) in E. unfold bare in E. cbn [fst] in E.
  rewrite <- !list_fmap_compose in E. exact E.
Qed.
Lemma counts_put p x y r : page_at r p = Some x -> access_counter y = access_counter x -> counts (put p y r) = counts r.
Proof.
  intros Hx E. unfold counts. change (pages (rsys (put p y r))) with (<[p := y]> (pages (rsys r))).
  rewrite list_fmap_insert, E, list_insert_id; [done|]. rewrite list_lookup_fmap.
  unfold page_at in Hx. by rewrite Hx.
Qed.
Lemma counts_page r r' p x : counts r' = counts r -> page_at r' p = Some x ->
  exists y, page_at r p = Some y /\ access_counter y = access_counter x.
Proof.
  intros E Hx. apply (f_equal (fun l => l !! p)) in E. unfold counts in E. rewrite !list_lookup_fmap in E.
  unfold page_at in *. rewrite Hx in E. destruct (pages (rsys r) !! p) as [y|]; [|done].
  exists y. split; [done|]. by injection E.
Qed.

Lemma move_to_up_ok r L p x i l :
  ranked_but (Some p) r L -> L (InMQ i) = p :: l -> page_at r p = Some x -> (i < 14)%nat ->
  queue_number x = Z.of_nat i -> rankable (numPcmPages (rsys r)) (i + 1) p x ->
  exists r', move_to_up p r = Ok r' /\
    (exists L', ranked_but None r' L' /\ forall q, q ∈ L' (Free true) <-> q ∈ L (Free true)) /\
    migratingPage r' = migratingPage r /\ numPcmPages (rsys r') = numPcmPages (rsys r) /\ counts r' = counts r.
Proof.
  intros H El Hx Hi Hq Hr. assert (Hp : p ∈ L (InMQ i)) by (rewrite El; set_solver).
  unfold move_to_up. rewrite (page_of_ok _ _ _ Hx). cbn [mbind outcome_bind]. rewrite Hq, Nat2Z.id.
  destruct (take_off _ _ _ _ H Hx (InMQ i) l (cut_head p i) Hp) as (r1 & x1 & L1 & -> & H1 & Hp1 & HL1 & Hx1 & E1 & Hb1).
  { by eapply cons_without. } { by apply (cut_head_ok _ _ (rk_linked _ _ _ H)). }
  cbn [mbind outcome_bind]. destruct (bare_rest _ _ Hb1) as (En1 & _ & Em1).
  destruct (put_in_MQ _ _ _ _ H1 Hx1 (i + 1) Hp1) as (r2 & x2 & L2 & -> & H2 & Hp2 & Hfree & Hx2 & E2 & Hb2).
  { unfold num_queues. lia. }
  destruct (bare_rest _ _ Hb2) as (En2 & _ & Em2). eexists. split; [done|].
  change (numPcmPages (rsys (put p _ r1))) with (numPcmPages (rsys r1)) in En2.
  split; [|split_and!; [by rewrite Em2|congruence|]].
  - exists L2. split.
    + eapply ranked_back; [done..|]. rewrite En2, En1.
      eapply (rankable_home _ _ _ x1); [done|]. destruct Hr as (Hr1 & Hr2 & Hr3 & Hr4).
      assert (page_number x1 = page_number x /\ access_counter x1 = access_counter x) as [Ep Ea].
      { split; [by apply (f_equal page_number) in E1|by apply (f_equal access_counter) in E1]. }
      unfold rankable. by rewrite Ep, Ea.
    + intros q. rewrite Hfree. destruct (decide (q = p)) as [->|Hne]; [|by apply HL1].
      split; [by intros ?%Hp1|]. intros Hp'. by pose proof (lk_one _ _ (rk_linked _ _ _ H) _ _ _ Hp Hp').
  - rewrite (counts_bare _ _ Hb2), <- (counts_bare _ _ Hb1). by apply (counts_put _ x1).
Qed.

(** With an unranked page, [select_page] adds at the end as the rest of the code
    does. *)
Lemma select_insert p t r :
  PCM_unranked_tail (rsys r) = Some t ->
  (r ← upd t (fun x => x <| next := Some p |>) r;
   r ← upd p (fun x => x <| pre := Some t |> <| next := None |>) r;
   Ok (r <| rsys ::= fun s => s <| PCM_unranked_tail := Some p |> |>)) =
  on_sys (insert_into_free true p) r.
Proof.
  intros Ht. unfold on_sys at 1, insert_into_free. cbn [free_tail]. rewrite Ht. unfold upd, on_sys.
  destruct (upd_page t _ (rsys r)) as [s|]; [|done]. cbn [mbind outcome_bind].
  match goal with |- context [rsys (?r <| rsys := ?s |>)] => change (rsys (r <| rsys := s |>)) with s end.
  by destruct (upd_page p _ s).
Qed.

(** The first page of queue 4 is selected: it goes to the end of the unranked
    pages, of which there must be one. *)
Lemma select_page_ok mid r L p x l :
  ranked_but None r L -> L (InMQ 4) = p :: l -> page_at r p = Some x -> Z.of_nat p < numPcmPages (rsys r) ->
  L (Free true) <> [] ->
  exists r' L', select_page mid p r = Ok r' /\ ranked_but None r' L' /\ L' (Free true) <> [] /\
    migratingPage r' = migratingPage r ++ [(Z.quot (mid - 7) 6, Z.of_nat p)].
Proof.
  intros H0 El Hx Hp Hne. assert (Hpk : p ∈ L (InMQ 4)) by (rewrite El; set_solver).
  pose proof (ranked_except p r L _ H0 Hpk ltac:(done)) as H.
  destruct (rk_home _ _ _ H0 _ p x ltac:(done) Hpk Hx) as (Hn & _).
  unfold select_page.
  destruct (take_off _ _ _ _ H Hx (InMQ 4) l (fun r => t ← aget (MQ_tail r) 4;
    if decide (Some p = t) then r ← set_queue_tail 4 None r; set_queue_head 4 None r
    else x ← page_of p r; set_queue_head 4 (next x) r) Hpk)
    as (r1 & x1 & L1 & Er & H1 & Hp1 & HL1 & Hx1 & E1 & Hb1).
  { by eapply cons_without. } { by apply (drop_head_ok _ _ (rk_linked _ _ _ H)). }
  destruct (aget (MQ_tail r) 4) as [t|]; [|done]. cbn [mbind outcome_bind] in Er |- *. rewrite Er.
  destruct (bare_rest _ _ Hb1) as (En1 & _ & Em1). cbn [mbind outcome_bind].
  rewrite (upd_ok _ _ _ _ Hx1). cbn [mbind outcome_bind]. set (x2 := x1 <| access_counter := 0 |>).
  assert (H2 : ranked_but (Some p) (put p x2 r1) L1) by (by apply (ranked_upd _ _ _ x1)).
  assert (Hx2 : page_at (put p x2 r1) p = Some x2) by (by apply page_put_eq; eapply page_lt).
  assert (exists q, q ∈ L1 (Free true)) as [q Hq].
  { destruct (L (Free true)) as [|q m] eqn:Em; [done|]. exists q.
    assert (Hq : q ∈ L (Free true)) by (rewrite Em; left). apply HL1; [|done].
    intros ->. by pose proof (lk_one _ _ (rk_linked _ _ _ H0) _ _ _ Hpk Hq). }
  pose proof (lk_last _ _ (rk_linked _ _ _ H2) (Free true) I) as Ht.
  destruct (last (L1 (Free true))) as [t'|] eqn:Et; [|apply last_None in Et; rewrite Et in Hq; by apply elem_of_nil in Hq].
  assert (Htail : PCM_unranked_tail (rsys (put p x2 r1)) = Some t') by by injection Ht.
  rewrite Htail, (select_insert p t') by done.
  destruct (put_in_free _ _ _ _ H2 Hx2 true Hp1) as (r3 & x3 & L3 & -> & H3 & Hp3 & Hf3 & Hx3 & E3 & Hb3).
  destruct (bare_rest _ _ Hb3) as (En3 & _ & Em3). cbn [mbind outcome_bind]. rewrite (page_of_ok _ _ _ Hx3).
  cbn [mbind outcome_bind]. change (migratingPage (put p x2 r1)) with (migratingPage r1) in Em3.
  change (numPcmPages (rsys (put p x2 r1))) with (numPcmPages (rsys r1)) in En3.
  assert (Epn : page_number x3 = Z.of_nat p).
  { apply (f_equal page_number) in E1, E3. cbn in E1, E3. congruence. }
  eexists _, L3. split; [done|]. rewrite Epn. split; [|split].
  - assert (H4 : ranked_but None r3 L3).
    { eapply ranked_back; [done..|]. rewrite En3, En1. apply (bare_home _ _ _ x2); [done|].
      assert (En : page_number x1 = page_number x) by by apply (f_equal page_number) in E1.
      split_and!; cbn; [by rewrite En|lia..|done|]. symmetry. by apply Z.ltb_lt. }
    destruct H4 as [Hl Hh Hc Hs Hm Ho]. split; [|exact Hh|exact Hc|exact Hs|..].
    + by destruct Hl.
    + intros t0 n. cbn. intros [Hn'|[= -> ->]%list_elem_of_singleton]%elem_of_app; [by apply (Hm t0)|].
      rewrite Nat2Z.id. by split_and!; [lia|..].
    + cbn. rewrite fmap_app. apply NoDup_app. split; [done|]. split; [|apply NoDup_singleton].
      intros n Hn1 ->%list_elem_of_singleton. apply list_elem_of_fmap in Hn1 as ([t0 n'] & Hn1 & Hn').
      cbn in Hn1. subst n'.
      rewrite Em3, Em1 in Hn'. destruct (rk_selected _ _ _ H t0 _ Hn') as (_ & _ & Hne').
      by cbn in Hne'; rewrite Nat2Z.id in Hne'.
  - intros E. apply Hf3 in Hq. rewrite E in Hq. by apply elem_of_nil in Hq.
  - cbn. by rewrite Em3, Em1.
Qed.

(** ** Rounds *)

Lemma queue_first r L i : linked r L -> (i < num_queues)%nat -> aget (MQ_head r) i = Ok (head (L (InMQ i))).
Proof. intros H Hi. apply aget_ok. by apply (lk_first _ _ H (InMQ i)). Qed.
Lemma queue_last r L i : linked r L -> (i < num_queues)%nat -> aget (MQ_tail r) i = Ok (last (L (InMQ i))).
Proof. intros H Hi. apply aget_ok. by apply (lk_last _ _ H (InMQ i)). Qed.

Lemma expire_queue_ok now i r :
  ranked r -> (i < num_queues)%nat ->
  exists r', expire_queue now i r = Ok r' /\ ranked r' /\ migratingPage r' = migratingPage r.
Proof.
  intros [L H] Hi. unfold expire_queue. rewrite (queue_last _ _ _ (rk_linked _ _ _ H) Hi). cbn [mbind outcome_bind].
  destruct (last (L (InMQ i))) as [p|] eqn:El; [|exists r; by split_and!; [|exists L|]].
  apply last_Some in El as [l El]. assert (Hp : p ∈ L (InMQ i)) by (rewrite El; set_solver).
  destruct (member_page _ _ (rk_linked _ _ _ H) _ _ Hp) as [x Hx].
  rewrite (page_of_ok _ _ _ Hx). cbn [mbind outcome_bind].
  destruct (_ <? _); [|exists r; by split_and!; [|exists L|]].
  destruct (rk_home _ _ _ H _ p x ltac:(done) Hp Hx) as (Hn & Hc & Hq & H0 & Hpcm).
  pose proof (ranked_except p r L _ H Hp ltac:(done)) as He.
  set (x1 := if 2 ^ Z.of_nat i <? access_counter x then x <| access_counter := u16 (2 ^ Z.of_nat i - 1) |> else x).
  assert (Hpow : 1 <= 2 ^ Z.of_nat i <= 2 ^ 14).
  { unfold num_queues in Hi. split; [apply (Z.pow_le_mono_r 2 0); lia|apply Z.pow_le_mono_r; lia]. }
  assert (Hx1 : queue_number x1 = Z.of_nat i /\ page_number x1 = Z.of_nat p /\ 0 <= access_counter x1 < 2 ^ 16 /\
                (i <> 0%nat -> access_counter x1 <> 0) /\ pre x1 = pre x /\ next x1 = next x).
  { unfold x1. destruct (_ <? _) eqn:E; [|split_and!; done || lia]. apply Z.ltb_lt in E.
    cbn [queue_number page_number set_field access_counter pre next].
    rewrite wrap_small by lia. split_and!; try done; [lia..|]. intros Hi0.
    assert (2 ^ 1 <= 2 ^ Z.of_nat i) by (apply Z.pow_le_mono_r; lia). lia. }
  destruct Hx1 as (Hq1 & Hn1 & Hc1 & H01 & Hp1 & Hnx1).
  assert (Hpl : (p < length (pages (rsys r)))%nat) by by eapply page_lt.
  assert (E1 : (if 2 ^ Z.of_nat i <? access_counter x
                then upd p (fun x => x <| access_counter := u16 (2 ^ Z.of_nat i - 1) |>) r else Ok r) = Ok (put p x1 r)).
  { unfold x1. destruct (_ <? _); [by apply upd_ok|]. f_equal. destruct r as [s mh mt mg], s.
    unfold put. cbn. rewrite list_insert_id; [done|exact Hx]. }
  rewrite E1. cbn [mbind outcome_bind].
  assert (Hx1 : page_at (put p x1 r) p = Some x1) by by apply page_put_eq.
  rewrite (upd_ok _ _ _ _ Hx1). cbn [mbind outcome_bind]. set (x2 := x1 <| last_access_time := now |>).
  assert (H2 : ranked_but (Some p) (put p x2 (put p x1 r)) L).
  { eapply ranked_upd; [by eapply ranked_upd|done..]. }
  destruct (move_to_low_ok _ _ p x2 i l H2) as (r' & -> & Hr & Hm); try done.
  - apply page_put_eq. by rewrite length_put.
  - by exists r'.
Qed.

(** What a round of [MQ_upgrade] leaves: the pages selected and the counters. *)
Definition selected (mid bound : Z) (r r' : Ranking) : Prop :=
  exists p x, page_at r p = Some x /\ bound <= access_counter x /\ Z.of_nat p < numPcmPages (rsys r) /\
    migratingPage r' = migratingPage r ++ [(Z.quot (mid - 7) 6, Z.of_nat p)].
Definition same_counts (r r' : Ranking) : Prop :=
  migratingPage r' = migratingPage r /\ numPcmPages (rsys r') = numPcmPages (rsys r) /\ counts r' = counts r.
Definition ready (r : Ranking) : Prop := exists L, ranked_but None r L /\ L (Free true) <> [].

Lemma selected_same mid bound r r1 r' : same_counts r r1 -> selected mid bound r1 r' -> selected mid bound r r'.
Proof.
  intros (Em & En & Ec) (p & x & Hx & Hb & Hp & E). destruct (counts_page _ _ _ _ Ec Hx) as (y & Hy & Ey).
  exists p, y. rewrite Ey, <- En, <- Em. by split_and!.
Qed.

Lemma upgrade_queue_ok mid i r :
  ready r -> (i < 14)%nat ->
  exists r', upgrade_queue mid i r = Ok r' /\ ready r' /\
    (same_counts r r' \/ i = 4%nat /\ selected mid 32 r r').
Proof.
  intros (L & H & Hne) Hi. unfold upgrade_queue.
  rewrite (queue_first _ _ _ (rk_linked _ _ _ H)) by (unfold num_queues; lia). cbn [mbind outcome_bind].
  assert (Hsame : same_counts r r) by done.
  destruct (L (InMQ i)) as [|p l] eqn:El; [exists r; by split_and!; [|exists L|left]|].
  cbn [head]. assert (Hp : p ∈ L (InMQ i)) by (rewrite El; left).
  destruct (member_page _ _ (rk_linked _ _ _ H) _ _ Hp) as [x Hx].
  rewrite (page_of_ok _ _ _ Hx). cbn [mbind outcome_bind].
  destruct (_ <=? _) eqn:Ec; [|exists r; by split_and!; [|exists L|left]]. apply Z.leb_le in Ec.
  destruct (rk_home _ _ _ H _ p x ltac:(done) Hp Hx) as (Hn & Hc & Hq & H0 & Hpcm).
  rewrite (is_pcm_page_ok _ _ _ _ Hn eq_refl).
  destruct (_ && _) eqn:Es.
  - apply andb_true_iff in Es as [->%Nat.eqb_eq Hp4%Z.ltb_lt].
    destruct (select_page_ok mid r L p x l H El Hx Hp4 Hne) as (r' & L' & -> & Hr & Hne' & Em).
    exists r'. split_and!; [done|by exists L'|]. right. split; [done|]. exists p, x. split_and!; try done.
  - destruct (move_to_up_ok r L p x i l) as (r' & -> & (L' & Hr & Hf) & Em & En & Ecs); try done.
    + by apply (ranked_except p r L _ H Hp).
    + split_and!; try done; [lia..|]. intros Hlt. specialize (Hpcm Hlt).
      apply andb_false_iff in Es as [Es%Nat.eqb_neq|Es%Z.ltb_ge]; lia.
    + exists r'. split_and!; [done| |by left]. exists L'. split; [done|].
      destruct (L (Free true)) as [|q m]; [done|]. intros E. specialize (Hf q). rewrite E in Hf.
      apply (elem_of_nil q), Hf. left.
Qed.

Lemma MQ_upgrade_ok mid r :
  ready r ->
  exists r', MQ_upgrade mid r = Ok r' /\ ranked r' /\ (migratingPage r' = migratingPage r \/ selected mid 32 r r').
Proof.
  intros H. unfold MQ_upgrade.
  destruct (for_from_inv (fun j r1 => ready r1 /\ (same_counts r r1 \/ (4 < j)%nat /\ selected mid 32 r r1))
    0 14 (upgrade_queue mid) r) as (r' & -> & (L & Hr & _) & Hs).
  - intros j r1 Hj [Hr Hs]. destruct (upgrade_queue_ok mid j r1 Hr) as (r2 & -> & Hr2 & H2); [lia|].
    exists r2. split_and!; [done..|]. destruct Hs as [Hs|[Hj4 Hs]].
    + destruct H2 as [H2|[-> H2]].
      * left. destruct Hs as (? & ? & ?), H2 as (? & ? & ?). split_and!; congruence.
      * right. split; [lia|]. by apply (selected_same _ _ _ r1).
    + right. split; [lia|]. destruct H2 as [(E & _)|[-> _]]; [|lia].
      destruct Hs as (p & x & ? & ? & ? & Em). exists p, x. split_and!; try done. congruence.
  - by split; [|left].
  - exists r'. split_and!; [done|by exists L|]. destruct Hs as [(? & _)|[_ Hs]]; [by left|by right].
Qed.

Lemma MQ_expiration_ok now r :
  ranked r -> exists r', MQ_expiration now r = Ok r' /\ ranked r' /\ migratingPage r' = migratingPage r.
Proof.
  intros H. unfold MQ_expiration.
  destruct (for_from_inv (fun _ r1 => ranked r1 /\ migratingPage r1 = migratingPage r) 0 15 (expire_queue now) r)
    as (r' & -> & H' & E); [|done|by exists r'].
  intros j r1 Hj [Hr E]. destruct (expire_queue_ok now j r1 Hr) as (r2 & -> & Hr2 & E2); [unfold num_queues; lia|].
  exists r2. split_and!; [done..|congruence].
Qed.

(** ** An access *)

(** The accessed page is in front of a queue. *)
Lemma rank_page_ok r L p x k b :
  ranked_but (Some p) r L -> p ∈ L k -> page_at r p = Some x -> home_ok (numPcmPages (rsys r)) k p x ->
  b = (Z.of_nat p <? numPcmPages (rsys r)) ->
  exists r' x' L' j,
    (if access_counter x =? 0 then r ← on_sys (leave_free b p) r; insert_into_MQ p 0 r else change_queue p r) = Ok r' /\
    ranked_but (Some p) r' L' /\ p ∈ L' (InMQ j) /\ page_at r' p = Some x' /\
    queue_number x' = Z.of_nat j /\ page_number x' = Z.of_nat p /\ access_counter x' = access_counter x /\
    (Z.of_nat p < numPcmPages (rsys r) -> (j <= 4)%nat) /\
    same_counts r r' /\ (forall q, q <> p -> q ∈ L (Free true) -> q ∈ L' (Free true)).
Proof.
  intros H Hp Hx (Hn & Hc & Hk) Hb. apply list_elem_of_split in Hp as Hsplit. destruct Hsplit as (l1 & l2 & El).
  destruct k as [i|b'].
  - destruct Hk as (Hq & H0 & Hpcm). destruct (Z.eqb_spec (access_counter x) 0) as [|_]; [done|].
    destruct (change_queue_ok r L p i x l1 l2 (rk_linked _ _ _ H) El Hx Hq) as (r' & -> & HL & Hbare).
    destruct (bare_page_at _ _ _ _ Hbare Hx) as (x' & Hx' & Ex). destruct (bare_rest _ _ Hbare) as (En & _ & Em).
    exists r', x', (<[InMQ i := p :: l1 ++ l2]> L), i. unfold bare_page in Ex. injection Ex as E1 E2 _ _ E3 _.
    assert (Hmem : forall k q, q ∈ (<[InMQ i := p :: l1 ++ l2]> L : Key -> list nat) k <-> q ∈ L k).
    { intros k q. rewrite member_set. destruct (decide (k = InMQ i)) as [->|Hne]; [|naive_solver].
      rewrite El. set_solver. }
    split_and!; try congruence; try done.
    + eapply (ranked_move p r _ L _ x); [done..| |by eapply page_lt|by intros; apply Hmem]. by rewrite <- bare_put_same.
    + by apply Hmem.
    + split_and!; [done..|by apply counts_bare].
  - destruct Hk as (H0 & Hb'). rewrite H0, Z.eqb_refl. assert (b = b') as -> by congruence.
    destruct (take_off _ _ _ _ H Hx (Free b') (l1 ++ l2) (on_sys (leave_free b' p)) Hp)
      as (r1 & x1 & L1 & -> & H1 & Hp1 & HL1 & Hx1 & E1 & Hb1).
    { by eapply middle_without. } { by apply (leave_free_ok _ _ (rk_linked _ _ _ H)). }
    cbn [mbind outcome_bind]. destruct (bare_rest _ _ Hb1) as (En1 & _ & Em1).
    destruct (put_in_MQ _ _ _ _ H1 Hx1 0 Hp1) as (r2 & x2 & L2 & -> & H2 & Hp2 & Hfree & Hx2 & E2 & Hb2).
    { unfold num_queues. lia. }
    destruct (bare_rest _ _ Hb2) as (En2 & _ & Em2). exists r2, x2, L2, 0%nat.
    change (numPcmPages (rsys (put p _ r1))) with (numPcmPages (rsys r1)) in En2.
    change (migratingPage (put p _ r1)) with (migratingPage r1) in Em2.
    unfold bare_page in E1, E2. injection E1 as F1 F2 _ _ F3 _. injection E2 as G1 G2 _ _ G3 _.
    split_and!; try congruence; try done; try lia.
    + split_and!; [congruence..|]. rewrite (counts_bare _ _ Hb2), <- (counts_bare _ _ Hb1). by apply (counts_put _ x1).
    + intros q Hq Hf. apply Hfree. by apply HL1.
Qed.

(** Another page than [p] is unranked. *)
Definition other_unranked (p : nat) (r : Ranking) : Prop :=
  match PCM_unranked_list (rsys r), PCM_unranked_tail (rsys r) with
  | Some h, Some t => h <> p \/ t <> p
  | _, _ => False
  end.
Lemma other_unranked_ok p r L : linked r L -> other_unranked p r -> exists q, q <> p /\ q ∈ L (Free true).
Proof.
  intros H. pose proof (lk_first _ _ H (Free true) I) as Hf. pose proof (lk_last _ _ H (Free true) I) as Ht.
  injection Hf as Hf. injection Ht as Ht. cbn [free_list free_tail] in Hf, Ht. unfold other_unranked. rewrite Hf, Ht.
  destruct (L (Free true)) as [|h l] eqn:El; [done|]. cbn [head]. destruct (last (h :: l)) as [t|] eqn:Et; [|done].
  intros [Hne|Hne]; [exists h|exists t]; split; [done|left|done|]. by apply last_Some_elem_of.
Qed.

Definition frame_of (addr : Z) : nat := Z.to_nat (Z.shiftr addr PageShift).
Definition memory_bytes (r : Ranking) : Z := Z.of_nat (length (pages (rsys r))) * 2 ^ PageShift.
Definition pcm_bytes (r : Ranking) : Z := numPcmPages (rsys r) * 2 ^ PageShift.

Lemma addr_page r addr :
  ranked r -> 0 <= addr < memory_bytes r ->
  addr_to_pageinfo addr (rsys r) = Ok (frame_of addr) /\ Z.of_nat (frame_of addr) = Z.shiftr addr PageShift /\
  (frame_of addr < length (pages (rsys r)))%nat /\
  PcmOrDram (pcm_bytes r) addr = (Z.of_nat (frame_of addr) <? numPcmPages (rsys r)).
Proof.
  intros [L H] Ha. destruct (rk_size _ _ _ H) as (Hp & Hd & Hl & Hs). unfold memory_bytes in Ha.
  assert (E : Z.shiftr addr PageShift = addr / 2 ^ PageShift) by by apply Z.shiftr_div_pow2.
  assert (Hd0 : 0 <= addr / 2 ^ PageShift) by (apply Z.div_pos; unfold PageShift; lia).
  assert (Hi : addr / 2 ^ PageShift < Z.of_nat (length (pages (rsys r))))
    by (apply Z.div_lt_upper_bound; unfold PageShift in *; lia).
  assert (En : Z.of_nat (frame_of addr) = Z.shiftr addr PageShift) by (unfold frame_of; lia).
  split_and!; [|done|lia|].
  - unfold addr_to_pageinfo, pagePtr, num_pages, first_page. rewrite E, swrap_small by lia.
    destruct (Z.leb_spec (numPcmPages (rsys r)) (addr / 2 ^ PageShift)) as [Hle|Hlt].
    + destruct (Z.leb_spec 0 (addr / 2 ^ PageShift - numPcmPages (rsys r))); [|lia].
      destruct (Z.ltb_spec (addr / 2 ^ PageShift - numPcmPages (rsys r)) (numDramPages (rsys r))); [|lia].
      cbn [andb]. f_equal. unfold frame_of. rewrite E. f_equal. lia.
    + destruct (Z.leb_spec 0 (addr / 2 ^ PageShift)); [|lia].
      destruct (Z.ltb_spec (addr / 2 ^ PageShift) (numPcmPages (rsys r))); [|lia].
      cbn [andb]. f_equal. unfold frame_of. by rewrite E, Z.add_0_l.
  - rewrite En, E. unfold PcmOrDram, pcm_bytes.
    assert (Hdm := Z.div_mod addr (2 ^ PageShift) ltac:(by unfold PageShift)).
    assert (Hm := Z.mod_pos_bound addr (2 ^ PageShift) ltac:(by unfold PageShift)).
    destruct (Z.leb_spec (numPcmPages (rsys r) * 2 ^ PageShift) addr), (Z.ltb_spec (addr / 2 ^ PageShift) (numPcmPages (rsys r)));
      unfold PageShift in *; cbn [negb]; nia || done.
Qed.

Lemma access_page_ok now mid addr r x :
  ranked r -> 0 <= addr < memory_bytes r -> other_unranked (frame_of addr) r ->
  page_at r (frame_of addr) = Some x -> access_counter x < 2 ^ 16 - 1 ->
  exists r', access_page (pcm_bytes r) now mid addr r = Ok r' /\ ranked r' /\
    (migratingPage r' = migratingPage r \/ selected mid 31 r r').
Proof.
  intros Hr Ha Hother Hx Hcount. destruct (addr_page r addr Hr Ha) as (Hp & En & Hlt & Hpcm).
  set (p := frame_of addr) in *. destruct Hr as [L H].
  destruct (other_unranked_ok p r L (rk_linked _ _ _ H) Hother) as (q & Hqp & Hq).
  unfold access_page. rewrite Hp, Hpcm, <- En. cbn [mbind outcome_bind]. set (b := Z.of_nat p <? numPcmPages (rsys r)).
  destruct (b && _) eqn:Em; [exists r; by split_and!; [|exists L|left]|].
  rewrite (upd_ok _ _ _ _ Hx). cbn [mbind outcome_bind]. set (x1 := x <| last_access_time := now |>).
  destruct (rk_cover _ _ _ H p ltac:(done) Hlt) as [k Hk].
  pose proof (rk_home _ _ _ H k p x ltac:(done) Hk Hx) as Hh.
  assert (H1 : ranked_but (Some p) (put p x1 r) L).
  { apply (ranked_upd p r L x); [|done..]. destruct (decide (k = Free true)) as [->|Hne]; [|by eapply ranked_except].
    apply ranked_except_free; [done|]. intros t Ht. destruct Hh as (_ & _ & _ & Hb). apply andb_false_iff in Em as [Em|Em].
    - unfold b in Em. congruence.
    - apply not_true_iff_false in Em. apply Em, existsb_exists. exists (t, Z.of_nat p).
      split; [by apply list_elem_of_In|apply Z.eqb_refl]. }
  assert (Hx1 : page_at (put p x1 r) p = Some x1) by by apply page_put_eq.
  rewrite (page_of_ok _ _ _ Hx1). cbn [mbind outcome_bind].
  destruct (rank_page_ok (put p x1 r) L p x1 k b H1 Hk Hx1 Hh eq_refl)
    as (r2 & x2 & L2 & j & -> & H2 & Hp2 & Hx2 & Hj & Hn2 & Hc2 & Hp4 & (Em2 & En2 & Ec2) & Hf2).
  cbn [mbind outcome_bind]. rewrite (upd_ok _ _ _ _ Hx2). cbn [mbind outcome_bind].
  set (x3 := x2 <| access_counter := _ |>).
  destruct Hh as (Hn & Hc & _). change (access_counter x1) with (access_counter x) in Hc2.
  assert (Hc3 : access_counter x3 = access_counter x + 1).
  { unfold x3. cbn [access_counter set_field]. rewrite Hc2. apply wrap_small. lia. }
  assert (H3 : ranked_but None (put p x3 r2) L2).
  { eapply ranked_back; [by eapply ranked_upd|exact Hp2|by apply page_put_eq; eapply page_lt|].
    split; [done|]. split; [lia|]. split; [done|]. split; [lia|].
    change (numPcmPages (rsys (put p x3 r2))) with (numPcmPages (rsys r2)). by rewrite En2. }
  destruct (MQ_upgrade_ok mid (put p x3 r2)) as (r4 & -> & H4 & Hs).
  { exists L2. split; [done|]. intros E. specialize (Hf2 q Hqp Hq). rewrite E in Hf2. by apply elem_of_nil in Hf2. }
  cbn [mbind outcome_bind]. destruct (MQ_expiration_ok now r4 H4) as (r5 & -> & H5 & Em5).
  exists r5. split_and!; [done..|].
  change (migratingPage (put p x1 r)) with (migratingPage r) in Em2.
  change (migratingPage (put p x3 r2)) with (migratingPage r2) in Hs. rewrite Em2 in Hs.
  destruct Hs as [Hs|(p' & y & Hy & Hb & Hp' & Es)]; [left; congruence|right].
  assert (exists z, page_at r p' = Some z /\ 31 <= access_counter z) as (z & Hz & Hzc).
  { rewrite page_put in Hy by by eapply page_lt. destruct (decide (p' = p)) as [->|Hne].
    - injection Hy as <-. exists x. split; [done|lia].
    - destruct (counts_page _ _ _ _ Ec2 Hy) as (z & Hz & Ez). rewrite page_put, decide_False in Hz by done.
      exists z. split; [done|lia]. }
  exists p', z. split_and!; [done..| |].
  - change (Z.of_nat p' < numPcmPages (rsys r2)) in Hp'. by rewrite En2 in Hp'.
  - rewrite Em5, Es. cbn. by rewrite Em2.
Qed.
