(* ===== verification/PageRankInit.v ===== *)
(** The ranking from the start of the simulation on: [System::init] leaves all
    pages unranked in the order of their frames, and every access keeps the
    ranking whole. *)
From stdpp Require Import functions.
From S2P Require Import Prelude Linked Pages PageRank PageLists PageRankLaws.

#[local] Open Scope Z_scope.

(** ** The lists of a fresh memory *)

(** The fields [init] gives page [p]. *)
Definition fresh_page (p : nat) (x : page_info) : Prop :=
  page_number x = Z.of_nat p /\ access_counter x = 0 /\ queue_number x = 0 /\ flag x = false /\ valid x = false.

(** The pages [l] of [s] are initialised and linked; the others are those of
    [s0]. *)
Record linked_up (s0 s : System) (l : list nat) : Prop := {
  lu_rest : s = s0 <| pages := pages s |>;
  lu_length : length (pages s) = length (pages s0);
  lu_seg : seg (links (Ranking_new s)) None l None;
  lu_fresh p : p ∈ l -> exists x, page_at (Ranking_new s) p = Some x /\ fresh_page p x;
  lu_other p : p ∉ l -> page_at (Ranking_new s) p = page_at (Ranking_new s0) p
}.

Lemma pagePtr_ok isPcm i s :
  0 <= i < num_pages isPcm s -> pagePtr isPcm i s = Ok (Z.to_nat (first_page isPcm s + i)).
Proof.
  intros Hi. unfold pagePtr. destruct (Z.leb_spec 0 i), (Z.ltb_spec i (num_pages isPcm s)); [done|lia..].
Qed.

Lemma rest_insert s0 s p x :
  s = s0 <| pages := pages s |> ->
  s <| pages ::= insert p x |> = s0 <| pages := pages (s <| pages ::= insert p x |>) |>.
Proof. intros H. exact (f_equal (fun s => s <| pages ::= insert p x |>) H). Qed.

(** Adding a page whose fields are set in two steps. *)
Lemma linked_up_snoc s0 s l p x :
  linked_up s0 s l -> p ∉ l -> NoDup l -> page_at (Ranking_new s) p = Some x ->
  Z.of_nat p < 2 ^ 20 ->
  exists s', (s ← upd_page p (fun x => x <| page_number := wrap 20 (Z.of_nat p) |>
                             <| access_counter := 0 |> <| queue_number := 0 |>
                             <| pre := last l |> <| next := None |>) s;
    s ← match last l with
        | Some q => upd_page q (fun x => x <| next := Some p |>) s
        | None => Ok s
        end;
    s ← upd_page p (fun x => x <| flag := false |> <| valid := false |>) s; Ok (s, Some p)) = Ok (s', Some p) /\
    linked_up s0 s' (l ++ [p]).
Proof.
  intros [Hr Hl Hs Hf Ho] Hp Hnd Hx Hsz. rewrite (upd_page_ok p _ s x Hx). cbn [mbind outcome_bind].
  rewrite wrap_small by lia. set (x1 := x <| page_number := _ |> <| access_counter := _ |> <| queue_number := _ |> <| pre := _ |> <| next := _ |>).
  set (x2 := x1 <| flag := false |> <| valid := false |>).
  assert (Hpl : (p < length (pages (rsys (Ranking_new s))))%nat) by by eapply page_lt.
  (* the links and pages of the result *)
  assert (exists s', (s ← match last l with
        | Some q => upd_page q (fun x => x <| next := Some p |>) (s <| pages ::= insert p x1 |>)
        | None => Ok (s <| pages ::= insert p x1 |>)
        end;
     s ← upd_page p (fun x => x <| flag := false |> <| valid := false |>) s; Ok (s, Some p)) = Ok (s', Some p) /\
     s' = s0 <| pages := pages s' |> /\ length (pages s') = length (pages s0) /\
     page_at (Ranking_new s') p = Some x2 /\
     (forall b, b <> p -> Some b <> last l -> page_at (Ranking_new s') b = page_at (Ranking_new s) b) /\
     (forall a y, last l = Some a -> page_at (Ranking_new s) a = Some y ->
        page_at (Ranking_new s') a = Some (y <| next := Some p |>))) as (s' & E & H1 & H2 & H3 & H4 & H5).
  { pose proof (page_put_eq p x1 (Ranking_new s) Hpl) as Hx1.
    destruct (last l) as [a|] eqn:El.
    - assert (Ha : a ∈ l) by by apply last_Some_elem_of. destruct (Hf a Ha) as (y & Hy & _).
      assert (Hap : a <> p) by (by intros ->).
      assert (Hy1 : page_at (put p x1 (Ranking_new s)) a = Some y) by (rewrite page_put by done; by rewrite decide_False).
      rewrite (upd_page_ok a _ _ y Hy1). cbn [mbind outcome_bind].
      set (r2 := put a (y <| next := Some p |>) (put p x1 (Ranking_new s))).
      assert (Hx2 : page_at r2 p = Some x1) by (unfold r2; rewrite page_put by (by eapply page_lt); by rewrite decide_False).
      rewrite (upd_page_ok p _ _ x1 Hx2). eexists. split; [done|]. split; [by repeat apply rest_insert|].
      split; [cbn; by rewrite !length_insert|]. assert (Hp2 : (p < length (pages (rsys r2)))%nat) by by eapply page_lt.
      split_and!.
      + by apply (page_put_eq p x2 r2).
      + intros b Hb Hne. rewrite (page_put p x2 r2), decide_False by done. unfold r2.
        rewrite page_put, decide_False by (congruence || by eapply page_lt). by rewrite page_put, decide_False.
      + intros a' y' [= <-] Hy'. assert (y' = y) as -> by congruence. rewrite (page_put p x2 r2), decide_False by done.
        unfold r2. apply page_put_eq. by eapply page_lt.
    - cbn [mbind outcome_bind]. rewrite (upd_page_ok p _ _ x1 Hx1). eexists. split; [done|].
      split; [by repeat apply rest_insert|]. split; [cbn; by rewrite !length_insert|].
      assert (Hp2 : (p < length (pages (rsys (put p x1 (Ranking_new s)))))%nat) by by rewrite length_put.
      split_and!; [by apply (page_put_eq p x2 (put p x1 (Ranking_new s)))| |done].
      intros b Hb _. rewrite (page_put p x2 (put p x1 (Ranking_new s))), decide_False by done.
      by rewrite page_put, decide_False. }
  exists s'. split; [exact E|]. split; try done.
  - apply seg_app. split.
    + apply (seg_set_next (links (Ranking_new s)) _ _ _ None); [done| | |done].
      * intros b Hb Hne. unfold links. by rewrite H4 by (done || by intros ->).
      * intros a [u v] Ha Hlk. apply links_page in Hlk as (y & Hy & <- & <-). unfold links. by rewrite (H5 a y).
    + split; [|done]. unfold links. by rewrite H3, last_or_None.
  - intros b [Hb| ->%list_elem_of_singleton]%elem_of_app; [|by exists x2].
    destruct (Hf b Hb) as (y & Hy & Hfy). destruct (decide (last l = Some b)) as [Hlb|Hne].
    + exists (y <| next := Some p |>). split; [by apply H5|done].
    + exists y. split; [|done]. rewrite H4; [done|by intros ->|congruence].
  - intros b Hb. rewrite H4; [apply Ho| |]; [set_solver..|]. intros Hlb. apply Hb, elem_of_app. left.
    by apply last_Some_elem_of.
Qed.

Definition first_nat (isPcm : bool) (s : System) : nat := Z.to_nat (first_page isPcm s).
Definition num_nat (isPcm : bool) (s : System) : nat := Z.to_nat (num_pages isPcm s).

Lemma linked_up_num isPcm s0 s l : linked_up s0 s l ->
  num_pages isPcm s = num_pages isPcm s0 /\ first_page isPcm s = first_page isPcm s0.
Proof. intros H. rewrite (lu_rest _ _ _ H). by destruct isPcm. Qed.

Lemma linked_up_nil s : linked_up s s [].
Proof. split; try done; [by destruct s|by intros p ?%elem_of_nil]. Qed.

Section phase.
Context (isPcm : bool) (s0 : System).
Context (Hfirst : 0 <= first_page isPcm s0) (Hnum : 0 < num_pages isPcm s0).
Context (Hroom : first_page isPcm s0 + num_pages isPcm s0 <= Z.of_nat (length (pages s0)) <= 2 ^ 20).
Local Abbreviation f := (first_nat isPcm s0).
Local Abbreviation n := (num_nat isPcm s0).

Lemma init_loop_ok :
  exists s, for_from 0 n (init_page isPcm) (s0, None) = Ok (s, last (seq f n)) /\ linked_up s0 s (seq f n).
Proof using Hfirst Hnum Hroom.
  destruct (for_from_inv (fun j st => st.2 = last (seq f j) /\ linked_up s0 st.1 (seq f j)) 0 n
    (init_page isPcm) (s0, None)) as ([s q] & E & Hq & H).
  - intros j [s q] Hj [Hq H]. cbn [fst snd] in *. subst q.
    destruct (linked_up_num isPcm _ _ _ H) as [En Ef].
    assert (Ep : first_page isPcm s + Z.of_nat j = Z.of_nat (f + j)) by (rewrite Ef; unfold first_nat; lia).
    destruct (lt_page (Ranking_new s) (f + j)) as [x Hx].
    { cbn. rewrite (lu_length _ _ _ H). unfold first_nat, num_nat in *. lia. }
    destruct (linked_up_snoc _ _ _ (first_nat isPcm s0 + j)%nat x H) as (s' & E & H'); [|apply NoDup_seq|done| |].
    + intros Hi%elem_of_seq. lia.
    + unfold first_nat, num_nat in *. lia.
    + exists (s', Some (f + j)%nat). rewrite seq_S, last_snoc. split; [|by split].
      unfold init_page.
      rewrite pagePtr_ok by (rewrite En; unfold num_nat in Hj; lia). cbn [mbind outcome_bind].
      rewrite Ep, Nat2Z.id. exact E.
  - split; [done|]. apply linked_up_nil.
  - exists s. cbn [fst snd] in *. rewrite E. by subst q.
Qed.

Lemma init_pages_ok :
  exists s, init_pages isPcm s0 = Ok (s, f, (f + n - 1)%nat) /\ linked_up s0 s (seq f n).
Proof using Hfirst Hnum Hroom.
  destruct init_loop_ok as (s & E & H). exists s. unfold init_pages. unfold num_nat in E.
  rewrite E. cbn [mbind outcome_bind]. destruct (linked_up_num isPcm _ _ _ H) as [En Ef].
  rewrite pagePtr_ok by lia. cbn [mbind outcome_bind]. rewrite Ef, Z.add_0_r.
  assert (Hx : exists x, page_at (Ranking_new s) f = Some x /\ pre x = None).
  { pose proof (lu_seg _ _ _ H) as Hs. unfold num_nat in Hs. destruct (Z.to_nat (num_pages isPcm s0)) as [|m] eqn:Em; [lia|].
    destruct Hs as [Hl _]. apply links_page in Hl as (x & Hx & Hp & _). by exists x. }
  destruct Hx as (x & Hx & Hpre). fold (first_nat isPcm s0). rewrite (upd_page_ok _ _ s x Hx). cbn [mbind outcome_bind].
  assert (Es : s <| pages ::= insert f (x <| pre := None |>) |> = s).
  { assert (x <| pre := None |> = x) as -> by (destruct x; cbn in *; by subst).
    assert (Ei : <[f := x]> (pages s) = pages s) by by apply list_insert_id.
    transitivity (s <| pages := <[f := x]> (pages s) |>); [done|]. rewrite Ei. by destruct s. }
  rewrite Es, pagePtr_ok by lia. cbn [mbind outcome_bind]. split; [|done].
  f_equal. f_equal. rewrite En, Ef. unfold num_nat, first_nat. lia.
Qed.
End phase.

Lemma seq_head a k : (0 < k)%nat -> head (seq a k) = Some a.
Proof. by destruct k; [lia|]. Qed.
Lemma seq_last a k : (0 < k)%nat -> last (seq a k) = Some (a + k - 1)%nat.
Proof.
  intros Hk. destruct k as [|k]; [lia|]. rewrite seq_S, last_snoc. f_equal. lia.
Qed.

(** The lists after [init]. *)
Definition first_lists (np nd : nat) (k : Key) : list nat :=
  match k with InMQ _ => [] | Free true => seq 0 np | Free false => seq np nd end.

Lemma init_ranked s :
  0 < numPcmPages s -> 0 < numDramPages s ->
  Z.of_nat (length (pages s)) = numPcmPages s + numDramPages s -> numPcmPages s + numDramPages s <= 2 ^ 20 ->
  exists s', init s = Ok s' /\ ranked (Ranking_new s').
Proof.
  intros Hp Hd Hl Hs. set (np := Z.to_nat (numPcmPages s)). set (nd := Z.to_nat (numDramPages s)).
  destruct (init_pages_ok false s) as (s1 & E1 & H1); [cbn; lia..|].
  change (first_nat false s) with np in *. change (num_nat false s) with nd in *.
  unfold init. rewrite E1. cbn [mbind outcome_bind].
  set (s1' := s1 <| DRAM_victim_list := _ |> <| DRAM_victim_tail := _ |>).
  pose proof (lu_rest _ _ _ H1) as R1. pose proof (lu_length _ _ _ H1) as L1.
  assert (Ep1 : numPcmPages s1' = numPcmPages s) by (unfold s1'; rewrite R1; done).
  assert (Ed1 : numDramPages s1' = numDramPages s) by (unfold s1'; rewrite R1; done).
  assert (El1 : length (pages s1') = length (pages s)) by exact L1.
  destruct (init_pages_ok true s1') as (s2 & E2 & H2); [cbn [first_page num_pages]; lia..|].
  change (first_nat true s1') with 0%nat in *.
  assert (En2 : num_nat true s1' = np) by (unfold num_nat; cbn [num_pages]; by rewrite Ep1).
  rewrite En2 in *. rewrite E2. cbn [mbind outcome_bind]. eexists. split; [done|].
  set (s3 := s2 <| PCM_unranked_list := _ |> <| PCM_unranked_tail := _ |>).
  pose proof (lu_rest _ _ _ H2) as R2. pose proof (lu_length _ _ _ H2) as L2.
  assert (Epages : pages s3 = pages s2) by done.
  assert (Ep : numPcmPages s3 = numPcmPages s) by (unfold s3; rewrite R2; cbn [numPcmPages set_field]; exact Ep1).
  assert (Ed : numDramPages s3 = numDramPages s) by (unfold s3; rewrite R2; cbn [numDramPages set_field]; exact Ed1).
  assert (Ehl : DRAM_victim_list s3 = Some np /\ DRAM_victim_tail s3 = Some (np + nd - 1)%nat)
    by (unfold s3; rewrite R2; done).
  assert (Elen : length (pages s3) = length (pages s)) by (rewrite Epages, L2; exact El1).
  assert (Hpage : forall p, p ∈ seq np nd -> page_at (Ranking_new s3) p = page_at (Ranking_new s1) p).
  { intros p Hi%elem_of_seq. transitivity (page_at (Ranking_new s2) p); [done|].
    rewrite (lu_other _ _ _ H2); [done|]. intros Hi2%elem_of_seq. lia. }
  exists (first_lists np nd). split.
  - split.
    + intros [i|[]]; by cbn.
    + intros [i|[]] p; cbn [first_lists]; [by intros ?%elem_of_nil|intros Hi%elem_of_seq..]; cbn; lia.
    + intros [i|[]] [j|[]] p; cbn [first_lists]; rewrite ?elem_of_nil, ?elem_of_seq; (done || lia).
    + intros [i|[]]; cbn [first_lists]; [constructor|apply NoDup_seq..].
    + intros [i|[]] Hk; cbn [first_of first_lists].
      * by apply lookup_replicate_2.
      * rewrite seq_head by lia. done.
      * rewrite seq_head by lia. exact (f_equal Some (proj1 Ehl)).
    + intros [i|[]] Hk; cbn [last_of first_lists].
      * by apply lookup_replicate_2.
      * rewrite seq_last by lia. done.
      * rewrite seq_last by lia. exact (f_equal Some (proj2 Ehl)).
    + intros [i|[]]; cbn [chained first_lists]; [by exists None|exact (lu_seg _ _ _ H2)|].
      apply (seg_ext (links (Ranking_new s1))); [|exact (lu_seg _ _ _ H1)].
      intros b Hb. unfold links. by rewrite Hpage.
  - assert (Hf : forall p k, p ∈ first_lists np nd k -> exists x, page_at (Ranking_new s3) p = Some x /\ fresh_page p x).
    { intros p [i|[]]; cbn [first_lists]; [by intros ?%elem_of_nil|exact (lu_fresh _ _ _ H2 p)|].
      intros Hi. rewrite Hpage by done. by apply (lu_fresh _ _ _ H1). }
    intros k p x _ Hk Hx. destruct (Hf p k Hk) as (y & Hy & (F1 & F2 & F3 & F4 & F5)).
    assert (y = x) as -> by congruence. split; [done|]. split; [lia|].
    change (numPcmPages (rsys (Ranking_new s3))) with (numPcmPages s3). rewrite Ep.
    destruct k as [i|[]]; cbn [first_lists] in Hk; [by apply elem_of_nil in Hk| |]; apply elem_of_seq in Hk; split; try done;
      symmetry; [apply Z.ltb_lt|apply Z.ltb_ge]; lia.
  - intros p _ Hi. cbn in Hi. destruct (decide (p < np)%nat); [exists (Free true)|exists (Free false)]; apply elem_of_seq; lia.
  - unfold Ranking_new. cbn [rsys]. rewrite Ep, Ed, Elen. by split_and!.
  - by intros t n ?%elem_of_nil.
  - constructor.
Qed.

(** ** Reachable rankings *)

(** An access the ranking is made for: inside the memory, to a page whose
    16-bit counter is not full, with another page of PCM left unranked. *)
Record ordinary (addr : Z) (r : Ranking) : Prop := {
  or_addr : 0 <= addr < memory_bytes r;
  or_other : other_unranked (frame_of addr) r;
  or_count x : page_at r (frame_of addr) = Some x -> access_counter x < 2 ^ 16 - 1
}.

Inductive reaches (pcmsize dramsize : Z) : Ranking -> Prop :=
  | reaches_init u s :
      init (System_new pcmsize dramsize u) = Ok s -> reaches pcmsize dramsize (Ranking_new s)
  | reaches_access now mid addr r r' :
      reaches pcmsize dramsize r -> ordinary addr r ->
      access_page (pcm_bytes r) now mid addr r = Ok r' -> reaches pcmsize dramsize r'.

(** The sizes of a memory: at least a page of each kind, and page numbers of 20
    bits. *)
Definition memory_sizes (pcmsize dramsize : Z) : Prop :=
  2 ^ PageShift <= pcmsize /\ 2 ^ PageShift <= dramsize /\ pcmsize + dramsize <= 2 ^ 32.

Lemma sizes_ok pcmsize dramsize u (s := System_new pcmsize dramsize u) :
  memory_sizes pcmsize dramsize ->
  0 < numPcmPages s /\ 0 < numDramPages s /\
  Z.of_nat (length (pages s)) = numPcmPages s + numDramPages s /\ numPcmPages s + numDramPages s <= 2 ^ 20.
Proof.
  intros (Hp & Hd & Hs). unfold s, System_new. cbn [numPcmPages numDramPages pages].
  rewrite !Z.shiftr_div_pow2 by done.
  assert (Hp' : 1 <= pcmsize / 2 ^ PageShift) by (apply Z.div_le_lower_bound; unfold PageShift in *; lia).
  assert (Hd' : 1 <= dramsize / 2 ^ PageShift) by (apply Z.div_le_lower_bound; unfold PageShift in *; lia).
  assert (Hm : pcmsize / 2 ^ PageShift + dramsize / 2 ^ PageShift <= 2 ^ 20).
  { assert (Ep := Z.div_mod pcmsize (2 ^ PageShift) ltac:(done)). assert (Ed := Z.div_mod dramsize (2 ^ PageShift) ltac:(done)).
    assert (Mp := Z.mod_pos_bound pcmsize (2 ^ PageShift) ltac:(done)).
    assert (Md := Z.mod_pos_bound dramsize (2 ^ PageShift) ltac:(done)). unfold PageShift in *. lia. }
  rewrite !swrap_small by lia. rewrite length_replicate. lia.
Qed.

Lemma reaches_ranked pcmsize dramsize r : memory_sizes pcmsize dramsize -> reaches pcmsize dramsize r -> ranked r.
Proof.
  intros Hs. induction 1 as [u s E|now mid addr r r' _ IH [Ha Ho Hc] E].
  - destruct (sizes_ok pcmsize dramsize u Hs) as (H1 & H2 & H3 & H4).
    destruct (init_ranked _ H1 H2 H3 H4) as (s' & E' & H). by replace s with s' by congruence.
  - destruct (addr_page r addr IH Ha) as (_ & _ & Hlt & _). destruct (lt_page r _ Hlt) as [x Hx].
    destruct (access_page_ok now mid addr r x IH Ha Ho Hx (Hc x Hx)) as (r1 & E1 & H & _).
    by replace r' with r1 by congruence.
Qed.



(** ** A page becomes hot *)

Definition ordinary_b (addr : Z) (r : Ranking) : bool :=
  (0 <=? addr) && (addr <? memory_bytes r) &&
  match PCM_unranked_list (rsys r), PCM_unranked_tail (rsys r) with
  | Some h, Some t => negb (h =? frame_of addr)%nat || negb (t =? frame_of addr)%nat
  | _, _ => false
  end &&
  match page_at r (frame_of addr) with Some x => access_counter x <? 2 ^ 16 - 1 | None => true end.
Lemma ordinary_b_ok addr r : ordinary_b addr r = true -> ordinary addr r.
Proof.
  unfold ordinary_b. intros [[[H1%Z.leb_le H2%Z.ltb_lt]%andb_prop H3]%andb_prop H4]%andb_prop. split.
  - done.
  - unfold other_unranked. destruct (PCM_unranked_list (rsys r)), (PCM_unranked_tail (rsys r)); try done.
    apply orb_prop in H3 as [H3|H3]; [left|right]; by apply negb_true_iff, Nat.eqb_neq in H3.
  - intros x Hx. rewrite Hx in H4. by apply Z.ltb_lt.
Qed.

(** [n] ordinary accesses to one page. *)
Fixpoint hammer (n : nat) (now addr : Z) (r : Ranking) : option Ranking :=
  match n with
  | O => Some r
  | S n =>
      if ordinary_b addr r then
        match access_page (pcm_bytes r) now 7 addr r with Ok r => hammer n (now + 10) addr r | _ => None end
      else None
  end.
Lemma hammer_reaches pcmsize dramsize n now addr r r' :
  reaches pcmsize dramsize r -> hammer n now addr r = Some r' -> reaches pcmsize dramsize r'.
Proof.
  revert now r. induction n as [|n IH]; intros now r Hr; cbn [hammer]; [by intros [= <-]|].
  destruct (ordinary_b addr r) eqn:Eo; [|done]. destruct (access_page _ _ _ _ _) as [r1|] eqn:E; [|done].
  apply IH. apply (reaches_access _ _ now 7 addr r); [done|by apply ordinary_b_ok|done].
Qed.

(** Four pages of PCM and two of DRAM, the second accessed 31 times. *)
Definition warm_ranking : option Ranking :=
  match init (System_new (4 * 4096) (2 * 4096) blank_page) with
  | Ok s => hammer 31 0 0x1000 (Ranking_new s)
  | _ => None
  end.
Lemma warm_reaches r : warm_ranking = Some r -> reaches (4 * 4096) (2 * 4096) r.
Proof.
  unfold warm_ranking. destruct (init _) as [s|] eqn:E; [|done]. intros H.
  exact (hammer_reaches _ _ _ _ _ _ _ (reaches_init _ _ _ s E) H).
Qed.


