(* ===== verification/PageSwap.v ===== *)
(** The migration of a page ([mem/xbar_control.cc], [cpu/simple/timing.cc]): the
    controller of the hybrid memory picks a page of PCM that was selected and a
    DRAM page to take its place, the processors change their page tables and
    flush their caches, and then the controller reads the pages line by line,
    writes them to their new frames and sends on the flushed lines. *)
From S2P Require Import Prelude IntMath MemTypes Lines Memory Linked Pages PageTable PageRank.

#[local] Open Scope Z_scope.

(** ** State *)

(** A thread context: its process, and what its processor keeps of a
    migration. *)
Record Thread := MkThread {
  th_process : Process;
  migratingDone : bool;
  pageNumber_ : Z
}.
#[export] Instance Thread_settable : Settable Thread := fun t =>
  MkThread (th_process t) (migratingDone t) (pageNumber_ t).

(** The members of [XBarControl] for migrations.  The memories behind the master
    ports take or refuse a request: [answers] has what they will say, [accepted]
    what they took.  [flushed] are the pages the caches were told to drop, and
    [retries] the retries sent to the caches' port. *)
Record Control := MkControl {
  rk : Ranking;
  threads : list Thread;
  haveRefuse : bool;
  numCpu : Z;
  pcmReadMigLocation : Z;
  dramReadMigLocation : Z;
  pcmWriteMigLocation : Z;
  dramWriteMigLocation : Z;
  readDone : bool;
  writeDone : bool;
  pcm_empty : bool;
  dram_empty : bool;
  tempId : Z;
  acrossThreadId : Z;
  lockedThreadId : Z;
  pcmMigrationLeft : Z;
  dramMigrationLeft : Z;
  pcmBuffer : list (list Z);
  pcmDataValid : list bool;
  dramBuffer : list (list Z);
  dramDataValid : list bool;
  invalidWbPacket : list CPkt;
  readMigEvent : bool;
  writeMigEvent : bool;
  invalidWbMigEvent : bool;
  MigratingEvent : bool;
  migrationStartTick : Z;
  migrationTick : Z;
  pageMigrationNumber : Z;
  accepted : list CPkt;
  answers : list bool;
  flushed : list Z;
  retries : Z
}.
#[export] Instance Control_settable : Settable Control := fun c =>
  MkControl (rk c) (threads c) (haveRefuse c) (numCpu c) (pcmReadMigLocation c) (dramReadMigLocation c)
    (pcmWriteMigLocation c) (dramWriteMigLocation c) (readDone c) (writeDone c) (pcm_empty c) (dram_empty c)
    (tempId c) (acrossThreadId c) (lockedThreadId c) (pcmMigrationLeft c) (dramMigrationLeft c)
    (pcmBuffer c) (pcmDataValid c) (dramBuffer c) (dramDataValid c) (invalidWbPacket c)
    (readMigEvent c) (writeMigEvent c) (invalidWbMigEvent c) (MigratingEvent c) (migrationStartTick c)
    (migrationTick c) (pageMigrationNumber c) (accepted c) (answers c) (flushed c) (retries c).

Definition csys (c : Control) : System := rsys (rk c).
Definition on_csys (f : System -> System) (c : Control) : Control := c <| rk ::= fun r => r <| rsys ::= f |> |>.
Definition lift_sys (f : System -> outcome System) (c : Control) : outcome Control :=
  r ← on_sys f (rk c); Ok (c <| rk := r |>).
Definition lift_rank (f : Ranking -> outcome Ranking) (c : Control) : outcome Control :=
  r ← f (rk c); Ok (c <| rk := r |>).

Definition Control_new (r : Ranking) (ts : list Thread) : Control :=
  MkControl r ts false 1 0 0 0 0 true true true true 0 0 0 64 64
    (replicate 64 []) (replicate 64 false) (replicate 64 []) (replicate 64 false) []
    false false false false 0 0 0 [] [] [] 0.

(** [schedule] asserts that the event is not scheduled. *)
Definition schedule_read (c : Control) : outcome Control :=
  assert! negb (readMigEvent c); Ok (c <| readMigEvent := true |>).
Definition schedule_write (c : Control) : outcome Control :=
  assert! negb (writeMigEvent c); Ok (c <| writeMigEvent := true |>).
Definition schedule_invalidWb (c : Control) : outcome Control :=
  assert! negb (invalidWbMigEvent c); Ok (c <| invalidWbMigEvent := true |>).
Definition schedule_migrating (c : Control) : outcome Control :=
  assert! negb (MigratingEvent c); Ok (c <| MigratingEvent := true |>).

(** ** Packets and the master ports *)

(** [page << 12] with an [int] page, as an address. *)
Definition page_base (page : Z) : Z := u64 (i32 (Z.shiftl page PageShift)).
Definition line_addr (page : Z) (i : nat) : Z := u64 (page_base page + Z.of_nat i * 64).

(** [new Request(addr, 64, 0, Request::funcMasterId)] and a packet for it. *)
Definition data_request (addr : Z) : Request := MkRequest addr 64 1 0 0 0.
Definition data_packet (c : Command) (addr : Z) : CPkt := allocate (new_packet c (data_request addr) false).

Definition sendTimingReq (p : CPkt) (c : Control) : bool * Control :=
  match answers c with
  | true :: l => (true, c <| accepted ::= fun a => a ++ [p] |> <| answers := l |>)
  | false :: l => (false, c <| answers := l |>)
  | [] => (false, c)
  end.

(** [for (i = from; i < 64; i++)]: the packet of line [i] is sent and the place
    moved on, until one is refused. *)
Fixpoint send_lines (mk : nat -> Control -> outcome CPkt) (moved : Z -> Control -> Control)
    (i n : nat) (c : Control) : outcome Control :=
  match n with
  | O => Ok c
  | S n =>
      p ← mk i c;
      let '(success, c) := sendTimingReq p c in
      if success : bool then send_lines mk moved (S i) n (moved (u8 (Z.of_nat i + 1)) c) else Ok c
  end.

Definition read_line (page : Z) (i : nat) (c : Control) : outcome CPkt :=
  Ok (data_packet ReadReq (line_addr page i)).
Definition write_pcm_line (dramDes : Z) (i : nat) (c : Control) : outcome CPkt :=
  d ← aget (pcmBuffer c) i; Ok ((data_packet Writeback (line_addr dramDes i)) <| pk_data := d |>).
Definition write_dram_line (pcmDes : Z) (j : nat) (c : Control) : outcome CPkt :=
  v ← aget (dramDataValid c) j;
  assert! v : bool;
  d ← aget (dramBuffer c) j; Ok ((data_packet Writeback (line_addr pcmDes j)) <| pk_data := d |>).

Definition set_pcm_read (l : Z) (c : Control) : Control := c <| pcmReadMigLocation := l |>.
Definition set_dram_read (l : Z) (c : Control) : Control := c <| dramReadMigLocation := l |>.
Definition set_pcm_write (l : Z) (c : Control) : Control := c <| pcmWriteMigLocation := l |>.
Definition set_dram_write (l : Z) (c : Control) : Control := c <| dramWriteMigLocation := l |>.

(** The lines from the place [l] on. *)
Definition lines_left (l : Z) : nat := Z.to_nat (64 - l).

(** ** Reading *)

Definition read_unsent (c : Control) : bool :=
  if both (csys c) then (pcmReadMigLocation c <? 64) || (dramReadMigLocation c <? 64)
  else pcmReadMigLocation c <? 64.

Definition readFromMemory (pcmSrc dramSrc : Z) (c : Control) : outcome Control :=
  let c := c <| readDone := false |> <| pcm_empty := false |> <| pcmMigrationLeft := 64 |>
             <| dramMigrationLeft := 0 |> <| pcmReadMigLocation := 0 |> <| pcmDataValid := replicate 64 false |> in
  c ← send_lines (read_line pcmSrc) set_pcm_read 0 64 c;
  c ← (if both (csys c) then
         let c := c <| dramMigrationLeft := 64 |> <| dram_empty := false |> <| dramReadMigLocation := 0 |>
                    <| dramDataValid := replicate 64 false |> in
         send_lines (read_line dramSrc) set_dram_read 0 64 c
       else Ok c);
  if read_unsent c then schedule_read c else Ok c.

Definition processReadFromMemory (c : Control) : outcome Control :=
  assert! negb (readDone c) && migrating (csys c);
  c ← send_lines (read_line (lockedPcmNumber (csys c))) set_pcm_read
        (Z.to_nat (pcmReadMigLocation c)) (lines_left (pcmReadMigLocation c)) c;
  c ← (if both (csys c) then
         send_lines (read_line (lockedDramNumber (csys c))) set_dram_read
           (Z.to_nat (dramReadMigLocation c)) (lines_left (dramReadMigLocation c)) c
       else Ok c);
  if read_unsent c then schedule_read c else Ok c.

(** ** Writing *)

Definition write_unsent (c : Control) : bool :=
  if both (csys c) then (pcmWriteMigLocation c <? 64) || (dramWriteMigLocation c <? 64)
  else pcmWriteMigLocation c <? 64.

Definition writeToMemory (dramDes pcmDes : Z) (c : Control) : outcome Control :=
  let c := c <| writeDone := false |> <| dram_empty := false |> <| dramMigrationLeft := 64 |>
             <| pcmMigrationLeft := 0 |> <| pcmWriteMigLocation := 0 |> in
  assert! migrating (csys c);
  c ← send_lines (write_pcm_line dramDes) set_pcm_write 0 64 c;
  c ← (if both (csys c) then
         let c := c <| pcmMigrationLeft := 64 |> <| pcm_empty := false |> <| dramWriteMigLocation := 0 |> in
         send_lines (write_dram_line pcmDes) set_dram_write 0 64 c
       else Ok c);
  if write_unsent c then schedule_write c else Ok c.

Definition processWriteToMemory (c : Control) : outcome Control :=
  assert! negb (writeDone c) && migrating (csys c);
  c ← send_lines (write_pcm_line (lockedDramNumber (csys c))) set_pcm_write
        (Z.to_nat (pcmWriteMigLocation c)) (lines_left (pcmWriteMigLocation c)) c;
  c ← (if both (csys c) then
         send_lines (write_dram_line (lockedPcmNumber (csys c))) set_dram_write
           (Z.to_nat (dramWriteMigLocation c)) (lines_left (dramWriteMigLocation c)) c
       else Ok c);
  if write_unsent c then schedule_write c else Ok c.

(** ** Responses *)

(** The end: the DRAM page leaves the victims for queue 5, and a requester that
    was refused is told to try again. *)
Definition doSomeEndThing (now : Z) (c : Control) : outcome Control :=
  assert! migrating (csys c) && readDone c && writeDone c;
  assert! match invalidWbPacket c with [] => true | _ => false end;
  c ← (if both (csys c) then Ok c else lift_sys (clearPhysPages true (lockedPcmNumber (csys c))) c);
  p ← deref (DRAM_victim_list (csys c));
  x ← get_page p (csys c);
  let c := on_csys (fun s => s <| DRAM_victim_list := next x |>) c in
  q ← deref (next x);
  c ← lift_sys (upd_page q (fun y => y <| pre := None |>)) c;
  let c := match DRAM_victim_list (csys c) with
           | None => on_csys (fun s => s <| DRAM_victim_tail := None |>) c
           | Some _ => c
           end in
  c ← lift_sys (upd_page p (fun x => x <| access_counter := 32 |> <| last_access_time := now |>)) c;
  c ← lift_rank (insert_into_MQ p 5) c;
  let c := on_csys (fun s => s <| migrating := false |>) c in
  let c := c <| migrationTick ::= fun t => t + (now - migrationStartTick c) |>
             <| pageMigrationNumber ::= Z.succ |> in
  Ok (if haveRefuse c then c <| retries ::= Z.succ |> else c).

(** The flushed lines in order, until one is refused. *)
Fixpoint send_invalidWb (wbs : list CPkt) (c : Control) : list CPkt * Control :=
  match wbs with
  | [] => ([], c)
  | p :: rest =>
      let '(success, c) := sendTimingReq p c in
      if success : bool then send_invalidWb rest c else (p :: rest, c)
  end.
Definition processInvalidWb (now : Z) (c : Control) : outcome Control :=
  match invalidWbPacket c with
  | [] => doSomeEndThing now c
  | wbs =>
      let '(rest, c) := send_invalidWb wbs c in
      let c := c <| invalidWbPacket := rest |> in
      match rest with [] => doSomeEndThing now c | _ => schedule_invalidWb c end
  end.

(** [(addr - (locked << 12)) >> 6] as a [uint8_t]. *)
Definition line_index (addr page : Z) : nat := Z.to_nat (u8 (Z.shiftr (u64 (addr - page_base page)) 6)).

(** [cmdToIndex()] 6 is a write-back, and 24 a swap. *)
Definition processMigrationRespond (now : Z) (pkt : CPkt) (c : Control) : outcome Control :=
  let isPcm := PcmOrDram (pcmSize (csys c)) (pk_addr pkt) in
  if negb (bool_decide (pk_cmd pkt = Writeback)) then
    assert! pk_size pkt =? 64;
    c ← (if isPcm then
           let index := line_index (pk_addr pkt) (lockedPcmNumber (csys c)) in
           l ← aset (pcmBuffer c) index (pk_data pkt);
           v ← aset (pcmDataValid c) index true;
           Ok (c <| pcmBuffer := l |> <| pcmDataValid := v |> <| pcmMigrationLeft ::= fun n => u8 (n - 1) |>)
         else
           let index := line_index (pk_addr pkt) (lockedDramNumber (csys c)) in
           l ← aset (dramBuffer c) index (pk_data pkt);
           v ← aset (dramDataValid c) index true;
           Ok (c <| dramBuffer := l |> <| dramDataValid := v |> <| dramMigrationLeft ::= fun n => u8 (n - 1) |>));
    if (pcmMigrationLeft c =? 0) && (dramMigrationLeft c =? 0) then
      writeToMemory (lockedDramNumber (csys c)) (lockedPcmNumber (csys c)) (c <| readDone := true |>)
    else Ok c
  else
    assert! negb (writeDone c);
    let c := if isPcm then c <| pcmMigrationLeft ::= fun n => u8 (n - 1) |>
             else c <| dramMigrationLeft ::= fun n => u8 (n - 1) |> in
    if (pcmMigrationLeft c =? 0) && (dramMigrationLeft c =? 0) then processInvalidWb now (c <| writeDone := true |>)
    else Ok c.

(** Whether an address is in one of the locked pages: [int n = addr >> 12]. *)
Definition in_locked (addr : Z) (c : Control) : bool :=
  let n := i32 (Z.shiftr addr PageShift) in
  (n =? lockedPcmNumber (csys c)) || (n =? lockedDramNumber (csys c)).

(** [Some] is what the port is answered; [None] that the packet goes on through
    the crossbar as it would in any other. *)
Definition recvTimingResp (now : Z) (pkt : CPkt) (master_port_id : Z) (c : Control)
    : outcome (option bool * Control) :=
  if bool_decide (pk_cmd pkt = SwapReq) then
    let c := if tempId c =? 0 then c <| pcm_empty := true |> else c <| dram_empty := true |> in
    Ok (Some true, c)
  else if migrating (csys c) && in_locked (pk_addr pkt) c then
    c ← processMigrationRespond now pkt c; Ok (Some true, c)
  else if bool_decide (pk_cmd pkt = Writeback) then Ok (Some true, c)
  else Ok (None, c <| tempId := master_port_id |>).

(** ** Requests *)

(** Port 0 is the system's, through which the caches send the lines of a page
    they flush: to the frame the page moves to. *)
Definition redirected (addr : Z) (c : Control) : Z :=
  u64 (page_base (if PcmOrDram (pcmSize (csys c)) addr then lockedDramNumber (csys c)
                  else lockedPcmNumber (csys c)) + Z.land addr (Z.ones PageShift)).
Definition set_addr (addr : Z) (p : CPkt) : CPkt := p <| hdr ::= set_field pkt_addr (fun _ => addr) |>.

Definition recvTimingReq (pkt : CPkt) (slave_port_id : Z) (c : Control) : outcome (option bool * Control) :=
  if slave_port_id =? 0 then
    assert! negb (isRead (pk_cmd pkt));
    Ok (Some true, c <| invalidWbPacket ::= fun l => l ++ [set_addr (redirected (pk_addr pkt) c) pkt] |>)
  else if migrating (csys c) && in_locked (pk_addr pkt) c then Ok (Some false, c <| haveRefuse := true |>)
  else Ok (None, c <| tempId := slave_port_id |>).

(** ** The start of a migration *)

Definition get_thread (i : Z) (c : Control) : outcome Thread := zget (threads c) i.
Definition upd_thread (i : Z) (f : Thread -> outcome Thread) (c : Control) : outcome Control :=
  l ← zupd i f (threads c); Ok (c <| threads := l |>).
Definition setMigrating (i page : Z) : Control -> outcome Control :=
  upd_thread i (fun t => Ok (t <| migratingDone := true |> <| pageNumber_ := page |>)).

Section start.
Context `{HashOrder}.

(** The first other thread that maps the DRAM page. *)
Definition find_other (page except : Z) (ts : list Thread) : option nat :=
  fst <$> list_find (fun '(i, t) =>
    negb (Z.of_nat i =? except) && FuncPageTable.findPhyNumber page (th_process t)) (imap pair ts).

Definition migratingFunc (c : Control) : outcome Control :=
  if bool_decide (migratingPage (rk c) <> []) && negb (migrating (csys c)) then
    assert! match invalidWbPacket c with [] => true | _ => false end;
    match DRAM_victim_list (csys c) with
    | None => Ok c
    | Some v =>
        x ← get_page v (csys c);
        assert! access_counter x =? 0;
        match migratingPage (rk c) with
        | [] => Ok c
        | (thread, page) :: rest =>
            let c := c <| rk ::= fun r => r <| migratingPage := rest |> |> in
            let c := on_csys (fun s => s <| lockedPcmNumber := page |> <| acrossTwoCpu := false |>
                                         <| lockedDramNumber := page_number x |>) c in
            let c := c <| lockedThreadId := thread |> <| numCpu := 1 |> <| haveRefuse := false |> in
            c ← (if valid x then
                   let c := on_csys (fun s => s <| both := true |>) c in
                   match find_other (page_number x) thread (threads c) with
                   | Some i =>
                       let c := on_csys (fun s => s <| acrossTwoCpu := true |>) c in
                       Ok (c <| acrossThreadId := Z.of_nat i |> <| numCpu := 2 |>)
                   | None =>
                       t ← get_thread thread c;
                       assert! FuncPageTable.findPhyNumber (page_number x) (th_process t);
                       Ok c
                   end
                 else
                   lift_sys (setPhysPages false (page_number x - numPcmPages (csys c)))
                     (on_csys (fun s => s <| both := false |>) c));
            c ← setMigrating thread page c;
            if acrossTwoCpu (csys c) then setMigrating (acrossThreadId c) (page_number x) c else Ok c
        end
    end
  else Ok c.

(** What [TimingSimpleCPU::advanceInst] does with a migration: the page table of
    the process, the flush of the page in the caches, and the message to the
    controller ([recvFunctional] with a [PrintReq]). *)
Definition recvPrintReq (c : Control) : outcome Control :=
  let c := c <| numCpu ::= fun n => u8 (n - 1) |> in
  if numCpu c =? 0 then schedule_migrating c else Ok c.

Definition change_table (i : Z) (t : Thread) (c : Control) : outcome Control :=
  let s := csys c in
  let '(a, b, exchange) :=
    if both s then
      if acrossTwoCpu s then
        (pageNumber_ t, if pageNumber_ t =? lockedPcmNumber s then lockedDramNumber s else lockedPcmNumber s, false)
      else (lockedPcmNumber s, lockedDramNumber s, true)
    else (lockedPcmNumber s, lockedDramNumber s, false) in
  upd_thread i (fun t =>
    p ← FuncPageTable.changePhyNumber a b exchange (th_process t); Ok (t <| th_process := p |>)) c.

Definition advance_migration (i : Z) (c : Control) : outcome Control :=
  t ← get_thread i c;
  if migratingDone t then
    c ← change_table i t c;
    let c := c <| flushed ::= fun l => l ++ [pageNumber_ t] |> in
    c ← (if both (csys c) && negb (acrossTwoCpu (csys c)) then
           assert! pageNumber_ t =? lockedPcmNumber (csys c);
           Ok (c <| flushed ::= fun l => l ++ [lockedDramNumber (csys c)] |>)
         else Ok c);
    c ← recvPrintReq c;
    upd_thread i (fun t => Ok (t <| migratingDone := false |>)) c
  else Ok c.
End start.

Definition doMigrating (now : Z) (c : Control) : outcome Control :=
  let c := on_csys (fun s => s <| migrating := true |>) c in
  readFromMemory (lockedPcmNumber (csys c)) (lockedDramNumber (csys c)) (c <| migrationStartTick := now |>).
