(* ===== verification/PageSwapRun.v ===== *)
(** Runs of a migration: the controller of [PageSwap] with the memories behind
    it, which refuse what they want, apply a write when they take it and answer
    in any order (as Simulators/gem5/nvmain_mem.cc of NVMain does), while caches
    flush lines and other pages are written. *)
From S2P Require Import Prelude IntMath MemTypes Lines Memory MemLaws Atomic Linked Pages PageTable PageRank PageSwap.

#[local] Open Scope Z_scope.

(** ** The memories *)

Record World := MkWorld {
  ctl : Control;
  contents : Bytes;
  flight : list CPkt
}.

Definition is_writeback (p : CPkt) : Prop := pk_cmd p = Writeback.
#[export] Instance is_writeback_dec p : Decision (is_writeback p).
Proof. unfold is_writeback. apply _. Defined.

(** An operation of the controller, with the answers to the requests it sends:
    what is taken is in flight, and what is written is in memory. *)
Definition act (op : Control -> outcome Control) (ans : list bool) (m : Bytes) (fl : list CPkt) (c : Control)
    : outcome World :=
  c ← op (c <| answers := ans |> <| accepted := [] |>);
  Ok (MkWorld c (pend m (filter is_writeback (accepted c))) (fl ++ accepted c)).

Definition drop_answer (op : outcome (option bool * Control)) : outcome Control := '(_, c) ← op; Ok c.

(** The answer to a read. *)
Definition read_response (m : Bytes) (p : CPkt) : CPkt :=
  (set_cmd ReadResp p) <| pk_data := fread m (pk_addr p) (pk_size p) |>.

(** ** Steps *)

(** [fire_read] and the like: the event is taken off the queue and processed. *)
Definition fire_read (c : Control) : outcome Control := processReadFromMemory (c <| readMigEvent := false |>).
Definition fire_write (c : Control) : outcome Control := processWriteToMemory (c <| writeMigEvent := false |>).
Definition fire_invalidWb (now : Z) (c : Control) : outcome Control :=
  processInvalidWb now (c <| invalidWbMigEvent := false |>).

(** A line of one of the two pages. *)
Definition page_has (page x : Z) : Prop := page_base page <= x < page_base page + 2 ^ PageShift.
Definition locked_line (c : Control) (a : Z) : Prop :=
  exists i, (i < 64)%nat /\ (a = line_addr (lockedPcmNumber (csys c)) i \/ a = line_addr (lockedDramNumber (csys c)) i).
Record flushed_line (c : Control) (p : CPkt) : Prop := {
  fl_cmd : pk_cmd p = Writeback;
  fl_line : locked_line c (pk_addr p);
  fl_data : length (pk_data p) = 64%nat
}.

(** The label is the list of flushed lines the step brings. *)
Inductive step : World -> list CPkt -> World -> Prop :=
  | st_read ans w w' :
      readMigEvent (ctl w) = true -> act fire_read ans (contents w) (flight w) (ctl w) = Ok w' -> step w [] w'
  | st_write ans w w' :
      writeMigEvent (ctl w) = true -> act fire_write ans (contents w) (flight w) (ctl w) = Ok w' -> step w [] w'
  | st_invalidWb ans now w w' :
      invalidWbMigEvent (ctl w) = true ->
      act (fire_invalidWb now) ans (contents w) (flight w) (ctl w) = Ok w' -> step w [] w'
  | st_data ans now port p l1 l2 w w' :
      flight w = l1 ++ p :: l2 -> pk_cmd p = ReadReq ->
      act (fun c => drop_answer (recvTimingResp now (read_response (contents w) p) port c)) ans
        (contents w) (l1 ++ l2) (ctl w) = Ok w' -> step w [] w'
  | st_ack ans now port p l1 l2 w w' :
      flight w = l1 ++ p :: l2 -> pk_cmd p = Writeback ->
      act (fun c => drop_answer (recvTimingResp now p port c)) ans (contents w) (l1 ++ l2) (ctl w) = Ok w' ->
      step w [] w'
  | st_flush p w w' :
      flushed_line (ctl w) p ->
      act (fun c => drop_answer (recvTimingReq p 0 c)) [] (contents w) (flight w) (ctl w) = Ok w' -> step w [p] w'
  | st_request p port w w' :
      port <> 0 -> in_locked (pk_addr p) (ctl w) = true ->
      act (fun c => drop_answer (recvTimingReq p port c)) [] (contents w) (flight w) (ctl w) = Ok w' -> step w [] w'
  | st_others m w :
      (forall x, page_has (lockedPcmNumber (csys (ctl w))) x \/ page_has (lockedDramNumber (csys (ctl w))) x ->
                 m x = contents w x) ->
      step w [] (MkWorld (ctl w) m (flight w)).

(** The steps of one migration. *)
Inductive runs : World -> list CPkt -> World -> Prop :=
  | runs_here w : runs w [] w
  | runs_step w l w1 l' w2 :
      migrating (csys (ctl w)) = true -> step w l w1 -> runs w1 l' w2 -> runs w (l ++ l') w2.

(** ** Trying it out *)

(** The answer to the request [p], and the requests it brings. *)
Definition answer (p : CPkt) (rest : list CPkt) (ans : list bool) (w : World) : outcome World :=
  if bool_decide (pk_cmd p = Writeback) then
    act (fun c => drop_answer (recvTimingResp 50 p 0 c)) ans (contents w) rest (ctl w)
  else if bool_decide (pk_cmd p = ReadReq) then
    act (fun c => drop_answer (recvTimingResp 50 (read_response (contents w) p) 0 c)) ans (contents w) rest (ctl w)
  else Err AssertFail.
(** The memories answer first what they took first; they take all requests of
    the migration, and of the flushed lines what [ans] says. *)
Fixpoint serve (fuel : nat) (ans : list bool) (w : World) : outcome World :=
  match fuel with
  | O => Err Diverge
  | S fuel =>
      match migrating (csys (ctl w)), flight w with
      | true, p :: rest =>
          w ← answer p rest (if readDone (ctl w) then ans else replicate 128 true) w; serve fuel ans w
      | _, _ => Ok w
      end
  end.
(** A flushed line arrives through the system's port. *)
Definition flush_arrives (p : CPkt) (w : World) : outcome World :=
  act (fun c => drop_answer (recvTimingReq p 0 c)) [] (contents w) (flight w) (ctl w).

Lemma serve_runs fuel ans : forall w w', serve fuel ans w = Ok w' -> runs w [] w'.
Proof.
  induction fuel as [|fuel IH]; intros w w'; cbn [serve]; [done|].
  destruct (migrating (csys (ctl w))) eqn:Hm; [|intros [= <-]; constructor].
  destruct (flight w) as [|p rest] eqn:Hf; [intros [= <-]; constructor|].
  destruct (answer p rest _ w) as [w1|] eqn:E; [|done]. cbn [mbind outcome_bind]. intros Hs%IH.
  apply (runs_step w [] w1 [] w'); [done| |done]. unfold answer in E.
  destruct (bool_decide_reflect (pk_cmd p = Writeback)) as [Hc|_]; [by apply (st_ack _ 50 0 p [] rest) in E|].
  destruct (bool_decide_reflect (pk_cmd p = ReadReq)) as [Hc|_]; [by apply (st_data _ 50 0 p [] rest) in E|done].
Qed.

(** Page 1 of PCM and page 4, in DRAM, of a memory of four PCM pages and two DRAM pages; every
    byte tells its page and the last digit of its address. *)
Definition tag_bytes : Bytes := fun x => (Z.shiftr x 12 * 16 + Z.land x 15) mod 256.
Definition choose_pages (exchange : bool) (s : System) : System :=
  s <| lockedPcmNumber := 1 |> <| lockedDramNumber := 4 |> <| both := exchange |>.
Definition small_control (exchange : bool) (wbs : list CPkt) : outcome Control :=
  s ← init (System_new (4 * 4096) (2 * 4096) blank_page);
  Ok ((Control_new (Ranking_new (choose_pages exchange s)) []) <| invalidWbPacket := wbs |>).
Definition start_exchange (exchange : bool) (wbs : list CPkt) : outcome World :=
  c ← small_control exchange wbs; act (doMigrating 10) (replicate 128 true) tag_bytes [] c.
Definition small_flush (addr : Z) : CPkt := (data_packet Writeback addr) <| pk_data := replicate 64 7 |>.
Definition four_bytes (w : World) : bool * list Z :=
  (migrating (csys (ctl w)), contents w <$> [0x1003; 0x4003; 0x1fff; 0x2003]).

Example exchange_run :
  (w ← start_exchange true []; w ← serve 300 [] w; Ok (four_bytes w)) = Ok (false, [67; 19; 79; 35]).
Proof. vm_compute. reflexivity. Qed.
(** A line of the PCM page flushed before; it is in its new frame. *)
Example flushed_line_follows :
  (w ← start_exchange false [small_flush 0x4000]; w ← serve 300 [true] w; Ok (four_bytes w))
  = Ok (false, [19; 7; 31; 35]).
Proof. vm_compute. reflexivity. Qed.

(** When the memory takes one flushed line and refuses the next, the answer to
    the first ends in an assertion. *)
Example late_answer_fails :
  (w ← start_exchange true [small_flush 0x4000; small_flush 0x4040]; serve 300 [true; false] w) = Err AssertFail.
Proof. vm_compute. reflexivity. Qed.
