(* ===== verification/PageSwapLaws.v ===== *)
(** A migration moves what the pages hold: when it is over, every byte of the
    page of PCM is in the DRAM page, with the lines the caches flushed, and the
    other way round if the DRAM page was in use; whatever the memories refuse,
    in whatever order they answer. *)
From S2P Require Import Prelude IntMath MemTypes Lines Memory MemLaws Atomic Linked Pages PageTable PageRank.
From S2P Require Import PageSwap PageSwapRun.

#[local] Open Scope Z_scope.

(** ** Addresses *)

(** Page numbers whose address fits an [int]. *)
Definition small_page (n : Z) : Prop := 0 <= n < 2 ^ 19.

Lemma page_base_small n : small_page n -> page_base n = n * 2 ^ PageShift.
Proof.
  intros Hn. unfold small_page in Hn. unfold page_base. rewrite Z.shiftl_mul_pow2 by done. unfold PageShift.
  rewrite swrap_small by lia. rewrite wrap_small by lia. done.
Qed.
Lemma line_addr_small n i : small_page n -> (i < 64)%nat -> line_addr n i = n * 2 ^ PageShift + 64 * Z.of_nat i.
Proof.
  intros Hn Hi. unfold line_addr. rewrite page_base_small by done. unfold small_page, PageShift in *.
  rewrite wrap_small by lia. lia.
Qed.

Lemma data_packet_fields c a :
  pk_cmd (data_packet c a) = c /\ pk_addr (data_packet c a) = a /\ pk_size (data_packet c a) = 64.
Proof. done. Qed.

(** ** The loops that send lines *)

(** The next [n] answers are yes, and so are all after them. *)
Definition willing (n : nat) (ans : list bool) : Prop := (n <= length ans)%nat /\ Forall (fun b => b = true) ans.

Section send.
Context (mk : nat -> Control -> outcome CPkt) (moved : Z -> Control -> Control) (pkt : nat -> CPkt).

(** [c] after the lines up to [l] were sent. *)
Definition sent_to (l : Z) (a : list CPkt) (ans : list bool) (c : Control) : Control :=
  (moved l c) <| accepted := a |> <| answers := ans |>.
Context (Hmoved : forall l l' a a' ans ans' c,
  moved l ((sent_to l' a ans c) <| accepted := a' |> <| answers := ans' |>) = sent_to l a' ans' c).

Lemma send_lines_from c n : forall i a ans,
  (i + n <= 64)%nat ->
  (forall j l a ans, (i <= j < i + n)%nat -> mk j (sent_to l a ans c) = Ok (pkt j)) ->
  exists k ans', (k <= n)%nat /\
    send_lines mk moved i n (sent_to (Z.of_nat i) a ans c) =
      Ok (sent_to (Z.of_nat (i + k)) (a ++ (pkt <$> seq i k)) ans' c) /\
    (forall j, willing (n + j) ans -> k = n /\ willing j ans').
Proof using Hmoved.
  induction n as [|n IH]; intros i a ans Hn Hmk.
  - exists 0%nat, ans. split; [done|]. split; [|done]. cbn [send_lines seq fmap list_fmap].
    by rewrite app_nil_r, Nat.add_0_r.
  - cbn [send_lines]. rewrite Hmk by lia. cbn [mbind outcome_bind]. unfold sendTimingReq.
    change (answers (sent_to (Z.of_nat i) a ans c)) with ans.
    destruct ans as [|[] ans].
    + exists 0%nat, []. split; [lia|]. split; [|intros j [H _]; cbn in H; lia].
      cbn [seq fmap list_fmap]. by rewrite app_nil_r, Nat.add_0_r.
    + replace (u8 (Z.of_nat i + 1)) with (Z.of_nat (S i)) by (rewrite wrap_small; lia).
      pose proof (Hmoved (Z.of_nat (S i)) (Z.of_nat i) a (a ++ [pkt i]) (true :: ans) ans c) as E.
      change (moved (Z.of_nat (S i)) _) with
        (moved (Z.of_nat (S i)) ((sent_to (Z.of_nat i) a (true :: ans) c) <| accepted := a ++ [pkt i] |> <| answers := ans |>)).
      rewrite E. destruct (IH (S i) (a ++ [pkt i]) ans) as (k & ans' & Hk & Er & Hall); [lia| |].
      { intros j l a' ans' Hj. apply Hmk. lia. }
      exists (S k), ans'. split; [lia|]. rewrite Er. cbn [seq fmap list_fmap]. rewrite <- app_assoc.
      split; [by replace (S i + k)%nat with (i + S k)%nat by lia|].
      intros j [Hl Hf]. apply Forall_cons in Hf as [_ Hf]. cbn in Hl.
      destruct (Hall j) as [-> ?]; [split; [lia|done]|done].
    + exists 0%nat, ans. split; [lia|]. split; [|intros j [_ Hf]; apply Forall_cons in Hf as [? _]; done].
      cbn [seq fmap list_fmap]. by rewrite app_nil_r, Nat.add_0_r.
Qed.
End send.

Definition read_pkt (page : Z) (i : nat) : CPkt := data_packet ReadReq (line_addr page i).
Definition write_pkt (page : Z) (d : list Z) (i : nat) : CPkt :=
  (data_packet Writeback (line_addr page i)) <| pk_data := d |>.

Ltac send_tac mk moved pkt c i n :=
  assert (sent_to moved (Z.of_nat i) (accepted c) (answers c) c = c) as Ec
    by (destruct c; cbn in *; subst; done);
  destruct (send_lines_from mk moved pkt ltac:(done) c n i (accepted c) (answers c))
    as (k & ans & Hk & E & Hall); [done| |rewrite Ec in E];
  [|exists k, ans; split; [done|split; [exact E|exact Hall]]].

Lemma send_pcm_reads page i n c :
  pcmReadMigLocation c = Z.of_nat i -> (i + n <= 64)%nat ->
  exists k ans, (k <= n)%nat /\
    send_lines (read_line page) set_pcm_read i n c =
      Ok (c <| pcmReadMigLocation := Z.of_nat (i + k) |>
            <| accepted := accepted c ++ (read_pkt page <$> seq i k) |> <| answers := ans |>) /\
    (forall j, willing (n + j) (answers c) -> k = n /\ willing j ans).
Proof. intros Hi Hn. send_tac (read_line page) set_pcm_read (read_pkt page) c i n. done. Qed.
Lemma send_dram_reads page i n c :
  dramReadMigLocation c = Z.of_nat i -> (i + n <= 64)%nat ->
  exists k ans, (k <= n)%nat /\
    send_lines (read_line page) set_dram_read i n c =
      Ok (c <| dramReadMigLocation := Z.of_nat (i + k) |>
            <| accepted := accepted c ++ (read_pkt page <$> seq i k) |> <| answers := ans |>) /\
    (forall j, willing (n + j) (answers c) -> k = n /\ willing j ans).
Proof. intros Hi Hn. send_tac (read_line page) set_dram_read (read_pkt page) c i n. done. Qed.
Lemma send_pcm_writes page (d : nat -> list Z) i n c :
  pcmWriteMigLocation c = Z.of_nat i -> (i + n <= 64)%nat ->
  (forall j, (j < 64)%nat -> pcmBuffer c !! j = Some (d j)) ->
  exists k ans, (k <= n)%nat /\
    send_lines (write_pcm_line page) set_pcm_write i n c =
      Ok (c <| pcmWriteMigLocation := Z.of_nat (i + k) |>
            <| accepted := accepted c ++ ((fun j => write_pkt page (d j) j) <$> seq i k) |> <| answers := ans |>) /\
    (forall j, willing (n + j) (answers c) -> k = n /\ willing j ans).
Proof.
  intros Hi Hn Hd. send_tac (write_pcm_line page) set_pcm_write (fun j => write_pkt page (d j) j) c i n.
  intros j l a ans Hj. unfold write_pcm_line. change (pcmBuffer (sent_to _ _ _ _ _)) with (pcmBuffer c).
  rewrite (aget_ok _ _ _ (Hd j ltac:(lia))). done.
Qed.
Lemma send_dram_writes page (d : nat -> list Z) i n c :
  dramWriteMigLocation c = Z.of_nat i -> (i + n <= 64)%nat ->
  (forall j, (j < 64)%nat -> dramBuffer c !! j = Some (d j) /\ dramDataValid c !! j = Some true) ->
  exists k ans, (k <= n)%nat /\
    send_lines (write_dram_line page) set_dram_write i n c =
      Ok (c <| dramWriteMigLocation := Z.of_nat (i + k) |>
            <| accepted := accepted c ++ ((fun j => write_pkt page (d j) j) <$> seq i k) |> <| answers := ans |>) /\
    (forall j, willing (n + j) (answers c) -> k = n /\ willing j ans).
Proof.
  intros Hi Hn Hd. send_tac (write_dram_line page) set_dram_write (fun j => write_pkt page (d j) j) c i n.
  intros j l a ans Hj. unfold write_dram_line. destruct (Hd j ltac:(lia)) as [H1 H2].
  change (dramBuffer (sent_to _ _ _ _ _)) with (dramBuffer c).
  change (dramDataValid (sent_to _ _ _ _ _)) with (dramDataValid c).
  rewrite (aget_ok _ _ _ H2). cbn [mbind outcome_bind]. by rewrite (aget_ok _ _ _ H1).
Qed.

(** ** A page that is read *)

Section page.
Context (m0 : Bytes).

Definition line_of (page : Z) (i : nat) : list Z := fread m0 (line_addr page i) 64.
Definition missing (valid : list bool) : nat := length (filter (fun v => v = false) valid).

(** [l] lines are asked for, those of [idx] are still to come. *)
Record fetched (page : Z) (l : nat) (left : Z) (valid : list bool) (buf : list (list Z)) (idx : list nat) : Prop := {
  fe_valid : length valid = 64%nat;
  fe_buf : length buf = 64%nat;
  fe_l : (l <= 64)%nat;
  fe_nodup : NoDup idx;
  fe_got i : valid !! i = Some true -> buf !! i = Some (line_of page i);
  fe_idx i : i ∈ idx <-> (i < l)%nat /\ valid !! i = Some false;
  fe_rest i : (l <= i < 64)%nat -> valid !! i = Some false;
  fe_left : left = Z.of_nat (missing valid)
}.

Lemma fetched_start page buf : length buf = 64%nat -> fetched page 0 64 (replicate 64 false) buf [].
Proof.
  intros Hb. split; try done; [lia|constructor|..].
  - intros i Hi. by apply lookup_replicate in Hi as [? _].
  - intros i. split; [by intros ?%elem_of_nil|lia].
  - intros i Hi. apply lookup_replicate_2; lia.
Qed.

Lemma fetched_more page l k left valid buf idx :
  (l + k <= 64)%nat -> fetched page l left valid buf idx -> fetched page (l + k) left valid buf (idx ++ seq l k).
Proof.
  intros Hk [H1 H2 H3 H4 H5 H6 H7 H8]. split; try done.
  - apply NoDup_app. split; [done|]. split; [|apply NoDup_seq]. intros i [Hi _]%H6 Hs%elem_of_seq. lia.
  - intros i. rewrite elem_of_app, H6, elem_of_seq. split.
    + intros [[? ?]|Hi]; [split; [lia|done]|]. split; [lia|]. apply H7. lia.
    + intros [Hi Hv]. destruct (decide (i < l)%nat); [by left|right; lia].
  - intros i Hi. apply H7. lia.
Qed.

Lemma missing_insert valid i :
  valid !! i = Some false -> Z.of_nat (missing valid) - 1 = Z.of_nat (missing (<[i := true]> valid)) /\ (0 < missing valid)%nat.
Proof.
  intros Hi.
  assert (H : forall b l1 l2, missing (l1 ++ b :: l2) = (missing l1 + (if b : bool then 0 else 1) + missing l2)%nat).
  { intros [] l1 l2; unfold missing; rewrite filter_app, length_app, filter_cons; case_decide; cbn; lia || done. }
  destruct (list_elem_of_split_length valid i false Hi) as (l1 & l2 & -> & ->).
  rewrite <- (Nat.add_0_r (length l1)), insert_app_r. cbn [insert list_insert]. rewrite !H. lia.
Qed.

Lemma fetched_got page l left valid buf idx idx' i :
  fetched page l left valid buf idx -> idx ≡ₚ i :: idx' ->
  (i < 64)%nat /\ 0 < left <= 64 /\
  fetched page l (left - 1) (<[i := true]> valid) (<[i := line_of page i]> buf) idx'.
Proof.
  intros [H1 H2 H3 H4 H5 H6 H7 H8] Hp. assert (Hi : i ∈ idx) by (rewrite Hp; left).
  apply H6 in Hi as [Hil Hv]. destruct (missing_insert _ _ Hv) as [Hm Hpos].
  assert (Hle : (missing valid <= 64)%nat) by (rewrite <- H1; apply length_filter).
  rewrite Hp in H4. apply NoDup_cons in H4 as [Hni Hn].
  split; [lia|]. split; [lia|]. split; rewrite ?length_insert; try done.
  - intros j Hj. destruct (decide (j = i)) as [->|Hne].
    + rewrite list_lookup_insert_eq by lia. done.
    + rewrite list_lookup_insert_ne by done. rewrite list_lookup_insert_ne in Hj by done. by apply H5.
  - intros j. assert (Hj : j ∈ idx <-> j = i \/ j ∈ idx') by (rewrite Hp; apply elem_of_cons).
    destruct (decide (j = i)) as [->|Hne].
    + rewrite list_lookup_insert_eq by lia. naive_solver.
    + rewrite list_lookup_insert_ne by done. rewrite <- H6. naive_solver.
  - intros j Hj. rewrite list_lookup_insert_ne by lia. by apply H7.
  - lia.
Qed.

Lemma fetched_done page l valid buf idx :
  fetched page l 0 valid buf idx ->
  idx = [] /\ l = 64%nat /\ (forall i, (i < 64)%nat -> buf !! i = Some (line_of page i) /\ valid !! i = Some true).
Proof.
  intros [H1 H2 H3 H4 H5 H6 H7 H8].
  assert (Hall : forall i, (i < 64)%nat -> valid !! i = Some true).
  { intros i Hi. destruct (lookup_lt_is_Some_2 valid i) as [[] Hv]; [lia|done|].
    destruct (missing_insert _ _ Hv) as [_ ?]. lia. }
  split; [|split].
  - destruct idx as [|i idx]; [done|]. destruct (proj1 (H6 i)) as [Hi Hv]; [left|]. rewrite Hall in Hv by lia. done.
  - destruct (decide (l = 64)%nat) as [|Hne]; [done|]. specialize (H7 l ltac:(lia)). rewrite Hall in H7 by lia. done.
  - intros i Hi. split; [by apply H5, Hall|by apply Hall].
Qed.
End page.
