(* ===== verification/PageSwapMoves.v ===== *)
(** What the pages hold during a migration and after it: the invariant of the
    runs of [PageSwapRun]. *)
From S2P Require Import Prelude IntMath MemTypes Lines Memory MemLaws Atomic Linked Pages PageTable PageRank.
From S2P Require Import PageSwap PageSwapRun PageSwapLaws.

#[local] Open Scope Z_scope.

(** ** Lists of packets *)

Lemma perm_fmap_cons {A B} (f : A -> B) (p : B) (l : list B) (a : list A) :
  p :: l ≡ₚ f <$> a -> exists i a', a ≡ₚ i :: a' /\ p = f i /\ l ≡ₚ f <$> a'.
Proof.
  intros Hp. assert (Hin : p ∈ f <$> a) by (rewrite <- Hp; left).
  apply list_elem_of_fmap in Hin as (i & -> & (a1 & a2 & ->)%list_elem_of_split).
  exists i, (a1 ++ a2). split; [by rewrite Permutation_middle|]. split; [done|].
  apply (Permutation_cons_inv (a := f i)). rewrite Hp. rewrite !fmap_app. cbn [fmap list_fmap].
  by rewrite Permutation_middle.
Qed.

(** One of two bags has the packet. *)
Lemma perm_app_cons {B} (p : B) l a1 a2 :
  p :: l ≡ₚ a1 ++ a2 ->
  (exists a1', a1 ≡ₚ p :: a1' /\ l ≡ₚ a1' ++ a2) \/ (exists a2', a2 ≡ₚ p :: a2' /\ l ≡ₚ a1 ++ a2').
Proof.
  intros Hp. assert (Hin : p ∈ a1 ++ a2) by (rewrite <- Hp; left).
  apply elem_of_app in Hin as [(b1 & b2 & ->)%list_elem_of_split|(b1 & b2 & ->)%list_elem_of_split];
    [left|right]; exists (b1 ++ b2); (split; [by rewrite Permutation_middle|]);
    apply (Permutation_cons_inv (a := p)); rewrite Hp; solve_Permutation.
Qed.

(** ** Pending writes *)

Lemma pend_app f a b : pend f (a ++ b) = pend (pend f a) b.
Proof. unfold pend. by rewrite foldl_app. Qed.
Lemma pend_at f g wbs x : f x = g x -> pend f wbs x = pend g wbs x.
Proof.
  revert f g. induction wbs as [|p wbs IH]; intros f g E; [done|]. cbn [pend foldl]. apply IH.
  unfold fwrite. by rewrite E.
Qed.

Lemma filter_writes q d (idx : list nat) :
  filter is_writeback ((fun j => write_pkt q (d j) j) <$> idx) = (fun j => write_pkt q (d j) j) <$> idx.
Proof. induction idx as [|i idx IH]; [done|]. cbn [fmap list_fmap]. rewrite filter_cons_True by done. by f_equal. Qed.
Lemma filter_reads q (idx : list nat) : filter is_writeback (read_pkt q <$> idx) = [].
Proof. induction idx as [|i idx IH]; [done|]. cbn [fmap list_fmap]. rewrite filter_cons_False by done. done. Qed.

(** The lines [i] to [i + k] of a page are written with what another page held. *)
Lemma pend_lines m0 q from k : forall i f x,
  small_page q -> small_page from -> (i + k <= 64)%nat ->
  pend f ((fun j => write_pkt q (line_of m0 from j) j) <$> seq i k) x =
    if decide (page_base q + 64 * Z.of_nat i <= x < page_base q + 64 * Z.of_nat (i + k))
    then m0 (x - page_base q + page_base from) else f x.
Proof.
  induction k as [|k IH]; intros i f x Hq Hf Hk.
  - cbn [seq fmap list_fmap pend foldl]. rewrite decide_False by lia. done.
  - cbn [seq fmap list_fmap pend foldl]. change (pk_addr (write_pkt q _ i)) with (line_addr q i).
    change (pk_data (write_pkt q ?d i)) with d.
    fold (pend (fwrite f (line_addr q i) (line_of m0 from i)) ((fun j => write_pkt q (line_of m0 from j) j) <$> seq (S i) k)).
    rewrite IH by (done || lia). assert (Hlen : length (line_of m0 from i) = 64%nat) by apply length_fread.
    assert (El := line_addr_small q i Hq ltac:(lia)). assert (Ef := line_addr_small from i Hf ltac:(lia)).
    rewrite !page_base_small in * by done.
    repeat case_decide; try done; try lia.
    + rewrite fwrite_in by lia. unfold line_of. rewrite fread_lookup by lia. cbn. f_equal. lia.
    + rewrite fwrite_out by lia. done.
Qed.

(** ** The contents *)

(** Two pages the controller can migrate: addresses that fit an [int], PCM below
    the watershed and DRAM above. *)
Record swappable (s : System) : Prop := {
  sw_pcm : small_page (lockedPcmNumber s);
  sw_dram : small_page (lockedDramNumber s);
  sw_below : page_base (lockedPcmNumber s) + 2 ^ PageShift <= pcmSize s;
  sw_above : pcmSize s <= page_base (lockedDramNumber s)
}.

(** A memory after [lP] lines of the PCM page and [lD] of the DRAM page have
    been written to their new frames. *)
Definition moved (s : System) (lP lD : nat) (m : Bytes) : Bytes := fun x =>
  let p := page_base (lockedPcmNumber s) in
  let d := page_base (lockedDramNumber s) in
  if decide (d <= x < d + 64 * Z.of_nat lP) then m (x - d + p)
  else if decide (p <= x < p + 64 * Z.of_nat lD) then m (x - p + d)
  else m x.
(** The whole of both pages, or of the PCM page alone. *)
Definition exchanged (s : System) : Bytes -> Bytes := moved s 64 (if both s then 64 else 0).

Definition in_pages (s : System) (x : Z) : Prop :=
  page_has (lockedPcmNumber s) x \/ page_has (lockedDramNumber s) x.
Definition same_pages (s : System) (f g : Bytes) : Prop := forall x, in_pages s x -> f x = g x.

Section migration.
Context (k0 : Ranking) (m0 : Bytes).
Notation s0 := (rsys k0).
Notation P := (lockedPcmNumber s0).
Notation D := (lockedDramNumber s0).
Context (Hsw : swappable s0).

Let HP : small_page P := sw_pcm s0 Hsw.
Let HD : small_page D := sw_dram s0 Hsw.

Lemma page_lines q i : small_page q -> (i < 64)%nat -> page_has q (line_addr q i) /\ page_has q (line_addr q i + 63).
Proof.
  intros Hq Hi. unfold page_has. rewrite line_addr_small, page_base_small by done. unfold PageShift in *. lia.
Qed.

Lemma moved_pcm f l k lD :
  (l + k <= 64)%nat -> (lD <= 64)%nat -> same_pages s0 f (moved s0 l lD m0) ->
  same_pages s0 (pend f ((fun j => write_pkt D (line_of m0 P j) j) <$> seq l k)) (moved s0 (l + k) lD m0).
Proof.
  intros Hk HlD Hf x Hx. rewrite pend_lines by done. specialize (Hf x Hx).
  pose proof (sw_below s0 Hsw). pose proof (sw_above s0 Hsw). unfold moved in *. unfold PageShift in *.
  repeat case_decide; try done; try lia; rewrite Hf; f_equal; lia.
Qed.
Lemma moved_dram f l k lP :
  (l + k <= 64)%nat -> (lP <= 64)%nat -> same_pages s0 f (moved s0 lP l m0) ->
  same_pages s0 (pend f ((fun j => write_pkt P (line_of m0 D j) j) <$> seq l k)) (moved s0 lP (l + k) m0).
Proof.
  intros Hk HlD Hf x Hx. rewrite pend_lines by done. specialize (Hf x Hx).
  pose proof (sw_below s0 Hsw). pose proof (sw_above s0 Hsw). unfold moved in *. unfold PageShift in *.
  repeat case_decide; try done; try lia; rewrite Hf; f_equal; lia.
Qed.
Lemma moved_none f : same_pages s0 f m0 -> same_pages s0 f (moved s0 0 0 m0).
Proof. intros Hf x Hx. rewrite (Hf x Hx). unfold moved. rewrite !decide_False by lia. done. Qed.

Lemma same_pend f g wbs : same_pages s0 f g -> same_pages s0 (pend f wbs) (pend g wbs).
Proof. intros H x Hx. by apply pend_at, H. Qed.

(** What a read of a line of the two pages is answered. *)
Lemma line_read f q i :
  q = P \/ q = D -> (i < 64)%nat -> same_pages s0 f m0 -> fread f (line_addr q i) 64 = line_of m0 q i.
Proof.
  intros Hq Hi Hf. apply fread_ext. intros x Hx. apply Hf. unfold in_pages, page_has.
  assert (Hs : small_page q) by (destruct Hq as [-> | ->]; done).
  rewrite line_addr_small in Hx by done. rewrite !page_base_small by done. unfold PageShift in *.
  destruct Hq as [-> | ->]; lia.
Qed.

(** Which memory, which page and which line an address is of. *)
Lemma line_pcm i : (i < 64)%nat -> PcmOrDram (pcmSize s0) (line_addr P i) = true.
Proof.
  intros Hi. pose proof (sw_below s0 Hsw). unfold PcmOrDram. rewrite line_addr_small by done.
  rewrite page_base_small in * by done. unfold PageShift in *. apply negb_true_iff, Z.leb_gt. lia.
Qed.
Lemma line_dram i : (i < 64)%nat -> PcmOrDram (pcmSize s0) (line_addr D i) = false.
Proof.
  intros Hi. pose proof (sw_above s0 Hsw). unfold PcmOrDram. rewrite line_addr_small by done.
  rewrite page_base_small in * by done. unfold PageShift in *. apply negb_false_iff, Z.leb_le. lia.
Qed.
Lemma line_page q i : small_page q -> (i < 64)%nat -> i32 (Z.shiftr (line_addr q i) PageShift) = q.
Proof.
  intros Hq Hi. rewrite line_addr_small by done. rewrite Z.shiftr_div_pow2 by done.
  replace ((q * 2 ^ PageShift + 64 * Z.of_nat i) / 2 ^ PageShift) with q.
  - unfold small_page in *. apply swrap_small; lia.
  - unfold PageShift. apply Z.div_unique with (64 * Z.of_nat i); lia.
Qed.
Lemma line_index_line q i : small_page q -> (i < 64)%nat -> line_index (line_addr q i) q = i.
Proof.
  intros Hq Hi. unfold line_index. rewrite page_base_small, line_addr_small by done.
  replace (q * 2 ^ PageShift + 64 * Z.of_nat i - q * 2 ^ PageShift) with (64 * Z.of_nat i) by lia.
  rewrite (wrap_small 64) by lia. rewrite Z.shiftr_div_pow2 by done.
  replace (64 * Z.of_nat i / 2 ^ 6) with (Z.of_nat i) by (apply Z.div_unique with 0; lia).
  rewrite wrap_small by lia. lia.
Qed.
Lemma line_locked c q i : csys c = s0 -> q = P \/ q = D -> (i < 64)%nat -> in_locked (line_addr q i) c = true.
Proof.
  intros Hc Hq Hi. unfold in_locked. rewrite Hc, line_page by (destruct Hq as [-> | ->]; done).
  destruct Hq as [-> | ->]; rewrite Z.eqb_refl; [done|by rewrite orb_true_r].
Qed.

(** ** Reading *)

(** The lines of the PCM page, and of the DRAM page if it moves too: [idx] are
    those asked for and not yet answered. *)
Definition fetching_pcm (c : Control) (idx : list nat) : Prop := exists l,
  pcmReadMigLocation c = Z.of_nat l /\ fetched m0 P l (pcmMigrationLeft c) (pcmDataValid c) (pcmBuffer c) idx.
Definition fetching_dram (c : Control) (idx : list nat) : Prop := exists l,
  dramReadMigLocation c = Z.of_nat l /\ fetched m0 D l (dramMigrationLeft c) (dramDataValid c) (dramBuffer c) idx.
Definition fetching_both (c : Control) (idx : list nat) : Prop :=
  if both s0 then fetching_dram c idx else dramMigrationLeft c = 0 /\ idx = [].

Record reading (c : Control) (W : list CPkt) (iP iD : list nat) : Prop := {
  rd_rank : rk c = k0;
  rd_done : readDone c = false;
  rd_wbs : invalidWbPacket c = W;
  rd_write : writeMigEvent c = false;
  rd_flush : invalidWbMigEvent c = false;
  rd_pcm : fetching_pcm c iP;
  rd_dram : fetching_both c iD
}.

Lemma reads_pcm c idx i :
  fetching_pcm c idx -> pcmReadMigLocation c = Z.of_nat i -> exists ans n,
    let c' := c <| pcmReadMigLocation := Z.of_nat (i + length n) |>
                <| accepted := accepted c ++ (read_pkt P <$> n) |> <| answers := ans |> in
    send_lines (read_line P) set_pcm_read i (64 - i) c = Ok c' /\ fetching_pcm c' (idx ++ n) /\
    (forall j, willing (64 - i + j) (answers c) -> (i + length n = 64)%nat /\ willing j ans).
Proof.
  intros (l & Hl & Hf) Hi. assert (l = i) as -> by lia. pose proof (fe_l _ _ _ _ _ _ _ Hf).
  destruct (send_pcm_reads P i (64 - i) c Hl ltac:(lia)) as (k & ans & Hk & E & Hall).
  exists ans, (seq i k). rewrite length_seq. split; [exact E|]. split.
  - exists (i + k)%nat. split; [done|]. exact (fetched_more m0 P i k _ _ _ _ ltac:(lia) Hf).
  - intros j Hj. destruct (Hall j Hj) as [-> ?]. split; [lia|done].
Qed.
Lemma reads_dram c idx i :
  fetching_dram c idx -> dramReadMigLocation c = Z.of_nat i -> exists ans n,
    let c' := c <| dramReadMigLocation := Z.of_nat (i + length n) |>
                <| accepted := accepted c ++ (read_pkt D <$> n) |> <| answers := ans |> in
    send_lines (read_line D) set_dram_read i (64 - i) c = Ok c' /\ fetching_dram c' (idx ++ n) /\
    (forall j, willing (64 - i + j) (answers c) -> (i + length n = 64)%nat /\ willing j ans).
Proof.
  intros (l & Hl & Hf) Hi. assert (l = i) as -> by lia. pose proof (fe_l _ _ _ _ _ _ _ Hf).
  destruct (send_dram_reads D i (64 - i) c Hl ltac:(lia)) as (k & ans & Hk & E & Hall).
  exists ans, (seq i k). rewrite length_seq. split; [exact E|]. split.
  - exists (i + k)%nat. split; [done|]. exact (fetched_more m0 D i k _ _ _ _ ltac:(lia) Hf).
  - intros j Hj. destruct (Hall j Hj) as [-> ?]. split; [lia|done].
Qed.

Lemma schedule_unread c :
  readMigEvent c = false ->
  (if read_unsent c then schedule_read c else Ok c) = Ok (c <| readMigEvent := read_unsent c |>).
Proof.
  intros Hc. unfold schedule_read. destruct (read_unsent c); rewrite ?Hc; [done|].
  destruct c; cbn in Hc; subst; done.
Qed.

(** Answers are to come. *)
Definition busy (c : Control) : Prop := (pcmMigrationLeft c =? 0) && (dramMigrationLeft c =? 0) = false.

(** What a round of reads does to a controller that reads. *)
Definition read_round (c c' : Control) (W : list CPkt) (iP iD : list nat) : Prop := exists nP nD,
  reading c' W (iP ++ nP) (iD ++ nD) /\ readMigEvent c' = read_unsent c' /\ busy c' /\
  accepted c' = accepted c ++ (read_pkt P <$> nP) ++ (read_pkt D <$> nD).

Lemma processRead_ok c W iP iD :
  migrating s0 = true -> reading c W iP iD -> busy c -> readMigEvent c = false ->
  exists c', processReadFromMemory c = Ok c' /\ read_round c c' W iP iD /\
    (willing 128 (answers c) -> readMigEvent c' = false).
Proof.
  intros Hm [Hk Hd Hw Hwr Hfl Hp Hdr] Hbusy Hev. unfold processReadFromMemory.
  replace (csys c) with s0 by (unfold csys; by rewrite Hk). rewrite Hd, Hm. cbn [negb andb].
  pose proof Hp as (i & Hi & _). rewrite Hi. unfold lines_left.
  replace (Z.to_nat (64 - Z.of_nat i)) with (64 - i)%nat by lia. rewrite Nat2Z.id.
  destruct (reads_pcm c iP i Hp Hi) as (ans & n & E & Hp' & Hall). rewrite E. clear E. cbn [mbind outcome_bind].
  set (c1 := c <| pcmReadMigLocation := _ |> <| accepted := _ |> <| answers := _ |>) in *.
  assert (Hk1 : csys c1 = s0) by (change (csys c1) with (rsys (rk c)); by rewrite Hk). rewrite Hk1.
  assert (Hdr1 : fetching_both c1 iD) by exact Hdr. clear Hdr. destruct (both s0) eqn:Hb.
  - unfold fetching_both in Hdr1. rewrite Hb in Hdr1. pose proof Hdr1 as (j & Hj & _).
    rewrite Hj. replace (Z.to_nat (64 - Z.of_nat j)) with (64 - j)%nat by lia. rewrite Nat2Z.id.
    destruct (reads_dram c1 iD j Hdr1 Hj) as (ans' & n' & E & Hd' & Hall'). rewrite E. clear E. cbn [mbind outcome_bind].
    set (c2 := c1 <| dramReadMigLocation := _ |> <| accepted := _ |> <| answers := _ |>) in *.
    rewrite (schedule_unread c2) by exact Hev. eexists. split; [reflexivity|]. split.
    { exists n, n'. split; [split; try done; unfold fetching_both; rewrite Hb; exact Hd'|]. split; [done|].
      split; [exact Hbusy|].
    change (accepted c2 = accepted c ++ (read_pkt P <$> n) ++ (read_pkt D <$> n')).
      change (accepted c2) with ((accepted c ++ (read_pkt P <$> n)) ++ (read_pkt D <$> n')). by rewrite app_assoc. }
    intros Hwill. destruct (Hall 64%nat) as [Hi64 Hw1]; [destruct Hwill; split; [lia|done]|].
    destruct (Hall' 0%nat) as [Hj64 _]; [destruct Hw1; split; [change (answers c1) with ans; lia|done]|].
    change (read_unsent c2 = false). unfold read_unsent. change (csys c2) with (csys c1). rewrite Hk1, Hb.
    change (pcmReadMigLocation c2) with (Z.of_nat (i + length n)).
    change (dramReadMigLocation c2) with (Z.of_nat (j + length n')). by rewrite Hi64, Hj64.
  - cbn [mbind outcome_bind]. rewrite (schedule_unread c1) by exact Hev. eexists. split; [reflexivity|].
    split.
    { exists n, []. rewrite app_nil_r. split; [split; try done|]. split; [done|]. split; [exact Hbusy|].
      cbn [fmap list_fmap]. rewrite app_nil_r. done. }
    intros Hwill. destruct (Hall 0%nat) as [Hi64 Hw1]; [destruct Hwill; split; [lia|done]|].
    change (read_unsent c1 = false). unfold read_unsent. rewrite Hk1, Hb.
    change (pcmReadMigLocation c1) with (Z.of_nat (i + length n)). by rewrite Hi64.
Qed.

(** A controller that is not migrating. *)
Record resting (c : Control) : Prop := {
  rs_read : readMigEvent c = false;
  rs_write : writeMigEvent c = false;
  rs_flush : invalidWbMigEvent c = false;
  rs_pcm : length (pcmBuffer c) = 64%nat;
  rs_dram : length (dramBuffer c) = 64%nat
}.

(** What [readFromMemory] and [writeToMemory] set before they send. *)
Definition start_reading (c : Control) : Control :=
  c <| readDone := false |> <| pcm_empty := false |> <| pcmMigrationLeft := 64 |>
    <| dramMigrationLeft := 0 |> <| pcmReadMigLocation := 0 |> <| pcmDataValid := replicate 64 false |>.
Definition start_writing (c : Control) : Control :=
  c <| writeDone := false |> <| dram_empty := false |> <| dramMigrationLeft := 64 |>
    <| pcmMigrationLeft := 0 |> <| pcmWriteMigLocation := 0 |>.

Lemma start_reading_fields c :
  resting c ->
  rk (start_reading c) = rk c /\ readDone (start_reading c) = false /\
  invalidWbPacket (start_reading c) = invalidWbPacket c /\ readMigEvent (start_reading c) = false /\
  writeMigEvent (start_reading c) = false /\ invalidWbMigEvent (start_reading c) = false /\
  dramMigrationLeft (start_reading c) = 0 /\ length (dramBuffer (start_reading c)) = 64%nat /\
  accepted (start_reading c) = accepted c /\ fetching_pcm (start_reading c) [] /\
  pcmReadMigLocation (start_reading c) = Z.of_nat 0 /\ busy (start_reading c).
Proof.
  intros [Hr Hw Hf Hbp Hbd]. repeat apply conj; try assumption; try reflexivity.
  exists 0%nat. split; [done|]. by apply fetched_start.
Qed.

Lemma readFromMemory_ok c :
  rk c = k0 -> resting c ->
  exists c', readFromMemory P D c = Ok c' /\ read_round c c' (invalidWbPacket c) [] [].
Proof.
  intros Hk0 Hrest.
  pose proof (start_reading_fields c Hrest) as (Hk & Hrd & Hwb & Hr & Hw & Hf & Hn & Hbd & Ha & Hp & Hl & Hbusy).
  rewrite Hk0 in Hk. unfold read_round. rewrite <- Ha, <- Hwb. unfold readFromMemory. cbv zeta. fold (start_reading c).
  clear Hwb Ha Hrest Hk0. generalize dependent (start_reading c). clear c. intros c0 Hk Hrd Hr Hw Hf Hn Hbd Hp Hl Hbusy.
  destruct (reads_pcm c0 [] 0 Hp Hl) as (ans & n & E & Hp' & _).
  change (64 - 0)%nat with 64%nat in E. rewrite E. clear E. cbn [mbind outcome_bind].
  set (c1 := c0 <| pcmReadMigLocation := _ |> <| accepted := _ |> <| answers := _ |>) in *.
  assert (Hk1 : csys c1 = s0) by (change (csys c1) with (rsys (rk c0)); by rewrite Hk). rewrite Hk1.
  destruct (both s0) eqn:Hb.
  - set (c2 := c1 <| dramMigrationLeft := _ |> <| dram_empty := _ |> <| dramReadMigLocation := _ |>
                  <| dramDataValid := _ |>).
    assert (Hd : fetching_dram c2 []) by (exists 0%nat; split; [done|]; by apply fetched_start).
    destruct (reads_dram c2 [] 0 Hd eq_refl) as (ans' & n' & E & Hd' & _).
    change (64 - 0)%nat with 64%nat in E. rewrite E. clear E. cbn [mbind outcome_bind].
    set (c3 := c2 <| dramReadMigLocation := _ |> <| accepted := _ |> <| answers := _ |>) in *.
    rewrite (schedule_unread c3) by exact Hr. eexists. split; [reflexivity|]. exists n, n'.
    split; [split; try done; unfold fetching_both; rewrite Hb; exact Hd'|]. split; [done|].
    split; [change ((pcmMigrationLeft c0 =? 0) && false = false); apply andb_false_r|].
    change (accepted c3 = accepted c0 ++ (read_pkt P <$> n) ++ (read_pkt D <$> n')).
    change (accepted c3) with ((accepted c0 ++ (read_pkt P <$> n)) ++ (read_pkt D <$> n')). by rewrite app_assoc.
  - cbn [mbind outcome_bind]. rewrite (schedule_unread c1) by exact Hr. eexists. split; [reflexivity|].
    exists n, []. split; [split; try done; unfold fetching_both; rewrite Hb; done|].
    split; [done|]. split; [exact Hbusy|]. cbn [fmap list_fmap]. rewrite app_nil_r. done.
Qed.

(** ** Writing *)

(** Where the answer to a write of one of the two pages comes from. *)
Definition ack_for (q : Z) (p : CPkt) : Prop :=
  pk_cmd p = Writeback /\ exists i, (i < 64)%nat /\ pk_addr p = line_addr q i.

(** [l] lines are written, and those answered are no longer to come. *)
Definition writing_pcm (c : Control) (l : nat) (acks : list CPkt) : Prop :=
  pcmWriteMigLocation c = Z.of_nat l /\ (l <= 64)%nat /\
  (forall j, (j < 64)%nat -> pcmBuffer c !! j = Some (line_of m0 P j)) /\
  dramMigrationLeft c + Z.of_nat l = 64 + Z.of_nat (length acks) /\ dramMigrationLeft c <= 64.
Definition writing_dram (c : Control) (l : nat) (acks : list CPkt) : Prop :=
  dramWriteMigLocation c = Z.of_nat l /\ (l <= 64)%nat /\
  (forall j, (j < 64)%nat -> dramBuffer c !! j = Some (line_of m0 D j) /\ dramDataValid c !! j = Some true) /\
  pcmMigrationLeft c + Z.of_nat l = 64 + Z.of_nat (length acks) /\ pcmMigrationLeft c <= 64.
Definition writing_both (c : Control) (l : nat) (acks : list CPkt) : Prop :=
  if both s0 then writing_dram c l acks else pcmMigrationLeft c = 0 /\ l = 0%nat /\ acks = [].

(** [aP] and [aD] are the answers to come, for the lines of the page of PCM,
    now in DRAM, and for the others. *)
Record writing (c : Control) (W : list CPkt) (lP lD : nat) (aP aD : list CPkt) : Prop := {
  wr_rank : rk c = k0;
  wr_read_done : readDone c = true;
  wr_done : writeDone c = false;
  wr_wbs : invalidWbPacket c = W;
  wr_read : readMigEvent c = false;
  wr_flush : invalidWbMigEvent c = false;
  wr_pcm : writing_pcm c lP aP;
  wr_dram : writing_both c lD aD
}.

Definition pcm_writes (l k : nat) : list CPkt := (fun j => write_pkt D (line_of m0 P j) j) <$> seq l k.
Definition dram_writes (l k : nat) : list CPkt := (fun j => write_pkt P (line_of m0 D j) j) <$> seq l k.

Lemma writes_pcm c l acks :
  writing_pcm c l acks -> exists ans k,
    let c' := c <| pcmWriteMigLocation := Z.of_nat (l + k) |>
                <| accepted := accepted c ++ pcm_writes l k |> <| answers := ans |> in
    (l + k <= 64)%nat /\ send_lines (write_pcm_line D) set_pcm_write l (64 - l) c = Ok c' /\
    writing_pcm c' (l + k) (acks ++ pcm_writes l k) /\
    (forall j, willing (64 - l + j) (answers c) -> (l + k = 64)%nat /\ willing j ans).
Proof.
  intros (Hl & Hle & Hbuf & Hn & Hn').
  destruct (send_pcm_writes D (line_of m0 P) l (64 - l) c Hl ltac:(lia) Hbuf) as (k & ans & Hk & E & Hall).
  exists ans, k. split; [lia|]. split; [exact E|].
  split; [|intros j Hj; destruct (Hall j Hj) as [-> ?]; split; [lia|done]]. split; [done|]. split; [lia|]. split; [exact Hbuf|].
  unfold pcm_writes. rewrite length_app, length_fmap, length_seq.
  change (dramMigrationLeft (set_field _ _ _)) with (dramMigrationLeft c). lia.
Qed.
Lemma writes_dram c l acks :
  writing_dram c l acks -> exists ans k,
    let c' := c <| dramWriteMigLocation := Z.of_nat (l + k) |>
                <| accepted := accepted c ++ dram_writes l k |> <| answers := ans |> in
    (l + k <= 64)%nat /\ send_lines (write_dram_line P) set_dram_write l (64 - l) c = Ok c' /\
    writing_dram c' (l + k) (acks ++ dram_writes l k) /\
    (forall j, willing (64 - l + j) (answers c) -> (l + k = 64)%nat /\ willing j ans).
Proof.
  intros (Hl & Hle & Hbuf & Hn & Hn').
  destruct (send_dram_writes P (line_of m0 D) l (64 - l) c Hl ltac:(lia) Hbuf) as (k & ans & Hk & E & Hall).
  exists ans, k. split; [lia|]. split; [exact E|].
  split; [|intros j Hj; destruct (Hall j Hj) as [-> ?]; split; [lia|done]]. split; [done|]. split; [lia|]. split; [exact Hbuf|].
  unfold dram_writes. rewrite length_app, length_fmap, length_seq.
  change (pcmMigrationLeft (set_field _ _ _)) with (pcmMigrationLeft c). lia.
Qed.

Lemma schedule_unwritten c :
  writeMigEvent c = false ->
  (if write_unsent c then schedule_write c else Ok c) = Ok (c <| writeMigEvent := write_unsent c |>).
Proof.
  intros Hc. unfold schedule_write. destruct (write_unsent c); rewrite ?Hc; [done|].
  destruct c; cbn in Hc; subst; done.
Qed.

Definition write_round (c c' : Control) (W : list CPkt) (lP lD : nat) (aP aD : list CPkt) : Prop := exists kP kD,
  (lP + kP <= 64)%nat /\ (lD + kD <= 64)%nat /\
  writing c' W (lP + kP) (lD + kD) (aP ++ pcm_writes lP kP) (aD ++ dram_writes lD kD) /\
  writeMigEvent c' = write_unsent c' /\ busy c' /\ accepted c' = accepted c ++ pcm_writes lP kP ++ dram_writes lD kD.

Lemma processWrite_ok c W lP lD aP aD :
  migrating s0 = true -> writing c W lP lD aP aD -> busy c -> writeMigEvent c = false ->
  exists c', processWriteToMemory c = Ok c' /\ write_round c c' W lP lD aP aD /\
    (willing 128 (answers c) -> writeMigEvent c' = false).
Proof.
  intros Hm [Hk Hrd Hd Hw Hr Hfl Hp Hdr] Hbusy Hev. unfold processWriteToMemory.
  replace (csys c) with s0 by (unfold csys; by rewrite Hk). rewrite Hd, Hm. cbn [negb andb].
  pose proof Hp as (Hi & HlP & _). rewrite Hi. unfold lines_left.
  replace (Z.to_nat (64 - Z.of_nat lP)) with (64 - lP)%nat by lia. rewrite Nat2Z.id.
  destruct (writes_pcm c lP aP Hp) as (ans & k & HkP & E & Hp' & Hall). rewrite E. clear E. cbn [mbind outcome_bind].
  set (c1 := c <| pcmWriteMigLocation := _ |> <| accepted := _ |> <| answers := _ |>) in *.
  assert (Hk1 : csys c1 = s0) by (change (csys c1) with (rsys (rk c)); by rewrite Hk). rewrite Hk1.
  assert (Hdr1 : writing_both c1 lD aD) by exact Hdr. clear Hdr. unfold write_round.
  unfold writing_both in Hdr1. destruct (both s0) eqn:Hb.
  - pose proof Hdr1 as (Hj & HlD & _).
    rewrite Hj. replace (Z.to_nat (64 - Z.of_nat lD)) with (64 - lD)%nat by lia. rewrite Nat2Z.id.
    destruct (writes_dram c1 lD aD Hdr1) as (ans' & k' & HkD & E & Hd' & Hall'). rewrite E. clear E. cbn [mbind outcome_bind].
    set (c2 := c1 <| dramWriteMigLocation := _ |> <| accepted := _ |> <| answers := _ |>) in *.
    rewrite (schedule_unwritten c2) by exact Hev. eexists. split; [reflexivity|]. split.
    { exists k, k'. split; [done|]. split; [done|].
      split; [split; try done; unfold writing_both; rewrite Hb; exact Hd'|]. split; [done|]. split; [exact Hbusy|].
    change (accepted c2 = accepted c ++ pcm_writes lP k ++ dram_writes lD k').
    change (accepted c2) with ((accepted c ++ pcm_writes lP k) ++ dram_writes lD k'). by rewrite app_assoc. }
    intros Hwill. destruct (Hall 64%nat) as [Hi64 Hw1]; [destruct Hwill; split; [lia|done]|].
    destruct (Hall' 0%nat) as [Hj64 _]; [destruct Hw1; split; [change (answers c1) with ans; lia|done]|].
    change (write_unsent c2 = false). unfold write_unsent. change (csys c2) with (csys c1). rewrite Hk1, Hb.
    change (pcmWriteMigLocation c2) with (Z.of_nat (lP + k)).
    change (dramWriteMigLocation c2) with (Z.of_nat (lD + k')). by rewrite Hi64, Hj64.
  - destruct Hdr1 as (Hn & -> & ->). cbn [mbind outcome_bind]. rewrite (schedule_unwritten c1) by exact Hev.
    eexists. split; [reflexivity|]. split.
    { exists k, 0%nat. split; [done|]. split; [lia|].
      split; [split; try done; unfold writing_both; rewrite Hb; done|].
      split; [done|]. split; [exact Hbusy|]. rewrite app_nil_r. done. }
    intros Hwill. destruct (Hall 0%nat) as [Hi64 Hw1]; [destruct Hwill; split; [lia|done]|].
    change (write_unsent c1 = false). unfold write_unsent. rewrite Hk1, Hb.
    change (pcmWriteMigLocation c1) with (Z.of_nat (lP + k)). by rewrite Hi64.
Qed.

(** The buffers hold both pages. *)
Definition fetched_all (c : Control) : Prop :=
  (forall j, (j < 64)%nat -> pcmBuffer c !! j = Some (line_of m0 P j)) /\
  (both s0 = true ->
   forall j, (j < 64)%nat -> dramBuffer c !! j = Some (line_of m0 D j) /\ dramDataValid c !! j = Some true).

Lemma start_writing_fields c :
  fetched_all c ->
  rk (start_writing c) = rk c /\ readDone (start_writing c) = readDone c /\ writeDone (start_writing c) = false /\
  invalidWbPacket (start_writing c) = invalidWbPacket c /\ readMigEvent (start_writing c) = readMigEvent c /\
  writeMigEvent (start_writing c) = writeMigEvent c /\ invalidWbMigEvent (start_writing c) = invalidWbMigEvent c /\
  pcmMigrationLeft (start_writing c) = 0 /\ accepted (start_writing c) = accepted c /\
  writing_pcm (start_writing c) 0 [] /\ busy (start_writing c) /\ fetched_all (start_writing c).
Proof.
  intros [Hp Hd]. repeat apply conj; try assumption; try reflexivity; try lia. all: done.
Qed.

Lemma writeToMemory_ok c :
  migrating s0 = true -> rk c = k0 -> readDone c = true -> readMigEvent c = false -> writeMigEvent c = false ->
  invalidWbMigEvent c = false -> fetched_all c ->
  exists c', writeToMemory D P c = Ok c' /\ write_round c c' (invalidWbPacket c) 0 0 [] [].
Proof.
  intros Hm Hk0 Hrd0 Hr0 Hw0 Hf0 Hall0.
  pose proof (start_writing_fields c Hall0) as (Hk & Hrd & Hd & Hwb & Hr & Hw & Hf & Hn & Ha & Hp & Hbusy & [_ Hbd]).
  rewrite Hk0 in Hk. rewrite Hrd0 in Hrd. rewrite Hr0 in Hr. rewrite Hw0 in Hw. rewrite Hf0 in Hf.
  unfold write_round. rewrite <- Ha, <- Hwb. unfold writeToMemory. cbv zeta. fold (start_writing c).
  clear Hwb Ha Hk0 Hrd0 Hr0 Hw0 Hf0 Hall0. generalize dependent (start_writing c). clear c.
  intros c0 Hk Hrd Hd Hr Hw Hf Hn Hp Hbusy Hbd.
  assert (Hk0 : csys c0 = s0) by (unfold csys; by rewrite Hk). rewrite Hk0, Hm.
  destruct (writes_pcm c0 0 [] Hp) as (ans & k & HkP & E & Hp' & _).
  change (64 - 0)%nat with 64%nat in E. rewrite E. clear E. cbn [mbind outcome_bind].
  set (c1 := c0 <| pcmWriteMigLocation := _ |> <| accepted := _ |> <| answers := _ |>) in *.
  change (csys c1) with (csys c0). rewrite Hk0. destruct (both s0) eqn:Hb.
  - set (c2 := c1 <| pcmMigrationLeft := _ |> <| pcm_empty := _ |> <| dramWriteMigLocation := _ |>).
    assert (Hwd : writing_dram c2 0 []) by (split; [done|]; split; [lia|]; split; [by apply Hbd|]; done).
    destruct (writes_dram c2 0 [] Hwd) as (ans' & k' & HkD & E & Hd' & _).
    change (64 - 0)%nat with 64%nat in E. rewrite E. clear E. cbn [mbind outcome_bind].
    set (c3 := c2 <| dramWriteMigLocation := _ |> <| accepted := _ |> <| answers := _ |>) in *.
    rewrite (schedule_unwritten c3) by exact Hw. eexists. split; [reflexivity|]. exists k, k'.
    split; [done|]. split; [done|].
    split; [split; try done; unfold writing_both; rewrite Hb; exact Hd'|]. split; [done|].
    split; [exact I || reflexivity|].
    change (accepted c3 = accepted c0 ++ pcm_writes 0 k ++ dram_writes 0 k').
    change (accepted c3) with ((accepted c0 ++ pcm_writes 0 k) ++ dram_writes 0 k'). by rewrite app_assoc.
  - cbn [mbind outcome_bind]. rewrite (schedule_unwritten c1) by exact Hw. eexists. split; [reflexivity|].
    exists k, 0%nat. split; [done|]. split; [lia|].
    split; [split; try done; unfold writing_both; rewrite Hb; done|].
    split; [done|]. split; [exact Hbusy|]. rewrite app_nil_r. done.
Qed.

(** ** The end *)

Lemma lift_sys_keeps f c c' :
  lift_sys f c = Ok c' -> accepted c' = accepted c /\ invalidWbPacket c' = invalidWbPacket c.
Proof. unfold lift_sys. destruct (on_sys f (rk c)) as [r|]; [|done]. by intros [= <-]. Qed.
Lemma lift_rank_keeps f c c' :
  lift_rank f c = Ok c' -> accepted c' = accepted c /\ invalidWbPacket c' = invalidWbPacket c.
Proof. unfold lift_rank. destruct (f (rk c)) as [r|]; [|done]. by intros [= <-]. Qed.

Lemma doSomeEnd_ends now c c' :
  doSomeEndThing now c = Ok c' -> migrating (csys c') = false /\ accepted c' = accepted c /\ invalidWbPacket c = [].
Proof.
  unfold doSomeEndThing. destruct (_ && _); [|done]. destruct (invalidWbPacket c); [|done].
  set (o := if both (csys c) then _ else _). destruct o as [c1|] eqn:E1; [|done]. cbn [mbind outcome_bind].
  assert (H1 : accepted c1 = accepted c).
  { unfold o in E1. destruct (both (csys c)); [by simplify_eq|]. by apply lift_sys_keeps in E1 as [? _]. }
  clear o E1. destruct (deref _) as [p|]; [|done]. cbn [mbind outcome_bind].
  destruct (get_page _ _) as [x|]; [|done]. cbn [mbind outcome_bind].
  set (c2 := on_csys _ c1). assert (H2 : accepted c2 = accepted c) by exact H1. clearbody c2. clear H1.
  destruct (deref _) as [q|]; [|done]. cbn [mbind outcome_bind].
  destruct (lift_sys _ c2) as [c3|] eqn:E3; [|done]. cbn [mbind outcome_bind]. apply lift_sys_keeps in E3 as [H3 _].
  set (c4 := match DRAM_victim_list (csys c3) with Some _ => _ | None => _ end).
  assert (H4 : accepted c4 = accepted c) by (rewrite <- H2, <- H3; unfold c4; by destruct (DRAM_victim_list (csys c3))).
  clearbody c4. clear H2 H3.
  destruct (lift_sys _ c4) as [c5|] eqn:E5; [|done]. cbn [mbind outcome_bind]. apply lift_sys_keeps in E5 as [H5 _].
  destruct (lift_rank _ c5) as [c6|] eqn:E6; [|done]. cbn [mbind outcome_bind]. apply lift_rank_keeps in E6 as [H6 _].
  intros [= <-]. assert (accepted c6 = accepted c) as <- by congruence. by destruct (haveRefuse _).
Qed.

Lemma send_invalidWb_ok wbs : forall c,
  exists sent rest ans, wbs = sent ++ rest /\
    send_invalidWb wbs c = (rest, c <| accepted := accepted c ++ sent |> <| answers := ans |>).
Proof.
  induction wbs as [|p wbs IH]; intros c.
  - exists [], [], (answers c). split; [done|]. cbn [send_invalidWb]. f_equal. rewrite app_nil_r. by destruct c.
  - cbn [send_invalidWb]. unfold sendTimingReq. destruct (answers c) as [|[] ans] eqn:Ea.
    + exists [], (p :: wbs), []. split; [done|]. f_equal. rewrite app_nil_r. destruct c; cbn in Ea; by subst.
    + set (c1 := c <| accepted ::= _ |> <| answers := ans |>). destruct (IH c1) as (sent & rest & ans' & -> & E).
      exists (p :: sent), rest, ans'. split; [done|]. rewrite E. f_equal.
      change (accepted c1) with (accepted c ++ [p]). by rewrite <- app_assoc.
    + exists [], (p :: wbs), ans. split; [done|]. f_equal. rewrite app_nil_r. by destruct c.
Qed.

(** The flushed lines are sent on: all, and the migration ends, or some. *)
Record flushing (c : Control) (W : list CPkt) : Prop := {
  fl_rank : rk c = k0;
  fl_read_done : readDone c = true;
  fl_write_done : writeDone c = true;
  fl_wbs : invalidWbPacket c = W;
  fl_read : readMigEvent c = false;
  fl_write : writeMigEvent c = false
}.

Definition ended (c : Control) : Prop := exists now c1, flushing c1 [] /\ doSomeEndThing now c1 = Ok c.

Lemma processInvalidWb_ok now c c' W :
  flushing c W -> processInvalidWb now c = Ok c' -> exists sent rest, W = sent ++ rest /\
    accepted c' = accepted c ++ sent /\
    ((rest = [] /\ migrating (csys c') = false /\ ended c') \/
     (rest <> [] /\ flushing c' rest /\ invalidWbMigEvent c' = true)).
Proof.
  intros [Hk Hr Hwd Hw Hre Hwe]. unfold processInvalidWb. rewrite Hw. destruct W as [|p W].
  - intros Hrun. pose proof (doSomeEnd_ends _ _ _ Hrun) as (Hm & Ha & _).
    exists [], []. split; [done|]. rewrite app_nil_r. split; [done|]. left. split; [done|]. split; [done|].
    by exists now, c.
  - destruct (send_invalidWb_ok (p :: W) c) as (sent & rest & ans & -> & E). rewrite E. clear E. intros H.
    exists sent, rest. split; [done|]. destruct rest as [|p' rest].
    + pose proof (doSomeEnd_ends _ _ _ H) as (Hm & Ha & _). split; [exact Ha|]. left. split; [done|]. split; [done|].
      eexists now, _. split; [|exact H]. by split.
    + unfold schedule_invalidWb in H. destruct (negb _); [|done]. injection H as <-. split; [done|]. right.
      split; [done|]. split; [|done]. split; done.
Qed.

(** ** Answers *)

(** After an answer to a read: more are to come, or the writes begin. *)
Definition read_on (c c' : Control) (W : list CPkt) (iP iD : list nat) : Prop :=
  (reading c' W iP iD /\ readMigEvent c' = read_unsent c' /\ busy c' /\ read_unsent c' = read_unsent c /\
   accepted c' = accepted c) \/
  (iP = [] /\ iD = [] /\ write_round c c' W 0 0 [] []).

Definition after_data (c : Control) : outcome Control :=
  if (pcmMigrationLeft c =? 0) && (dramMigrationLeft c =? 0) then
    writeToMemory (lockedDramNumber (csys c)) (lockedPcmNumber (csys c)) (c <| readDone := true |>)
  else Ok c.

Lemma after_data_ok c W iP iD :
  migrating s0 = true -> reading c W iP iD -> readMigEvent c = read_unsent c ->
  exists c', after_data c = Ok c' /\ read_on c c' W iP iD.
Proof.
  intros Hm Hr Hev. pose proof Hr as [Hk Hd Hw Hwr Hfl (lP & HlP & Hp) Hdr]. unfold after_data.
  destruct ((pcmMigrationLeft c =? 0) && (dramMigrationLeft c =? 0)) eqn:E; [|eexists; split; [done|by left]].
  apply andb_true_iff in E as [E1%Z.eqb_eq E2%Z.eqb_eq]. rewrite E1 in Hp.
  apply fetched_done in Hp as (-> & -> & HbP).
  assert (Hs : csys c = s0) by (unfold csys; by rewrite Hk).
  assert (HbD : iD = [] /\ read_unsent c = false /\ (both s0 = true -> forall i, (i < 64)%nat ->
            dramBuffer c !! i = Some (line_of m0 D i) /\ dramDataValid c !! i = Some true)).
  { unfold fetching_both in Hdr. unfold read_unsent. rewrite Hs, HlP. destruct (both s0).
    - destruct Hdr as (lD & HlD & Hdr). rewrite E2 in Hdr. apply fetched_done in Hdr as (-> & -> & HbD). by rewrite HlD.
    - by destruct Hdr as [_ ->]. }
  destruct HbD as (-> & Hun & HbD). rewrite Hun in Hev. rewrite Hs.
  set (c1 := c <| readDone := true |>).
  destruct (writeToMemory_ok c1) as (c' & E & Hwr'); [done..|split; [by apply HbP|exact HbD]|].
  exists c'. split; [exact E|]. right. split; [done|]. split; [done|].
  change (invalidWbPacket c1) with (invalidWbPacket c) in Hwr'. rewrite Hw in Hwr'. exact Hwr'.
Qed.

Lemma aset_ok {A} (l : list A) i x : (i < length l)%nat -> aset l i x = Ok (<[i := x]> l).
Proof. intros Hi. unfold aset. by rewrite decide_True. Qed.

Lemma read_response_fields f q i :
  pk_cmd (read_response f (read_pkt q i)) = ReadResp /\
  pk_addr (read_response f (read_pkt q i)) = line_addr q i /\
  (pk_size (read_response f (read_pkt q i)) =? 64) = true /\
  pk_data (read_response f (read_pkt q i)) = fread f (line_addr q i) 64.
Proof. done. Qed.

Lemma pcm_data_ok now f c W iP iP' iD i :
  migrating s0 = true -> reading c W iP iD -> readMigEvent c = read_unsent c -> iP ≡ₚ i :: iP' ->
  same_pages s0 f m0 ->
  exists c', processMigrationRespond now (read_response f (read_pkt P i)) c = Ok c' /\ read_on c c' W iP' iD.
Proof.
  intros Hm [Hk Hd Hw Hwr Hfl (l & Hl & Hp) Hdr] Hev Hi Hf.
  destruct (fetched_got _ _ _ _ _ _ _ _ _ Hp Hi) as (Hi64 & Hleft & Hgot). unfold processMigrationRespond.
  destruct (read_response_fields f P i) as (-> & -> & -> & ->). rewrite bool_decide_eq_false_2 by done.
  rewrite (line_read f P i) by (done || by left).
  assert (Hs : csys c = s0) by (unfold csys; by rewrite Hk). rewrite Hs, line_pcm by done. cbn [negb]. cbv zeta.
  rewrite line_index_line by done. rewrite !aset_ok by (rewrite ?(fe_buf _ _ _ _ _ _ _ Hp), ?(fe_valid _ _ _ _ _ _ _ Hp); done).
  cbn [mbind outcome_bind].
  set (c1 := c <| pcmBuffer := _ |> <| pcmDataValid := _ |> <| pcmMigrationLeft ::= _ |>).
  fold (after_data c1). apply (after_data_ok c1 W iP' iD); [done| |exact Hev].
  split; [exact Hk|exact Hd|exact Hw|exact Hwr|exact Hfl| |exact Hdr]. exists l. split; [exact Hl|].
  change (pcmMigrationLeft c1) with (u8 (pcmMigrationLeft c - 1)). rewrite wrap_small by lia. exact Hgot.
Qed.
Lemma dram_data_ok now f c W iP iD' iD i :
  migrating s0 = true -> reading c W iP iD -> readMigEvent c = read_unsent c -> iD ≡ₚ i :: iD' ->
  same_pages s0 f m0 ->
  exists c', processMigrationRespond now (read_response f (read_pkt D i)) c = Ok c' /\ read_on c c' W iP iD'.
Proof.
  intros Hm [Hk Hd Hw Hwr Hfl Hp Hdr] Hev Hi Hf. unfold fetching_both in Hdr.
  destruct (both s0) eqn:Hb; [|destruct Hdr as [_ ->]; by apply Permutation_nil_cons in Hi].
  destruct Hdr as (l & Hl & Hdr).
  destruct (fetched_got _ _ _ _ _ _ _ _ _ Hdr Hi) as (Hi64 & Hleft & Hgot). unfold processMigrationRespond.
  destruct (read_response_fields f D i) as (-> & -> & -> & ->). rewrite bool_decide_eq_false_2 by done.
  rewrite (line_read f D i) by (done || by right).
  assert (Hs : csys c = s0) by (unfold csys; by rewrite Hk). rewrite Hs, line_dram by done. cbn [negb]. cbv zeta.
  rewrite line_index_line by done. rewrite !aset_ok by (rewrite ?(fe_buf _ _ _ _ _ _ _ Hdr), ?(fe_valid _ _ _ _ _ _ _ Hdr); done).
  cbn [mbind outcome_bind].
  set (c1 := c <| dramBuffer := _ |> <| dramDataValid := _ |> <| dramMigrationLeft ::= _ |>).
  fold (after_data c1). apply (after_data_ok c1 W iP iD'); [done| |exact Hev].
  split; [exact Hk|exact Hd|exact Hw|exact Hwr|exact Hfl|exact Hp|].
  unfold fetching_both. rewrite Hb. exists l. split; [exact Hl|].
  change (dramMigrationLeft c1) with (u8 (dramMigrationLeft c - 1)). rewrite wrap_small by lia. exact Hgot.
Qed.

(** After an answer to a write: more are to come, or all is written and the
    flushed lines are next. *)
Definition write_on (now : Z) (o : outcome Control) (c : Control) (W : list CPkt) (lP lD : nat) (aP aD : list CPkt)
    : Prop := exists c1, accepted c1 = accepted c /\ answers c1 = answers c /\
  ((o = Ok c1 /\ writing c1 W lP lD aP aD /\ writeMigEvent c1 = write_unsent c1 /\ busy c1 /\
    write_unsent c1 = write_unsent c) \/
   (o = processInvalidWb now c1 /\ flushing c1 W /\ invalidWbMigEvent c1 = false /\
    lP = 64%nat /\ lD = (if both s0 then 64 else 0)%nat /\ aP = [] /\ aD = [])).

Definition after_ack (now : Z) (c : Control) : outcome Control :=
  if (pcmMigrationLeft c =? 0) && (dramMigrationLeft c =? 0) then processInvalidWb now (c <| writeDone := true |>)
  else Ok c.

Lemma after_ack_ok now c W lP lD aP aD :
  writing c W lP lD aP aD -> writeMigEvent c = write_unsent c -> write_on now (after_ack now c) c W lP lD aP aD.
Proof.
  intros Hwr Hev. pose proof Hwr as [Hk Hrd Hd Hw Hr Hfl Hp Hdr]. unfold after_ack.
  destruct ((pcmMigrationLeft c =? 0) && (dramMigrationLeft c =? 0)) eqn:E; [|exists c; split; [done|]; split; [done|by left]].
  apply andb_true_iff in E as [E1%Z.eqb_eq E2%Z.eqb_eq].
  destruct Hp as (Hi & HlP & _ & Hn & _). rewrite E2 in Hn.
  assert (lP = 64%nat) as -> by lia. destruct aP; [|cbn in Hn; lia].
  assert (Hs : csys c = s0) by (unfold csys; by rewrite Hk).
  assert (HD' : lD = (if both s0 then 64 else 0)%nat /\ aD = [] /\ write_unsent c = false).
  { unfold writing_both in Hdr. unfold write_unsent. rewrite Hs, Hi. destruct (both s0).
    - destruct Hdr as (Hj & HlD & _ & Hn' & _). rewrite E1 in Hn'. rewrite Hj.
      assert (lD = 64%nat) as -> by lia. destruct aD; [done|cbn in Hn'; lia].
    - by destruct Hdr as (_ & -> & ->). }
  destruct HD' as (-> & -> & Hun). exists (c <| writeDone := true |>). split; [done|]. split; [done|]. right.
  split; [done|]. split; [|done]. split; try done. by rewrite <- Hun, <- Hev.
Qed.

Lemma ack_pcm_ok now p c W lP lD aP aP' aD :
  writing c W lP lD aP aD -> writeMigEvent c = write_unsent c -> aP ≡ₚ p :: aP' -> ack_for D p ->
  write_on now (processMigrationRespond now p c) c W lP lD aP' aD.
Proof.
  intros [Hk Hrd Hd Hw Hr Hfl Hp Hdr] Hev Ha (Hc & i & Hi & Hpa). unfold processMigrationRespond.
  rewrite Hc, bool_decide_eq_true_2 by done. cbn [negb]. rewrite Hd, Hpa.
  assert (Hs : csys c = s0) by (unfold csys; by rewrite Hk). rewrite Hs, line_dram by done. cbv zeta.
  set (c1 := c <| dramMigrationLeft ::= _ |>). fold (after_ack now c1).
  destruct Hp as (Hl & HlP & Hb & Hn & Hn').
  apply Permutation_length in Ha. cbn [length] in Ha.
  assert (Hdl : dramMigrationLeft c1 = dramMigrationLeft c - 1).
  { change (dramMigrationLeft c1) with (u8 (dramMigrationLeft c - 1)). apply wrap_small. lia. }
  destruct (after_ack_ok now c1 W lP lD aP' aD) as (c2 & H1 & H2); [|exact Hev|by exists c2].
  split; [exact Hk|exact Hrd|exact Hd|exact Hw|exact Hr|exact Hfl| |exact Hdr].
  split; [exact Hl|]. split; [done|]. split; [exact Hb|]. rewrite Hdl. lia.
Qed.
Lemma ack_dram_ok now p c W lP lD aP aD aD' :
  writing c W lP lD aP aD -> writeMigEvent c = write_unsent c -> aD ≡ₚ p :: aD' -> ack_for P p ->
  write_on now (processMigrationRespond now p c) c W lP lD aP aD'.
Proof.
  intros [Hk Hrd Hd Hw Hr Hfl Hp Hdr] Hev Ha (Hc & i & Hi & Hpa). unfold processMigrationRespond.
  rewrite Hc, bool_decide_eq_true_2 by done. cbn [negb]. rewrite Hd, Hpa.
  assert (Hs : csys c = s0) by (unfold csys; by rewrite Hk). rewrite Hs, line_pcm by done. cbv zeta.
  set (c1 := c <| pcmMigrationLeft ::= _ |>). fold (after_ack now c1).
  unfold writing_both in Hdr. destruct (both s0) eqn:Hb; [|destruct Hdr as (_ & _ & ->); by apply Permutation_nil_cons in Ha].
  destruct Hdr as (Hl & HlD & Hbuf & Hn & Hn').
  apply Permutation_length in Ha. cbn [length] in Ha.
  assert (Hdl : pcmMigrationLeft c1 = pcmMigrationLeft c - 1).
  { change (pcmMigrationLeft c1) with (u8 (pcmMigrationLeft c - 1)). apply wrap_small. lia. }
  destruct (after_ack_ok now c1 W lP lD aP aD') as (c2 & H1 & H2); [|exact Hev|by exists c2].
  split; [exact Hk|exact Hrd|exact Hd|exact Hw|exact Hr|exact Hfl|exact Hp|].
  unfold writing_both. rewrite Hb. split; [exact Hl|]. split; [done|]. split; [exact Hbuf|]. rewrite Hdl. lia.
Qed.

(** ** The invariant *)

Context (Hmig : migrating s0 = true).

Definition locked_ack (p : CPkt) : Prop := ack_for P p \/ ack_for D p.

(** A migration, [W] being the flushed lines so far: it reads, it writes, it
    sends on the flushed lines, or it is over. *)
Inductive phase (w : World) (W : list CPkt) : Prop :=
  | ph_read iP iD :
      reading (ctl w) W iP iD -> readMigEvent (ctl w) = read_unsent (ctl w) -> busy (ctl w) -> same_pages s0 (contents w) m0 ->
      flight w ≡ₚ (read_pkt P <$> iP) ++ (read_pkt D <$> iD) -> phase w W
  | ph_write lP lD aP aD :
      writing (ctl w) W lP lD aP aD -> writeMigEvent (ctl w) = write_unsent (ctl w) -> busy (ctl w) ->
      same_pages s0 (contents w) (moved s0 lP lD m0) ->
      flight w ≡ₚ aP ++ aD -> Forall (ack_for D) aP -> Forall (ack_for P) aD -> phase w W
  | ph_flush sent rest :
      flushing (ctl w) rest -> invalidWbMigEvent (ctl w) = true -> W = sent ++ rest -> rest <> [] ->
      same_pages s0 (contents w) (pend (exchanged s0 m0) sent) -> Forall locked_ack (flight w) -> phase w W
  | ph_over :
      migrating (csys (ctl w)) = false -> ended (ctl w) ->
      same_pages s0 (contents w) (pend (exchanged s0 m0) W) -> phase w W.

(** The world after an operation. *)
Definition after (m : Bytes) (fl : list CPkt) (c : Control) : World :=
  MkWorld c (pend m (filter is_writeback (accepted c))) (fl ++ accepted c).
Definition primed (ans : list bool) (c : Control) : Control := c <| answers := ans |> <| accepted := [] |>.

Lemma act_inv op ans m fl c w :
  act op ans m fl c = Ok w -> exists c', op (primed ans c) = Ok c' /\ w = after m fl c'.
Proof.
  unfold act. change (c <| answers := ans |> <| accepted := [] |>) with (primed ans c).
  destruct (op (primed ans c)) as [c'|]; [|done]. intros [= <-]. by exists c'.
Qed.

Lemma after_reads c c' W iP iD m fl :
  accepted c = [] -> read_round c c' W iP iD -> same_pages s0 m m0 ->
  fl ≡ₚ (read_pkt P <$> iP) ++ (read_pkt D <$> iD) -> phase (after m fl c') W.
Proof.
  intros Ha (nP & nD & Hr & Hev & Hbusy & Hacc) Hm Hfl. rewrite Ha in Hacc. cbn [app] in Hacc.
  apply (ph_read _ _ (iP ++ nP) (iD ++ nD)); [exact Hr|exact Hev|exact Hbusy| |].
  - change (same_pages s0 (pend m (filter is_writeback (accepted c'))) m0).
    rewrite Hacc, filter_app, !filter_reads. exact Hm.
  - change (fl ++ accepted c' ≡ₚ (read_pkt P <$> (iP ++ nP)) ++ (read_pkt D <$> (iD ++ nD))).
    rewrite Hacc, Hfl, !fmap_app. solve_Permutation.
Qed.

Lemma ack_writes q d l k : (l + k <= 64)%nat -> Forall (ack_for q) ((fun j => write_pkt q (d j) j) <$> seq l k).
Proof.
  intros Hk. apply Forall_fmap, Forall_forall. intros j Hj%elem_of_seq. split; [done|]. exists j. split; [lia|done].
Qed.

Lemma after_writes c c' W lP lD aP aD m fl :
  accepted c = [] -> write_round c c' W lP lD aP aD -> same_pages s0 m (moved s0 lP lD m0) ->
  fl ≡ₚ aP ++ aD -> Forall (ack_for D) aP -> Forall (ack_for P) aD -> phase (after m fl c') W.
Proof.
  intros Ha (kP & kD & HkP & HkD & Hr & Hev & Hbusy & Hacc) Hm Hfl HaP HaD. rewrite Ha in Hacc. cbn [app] in Hacc.
  apply (ph_write _ _ (lP + kP) (lD + kD) (aP ++ pcm_writes lP kP) (aD ++ dram_writes lD kD)); [exact Hr|exact Hev|exact Hbusy|..].
  - change (same_pages s0 (pend m (filter is_writeback (accepted c'))) (moved s0 (lP + kP) (lD + kD) m0)).
    rewrite Hacc, filter_app. unfold pcm_writes, dram_writes. rewrite !filter_writes, pend_app.
    apply moved_dram; [done..|]. apply moved_pcm; [done|lia|done].
  - change (fl ++ accepted c' ≡ₚ (aP ++ pcm_writes lP kP) ++ aD ++ dram_writes lD kD).
    rewrite Hacc, Hfl. solve_Permutation.
  - apply Forall_app. split; [done|by apply ack_writes].
  - apply Forall_app. split; [done|by apply ack_writes].
Qed.

Lemma after_flush now c c' W sent rest m fl :
  accepted c = [] -> flushing c rest -> processInvalidWb now c = Ok c' -> W = sent ++ rest -> Forall locked_ack W ->
  same_pages s0 m (pend (exchanged s0 m0) sent) -> Forall locked_ack fl -> phase (after m fl c') W.
Proof.
  intros Ha Hf Hrun -> HW Hm Hfl.
  destruct (processInvalidWb_ok _ _ _ _ Hf Hrun) as (s & r0 & -> & Hacc & Hend). rewrite Ha in Hacc. cbn [app] in Hacc.
  rewrite app_assoc in HW |- *. apply Forall_app in HW as [[_ Hs]%Forall_app _].
  assert (Hc : same_pages s0 (contents (after m fl c')) (pend (exchanged s0 m0) (sent ++ s))).
  { change (contents (after m fl c')) with (pend m (filter is_writeback (accepted c'))).
    rewrite Hacc, pend_app. replace (filter is_writeback s) with s; [by apply same_pend|].
    clear -Hs. induction Hs as [|p s Hp Hs IH]; [done|]. rewrite filter_cons_True; [by f_equal|by destruct Hp as [[? _]|[? _]]]. }
  destruct Hend as [(-> & Hmg & Hend)|(Hne & Hf' & Hev)].
  - apply ph_over; [exact Hmg|exact Hend|]. by rewrite app_nil_r.
  - apply (ph_flush _ _ (sent ++ s) r0); [done..|]. change (Forall locked_ack (fl ++ accepted c')).
    rewrite Hacc. by apply Forall_app.
Qed.

(** ** Steps *)

(** A flushed line with the address of the frame its page moves to. *)
Definition follow (c : Control) (p : CPkt) : CPkt := set_addr (redirected (pk_addr p) c) p.

Lemma phase_rank w W : phase w W -> migrating (csys (ctl w)) = true -> rk (ctl w) = k0.
Proof. intros [iP iD []|lP lD aP aD []|s r0 []|Hm] Hmg; [done..|by rewrite Hm in Hmg]. Qed.

Lemma land_line q i : small_page q -> (i < 64)%nat -> Z.land (line_addr q i) (Z.ones PageShift) = 64 * Z.of_nat i.
Proof.
  intros Hq Hi. rewrite line_addr_small by done. rewrite Z.land_ones by done. unfold PageShift.
  symmetry. apply Z.mod_unique with q; lia.
Qed.
Lemma follow_line c p : rk c = k0 -> flushed_line c p -> locked_ack (follow c p).
Proof.
  intros Hk [Hc (i & Hi & Ha) _]. assert (Hs : csys c = s0) by (unfold csys; by rewrite Hk). rewrite Hs in Ha.
  unfold locked_ack, ack_for, follow. change (pk_cmd (set_addr _ p)) with (pk_cmd p).
  change (pk_addr (set_addr (redirected (pk_addr p) c) p)) with (redirected (pk_addr p) c). unfold redirected. rewrite Hs.
  destruct Ha as [-> | ->]; [right|left]; (split; [done|]); exists i; (split; [done|]).
  - rewrite line_pcm by done. rewrite land_line by done. unfold line_addr at 1. f_equal. lia.
  - rewrite line_dram by done. rewrite land_line by done. unfold line_addr at 1. f_equal. lia.
Qed.

Lemma reading_primed ans c W iP iD : reading c W iP iD -> reading (primed ans c) W iP iD.
Proof. intros []. split; assumption. Qed.
Lemma writing_primed ans c W lP lD aP aD : writing c W lP lD aP aD -> writing (primed ans c) W lP lD aP aD.
Proof. intros []. split; assumption. Qed.
Lemma flushing_primed ans c W : flushing c W -> flushing (primed ans c) W.
Proof. intros []. split; assumption. Qed.

(** The event that asks for the lines left. *)
Lemma step_read w w' W ans :
  phase w W -> migrating (csys (ctl w)) = true -> readMigEvent (ctl w) = true ->
  act fire_read ans (contents w) (flight w) (ctl w) = Ok w' -> phase w' W.
Proof.
  intros [iP iD Hr Hev Hbusy Hm Hfl|lP lD aP aD []|s r0 []|Hm] Hmg He; [|congruence..].
  intros (c' & Hop & ->)%act_inv. unfold fire_read in Hop.
  set (c1 := (primed ans (ctl w)) <| readMigEvent := false |>) in Hop.
  destruct (processRead_ok c1 W iP iD Hmig) as (c'' & E & Hround & _); [|done|done|].
  - destruct Hr. split; assumption.
  - rewrite E in Hop. injection Hop as ->. by apply (after_reads c1 c' W iP iD).
Qed.
Lemma step_write w w' W ans :
  phase w W -> migrating (csys (ctl w)) = true -> writeMigEvent (ctl w) = true ->
  act fire_write ans (contents w) (flight w) (ctl w) = Ok w' -> phase w' W.
Proof.
  intros [iP iD []|lP lD aP aD Hr Hev Hbusy Hm Hfl HaP HaD|s r0 []|Hm] Hmg He; [congruence| |congruence..].
  intros (c' & Hop & ->)%act_inv. unfold fire_write in Hop.
  set (c1 := (primed ans (ctl w)) <| writeMigEvent := false |>) in Hop.
  destruct (processWrite_ok c1 W lP lD aP aD Hmig) as (c'' & E & Hround & _); [|done|done|].
  - destruct Hr. split; assumption.
  - rewrite E in Hop. injection Hop as ->. by apply (after_writes c1 c' W lP lD aP aD).
Qed.
Lemma step_flush w w' W ans now :
  phase w W -> migrating (csys (ctl w)) = true -> Forall locked_ack W -> invalidWbMigEvent (ctl w) = true ->
  act (fire_invalidWb now) ans (contents w) (flight w) (ctl w) = Ok w' -> phase w' W.
Proof.
  intros [iP iD []|lP lD aP aD []|s r0 Hr Hev HW Hne Hm Hfl|Hm _] Hmg HW' He; [congruence..| |congruence].
  intros (c' & Hop & ->)%act_inv. unfold fire_invalidWb in Hop.
  set (c1 := (primed ans (ctl w)) <| invalidWbMigEvent := false |>) in Hop.
  apply (after_flush now c1 c' W s r0); try done. destruct Hr. split; assumption.
Qed.

(** An answer for one of the two pages is one to the migration. *)
Lemma answer_locked now p port c :
  pk_cmd p <> SwapReq -> rk c = k0 -> (exists q i, (q = P \/ q = D) /\ (i < 64)%nat /\ pk_addr p = line_addr q i) ->
  drop_answer (recvTimingResp now p port c) = processMigrationRespond now p c.
Proof.
  intros Hc Hk (q & i & Hq & Hi & Ha). unfold recvTimingResp. rewrite bool_decide_eq_false_2 by done.
  assert (Hs : csys c = s0) by (unfold csys; by rewrite Hk).
  rewrite Ha, (line_locked c q i Hs Hq Hi), Hs, Hmig. cbn [andb]. by destruct (processMigrationRespond _ _ _).
Qed.
Lemma ack_place p : locked_ack p -> exists q i, (q = P \/ q = D) /\ (i < 64)%nat /\ pk_addr p = line_addr q i.
Proof. intros [(_ & i & Hi & Ha)|(_ & i & Hi & Ha)]; [exists P, i|exists D, i]; auto. Qed.

Lemma read_on_phase c c' W iP iD m fl :
  accepted c = [] -> read_on c c' W iP iD -> same_pages s0 m m0 ->
  fl ≡ₚ (read_pkt P <$> iP) ++ (read_pkt D <$> iD) -> phase (after m fl c') W.
Proof.
  intros Ha [(Hr & Hev & Hbusy & _ & Hacc)|(-> & -> & Hw)] Hm Hfl.
  - apply (after_reads c c' W iP iD); try done. exists [], []. rewrite !app_nil_r. split; [done|]. split; [done|]. split; [done|].
    cbn. rewrite ?app_nil_r. done.
  - apply (after_writes c c' W 0 0 [] []); try done; [by apply moved_none|by constructor..].
Qed.

Lemma fmap_bound q l left valid buf idx i idx' :
  fetched m0 q l left valid buf idx -> idx ≡ₚ i :: idx' -> (i < 64)%nat.
Proof. intros Hf Hi. by destruct (fetched_got _ _ _ _ _ _ _ _ _ Hf Hi). Qed.

Lemma step_data w w' W ans now port p l1 l2 :
  phase w W -> migrating (csys (ctl w)) = true -> flight w = l1 ++ p :: l2 -> pk_cmd p = ReadReq ->
  act (fun c => drop_answer (recvTimingResp now (read_response (contents w) p) port c)) ans
    (contents w) (l1 ++ l2) (ctl w) = Ok w' -> phase w' W.
Proof.
  intros Hph Hmg Hfl Hp (c' & Hop & ->)%act_inv.
  assert (Hperm : p :: (l1 ++ l2) ≡ₚ flight w) by (rewrite Hfl; solve_Permutation).
  assert (Hin : p ∈ flight w) by (rewrite <- Hperm; left).
  destruct Hph as [iP iD Hr Hev Hbusy Hm Hfw|lP lD aP aD Hr Hev Hbusy Hm Hfw HaP HaD|s r0 Hr Hev HW Hne Hm Hfw|Hm]; [| | |congruence].
  - rewrite Hfw in Hperm. pose proof (reading_primed ans _ _ _ _ Hr) as Hr1.
    change (readMigEvent (primed ans (ctl w)) = read_unsent (primed ans (ctl w))) in Hev.
    pose proof (rd_rank _ _ _ _ Hr1) as Hk.
    apply perm_app_cons in Hperm as [(a' & Ha & Hl)|(a' & Ha & Hl)].
    + symmetry in Ha. apply perm_fmap_cons in Ha as (i & iP' & Hi & -> & Ha').
      assert (Hi64 : (i < 64)%nat) by (destruct (rd_pcm _ _ _ _ Hr) as (l & _ & Hf); by eapply fmap_bound).
      rewrite answer_locked in Hop; [|done|done|by exists P, i; auto].
      destruct (pcm_data_ok now (contents w) _ W iP iP' iD i Hmig Hr1 Hev Hi Hm) as (c'' & E & Hon).
      rewrite E in Hop. injection Hop as ->. eapply read_on_phase; [|exact Hon|done|]; [done|]. by rewrite Hl, Ha'.
    + symmetry in Ha. apply perm_fmap_cons in Ha as (i & iD' & Hi & -> & Ha').
      assert (Hi64 : (i < 64)%nat).
      { pose proof (rd_dram _ _ _ _ Hr) as Hd. unfold fetching_both in Hd. destruct (both s0).
        - destruct Hd as (l & _ & Hf). by eapply fmap_bound.
        - destruct Hd as [_ ->]. by apply Permutation_nil_cons in Hi. }
      rewrite answer_locked in Hop; [|done|done|by exists D, i; auto].
      destruct (dram_data_ok now (contents w) _ W iP iD' iD i Hmig Hr1 Hev Hi Hm) as (c'' & E & Hon).
      rewrite E in Hop. injection Hop as ->. eapply read_on_phase; [|exact Hon|done|]; [done|]. by rewrite Hl, Ha'.
  - rewrite Hfw in Hin. apply elem_of_app in Hin as [Hin|Hin]; rewrite Forall_forall in HaP, HaD;
      [destruct (HaP _ Hin)|destruct (HaD _ Hin)]; congruence.
  - rewrite Forall_forall in Hfw. destruct (Hfw _ Hin) as [[? _]|[? _]]; congruence.
Qed.

Lemma write_on_phase now o c c' W lP lD aP aD m fl :
  write_on now o c W lP lD aP aD -> o = Ok c' -> accepted c = [] -> Forall locked_ack W ->
  (lP <= 64)%nat -> (lD <= 64)%nat -> same_pages s0 m (moved s0 lP lD m0) ->
  fl ≡ₚ aP ++ aD -> Forall (ack_for D) aP -> Forall (ack_for P) aD -> phase (after m fl c') W.
Proof.
  intros (c1 & Hc1 & _ & [(-> & Hr & Hev & Hbusy & _)|(-> & Hf & _ & -> & -> & -> & ->)]) E Ha HW HlP HlD Hm Hfl HaP HaD.
  - injection E as <-. rewrite Ha in Hc1. apply (after_writes c1 c1 W lP lD aP aD); try done.
    exists 0%nat, 0%nat. rewrite !Nat.add_0_r. unfold pcm_writes, dram_writes. cbn [seq fmap list_fmap].
    rewrite !app_nil_r. done.
  - rewrite Ha in Hc1. apply (after_flush now c1 c' W [] W); try done. by rewrite Hfl.
Qed.

Lemma step_ack w w' W ans now port p l1 l2 :
  phase w W -> migrating (csys (ctl w)) = true -> Forall locked_ack W -> flight w = l1 ++ p :: l2 ->
  pk_cmd p = Writeback ->
  act (fun c => drop_answer (recvTimingResp now p port c)) ans (contents w) (l1 ++ l2) (ctl w) = Ok w' ->
  phase w' W.
Proof.
  intros Hph Hmg HW Hfl Hp (c' & Hop & ->)%act_inv.
  assert (Hperm : p :: (l1 ++ l2) ≡ₚ flight w) by (rewrite Hfl; solve_Permutation).
  assert (Hin : p ∈ flight w) by (rewrite <- Hperm; left). assert (Hk := phase_rank w W Hph Hmg).
  destruct Hph as [iP iD Hr Hev Hbusy Hm Hfw|lP lD aP aD Hr Hev Hbusy Hm Hfw HaP HaD|s r0 Hr Hev HW' Hne Hm Hfw|Hm]; [| | |congruence].
  - rewrite Hfw in Hin. apply elem_of_app in Hin as [(i & -> & _)%list_elem_of_fmap|(i & -> & _)%list_elem_of_fmap]; done.
  - rewrite Hfw in Hperm. pose proof (writing_primed ans _ _ _ _ _ _ Hr) as Hr1.
    change (writeMigEvent (primed ans (ctl w)) = write_unsent (primed ans (ctl w))) in Hev.
    assert (Hb : (lP <= 64)%nat /\ (lD <= 64)%nat).
    { destruct Hr as [_ _ _ _ _ _ (_ & ? & _) Hd]. unfold writing_both in Hd. destruct (both s0); [|by destruct Hd as (_ & -> & _); split; [|lia]].
      by destruct Hd as (_ & ? & _). }
    destruct Hb as [HlP HlD].
    apply perm_app_cons in Hperm as [(a' & Ha & Hl)|(a' & Ha & Hl)].
    + rewrite Ha in HaP. apply Forall_cons in HaP as [Hap HaP].
      rewrite answer_locked in Hop; [|by rewrite Hp|done|by apply ack_place; right].
      eapply (write_on_phase now); [by apply (ack_pcm_ok now p _ W lP lD aP a' aD)|exact Hop|done..].
    + rewrite Ha in HaD. apply Forall_cons in HaD as [Had HaD].
      rewrite answer_locked in Hop; [|by rewrite Hp|done|by apply ack_place; left].
      eapply (write_on_phase now); [by apply (ack_dram_ok now p _ W lP lD aP aD a')|exact Hop|done..].
  - rewrite Forall_forall in Hfw. rewrite answer_locked in Hop; [|by rewrite Hp|done|by apply ack_place, Hfw].
    unfold processMigrationRespond in Hop. rewrite bool_decide_eq_true_2 in Hop by done. cbn [negb] in Hop.
    change (writeDone (primed ans (ctl w))) with (writeDone (ctl w)) in Hop. by rewrite (fl_write_done _ _ Hr) in Hop.
Qed.

(** A line that arrives through the system's port. *)
Lemma step_arrives w w' W p :
  phase w W -> migrating (csys (ctl w)) = true -> flushed_line (ctl w) p ->
  act (fun c => drop_answer (recvTimingReq p 0 c)) [] (contents w) (flight w) (ctl w) = Ok w' ->
  phase w' (W ++ [follow (ctl w) p]).
Proof.
  intros Hph Hmg [Hc _ _] (c' & Hop & ->)%act_inv. unfold recvTimingReq in Hop. rewrite Hc in Hop.
  change (negb (isRead Writeback)) with true in Hop. cbn [Z.eqb drop_answer mbind outcome_bind] in Hop.
  injection Hop as <-. change (csys (primed [] (ctl w))) with (csys (ctl w)).
  change (set_addr (redirected (pk_addr p) (primed [] (ctl w))) p) with (follow (ctl w) p).
  set (c1 := (primed [] (ctl w)) <| invalidWbPacket ::= fun l => l ++ [follow (ctl w) p] |>).
  destruct Hph as [iP iD Hr Hev Hbusy Hm Hfw|lP lD aP aD Hr Hev Hbusy Hm Hfw HaP HaD|s r0 Hr Hev HW' Hne Hm Hfw|Hm]; [| | |congruence].
  - apply (ph_read _ _ iP iD); [|exact Hev|exact Hbusy|exact Hm|by change (flight w ++ [] ≡ₚ (read_pkt P <$> iP) ++ (read_pkt D <$> iD)); rewrite app_nil_r].
    destruct Hr as [? ? Hw]. split; try assumption.
    change (invalidWbPacket c1) with (invalidWbPacket (ctl w) ++ [follow (ctl w) p]). by rewrite Hw.
  - apply (ph_write _ _ lP lD aP aD); [|exact Hev|exact Hbusy|exact Hm|by change (flight w ++ [] ≡ₚ aP ++ aD); rewrite app_nil_r|done..].
    destruct Hr as [? ? ? Hw]. split; try assumption.
    change (invalidWbPacket c1) with (invalidWbPacket (ctl w) ++ [follow (ctl w) p]). by rewrite Hw.
  - apply (ph_flush _ _ s (r0 ++ [follow (ctl w) p])); [|exact Hev|by rewrite HW', app_assoc|by destruct r0|exact Hm|
      by change (Forall locked_ack (flight w ++ [])); rewrite app_nil_r].
    destruct Hr as [? ? ? Hw]. split; try assumption.
    change (invalidWbPacket c1) with (invalidWbPacket (ctl w) ++ [follow (ctl w) p]). by rewrite Hw.
Qed.

(** What leaves the migration as it is. *)
Lemma phase_same w w' W :
  phase w W -> migrating (csys (ctl w)) = true -> rk (ctl w') = rk (ctl w) -> readDone (ctl w') = readDone (ctl w) ->
  (forall iP iD, reading (ctl w) W iP iD -> reading (ctl w') W iP iD) ->
  (forall lP lD aP aD, writing (ctl w) W lP lD aP aD -> writing (ctl w') W lP lD aP aD) ->
  (forall r0, flushing (ctl w) r0 -> flushing (ctl w') r0) ->
  readMigEvent (ctl w') = readMigEvent (ctl w) -> read_unsent (ctl w') = read_unsent (ctl w) ->
  writeMigEvent (ctl w') = writeMigEvent (ctl w) -> write_unsent (ctl w') = write_unsent (ctl w) ->
  invalidWbMigEvent (ctl w') = invalidWbMigEvent (ctl w) -> (busy (ctl w) -> busy (ctl w')) -> flight w' = flight w ->
  same_pages s0 (contents w') (contents w) -> phase w' W.
Proof.
  intros Hph Hmg Hk Hrd H1 H2 H3 H4 H5 H6 H7 H8 Hbz H9 H10.
  destruct Hph as [iP iD Hr Hev Hbusy Hm Hfw|lP lD aP aD Hr Hev Hbusy Hm Hfw HaP HaD|s r0 Hr Hev HW' Hne Hm Hfw|Hm]; [| | |congruence].
  - apply (ph_read _ _ iP iD); [by apply H1|by rewrite H4, H5|by apply Hbz| |by rewrite H9]. intros x Hx. by rewrite H10, Hm.
  - apply (ph_write _ _ lP lD aP aD); [by apply H2|by rewrite H6, H7|by apply Hbz| |by rewrite H9|done..]. intros x Hx. by rewrite H10, Hm.
  - apply (ph_flush _ _ s r0); [by apply H3|by rewrite H8|done|done| |by rewrite H9]. intros x Hx. by rewrite H10, Hm.
Qed.

Lemma step_request w w' W p port :
  phase w W -> migrating (csys (ctl w)) = true -> port <> 0 -> in_locked (pk_addr p) (ctl w) = true ->
  act (fun c => drop_answer (recvTimingReq p port c)) [] (contents w) (flight w) (ctl w) = Ok w' -> phase w' W.
Proof.
  intros Hph Hmg Hport Hin (c' & Hop & ->)%act_inv. unfold recvTimingReq in Hop.
  rewrite (proj2 (Z.eqb_neq port 0) Hport) in Hop.
  change (in_locked (pk_addr p) (primed [] (ctl w))) with (in_locked (pk_addr p) (ctl w)) in Hop.
  change (csys (primed [] (ctl w))) with (csys (ctl w)) in Hop. rewrite Hmg, Hin in Hop.
  cbn [andb drop_answer mbind outcome_bind] in Hop. injection Hop as <-.
  apply (phase_same w); try done; [..|by change (flight w ++ [] = flight w); rewrite app_nil_r];
    intros; destruct H; split; assumption.
Qed.

Lemma step_phase w W l w' :
  phase w W -> migrating (csys (ctl w)) = true -> Forall locked_ack W -> step w l w' ->
  phase w' (W ++ (follow (ctl w) <$> l)) /\ Forall locked_ack (W ++ (follow (ctl w) <$> l)).
Proof.
  intros Hph Hmg HW Hst. pose proof (phase_rank w W Hph Hmg) as Hk.
  assert (Hl : Forall (flushed_line (ctl w)) l) by (destruct Hst; try constructor; [done|constructor]).
  split; [|apply Forall_app; split; [done|]; apply Forall_fmap; eapply Forall_impl; [exact Hl|by intros p; apply follow_line]].
  destruct Hst; cbn [fmap list_fmap]; rewrite ?app_nil_r.
  - by eapply step_read.
  - by eapply step_write.
  - by eapply step_flush.
  - by eapply step_data.
  - by eapply step_ack.
  - by eapply step_arrives.
  - by eapply step_request.
  - apply (phase_same w); try done. intros x Hx. apply H. unfold csys. by rewrite Hk.
Qed.

Lemma follow_sys c c' p : rk c = rk c' -> follow c p = follow c' p.
Proof. intros E. unfold follow, redirected, csys. by rewrite E. Qed.

Lemma runs_phase c0 w l w' :
  rk c0 = k0 -> runs w l w' -> forall W, phase w W -> Forall locked_ack W ->
  phase w' (W ++ (follow c0 <$> l)) /\ Forall locked_ack (W ++ (follow c0 <$> l)).
Proof.
  intros Hc0. induction 1 as [w|w l w1 l' w2 Hmg Hst Hruns IH]; intros W Hph HW.
  - cbn [fmap list_fmap]. by rewrite app_nil_r.
  - destruct (step_phase _ _ _ _ Hph Hmg HW Hst) as [H1 H2]. pose proof (phase_rank w W Hph Hmg) as Hk.
    rewrite fmap_app, app_assoc.
    replace (follow c0 <$> l) with (follow (ctl w) <$> l); [by apply IH|].
    apply list_fmap_ext. intros i p _. apply follow_sys. by rewrite Hk.
Qed.
End migration.
