(* ===== verification/PageSwapEnd.v ===== *)
(** The end of a migration keeps the ranking: the DRAM page leaves the victims
    for queue 5, and every page is still in exactly one list. *)
From stdpp Require Import functions.
From S2P Require Import Prelude MemTypes Memory Linked Pages PageTable PageRank PageLists PageRankLaws PageSwap.

#[local] Open Scope Z_scope.

(** ** Changes the ranking does not see *)

Record ranked_alike (r r' : Ranking) : Prop := {
  al_length : length (pages (rsys r')) = length (pages (rsys r));
  al_links q : links r' q = links r q;
  al_ends k : first_of k r' = first_of k r /\ last_of k r' = last_of k r;
  al_sizes : numPcmPages (rsys r') = numPcmPages (rsys r) /\ numDramPages (rsys r') = numDramPages (rsys r);
  al_selected : migratingPage r' = migratingPage r;
  al_page q y : page_at r' q = Some y -> exists x, page_at r q = Some x /\
    page_number y = page_number x /\ access_counter y = access_counter x /\ queue_number y = queue_number x
}.

Lemma alike_ranked out r r' L : ranked_alike r r' -> ranked_but out r L -> ranked_but out r' L.
Proof.
  intros [Hlen Hlk Hends [Enp End] Esel Hpage] [[K1 K2 K3 K4 K5 K6 K7] Hh Hc Hs Hm Ho].
  split; rewrite ?Enp, ?End, ?Esel, ?Hlen; try done.
  - split; try done.
    + intros k q. rewrite Hlen. apply K2.
    + intros k Hk. rewrite (proj1 (Hends k)). by apply K5.
    + intros k Hk. rewrite (proj2 (Hends k)). by apply K6.
    + intros k. apply (chained_ext _ r); [|done]. intros b _. apply Hlk.
  - intros k q y Hne Hq Hy. destruct (Hpage q y Hy) as (x & Hx & E1 & E2 & E3).
    destruct (Hh k q x Hne Hq Hx) as (H1 & H2 & H3). unfold home_ok. by rewrite E1, E2, E3.
Qed.

(** The fields of the system that only migrations and allocations use. *)
Lemma alike_fields r f :
  (forall s, pages (f s) = pages s /\ numPcmPages (f s) = numPcmPages s /\ numDramPages (f s) = numDramPages s /\
    forall b, free_list b (f s) = free_list b s /\ free_tail b (f s) = free_tail b s) ->
  ranked_alike r (r <| rsys ::= f |>).
Proof.
  intros H. destruct (H (rsys r)) as (E1 & E2 & E3 & E4).
  assert (Hp : pages (rsys (r <| rsys ::= f |>)) = pages (rsys r)) by exact E1.
  split; try done; unfold links, page_at; rewrite ?Hp; try done.
  - intros [i|b]; [done|]. destruct (E4 b) as [E5 E6]. split; cbn; by rewrite ?E5, ?E6.
  - intros q y Hy. by exists y.
Qed.
Lemma alike_valid r p x v : page_at r p = Some x -> ranked_alike r (put p (x <| valid := v |>) r).
Proof.
  intros Hx. pose proof (page_lt _ _ _ Hx) as Hp. split; try done.
  - apply length_put.
  - intros q. rewrite links_put by done. destruct (decide (q = p)) as [->|]; [|done]. by rewrite (page_links _ _ _ Hx).
  - intros q y. rewrite page_put by done. destruct (decide (q = p)) as [->|]; [|by eauto].
    intros [= <-]. by exists x.
Qed.
Lemma alike_trans r1 r2 r3 : ranked_alike r1 r2 -> ranked_alike r2 r3 -> ranked_alike r1 r3.
Proof.
  intros [A1 A2 A3 [A4 A4'] A5 A6] [B1 B2 B3 [B4 B4'] B5 B6]. split; try congruence.
  - intros k. destruct (A3 k), (B3 k). split; congruence.
  - split; congruence.
  - intros q z (y & Hy & E1 & E2 & E3)%B6. destruct (A6 q y Hy) as (x & Hx & F1 & F2 & F3).
    exists x. split; [done|]. split_and!; congruence.
Qed.

(** ** The PCM frame is given back *)

Lemma clear_pcm_ok k0 index L out :
  0 <= index < numPcmPages (rsys k0) -> ranked_but out k0 L ->
  exists r', on_sys (clearPhysPages true index) k0 = Ok r' /\ ranked_but out r' L /\ ranked_alike k0 r'.
Proof.
  intros Hi H. pose proof (rk_size _ _ _ H) as (_ & Hd & Hlen & _).
  unfold on_sys, clearPhysPages, pagePtr, num_pages, first_page.
  destruct (Z.leb_spec 0 index), (Z.ltb_spec index (numPcmPages (rsys k0))); try lia. cbn [andb mbind outcome_bind].
  rewrite Z.add_0_l. destruct (lt_page k0 (Z.to_nat index)) as [x Hx]; [lia|].
  set (f := fun s => s <| pcmPages := i32 (pcmPages s - 1) |>).
  set (k1 := k0 <| rsys ::= f |>). assert (A : ranked_alike k0 k1) by by apply alike_fields.
  rewrite (upd_page_ok (Z.to_nat index) _ _ x) by exact Hx. cbn [mbind outcome_bind].
  eexists. split; [reflexivity|].
  assert (A' := alike_trans _ _ _ A (alike_valid k1 (Z.to_nat index) x false Hx)).
  split; [by eapply alike_ranked|exact A'].
Qed.

(** ** The DRAM page is taken off the victims *)

(** [DRAM_victim_list = page->next; page->next->pre = NULL]. *)
Definition pop_victim (r : Ranking) : Ranking :=
  match page_at r (default 0%nat (DRAM_victim_list (rsys r))) with
  | Some x => link_prev (Free false) (next x) None (link_next (Free false) None (next x) r)
  | None => r
  end.

Section pop.
Context (r0 : Ranking) (L : Key -> list nat) (HL : linked r0 L) (p : nat) (l : list nat).
Context (El : L (Free false) = p :: l) (Hl : l <> []).

Lemma victim_first : exists x q y, DRAM_victim_list (rsys r0) = Some p /\ page_at r0 p = Some x /\
  next x = Some q /\ head l = Some q /\ page_at r0 q = Some y /\ q <> p.
Proof using HL El Hl.
  destruct (middle_page _ _ HL (Free false) p [] l El) as (x & Hx & Hn & _ & Hp & _ & _).
  pose proof (lk_first _ _ HL (Free false) I) as Hf. rewrite El in Hf. cbn in Hf. injection Hf as Hf.
  destruct l as [|q l']; [done|]. destruct (member_page _ _ HL (Free false) q) as [y Hy].
  { rewrite El. right. left. }
  exists x, q, y. split_and!; try done. intros ->. apply Hp. left.
Qed.

Lemma pop_victim_ok :
  linked (pop_victim r0) (<[Free false := l]> L) /\ bare (pop_victim r0) = bare r0 /\
  page_at (pop_victim r0) p = page_at r0 p.
Proof using HL El Hl.
  destruct victim_first as (x & q & y & Hf & Hx & Hn & Hq & Hy & Hne).
  destruct (link_both _ _ HL (Free false) p [] l El) as (_ & Hb & _ & Hw).
  assert (E : pop_victim r0 = link_prev (Free false) (Some q) None (link_next (Free false) None (Some q) r0)).
  { unfold pop_victim. rewrite Hf. change (default 0%nat (Some p)) with p. by rewrite Hx, <- Hn. }
  rewrite E. clear E. cbn [last] in Hb, Hw. rewrite Hq in Hb, Hw.
  split; [|split].
  - apply (bypass_linked _ _ HL (Free false) p [] l); [done|right; by exists false|done| | |].
    + done.
    + rewrite first_link_prev, first_link_next; [|by apply (first_some _ _ HL)]. by rewrite decide_True, Hq.
    + rewrite last_link_prev, last_link_next by (rewrite last_link_next; by apply (last_some _ _ HL)).
      by rewrite Hq, decide_False.
  - by rewrite bare_link_prev, bare_link_next.
  - rewrite page_link_prev by congruence. by apply page_link_next.
Qed.
End pop.

(** ** The end of a migration *)

Lemma lift_sys_ok f c k1 : on_sys f (rk c) = Ok k1 -> lift_sys f c = Ok (c <| rk := k1 |>).
Proof. intros E. unfold lift_sys. by rewrite E. Qed.
Lemma lift_rank_ok f c k1 : f (rk c) = Ok k1 -> lift_rank f c = Ok (c <| rk := k1 |>).
Proof. intros E. unfold lift_rank. by rewrite E. Qed.
Lemma lift_upd_ok p g c x :
  page_at (rk c) p = Some x -> lift_sys (upd_page p g) c = Ok (c <| rk := put p (g x) (rk c) |>).
Proof. intros Hx. apply lift_sys_ok. by apply upd_ok. Qed.

(** The page taken, counted and put in queue 5. *)
Lemma enter_queue_ok now k1 L p x :
  ranked_but (Some p) k1 L -> (forall k, p ∉ L k) -> page_at k1 p = Some x -> page_number x = Z.of_nat p ->
  numPcmPages (rsys k1) <= Z.of_nat p ->
  exists k2, insert_into_MQ p 5 (put p (x <| access_counter := 32 |> <| last_access_time := now |>) k1) = Ok k2 /\
    ranked k2.
Proof.
  intros H Hp Hx Hn Hd. set (x1 := x <| access_counter := 32 |> <| last_access_time := now |>).
  assert (H1 : ranked_but (Some p) (put p x1 k1) L) by by eapply ranked_upd.
  assert (Hx1 : page_at (put p x1 k1) p = Some x1) by by apply page_put_eq; eapply page_lt.
  destruct (put_in_MQ _ _ _ _ H1 Hx1 5 Hp) as (k2 & x2 & L2 & E & H2 & Hin & _ & Hx2 & Eb & Eb2); [unfold num_queues; lia|].
  exists k2. split; [done|]. exists L2. eapply ranked_back; [exact H2|exact Hin|exact Hx2|].
  destruct (bare_rest _ _ Eb2) as (-> & _ & _).
  eapply (rankable_home _ _ _ x1); [done|]. split; [done|]. cbn. split_and!; try done.
  change (Z.of_nat p < numPcmPages (rsys k1) -> (5 <= 4)%nat). lia.
Qed.

Section ending.
Context (now : Z) (c : Control) (L : Key -> list nat) (p : nat) (l : list nat).
Context (HL : ranked_but None (rk c) L) (El : L (Free false) = p :: l) (Hl : l <> []).

(** From the choice of the DRAM page on. *)
Lemma take_victim_ok :
  exists c', ranked (rk c') /\ forall K : Control -> outcome Control,
   (p ← deref (DRAM_victim_list (csys c));
    x ← get_page p (csys c);
    let c := on_csys (fun s => s <| DRAM_victim_list := next x |>) c in
    q ← deref (next x);
    c ← lift_sys (upd_page q (fun y => y <| pre := None |>)) c;
    let c := match DRAM_victim_list (csys c) with
             | None => on_csys (fun s => s <| DRAM_victim_tail := None |>) c
             | Some _ => c
             end in
    c ← lift_sys (upd_page p (fun x => x <| access_counter := 32 |> <| last_access_time := now |>)) c;
    c ← lift_rank (insert_into_MQ p 5) c; K c) = K c'.
Proof using HL El Hl.
  pose proof (rk_linked _ _ _ HL) as Hlk.
  destruct (victim_first _ _ Hlk p l El Hl) as (x & q & y & Hf & Hx & Hn & Hq & Hy & Hne).
  assert (Hin : p ∈ L (Free false)) by (rewrite El; left).
  destruct (rk_home _ _ _ HL (Free false) p x ltac:(done) Hin Hx) as (Hnum & _ & _ & Hdram).
  destruct (pop_victim_ok _ _ Hlk p l El Hl) as (Hlk1 & Hb1 & Hpx1).
  assert (Hout := ranked_except p _ _ (Free false) HL Hin ltac:(done)).
  destruct (take_off _ _ _ _ Hout Hx (Free false) l (fun k => Ok (pop_victim k)) Hin) as
    (k1 & x1 & L1 & [= <-] & H1 & Hp1 & _ & Hx1 & E1 & _); [by eapply cons_without|by eexists|].
  rewrite Hpx1, Hx in Hx1. injection Hx1 as <-.
  assert (Hge : numPcmPages (rsys (pop_victim (rk c))) <= Z.of_nat p).
  { destruct (bare_rest _ _ Hb1) as (-> & _ & _). symmetry in Hdram. apply Z.ltb_ge in Hdram. done. }
  assert (Epop : pop_victim (rk c) = put q (y <| pre := None |>) (with_first (Free false) (Some q) (rk c))).
  { unfold pop_victim. rewrite Hf. change (default 0%nat (Some p)) with p. rewrite Hx, Hn.
    unfold link_next, link_prev. change (page_at (with_first (Free false) (Some q) (rk c)) q) with (page_at (rk c) q).
    by rewrite Hy. }
  destruct (enter_queue_ok now _ _ _ _ H1 Hp1 (eq_trans Hpx1 Hx) Hnum Hge) as (k2 & E & Hk2).
  eexists. split; [|intros K].
  2: {
  unfold csys. rewrite Hf. cbn [deref mbind outcome_bind]. unfold get_page. rewrite (aget_ok _ _ _ Hx).
  cbn [mbind outcome_bind]. rewrite Hn. cbn [deref mbind outcome_bind].
  set (c1 := on_csys _ c). assert (Hc1 : rk c1 = with_first (Free false) (Some q) (rk c)) by done.
  rewrite (lift_upd_ok q _ c1 y) by (by rewrite Hc1). cbn [mbind outcome_bind].
  rewrite Hc1, <- Epop. set (c2 := c1 <| rk := _ |>). assert (Hc2 : rk c2 = pop_victim (rk c)) by done.
  assert (Hv : DRAM_victim_list (rsys (rk c2)) = Some q) by by rewrite Hc2, Epop. rewrite Hv.
  rewrite (lift_upd_ok p _ c2 x) by (by rewrite Hc2, Hpx1). cbn [mbind outcome_bind].
  set (c3 := c2 <| rk := _ |>). erewrite (lift_rank_ok _ c3); [reflexivity|].
  change (rk c3) with (put p (x <| access_counter := 32 |> <| last_access_time := now |>) (rk c2)).
  rewrite Hc2. exact E. }
  exact Hk2.
Qed.
End ending.

(** What is left when the DRAM page is ranked. *)
Definition finish (now : Z) (c : Control) : Control :=
  let c := on_csys (fun s => s <| migrating := false |>) c in
  let c := c <| migrationTick ::= fun t => t + (now - migrationStartTick c) |>
             <| pageMigrationNumber ::= Z.succ |> in
  if haveRefuse c then c <| retries ::= Z.succ |> else c.
Lemma finish_rank now c : rk (finish now c) = rk (on_csys (fun s => s <| migrating := false |>) c).
Proof. unfold finish. cbv zeta. by destruct (haveRefuse _). Qed.

Lemma doSomeEnd_ok now c L p l :
  migrating (csys c) && readDone c && writeDone c = true -> invalidWbPacket c = [] ->
  ranked_but None (rk c) L -> L (Free false) = p :: l -> l <> [] ->
  (both (csys c) = true \/ 0 <= lockedPcmNumber (csys c) < numPcmPages (csys c)) ->
  exists c', doSomeEndThing now c = Ok c' /\ ranked (rk c') /\ migrating (csys c') = false.
Proof.
  intros Hdone Hwb HL El Hl Hb. unfold doSomeEndThing. rewrite Hdone, Hwb.
  assert (Hc1 : exists c1, (if both (csys c) then Ok c
      else lift_sys (clearPhysPages true (lockedPcmNumber (csys c))) c) = Ok c1 /\ ranked_but None (rk c1) L).
  { destruct (both (csys c)) eqn:E; [by exists c|]. destruct Hb as [Hb|Hb]; [done|].
    destruct (clear_pcm_ok _ _ _ _ Hb HL) as (k1 & E1 & H1 & _). eexists. split; [by apply lift_sys_ok|done]. }
  destruct Hc1 as (c1 & -> & HL1). cbn [mbind outcome_bind].
  destruct (take_victim_ok now c1 L p l HL1 El Hl) as (c2 & (L2 & HL2) & E).
  exists (finish now c2). split; [exact (E (fun c => Ok (finish now c)))|].
  assert (A : ranked_alike (rk c2) (rk (on_csys (fun s => s <| migrating := false |>) c2))) by by apply alike_fields.
  unfold csys. rewrite finish_rank. split; [exists L2; by eapply alike_ranked|done].
Qed.
