(* ===== verification/PageSwapCorrect.v ===== *)
(** The migration of a page is correct: when it is over the pages hold what
    they must, from every state on the way the end can be reached, and the
    ranking is whole afterwards. *)
From S2P Require Import Prelude IntMath MemTypes Lines Memory MemLaws Atomic Linked Pages PageTable PageRank.
From S2P Require Import PageLists PageRankLaws PageRankInit PageSwap PageSwapRun PageSwapLaws PageSwapMoves PageSwapEnd.

#[local] Open Scope Z_scope.

(** ** To the end *)

Section finishing.
Context (k0 : Ranking) (m0 : Bytes) (Hsw : swappable (rsys k0)) (Hmig : migrating (rsys k0) = true).
Notation s0 := (rsys k0).
Notation P := (lockedPcmNumber s0).
Notation D := (lockedDramNumber s0).

(** A controller at the end finds the page it takes. *)
Context (Hend : forall now c, flushing k0 c [] -> exists c',
  doSomeEndThing now c = Ok c' /\ ranked (rk c') /\ migrating (csys c') = false).

Lemma act_ok op ans m fl c c' : op (primed ans c) = Ok c' -> act op ans m fl c = Ok (after m fl c').
Proof.
  intros E. unfold act. change (c <| answers := ans |> <| accepted := [] |>) with (primed ans c). by rewrite E.
Qed.

Lemma send_all wbs : forall c, willing (length wbs) (answers c) ->
  exists c', send_invalidWb wbs c = ([], c') /\ c' = c <| accepted := accepted c' |> <| answers := answers c' |>.
Proof.
  induction wbs as [|p wbs IH]; intros c [Hlen Hall].
  - exists c. split; [done|by destruct c].
  - cbn [send_invalidWb]. unfold sendTimingReq. destruct (answers c) as [|b ans] eqn:Ea; [cbn in Hlen; lia|].
    apply Forall_cons in Hall as [-> Hall]. set (c1 := c <| accepted ::= _ |> <| answers := ans |>).
    destruct (IH c1) as (c' & E & Hc'); [split; [cbn in Hlen |- *; lia|done]|]. exists c'. split; [done|].
    by rewrite Hc'.
Qed.

Lemma flush_ends now c W :
  flushing k0 c W -> willing (length W) (answers c) ->
  exists c', processInvalidWb now c = Ok c' /\ ranked (rk c') /\ migrating (csys c') = false.
Proof.
  intros Hf Hw. unfold processInvalidWb. rewrite (fl_wbs _ _ _ Hf). destruct W as [|p W]; [by apply Hend|].
  destruct (send_all _ _ Hw) as (c' & -> & Hc'). cbn [fst snd].
  apply Hend. rewrite Hc'. destruct Hf. by split.
Qed.

Definition can_end (w : World) : Prop :=
  exists w', runs w [] w' /\ migrating (csys (ctl w')) = false /\ ranked (rk (ctl w')).

Lemma can_end_step w w1 : migrating (csys (ctl w)) = true -> step w [] w1 -> can_end w1 -> can_end w.
Proof. intros Hm Hs (w' & Hr & He). exists w'. split; [|done]. by apply (runs_step w [] w1 [] w'). Qed.
Lemma can_end_now w w1 :
  migrating (csys (ctl w)) = true -> step w [] w1 -> migrating (csys (ctl w1)) = false -> ranked (rk (ctl w1)) -> can_end w.
Proof. intros Hm Hs H1 H2. apply (can_end_step w w1); [done..|]. exists w1. split; [constructor|done]. Qed.

Definition yes (n : nat) : list bool := replicate n true.
Lemma yes_willing n : willing n (yes n).
Proof. split; [unfold yes; by rewrite length_replicate|]. by apply Forall_replicate. Qed.

(** *** The flushed lines *)

Lemma flushing_ends w W sent rest :
  migrating (csys (ctl w)) = true -> flushing k0 (ctl w) rest -> invalidWbMigEvent (ctl w) = true ->
  W = sent ++ rest -> can_end w.
Proof.
  intros Hm Hf Hev _. set (ans := yes (length rest)).
  set (c1 := (primed ans (ctl w)) <| invalidWbMigEvent := false |>).
  destruct (flush_ends 0 c1 rest) as (c' & E & Hr & Hmg); [by destruct Hf|apply yes_willing|].
  apply (can_end_now w (after (contents w) (flight w) c')); [done| |done..].
  apply (st_invalidWb ans 0); [done|]. apply act_ok. exact E.
Qed.

(** *** The writes *)

(** All lines are written, and [aP] and [aD] are still to be answered. *)
Definition written (w : World) (W aP aD : list CPkt) : Prop := exists lP lD,
  writing k0 m0 (ctl w) W lP lD aP aD /\ writeMigEvent (ctl w) = write_unsent (ctl w) /\ busy (ctl w) /\
  write_unsent (ctl w) = false /\ flight w ≡ₚ aP ++ aD /\ Forall (ack_for D) aP /\ Forall (ack_for P) aD.

Lemma unsent_none c W lP lD aP aD :
  writing k0 m0 c W lP lD aP aD -> write_unsent c = false -> busy c -> aP ++ aD <> [].
Proof.
  intros [Hk _ _ _ _ _ (HlP & HlP' & _ & Hn & _) Hd] Hun Hb [-> ->]%app_nil. unfold write_unsent in Hun. unfold busy in Hb.
  assert (Hs : csys c = s0) by (unfold csys; by rewrite Hk). rewrite Hs in Hun. unfold writing_both in Hd. cbn [length] in Hn.
  destruct (both s0).
  - destruct Hd as (HlD & HlD' & _ & Hn' & _). cbn [length] in Hn'. apply orb_false_iff in Hun as [H1%Z.ltb_ge H2%Z.ltb_ge].
    replace (pcmMigrationLeft c) with 0 in Hb by lia. replace (dramMigrationLeft c) with 0 in Hb by lia. done.
  - destruct Hd as (Hn' & _ & _). apply Z.ltb_ge in Hun. rewrite Hn' in Hb.
    replace (dramMigrationLeft c) with 0 in Hb by lia. done.
Qed.

(** One more answer. *)
Lemma ack_answered w W aP aD :
  migrating (csys (ctl w)) = true -> written w W aP aD ->
  exists w1, step w [] w1 /\
    ((exists aP' aD', written w1 W aP' aD' /\ (length (aP' ++ aD') < length (aP ++ aD))%nat /\
        migrating (csys (ctl w1)) = true) \/
     (migrating (csys (ctl w1)) = false /\ ranked (rk (ctl w1)))).
Proof.
  intros Hm (lP & lD & Hw & Hev & Hb & Hun & Hfl & HaP & HaD). set (ans := yes (length W)).
  pose proof (unsent_none _ _ _ _ _ _ Hw Hun Hb) as Hne.
  destruct (flight w) as [|p fl] eqn:Efl; [symmetry in Hfl; by apply Permutation_nil_r in Hfl|].
  pose proof (writing_primed k0 m0 ans _ _ _ _ _ _ Hw) as Hw1.
  assert (Hon : exists aP' aD', fl ≡ₚ aP' ++ aD' /\ Forall (ack_for D) aP' /\ Forall (ack_for P) aD' /\
    pk_cmd p = Writeback /\ locked_ack k0 p /\
    write_on k0 m0 0 (processMigrationRespond 0 p (primed ans (ctl w))) (primed ans (ctl w)) W lP lD aP' aD').
  { apply perm_app_cons in Hfl as [(a' & Ha & Hl)|(a' & Ha & Hl)].
    - rewrite Ha in HaP. apply Forall_cons in HaP as [Hap HaP']. exists a', aD. split_and!; try done; [by destruct Hap|by right|].
      by apply (ack_pcm_ok k0 m0 Hsw 0 p _ W lP lD aP a' aD).
    - rewrite Ha in HaD. apply Forall_cons in HaD as [Had HaD']. exists aP, a'. split_and!; try done; [by destruct Had|by left|].
      by apply (ack_dram_ok k0 m0 Hsw 0 p _ W lP lD aP aD a'). }
  destruct Hon as (aP' & aD' & Hfl' & HaP' & HaD' & Hc & Hlock & c1 & Hacc & Hans1 & Hon).
  assert (Hans : drop_answer (recvTimingResp 0 p 0 (primed ans (ctl w))) = processMigrationRespond 0 p (primed ans (ctl w))).
  { apply (answer_locked k0 Hsw Hmig); [by rewrite Hc|by destruct Hw1|by apply ack_place]. }
  assert (Hrun : forall c', processMigrationRespond 0 p (primed ans (ctl w)) = Ok c' ->
    step w [] (after (contents w) fl c')).
  { intros c' E. apply (st_ack ans 0 0 p [] fl); [done|done|]. apply act_ok. by rewrite Hans. }
  destruct Hon as [(E & Hw' & Hev' & Hb' & Hun')|(E & Hf & _ & _)].
  - exists (after (contents w) fl c1). split; [by apply Hrun|]. left. exists aP', aD'. split; [|split].
    + exists lP, lD. split; [exact Hw'|]. split; [exact Hev'|]. split; [exact Hb'|].
      split; [change (write_unsent c1 = false); by rewrite Hun'|]. split; [|done].
      change (flight (after (contents w) fl c1)) with (fl ++ accepted c1). rewrite Hacc. by rewrite app_nil_r.
    + rewrite <- (Permutation_length Hfl), <- (Permutation_length Hfl'). cbn [length]. lia.
    + change (migrating (csys c1) = true). unfold csys. by rewrite (wr_rank _ _ _ _ _ _ _ _ Hw').
  - destruct (flush_ends 0 c1 W Hf) as (c' & E' & Hr & Hmg).
    { rewrite Hans1. apply yes_willing. }
    exists (after (contents w) fl c'). split; [apply Hrun; by rewrite E|]. by right.
Qed.

Lemma written_ends n : forall w W aP aD,
  (length (aP ++ aD) < n)%nat -> migrating (csys (ctl w)) = true -> written w W aP aD -> can_end w.
Proof.
  induction n as [|n IH]; intros w W aP aD Hn Hm Hw; [lia|].
  destruct (ack_answered w W aP aD Hm Hw) as (w1 & Hst & [(aP' & aD' & Hw1 & Hlt & Hm1)|[Hm1 Hr1]]).
  - apply (can_end_step w w1); [done..|]. apply (IH w1 W aP' aD'); [lia|done..].
  - by apply (can_end_now w w1).
Qed.

Lemma writing_ends w W lP lD aP aD :
  migrating (csys (ctl w)) = true -> writing k0 m0 (ctl w) W lP lD aP aD ->
  writeMigEvent (ctl w) = write_unsent (ctl w) -> busy (ctl w) -> flight w ≡ₚ aP ++ aD ->
  Forall (ack_for D) aP -> Forall (ack_for P) aD -> can_end w.
Proof.
  intros Hm Hw Hev Hb Hfl HaP HaD. destruct (writeMigEvent (ctl w)) eqn:He.
  - set (c1 := (primed (yes 128) (ctl w)) <| writeMigEvent := false |>).
    destruct (processWrite_ok k0 m0 c1 W lP lD aP aD) as (c' & E & Hround & Hun); [done|by destruct Hw|done|done|].
    destruct Hround as (kP & kD & HkP & HkD & Hw' & Hev' & Hb' & Hacc).
    set (w1 := after (contents w) (flight w) c').
    apply (can_end_step w w1); [done|apply (st_write (yes 128)); [done|by apply act_ok]|].
    apply (written_ends (S (length ((aP ++ pcm_writes k0 m0 lP kP) ++ aD ++ dram_writes k0 m0 lD kD))) w1 W _ _ (Nat.lt_succ_diag_r _)).
    + change (migrating (csys c') = true). unfold csys. by rewrite (wr_rank _ _ _ _ _ _ _ _ Hw').
    + exists (lP + kP)%nat, (lD + kD)%nat. split; [exact Hw'|]. split; [exact Hev'|]. split; [exact Hb'|].
      split; [change (write_unsent c' = false); rewrite <- Hev'; apply Hun, yes_willing|]. split; [|split].
      * change (flight w1) with (flight w ++ accepted c'). rewrite Hacc, Hfl. change (accepted c1) with (@nil CPkt). solve_Permutation.
      * apply Forall_app. split; [done|by apply ack_writes].
      * apply Forall_app. split; [done|by apply ack_writes].
  - apply (written_ends (S (length (aP ++ aD))) w W _ _ (Nat.lt_succ_diag_r _)); [done|].
    exists lP, lD. split_and!; done || congruence.
Qed.

(** *** The reads *)

(** All lines are asked for, and those of [iP] and [iD] are still to come. *)
Definition asked (w : World) (W : list CPkt) (iP iD : list nat) : Prop :=
  reading k0 m0 (ctl w) W iP iD /\ readMigEvent (ctl w) = read_unsent (ctl w) /\ busy (ctl w) /\
  read_unsent (ctl w) = false /\ same_pages s0 (contents w) m0 /\
  flight w ≡ₚ (read_pkt P <$> iP) ++ (read_pkt D <$> iD).

Lemma fetched_none q left valid buf : fetched m0 q 64 left valid buf [] -> left = 0.
Proof.
  intros [H1 H2 H3 H4 H5 H6 H7 ->]. unfold missing. destruct (filter _ valid) as [|v l] eqn:E; [done|].
  assert (Hv : v ∈ filter (fun v => v = false) valid) by (rewrite E; left).
  apply list_elem_of_filter in Hv as [-> [i Hi]%list_elem_of_lookup]. pose proof (lookup_lt_Some _ _ _ Hi).
  assert (i ∈ []) as ?%elem_of_nil; [|done]. apply H6. split; [lia|done].
Qed.

Lemma asked_some w W iP iD : asked w W iP iD -> flight w <> [].
Proof.
  intros (Hr & _ & Hb & Hun & _ & Hfl) E. rewrite E in Hfl. apply Permutation_nil_l in Hfl. symmetry in Hfl. apply app_nil in Hfl as [HP HD].
  apply fmap_nil_inv in HP as ->. apply fmap_nil_inv in HD as ->.
  destruct Hr as [Hk _ _ _ _ (l & Hl & Hp) Hd]. unfold read_unsent in Hun. unfold busy in Hb.
  assert (Hs : csys (ctl w) = s0) by (unfold csys; by rewrite Hk). rewrite Hs in Hun. unfold fetching_both in Hd.
  pose proof (fe_l _ _ _ _ _ _ _ Hp). destruct (both s0).
  - destruct Hd as (j & Hj & Hd). pose proof (fe_l _ _ _ _ _ _ _ Hd).
    apply orb_false_iff in Hun as [H1%Z.ltb_ge H2%Z.ltb_ge].
    assert (l = 64%nat) as -> by lia. assert (j = 64%nat) as -> by lia.
    by rewrite (fetched_none _ _ _ _ Hp), (fetched_none _ _ _ _ Hd) in Hb.
  - destruct Hd as [Hd _]. apply Z.ltb_ge in Hun. assert (l = 64%nat) as -> by lia.
    by rewrite (fetched_none _ _ _ _ Hp), Hd in Hb.
Qed.

(** The writes have begun. *)
Definition writes_begun (w : World) (W : list CPkt) : Prop := exists lP lD aP aD,
  writing k0 m0 (ctl w) W lP lD aP aD /\ writeMigEvent (ctl w) = write_unsent (ctl w) /\ busy (ctl w) /\
  flight w ≡ₚ aP ++ aD /\ Forall (ack_for D) aP /\ Forall (ack_for P) aD.

Lemma data_answered w W iP iD :
  migrating (csys (ctl w)) = true -> asked w W iP iD ->
  exists w1, step w [] w1 /\ migrating (csys (ctl w1)) = true /\
    ((exists iP' iD', asked w1 W iP' iD' /\ (length (flight w1) < length (flight w))%nat) \/ writes_begun w1 W).
Proof.
  intros Hm Hask. pose proof (asked_some _ _ _ _ Hask) as Hne. destruct Hask as (Hr & Hev & Hb & Hun & Hsame & Hfl).
  destruct (flight w) as [|p fl] eqn:Efl; [done|]. pose proof (reading_primed k0 m0 [] _ _ _ _ Hr) as Hr1.
  assert (Hk : rk (primed [] (ctl w)) = k0) by by destruct Hr1.
  assert (Hon : exists iP' iD' c', pk_cmd p = ReadReq /\ fl ≡ₚ (read_pkt P <$> iP') ++ (read_pkt D <$> iD') /\
    drop_answer (recvTimingResp 0 (read_response (contents w) p) 0 (primed [] (ctl w))) = Ok c' /\
    read_on k0 m0 (primed [] (ctl w)) c' W iP' iD').
  { apply perm_app_cons in Hfl as [(a' & Ha & Hl)|(a' & Ha & Hl)]; symmetry in Ha;
      apply perm_fmap_cons in Ha as (i & i' & Hi & -> & Ha').
    - destruct (pcm_data_ok k0 m0 Hsw 0 (contents w) _ W iP i' iD i Hmig Hr1 Hev Hi Hsame) as (c' & E & Hon).
      exists i', iD, c'. split; [done|]. split; [by rewrite Hl, Ha'|]. split; [|done].
      rewrite (answer_locked k0 Hsw Hmig); [done|done|done|]. exists P, i. split_and!; [by left| |done].
      destruct (rd_pcm _ _ _ _ _ _ Hr) as (l & _ & Hf). by eapply fmap_bound.
    - destruct (dram_data_ok k0 m0 Hsw 0 (contents w) _ W iP i' iD i Hmig Hr1 Hev Hi Hsame) as (c' & E & Hon).
      exists iP, i', c'. split; [done|]. split; [by rewrite Hl, Ha'|]. split; [|done].
      rewrite (answer_locked k0 Hsw Hmig); [done|done|done|]. exists D, i. split_and!; [by right| |done].
      pose proof (rd_dram _ _ _ _ _ _ Hr) as Hd. unfold fetching_both in Hd. destruct (both s0).
      + destruct Hd as (l & _ & Hf). by eapply fmap_bound.
      + destruct Hd as [_ ->]. by apply Permutation_nil_cons in Hi. }
  destruct Hon as (iP' & iD' & c' & Hc & Hl & E & Hon). exists (after (contents w) fl c').
  split; [by apply (st_data [] 0 0 p [] fl); [..|apply act_ok]|].
  destruct Hon as [(Hr' & Hev' & Hb' & Hun' & Hacc)|(-> & -> & Hround)].
  - change (accepted (primed [] (ctl w))) with (@nil CPkt) in Hacc.
    split; [change (migrating (csys c') = true); unfold csys; by rewrite (rd_rank _ _ _ _ _ _ Hr')|]. left.
    exists iP', iD'. split; [|change (flight (after (contents w) fl c')) with (fl ++ accepted c'); rewrite Hacc, app_nil_r; cbn; lia].
    split; [exact Hr'|]. split; [exact Hev'|]. split; [exact Hb'|]. split; [change (read_unsent c' = false); by rewrite Hun'|].
    split.
    + change (contents (after (contents w) fl c')) with (pend (contents w) (filter is_writeback (accepted c'))). by rewrite Hacc.
    + change (flight (after (contents w) fl c')) with (fl ++ accepted c'). by rewrite Hacc, app_nil_r.
  - destruct Hround as (kP & kD & HkP & HkD & Hw' & Hev' & Hb' & Hacc). cbn [fmap list_fmap app] in Hl.
    change (accepted (primed [] (ctl w))) with (@nil CPkt) in Hacc.
    split; [change (migrating (csys c') = true); unfold csys; by rewrite (wr_rank _ _ _ _ _ _ _ _ Hw')|]. right.
    eexists _, _, _, _. split; [exact Hw'|]. split; [exact Hev'|]. split; [exact Hb'|]. split; [|split; by apply ack_writes].
    change (flight (after (contents w) fl c')) with (fl ++ accepted c'). rewrite Hacc, Hl. done.
Qed.

Lemma begun_ends w W : migrating (csys (ctl w)) = true -> writes_begun w W -> can_end w.
Proof. intros Hm (lP & lD & aP & aD & H1 & H2 & H3 & H4 & H5 & H6). by apply (writing_ends w W lP lD aP aD). Qed.

Lemma asked_ends n : forall w W iP iD,
  (length (flight w) < n)%nat -> migrating (csys (ctl w)) = true -> asked w W iP iD -> can_end w.
Proof.
  induction n as [|n IH]; intros w W iP iD Hn Hm Ha; [lia|].
  destruct (data_answered w W iP iD Hm Ha) as (w1 & Hst & Hm1 & [(iP' & iD' & Ha' & Hlt)|Hw]).
  - apply (can_end_step w w1); [done..|]. apply (IH w1 W iP' iD'); [lia|done..].
  - apply (can_end_step w w1); [done..|]. by apply (begun_ends w1 W).
Qed.

(** *** From anywhere *)

Lemma phase_ends w W : phase k0 m0 w W -> migrating (csys (ctl w)) = true -> can_end w.
Proof.
  intros [iP iD Hr Hev Hb Hsame Hfl|lP lD aP aD Hw Hev Hb _ Hfl HaP HaD|s r0 Hf Hev HW _ _ _|Hm' _ _] Hm; [| | |congruence].
  - destruct (readMigEvent (ctl w)) eqn:He.
    + set (c1 := (primed (yes 128) (ctl w)) <| readMigEvent := false |>).
      destruct (processRead_ok k0 m0 c1 W iP iD) as (c' & E & Hround & Hun); [done|by destruct Hr|done|done|].
      destruct Hround as (nP & nD & Hr' & Hev' & Hb' & Hacc). change (accepted c1) with (@nil CPkt) in Hacc.
      set (w1 := after (contents w) (flight w) c').
      apply (can_end_step w w1); [done|apply (st_read (yes 128)); [done|by apply act_ok]|].
      apply (asked_ends (S (length (flight w1))) w1 W (iP ++ nP) (iD ++ nD) (Nat.lt_succ_diag_r _)).
      * change (migrating (csys c') = true). unfold csys. by rewrite (rd_rank _ _ _ _ _ _ Hr').
      * split; [exact Hr'|]. split; [exact Hev'|]. split; [exact Hb'|].
        split; [change (read_unsent c' = false); rewrite <- Hev'; apply Hun, yes_willing|]. split.
        -- change (contents w1) with (pend (contents w) (filter is_writeback (accepted c'))).
           rewrite Hacc. cbn [app]. by rewrite filter_app, !filter_reads.
        -- change (flight w1) with (flight w ++ accepted c'). rewrite Hacc, Hfl, !fmap_app. solve_Permutation.
    + apply (asked_ends (S (length (flight w))) w W iP iD (Nat.lt_succ_diag_r _)); [done|].
      split_and!; done || congruence.
  - by apply (writing_ends w W lP lD aP aD).
  - by apply (flushing_ends w W s r0).
Qed.
End finishing.

(** ** The whole migration *)

(** The controller when its migration starts: no event is scheduled, the pages
    can be migrated, and the lines flushed before wait with the address of the
    frame their page moves to. *)
Record prepared (c : Control) : Prop := {
  pr_rest : resting c;
  pr_pages : swappable (csys c);
  pr_flushed : Forall (locked_ack (rk c)) (invalidWbPacket c)
}.
Definition started (c : Control) : Ranking := (rk c) <| rsys ::= fun s => s <| migrating := true |> |>.

Lemma start_phase c now ans m :
  prepared c -> exists w0, act (doMigrating now) ans m [] c = Ok w0 /\ phase (started c) m w0 (invalidWbPacket c).
Proof.
  intros [[H1 H2 H3 H4 H5] [S1 S2 S3 S4] _].
  set (c1 := (on_csys (fun s => s <| migrating := true |>) (primed ans c)) <| migrationStartTick := now |>).
  destruct (readFromMemory_ok (started c) m c1) as (c' & E & Hround); [done|by split|].
  exists (after m [] c'). split; [apply act_ok; exact E|].
  apply (after_reads (started c) m c1 c' (invalidWbPacket c) [] []); [done|exact Hround|done|done].
Qed.

Lemma migration_phase c now ans m w0 l w :
  prepared c -> act (doMigrating now) ans m [] c = Ok w0 -> runs w0 l w ->
  phase (started c) m w (invalidWbPacket c ++ (follow c <$> l)).
Proof.
  intros Hp Hst Hruns. destruct (start_phase c now ans m Hp) as (w0' & E & Hph). rewrite Hst in E. injection E as <-.
  destruct Hp as [_ [S1 S2 S3 S4] Hfl]. set (c0 := c <| rk := started c |>).
  destruct (runs_phase (started c) m ltac:(by split) ltac:(done) c0 w0 l w ltac:(done) Hruns _ Hph) as [H _]; [exact Hfl|].
  exact H.
Qed.

Lemma phase_over k0 m w W :
  migrating (rsys k0) = true -> phase k0 m w W -> migrating (csys (ctl w)) = false ->
  ended k0 (ctl w) /\ same_pages (rsys k0) (contents w) (pend (exchanged (rsys k0) m) W).
Proof.
  intros Hk [iP iD []|lP lD aP aD []|s r0 []|] Hm; [unfold csys in Hm; congruence..|done].
Qed.

(** C12. A migration moves what the pages hold: whatever the memories refuse and
    in whatever order they answer, whatever lines the caches flush and whatever
    is written elsewhere meanwhile, when the migration is over the DRAM page
    holds what the PCM page held at the start, the PCM page what the DRAM page
    held if that was in use (else what it held itself), and over both the
    flushed lines in order, each in the frame its page moved to. *)
Theorem migration_moves_contents (c : Control) (now : Z) (ans : list bool) (m : Bytes) (w0 w : World) (l : list CPkt)
    (x : Z) :
  prepared c -> act (doMigrating now) ans m [] c = Ok w0 -> runs w0 l w -> migrating (csys (ctl w)) = false ->
  in_pages (csys c) x ->
  contents w x = pend (exchanged (csys c) m) (invalidWbPacket c ++ (follow c <$> l)) x.
Proof.
  intros Hp Hst Hruns Hm Hx. pose proof (migration_phase c now ans m w0 l w Hp Hst Hruns) as Hph.
  destruct (phase_over (started c) _ _ _ eq_refl Hph Hm) as [_ Hc]. by apply Hc.
Qed.

(** The victims are at least two pages, and the frame that is given back is one
    of PCM. *)
Record completable (k : Ranking) : Prop := {
  co_ranked : ranked k;
  co_victims : exists p x q, DRAM_victim_list (rsys k) = Some p /\ page_at k p = Some x /\ next x = Some q;
  co_frame : both (rsys k) = true \/ 0 <= lockedPcmNumber (rsys k) < numPcmPages (rsys k)
}.

Lemma completable_ends k now c :
  completable k -> migrating (rsys k) = true -> flushing k c [] ->
  exists c', doSomeEndThing now c = Ok c' /\ ranked (rk c') /\ migrating (csys c') = false.
Proof.
  intros [[L HL] (p & x & q & Hf & Hx & Hn) Hfr] Hm [Hk Hr Hw Hwb _ _]. pose proof (rk_linked _ _ _ HL) as Hlk.
  pose proof (lk_first _ _ Hlk (Free false) I) as Hh. cbn [first_of free_list] in Hh. rewrite Hf in Hh.
  destruct (L (Free false)) as [|p' l] eqn:El; [done|]. injection Hh as <-.
  destruct (middle_page _ _ Hlk (Free false) p [] l El) as (x' & Hx' & Hn' & _). rewrite Hx in Hx'. injection Hx' as <-.
  apply (doSomeEnd_ok now c L p l); unfold csys; rewrite ?Hk; try done.
  - by rewrite Hm, Hr, Hw.
  - intros ->. by rewrite Hn in Hn'.
Qed.

Lemma started_completable c : completable (rk c) -> completable (started c).
Proof.
  intros [[L HL] Hv Hfr]. split; [|exact Hv|exact Hfr]. exists L. eapply alike_ranked; [|exact HL]. by apply alike_fields.
Qed.


(** ** A small exchange *)

(** A line of page 1 was flushed before the migration, and waits with its new
    address; one of page 4 is flushed while it runs. *)
Definition late_line : CPkt := (data_packet Writeback 0x4040) <| pk_data := replicate 64 9 |>.
(** What [small_control] builds can be migrated, and completed. *)
Lemma small_control_fields e wbs c :
  small_control e wbs = Ok c ->
  resting c /\ swappable (csys c) /\ invalidWbPacket c = wbs /\ lockedPcmNumber (csys c) = 1 /\
  lockedDramNumber (csys c) = 4 /\ both (csys c) = e /\ pcmSize (csys c) = 4 * 4096.
Proof.
  unfold small_control. destruct (init _) as [s|] eqn:E; [|done]. cbn [mbind outcome_bind]. intros [= <-].
  vm_compute in E. injection E as <-. split; [by split|]. split; [|done]. split; vm_compute; (done || by split).
Qed.
Lemma small_prepared e wbs c :
  small_control e wbs = Ok c -> Forall (fun p => ack_for 1 p \/ ack_for 4 p) wbs -> prepared c.
Proof.
  intros (H1 & H2 & H3 & H4 & H5 & _)%small_control_fields Hw. split; [done|done|]. rewrite H3.
  unfold locked_ack. unfold csys in H4, H5. by rewrite H4, H5.
Qed.
Lemma chosen_ranked e s :
  init (System_new (4 * 4096) (2 * 4096) blank_page) = Ok s -> ranked (Ranking_new (choose_pages e s)).
Proof.
  intros Es. assert (Hr : ranked (Ranking_new s)).
  { apply (reaches_ranked (4 * 4096) (2 * 4096)); [split_and!; vm_compute; discriminate|].
    exact (reaches_init _ _ _ s Es). }
  clear Es. destruct Hr as [L HL]. exists L. apply (alike_ranked None (Ranking_new s)); [|exact HL].
  change (Ranking_new (choose_pages e s)) with ((Ranking_new s) <| rsys ::= choose_pages e |>). by apply alike_fields.
Qed.
Lemma small_control_inv e wbs c : small_control e wbs = Ok c ->
  exists s, init (System_new (4 * 4096) (2 * 4096) blank_page) = Ok s /\ rk c = Ranking_new (choose_pages e s).
Proof.
  unfold small_control. destruct (init _) as [s|]; [|discriminate]. intros H. exists s. split; [reflexivity|].
  injection H as <-. reflexivity.
Qed.
Lemma small_completable e wbs c : small_control e wbs = Ok c -> completable (rk c).
Proof.
  intros (s & Es & ->)%small_control_inv. split; [by apply chosen_ranked|..]; vm_compute in Es; injection Es as <-.
  - eexists _, _, _. split; [reflexivity|]. split; reflexivity.
  - right. by split.
Qed.

Lemma flushed_to_4 : Forall (fun p => ack_for 1 p \/ ack_for 4 p) [small_flush 0x4000].
Proof. constructor; [|constructor]. right. split; [done|]. exists 0%nat. split; [lia|]. by vm_compute. Qed.

(** Operations one after the other. *)
Lemma run_chain (o : outcome Control) (f : Control -> outcome World) (g h : World -> outcome World) (t : World -> World -> bool) :
  match (c ← o; w0 ← f c; w1 ← g w0; w ← h w1; Ok (t w0 w)) with Ok b => b | Err _ => false end = true ->
  exists c w0 w1 w, o = Ok c /\ f c = Ok w0 /\ g w0 = Ok w1 /\ h w1 = Ok w /\ t w0 w = true.
Proof.
  destruct o as [c|]; [|discriminate]. cbn [mbind outcome_bind]. destruct (f c) as [w0|] eqn:E0; [|discriminate].
  cbn [mbind outcome_bind]. destruct (g w0) as [w1|] eqn:E1; [|discriminate]. cbn [mbind outcome_bind].
  destruct (h w1) as [w|] eqn:E2; [|discriminate]. cbn [mbind outcome_bind]. intros H. by exists c, w0, w1, w.
Qed.
Lemma late_line_flushed c : lockedDramNumber (csys c) = 4 -> flushed_line c late_line.
Proof.
  intros H4. split; [reflexivity| |reflexivity]. exists 1%nat. split; [lia|]. right. rewrite H4. vm_compute. reflexivity.
Qed.

Lemma migration_moves_contents_witness :
  exists c w0 w, prepared c /\ act (doMigrating 10) (replicate 128 true) tag_bytes [] c = Ok w0 /\
    runs w0 [late_line] w /\ migrating (csys (ctl w)) = false /\
    contents w <$> [0x1003; 0x1043; 0x4003; 0x4043; 0x4fff] = [67; 9; 7; 19; 31].
Proof.
  destruct (run_chain (small_control true [small_flush 0x4000])
    (act (doMigrating 10) (replicate 128 true) tag_bytes []) (flush_arrives late_line) (serve 300 [true; true])
    (fun w0 w => migrating (csys (ctl w0)) && (lockedDramNumber (csys (ctl w0)) =? 4) && negb (migrating (csys (ctl w)))))
    as (c & w0 & w1 & w & Ec & E0 & E1 & E2 & Hok); [vm_compute; reflexivity|].
  apply andb_prop in Hok as [[Hm0 H4%Z.eqb_eq]%andb_prop Hm%negb_true_iff]. exists c, w0, w.
  assert (Hruns : runs w0 [late_line] w).
  { apply (runs_step w0 [late_line] w1 [] w); [exact Hm0| |by eapply serve_runs].
    apply st_flush; [by apply late_line_flushed|exact E1]. }
  pose proof (small_prepared _ _ _ Ec flushed_to_4) as Hp.
  pose proof (small_control_fields _ _ _ Ec) as (_ & _ & Hwb & HP & HD & Hb & Hsz).
  split; [exact Hp|]. split; [exact E0|]. split; [exact Hruns|]. split; [exact Hm|].
  pose proof (fun x => migration_moves_contents c 10 _ _ w0 w [late_line] x Hp E0 Hruns Hm) as H.
  assert (Hin : forall x, page_has 1 x \/ page_has 4 x -> in_pages (csys c) x).
  { intros x Hx. unfold in_pages. rewrite HP, HD. exact Hx. }
  assert (Hpages : forall x, 0x1000 <= x < 0x2000 \/ 0x4000 <= x < 0x5000 -> page_has 1 x \/ page_has 4 x) by done.
  cbn [fmap list_fmap]. rewrite !H by (apply Hin, Hpages; lia). rewrite Hwb. unfold exchanged, moved.
  unfold follow, redirected. rewrite HP, HD, Hb, Hsz. vm_compute. reflexivity.
Defined.

